(* ===== verification/_CoqProject ===== *)
-Q . S2P
Prelude.v
Sync.v
Pmm.v
Vmm.v
Swap.v
Elf.v
Handle.v
Vmo.v
FileLock.v
Channel.v
Journal.v
Ofs.v
OfsInode.v
OfsFile.v
Crypto.v
Process.v
Lifecycle.v
Rendezvous.v
Signals.v
Streams.v
Epoll.v
Trace.v
Inflate.v
PkgFormats.v
PkgArchive.v
Vfs.v
VfsProto.v
VfsServer.v
Ext2.v
VirtQueue.v
Term.v
PkgMain.v
Nano.v
ShellLang.v
LineEdit.v
ShellRun.v
