(* ===== verification/Prelude.v ===== *)
(** * openv: a verification development for a RISC-V microkernel

    openv is a kernel for RISC-V (Sv39) written in Rust, with the servers and programs
    that run on it.  The kernel (src/src) manages physical and virtual memory, processes,
    signals, and objects reached through per-process handle tables: channels, ports,
    memory objects.  Processes talk by synchronous messages; the file system, /proc and
    /dev are user-level servers (src/user) that answer such messages.  This library
    models that code as Rocq functions and relations and proves what it promises.
    File names below are relative to src/.

    ** How code becomes a definition

    A function that changes state is a computation in the monad [M S] defined here: it
    takes the state and returns [Ok], [Err] (the source's [Err] or [None]) or [Panic]
    together with the state it leaves, so a change made before an error stays made.  A
    machine integer is a [Z], with [wrap] and [sat_add] written where the source wraps or
    saturates; a byte string is a list of [Z]; a map is a [gmap].  A definition keeps the
    source's name where Rocq allows it, and comes with the guards, the early returns and
    the order of effects of the source.  Code that is not part of the repository, and what
    hardware or another process does, is an argument: the contents of user memory, the
    block device and its faults, the answers of the kernel to a user program, the other
    side of a network connection.  Concurrency is explicit where it matters: a handler is
    cut at the points where another HART or process can run, and the theorems are about
    every interleaving (Channel, Lifecycle, Streams, Sync) or every sequence of steps of a relation.

    ** The files

    Memory.
    - Pmm: src/mm/pmm.rs.  State [pmm]: frames of 512 words, the intrusive free list,
      reference counts.
    - Vmm: src/mm/vmm.rs.  Page tables in those frames; [walk] and [translate] are the
      abstract view of an address space.
    - Swap: src/mm/swap.rs, alloc_page, handle_user_page_fault, src/trap/page_fault.rs,
      the memory accounting of src/posix/job.rs.
    - Vmo: src/mm/vmo.rs and the mapping loops of src/syscall/vm.rs.
    - Elf: src/posix/elf.rs, the loader, down to the bytes of the frames it fills.

    Objects and locks.
    - Sync: src/sync.rs, the mutex that detects a HART locking it twice; the spin lock inside
      is a class, and the owner an atomic with relaxed ordering.
    - Handle: src/ipc/handle.rs, generic in the object; [view] is the abstract table.
    - Channel: src/ipc/channel.rs, src/ipc/port.rs and their calls in src/syscall/ipc.rs;
      Section [race] is the blocking read against concurrent writers.
    - FileLock: byte-range locks of src/syscall/ipc.rs.
    - Streams: pipes, terminals and the calls on descriptors (src/syscall/fs.rs, sys_pipe of
      src/syscall/ipc.rs, the pipe halves of src/ipc/handle.rs, src/tty.rs, the line
      discipline of src/trap/interrupt.rs); Section [pipe_race] is the blocking read
      against writers and closers on other HARTs.
    - Epoll: src/syscall/epoll.rs; the sockets of src/net/socket.rs are an argument.

    Processes.
    - Process: the process control block, the run queue and the scheduler
      (src/posix/process.rs, src/posix/job.rs, src/namespace.rs, src/ipc/msg.rs).
    - Lifecycle: fork, clone, exit, waitpid (src/posix/spawn.rs, src/posix/wait.rs,
      src/syscall/proc.rs).
    - Rendezvous: send, receive, sendrec and the mailbox (src/syscall/ipc.rs).
    - Signals: signals, sleeping, futexes (src/syscall/proc.rs, src/trap/mod.rs).
    - Trace: src/trace.rs, the bytecode machine, the programs and the ring of records.
    - Crypto: src/crypto.rs and the password check of src/posix/user.rs.

    The file system.
    - Journal, Ofs: user/vfs-server/src/blockfs.rs; the block device is a map with a plan
      that says which operations fail.  OfsInode and OfsFile hold the theorems.
    - Vfs: the tree, the paths and the archive scanner of user/vfs-server/src/main.rs; the
      block file system is the class [BlockFs], of which Ofs is an instance.
    - VfsProto: user/vfs-proto, user/procfs-server, user/devfs-server.
    - VfsServer: the open-file table and every request handler of the server.
    - Ext2: user/vfs-server/src/ext2.rs, the other instance of [BlockFs].

    Devices.
    - VirtQueue: src/net/virtqueue.rs (and its copy in user/virtio-blk-driver), with the
      device as a step relation; the receive path of src/net/virtio_mmio.rs.

    The package manager.
    - Inflate: user/pkg/src/gzip.rs; the two sinks of the decoder are instances of a class.
    - PkgFormats: Modules [Dns] and [Deb], user/pkg/src/dns.rs and deb.rs.
    - PkgArchive: Modules [Tar], [Ar] and [Http], the archives of user/pkg/src/main.rs and
      ar.rs, and the downloads of http.rs.
    - PkgMain: the commands of user/pkg/src/main.rs; the files and the network are the class
      [Files], of which [store] is an instance.

    The shell (user/sh/src/main.rs).
    - Term: the bytes the shell writes, and a terminal that interprets them.
    - LineEdit: the input line with its keys, history and completion.
    - ShellLang: environment, expansion, pipelines, paths.
    - ShellRun: built-in commands, redirections, pipelines and the main loop, on a table of
      descriptors; what the system answers is the record [os].
    - Nano: the text editor.

    ** What the theorems show

    - Invariants of reachable states: the free list (pmm_steps_wf), byte-range locks
      (locks_exclusive), the process table under IPC (ipc_never_panics), the tree of the
      file-system server (vfs_tree_invariant).
    - Refinement: the handle table implements a map from handles to objects
      (insert_refines, remove_refines), the page table a map from pages to entries
      (map_page_refines), the run queue a list (run_queue_refines), the virtqueue a queue
      of buffer chains (virtqueue_simulates), the streaming decompressor the buffering one
      (gunzip_to_fd_refines), the text editor a text with a cursor (nano_refines),
      an interest list a map from descriptors to events (epoll_ctl_refines), the trace
      ring the end of a log (trace_refines).
    - Functional behaviour down to bytes: the image an ELF file gets (load_elf_image), reads
      and lookups of ext2 (ext2_file_read, ext2_lookup_first_block), the bytes that go
      through a pipe (pipe_fifo), the lines a terminal gives its reader (tty_lines), the
      events a wait reports (epoll_reports), the screen while a line is typed
      (line_edit_screen), the pipe ends of a pipeline (pipeline_wiring),
      the files a package leaves and what its removal takes away (install_remove).
    - Isolation: mapping in one address space leaves the others alone (map_page_isolated),
      reaping a process frees no shared table (reap_respects_sharing), a file-system
      request stays in its mount namespace (namespaces_isolated), a trace program reads
      only its context, but for the end of the address space (vm_confined).
    - Locks: mutual exclusion, and a panic exactly when a HART locks what it holds, under
      every interleaving and relaxed view (mutex_correct).
    - Crash safety: a journal commit interrupted anywhere, and recoveries interrupted any
      number of times, leave all of a transaction or none (commit_crash_atomic).
    - Round trips: swapping out and in, files on disk, inodes, signal frames, protocol
      messages, compressed streams, archives, packages, names, command lines.
    - Liveness: no wakeup is lost between a writer and a blocking reader, or a child's
      exit and its waiting parent; a write ends the wait of a reader or of a process that
      watches the pipe (pipe_read_resumes, epoll_delivers); every file-system request is
      answered once; a request and its reply complete (rpc_completes); loops of the code
      terminate.
    - Composition: a client's create, write, seek and read as messages through protocol,
      open-file table and tree (session_reads_back).
    - Behaviour the code surely does not intend is proved too, mostly on a concrete state:
      the theorems named by the findings of the manifest (the end of a pipe's data can go
      unnoticed, pipe_eof_lost).

    ** Bounds and fuel

    Recursion that is not structural has fuel, and the definition says why it is enough:
    the levels of a page table, the length of a path or archive, the bits left in a
    compressed stream, eight symbolic links.  Theorems that claim a result claim it for
    the fuel the definition passes; inflate_terminates, schedule_correct and deps_exact show
    that it does not run out.  DNS names are followed without a bound in the source, and the
    parser can run out of any fuel (dns_pointer_loop); a trace program that jumps back may
    run for ever (vm_loops_forever), one that jumps forward ends (vm_forward_terminates).  Bounds of the code (table sizes,
    1 MB chunks, 512 entries) are its own constants.

    ** What is not modelled

    Device drivers apart from the virtqueues and the network stack (registers shared with
    hardware), the boot path and assembly, the small user programs, and the system calls
    that only pass arguments on; the manifest lists them.
    Timing, interrupts other than the points named above, and running out of heap memory
    are not modelled either. *)

From Stdlib Require Import ZArith Lia.
From stdpp Require Import prelude gmap strings.

Local Open Scope Z_scope.

(** ** Outcomes and the state monad

    Kernel code threads mutable state, returns [Result<_, &'static str>] and can
    panic.  A computation over a state [S] returns the outcome and the state it
    leaves: state changes made before an [Err] persist, as in the source. *)

Inductive outcome (A : Type) : Type :=
  | Ok (a : A)
  | Err (e : string)
  | Panic (why : string).
Arguments Ok {A} a.
Arguments Err {A} e.
Arguments Panic {A} why.

Definition M (S A : Type) : Type := S → outcome A * S.

#[global] Instance M_ret {S} : MRet (M S) := λ A a s, (Ok a, s).
#[global] Instance M_bind {S} : MBind (M S) := λ A B k c s,
  match c s with
  | (Ok a, s') => k a s'
  | (Err e, s') => (Err e, s')
  | (Panic w, s') => (Panic w, s')
  end.

(** Reading and changing the state, failing and panicking. *)
Definition gets {S A} (f : S → A) : M S A := λ s, (Ok (f s), s).
Definition modify {S} (f : S → S) : M S unit := λ s, (Ok tt, f s).
Definition fail {S A} (e : string) : M S A := λ s, (Err e, s).
Definition panic {S A} (e : string) : M S A := λ s, (Panic e, s).

(** [opt.ok_or(e)?]. *)
Definition ok_or {S A} (o : option A) (e : string) : M S A :=
  match o with Some a => mret a | None => fail e end.

(** [match c { Ok(a) => k1(a), Err(e) => k2(e) }]. *)
Definition match_result {S A B} (c : M S A) (k1 : A → M S B) (k2 : string → M S B) : M S B :=
  λ s, match c s with
       | (Ok a, s') => k1 a s'
       | (Err e, s') => k2 e s'
       | (Panic w, s') => (Panic w, s')
       end.

(** A [for] loop over the elements of a list, left to right. *)
Fixpoint for_each {S A} (l : list A) (f : A → M S unit) : M S unit :=
  match l with
  | [] => mret tt
  | x :: l' => f x ≫= (λ _, for_each l' f)
  end.

Section monad_laws.
Context {S : Type}.

Lemma bind_ok {A B} (c : M S A) (k : A → M S B) s a s' :
  c s = (Ok a, s') → (c ≫= k) s = k a s'.
Proof. intros H. unfold mbind, M_bind. by rewrite H. Qed.

Lemma bind_err {A B} (c : M S A) (k : A → M S B) s e s' :
  c s = (Err e, s') → (c ≫= k) s = (Err e, s').
Proof. intros H. unfold mbind, M_bind. by rewrite H. Qed.

Lemma bind_ok_inv {A B} (c : M S A) (k : A → M S B) s b s' :
  (c ≫= k) s = (Ok b, s') →
  ∃ a s1, c s = (Ok a, s1) ∧ k a s1 = (Ok b, s').
Proof.
  unfold mbind, M_bind. destruct (c s) as [[a|e|w] s1]; naive_solver.
Qed.

Lemma for_each_app {A} (l1 l2 : list A) (f : A → M S unit) s :
  for_each (l1 ++ l2) f s = (for_each l1 f ≫= (λ _, for_each l2 f)) s.
Proof.
  revert s. induction l1 as [|x l1 IH]; intros s; [done|].
  simpl. unfold mbind, M_bind. destruct (f x s) as [[[]|e|w] s1]; [|done|done].
  rewrite IH. reflexivity.
Qed.

(** Loop rule: an invariant on the state indexed by the elements consumed. *)
Lemma for_each_inv {A} (I : list A → S → Prop) (l : list A) (f : A → M S unit) s s' :
  I [] s →
  (∀ pre x post s1 s2, l = pre ++ x :: post → I pre s1 → f x s1 = (Ok tt, s2) →
     I (pre ++ [x]) s2) →
  for_each l f s = (Ok tt, s') →
  I l s'.
Proof.
  intros H0 Hstep.
  assert (∀ pre post s1, l = pre ++ post → I pre s1 →
    for_each post f s1 = (Ok tt, s') → I l s') as Hgen; [|eauto using app_nil_l].
  intros pre post; revert pre. induction post as [|x post IH]; intros pre s1 Hl HI Hf.
  - simpl in Hf. unfold mret, M_ret in Hf. rewrite app_nil_r in Hl. naive_solver.
  - apply bind_ok_inv in Hf as ([] & s2 & Hx & Hrest).
    eapply (IH (pre ++ [x])); [by rewrite <-app_assoc| |done].
    by eapply Hstep.
Qed.
End monad_laws.

(** A computation moves along a preorder of states, whatever its outcome. *)
Definition preserves {S A} (R : S → S → Prop) (c : M S A) : Prop := ∀ s, R s (c s).2.

Section preserves.
Context {S : Type} (R : S → S → Prop) {HR : PreOrder R}.

Lemma preserves_ret {A} (a : A) : preserves R (mret a).
Proof. intros s. exact (PreOrder_Reflexive s). Qed.

Lemma preserves_gets {A} (f : S → A) : preserves R (gets f).
Proof. intros s. exact (PreOrder_Reflexive s). Qed.

Lemma preserves_fail {A} e : preserves R (fail (A := A) e).
Proof. intros s. exact (PreOrder_Reflexive s). Qed.

Lemma preserves_bind {A B} (c : M S A) (k : A → M S B) :
  preserves R c → (∀ a, preserves R (k a)) → preserves R (c ≫= k).
Proof.
  intros Hc Hk s. unfold mbind, M_bind. specialize (Hc s). destruct (c s) as [[a|e|e] s1]; [|done..].
  etrans; [exact Hc|apply Hk].
Qed.

Lemma preserves_each {A} (l : list A) (f : A → M S unit) : (∀ x, preserves R (f x)) → preserves R (for_each l f).
Proof.
  intros Hf. induction l as [|x l IH]; [apply preserves_ret|]. apply preserves_bind; [apply Hf|]. intros _. exact IH.
Qed.
End preserves.

(** The steps all such proofs share; what is left are the computations of the component. *)
Ltac preserves_step :=
  lazymatch goal with
  | |- preserves ?R (_ ≫= _) => apply (preserves_bind R); [|intros ?; cbv beta]
  | |- preserves ?R (for_each _ _) => apply (preserves_each R); intros ?; cbv beta
  | |- preserves ?R (mret _) => apply (preserves_ret R)
  | |- preserves ?R (gets _) => apply (preserves_gets R)
  | |- preserves ?R (fail _) => apply (preserves_fail R)
  | |- preserves ?R (if ?b then _ else _) => destruct b
  | |- preserves ?R (match ?x with _ => _ end) => destruct x
  end.

(** ** Machine integers

    A [w]-bit unsigned integer is a [Z] in [0, 2^w); wrap-around and saturation
    are written where the source asks for them. *)

Definition wrap (w x : Z) : Z := x mod 2 ^ w.
Definition sat_add (w x y : Z) : Z := Z.min (x + y) (2 ^ w - 1).
Definition sat_sub (x y : Z) : Z := Z.max 0 (x - y).
Definition usize_max : Z := 18446744073709551615.
Definition u16_max : Z := 65535.
Definition i64_max : Z := 9223372036854775807.

Lemma sat_add_small w x y : 0 ≤ w → x + y < 2 ^ w → sat_add w x y = x + y.
Proof. unfold sat_add. lia. Qed.

(** Comparisons that code makes, as propositions for [lia]. *)
Ltac bool_to_prop :=
  rewrite ?andb_true_iff, ?andb_false_iff, ?orb_true_iff, ?orb_false_iff, ?negb_true_iff, ?negb_false_iff,
    ?Z.eqb_eq, ?Z.eqb_neq, ?Z.ltb_lt, ?Z.ltb_ge, ?Z.leb_le, ?Z.leb_gt,
    ?Nat.eqb_eq, ?Nat.eqb_neq, ?Nat.ltb_lt, ?Nat.ltb_ge, ?Nat.leb_le, ?Nat.leb_gt in *.

(** Bitwise identities on [Z] are decided bit by bit. *)
Create Rewrite HintDb zbit.
#[export] Hint Rewrite Z.land_spec Z.lor_spec Z.lxor_spec Z.ldiff_spec Z.testbit_0_l : zbit.
#[export] Hint Rewrite Z.shiftl_spec Z.shiftr_spec Z.lnot_spec using lia : zbit.

Lemma testbit_high p n i : 0 ≤ n < 2 ^ p → p ≤ i → Z.testbit n i = false.
Proof.
  intros Hn Hi. destruct (decide (0 ≤ p)) as [Hp|Hp].
  - rewrite <-(Z.mod_small n (2 ^ p)) by done. by apply Z.mod_pow2_bits_high.
  - rewrite Z.pow_neg_r in Hn by lia. lia.
Qed.

(** The bits below [k] of a multiple of [2^k] are clear. *)
Lemma testbit_low k n i : 0 ≤ k → n mod 2 ^ k = 0 → i < k → Z.testbit n i = false.
Proof.
  intros Hk Hn Hi. destruct (decide (0 ≤ i)); [|by apply Z.testbit_neg_r; lia].
  rewrite <-(Z.mod_pow2_bits_low n k) by lia. by rewrite Hn, Z.testbit_0_l.
Qed.

(** A multiple of [2^k] and the low bits of a number do not overlap. *)
Lemma lor_low_high k n x : 0 ≤ k → n mod 2 ^ k = 0 → Z.lor n (x mod 2 ^ k) = n + x mod 2 ^ k.
Proof.
  intros Hk Hn. assert (Z.land n (x mod 2 ^ k) = 0) as Hd.
  { apply Z.bits_inj'. intros i Hi. autorewrite with zbit.
    destruct (decide (i < k)); [by rewrite (testbit_low k n i) by lia|].
    rewrite Z.mod_pow2_bits_high by lia. apply andb_false_r. }
  by rewrite <-Z.lxor_lor, Z.add_nocarry_lxor.
Qed.

Lemma land_bound w x y : 0 ≤ x → 0 ≤ y < 2 ^ w → 0 ≤ w → 0 ≤ Z.land x y < 2 ^ w.
Proof.
  intros Hx Hy Hw. split; [apply Z.land_nonneg; lia|].
  destruct (decide (Z.land x y = 0)) as [->|Hne]; [lia|].
  assert (0 ≤ Z.land x y) by (apply Z.land_nonneg; lia).
  apply Z.log2_lt_pow2; [lia|].
  pose proof (Z.log2_land x y ltac:(lia) ltac:(lia)).
  destruct (decide (y = 0)) as [->|]; [rewrite Z.land_0_r in *; lia|].
  pose proof (proj1 (Z.log2_lt_pow2 y w ltac:(lia)) ltac:(lia)). lia.
Qed.

Lemma lor_bound w x y : 0 ≤ x < 2 ^ w → 0 ≤ y < 2 ^ w → 0 ≤ w → 0 ≤ Z.lor x y < 2 ^ w.
Proof.
  intros Hx Hy Hw. split; [apply Z.lor_nonneg; lia|].
  destruct (decide (Z.lor x y = 0)) as [->|Hne]; [lia|].
  assert (0 ≤ Z.lor x y) by (apply Z.lor_nonneg; lia).
  apply Z.log2_lt_pow2; [lia|]. rewrite Z.log2_lor by lia.
  apply Z.max_lub_lt.
  - destruct (decide (x = 0)) as [->|]; [|apply Z.log2_lt_pow2; lia].
    simpl. destruct (decide (w = 0)) as [->|]; [|lia].
    exfalso. apply Hne. assert (y = 0) by (simpl in Hy; lia). by subst.
  - destruct (decide (y = 0)) as [->|]; [|apply Z.log2_lt_pow2; lia].
    simpl. destruct (decide (w = 0)) as [->|]; [|lia].
    exfalso. apply Hne. assert (x = 0) by (simpl in Hx; lia). by subst.
Qed.

(** ** Bytes, little endian

    Byte buffers are lists of [Z] below 256.  [le_bytes n x] is
    [x.to_le_bytes()] of an [n]-byte integer, [of_le] is [from_le_bytes]. *)

Fixpoint le_bytes (n : nat) (x : Z) : list Z :=
  match n with
  | O => []
  | S n' => x mod 256 :: le_bytes n' (x / 256)
  end.

Fixpoint of_le (l : list Z) : Z :=
  match l with
  | [] => 0
  | b :: l' => b + 256 * of_le l'
  end.

Definition is_byte (b : Z) : Prop := 0 ≤ b < 256.

Lemma length_le_bytes n x : length (le_bytes n x) = n.
Proof. revert x. induction n; intros x; simpl; auto. Qed.

Lemma le_bytes_bytes n x : Forall is_byte (le_bytes n x).
Proof.
  revert x. induction n; intros x; simpl; constructor; auto.
  unfold is_byte. apply Z.mod_pos_bound. lia.
Qed.

Lemma of_le_bytes n x : 0 ≤ x < 256 ^ Z.of_nat n → of_le (le_bytes n x) = x.
Proof.
  revert x. induction n as [|n IH]; intros x Hx; simpl of_le; cbn [le_bytes].
  - simpl in Hx. lia.
  - cbn [of_le]. rewrite Nat2Z.inj_succ, Z.pow_succ_r in Hx by lia. rewrite IH.
    + rewrite (Z.div_mod x 256) at 3 by lia. lia.
    + split; [apply Z.div_pos; lia|]. apply Z.div_lt_upper_bound; lia.
Qed.

Lemma of_le_nonneg l : Forall is_byte l → 0 ≤ of_le l < 256 ^ Z.of_nat (length l).
Proof.
  induction 1 as [|b l Hb Hl IH]; [simpl; lia|].
  cbn [of_le length]. rewrite Nat2Z.inj_succ, Z.pow_succ_r by lia.
  unfold is_byte in Hb. lia.
Qed.

Lemma le_bytes_of_le l : Forall is_byte l → le_bytes (length l) (of_le l) = l.
Proof.
  induction 1 as [|b l Hb Hl IH]; [done|]. cbn [of_le length le_bytes].
  unfold is_byte in Hb. rewrite (Z.mul_comm 256), Z.mod_add, Z.mod_small by lia.
  rewrite Z.div_add, Z.div_small by lia. by rewrite Z.add_0_l, IH.
Qed.

(** ** Slices of buffers

    [slice l off n] is [&l[off..off+n]]; [splice l off bs] is the buffer after
    [l[off..off+bs.len()].copy_from_slice(bs)]. *)

Definition slice {A} (l : list A) (off n : nat) : list A := take n (drop off l).
Definition splice {A} (l : list A) (off : nat) (bs : list A) : list A :=
  take off l ++ bs ++ drop (off + length bs) l.

Section slices.
Context {A : Type}.
Implicit Types l bs : list A.

Lemma length_splice l off bs :
  (off + length bs ≤ length l)%nat → length (splice l off bs) = length l.
Proof. intros. unfold splice. rewrite !length_app, length_take, length_drop. lia. Qed.

Lemma length_slice l off n :
  (off + n ≤ length l)%nat → length (slice l off n) = n.
Proof. intros. unfold slice. rewrite length_take, length_drop. lia. Qed.

Lemma slice_splice_eq l off bs :
  (off + length bs ≤ length l)%nat → slice (splice l off bs) off (length bs) = bs.
Proof.
  intros. unfold slice, splice.
  rewrite drop_app_ge by (rewrite length_take; lia).
  rewrite length_take, (Nat.min_l off) by lia.
  replace (off - off)%nat with 0%nat by lia. rewrite drop_0.
  by rewrite take_app_length.
Qed.

Lemma lookup_splice l off bs i :
  (off + length bs ≤ length l)%nat →
  splice l off bs !! i =
    if decide (off ≤ i < off + length bs)%nat then bs !! (i - off)%nat else l !! i.
Proof.
  intros. unfold splice. case_decide.
  - rewrite lookup_app_r by (rewrite length_take; lia).
    rewrite length_take, (Nat.min_l off) by lia. rewrite lookup_app_l by lia. done.
  - destruct (decide (i < off)%nat).
    + rewrite lookup_app_l by (rewrite length_take; lia). by rewrite lookup_take_lt.
    + rewrite lookup_app_r by (rewrite length_take; lia).
      rewrite length_take, (Nat.min_l off) by lia. rewrite lookup_app_r by lia.
      rewrite lookup_drop. f_equal. lia.
Qed.

Lemma lookup_slice l off n i :
  slice l off n !! i = if decide (i < n)%nat then l !! (off + i)%nat else None.
Proof.
  unfold slice. case_decide.
  - by rewrite lookup_take_lt, lookup_drop.
  - by rewrite lookup_take_ge by lia.
Qed.

Lemma slice_splice_ne l off bs off' n :
  (off + length bs ≤ length l)%nat →
  (off' + n ≤ off ∨ off + length bs ≤ off')%nat →
  slice (splice l off bs) off' n = slice l off' n.
Proof.
  intros Hl Hd. apply list_eq. intros i. rewrite !lookup_slice. case_decide; [|done].
  rewrite lookup_splice by done. case_decide; [lia|done].
Qed.
End slices.

(** The first element of a list satisfying a predicate, with its position:
    [iter().position(p)]. *)
Fixpoint position {A} (p : A → bool) (l : list A) : option nat :=
  match l with
  | [] => None
  | x :: l' => if p x then Some 0%nat else S <$> position p l'
  end.

Lemma position_Some {A} (p : A → bool) l i :
  position p l = Some i ↔
  (∃ x, l !! i = Some x ∧ p x = true) ∧ ∀ j y, (j < i)%nat → l !! j = Some y → p y = false.
Proof.
  revert i. induction l as [|x l IH]; intros i; simpl; [naive_solver|].
  destruct (p x) eqn:Hp.
  - split.
    + intros [= <-]. split; [by exists x|]. lia.
    + intros [_ Hmin]. destruct i as [|i]; [done|].
      specialize (Hmin 0%nat x ltac:(lia) eq_refl). congruence.
  - rewrite fmap_Some. split.
    + intros (j & Hj & ->). apply IH in Hj as [(y & Hy & Hpy) Hmin].
      split; [by exists y|]. intros [|k] z Hk; simpl; [congruence|]. apply Hmin. lia.
    + intros [(y & Hy & Hpy) Hmin]. destruct i as [|i]; simpl in Hy; [congruence|].
      exists i. split; [|done]. apply IH. split; [by exists y|].
      intros k z Hk Hz. apply (Hmin (S k) z); [lia|done].
Qed.

Lemma position_None {A} (p : A → bool) l :
  position p l = None ↔ ∀ x, x ∈ l → p x = false.
Proof.
  induction l as [|x l IH]; simpl.
  - split; [|done]. intros _ x Hx. by apply not_elem_of_nil in Hx.
  - destruct (p x) eqn:Hp; [split; [done|]|].
    + intros H. specialize (H x ltac:(apply elem_of_cons; by left)). congruence.
    + rewrite fmap_None, IH. setoid_rewrite elem_of_cons. naive_solver.
Qed.

(** ** Splitting and joining byte strings *)

(** A byte string literal. *)
Definition str (s : string) : list Z :=
  (λ c, Z.of_N (Ascii.N_of_ascii c)) <$> String.list_ascii_of_string s.

(** [slice.split(|&b| b == c)]: the pieces between the separators, at least one. *)
Fixpoint split_on (c : Z) (l : list Z) : list (list Z) :=
  match l with
  | [] => [[]]
  | b :: l' =>
      if b =? c then [] :: split_on c l'
      else match split_on c l' with
           | [] => [[b]]
           | p :: ps => (b :: p) :: ps
           end
  end.

(** The pieces with separators between them. *)
Fixpoint join (sep : list Z) (ps : list (list Z)) : list Z :=
  match ps with
  | [] => []
  | [p] => p
  | p :: ps' => p ++ sep ++ join sep ps'
  end.

Lemma split_on_ne (c : Z) (l : list Z) : split_on c l ≠ [].
Proof. destruct l as [|b l]; [done|]. simpl. case_match; [done|]. by destruct (split_on c l). Qed.

Lemma split_on_app (c : Z) (p l : list Z) :
  Forall (λ b, b ≠ c) p → split_on c (p ++ c :: l) = p :: split_on c l.
Proof.
  induction 1 as [|b p Hb Hp IH]; simpl; [by rewrite Z.eqb_refl|].
  rewrite (proj2 (Z.eqb_neq _ _) Hb). simpl in IH. by rewrite IH.
Qed.

Lemma split_on_piece (c : Z) (p : list Z) : Forall (λ b, b ≠ c) p → split_on c p = [p].
Proof.
  induction 1 as [|b p Hb Hp IH]; simpl; [done|].
  by rewrite (proj2 (Z.eqb_neq _ _) Hb), IH.
Qed.

Lemma split_on_join (c : Z) (ps : list (list Z)) :
  ps ≠ [] → Forall (Forall (λ b, b ≠ c)) ps → split_on c (join [c] ps) = ps.
Proof.
  intros Hne Hps. induction Hps as [|p ps Hp Hps IH]; [done|].
  destruct ps as [|q ps]; [by apply split_on_piece|].
  change (join [c] (p :: q :: ps)) with (p ++ [c] ++ join [c] (q :: ps)).
  change ([c] ++ join [c] (q :: ps)) with (c :: join [c] (q :: ps)).
  by rewrite split_on_app, IH.
Qed.

(** ** Strings

    What [core::str::from_utf8] accepts. *)

Definition utf8_cont (lo hi : Z) (b : Z) : bool := (lo <=? b) && (b <=? hi).

Fixpoint utf8_valid (l : list Z) : bool :=
  match l with
  | [] => true
  | b :: l1 =>
      if b <? 128 then utf8_valid l1
      else match l1 with
      | [] => false
      | c :: l2 =>
          if utf8_cont 194 223 b then utf8_cont 128 191 c && utf8_valid l2
          else match l2 with
          | [] => false
          | d :: l3 =>
              if utf8_cont 224 239 b then
                utf8_cont (if b =? 224 then 160 else 128) (if b =? 237 then 159 else 191) c
                && utf8_cont 128 191 d && utf8_valid l3
              else match l3 with
              | [] => false
              | e :: l4 =>
                  utf8_cont 240 244 b &&
                  utf8_cont (if b =? 240 then 144 else 128) (if b =? 244 then 143 else 191) c
                  && utf8_cont 128 191 d && utf8_cont 128 191 e && utf8_valid l4
              end
          end
      end
  end.
