(* ===== verification/Sync.v ===== *)
(** * The kernel's lock (src/sync.rs)

    [Mutex] adds to the spin lock of a library the hart that owns it, so that a hart which
    locks again what it holds panics instead of spinning.  The spin lock is the class
    [SpinLock], with the laws a lock has.  The owner is read and written with relaxed
    ordering, so it is modelled by the order of its writes and what each hart has seen of
    it: a load gives any write that is not older than the last one the hart has seen.

    [mutex_correct] says that the lock excludes, that a hart panics if and only if it
    locks what it holds, and that a waiting hart gets a free lock; [undetected_deadlock]
    that the check misses an interrupt between taking the lock and recording the owner. *)

From stdpp Require Import prelude functions.
From S2P Require Import Prelude.

(** ** The library's spin lock *)

Class SpinLock (L : Type) : Type := {
  spin_new : L;
  spin_locked : L → bool;
  spin_try_lock : L → option L;
  spin_unlock : L → L;
  spin_new_free : spin_locked spin_new = false;
  spin_try_lock_free l : spin_locked l = false → is_Some (spin_try_lock l);
  spin_try_lock_some l l' : spin_try_lock l = Some l' → spin_locked l = false ∧ spin_locked l' = true;
  spin_unlock_free l : spin_locked (spin_unlock l) = false;
}.

#[export,refine] Instance flag_lock : SpinLock bool := {
  spin_new := false;
  spin_locked b := b;
  spin_try_lock b := if b then None else Some true;
  spin_unlock _ := false;
}.
Proof.
  - done.
  - intros []; by eauto.
  - intros [] l'; [done|]. by intros [= <-].
  - done.
Defined.

Section mutex.
Context {L : Type} `{SpinLock L}.

(** ** Harts and the lock *)

(** What a hart is about to do. *)
Inductive hart_pc : Type :=
  | Idle
  | Spinning                  (** found another owner or none *)
  | Trying                    (** the same, in [try_lock] *)
  | Recording                 (** has the spin lock, will store the owner *)
  | Holding
  | Respinning                (** holds the lock and spins for it *)
  | Retrying                  (** holds the lock and tries to take it *)
  | Releasing                 (** has cleared the owner, will unlock the spin lock *)
  | Panicked.

(** [mx_owner] is the order of the writes to [owner], [None] for usize::MAX, and [mx_seen] the
    last one each hart has seen. *)
Record mutex : Type := mkMutex {
  mx_inner : L;
  mx_owner : list (option nat);
  mx_seen : nat → nat;
  mx_pc : nat → hart_pc;
}.

Definition mutex_new : mutex := mkMutex spin_new [None] (λ _, 0) (λ _, Idle).

Definition load_owner (h : nat) (m : mutex) (i : nat) (o : option nat) : Prop :=
  mx_seen m h ≤ i ∧ mx_owner m !! i = Some o.
Definition see (h i : nat) (pc : hart_pc) (m : mutex) : mutex :=
  mkMutex (mx_inner m) (mx_owner m) (<[h := i]> (mx_seen m)) (<[h := pc]> (mx_pc m)).
Definition store_owner (h : nat) (o : option nat) (pc : hart_pc) (m : mutex) : mutex :=
  mkMutex (mx_inner m) (mx_owner m ++ [o]) (<[h := length (mx_owner m)]> (mx_seen m)) (<[h := pc]> (mx_pc m)).
Definition with_inner (l : L) (h : nat) (pc : hart_pc) (m : mutex) : mutex :=
  mkMutex l (mx_owner m) (mx_seen m) (<[h := pc]> (mx_pc m)).

(** [lock], [try_lock] and the drop of the guard, cut at every access to shared memory. *)
Inductive mutex_step : mutex → mutex → Prop :=
  | ms_lock_recursive m h i pc : mx_pc m h = pc → pc = Idle ∨ pc = Holding → load_owner h m i (Some h) →
      mutex_step m (see h i Panicked m)
  | ms_lock m h i o : mx_pc m h = Idle → load_owner h m i o → o ≠ Some h →
      mutex_step m (see h i Spinning m)
  | ms_lock_held m h i o : mx_pc m h = Holding → load_owner h m i o → o ≠ Some h →
      mutex_step m (see h i Respinning m)
  | ms_acquire m h l : mx_pc m h = Spinning ∨ mx_pc m h = Trying → spin_try_lock (mx_inner m) = Some l →
      mutex_step m (with_inner l h Recording m)
  | ms_reacquire m h l : mx_pc m h = Respinning ∨ mx_pc m h = Retrying → spin_try_lock (mx_inner m) = Some l →
      mutex_step m (with_inner l h Recording m)
  | ms_record m h : mx_pc m h = Recording → mutex_step m (store_owner h (Some h) Holding m)
  | ms_try_recursive m h i pc : mx_pc m h = pc → pc = Idle ∨ pc = Holding → load_owner h m i (Some h) →
      mutex_step m (see h i pc m)
  | ms_try m h i o : mx_pc m h = Idle → load_owner h m i o → o ≠ Some h → mutex_step m (see h i Trying m)
  | ms_try_held m h i o : mx_pc m h = Holding → load_owner h m i o → o ≠ Some h → mutex_step m (see h i Retrying m)
  | ms_try_fails m h : mx_pc m h = Trying → spin_try_lock (mx_inner m) = None →
      mutex_step m (with_inner (mx_inner m) h Idle m)
  | ms_retry_fails m h : mx_pc m h = Retrying → spin_try_lock (mx_inner m) = None →
      mutex_step m (with_inner (mx_inner m) h Holding m)
  | ms_clear m h : mx_pc m h = Holding → mutex_step m (store_owner h None Releasing m)
  | ms_release m h : mx_pc m h = Releasing → mutex_step m (with_inner (spin_unlock (mx_inner m)) h Idle m).

(** The hart has the spin lock; one that panicked keeps it. *)
Definition inside (pc : hart_pc) : bool :=
  match pc with Recording | Holding | Respinning | Retrying | Releasing | Panicked => true | _ => false end.

(** ** The invariant *)

Record mutex_ok (m : mutex) : Prop := {
  mo_lock : spin_locked (mx_inner m) = true ∨ ∀ h, inside (mx_pc m h) = false;
  mo_unique h h' : inside (mx_pc m h) = true → inside (mx_pc m h') = true → h = h';
  (** A hart can read its own number only while it holds the lock, and then nothing else. *)
  mo_foreign h i : mx_pc m h ≠ Holding → mx_pc m h ≠ Panicked → mx_seen m h ≤ i → mx_owner m !! i ≠ Some (Some h);
  mo_own h : mx_pc m h = Holding ∨ mx_pc m h = Panicked → ∀ i o, load_owner h m i o → o = Some h;
  mo_seen h : mx_seen m h < length (mx_owner m);
  mo_never h : mx_pc m h ≠ Respinning ∧ mx_pc m h ≠ Retrying;
  mo_free : (∀ h, inside (mx_pc m h) = false) → spin_locked (mx_inner m) = false;
}.

Lemma inside_unlocked m h l : mutex_ok m → spin_try_lock (mx_inner m) = Some l → inside (mx_pc m h) = false.
Proof. intros [Hl _ _ _ _ _ _] E. apply spin_try_lock_some in E as [E _]. destruct Hl as [|Hl]; [congruence|apply Hl]. Qed.

(** A step of one hart that neither enters nor leaves the lock. *)
Lemma see_ok m h i pc : mutex_ok m → mx_seen m h ≤ i < length (mx_owner m) → inside pc = inside (mx_pc m h) →
  pc ≠ Respinning ∧ pc ≠ Retrying → (pc = Holding ∨ pc = Panicked ↔ mx_pc m h = Holding ∨ mx_pc m h = Panicked) →
  mutex_ok (see h i pc m).
Proof.
  intros Hm Hi Hin Hnever Hown. assert (∀ h', inside (<[h := pc]> (mx_pc m) h') = inside (mx_pc m h')) as Hsame.
  { intros h'. destruct (decide (h' = h)) as [->|]; [by rewrite fn_lookup_insert|by rewrite fn_lookup_insert_ne]. }
  split; cbn [see mx_inner mx_owner mx_seen mx_pc].
  - destruct (mo_lock m Hm) as [|Hl]; [by left|]. right. intros h'. by rewrite Hsame.
  - intros h1 h2. rewrite !Hsame. apply (mo_unique m Hm).
  - intros h' j. destruct (decide (h' = h)) as [->|]; [rewrite !fn_lookup_insert|rewrite !fn_lookup_insert_ne by done; apply (mo_foreign m Hm)].
    intros H1 H2 Hj. apply (mo_foreign m Hm); [naive_solver..|lia].
  - intros h'. unfold load_owner. cbn [see mx_owner mx_seen].
    destruct (decide (h' = h)) as [->|]; [rewrite !fn_lookup_insert|rewrite !fn_lookup_insert_ne by done; apply (mo_own m Hm)].
    intros H1 j o [Hj E]. apply (mo_own m Hm h) with j; [naive_solver|]. split; [lia|done].
  - intros h'. destruct (decide (h' = h)) as [->|]; [rewrite fn_lookup_insert; lia|rewrite fn_lookup_insert_ne by done; apply (mo_seen m Hm)].
  - intros h'. destruct (decide (h' = h)) as [->|]; [by rewrite fn_lookup_insert|rewrite fn_lookup_insert_ne by done; apply (mo_never m Hm)].
  - intros Hall. apply (mo_free m Hm). intros h'. by rewrite <-Hsame.
Qed.

(** The holder writes the owner: its own number, or the mark of a free lock before it leaves. *)
Lemma store_ok m h o pc : mutex_ok m → inside (mx_pc m h) = true →
  (o = Some h ∧ pc = Holding) ∨ (o = None ∧ pc = Releasing) → mutex_ok (store_owner h o pc m).
Proof.
  intros Hm Hin Hpc. assert (∀ h', inside (<[h := pc]> (mx_pc m) h') = inside (mx_pc m h')) as Hsame.
  { intros h'. destruct (decide (h' = h)) as [->|]; [rewrite fn_lookup_insert, Hin; naive_solver|by rewrite fn_lookup_insert_ne]. }
  assert (∀ h', h' ≠ h → inside (mx_pc m h') = false) as Hout.
  { intros h' Hne. destruct (inside (mx_pc m h')) eqn:E; [|done]. destruct Hne. by eapply mo_unique. }
  split; unfold load_owner; cbn [store_owner mx_inner mx_owner mx_seen mx_pc].
  - destruct (mo_lock m Hm) as [|Hl]; [by left|]. by rewrite Hl in Hin.
  - intros h1 h2. rewrite !Hsame. apply (mo_unique m Hm).
  - intros h' j. destruct (decide (h' = h)) as [->|].
    + rewrite !fn_lookup_insert. intros H1 _ Hj E. apply lookup_snoc_Some in E as [[E _]|[_ E]]; [lia|naive_solver].
    + rewrite !fn_lookup_insert_ne by done. intros H1 H2 Hj E. apply lookup_snoc_Some in E as [[_ E]|[_ E]].
      * by apply (mo_foreign m Hm h' j).
      * naive_solver.
  - intros h'. destruct (decide (h' = h)) as [->|Hne].
    + rewrite !fn_lookup_insert. intros H1 j o' [Hj E]. apply lookup_snoc_Some in E as [[E _]|[_ ->]]; [lia|]. naive_solver.
    + rewrite !fn_lookup_insert_ne by done. intros H1. specialize (Hout h' Hne). by destruct H1 as [E|E]; rewrite E in Hout.
  - intros h'. rewrite length_app. cbn [length]. pose proof (mo_seen m Hm h').
    destruct (decide (h' = h)) as [->|]; [rewrite fn_lookup_insert|rewrite fn_lookup_insert_ne by done]; lia.
  - intros h'. destruct (decide (h' = h)) as [->|]; [rewrite fn_lookup_insert; naive_solver|].
    rewrite fn_lookup_insert_ne by done. apply (mo_never m Hm).
  - intros Hall. specialize (Hall h). by rewrite Hsame, Hin in Hall.
Qed.

(** A hart that has not recorded itself enters or leaves. *)
Lemma inner_ok m h l pc : mutex_ok m → mx_pc m h ≠ Holding → mx_pc m h ≠ Panicked →
  pc = Recording ∨ pc = Idle → (∀ h', h' ≠ h → inside (mx_pc m h') = true → spin_locked l = true ∧ pc = Idle) →
  (pc = Recording → spin_locked l = true) →
  (pc = Idle → (∀ h', h' ≠ h → inside (mx_pc m h') = false) → spin_locked l = false) → mutex_ok (with_inner l h pc m).
Proof.
  intros Hm H1 H2 Hpc Hout Hl Hfree. split; unfold load_owner; cbn [with_inner mx_inner mx_owner mx_seen mx_pc].
  - destruct (spin_locked l) eqn:E; [by left|]. right. intros h'. destruct (decide (h' = h)) as [->|Hne].
    + rewrite fn_lookup_insert. destruct Hpc as [->| ->]; [naive_solver|done].
    + rewrite fn_lookup_insert_ne by done. destruct (inside (mx_pc m h')) eqn:Ei; [|done]. naive_solver.
  - intros h1 h2. destruct (decide (h1 = h)) as [->|Hn1], (decide (h2 = h)) as [->|Hn2];
      rewrite ?fn_lookup_insert, ?fn_lookup_insert_ne by done; intros E1 E2; [done| | |by eapply mo_unique].
    + destruct (Hout h2 Hn2 E2) as [_ ->]. done.
    + destruct (Hout h1 Hn1 E1) as [_ ->]. done.
  - intros h' j. destruct (decide (h' = h)) as [->|]; [intros _ _|rewrite fn_lookup_insert_ne by done]; by apply (mo_foreign m Hm).
  - intros h'. destruct (decide (h' = h)) as [->|]; [rewrite fn_lookup_insert; naive_solver|].
    rewrite fn_lookup_insert_ne by done. apply (mo_own m Hm).
  - apply (mo_seen m Hm).
  - intros h'. destruct (decide (h' = h)) as [->|]; [rewrite fn_lookup_insert; naive_solver|].
    rewrite fn_lookup_insert_ne by done. apply (mo_never m Hm).
  - intros Hall. apply Hfree.
    + destruct Hpc as [->|]; [|done]. specialize (Hall h). by rewrite fn_lookup_insert in Hall.
    + intros h' Hne. specialize (Hall h'). by rewrite fn_lookup_insert_ne in Hall.
Qed.

Lemma load_bound h m i o : load_owner h m i o → mx_seen m h ≤ i < length (mx_owner m).
Proof. intros [Hi E]. split; [done|]. by eapply lookup_lt_Some. Qed.

Lemma mutex_step_ok m m' : mutex_step m m' → mutex_ok m → mutex_ok m'.
Proof.
  intros Hst Hm. destruct Hst as [m h i pc E Hpc Ho|m h i o E Ho Hne|m h i o E Ho Hne|m h l E El|m h l E El|m h E|m h i pc E Hpc Ho
    |m h i o E Ho Hne|m h i o E Ho Hne|m h E El|m h E El|m h E|m h E].
  - destruct Hpc as [-> | ->].
    + destruct Ho as [Hi Ho]. by apply (mo_foreign m Hm h i) in Ho; rewrite ?E.
    + apply see_ok; [done|by eapply load_bound|by rewrite E|done|rewrite E; split; intros [|]; auto; done].
  - apply see_ok; [done|by eapply load_bound|by rewrite E|done|rewrite E; split; intros [|]; auto; done].
  - destruct Hne. apply (mo_own m Hm h) with i; [by left|done].
  - apply spin_try_lock_some in El as Hl. apply inner_ok; [done|by destruct E as [E|E]; rewrite E..|by left| |by intros _; apply Hl|done].
    intros h' _ Hin. by rewrite (inside_unlocked m h' l) in Hin.
  - destruct (mo_never m Hm h). by destruct E.
  - apply store_ok; [done|by rewrite E|by left].
  - subst pc. destruct Hpc as [E|E].
    + destruct Ho as [Hi Ho]. by apply (mo_foreign m Hm h i) in Ho; rewrite ?E.
    + apply see_ok; [done|by eapply load_bound|done|by apply (mo_never m Hm)|done].
  - apply see_ok; [done|by eapply load_bound|by rewrite E|done|rewrite E; split; intros [|]; auto; done].
  - destruct Hne. apply (mo_own m Hm h) with i; [by left|done].
  - apply inner_ok; [done|by rewrite E|by rewrite E|by right| |done|].
    + intros h' _ Hin. split; [|done]. destruct (mo_lock m Hm) as [|Hl]; [done|]. by rewrite Hl in Hin.
    + intros _ Hout. apply (mo_free m Hm). intros h'. destruct (decide (h' = h)) as [->|]; [by rewrite E|auto].
  - by destruct (mo_never m Hm h).
  - apply store_ok; [done|by rewrite E|by right].
  - apply inner_ok; [done|by rewrite E|by rewrite E|by right| |done|intros; apply spin_unlock_free].
    intros h' Hne Hin. destruct Hne. eapply mo_unique; [done|done|by rewrite E].
Qed.

Lemma mutex_new_ok : mutex_ok mutex_new.
Proof.
  split; cbn; try done; [by right| | |lia|intros; apply spin_new_free].
  - intros h i _ _ _ E. apply list_lookup_singleton_Some in E as [_ E]. done.
  - intros h [|]; done.
Qed.

Lemma mutex_reachable m : rtc mutex_step mutex_new m → mutex_ok m.
Proof.
  intros Hr. generalize mutex_new_ok. induction Hr as [|m1 m2 m3 Hst _ IH]; [done|]. intros H1. by apply IH, (mutex_step_ok m1).
Qed.

Lemma panic_holds m m' h : mutex_ok m → mutex_step m m' → mx_pc m' h = Panicked → mx_pc m h = Holding ∨ mx_pc m h = Panicked.
Proof.
  intros Hm Hst. destruct Hst as [m h0 i pc E Hpc Ho|m h0|m h0|m h0|m h0|m h0|m h0 i pc E|m h0|m h0|m h0|m h0|m h0|m h0]; cbn [see with_inner store_owner mx_pc];
    (destruct (decide (h = h0)) as [->|]; [rewrite fn_lookup_insert|rewrite fn_lookup_insert_ne by done; by right]); try done.
  - intros _. destruct Hpc as [-> | ->]; [|by left]. destruct Ho as [Hi Ho]. by apply (mo_foreign m Hm h0 i) in Ho; rewrite ?E.
  - intros ->. by right.
Qed.

(** C21: the lock excludes, and its check is exact.  Whatever the harts do, at most one of them
    is between taking the spin lock and giving it back.  A hart that locks what it holds
    reads its own number, so it panics and never spins; a hart that does not hold the
    lock never panics.  A lock no hart is inside of can be taken. *)
Theorem mutex_correct m : rtc mutex_step mutex_new m →
  (∀ h h', inside (mx_pc m h) = true → inside (mx_pc m h') = true → h = h') ∧
  (∀ h, mx_pc m h = Holding → mutex_step m (see h (mx_seen m h) Panicked m)) ∧
  (∀ h, mx_pc m h ≠ Respinning ∧ mx_pc m h ≠ Retrying) ∧
  (∀ h m', mutex_step m m' → mx_pc m' h = Panicked → mx_pc m h = Holding ∨ mx_pc m h = Panicked) ∧
  ((∀ h, inside (mx_pc m h) = false) → is_Some (spin_try_lock (mx_inner m))).
Proof.
  intros Hr. pose proof (mutex_reachable m Hr) as Hm. split_and!.
  - apply (mo_unique m Hm).
  - intros h Hh. eapply ms_lock_recursive; [done|by right|]. split; [done|].
    destruct (lookup_lt_is_Some_2 _ _ (mo_seen m Hm h)) as [o Eo]. rewrite Eo. f_equal.
    apply (mo_own m Hm h) with (mx_seen m h); [by left|]. by split.
  - apply (mo_never m Hm).
  - intros h m' Hst Hp. exact (panic_holds m m' h Hm Hst Hp).
  - intros Hall. apply spin_try_lock_free, (mo_free m Hm Hall).
Qed.

(** The window of the check: after the spin lock is taken and before the owner is stored, a
    lock in an interrupt on the same hart passes the check and spins for ever, since
    the lock is held by the code it interrupts. *)
Theorem undetected_deadlock h : ∃ m, rtc mutex_step mutex_new m ∧ mx_pc m h = Recording ∧
  spin_locked (mx_inner m) = true ∧ ∀ i o, load_owner h m i o → o ≠ Some h.
Proof.
  destruct (spin_try_lock_free spin_new spin_new_free) as [l El].
  set (m1 := see h 0 Spinning mutex_new). set (m2 := with_inner l h Recording m1).
  assert (rtc mutex_step mutex_new m2) as Hr.
  { eapply rtc_l; [apply (ms_lock _ h 0 None); [done|by split|done]|]. eapply rtc_l; [|apply rtc_refl].
    apply (ms_acquire m1 h l); [left; apply fn_lookup_insert|done]. }
  exists m2. split; [done|]. split; [apply fn_lookup_insert|]. split; [exact (proj2 (spin_try_lock_some _ _ El))|].
  intros i o Ho ->. destruct Ho as [Hi Ho]. revert Ho. apply (mo_foreign m2 (mutex_reachable m2 Hr)); [..|done];
    cbn; rewrite fn_lookup_insert; done.
Qed.

End mutex.

Lemma mutex_correct_witness :
  ∃ m : mutex, rtc mutex_step mutex_new m ∧ mx_pc m 1 = Holding ∧ mutex_step m (see 1 (mx_seen m 1) Panicked m).
Proof.
  pose (m1 := see 1 0 Spinning (mutex_new (L := bool))). pose (m2 := with_inner true 1 Recording m1).
  pose (m3 := store_owner 1 (Some 1) Holding m2).
  assert (rtc mutex_step mutex_new m3) as Hr.
  { eapply rtc_l; [apply (ms_lock _ 1 0 None); [reflexivity|split; [apply le_n|reflexivity]|discriminate]|].
    eapply rtc_l; [apply (ms_acquire m1 1 true); [left; reflexivity|reflexivity]|].
    eapply rtc_l; [apply (ms_record m2 1); reflexivity|apply rtc_refl]. }
  exists m3. split; [exact Hr|]. split; [reflexivity|].
  destruct (mutex_correct m3 Hr) as (_ & H2 & _). apply H2. reflexivity.
Defined.
