(* ===== verification/Pmm.v ===== *)
(** * Physical memory manager ([src/src/mm/pmm.rs])

    Physical frames, the intrusive free list threaded through their first word,
    and the reference-count table.  The proofs maintain [pmm_wf]: the list
    headed by [FREE_LIST] is a duplicate-free chain of aligned, managed,
    poisoned frames whose reference count is zero. *)

From Stdlib Require Import ZArith Lia Sorted.
From stdpp Require Import prelude gmap strings.
From S2P Require Import Prelude.

Local Open Scope Z_scope.

Definition PAGE_SIZE : Z := 4096.
Definition POISON_BYTE : Z := 205.
Definition MAX_PAGES : Z := 524288.

(** ** Physical memory

    Memory is kept by frame: a frame is the list of its 512 64-bit words.  All
    accesses of the memory manager are to whole aligned words or whole frames. *)

Definition frame_words : nat := 512.
Definition zero_frame : list Z := replicate frame_words 0.
(** Eight [POISON_BYTE]s. *)
Definition poison_word : Z := 14829735431805717965.

Definition frame_at (m : gmap Z (list Z)) (pa : Z) : list Z := default zero_frame (m !! pa).
Definition read_word (m : gmap Z (list Z)) (pa : Z) (i : nat) : Z := default 0 (frame_at m pa !! i).
Definition write_word (m : gmap Z (list Z)) (pa : Z) (i : nat) (v : Z) : gmap Z (list Z) :=
  <[pa := <[i := v]> (frame_at m pa)]> m.

(** The statics of the module; [debug_assertions] is the build's [cfg!]. *)
Record pmm : Type := mkPmm {
  ram_start : Z;
  ram_end : Z;
  free_head : Z;
  ref_counts : gmap Z Z;
  mem : gmap Z (list Z);
  debug_assertions : bool;
}.

Definition set_free_head (h : Z) (s : pmm) : pmm :=
  mkPmm (ram_start s) (ram_end s) h (ref_counts s) (mem s) (debug_assertions s).
Definition set_ref_counts (c : gmap Z Z) (s : pmm) : pmm :=
  mkPmm (ram_start s) (ram_end s) (free_head s) c (mem s) (debug_assertions s).
Definition set_mem (m : gmap Z (list Z)) (s : pmm) : pmm :=
  mkPmm (ram_start s) (ram_end s) (free_head s) (ref_counts s) m (debug_assertions s).

Definition count_at (s : pmm) (idx : Z) : Z := default 0 (ref_counts s !! idx).
Definition set_count (idx c : Z) (s : pmm) : pmm := set_ref_counts (<[idx := c]> (ref_counts s)) s.

(** [page_index]: the slot of [PAGE_REF_COUNTS], or [MAX_PAGES] out of range. *)
Definition page_index (s : pmm) (pa : Z) : Z :=
  if pa <? ram_start s then MAX_PAGES
  else let idx := (pa - ram_start s) / PAGE_SIZE in
       if idx <? MAX_PAGES then idx else MAX_PAGES.

Definition is_managed_page (s : pmm) (pa : Z) : bool :=
  (ram_start s <=? pa) && (pa <? ram_start s + MAX_PAGES * PAGE_SIZE).

(** ** Initialisation

    [init_step] is one turn of the loop that links the free frames; the device
    tree is third-party, so what it yields (the RAM region, the blob's range, the
    initrd's range) and the linker's [_stack_end] are arguments. *)

Record boot_info : Type := mkBoot {
  bi_ram_start : Z;
  bi_ram_size : Z;
  bi_fdt_start : Z;
  bi_fdt_total : Z;
  bi_initrd_start : Z;
  bi_initrd_end : Z;
  bi_stack_end : Z;
}.

Definition overlaps_reserved (b : boot_info) (curr : Z) : bool :=
  let next := curr + PAGE_SIZE in
  ((curr <? bi_fdt_start b + bi_fdt_total b) && (bi_fdt_start b <? next))
  || ((0 <? bi_initrd_start b) && (curr <? bi_initrd_end b) && (bi_initrd_start b <? next)).

(** Bytes 8.. of a frame poisoned, its first word untouched. *)
Definition poison_tail (m : gmap Z (list Z)) (pa : Z) : gmap Z (list Z) :=
  <[pa := read_word m pa 0 :: replicate 511 poison_word]> m.

Definition init_step (b : boot_info) (st : Z * Z * gmap Z (list Z)) (curr : Z)
    : Z * Z * gmap Z (list Z) :=
  let '(head, prev, m) := st in
  if overlaps_reserved b curr then st
  else
    let m1 := poison_tail m curr in
    if head =? 0 then (curr, curr, m1)
    else (head, curr, write_word m1 prev 0 curr).

(** The frames the loop visits, in order: [curr = kernel_end] while
    [curr + PAGE_SIZE <= ram_end]. *)
Definition init_frames (b : boot_info) : list Z :=
  let kernel_end := Z.land (bi_stack_end b + PAGE_SIZE - 1) (Z.lnot (PAGE_SIZE - 1)) in
  let ram_end := bi_ram_start b + bi_ram_size b in
  (λ k, kernel_end + Z.of_nat k * PAGE_SIZE) <$>
    seq 0 (Z.to_nat ((ram_end - kernel_end) / PAGE_SIZE)).

Definition init (b : boot_info) (m : gmap Z (list Z)) (dbg : bool) : pmm :=
  let '(head, prev, m1) := foldl (init_step b) (0, 0, m) (init_frames b) in
  let m2 := if prev =? 0 then m1 else write_word m1 prev 0 0 in
  mkPmm (bi_ram_start b) (bi_ram_start b + bi_ram_size b) head ∅ m2 dbg.

(** ** Allocation and release *)

Definition alloc_frame : M pmm (option Z) := λ s,
  if free_head s =? 0 then (Ok None, s)
  else
    let page := free_head s in
    let s1 := set_free_head (read_word (mem s) page 0) s in
    if debug_assertions s1 && negb (Z.land (read_word (mem s1) page 1) 255 =? POISON_BYTE)
    then (Panic "free-list corruption", s1)
    else
      let s2 := set_mem (<[page := zero_frame]> (mem s1)) s1 in
      let idx := page_index s2 page in
      (Ok (Some page), if idx <? MAX_PAGES then set_count idx 1 s2 else s2).

(** Writing the old head into the frame, poisoning the rest, and making the
    frame the new head: the tail of [free_page] and [decr_ref_and_maybe_free]. *)
Definition push_free (page : Z) (s : pmm) : pmm :=
  set_free_head page
    (set_mem (<[page := free_head s :: replicate 511 poison_word]> (mem s)) s).

Definition free_page (page : Z) : M pmm unit := λ s,
  if debug_assertions s && negb (page mod PAGE_SIZE =? 0)
  then (Panic "free_page: misaligned address", s)
  else
    let idx := page_index s page in
    if MAX_PAGES <=? idx then (Ok tt, s)
    else if debug_assertions s && (count_at s idx =? 0)
    then (Panic "double-free of physical page", s)
    else (Ok tt, push_free page (set_count idx 0 s)).

Definition incr_ref (page : Z) : M pmm unit := λ s,
  let idx := page_index s page in
  (Ok tt, if idx <? MAX_PAGES then set_count idx (sat_add 16 (count_at s idx) 1) s else s).

Definition decr_ref (page : Z) : M pmm Z := λ s,
  if negb (is_managed_page s page) then (Ok 0, s)
  else
    let idx := page_index s page in
    if idx <? MAX_PAGES then
      if 1 <? count_at s idx
      then (Ok (count_at s idx - 1), set_count idx (count_at s idx - 1) s)
      else (Ok 0, set_count idx 0 s)
    else (Ok 0, s).

Definition decr_ref_and_maybe_free (page : Z) : M pmm unit := λ s,
  let idx := page_index s page in
  if (MAX_PAGES <=? idx) || negb (is_managed_page s page) then (Ok tt, s)
  else if 1 <? count_at s idx then (Ok tt, set_count idx (count_at s idx - 1) s)
  else (Ok tt, push_free page (set_count idx 0 s)).

(** ** The free list as a list *)

(** [chain m h l]: following first words from [h] visits exactly [l]. *)
Fixpoint chain (m : gmap Z (list Z)) (h : Z) (l : list Z) : Prop :=
  match l with
  | [] => h = 0
  | p :: l' => h = p ∧ p ≠ 0 ∧ chain m (read_word m p 0) l'
  end.

(** An aligned frame of the managed window, encodable in a page-table entry. *)
Definition frame_ok (s : pmm) (p : Z) : Prop :=
  p mod PAGE_SIZE = 0 ∧ is_managed_page s p = true ∧ 0 < p < 2 ^ 56.

Record pmm_wf (s : pmm) (fl : list Z) : Prop := {
  wf_ram : ram_start s mod PAGE_SIZE = 0;
  wf_chain : chain (mem s) (free_head s) fl;
  wf_nodup : NoDup fl;
  wf_free p : p ∈ fl → frame_ok s p ∧ count_at s (page_index s p) = 0;
  wf_poison p : p ∈ fl → read_word (mem s) p 1 = poison_word;
}.

(** ** Memory lemmas *)

Lemma length_zero_frame : length zero_frame = frame_words.
Proof. apply length_replicate. Qed.

Lemma frame_at_insert m pa f : frame_at (<[pa := f]> m) pa = f.
Proof. unfold frame_at. by rewrite lookup_insert_eq. Qed.

Lemma frame_at_insert_ne m pa pa' f : pa ≠ pa' → frame_at (<[pa := f]> m) pa' = frame_at m pa'.
Proof. intros. unfold frame_at. by rewrite lookup_insert_ne. Qed.

Lemma read_word_insert_ne m pa pa' f i :
  pa ≠ pa' → read_word (<[pa := f]> m) pa' i = read_word m pa' i.
Proof. intros. unfold read_word. by rewrite frame_at_insert_ne. Qed.

Lemma read_zero_frame m pa i : read_word (<[pa := zero_frame]> m) pa i = 0.
Proof.
  unfold read_word. rewrite frame_at_insert. unfold zero_frame.
  destruct (replicate frame_words 0 !! i) eqn:E; [|done].
  by apply lookup_replicate in E as [-> _].
Qed.

Lemma read_write_word_ne m pa pa' i j v :
  pa ≠ pa' → read_word (write_word m pa i v) pa' j = read_word m pa' j.
Proof. intros. unfold write_word. by rewrite read_word_insert_ne. Qed.

Lemma read_write_word_other m pa i j v :
  i ≠ j → read_word (write_word m pa i v) pa j = read_word m pa j.
Proof.
  intros. unfold write_word, read_word at 1. rewrite frame_at_insert.
  by rewrite list_lookup_insert_ne.
Qed.

Lemma read_write_word_eq m pa i v :
  (i < length (frame_at m pa))%nat → read_word (write_word m pa i v) pa i = v.
Proof.
  intros. unfold write_word, read_word. rewrite frame_at_insert.
  by rewrite list_lookup_insert_eq.
Qed.

Lemma chain_ext m m' h l :
  (∀ p, p ∈ l → read_word m' p 0 = read_word m p 0) → chain m h l → chain m' h l.
Proof.
  revert h. induction l as [|p l IH]; intros h Hext; [done|]. simpl.
  intros (-> & Hp & Hc). split_and!; [done|done|].
  rewrite Hext by set_solver. apply IH; [|done]. intros q Hq. apply Hext. set_solver.
Qed.

Lemma chain_inj m h l1 l2 : chain m h l1 → chain m h l2 → l1 = l2.
Proof.
  revert h l2. induction l1 as [|p l1 IH]; intros h [|q l2]; simpl; naive_solver.
Qed.

Create HintDb pmm.
#[export] Hint Resolve wf_ram wf_chain wf_nodup : pmm.

(** ** The reference-count slots of distinct frames are distinct *)

Lemma page_index_managed s p :
  is_managed_page s p = true → page_index s p = (p - ram_start s) / PAGE_SIZE.
Proof.
  unfold is_managed_page, page_index, PAGE_SIZE, MAX_PAGES. rewrite andb_true_iff.
  intros [H1%Z.leb_le H2%Z.ltb_lt].
  destruct (p <? ram_start s) eqn:E; [apply Z.ltb_lt in E; lia|].
  destruct (Z.ltb_spec ((p - ram_start s) / 4096) 524288) as [|Hge]; [done|].
  exfalso. assert ((p - ram_start s) / 4096 < 524288); [|lia].
  apply Z.div_lt_upper_bound; lia.
Qed.

Lemma page_index_lt s p : is_managed_page s p = true → 0 ≤ page_index s p < MAX_PAGES.
Proof.
  intros Hm. rewrite page_index_managed by done.
  unfold is_managed_page, PAGE_SIZE, MAX_PAGES in *.
  apply andb_true_iff in Hm as [H1%Z.leb_le H2%Z.ltb_lt]. split.
  - apply Z.div_pos; lia.
  - apply Z.div_lt_upper_bound; lia.
Qed.

Lemma page_index_inj s p q :
  ram_start s mod PAGE_SIZE = 0 → frame_ok s p → frame_ok s q →
  page_index s p = page_index s q → p = q.
Proof.
  intros Hr (Hp & Hmp & _) (Hq & Hmq & _).
  rewrite !page_index_managed by done. unfold PAGE_SIZE in *. intros Heq.
  assert ((p - ram_start s) mod 4096 = 0) by (rewrite Zminus_mod, Hp, Hr; done).
  assert ((q - ram_start s) mod 4096 = 0) by (rewrite Zminus_mod, Hq, Hr; done).
  pose proof (Z.div_mod (p - ram_start s) 4096). pose proof (Z.div_mod (q - ram_start s) 4096).
  lia.
Qed.

(** The setters keep the window, so frames and slots do not move. *)
Lemma count_set_count_eq idx c s : count_at (set_count idx c s) idx = c.
Proof. unfold count_at, set_count. simpl. by rewrite lookup_insert_eq. Qed.

Lemma count_set_count_ne idx idx' c s :
  idx ≠ idx' → count_at (set_count idx c s) idx' = count_at s idx'.
Proof. intros. unfold count_at, set_count. simpl. by rewrite lookup_insert_ne. Qed.

(** Fields that an operation of the module leaves alone. *)
Definition same_window (s s' : pmm) : Prop :=
  ram_start s' = ram_start s ∧ ram_end s' = ram_end s ∧
  debug_assertions s' = debug_assertions s.

Lemma same_window_refl s : same_window s s.
Proof. done. Qed.

Lemma same_window_trans s1 s2 s3 : same_window s1 s2 → same_window s2 s3 → same_window s1 s3.
Proof. unfold same_window. intuition congruence. Qed.

Lemma page_index_window s s' p : same_window s s' → page_index s' p = page_index s p.
Proof. intros (H & _). unfold page_index. by rewrite H. Qed.

Lemma managed_window s s' p : same_window s s' → is_managed_page s' p = is_managed_page s p.
Proof. intros (H & _). unfold is_managed_page. by rewrite H. Qed.

Lemma frame_ok_window s s' p : same_window s s' → frame_ok s p → frame_ok s' p.
Proof. intros Hw (H1 & H2 & H3). unfold frame_ok. by rewrite (managed_window s s' p Hw). Qed.
#[export] Hint Resolve same_window_refl same_window_trans frame_ok_window : pmm.

(** ** Allocation *)

Lemma land_poison : Z.land poison_word 255 = POISON_BYTE.
Proof. reflexivity. Qed.

(** The state [alloc_frame] leaves when it hands out the head frame [p]. *)
Definition after_alloc (p : Z) (s : pmm) : pmm :=
  set_count (page_index s p) 1
    (set_mem (<[p := zero_frame]> (mem s)) (set_free_head (read_word (mem s) p 0) s)).

Lemma alloc_frame_cons s p fl :
  pmm_wf s (p :: fl) → alloc_frame s = (Ok (Some p), after_alloc p s).
Proof.
  intros Hwf. destruct (wf_chain _ _ Hwf) as (Hh & Hp & _).
  assert (p ∈ p :: fl) as Hin by set_solver.
  destruct (wf_free _ _ Hwf p Hin) as [(_ & Hman & _) _].
  unfold alloc_frame. rewrite Hh.
  destruct (Z.eqb_spec p 0); [done|]. simpl.
  rewrite (wf_poison _ _ Hwf p Hin), land_poison. rewrite Z.eqb_refl, andb_false_r.
  pose proof (page_index_lt s p Hman).
  change (page_index (set_mem _ _) p) with (page_index s p).
  destruct (Z.ltb_spec (page_index s p) MAX_PAGES); [done|lia].
Qed.

Lemma alloc_frame_nil s : pmm_wf s [] → alloc_frame s = (Ok None, s).
Proof. intros Hwf. unfold alloc_frame. by rewrite (wf_chain _ _ Hwf). Qed.

Lemma after_alloc_window p s : same_window s (after_alloc p s).
Proof. done. Qed.
#[export] Hint Resolve after_alloc_window : pmm.

Lemma after_alloc_mem p s : mem (after_alloc p s) = <[p := zero_frame]> (mem s).
Proof. done. Qed.

Lemma after_alloc_count s p fl q :
  pmm_wf s (p :: fl) → frame_ok s q →
  count_at (after_alloc p s) (page_index s q) =
    if decide (q = p) then 1 else count_at s (page_index s q).
Proof.
  intros Hwf Hq. destruct (wf_free _ _ Hwf p ltac:(set_solver)) as [Hp _].
  unfold after_alloc. case_decide as Hqp.
  - subst. apply count_set_count_eq.
  - rewrite count_set_count_ne; [done|]. intros Heq. apply Hqp. symmetry.
    eauto using page_index_inj with pmm.
Qed.

Lemma after_alloc_wf s p fl : pmm_wf s (p :: fl) → pmm_wf (after_alloc p s) fl.
Proof.
  intros Hwf. destruct (wf_chain _ _ Hwf) as (_ & _ & Hc).
  pose proof (wf_nodup _ _ Hwf) as [Hnin Hnd]%NoDup_cons.
  split.
  - apply (wf_ram _ _ Hwf).
  - simpl. eapply chain_ext; [|done]. intros q Hq.
    rewrite read_word_insert_ne; [done|]. by intros ->.
  - done.
  - intros q Hq. destruct (wf_free _ _ Hwf q) as [Hok Hcnt]; [set_solver|]. split.
    + done.
    + rewrite (page_index_window s) by done.
      erewrite after_alloc_count by eauto. case_decide; [by subst|done].
  - intros q Hq. rewrite after_alloc_mem, read_word_insert_ne by (by intros ->).
    apply (wf_poison _ _ Hwf). set_solver.
Qed.

(** ** Release *)

Lemma push_free_wf s p fl :
  pmm_wf s fl → frame_ok s p → count_at s (page_index s p) = 0 → p ∉ fl →
  pmm_wf (push_free p s) (p :: fl).
Proof.
  intros Hwf Hok Hcnt Hp. split.
  - apply (wf_ram _ _ Hwf).
  - split_and!; [done|destruct Hok as (_ & _ & ?); lia|].
    unfold push_free. simpl. unfold read_word at 1. rewrite frame_at_insert. simpl.
    eapply chain_ext; [|apply (wf_chain _ _ Hwf)].
    intros q Hq. rewrite read_word_insert_ne; [done|]. by intros ->.
  - apply NoDup_cons. split; [done|]. apply (wf_nodup _ _ Hwf).
  - intros q [->|Hq]%elem_of_cons; [done|]. by apply (wf_free _ _ Hwf).
  - intros q [->|Hq]%elem_of_cons; simpl.
    + unfold read_word. by rewrite frame_at_insert.
    + rewrite read_word_insert_ne by (by intros ->). by apply (wf_poison _ _ Hwf).
Qed.

(** Counting a frame that is not free keeps the free list well formed. *)
Lemma set_count_wf s fl p c :
  pmm_wf s fl → frame_ok s p → p ∉ fl → pmm_wf (set_count (page_index s p) c s) fl.
Proof.
  intros Hwf Hok Hp. split; try apply Hwf.
  intros q Hq. destruct (wf_free _ _ Hwf q Hq) as [Hqok Hq0]. split; [done|].
  change (page_index (set_count _ _ _) q) with (page_index s q).
  rewrite count_set_count_ne; [done|]. intros Heq.
  assert (p = q) as ->; [|done]. eauto using page_index_inj with pmm.
Qed.

(** A frame with a positive count is not on the free list. *)
Lemma counted_not_free s fl p :
  pmm_wf s fl → count_at s (page_index s p) ≠ 0 → p ∉ fl.
Proof. intros Hwf Hc Hin. by apply Hc, (wf_free _ _ Hwf). Qed.

Lemma release_wf s fl p :
  pmm_wf s fl → frame_ok s p → p ∉ fl →
  pmm_wf (push_free p (set_count (page_index s p) 0 s)) (p :: fl).
Proof.
  intros Hwf Hok Hp. apply push_free_wf; [by apply set_count_wf|done| |done].
  change (page_index (set_count _ _ _) p) with (page_index s p).
  apply count_set_count_eq.
Qed.
#[export] Hint Resolve counted_not_free after_alloc_wf release_wf set_count_wf : pmm.

(** ** Properties of the allocator *)

(** On a well-formed allocator [alloc_frame] never panics.  With no free
    frame it returns [None] and changes nothing; otherwise it returns the head
    of the free list, zeroed and with reference count 1, the list loses exactly
    that frame, and the contents and the counts of all other frames are kept. *)
Theorem alloc_frame_spec s fl :
  pmm_wf s fl →
  match fl with
  | [] => alloc_frame s = (Ok None, s)
  | p :: fl' => ∃ s', alloc_frame s = (Ok (Some p), s') ∧ pmm_wf s' fl' ∧ (p ∉ fl') ∧
      frame_at (mem s') p = zero_frame ∧ count_at s' (page_index s' p) = 1 ∧
      (∀ q, q ≠ p → frame_at (mem s') q = frame_at (mem s) q) ∧
      (∀ q, frame_ok s q → q ≠ p →
         count_at s' (page_index s' q) = count_at s (page_index s q))
  end.
Proof.
  intros Hwf. destruct fl as [|p fl]; [by apply alloc_frame_nil|].
  exists (after_alloc p s). pose proof (wf_nodup _ _ Hwf) as [Hnin _]%NoDup_cons.
  destruct (wf_free _ _ Hwf p ltac:(set_solver)) as [Hp _].
  split_and!; [by eapply alloc_frame_cons|by apply after_alloc_wf|done| | | |].
  - rewrite after_alloc_mem. apply frame_at_insert.
  - rewrite (page_index_window s) by done. erewrite after_alloc_count by eauto.
    by rewrite decide_True.
  - intros q Hq. rewrite after_alloc_mem. by apply frame_at_insert_ne.
  - intros q Hq Hne. rewrite (page_index_window s) by done.
    erewrite after_alloc_count by eauto. by rewrite decide_False.
Qed.

(** The transitions clients are entitled to: allocate; share, drop or free a
    frame that is counted; write to a counted frame. *)
Inductive pmm_step : pmm → pmm → Prop :=
  | step_alloc s r s' : alloc_frame s = (Ok r, s') → pmm_step s s'
  | step_incr s p s' : frame_ok s p → 0 < count_at s (page_index s p) →
      incr_ref p s = (Ok tt, s') → pmm_step s s'
  | step_decr s p s' : frame_ok s p → 0 < count_at s (page_index s p) →
      decr_ref_and_maybe_free p s = (Ok tt, s') → pmm_step s s'
  | step_free s p s' : frame_ok s p → 0 < count_at s (page_index s p) →
      free_page p s = (Ok tt, s') → pmm_step s s'
  | step_write s p f : 0 < count_at s (page_index s p) →
      pmm_step s (set_mem (<[p := f]> (mem s)) s).

Lemma managed_index_ge s p : frame_ok s p → (MAX_PAGES <=? page_index s p) = false.
Proof. intros (_ & Hm & _). pose proof (page_index_lt s p Hm). apply Z.leb_gt. lia. Qed.

Lemma managed_index_ltb s p : frame_ok s p → (page_index s p <? MAX_PAGES) = true.
Proof. intros (_ & Hm & _). pose proof (page_index_lt s p Hm). apply Z.ltb_lt. lia. Qed.

Lemma incr_ref_eq s p :
  frame_ok s p →
  incr_ref p s =
    (Ok tt, set_count (page_index s p) (sat_add 16 (count_at s (page_index s p)) 1) s).
Proof. intros Hok. unfold incr_ref. by rewrite managed_index_ltb. Qed.

Lemma decr_free_eq s p :
  frame_ok s p →
  decr_ref_and_maybe_free p s =
    (Ok tt, if 1 <? count_at s (page_index s p)
            then set_count (page_index s p) (count_at s (page_index s p) - 1) s
            else push_free p (set_count (page_index s p) 0 s)).
Proof.
  intros Hok. unfold decr_ref_and_maybe_free. rewrite managed_index_ge by done.
  destruct Hok as (_ & -> & _). simpl. by destruct (1 <? _).
Qed.

Lemma free_page_eq s p :
  frame_ok s p → 0 < count_at s (page_index s p) →
  free_page p s = (Ok tt, push_free p (set_count (page_index s p) 0 s)).
Proof.
  intros Hok Hc. unfold free_page. rewrite managed_index_ge by done.
  destruct Hok as (-> & _ & _). simpl. rewrite andb_false_r.
  destruct (Z.eqb_spec (count_at s (page_index s p)) 0); [lia|]. by rewrite andb_false_r.
Qed.

Lemma decr_free_wf s fl p :
  pmm_wf s fl → frame_ok s p → 0 < count_at s (page_index s p) →
  ∃ s' fl', decr_ref_and_maybe_free p s = (Ok tt, s') ∧ pmm_wf s' fl' ∧ same_window s s' ∧
    (fl' = fl ∨ fl' = p :: fl).
Proof.
  intros Hwf Hok Hc. rewrite decr_free_eq by done.
  assert (p ∉ fl) by (eapply counted_not_free; [done|lia]).
  destruct (1 <? _).
  - exists (set_count (page_index s p) (count_at s (page_index s p) - 1) s), fl.
    split_and!; [done|by apply set_count_wf|done|by left].
  - eexists _, (p :: fl). split_and!; [done|by apply release_wf|done|by right].
Qed.

Lemma write_counted_wf s fl p f :
  pmm_wf s fl → p ∉ fl → pmm_wf (set_mem (<[p := f]> (mem s)) s) fl.
Proof.
  intros Hwf Hp. split; try apply Hwf; simpl.
  - eapply chain_ext; [|apply Hwf]. intros q Hq.
    rewrite read_word_insert_ne; [done|]. by intros ->.
  - intros q Hq. rewrite read_word_insert_ne by (by intros ->). by apply Hwf.
Qed.

Lemma pmm_step_wf s s' fl : pmm_step s s' → pmm_wf s fl → ∃ fl', pmm_wf s' fl'.
Proof.
  intros Hstep Hwf.
  destruct Hstep as [s r s' H|s p s' Hok Hc H|s p s' Hok Hc H|s p s' Hok Hc H|s p f Hc].
  - destruct fl as [|p fl].
    + rewrite alloc_frame_nil in H by done. naive_solver.
    + erewrite alloc_frame_cons in H by done. naive_solver eauto with pmm.
  - rewrite incr_ref_eq in H by done. injection H as <-. exists fl.
    apply set_count_wf; [done|done|]. eapply counted_not_free; [done|lia].
  - destruct (decr_free_wf s fl p) as (s1 & fl' & H1 & Hwf1 & _); [done..|].
    rewrite H1 in H. naive_solver.
  - rewrite free_page_eq in H by done. injection H as <-. exists (p :: fl).
    apply release_wf; [done|done|]. eapply counted_not_free; [done|lia].
  - exists fl. apply write_counted_wf; [done|]. eapply counted_not_free; [done|lia].
Qed.

(** C40: The allocator's invariant is inductive.  Any interleaving of
    allocations with sharing, dropping, freeing and writing of frames whose count
    is positive keeps a well-formed free list: no frame is ever on it twice and
    every frame on it is unreferenced, managed, aligned and still poisoned. *)
Theorem pmm_steps_wf s s' fl :
  pmm_wf s fl → rtc pmm_step s s' → ∃ fl', pmm_wf s' fl'.
Proof.
  intros Hwf Hsteps. revert fl Hwf. induction Hsteps as [s|s s1 s' Hst _ IH]; intros fl Hwf.
  - by exists fl.
  - destruct (pmm_step_wf _ _ _ Hst Hwf) as [fl1 Hwf1]. eauto.
Qed.

(** ** Sharing *)

Fixpoint repeatM {S} (n : nat) (c : M S unit) : M S unit :=
  match n with O => mret tt | S n' => c ≫= (λ _, repeatM n' c) end.

Lemma repeat_incr s fl p n :
  pmm_wf s fl → frame_ok s p → 0 < count_at s (page_index s p) →
  count_at s (page_index s p) + Z.of_nat n ≤ u16_max →
  ∃ s', repeatM n (incr_ref p) s = (Ok tt, s') ∧ pmm_wf s' fl ∧ same_window s s' ∧
    mem s' = mem s ∧
    count_at s' (page_index s p) = count_at s (page_index s p) + Z.of_nat n.
Proof.
  revert s. induction n as [|n IH]; intros s Hwf Hok Hc Hmax.
  - exists s. split_and!; eauto with pmm. lia.
  - cbn [repeatM]. erewrite bind_ok by (by apply incr_ref_eq).
    set (c := sat_add 16 _ 1). assert (c = count_at s (page_index s p) + 1) as Hceq.
    { unfold c. apply sat_add_small; [lia|]. unfold u16_max in Hmax. lia. }
    set (s1 := set_count (page_index s p) c s).
    assert (count_at s1 (page_index s p) = c) as Hc1 by apply count_set_count_eq.
    destruct (IH s1) as (s' & Hr & Hwf' & Hw & Hm & Hcnt).
    + apply set_count_wf; [done|done|]. eapply counted_not_free; [done|lia].
    + done.
    + change (page_index s1 p) with (page_index s p). lia.
    + change (page_index s1 p) with (page_index s p). lia.
    + exists s'. change (page_index s1 p) with (page_index s p) in Hcnt.
      split_and!; [done|done|by eapply same_window_trans|done|lia].
Qed.

Lemma repeat_decr s fl p n :
  pmm_wf s fl → frame_ok s p → Z.of_nat n < count_at s (page_index s p) →
  ∃ s', repeatM n (decr_ref_and_maybe_free p) s = (Ok tt, s') ∧ pmm_wf s' fl ∧
    same_window s s' ∧ mem s' = mem s ∧
    count_at s' (page_index s p) = count_at s (page_index s p) - Z.of_nat n.
Proof.
  revert s. induction n as [|n IH]; intros s Hwf Hok Hc.
  - exists s. split_and!; eauto with pmm. lia.
  - cbn [repeatM]. erewrite bind_ok by (by apply decr_free_eq).
    destruct (Z.ltb_spec 1 (count_at s (page_index s p))) as [H1|]; [|lia].
    set (s1 := set_count _ _ s).
    assert (count_at s1 (page_index s p) = count_at s (page_index s p) - 1) as Hc1
      by apply count_set_count_eq.
    destruct (IH s1) as (s' & Hr & Hwf' & Hw & Hm & Hcnt).
    + apply set_count_wf; [done|done|]. eapply counted_not_free; [done|lia].
    + done.
    + change (page_index s1 p) with (page_index s p). lia.
    + exists s'. change (page_index s1 p) with (page_index s p) in Hcnt.
      split_and!; [done|done|by eapply same_window_trans|done|lia].
Qed.

(** Reference counting is balanced.  A freshly allocated frame shared [n]
    more times ([n] up to 65534) survives [n] drops with its memory intact and a
    count of one, and the next drop, and only that one, returns it to the head of
    the free list. *)
Theorem refcount_balanced s p fl n s1 :
  pmm_wf s (p :: fl) → Z.of_nat n ≤ 65534 →
  alloc_frame s = (Ok (Some p), s1) →
  ∃ s2 s3, (repeatM n (incr_ref p) ≫= (λ _, repeatM n (decr_ref_and_maybe_free p))) s1 = (Ok tt, s2) ∧
    pmm_wf s2 fl ∧ mem s2 = mem s1 ∧ count_at s2 (page_index s2 p) = 1 ∧
    decr_ref_and_maybe_free p s2 = (Ok tt, s3) ∧ pmm_wf s3 (p :: fl) ∧ free_head s3 = p.
Proof.
  intros Hwf Hn Ha. erewrite alloc_frame_cons in Ha by done. injection Ha as Hs1.
  destruct (wf_free _ _ Hwf p ltac:(set_solver)) as [Hokp _].
  assert (same_window s s1) as Hw by (by rewrite <-Hs1).
  assert (frame_ok s1 p) as Hok by eauto with pmm.
  assert (pmm_wf s1 fl) as Hwf1 by (rewrite <-Hs1; by apply after_alloc_wf).
  assert (count_at s1 (page_index s1 p) = 1) as Hc1.
  { rewrite (page_index_window s) by done. rewrite <-Hs1.
    erewrite after_alloc_count by done. by rewrite decide_True. }
  destruct (repeat_incr s1 fl p n) as (sa & Hra & Hwfa & Hwa & Hma & Hca);
    [done|done|lia|unfold u16_max; lia|].
  rewrite Hc1, <-(page_index_window s1 sa) in Hca by done.
  destruct (repeat_decr sa fl p n) as (s2 & Hrb & Hwf2 & Hw2 & Hm2 & Hc2);
    [done|eauto with pmm|lia|].
  rewrite Hca, <-(page_index_window sa s2) in Hc2 by done.
  assert (frame_ok s2 p) as Hok2 by eauto with pmm.
  assert (count_at s2 (page_index s2 p) = 1) as Hone by lia.
  exists s2, (push_free p (set_count (page_index s2 p) 0 s2)).
  split_and!; [by erewrite bind_ok by exact Hra|done|congruence|done| | |done].
  - rewrite decr_free_eq by done. by rewrite Hone.
  - apply release_wf; [done|done|]. eapply counted_not_free; [done|lia].
Qed.

(** ** Building the free list at boot *)

Lemma chain_snoc m m' h l p q :
  chain m h l → NoDup l → last l = Some p → q ≠ 0 →
  (∀ x, x ∈ l → x ≠ p → read_word m' x 0 = read_word m x 0) →
  read_word m' p 0 = q → read_word m' q 0 = 0 →
  chain m' h (l ++ [q]).
Proof.
  intros Hc Hnd Hl Hq Hext Hp Hq0. revert h Hc.
  induction l as [|x l IH]; intros h; [done|]. simpl.
  intros (-> & Hx & Hc). split_and!; [done|done|].
  apply NoDup_cons in Hnd as [Hnin Hnd]. destruct l as [|y l].
  - simpl in *. injection Hl as ->. by rewrite Hp.
  - assert (x ≠ p). { intros ->. apply Hnin. by apply last_Some_elem_of. }
    rewrite Hext by set_solver. apply IH; [done|done| |done].
    intros z Hz Hzp. apply Hext; set_solver.
Qed.

(** What the boot loop has built after the frames [pre]: closing the list at
    [prev] gives the chain of the frames kept so far. *)
Definition boot_inv (b : boot_info) (pre : list Z) (st : Z * Z * gmap Z (list Z)) : Prop :=
  let '(head, prev, m) := st in
  let l := filter (λ c, overlaps_reserved b c = false) pre in
  (∀ p, p ∈ l → read_word m p 1 = poison_word ∧ length (frame_at m p) = frame_words) ∧
  ((l = [] ∧ head = 0 ∧ prev = 0) ∨
   (last l = Some prev ∧ prev ≠ 0 ∧ head ≠ 0 ∧ chain (write_word m prev 0 0) head l)).

Lemma poison_tail_frame m p :
  read_word (poison_tail m p) p 1 = poison_word ∧
  length (frame_at (poison_tail m p) p) = frame_words.
Proof. unfold poison_tail, read_word. by rewrite frame_at_insert. Qed.

Lemma write_word_frame m p i v q :
  length (frame_at m q) = frame_words → length (frame_at (write_word m p i v) q) = frame_words.
Proof.
  intros Hl. unfold write_word. destruct (decide (p = q)) as [->|].
  - by rewrite frame_at_insert, length_insert.
  - by rewrite frame_at_insert_ne.
Qed.

Lemma boot_step_inv b pre st c :
  boot_inv b pre st → NoDup (pre ++ [c]) → c ≠ 0 →
  boot_inv b (pre ++ [c]) (init_step b st c).
Proof.
  destruct st as [[head prev] m]. intros [Hpoi Hlist] Hnd Hc.
  assert (c ∉ pre) as Hnin.
  { apply NoDup_app in Hnd as (_ & Hd & _). intros Hin. by apply (Hd c Hin), list_elem_of_singleton. }
  unfold boot_inv, init_step. destruct (overlaps_reserved b c) eqn:Hov.
  { rewrite filter_app, filter_cons_False, filter_nil, app_nil_r by congruence. by split. }
  rewrite filter_app, filter_cons_True, filter_nil by done.
  set (l := filter _ pre) in *.
  assert (c ∉ l) as Hnl by (intros [_ Hin]%list_elem_of_filter; done).
  assert (NoDup l) as Hndl. { apply NoDup_filter. by apply NoDup_app in Hnd as (? & _). }
  destruct Hlist as [(Hl & -> & ->)|(Hlast & Hp0 & Hh0 & Hch)].
  - rewrite Hl. simpl. split.
    + intros p ->%list_elem_of_singleton. apply poison_tail_frame.
    + right. split_and!; try done. apply read_write_word_eq.
      rewrite (proj2 (poison_tail_frame m c)). unfold frame_words. lia.
  - destruct (Z.eqb_spec head 0); [done|].
    assert (prev ∈ l) as Hprev by (by apply last_Some_elem_of).
    assert (c ≠ prev) as Hcp by (by intros ->).
    split.
    + intros p [Hp| ->%list_elem_of_singleton]%elem_of_app.
      * assert (c ≠ p) by (by intros ->). destruct (Hpoi p Hp) as [H1 H2]. split.
        -- destruct (decide (prev = p)) as [->|].
           ++ rewrite read_write_word_other by done. unfold poison_tail.
              by rewrite read_word_insert_ne.
           ++ rewrite read_write_word_ne by done. unfold poison_tail.
              by rewrite read_word_insert_ne.
        -- apply write_word_frame. unfold poison_tail. by rewrite frame_at_insert_ne.
      * rewrite read_write_word_ne by done. split; [apply poison_tail_frame|].
        apply write_word_frame, poison_tail_frame.
    + right. split_and!; [by rewrite last_snoc|done|done|].
      eapply chain_snoc; [done|done|done|done| | |].
      * intros x Hx Hxp. assert (c ≠ x) by (by intros ->).
        rewrite !read_write_word_ne by done. unfold poison_tail. by rewrite read_word_insert_ne.
      * rewrite read_write_word_ne by done. apply read_write_word_eq.
        unfold poison_tail. rewrite frame_at_insert_ne by done.
        rewrite (proj2 (Hpoi prev Hprev)). unfold frame_words. lia.
      * apply read_write_word_eq. rewrite write_word_frame; [unfold frame_words; lia|].
        apply poison_tail_frame.
Qed.

Lemma boot_loop_inv b pre post st :
  boot_inv b pre st → NoDup (pre ++ post) → (∀ c, c ∈ post → c ≠ 0) →
  boot_inv b (pre ++ post) (foldl (init_step b) st post).
Proof.
  revert pre st. induction post as [|c post IH]; intros pre st Hinv Hnd Hnz.
  - by rewrite app_nil_r.
  - rewrite cons_middle, app_assoc in *. apply IH; [|done|set_solver].
    apply boot_step_inv; [done| |apply Hnz; set_solver].
    by apply NoDup_app in Hnd as (? & _).
Qed.

(** What [init] relies on: RAM is aligned, non-null, below the page-table limit
    and within the refcount table, and the kernel image lies in it. *)
Record boot_ok (b : boot_info) : Prop := {
  bo_start : bi_ram_start b mod PAGE_SIZE = 0 ∧ 0 < bi_ram_start b;
  bo_size : bi_ram_size b ≤ MAX_PAGES * PAGE_SIZE;
  bo_end : bi_ram_start b + bi_ram_size b ≤ 2 ^ 56;
  bo_kernel : bi_ram_start b ≤ bi_stack_end b;
}.

Lemma align_up_spec x :
  let y := Z.land (x + PAGE_SIZE - 1) (Z.lnot (PAGE_SIZE - 1)) in
  y mod PAGE_SIZE = 0 ∧ x ≤ y < x + PAGE_SIZE.
Proof.
  simpl. change (PAGE_SIZE - 1) with (Z.ones 12). unfold PAGE_SIZE.
  rewrite <-Z.ldiff_land, Z.ldiff_ones_r by lia.
  rewrite Z.shiftl_mul_pow2, Z.shiftr_div_pow2 by lia. change (2 ^ 12) with 4096.
  rewrite Z.mod_mul by lia. pose proof (Z.div_mod (x + 4096 - 1) 4096 ltac:(lia)).
  pose proof (Z.mod_pos_bound (x + 4096 - 1) 4096 ltac:(lia)). lia.
Qed.

Lemma init_frames_spec b c :
  c ∈ init_frames b ↔
  c mod PAGE_SIZE = 0 ∧ bi_stack_end b ≤ c ∧ c + PAGE_SIZE ≤ bi_ram_start b + bi_ram_size b.
Proof.
  unfold init_frames. pose proof (align_up_spec (bi_stack_end b)) as Hal. simpl in Hal.
  set (k0 := Z.land _ _) in *. set (e := bi_ram_start b + bi_ram_size b).
  rewrite list_elem_of_fmap. unfold PAGE_SIZE in *. split.
  - intros (k & -> & Hk%elem_of_seq). split_and!; [|lia|].
    + rewrite Z.mod_add by lia. lia.
    + pose proof (Z.div_mod (e - k0) 4096 ltac:(lia)).
      pose proof (Z.mod_pos_bound (e - k0) 4096 ltac:(lia)). lia.
  - intros (Hm & Hlo & Hhi). pose proof (Z.div_mod c 4096 ltac:(lia)).
    pose proof (Z.div_mod k0 4096 ltac:(lia)).
    exists (Z.to_nat (c / 4096 - k0 / 4096)). split; [lia|]. apply elem_of_seq.
    assert (c / 4096 - k0 / 4096 + 1 ≤ (e - k0) / 4096); [|lia].
    apply Z.div_le_lower_bound; lia.
Qed.

Lemma init_frames_NoDup b : NoDup (init_frames b).
Proof.
  apply NoDup_fmap_2; [|apply NoDup_seq]. intros i j. unfold PAGE_SIZE. lia.
Qed.

Lemma sorted_filter (P : Z → Prop) `{∀ x, Decision (P x)} l :
  StronglySorted Z.lt l → StronglySorted Z.lt (filter P l).
Proof.
  induction 1 as [|x l Hl IH Hx]; [constructor|]. destruct (decide (P x)).
  - rewrite filter_cons_True by done. constructor; [done|].
    apply Forall_forall. intros y [_ Hy]%list_elem_of_filter.
    by eapply (proj1 (Forall_forall _ _)) in Hx.
  - by rewrite filter_cons_False.
Qed.

Lemma init_frames_sorted b : StronglySorted Z.lt (init_frames b).
Proof.
  unfold init_frames. set (k0 := Z.land _ _). generalize 0%nat as i.
  induction (Z.to_nat _) as [|n IH]; intros i; simpl; constructor; [apply IH|].
  apply Forall_fmap, Forall_forall. intros j [Hj _]%elem_of_seq. simpl. unfold PAGE_SIZE. lia.
Qed.

Lemma init_wf b m dbg :
  boot_ok b →
  pmm_wf (init b m dbg) (filter (λ c, overlaps_reserved b c = false) (init_frames b)).
Proof.
  intros [[Hal Hpos] Hsz Hend Hker].
  assert (∀ c, c ∈ init_frames b → c ≠ 0) as Hnz.
  { intros c (_ & ? & _)%init_frames_spec. lia. }
  pose proof (boot_loop_inv b [] (init_frames b) (0, 0, m)) as Hinv.
  specialize (Hinv ltac:(split; [set_solver|by left]) (init_frames_NoDup b) Hnz).
  unfold init. simpl in Hinv. destruct (foldl _ _ _) as [[head prev] m1].
  destruct Hinv as [Hpoi Hl]. set (l := filter _ _) in *.
  split; simpl; [done| |by apply NoDup_filter, init_frames_NoDup| |].
  - destruct Hl as [(-> & -> & ->)|(_ & Hp & _ & Hc)]; [done|].
    by destruct (Z.eqb_spec prev 0).
  - intros p [_ (Hm & Hlo & Hhi)%init_frames_spec]%list_elem_of_filter.
    split; [|done]. unfold frame_ok, is_managed_page; simpl.
    unfold MAX_PAGES, PAGE_SIZE in *. split_and!; [done| |lia|lia].
    apply andb_true_iff. split; [apply Z.leb_le|apply Z.ltb_lt]; lia.
  - intros p Hp. destruct (Hpoi p Hp). destruct (prev =? 0); [done|].
    destruct (decide (prev = p)) as [->|];
      [by rewrite read_write_word_other|by rewrite read_write_word_ne].
Qed.

(** [init] hands over exactly the usable memory.  From any initial memory
    contents the free list it builds is well formed and consists of the page
    frames lying between the end of the kernel image and the end of RAM that
    overlap neither the device tree blob nor the initrd, each once, in ascending
    order of address. *)
Theorem init_free_list b m dbg :
  boot_ok b →
  ∃ fl, pmm_wf (init b m dbg) fl ∧ StronglySorted Z.lt fl ∧
    ∀ c, c ∈ fl ↔ c mod PAGE_SIZE = 0 ∧ bi_stack_end b ≤ c ∧
      c + PAGE_SIZE ≤ bi_ram_start b + bi_ram_size b ∧ overlaps_reserved b c = false.
Proof.
  intros Hb. exists (filter (λ c, overlaps_reserved b c = false) (init_frames b)).
  split_and!; [by apply init_wf|apply sorted_filter, init_frames_sorted|].
  intros c. rewrite list_elem_of_filter, init_frames_spec. naive_solver.
Qed.

(** ** Concrete machines the properties apply to *)

(** A machine with 16 frames of RAM of which the kernel occupies four, the
    device tree one and the initrd two. *)
Definition demo_boot : boot_info :=
  mkBoot 2147483648 65536 2147516416 1000 2147524608 2147532000 2147500000.

Definition demo_pmm : pmm := init demo_boot ∅ true.

Lemma demo_boot_ok : boot_ok demo_boot.
Proof. split; vm_compute; intuition discriminate. Qed.

Definition demo_free : list Z :=
  filter (λ c, overlaps_reserved demo_boot c = false) (init_frames demo_boot).

Lemma demo_wf : pmm_wf demo_pmm demo_free.
Proof. apply init_wf, demo_boot_ok. Qed.

Lemma demo_free_eq : demo_free = 2147500032 :: tail demo_free.
Proof. vm_compute. reflexivity. Qed.

Lemma init_free_list_witness : ∃ fl, pmm_wf demo_pmm fl ∧ StronglySorted Z.lt fl.
Proof.
  destruct (init_free_list demo_boot ∅ true) as (fl & H1 & H2 & _);
    [exact demo_boot_ok|]. by exists fl.
Defined.

Lemma alloc_frame_spec_witness :
  ∃ s', alloc_frame demo_pmm = (Ok (Some 2147500032), s') ∧ pmm_wf s' (tail demo_free).
Proof.
  pose proof demo_wf as Hwf. rewrite demo_free_eq in Hwf.
  destruct (alloc_frame_spec _ _ Hwf) as (s' & H1 & H2 & _). by exists s'.
Defined.

Lemma pmm_steps_wf_witness :
  ∃ s' fl', rtc pmm_step demo_pmm s' ∧ count_at s' 4 = 2 ∧ pmm_wf s' fl'.
Proof.
  pose proof demo_wf as Hwf. rewrite demo_free_eq in Hwf.
  set (s1 := after_alloc 2147500032 demo_pmm).
  assert (rtc pmm_step demo_pmm (set_count 4 2 s1)) as Hs.
  { eapply rtc_l; [exact (step_alloc _ _ _ (alloc_frame_cons _ _ _ Hwf))|].
    apply rtc_once, (step_incr _ 2147500032); vm_compute; intuition congruence. }
  destruct (pmm_steps_wf demo_pmm _ _ Hwf Hs) as [fl' Hwf'].
  exists (set_count 4 2 s1), fl'. split; [exact Hs|]. split; [vm_compute; reflexivity|exact Hwf'].
Defined.

Lemma refcount_balanced_witness :
  ∃ s2, count_at s2 (page_index s2 2147500032) = 1 ∧
    pmm_wf s2 (tail demo_free).
Proof.
  pose proof demo_wf as Hwf. rewrite demo_free_eq in Hwf.
  destruct (refcount_balanced demo_pmm 2147500032 (tail demo_free) 3 _ Hwf
              ltac:(lia) (alloc_frame_cons _ _ _ Hwf)) as (s2 & s3 & _ & H1 & _ & H2 & _).
  by exists s2.
Defined.
