(* ===== verification/Vmm.v ===== *)
(** * Virtual memory (src/mm/vmm.rs)

    Sv39 page tables live in the frames of {!Pmm}: a table at physical address
    [pt] is its frame of 512 words.  The operations of the source walk and change
    the words in place; here they are computations over the allocator's state.
    Each table is reached from a root by a path of at most two indices; [walk] is
    that view, and the theorems compare an address space before and after an
    operation through [translate], the leaf entry seen by a virtual address. *)

From Stdlib Require Import ZArith Lia.
From stdpp Require Import prelude gmap strings.
From S2P Require Import Prelude Pmm.

Local Open Scope Z_scope.

(** ** Page-table entries *)

Definition PTE_V : Z := 1.
Definition PTE_R : Z := 2.
Definition PTE_W : Z := 4.
Definition PTE_X : Z := 8.
Definition PTE_U : Z := 16.
Definition PTE_COW : Z := 256.

(** [(pa >> 12) << 10 | PTE_V | flags]. *)
Definition mk_pte (pa flags : Z) : Z :=
  Z.lor (Z.lor (wrap 64 (Z.shiftl (Z.shiftr pa 12) 10)) PTE_V) flags.

(** [(entry >> 10) << 12]. *)
Definition pte_pa (entry : Z) : Z := wrap 64 (Z.shiftl (Z.shiftr entry 10) 12).

Definition pte_flags (entry : Z) : Z := Z.land entry 1023.
Definition pte_valid (entry : Z) : bool := negb (Z.land entry PTE_V =? 0).

(** The leaf test of the walkers ([R|X]) and the stricter conflict test of
    [map_page] and [map_megapage] ([R|W|X]). *)
Definition pte_leaf (entry : Z) : bool := negb (Z.land entry (Z.lor PTE_R PTE_X) =? 0).
Definition pte_rwx (entry : Z) : bool :=
  negb (Z.land entry (Z.lor (Z.lor PTE_R PTE_W) PTE_X) =? 0).

Definition has_flag (entry flag : Z) : bool := negb (Z.land entry flag =? 0).

(** [(va >> (12 + 9 * level)) & 0x1FF]. *)
Definition vpn (level va : Z) : nat := Z.to_nat (Z.land (Z.shiftr va (12 + 9 * level)) 511).

Definition page_floor (va : Z) : Z := Z.land va (Z.lnot (PAGE_SIZE - 1)).

(** [a + b] on [usize]: debug builds check for overflow, others wrap. *)
Definition usize_add (a b : Z) : M pmm Z := λ s,
  if a + b <=? usize_max then (Ok (a + b), s)
  else if debug_assertions s then (Panic "attempt to add with overflow", s)
  else (Ok (wrap 64 (a + b)), s).

(** ** Access to the words of tables *)

Definition entry_at (pt : Z) (i : nat) : M pmm Z := gets (λ s, read_word (mem s) pt i).
Definition set_entry (pt : Z) (i : nat) (e : Z) : M pmm unit :=
  modify (λ s, set_mem (write_word (mem s) pt i e) s).

Definition alloc_or (e : string) : M pmm Z := o ← alloc_frame; ok_or o e.

(** ** Operations *)

Definition new_process_table (kernel_root_entries : list Z) : M pmm Z :=
  root_page ← alloc_or "Out of memory";
  for_each (seq 0 4) (λ i,
    set_entry root_page i (default 0 (kernel_root_entries !! i))) ;;
  mret root_page.

(** One turn of [map_page]'s loop: the next-level table, allocated if the entry
    is invalid. *)
Definition next_table (oom conflict : string) (pt : Z) (i : nat) : M pmm Z :=
  entry ← entry_at pt i;
  (if pte_valid entry then mret tt
   else new_page ← alloc_or oom; set_entry pt i (mk_pte new_page 0)) ;;
  entry' ← entry_at pt i;
  if pte_rwx entry' then fail conflict else mret (pte_pa entry').

Definition map_page (root va pa flags : Z) : M pmm unit :=
  let step := next_table "Out of memory mapping page"
    "map_page: intermediate PTE is already a leaf (megapage conflict)" in
  l1 ← step root (vpn 2 va);
  l0 ← step l1 (vpn 1 va);
  entry ← entry_at l0 (vpn 0 va);
  if pte_valid entry then fail "Page already mapped"
  else set_entry l0 (vpn 0 va) (mk_pte pa flags).

Definition map_megapage (root va pa flags : Z) : M pmm unit :=
  l1 ← next_table "Out of memory for L1 table in map_megapage"
    "map_megapage: L2 entry is already a 1GB leaf" root (vpn 2 va);
  l1e ← entry_at l1 (vpn 1 va);
  if pte_valid l1e then fail "map_megapage: 2MB region already mapped"
  else set_entry l1 (vpn 1 va) (mk_pte pa flags).

(** One turn of the walkers' loop. *)
Definition walk_step (unmapped huge : string) (pt : Z) (i : nat) : M pmm Z :=
  entry ← entry_at pt i;
  if negb (pte_valid entry) then fail unmapped
  else if pte_leaf entry then fail huge
  else mret (pte_pa entry).

Definition walk_page_table (root va : Z) : M pmm (Z * Z) :=
  let step := walk_step "unmapped" "huge pages not supported" in
  l1 ← step root (vpn 2 va);
  l0 ← step l1 (vpn 1 va);
  entry ← entry_at l0 (vpn 0 va);
  if negb (pte_valid entry) then fail "unmapped"
  else mret (Z.lor (pte_pa entry) (Z.land va 4095), pte_flags entry).

(** Copy-on-write resolution. *)
Definition handle_store_page_fault (root fault_va : Z) : M pmm unit :=
  let step := walk_step "no mapping at level" "huge page (1GB/2MB) not supported for COW" in
  l1 ← step root (vpn 2 fault_va);
  l0 ← step l1 (vpn 1 fault_va);
  entry ← entry_at l0 (vpn 0 fault_va);
  if negb (pte_valid entry) then fail "no mapping for faulting VA"
  else
    let pa := pte_pa entry in
    let flags := pte_flags entry in
    if has_flag flags PTE_COW then
      managed ← gets (λ s, is_managed_page s pa);
      if negb managed then fail "Cannot COW an unmanaged physical page (e.g., MMIO)"
      else
        new_pa ← alloc_or "OOM in COW";
        modify (λ s, set_mem (<[new_pa := frame_at (mem s) pa]> (mem s)) s) ;;
        let new_flags := Z.lor (Z.ldiff flags PTE_COW) PTE_W in
        set_entry l0 (vpn 0 fault_va) (mk_pte new_pa (Z.land new_flags 1023)) ;;
        decr_ref_and_maybe_free pa
    else fail "write to read-only page (not COW)".

(** Copying a parent table into a child table, by level; the recursion is on
    the level.  A pointer at level 0 makes [level - 1] underflow. *)
Definition clone_entry (rec : Z → Z → M pmm unit) (parent_pa child_pa : Z) (idx : nat)
    : M pmm unit :=
  entry ← entry_at parent_pa idx;
  if entry =? 0 then set_entry child_pa idx 0
  else if negb (pte_leaf entry) then
    new_page ← alloc_or "OOM cloning page table";
    set_entry child_pa idx (mk_pte new_page 0) ;;
    rec (pte_pa entry) new_page
  else
    let pa := pte_pa entry in
    let flags := pte_flags entry in
    managed ← gets (λ s, is_managed_page s pa);
    flags' ←
      (if has_flag flags PTE_U && managed then
         f ← (if has_flag flags PTE_W then
                let new_flags := Z.lor (Z.ldiff flags PTE_W) PTE_COW in
                set_entry parent_pa idx (mk_pte pa (Z.land new_flags 1023)) ;; mret new_flags
              else mret flags);
         incr_ref pa ;; mret f
       else mret flags);
    set_entry child_pa idx (mk_pte pa (Z.land flags' 1023)).

Fixpoint clone_level (level : nat) (parent_pa child_pa : Z) : M pmm unit :=
  let rec := match level with
             | O => λ _ _, panic "attempt to subtract with overflow"
             | S l => clone_level l
             end in
  for_each (if (level =? 2)%nat then seq 4 508 else seq 0 512)
    (clone_entry rec parent_pa child_pa).

Definition clone_user_space (parent_root_pa child_root_pa : Z) : M pmm unit :=
  clone_level 2 parent_root_pa child_root_pa.

(** Releasing what an entry refers to, then the entry. *)
Definition destroy_entry (rec : Z → M pmm unit) (pt_pa : Z) (idx : nat) : M pmm unit :=
  entry ← entry_at pt_pa idx;
  if entry =? 0 then mret tt
  else if pte_leaf entry then
    (if has_flag (pte_flags entry) PTE_U then decr_ref_and_maybe_free (pte_pa entry)
     else mret tt) ;;
    set_entry pt_pa idx 0
  else
    rec (pte_pa entry) ;;
    free_page (pte_pa entry) ;;
    set_entry pt_pa idx 0.

Fixpoint destroy_level (level : nat) (pt_pa : Z) : M pmm unit :=
  let rec := match level with
             | O => λ _, mret tt
             | S l => destroy_level l
             end in
  for_each (seq 0 512) (destroy_entry rec pt_pa).

Definition destroy_user_space (root_pa : Z) : M pmm unit :=
  for_each (seq 0 512) (λ i,
    if (i <? 4)%nat then mret tt else destroy_entry (destroy_level 1) root_pa i) ;;
  free_page root_pa.

(** The loop of [unmap_range]; the result says whether it ended within the fuel. *)
Definition sat_add_floor (va d : Z) : Z := page_floor (sat_add 64 va d).

Definition unmap_step (root_pa va : Z) : M pmm Z :=
  l2e ← entry_at root_pa (vpn 2 va);
  if negb (pte_valid l2e) || pte_leaf l2e then mret (sat_add_floor va (2 ^ 30))
  else
    let l1_pa := pte_pa l2e in
    l1e ← entry_at l1_pa (vpn 1 va);
    if negb (pte_valid l1e) || pte_leaf l1e then mret (sat_add_floor va (2 ^ 21))
    else
      let l0_pa := pte_pa l1e in
      l0e ← entry_at l0_pa (vpn 0 va);
      (if pte_valid l0e then
         (if has_flag (pte_flags l0e) PTE_U then decr_ref_and_maybe_free (pte_pa l0e)
          else mret tt) ;;
         set_entry l0_pa (vpn 0 va) 0
       else mret tt) ;;
      usize_add va PAGE_SIZE.

Fixpoint unmap_loop (fuel : nat) (root_pa va end_ : Z) : M pmm bool :=
  match fuel with
  | O => mret false
  | S n => if va <? end_ then va' ← unmap_step root_pa va; unmap_loop n root_pa va' end_
           else mret true
  end.

Definition unmap_range (fuel : nat) (root_pa va_start len : Z) : M pmm bool :=
  unmap_loop fuel root_pa (page_floor va_start) (sat_add 64 va_start len).

(** [size_of::<T>() * count] bytes at [ptr] lie in the user window. *)
Definition is_user_pointer_valid (size_of ptr count : Z) : bool :=
  if ptr =? 0 then false
  else
    let byte_len := Z.min (size_of * count) usize_max in
    (2 ^ 32 <=? ptr) && (sat_add 64 ptr byte_len <=? 2 ^ 47).

(** ** Entries decode to what they encode *)

Lemma land_shiftl_low x k n : 0 ≤ k < 2 ^ n → 0 ≤ n → Z.land (Z.shiftl x n) k = 0.
Proof.
  intros Hk Hn. apply Z.bits_inj'. intros i Hi. autorewrite with zbit.
  destruct (decide (i < n)); [|rewrite (testbit_high n k i) by lia; apply andb_false_r].
  by rewrite (Z.testbit_neg_r x (i - n)) by lia.
Qed.

Lemma ppn_field pa : 0 ≤ pa < 2 ^ 56 →
  wrap 64 (Z.shiftl (Z.shiftr pa 12) 10) = Z.shiftl (Z.shiftr pa 12) 10.
Proof.
  intros Hpa. unfold wrap. apply Z.mod_small.
  rewrite Z.shiftl_mul_pow2, Z.shiftr_div_pow2 by lia.
  assert (0 ≤ pa / 2 ^ 12 < 2 ^ 44); [|lia].
  split; [apply Z.div_pos; lia|apply Z.div_lt_upper_bound; lia].
Qed.

Lemma pte_pa_mk pa flags :
  0 ≤ pa < 2 ^ 56 → pa mod PAGE_SIZE = 0 → 0 ≤ flags < 1024 → pte_pa (mk_pte pa flags) = pa.
Proof.
  intros Hpa Hal Hf. unfold pte_pa, mk_pte. rewrite ppn_field by done.
  rewrite !Z.shiftr_lor. rewrite Z.shiftr_shiftl_l by lia.
  replace (Z.shiftr PTE_V 10) with 0 by done.
  rewrite (Z.shiftr_div_pow2 flags), Z.div_small, !Z.lor_0_r by lia.
  change (10 - 10) with 0. rewrite Z.shiftl_0_r.
  rewrite Z.shiftl_mul_pow2, Z.shiftr_div_pow2 by lia. unfold PAGE_SIZE, wrap in *.
  change (2 ^ 12) with 4096 in *. rewrite Z.mod_small; pose proof (Z.div_mod pa 4096); lia.
Qed.

Lemma land_mk pa flags k :
  0 ≤ pa < 2 ^ 56 → 0 ≤ k < 1024 →
  Z.land (mk_pte pa flags) k = Z.land (Z.lor PTE_V flags) k.
Proof.
  intros Hpa Hk. unfold mk_pte. rewrite ppn_field by done.
  rewrite <-Z.lor_assoc, Z.land_lor_distr_l, land_shiftl_low by lia. apply Z.lor_0_l.
Qed.

Lemma pte_valid_mk pa flags : 0 ≤ pa < 2 ^ 56 → pte_valid (mk_pte pa flags) = true.
Proof.
  intros Hpa. unfold pte_valid. rewrite land_mk by (unfold PTE_V; lia).
  rewrite Z.land_lor_distr_l, Z.land_diag. apply negb_true_iff, Z.eqb_neq.
  intros H%(f_equal (λ x, Z.testbit x 0)). by rewrite Z.lor_spec in H.
Qed.

Lemma pte_rwx_mk_table pa : 0 ≤ pa < 2 ^ 56 → pte_rwx (mk_pte pa 0) = false.
Proof. intros. unfold pte_rwx. by rewrite land_mk. Qed.

Lemma pte_leaf_rwx e : pte_leaf e = true → pte_rwx e = true.
Proof.
  unfold pte_leaf, pte_rwx. rewrite !negb_true_iff, !Z.eqb_neq. intros H1 H2. apply H1.
  apply Z.bits_inj'. intros i Hi. apply (f_equal (λ x, Z.testbit x i)) in H2. revert H2.
  autorewrite with zbit. destruct (Z.testbit e i), (Z.testbit PTE_R i), (Z.testbit PTE_W i),
    (Z.testbit PTE_X i); simpl; congruence.
Qed.

Lemma pte_leaf_mk_table pa : 0 ≤ pa < 2 ^ 56 → pte_leaf (mk_pte pa 0) = false.
Proof. intros. unfold pte_leaf. by rewrite land_mk. Qed.

Lemma pte_flags_mk pa flags :
  0 ≤ pa < 2 ^ 56 → 0 ≤ flags < 1024 → pte_flags (mk_pte pa flags) = Z.lor PTE_V flags.
Proof.
  intros Hpa Hf. unfold pte_flags. rewrite land_mk by lia.
  change 1023 with (Z.ones 10). rewrite Z.land_ones by lia. apply Z.mod_small.
  apply (lor_bound 10); unfold PTE_V; lia.
Qed.

Lemma pte_valid_0 : pte_valid 0 = false.
Proof. done. Qed.

Lemma vpn_lt level va : (vpn level va < 512)%nat.
Proof.
  unfold vpn. change 511 with (Z.ones 9). rewrite Z.land_ones by lia.
  pose proof (Z.mod_pos_bound (Z.shiftr va (12 + 9 * level)) (2 ^ 9)). lia.
Qed.

(** The first address of the page with the given indices. *)
Definition va_of (i2 i1 i0 : nat) : Z :=
  Z.of_nat i2 * 2 ^ 30 + Z.of_nat i1 * 2 ^ 21 + Z.of_nat i0 * 2 ^ 12.

Lemma vpn_eq level va : 0 ≤ level → vpn level va = Z.to_nat (va / 2 ^ (12 + 9 * level) mod 512).
Proof.
  intros. unfold vpn. change 511 with (Z.ones 9).
  by rewrite Z.land_ones, Z.shiftr_div_pow2 by lia.
Qed.

Lemma vpn_va_of i2 i1 i0 :
  (i2 < 512)%nat → (i1 < 512)%nat → (i0 < 512)%nat →
  vpn 2 (va_of i2 i1 i0) = i2 ∧ vpn 1 (va_of i2 i1 i0) = i1 ∧ vpn 0 (va_of i2 i1 i0) = i0.
Proof.
  intros H2 H1 H0. rewrite !vpn_eq by lia. unfold va_of.
  change (2 ^ (12 + 9 * 2)) with (2 ^ 30). change (2 ^ (12 + 9 * 1)) with (2 ^ 21).
  change (2 ^ (12 + 9 * 0)) with (2 ^ 12).
  split_and!; Z.to_euclidean_division_equations; lia.
Qed.

(** ** Address spaces *)

(** The table a path of indices leads to. *)
Fixpoint walk (m : gmap Z (list Z)) (pt : Z) (path : list nat) : option Z :=
  match path with
  | [] => Some pt
  | i :: p =>
      let e := read_word m pt i in
      if pte_valid e && negb (pte_leaf e) then walk m (pte_pa e) p else None
  end.

(** The valid 4 KiB leaf entry at a triple of indices, and of an address. *)
Definition leaf_at (m : gmap Z (list Z)) (root : Z) (i2 i1 i0 : nat) : option Z :=
  t ← walk m root [i2; i1];
  let e := read_word m t i0 in
  if pte_valid e then Some e else None.

Definition translate (m : gmap Z (list Z)) (root va : Z) : option Z :=
  leaf_at m root (vpn 2 va) (vpn 1 va) (vpn 0 va).

(** Two addresses on the same virtual page. *)
Definition same_page (va va' : Z) : Prop :=
  vpn 2 va = vpn 2 va' ∧ vpn 1 va = vpn 1 va' ∧ vpn 0 va = vpn 0 va'.

#[global] Instance same_page_dec va va' : Decision (same_page va va').
Proof. unfold same_page. apply _. Defined.

Lemma same_page_refl va : same_page va va.
Proof. done. Qed.

(** [t] is a table of the address space rooted at [root]. *)
Definition is_table (m : gmap Z (list Z)) (root t : Z) : Prop :=
  ∃ p, (length p ≤ 2)%nat ∧ walk m root p = Some t.

(** A counted frame that holds a full table. *)
Definition table_frame (s : pmm) (t : Z) : Prop :=
  frame_ok s t ∧ 0 < count_at s (page_index s t) ∧ length (frame_at (mem s) t) = frame_words.

(** An address space: the tables form a tree (no table is reached twice), are
    owned frames, entries that are not leaves are plain pointers, and the managed
    frames user leaves refer to are counted and are not tables. *)
Record as_wf (s : pmm) (root : Z) : Prop := {
  as_tree p q t : (length p ≤ 2)%nat → (length q ≤ 2)%nat →
    walk (mem s) root p = Some t → walk (mem s) root q = Some t → p = q;
  as_table t : is_table (mem s) root t → table_frame s t;
  as_ptr p t i : (length p ≤ 1)%nat → walk (mem s) root p = Some t →
    pte_valid (read_word (mem s) t i) = true → pte_leaf (read_word (mem s) t i) = false →
    pte_rwx (read_word (mem s) t i) = false;
  as_leaf i2 i1 i0 e : leaf_at (mem s) root i2 i1 i0 = Some e →
    has_flag (pte_flags e) PTE_U = true → is_managed_page s (pte_pa e) = true →
    0 < count_at s (page_index s (pte_pa e)) ∧ ¬ is_table (mem s) root (pte_pa e);
}.

Lemma walk_app m pt p q : walk m pt (p ++ q) = (t ← walk m pt p; walk m t q).
Proof.
  revert pt. induction p as [|i p IH]; intros pt; [done|]. simpl.
  destruct (_ && _); [apply IH|done].
Qed.

Lemma walk2 m root i j :
  walk m root [i; j] = (t ← walk m root [i]; walk m t [j]).
Proof. apply (walk_app m root [i] [j]). Qed.

Lemma walk_agree m m' pt q :
  (∀ q1 i q2 t, q = q1 ++ i :: q2 → walk m pt q1 = Some t →
     read_word m' t i = read_word m t i) →
  walk m' pt q = walk m pt q.
Proof.
  revert pt. induction q as [|i q IH]; intros pt Hag; [done|]. simpl.
  rewrite (Hag [] i q pt eq_refl eq_refl). destruct (_ && _) eqn:E; [|done].
  apply IH. intros q1 j q2 t -> Hw. apply (Hag (i :: q1) j q2 t); [done|].
  simpl. by rewrite E.
Qed.

Lemma read_word_out m pt i : (512 ≤ i)%nat → length (frame_at m pt) = frame_words → read_word m pt i = 0.
Proof. intros Hi Hl. unfold read_word. rewrite lookup_ge_None_2; [done|]. rewrite Hl. done. Qed.

(** Every leaf is the translation of an address. *)
Lemma leaf_at_translate s root i2 i1 i0 e :
  as_wf s root → leaf_at (mem s) root i2 i1 i0 = Some e →
  translate (mem s) root (va_of i2 i1 i0) = Some e ∧
  i2 = vpn 2 (va_of i2 i1 i0) ∧ i1 = vpn 1 (va_of i2 i1 i0) ∧ i0 = vpn 0 (va_of i2 i1 i0).
Proof.
  intros Hwf Hl. assert (i2 < 512 ∧ i1 < 512 ∧ i0 < 512)%nat as (H2 & H1 & H0).
  { assert (∀ t i, is_table (mem s) root t → pte_valid (read_word (mem s) t i) = true →
      (i < 512)%nat) as Hlt.
    { intros t i Ht Hv. destruct (as_table _ _ Hwf t Ht) as (_ & _ & Hlen).
      destruct (decide (i < 512)%nat); [done|]. by rewrite read_word_out in Hv by (done || lia). }
    unfold leaf_at in Hl. cbn [walk] in Hl.
    destruct (pte_valid (read_word (mem s) root i2)) eqn:V2; [|done].
    destruct (pte_leaf (read_word (mem s) root i2)) eqn:L2; [done|]. cbn [andb negb] in Hl.
    set (l1 := pte_pa (read_word (mem s) root i2)) in *.
    destruct (pte_valid (read_word (mem s) l1 i1)) eqn:V1; [|done].
    destruct (pte_leaf (read_word (mem s) l1 i1)) eqn:L1; [done|].
    cbn [andb negb mbind option_bind] in Hl.
    set (l0 := pte_pa (read_word (mem s) l1 i1)) in *.
    destruct (pte_valid (read_word (mem s) l0 i0)) eqn:V0; [|done].
    assert (is_table (mem s) root l1) as Ht1.
    { exists [i2]. split; [simpl; lia|]. cbn [walk]. by rewrite V2, L2. }
    split_and!.
    - apply (Hlt root); [|done]. exists []. split; [simpl; lia|done].
    - by apply (Hlt l1).
    - apply (Hlt l0); [|done]. exists [i2; i1]. split; [done|]. cbn [walk].
      rewrite V2, L2. cbn [andb negb]. fold l1. by rewrite V1, L1. }
  destruct (vpn_va_of i2 i1 i0) as (E2 & E1 & E0); [done..|].
  unfold translate. by rewrite E2, E1, E0.
Qed.

(** ** Writing one word of a table *)

Definition swrite (t : Z) (i : nat) (e : Z) (s : pmm) : pmm :=
  set_mem (write_word (mem s) t i e) s.

Lemma read_swrite t i e s t' j :
  read_word (mem (swrite t i e s)) t' j =
    if decide (t' = t ∧ j = i ∧ (i < length (frame_at (mem s) t))%nat) then e
    else read_word (mem s) t' j.
Proof.
  unfold swrite. simpl. destruct (decide (t' = t)) as [->|].
  - destruct (decide (j = i)) as [->|]; [|rewrite decide_False by naive_solver;
      by rewrite read_write_word_other].
    case_decide as Hd; [apply read_write_word_eq; naive_solver|].
    unfold write_word, read_word. rewrite frame_at_insert.
    rewrite list_insert_ge; [done|]. lia.
  - rewrite decide_False by naive_solver. by rewrite read_write_word_ne.
Qed.

Lemma frame_swrite_ne t i e s t' : t' ≠ t → frame_at (mem (swrite t i e s)) t' = frame_at (mem s) t'.
Proof. intros. unfold swrite, write_word. simpl. by rewrite frame_at_insert_ne. Qed.

Lemma length_frame_swrite t i e s t' :
  length (frame_at (mem (swrite t i e s)) t') = length (frame_at (mem s) t').
Proof.
  unfold swrite, write_word. simpl. destruct (decide (t = t')) as [->|].
  - by rewrite frame_at_insert, length_insert.
  - by rewrite frame_at_insert_ne.
Qed.

Lemma table_frame_swrite t i e s t' : table_frame s t' → table_frame (swrite t i e s) t'.
Proof. intros (? & ? & ?). split_and!; [done|done|]. by rewrite length_frame_swrite. Qed.

Lemma swrite_wf s fl t i e : pmm_wf s fl → t ∉ fl → pmm_wf (swrite t i e s) fl.
Proof. intros. by apply write_counted_wf. Qed.

(** A write at the end of the path [p0 ++ [i]] only affects walks through it. *)
Lemma walk_write_off s root p0 t i e q :
  as_wf s root → walk (mem s) root p0 = Some t → (length p0 ≤ 2)%nat → (length q ≤ 3)%nat →
  ¬ (p0 ++ [i]) `prefix_of` q →
  walk (mem (swrite t i e s)) root q = walk (mem s) root q.
Proof.
  intros Hwf Hp0 Hl0 Hlq Hpre. apply walk_agree. intros q1 j q2 t' Hq Hw.
  rewrite read_swrite. case_decide as Hd; [|done]. exfalso. destruct Hd as (-> & -> & _).
  apply Hpre. exists q2. subst q. rewrite length_app in Hlq. simpl in Hlq.
  rewrite (as_tree _ _ Hwf p0 q1 t) by (done || lia). by rewrite <-app_assoc.
Qed.

Section install.
Context (s : pmm) (root : Z) (p0 : list nat) (t : Z) (i : nat) (f : Z).
Hypothesis Hwf : as_wf s root.
Hypothesis Hp0 : walk (mem s) root p0 = Some t.
Hypothesis Hlen : (length p0 ≤ 1)%nat.
Hypothesis Hi : (i < 512)%nat.
Hypothesis Hinv : pte_valid (read_word (mem s) t i) = false.
Hypothesis Hf : table_frame s f.
Hypothesis Hzero : ∀ j, read_word (mem s) f j = 0.
Hypothesis Hfresh : ¬ is_table (mem s) root f.
Hypothesis Hnleaf : ∀ i2 i1 i0 e, leaf_at (mem s) root i2 i1 i0 = Some e →
  has_flag (pte_flags e) PTE_U = true → is_managed_page s (pte_pa e) = true → pte_pa e ≠ f.

Let s' := swrite t i (mk_pte f 0) s.

Lemma install_read_at : read_word (mem s') t i = mk_pte f 0.
Proof.
  destruct (as_table _ _ Hwf t) as (_ & _ & Hl); [exists p0; split; [lia|done]|].
  unfold s'. rewrite read_swrite, decide_True; [done|]. rewrite Hl. done.
Qed.

Lemma install_read_off t' j : ¬ (t' = t ∧ j = i) → read_word (mem s') t' j = read_word (mem s) t' j.
Proof. intros. unfold s'. rewrite read_swrite, decide_False by naive_solver. done. Qed.

Lemma install_f_ne : f ≠ t.
Proof. intros ->. apply Hfresh. exists p0. split; [lia|done]. Qed.

(** The new pointer decodes to the new table. *)
Lemma table_pte_decode :
  pte_valid (mk_pte f 0) = true ∧ pte_leaf (mk_pte f 0) = false ∧
  pte_rwx (mk_pte f 0) = false ∧ pte_pa (mk_pte f 0) = f.
Proof.
  destruct Hf as ((Hal & _ & Hb) & _). split_and!.
  - apply pte_valid_mk. lia.
  - apply pte_leaf_mk_table. lia.
  - apply pte_rwx_mk_table. lia.
  - apply pte_pa_mk; [lia|done|lia].
Qed.

(** The tables after the installation: the old ones at the old paths, and [f]. *)
Lemma install_walk q : (length q ≤ 3)%nat →
  walk (mem s') root q = if decide (q = p0 ++ [i]) then Some f else walk (mem s) root q.
Proof.
  intros Hq. destruct (decide ((p0 ++ [i]) `prefix_of` q)) as [[q' ->]|Hoff].
  2:{ rewrite decide_False by (by intros ->; apply Hoff). apply (walk_write_off s root p0); (done || lia). }
  assert (walk (mem s') root p0 = Some t) as Hp0'.
  { unfold s'. rewrite (walk_write_off s root p0) by (done || lia ||
      (intros Hpre%prefix_length; rewrite length_app in Hpre; simpl in Hpre; lia)). done. }
  destruct table_pte_decode as (Hv & Hl & _ & Hpa).
  rewrite <-app_assoc, !walk_app, Hp0, Hp0'. cbn [mbind option_bind walk app].
  rewrite install_read_at, Hv, Hl, Hinv, Hpa. cbn [andb negb].
  destruct q' as [|j q'].
  - by rewrite decide_True by done.
  - rewrite decide_False by (intros Heq%(f_equal length); rewrite !length_app in Heq; simpl in Heq; lia).
    cbn [walk]. rewrite install_read_off; [by rewrite Hzero|]. pose proof install_f_ne. naive_solver.
Qed.

Lemma install_leaf i2 i1 i0 : leaf_at (mem s') root i2 i1 i0 = leaf_at (mem s) root i2 i1 i0.
Proof.
  unfold leaf_at. rewrite install_walk by (simpl; lia). case_decide as Hd.
  - rewrite Hd, walk_app, Hp0. cbn [mbind option_bind walk]. rewrite Hinv. cbn [andb].
    rewrite install_read_off, Hzero; [done|]. pose proof install_f_ne. naive_solver.
  - destruct (walk (mem s) root [i2; i1]) as [t'|] eqn:Ht; [|done]. cbn [mbind option_bind].
    rewrite install_read_off; [done|]. intros [-> _].
    pose proof (as_tree _ _ Hwf [i2; i1] p0 t ltac:(simpl; lia) ltac:(lia) Ht Hp0) as Heq.
    rewrite <-Heq in Hlen. simpl in Hlen. lia.
Qed.

Lemma install_table t' : is_table (mem s') root t' ↔ t' = f ∨ is_table (mem s) root t'.
Proof.
  split.
  - intros (q & Hq & Hw). rewrite install_walk in Hw by lia. case_decide; [left; congruence|].
    right. by exists q.
  - intros [->|(q & Hq & Hw)].
    + exists (p0 ++ [i]). rewrite length_app, install_walk by (rewrite length_app; simpl; lia).
      rewrite decide_True by done. split; [simpl; lia|done].
    + exists q. split; [done|]. rewrite install_walk by lia. case_decide as Hd; [|done].
      subst q. rewrite walk_app, Hp0 in Hw. cbn [mbind option_bind walk] in Hw.
      by rewrite Hinv in Hw.
Qed.

Lemma install_wf : as_wf s' root.
Proof.
  split.
  - intros p q t' Hp Hq. rewrite !install_walk by lia.
    assert (∀ r, (length r ≤ 2)%nat → walk (mem s) root r ≠ Some f) as Hnf.
    { intros r Hr Hw. apply Hfresh. by exists r. }
    case_decide; case_decide; [congruence|..|by apply (as_tree _ _ Hwf)].
    + intros [= <-] Hw. by destruct (Hnf q Hq).
    + intros Hw [= <-]. by destruct (Hnf p Hp).
  - intros t' [->|Ht']%install_table; apply table_frame_swrite; [done|].
    by apply (as_table _ _ Hwf).
  - intros p t' j Hp Hw. destruct (decide (t' = t ∧ j = i)) as [[-> ->]|Hne].
    + rewrite install_read_at. intros _ _. apply table_pte_decode.
    + rewrite install_read_off by done. rewrite install_walk in Hw by lia.
      case_decide; [|by eapply (as_ptr _ _ Hwf)]. injection Hw as <-. rewrite Hzero. done.
  - intros i2 i1 i0 e. rewrite install_leaf. intros Hl HU Hm. split.
    + by eapply (as_leaf _ _ Hwf).
    + intros [Heq|Ht]%install_table; [by eapply Hnleaf|]. by eapply (as_leaf _ _ Hwf).
Qed.
End install.

(** ** Steps that leave the tables of an address space alone *)

Lemma walk_tables m m' root q :
  (∀ t i, is_table m root t → read_word m' t i = read_word m t i) →
  (length q ≤ 3)%nat → walk m' root q = walk m root q.
Proof.
  intros Hag Hq. apply walk_agree. intros q1 i q2 t -> Hw. apply Hag. exists q1.
  rewrite length_app in Hq. simpl in Hq. split; [lia|done].
Qed.

Lemma leaf_tables m m' root i2 i1 i0 :
  (∀ t i, is_table m root t → read_word m' t i = read_word m t i) →
  leaf_at m' root i2 i1 i0 = leaf_at m root i2 i1 i0.
Proof.
  intros Hag. unfold leaf_at. rewrite (walk_tables m) by (done || simpl; lia).
  destruct (walk m root [i2; i1]) as [t|] eqn:Hw; [|done]. simpl.
  rewrite Hag; [done|]. by exists [i2; i1].
Qed.

Lemma is_table_tables m m' root t :
  (∀ t i, is_table m root t → read_word m' t i = read_word m t i) →
  is_table m' root t ↔ is_table m root t.
Proof.
  intros Hag. unfold is_table. split; intros (q & Hq & Hw); exists q; split; try done.
  - by rewrite (walk_tables m m') in Hw by (done || lia).
  - by rewrite (walk_tables m m') by (done || lia).
Qed.

Lemma as_wf_frame s s' root :
  as_wf s root → same_window s s' →
  (∀ t, is_table (mem s) root t → frame_at (mem s') t = frame_at (mem s) t) →
  (∀ t, is_table (mem s) root t → 0 < count_at s' (page_index s t)) →
  (∀ i2 i1 i0 e, leaf_at (mem s) root i2 i1 i0 = Some e →
     has_flag (pte_flags e) PTE_U = true → is_managed_page s (pte_pa e) = true →
     0 < count_at s' (page_index s (pte_pa e))) →
  as_wf s' root.
Proof.
  intros Hwf Hw Hfr Hct Hcl.
  assert (∀ t i, is_table (mem s) root t → read_word (mem s') t i = read_word (mem s) t i) as Hag.
  { intros t i Ht. unfold read_word. by rewrite Hfr. }
  split.
  - intros p q t Hp Hq. rewrite !(walk_tables (mem s) (mem s')) by (done || lia).
    by apply (as_tree _ _ Hwf).
  - intros t Ht. rewrite is_table_tables in Ht by done.
    destruct (as_table _ _ Hwf t Ht) as (Hok & Hc & Hl).
    split_and!; [by eapply frame_ok_window|rewrite (page_index_window s) by done; auto|].
    by rewrite Hfr.
  - intros p t i Hp. rewrite (walk_tables (mem s) (mem s')) by (done || lia). intros Hwk.
    rewrite Hag by (exists p; split; [lia|done]). by eapply (as_ptr _ _ Hwf).
  - intros i2 i1 i0 e. rewrite (leaf_tables (mem s) (mem s')) by done.
    rewrite (page_index_window s), (managed_window s) by done. intros Hl HU Hm.
    rewrite is_table_tables by done. split; [eauto|]. by eapply (as_leaf _ _ Hwf).
Qed.

(** ** Growing an address space along a path of indices *)

(** Between [s] and [s'] frames were taken from the free list; among the words of
    the frames counted in [s] only those of [root]'s tables lying on [path] may
    have changed, counts are kept, no table moved and no huge leaf appeared. *)
Record grows (s s' : pmm) (root : Z) (path : list nat) : Prop := {
  g_window : same_window s s';
  g_count q : frame_ok s q → 0 < count_at s (page_index s q) →
    count_at s' (page_index s q) = count_at s (page_index s q);
  g_mem q j : frame_ok s q → 0 < count_at s (page_index s q) →
    (∀ p, walk (mem s) root p = Some q → ¬ (p ++ [j]) `prefix_of` path) →
    read_word (mem s') q j = read_word (mem s) q j;
  g_walk p t : (length p ≤ 2)%nat → walk (mem s) root p = Some t → walk (mem s') root p = Some t;
  g_back p t : frame_ok s t → 0 < count_at s (page_index s t) → (length p ≤ 2)%nat →
    walk (mem s') root p = Some t → walk (mem s) root p = Some t;
  g_huge p t j : (length p ≤ 1)%nat → walk (mem s') root p = Some t →
    pte_valid (read_word (mem s') t j) = true → pte_leaf (read_word (mem s') t j) = true →
    walk (mem s) root p = Some t ∧ read_word (mem s) t j = read_word (mem s') t j;
}.

Lemma grows_refl s root path : grows s s root path.
Proof. split; auto with pmm. Qed.

Lemma grows_trans s s1 s2 root path :
  (length path ≤ 3)%nat → grows s s1 root path → grows s1 s2 root path → grows s s2 root path.
Proof.
  intros Hlen [W1 C1 M1 K1 B1 U1] [W2 C2 M2 K2 B2 U2].
  assert (∀ q, frame_ok s q → 0 < count_at s (page_index s q) →
    frame_ok s1 q ∧ 0 < count_at s1 (page_index s1 q)) as Hc.
  { intros q Hq Hc. split; [by eapply frame_ok_window|].
    rewrite (page_index_window s) by done. by rewrite C1. }
  split.
  - by eapply same_window_trans.
  - intros q Hq Hcq. destruct (Hc q Hq Hcq). rewrite <-(C1 q) by done.
    rewrite <-(page_index_window s s1) by done. by apply C2.
  - intros q j Hq Hcq Hoff. destruct (Hc q Hq Hcq). rewrite <-(M1 q j) by done.
    apply M2; [done|done|]. intros p Hp Hpre. apply (Hoff p); [|done].
    apply B1; [done|done| |done]. apply prefix_length in Hpre.
    rewrite length_app in Hpre. simpl in Hpre. lia.
  - auto.
  - intros p t Ht Hct Hp Hw. destruct (Hc t Ht Hct). auto.
  - intros p t j Hp Hw Hv Hl. destruct (U2 p t j Hp Hw Hv Hl) as [Hw1 E1].
    rewrite <-E1 in Hv, Hl |- *. auto.
Qed.

(** Allocating a frame does not touch an address space. *)
Section alloc.
Context (s : pmm) (f : Z) (fl : list Z) (root : Z).
Hypothesis Hpmm : pmm_wf s (f :: fl).
Hypothesis Hwf : as_wf s root.

Lemma head_ok : frame_ok s f ∧ count_at s (page_index s f) = 0.
Proof. apply (wf_free _ _ Hpmm), elem_of_cons. by left. Qed.

Lemma head_not_table : ¬ is_table (mem s) root f.
Proof. intros (_ & Hc & _)%(as_table _ _ Hwf). pose proof head_ok. lia. Qed.

Lemma head_not_leaf i2 i1 i0 e :
  leaf_at (mem s) root i2 i1 i0 = Some e → has_flag (pte_flags e) PTE_U = true →
  is_managed_page s (pte_pa e) = true → pte_pa e ≠ f.
Proof.
  intros Hl HU Hm Heq. destruct (as_leaf _ _ Hwf _ _ _ _ Hl HU Hm) as [Hc _].
  rewrite Heq in Hc. pose proof head_ok. lia.
Qed.

Lemma alloc_frame_ne t : t ≠ f → frame_at (mem (after_alloc f s)) t = frame_at (mem s) t.
Proof. intros. rewrite after_alloc_mem. by apply frame_at_insert_ne. Qed.

Lemma alloc_read_ne t i : t ≠ f → read_word (mem (after_alloc f s)) t i = read_word (mem s) t i.
Proof. intros. unfold read_word. by rewrite alloc_frame_ne. Qed.

Lemma alloc_count_pos idx : 0 < count_at s idx → 0 < count_at (after_alloc f s) idx.
Proof.
  intros Hc. unfold after_alloc. destruct (decide (page_index s f = idx)) as [<-|].
  - rewrite count_set_count_eq. lia.
  - by rewrite count_set_count_ne.
Qed.

Lemma alloc_tables_read t i :
  is_table (mem s) root t → read_word (mem (after_alloc f s)) t i = read_word (mem s) t i.
Proof. intros Ht. apply alloc_read_ne. intros ->. by apply head_not_table. Qed.

Lemma alloc_as_wf : as_wf (after_alloc f s) root.
Proof.
  eapply as_wf_frame; [done|done|..].
  - intros t Ht. apply alloc_frame_ne. intros ->. by apply head_not_table.
  - intros t (_ & Hc & _)%(as_table _ _ Hwf). by apply alloc_count_pos.
  - intros i2 i1 i0 e Hl HU Hm. destruct (as_leaf _ _ Hwf _ _ _ _ Hl HU Hm).
    by apply alloc_count_pos.
Qed.

Lemma alloc_table_frame : table_frame (after_alloc f s) f.
Proof.
  destruct head_ok as [Hok _]. split_and!; [done| |].
  - change (page_index (after_alloc f s) f) with (page_index s f).
    erewrite after_alloc_count by done. by rewrite decide_True.
  - rewrite after_alloc_mem, frame_at_insert. apply length_zero_frame.
Qed.

Lemma alloc_zero j : read_word (mem (after_alloc f s)) f j = 0.
Proof. rewrite after_alloc_mem. apply read_zero_frame. Qed.

Lemma alloc_grows path : grows s (after_alloc f s) root path.
Proof.
  pose proof head_ok as [Hok Hc0].
  assert (∀ q, 0 < count_at s (page_index s q) → q ≠ f) as Hne by (intros q Hc ->; lia).
  split; [done|..].
  - intros q Hq Hc. erewrite after_alloc_count by done. rewrite decide_False; auto.
  - intros q j Hq Hc _. apply alloc_read_ne. auto.
  - intros p t Hp Hw. rewrite (walk_tables (mem s)); [done|apply alloc_tables_read|lia].
  - intros p t Ht Hct Hp. rewrite (walk_tables (mem s)); [done|apply alloc_tables_read|lia].
  - intros p t j Hp. rewrite (walk_tables (mem s)) by (apply alloc_tables_read || lia).
    intros Hw _ _. split; [done|]. symmetry. apply alloc_tables_read. exists p. split; [lia|done].
Qed.
End alloc.

(** ** Mapping *)

Definition same_leaves (root : Z) (s s' : pmm) : Prop :=
  ∀ i2 i1 i0, leaf_at (mem s') root i2 i1 i0 = leaf_at (mem s) root i2 i1 i0.

Lemma alloc_or_cons e s f fl :
  pmm_wf s (f :: fl) → alloc_or e s = (Ok f, after_alloc f s).
Proof. intros. unfold alloc_or. by erewrite bind_ok by (by eapply alloc_frame_cons). Qed.

Lemma alloc_or_nil e s : pmm_wf s [] → alloc_or e s = (Err e, s).
Proof. intros. unfold alloc_or. by erewrite bind_ok by (by apply alloc_frame_nil). Qed.

(** Adding an empty table is invisible to translations. *)
Lemma install_alloc_spec s f fl root p0 t i path :
  pmm_wf s (f :: fl) → as_wf s root → walk (mem s) root p0 = Some t →
  (length p0 ≤ 1)%nat → (i < 512)%nat → pte_valid (read_word (mem s) t i) = false →
  (p0 ++ [i]) `prefix_of` path → (length path ≤ 3)%nat →
  let s' := swrite t i (mk_pte f 0) (after_alloc f s) in
  pmm_wf s' fl ∧ as_wf s' root ∧ grows s s' root path ∧ same_leaves root s s' ∧
  read_word (mem s') t i = mk_pte f 0 ∧ walk (mem s') root (p0 ++ [i]) = Some f.
Proof.
  intros Hp Hwf Hw Hl Hi Hinv Hpre Hlp s'. set (s1 := after_alloc f s) in *.
  assert (as_wf s1 root) as Hwf1 by by eapply alloc_as_wf.
  assert (is_table (mem s) root t) as Ht by (exists p0; split; [lia|done]).
  assert (∀ t i, is_table (mem s) root t → read_word (mem s1) t i = read_word (mem s) t i) as Hrd.
  { intros. by eapply alloc_tables_read. }
  assert (walk (mem s1) root p0 = Some t) as Hw1 by (by rewrite (walk_tables (mem s) (mem s1)) by (done || lia)).
  assert (pte_valid (read_word (mem s1) t i) = false) as Hinv1 by (by rewrite Hrd).
  assert (table_frame s1 f) as Hf by by eapply alloc_table_frame.
  assert (∀ j, read_word (mem s1) f j = 0) as Hz by apply alloc_zero.
  assert (¬ is_table (mem s1) root f) as Hnt.
  { rewrite (is_table_tables (mem s) (mem s1)) by done. by eapply head_not_table. }
  assert (∀ i2 i1 i0 e, leaf_at (mem s1) root i2 i1 i0 = Some e →
    has_flag (pte_flags e) PTE_U = true → is_managed_page s1 (pte_pa e) = true → pte_pa e ≠ f) as Hnl.
  { intros i2 i1 i0 e. rewrite (leaf_tables (mem s) (mem s1)) by done.
    change (is_managed_page s1 (pte_pa e)) with (is_managed_page s (pte_pa e)).
    by eapply head_not_leaf. }
  assert (t ≠ f) as Htf by (intros ->; by eapply head_not_table).
  destruct (as_table _ _ Hwf t Ht) as (Hok & Hc & _).
  split_and!.
  - apply swrite_wf; [by apply after_alloc_wf|]. pose proof (counted_not_free _ _ t Hp ltac:(lia)).
    set_solver.
  - by eapply install_wf.
  - destruct (wf_free _ _ Hp f ltac:(set_solver)) as [_ Hcf].
    assert (∀ q, (length q ≤ 3)%nat → walk (mem s') root q =
      if decide (q = p0 ++ [i]) then Some f else walk (mem s) root q) as Hws.
    { intros q Hq. unfold s'. erewrite install_walk by done.
      by rewrite (walk_tables (mem s) (mem s1)). }
    split; [done|..].
    + intros q Hq Hcq. change (count_at s' _) with (count_at s1 (page_index s q)).
      unfold s1. erewrite after_alloc_count by done. rewrite decide_False; [done|].
      intros ->. lia.
    + intros q j Hq Hcq Hoff. unfold s'. rewrite install_read_off.
      * apply alloc_read_ne. intros ->. lia.
      * intros [-> ->]. by apply (Hoff p0).
    + intros p t' Hp' Hw'. rewrite Hws by lia. case_decide as Hd; [|done].
      subst p. rewrite walk_app, Hw in Hw'. cbn [mbind option_bind walk] in Hw'.
      by rewrite Hinv in Hw'.
    + intros p t' Hok' Hc' Hp'. rewrite Hws by lia. case_decide as Hd; [|done].
      intros [= <-]. lia.
    + intros p t' j Hp'. rewrite Hws by lia. case_decide as Hd.
      { intros [= <-]. unfold s'. rewrite install_read_off by naive_solver. by rewrite Hz. }
      intros Hw'. destruct (decide (t' = t ∧ j = i)) as [[-> ->]|Hne].
      { unfold s'. erewrite install_read_at by done. by rewrite pte_leaf_mk_table by (destruct Hf as ((_ & _ & ?) & _); lia). }
      intros _ _. split; [done|]. unfold s'. rewrite install_read_off by done. symmetry. apply Hrd.
      exists p. split; [lia|done].
  - intros i2 i1 i0. unfold s'. erewrite install_leaf by done. by rewrite (leaf_tables (mem s) (mem s1)).
  - by eapply install_read_at.
  - unfold s'. erewrite install_walk by (done || rewrite length_app; simpl; lia).
    by rewrite decide_True.
Qed.

Lemma entry_at_eq s pt i : entry_at pt i s = (Ok (read_word (mem s) pt i), s).
Proof. done. Qed.

Lemma set_entry_eq s pt i e : set_entry pt i e s = (Ok tt, swrite pt i e s).
Proof. done. Qed.

(** What [next_table] does to an address space, whatever its outcome. *)
Lemma next_table_spec oom conf s fl root p0 t i path :
  pmm_wf s fl → as_wf s root → walk (mem s) root p0 = Some t →
  (length p0 ≤ 1)%nat → (i < 512)%nat → (p0 ++ [i]) `prefix_of` path → (length path ≤ 3)%nat →
  ∃ r s' fl', next_table oom conf t i s = (r, s') ∧ pmm_wf s' fl' ∧
    (length fl' ≤ length fl ≤ S (length fl'))%nat ∧
    as_wf s' root ∧ grows s s' root path ∧ same_leaves root s s' ∧
    match r with
    | Ok t' => walk (mem s') root (p0 ++ [i]) = Some t' ∧
        (s' = s ∨ ∀ j, read_word (mem s') t' j = 0)
    | Err e => (e = oom ∧ fl = [] ∧ pte_valid (read_word (mem s) t i) = false) ∨
        (e = conf ∧ s' = s ∧ pte_valid (read_word (mem s) t i) = true ∧
         pte_leaf (read_word (mem s) t i) = true)
    | Panic _ => False
    end.
Proof.
  intros Hp Hwf Hw Hl Hi Hpre Hlp. unfold next_table.
  erewrite bind_ok by apply entry_at_eq. set (e := read_word (mem s) t i).
  destruct (pte_valid e) eqn:Hv.
  - erewrite bind_ok by reflexivity. erewrite bind_ok by apply entry_at_eq. fold e.
    destruct (pte_rwx e) eqn:Hrwx.
    + exists (Err conf), s, fl. split_and!; [done|done|lia|lia|done|apply grows_refl|done|].
      right. split_and!; [done|done|done|]. destruct (pte_leaf e) eqn:Hlf; [done|].
      pose proof (as_ptr _ _ Hwf p0 t i Hl Hw Hv Hlf). unfold e in *. congruence.
    + exists (Ok (pte_pa e)), s, fl.
      split_and!; [done|done|lia|lia|done|apply grows_refl|done| |by left]. rewrite walk_app, Hw. cbn [mbind option_bind walk]. fold e. rewrite Hv.
      destruct (pte_leaf e) eqn:Hlf; [|done]. apply pte_leaf_rwx in Hlf. congruence.
  - destruct fl as [|f fl].
    + exists (Err oom), s, []. split_and!; [|done|simpl; lia|simpl; lia|done|apply grows_refl|done|by left].
      erewrite bind_err; [done|]. erewrite bind_err; [done|]. by apply alloc_or_nil.
    + destruct (install_alloc_spec s f fl root p0 t i path) as (H1 & H2 & H3 & H4 & H5 & H6);
        [done..|].
      set (s' := swrite t i (mk_pte f 0) (after_alloc f s)) in *.
      exists (Ok f), s', fl. split_and!; [|done|simpl; lia|simpl; lia|done|done|done|done|].
      2:{ right. intros j. unfold s'. rewrite install_read_off; [apply alloc_zero|].
          intros [-> _]. eapply head_not_table; [done|done|]. exists p0. split; [lia|done]. }
      erewrite bind_ok.
      2:{ erewrite bind_ok by (by eapply alloc_or_cons). apply set_entry_eq. }
      erewrite bind_ok by apply entry_at_eq. fold s'. rewrite H5.
      destruct (wf_free _ _ Hp f) as [(Hal & _ & Hb) _]; [set_solver|].
      rewrite pte_rwx_mk_table by lia. by rewrite pte_pa_mk by (done || lia).
Qed.

(** Writing a leaf entry. *)
Section leaf_write.
Context (s : pmm) (root : Z) (i2 i1 : nat) (t : Z) (i0 : nat) (e : Z).
Hypothesis Hwf : as_wf s root.
Hypothesis Hw : walk (mem s) root [i2; i1] = Some t.
Hypothesis Hi : (i0 < 512)%nat.

Let s' := swrite t i0 e s.

Lemma leaf_write_walk q : (length q ≤ 2)%nat → walk (mem s') root q = walk (mem s) root q.
Proof.
  intros Hq. apply (walk_write_off s root [i2; i1]); [done|done|simpl; lia|lia|].
  intros Hpre%prefix_length. simpl in Hpre. lia.
Qed.

Lemma leaf_write_table t' : is_table (mem s') root t' ↔ is_table (mem s) root t'.
Proof. split; intros (q & Hq & H); exists q; rewrite leaf_write_walk in *; done. Qed.

Lemma leaf_write_leaf j2 j1 j0 :
  leaf_at (mem s') root j2 j1 j0 =
    if decide (j2 = i2 ∧ j1 = i1 ∧ j0 = i0) then if pte_valid e then Some e else None
    else leaf_at (mem s) root j2 j1 j0.
Proof.
  destruct (as_table _ _ Hwf t) as (_ & _ & Hl); [by exists [i2; i1]|].
  unfold leaf_at. rewrite leaf_write_walk by (simpl; lia). case_decide as Hd.
  - destruct Hd as (-> & -> & ->). rewrite Hw. cbn [mbind option_bind]. unfold s'.
    rewrite read_swrite, decide_True; [done|]. rewrite Hl. done.
  - destruct (walk (mem s) root [j2; j1]) as [t'|] eqn:Hw'; [|done].
    cbn [mbind option_bind]. unfold s'. rewrite read_swrite, decide_False; [done|].
    intros (-> & -> & _).
    pose proof (as_tree _ _ Hwf [j2; j1] [i2; i1] t ltac:(simpl; lia) ltac:(simpl; lia) Hw' Hw).
    naive_solver.
Qed.

Lemma leaf_write_wf :
  (pte_valid e = true → has_flag (pte_flags e) PTE_U = true → is_managed_page s (pte_pa e) = true →
     0 < count_at s (page_index s (pte_pa e)) ∧ ¬ is_table (mem s) root (pte_pa e)) →
  as_wf s' root.
Proof.
  intros He. split.
  - intros p q t' Hp Hq. rewrite !leaf_write_walk by lia. by apply (as_tree _ _ Hwf).
  - intros t' Ht'. rewrite leaf_write_table in Ht'. by apply table_frame_swrite, (as_table _ _ Hwf).
  - intros p t' j Hp. rewrite leaf_write_walk by lia. intros Hw'. unfold s'.
    rewrite read_swrite, decide_False; [by eapply (as_ptr _ _ Hwf)|]. intros (-> & _).
    pose proof (as_tree _ _ Hwf p [i2; i1] t ltac:(lia) ltac:(simpl; lia) Hw' Hw).
    subst p. simpl in Hp. lia.
  - intros j2 j1 j0 e'. rewrite leaf_write_leaf, leaf_write_table. case_decide.
    + destruct (pte_valid e); naive_solver.
    + apply (as_leaf _ _ Hwf).
Qed.

Lemma leaf_write_grows : grows s s' root [i2; i1; i0].
Proof.
  split; [done|done|..].
  - intros q j Hq Hc Hoff. unfold s'. rewrite read_swrite, decide_False; [done|].
    intros (-> & -> & _). by apply (Hoff [i2; i1]).
  - intros p t' Hp. by rewrite leaf_write_walk.
  - intros p t' _ _ Hp. by rewrite leaf_write_walk.
  - intros p t' j Hp. rewrite leaf_write_walk by lia. intros Hw' _ _. split; [done|].
    unfold s'. rewrite read_swrite, decide_False; [done|]. intros (-> & _).
    pose proof (as_tree _ _ Hwf p [i2; i1] t ltac:(lia) ltac:(simpl; lia) Hw' Hw).
    subst p. simpl in Hp. lia.
Qed.
End leaf_write.

(** A 1 GiB or 2 MiB leaf covers the address. *)
Definition huge_at (m : gmap Z (list Z)) (root va : Z) : Prop :=
  ∃ p j t, (p ++ [j]) `prefix_of` [vpn 2 va; vpn 1 va] ∧ walk m root p = Some t ∧
    pte_valid (read_word m t j) = true ∧ pte_leaf (read_word m t j) = true.

Lemma walked_not_huge m root va t :
  walk m root [vpn 2 va; vpn 1 va] = Some t → ¬ huge_at m root va.
Proof.
  intros Hw (p & j & t' & [q Hq] & Hp & Hv & Hl).
  assert (walk m root (p ++ [j]) = None) as Hn.
  { rewrite walk_app, Hp. cbn [mbind option_bind walk]. by rewrite Hv, Hl. }
  rewrite Hq, walk_app, Hn in Hw. done.
Qed.

(** What may be mapped: an encodable frame with flag bits; a managed frame handed
    to user mode must be counted and not be one of the tables. *)
Definition mappable (s : pmm) (root pa flags : Z) : Prop :=
  0 ≤ pa < 2 ^ 56 ∧ pa mod PAGE_SIZE = 0 ∧ 0 ≤ flags < 1024 ∧
  (has_flag flags PTE_U = true → is_managed_page s pa = true →
     0 < count_at s (page_index s pa) ∧ ¬ is_table (mem s) root pa).

Lemma grows_table_back s s' root path q :
  grows s s' root path → frame_ok s q → 0 < count_at s (page_index s q) →
  is_table (mem s') root q → is_table (mem s) root q.
Proof. intros Hg Hq Hc (p & Hp & Hw). exists p. split; [done|]. by eapply g_back. Qed.

Lemma grows_huge_back s s' root path va :
  grows s s' root path → huge_at (mem s') root va → huge_at (mem s) root va.
Proof.
  intros Hg (p & j & t & Hpre & Hw & Hv & Hl). exists p, j, t.
  assert (length p ≤ 1)%nat as Hp.
  { apply prefix_length in Hpre. rewrite length_app in Hpre. simpl in Hpre. lia. }
  destruct (g_huge _ _ _ _ Hg p t j Hp Hw Hv Hl) as [Hw' ->]. done.
Qed.

Lemma has_flag_lor_V flags k : k = PTE_U ∨ k = PTE_COW ∨ k = PTE_W →
  has_flag (Z.lor PTE_V flags) k = has_flag flags k.
Proof.
  intros Hk. unfold has_flag. rewrite Z.land_lor_distr_l.
  by destruct Hk as [->|[->| ->]]; rewrite Z.lor_0_l.
Qed.

Lemma mappable_frame s pa : 0 ≤ pa < 2 ^ 56 → pa mod PAGE_SIZE = 0 → is_managed_page s pa = true →
  0 < ram_start s → frame_ok s pa.
Proof.
  intros Hb Hal Hm Hr. split_and!; [done|done| |lia].
  apply andb_true_iff in Hm as [Hm%Z.leb_le _]. lia.
Qed.

Lemma grows_mappable s s' root path pa flags :
  0 < ram_start s → grows s s' root path → mappable s root pa flags → mappable s' root pa flags.
Proof.
  intros Hr Hg (Hpa & Hal & Hfl & Hok). split_and!; [lia|lia|done|lia|lia|].
  rewrite (page_index_window s), (managed_window s) by apply Hg. intros HU Hm.
  destruct (Hok HU Hm) as [Hc Hnt].
  assert (frame_ok s pa) as Hf by (apply mappable_frame; done || lia).
  split; [by rewrite (g_count _ _ _ _ Hg)|]. intros Ht. apply Hnt.
  by eapply grows_table_back.
Qed.

Lemma prefix_take {A} (p q l : list A) : l = p ++ q → p `prefix_of` l.
Proof. intros ->. by apply prefix_app_r. Qed.

(** The outcome of [map_page] at an address. *)
Definition map_page_post (s : pmm) (fl : list Z) (root va pa flags : Z)
    (r : outcome unit) (s' : pmm) : Prop :=
  match r with
  | Ok _ => translate (mem s) root va = None ∧
      ∀ va', translate (mem s') root va' =
        if decide (same_page va' va) then Some (mk_pte pa flags)
        else translate (mem s) root va'
  | Err e =>
      (∀ va', translate (mem s') root va' = translate (mem s) root va') ∧
      ((e = "Page already mapped" ∧ translate (mem s) root va ≠ None) ∨
       (e = "Out of memory mapping page" ∧ (length fl < 2)%nat ∧
        walk (mem s) root [vpn 2 va; vpn 1 va] = None) ∨
       (e = "map_page: intermediate PTE is already a leaf (megapage conflict)" ∧
        huge_at (mem s) root va))
  | Panic _ => False
  end.

(** The last step of [map_page], once the leaf table is reached. *)
Lemma map_leaf_spec s root l0 va pa flags :
  as_wf s root → walk (mem s) root [vpn 2 va; vpn 1 va] = Some l0 →
  mappable s root pa flags →
  ∃ r s', (entry ← entry_at l0 (vpn 0 va);
           if pte_valid entry then fail "Page already mapped"
           else set_entry l0 (vpn 0 va) (mk_pte pa flags)) s = (r, s') ∧
    as_wf s' root ∧ grows s s' root [vpn 2 va; vpn 1 va; vpn 0 va] ∧
    ((r = Err "Page already mapped" ∧ s' = s ∧ translate (mem s) root va ≠ None) ∨
     (r = Ok tt ∧ s' = swrite l0 (vpn 0 va) (mk_pte pa flags) s ∧ translate (mem s) root va = None)).
Proof.
  intros Hwf Hw (Hpa & Hal & Hfl & Hok). erewrite bind_ok by apply entry_at_eq.
  assert (translate (mem s) root va =
    let e := read_word (mem s) l0 (vpn 0 va) in if pte_valid e then Some e else None) as Htr.
  { unfold translate, leaf_at. by rewrite Hw. }
  simpl in Htr. destruct (pte_valid _).
  - exists (Err "Page already mapped"), s.
    split_and!; [done|done|apply grows_refl|]. left. by rewrite Htr.
  - eexists (Ok tt), _. split_and!; [apply set_entry_eq| | |by right].
    + eapply leaf_write_wf; [done|done|apply vpn_lt|]. intros _.
      rewrite pte_flags_mk, pte_pa_mk, has_flag_lor_V by (done || lia || auto). done.
    + apply leaf_write_grows; [done|done|apply vpn_lt].
Qed.

Lemma map_page_full s fl root va pa flags :
  pmm_wf s fl → as_wf s root → 0 < ram_start s → mappable s root pa flags →
  ∃ r s' fl', map_page root va pa flags s = (r, s') ∧ pmm_wf s' fl' ∧
    (length fl' ≤ length fl ≤ length fl' + 2)%nat ∧ as_wf s' root ∧
    grows s s' root [vpn 2 va; vpn 1 va; vpn 0 va] ∧ map_page_post s fl root va pa flags r s'.
Proof.
  intros Hp Hwf Hram Hmap. unfold map_page. set (oom := "Out of memory mapping page").
  set (conf := "map_page: intermediate PTE is already a leaf (megapage conflict)").
  set (path := [vpn 2 va; vpn 1 va; vpn 0 va]).
  destruct (next_table_spec oom conf s fl root [] root (vpn 2 va) path)
    as (r1 & s1 & fl1 & E1 & Hp1 & Hn1 & Hwf1 & Hg1 & Hl1 & Hr1);
    [done|done|done|simpl; lia|apply vpn_lt|by eapply prefix_take|simpl; lia|].
  destruct r1 as [l1|e1|]; [|..|done].
  2:{ exists (Err e1), s1, fl1. split_and!; [by eapply bind_err|done|lia|lia|done|done|].
      split; [intros va'; apply Hl1|]. right. destruct Hr1 as [(-> & -> & Hv)|(-> & -> & Hv & Hlf)].
      - left. split_and!; [done|simpl; lia|]. cbn [walk]. by rewrite Hv.
      - right. split; [done|]. exists [], (vpn 2 va), root.
        split_and!; [by eapply prefix_take|done|done|done]. }
  destruct (next_table_spec oom conf s1 fl1 root [vpn 2 va] l1 (vpn 1 va) path)
    as (r2 & s2 & fl2 & E2 & Hp2 & Hn2 & Hwf2 & Hg2 & Hl2 & Hr2);
    [done|done|apply Hr1|simpl; lia|apply vpn_lt|by eapply prefix_take|simpl; lia|].
  assert (grows s s2 root path) as Hg by (by eapply grows_trans; [simpl; lia|..]).
  assert (same_leaves root s s2) as Hl by (intros i2 i1 i0; rewrite Hl2; apply Hl1).
  erewrite bind_ok by exact E1. destruct r2 as [l0|e2|]; [|..|done].
  2:{ exists (Err e2), s2, fl2. split_and!; [by eapply bind_err|done|lia|lia|done|done|].
      split; [intros va'; apply Hl|]. right. destruct Hr2 as [(-> & -> & Hv)|(-> & -> & Hv & Hlf)].
      - left. split_and!; [done|simpl in *; lia|].
        destruct (walk (mem s) root [vpn 2 va; vpn 1 va]) as [t|] eqn:Ht; [|done].
        apply (g_walk _ _ _ _ Hg1) in Ht; [|simpl; lia]. rewrite walk2 in Ht.
        destruct Hr1 as [Hw1 _]. simpl app in Hw1. rewrite Hw1 in Ht.
        cbn [mbind option_bind walk] in Ht. by rewrite Hv in Ht.
      - right. split; [done|]. destruct Hr1 as [Hw1 [->|Hz]]; [|by rewrite Hz in Hv].
        exists [vpn 2 va], (vpn 1 va), l1. by split_and!; [by eapply prefix_take|..]. }
  erewrite bind_ok by exact E2. destruct Hr2 as [Hw2 _].
  destruct (map_leaf_spec s2 root l0 va pa flags) as (r & s' & E & Hwf' & Hg' & Hr);
    [done|done|by eapply grows_mappable|].
  assert (translate (mem s2) root va = translate (mem s) root va) as Htr by apply Hl.
  destruct Hr as [(-> & -> & Ht)|(-> & -> & Ht)].
  - exists (Err "Page already mapped"), s2, fl2. split_and!; [done|done|lia|lia|done|done|].
    split; [intros va'; apply Hl|]. left. by rewrite <-Htr.
  - eexists (Ok tt), _, fl2. split_and!; [exact E| |lia|lia|done|by eapply grows_trans; [simpl; lia|..]|].
    + apply swrite_wf; [done|]. destruct (as_table _ _ Hwf2 l0) as (_ & Hc & _).
      * by exists [vpn 2 va; vpn 1 va].
      * eapply counted_not_free; [done|lia].
    + split; [by rewrite <-Htr|]. intros va'. unfold translate.
      rewrite (leaf_write_leaf s2 root (vpn 2 va) (vpn 1 va)) by (done || apply vpn_lt).
      rewrite pte_valid_mk by apply Hmap.
      destruct (decide (same_page va' va)) as [Hs|Hs];
        [by rewrite decide_True by done|by rewrite decide_False by done; apply Hl].
Qed.

(** ** Properties of mapping *)

(** C1: [map_page] refines insertion into the map of translations.  On a
    well-formed address space it never panics and keeps both the allocator and
    the address space well formed.  If it succeeds the page was unmapped, is now
    mapped to the requested entry, and every address on another page translates as
    before; if it fails no translation at all has changed, and the error tells why:
    the page was mapped, a huge leaf covers it, or a table was missing and fewer than
    two frames were free. *)
Theorem map_page_refines s fl root va pa flags :
  pmm_wf s fl → as_wf s root → 0 < ram_start s → mappable s root pa flags →
  ∃ r s' fl', map_page root va pa flags s = (r, s') ∧ pmm_wf s' fl' ∧ as_wf s' root ∧
    map_page_post s fl root va pa flags r s'.
Proof.
  intros Hp Hwf Hr Hm.
  destruct (map_page_full s fl root va pa flags) as (r & s' & fl' & ? & ? & _ & ? & _ & ?); [done..|].
  by exists r, s', fl'.
Qed.

(** Two address spaces share at most the tables under the kernel's root entries. *)
Definition shares_kernel_only (m : gmap Z (list Z)) (r1 r2 : Z) : Prop :=
  ∀ p t, (length p ≤ 2)%nat → walk m r1 p = Some t → is_table m r2 t →
    ∃ i p', p = i :: p' ∧ (i < 4)%nat.

(** C9: Address spaces are isolated.  Mapping a page in the user part of one
    address space (root index 4 and up), whether it succeeds or fails half-way,
    leaves every translation of any other address space that shares only the
    kernel's tables with it. *)
Theorem map_page_isolated s fl r1 r2 va pa flags r s' :
  pmm_wf s fl → as_wf s r1 → as_wf s r2 → 0 < ram_start s → mappable s r1 pa flags →
  shares_kernel_only (mem s) r1 r2 → (4 ≤ vpn 2 va)%nat →
  map_page r1 va pa flags s = (r, s') →
  ∀ va', translate (mem s') r2 va' = translate (mem s) r2 va'.
Proof.
  intros Hp H1 H2 Hr Hm Hsh Hva E va'.
  destruct (map_page_full s fl r1 va pa flags) as (r0 & s0 & fl' & E0 & _ & _ & _ & Hg & _); [done..|].
  rewrite E in E0. injection E0 as <- <-. apply leaf_tables. intros t i Ht.
  destruct (as_table _ _ H2 t Ht) as (Hok & Hc & _).
  apply (g_mem _ _ _ _ Hg); [done|done|]. intros p Hw Hpre.
  assert (length p ≤ 2)%nat as Hlp.
  { apply prefix_length in Hpre. rewrite length_app in Hpre. simpl in Hpre. lia. }
  destruct (Hsh p t Hlp Hw Ht) as (j & p' & -> & Hj).
  destruct Hpre as [q Hq]. injection Hq as Hq _. lia.
Qed.

(** ** Walking *)

(** The walkers agree with [translate]. *)
Lemma walk_step_spec un hu s t i :
  walk_step un hu t i s =
    (match walk (mem s) t [i] with
     | Some t' => Ok t'
     | None => Err (if pte_valid (read_word (mem s) t i) then hu else un)
     end, s).
Proof.
  unfold walk_step. erewrite bind_ok by apply entry_at_eq. cbn [walk].
  destruct (pte_valid _); [|done]. by destruct (pte_leaf _).
Qed.

Lemma walk_page_table_translate s root va :
  ∃ e, walk_page_table root va s =
    (match translate (mem s) root va with
     | Some entry => Ok (Z.lor (pte_pa entry) (Z.land va 4095), pte_flags entry)
     | None => Err e
     end, s).
Proof.
  unfold walk_page_table, translate, leaf_at. rewrite walk2.
  destruct (walk (mem s) root [vpn 2 va]) as [l1|] eqn:E1.
  2:{ eexists. apply bind_err. rewrite walk_step_spec, E1. done. }
  erewrite bind_ok by (by rewrite walk_step_spec, E1). cbn [mbind option_bind].
  destruct (walk (mem s) l1 [vpn 1 va]) as [l0|] eqn:E0.
  2:{ eexists. apply bind_err. rewrite walk_step_spec, E0. done. }
  erewrite bind_ok by (by rewrite walk_step_spec, E0). cbn [mbind option_bind].
  erewrite bind_ok by apply entry_at_eq. exists "unmapped"%string. by destruct (pte_valid _).
Qed.

(** Map then walk.  After a successful [map_page] of a page-aligned frame,
    [walk_page_table] on any address of that page returns the frame's address plus
    the page offset, with the requested flags plus the valid bit, and on every
    other page returns what it returned before. *)
Theorem map_walk_roundtrip s fl root va pa flags s' va' :
  pmm_wf s fl → as_wf s root → 0 < ram_start s → mappable s root pa flags →
  map_page root va pa flags s = (Ok tt, s') →
  if decide (same_page va' va)
  then walk_page_table root va' s' = (Ok (pa + va' mod PAGE_SIZE, Z.lor PTE_V flags), s')
  else ∀ x, (walk_page_table root va' s).1 = Ok x → walk_page_table root va' s' = (Ok x, s').
Proof.
  intros Hp Hwf Hr Hm E.
  destruct (map_page_full s fl root va pa flags) as (r & s1 & fl' & E1 & _ & _ & _ & _ & Hpost); [done..|].
  rewrite E in E1. injection E1 as <- <-. destruct Hpost as [_ Htr]. specialize (Htr va').
  destruct (walk_page_table_translate s' root va') as [e ->]. rewrite Htr.
  destruct Hm as (Hb & Hal & Hfl & _).
  case_decide.
  - rewrite pte_pa_mk, pte_flags_mk by done. do 3 f_equal.
    change 4095 with (Z.ones 12). rewrite Z.land_ones by lia. unfold PAGE_SIZE in *.
    change 4096 with (2 ^ 12) in *. by apply lor_low_high.
  - destruct (walk_page_table_translate s root va') as [e' ->]. cbn [fst].
    intros x. destruct (translate (mem s) root va'); [intros [= <-]; reflexivity|done].
Qed.

(** ** A new process's table *)

Section new_process.
Context (s : pmm) (f : Z) (fl : list Z) (kroot : Z).
Hypothesis Hpmm : pmm_wf s (f :: fl).
Hypothesis Hk : as_wf s kroot.

Let kentries : list Z := (λ i, read_word (mem s) kroot i) <$> seq 0 4.

Let s' : pmm := swrite f 3 (read_word (mem s) kroot 3)
  (swrite f 2 (read_word (mem s) kroot 2)
  (swrite f 1 (read_word (mem s) kroot 1)
  (swrite f 0 (read_word (mem s) kroot 0) (after_alloc f s)))).

Lemma new_process_table_eq : new_process_table kentries s = (Ok f, s').
Proof.
  unfold new_process_table. erewrite bind_ok by (by eapply alloc_or_cons). done.
Qed.

Lemma np_read_root j :
  read_word (mem s') f j = if decide (j < 4)%nat then read_word (mem s) kroot j else 0.
Proof.
  assert (length (frame_at (mem (after_alloc f s)) f) = 512%nat) as Hl.
  { rewrite after_alloc_mem, frame_at_insert. apply length_zero_frame. }
  unfold s'. rewrite !read_swrite, !length_frame_swrite, Hl, alloc_zero.
  destruct j as [|[|[|[|j]]]]; simpl; repeat (case_decide; try lia); done.
Qed.

Lemma np_frame_ne t : t ≠ f → frame_at (mem s') t = frame_at (mem s) t.
Proof. intros. unfold s'. rewrite !frame_swrite_ne by done. by apply alloc_frame_ne. Qed.

Lemma np_walk_old t q :
  (∃ p, (length p ≤ 2)%nat ∧ walk (mem s) kroot p = Some t ∧ (length p + length q ≤ 3)%nat) →
  walk (mem s') t q = walk (mem s) t q.
Proof.
  intros (p & Hp & Hw & Hlq). apply walk_agree. intros q1 i q2 t' -> Hw'.
  unfold read_word. rewrite np_frame_ne; [done|]. intros ->.
  eapply (head_not_table s f fl kroot); [done|done|]. exists (p ++ q1).
  rewrite walk_app, Hw, length_app. split; [|done]. rewrite length_app in Hlq. simpl in Hlq. lia.
Qed.

Lemma np_walk i p : (length p ≤ 2)%nat →
  walk (mem s') f (i :: p) =
    if decide (i < 4)%nat then walk (mem s) kroot (i :: p) else None.
Proof.
  intros Hp. cbn [walk]. rewrite np_read_root. case_decide; [|done].
  destruct (_ && _) eqn:E; [|done]. apply np_walk_old. exists [i].
  cbn [walk length]. rewrite E. split_and!; [lia|done|lia].
Qed.

Lemma np_table t : is_table (mem s') f t → t = f ∨ is_table (mem s) kroot t.
Proof.
  intros ([|i p] & Hp & Hw); [left; by injection Hw|]. simpl in Hp.
  rewrite np_walk in Hw by lia. case_decide; [|done]. right. by exists (i :: p).
Qed.

Lemma np_leaf i2 i1 i0 :
  leaf_at (mem s') f i2 i1 i0 = if decide (i2 < 4)%nat then leaf_at (mem s) kroot i2 i1 i0 else None.
Proof.
  unfold leaf_at. rewrite np_walk by (simpl; lia). case_decide; [|done].
  destruct (walk (mem s) kroot [i2; i1]) as [t|] eqn:E; [|done]. cbn [mbind option_bind].
  unfold read_word. rewrite np_frame_ne; [done|]. intros ->.
  eapply (head_not_table s f fl kroot); [done|done|]. by exists [i2; i1].
Qed.

Lemma np_count idx : count_at s' idx = count_at (after_alloc f s) idx.
Proof. done. Qed.

Lemma np_as_wf : as_wf s' f.
Proof.
  pose proof (head_not_table s f fl kroot Hpmm Hk) as Hnt. split.
  - intros [|i p] [|j q] t Hp Hq; simpl in Hp, Hq; [done|..].
    + rewrite np_walk by lia. intros [= <-]. case_decide; [|done]. intros Hw.
      destruct Hnt. by exists (j :: q).
    + rewrite np_walk by lia. case_decide; [|done]. intros Hw [= <-].
      destruct Hnt. by exists (i :: p).
    + rewrite !np_walk by lia. case_decide; [|done]. case_decide; [|done].
      by apply (as_tree _ _ Hk).
  - intros t [->|Ht]%np_table.
    + do 4 apply table_frame_swrite. by eapply alloc_table_frame.
    + do 4 apply table_frame_swrite. apply (as_table _ _ (alloc_as_wf s f fl kroot Hpmm Hk)).
      rewrite (is_table_tables (mem s)); [done|]. intros. by eapply alloc_tables_read.
  - intros [|i p] t j Hp; simpl in Hp.
    + intros [= <-]. rewrite np_read_root. case_decide; [|done].
      apply (as_ptr _ _ Hk []); [simpl; lia|done].
    + rewrite np_walk by lia. case_decide; [|done]. intros Hw.
      assert (t ≠ f). { intros ->. apply Hnt. exists (i :: p). split; [simpl; lia|done]. }
      unfold read_word. rewrite np_frame_ne by done. eapply (as_ptr _ _ Hk (i :: p)); simpl; lia || done.
  - intros i2 i1 i0 e. rewrite np_leaf. case_decide; [|done]. intros Hl HU Hm.
    destruct (as_leaf _ _ Hk _ _ _ _ Hl HU Hm) as [Hc Hn]. split.
    + rewrite np_count. by apply alloc_count_pos.
    + intros [Heq|Ht]%np_table; [|done]. by eapply (head_not_leaf s f fl kroot).
Qed.

Lemma np_pmm_wf : pmm_wf s' fl.
Proof.
  assert (f ∉ fl) by (by pose proof (wf_nodup _ _ Hpmm) as [? _]%NoDup_cons).
  repeat apply swrite_wf; try done. by apply after_alloc_wf.
Qed.

Lemma np_kernel_wf : as_wf s' kroot.
Proof.
  pose proof (head_not_table s f fl kroot Hpmm Hk) as Hnt.
  eapply (as_wf_frame s); [done|done|..].
  - intros t Ht. apply np_frame_ne. by intros ->.
  - intros t (_ & Hc & _)%(as_table _ _ Hk). rewrite np_count. by apply alloc_count_pos.
  - intros i2 i1 i0 e Hl HU Hm. destruct (as_leaf _ _ Hk _ _ _ _ Hl HU Hm) as [Hc _].
    rewrite np_count. by apply alloc_count_pos.
Qed.

Lemma np_shares : shares_kernel_only (mem s') f kroot.
Proof.
  intros [|i p] t Hp Hw Ht.
  - exfalso. injection Hw as <-. eapply (head_not_table s f fl kroot); [done|done|].
    destruct Ht as (q & Hq & Hwq). exists q. split; [done|].
    rewrite np_walk_old in Hwq; [done|]. exists []. simpl. split_and!; [lia|done|lia].
  - simpl in Hp. rewrite np_walk in Hw by lia. case_decide; [|done]. by exists i, p.
Qed.
End new_process.

(** [new_process_table] gives an address space of its own on top of the
    kernel's: the new root and the kernel's are well formed, the new one shares only the tables under the four
    kernel root entries with the kernel's address space, translates addresses under
    those entries exactly as the kernel does, and has no user mapping.  Without a
    free frame it fails and changes nothing. *)
Theorem new_process_table_spec s fl kroot :
  pmm_wf s fl → as_wf s kroot →
  let kentries := (λ i, read_word (mem s) kroot i) <$> seq 0 4 in
  match fl with
  | [] => new_process_table kentries s = (Err "Out of memory", s)
  | f :: fl' => ∃ s', new_process_table kentries s = (Ok f, s') ∧
      pmm_wf s' fl' ∧ as_wf s' f ∧ as_wf s' kroot ∧ shares_kernel_only (mem s') f kroot ∧
      ∀ va, translate (mem s') f va =
        if decide (vpn 2 va < 4)%nat then translate (mem s) kroot va else None
  end.
Proof.
  intros Hp Hk kentries. destruct fl as [|f fl].
  - unfold new_process_table. apply bind_err. by apply alloc_or_nil.
  - eexists. split_and!; [by eapply new_process_table_eq|by eapply np_pmm_wf|by eapply np_as_wf|
      by eapply np_kernel_wf|by eapply np_shares|].
    + intros va. by eapply np_leaf.
Qed.

(** ** Copy on write *)

(** RAM lies in the range page-table entries can encode. *)
Definition ram_ok (s : pmm) : Prop :=
  0 < ram_start s ∧ ram_start s + MAX_PAGES * PAGE_SIZE ≤ 2 ^ 56.

Lemma ram_ok_window s s' : same_window s s' → ram_ok s → ram_ok s'.
Proof. intros (Hr & _). unfold ram_ok. by rewrite Hr. Qed.

Lemma pte_pa_aligned e : pte_pa e mod PAGE_SIZE = 0.
Proof.
  unfold pte_pa, wrap, PAGE_SIZE. rewrite Z.shiftl_mul_pow2 by lia.
  change (2 ^ 64) with (2 ^ 52 * 2 ^ 12). rewrite Zmult_mod_distr_r.
  change (2 ^ 12) with 4096. apply Z.mod_mul. lia.
Qed.

Lemma managed_frame_ok s e : ram_ok s → is_managed_page s (pte_pa e) = true → frame_ok s (pte_pa e).
Proof.
  intros [H1 H2] Hm. pose proof Hm as [H3%Z.leb_le H4%Z.ltb_lt]%andb_true_iff.
  split_and!; [apply pte_pa_aligned|done|lia|lia].
Qed.

(** No other user page of the address space maps the same frame. *)
Definition sole_mapping (m : gmap Z (list Z)) (root va pa : Z) : Prop :=
  ∀ i2 i1 i0 e, leaf_at m root i2 i1 i0 = Some e → has_flag (pte_flags e) PTE_U = true →
    pte_pa e = pa → i2 = vpn 2 va ∧ i1 = vpn 1 va ∧ i0 = vpn 0 va.

Definition cow_flags (e : Z) : Z := Z.land (Z.lor (Z.ldiff (pte_flags e) PTE_COW) PTE_W) 1023.

Lemma cow_flags_bound e : 0 ≤ cow_flags e < 1024.
Proof.
  unfold cow_flags. change 1023 with (Z.ones 10). rewrite Z.land_ones by lia.
  apply Z.mod_pos_bound. lia.
Qed.

(** Dropping one reference to a data frame. *)
Lemma decr_data_spec s fl root old :
  pmm_wf s fl → as_wf s root → frame_ok s old → 0 < count_at s (page_index s old) →
  ¬ is_table (mem s) root old →
  (1 < count_at s (page_index s old) ∨ ∀ i2 i1 i0 e, leaf_at (mem s) root i2 i1 i0 = Some e →
     has_flag (pte_flags e) PTE_U = true → pte_pa e ≠ old) →
  ram_ok s →
  ∃ s', decr_ref_and_maybe_free old s = (Ok tt, s') ∧ same_window s s' ∧ as_wf s' root ∧
    same_leaves root s s' ∧ (∀ q, q ≠ old → frame_at (mem s') q = frame_at (mem s) q) ∧
    (∀ q, frame_ok s q → q ≠ old →
       count_at s' (page_index s q) = count_at s (page_index s q)) ∧
    if 1 <? count_at s (page_index s old)
    then pmm_wf s' fl ∧ count_at s' (page_index s old) = count_at s (page_index s old) - 1 ∧
         mem s' = mem s
    else pmm_wf s' (old :: fl).
Proof.
  intros Hp Hwf Hok Hc Hnt Hsole Hram. rewrite decr_free_eq by done.
  assert (old ∉ fl) by (eapply counted_not_free; [done|lia]).
  set (c := count_at s (page_index s old)) in *. set (s' := if 1 <? c then _ else _).
  assert (same_window s s') as Hwin by (unfold s'; by destruct (1 <? c)).
  assert (∀ q, q ≠ old → frame_at (mem s') q = frame_at (mem s) q) as Hfr.
  { intros q Hq. unfold s'. destruct (1 <? c); [done|]. simpl. by rewrite frame_at_insert_ne. }
  assert (∀ q, frame_ok s q → q ≠ old →
    count_at s' (page_index s q) = count_at s (page_index s q)) as Hcnt.
  { intros q Hq Hne. assert (page_index s old ≠ page_index s q).
    { intros Heq. apply Hne. symmetry. by eapply page_index_inj; [apply Hp|..]. }
    unfold s'. destruct (1 <? c); by apply count_set_count_ne. }
  assert (∀ t, is_table (mem s) root t → t ≠ old) as Hto by (by intros t Ht ->).
  exists s'. split_and!; [done|done| | |done|done|].
  - eapply as_wf_frame; [done|done|by auto|..].
    + intros t Ht. destruct (as_table _ _ Hwf t Ht) as (? & ? & _). rewrite Hcnt; auto.
    + intros i2 i1 i0 e Hl HU Hm. destruct (as_leaf _ _ Hwf _ _ _ _ Hl HU Hm).
      destruct (decide (pte_pa e = old)) as [Heq|Hne].
      * destruct Hsole as [Hc1|Hs]; [|by destruct (Hs _ _ _ _ Hl HU)]. rewrite Heq. unfold s'.
        destruct (Z.ltb_spec 1 c); [|lia]. rewrite count_set_count_eq. lia.
      * rewrite Hcnt by (done || by apply managed_frame_ok). done.
  - intros i2 i1 i0. apply leaf_tables. intros t i Ht. unfold read_word. by rewrite Hfr by auto.
  - unfold s'. destruct (1 <? c).
    + split_and!; [by apply set_count_wf|apply count_set_count_eq|done].
    + by apply release_wf.
Qed.

(** The state after the copy was made and entered in the table. *)
Definition cow_state (s : pmm) (f old l0 : Z) (i0 : nat) (flags : Z) : pmm :=
  swrite l0 i0 (mk_pte f flags)
    (set_mem (<[f := frame_at (mem (after_alloc f s)) old]> (mem (after_alloc f s)))
       (after_alloc f s)).

Lemma cow_state_spec s f fl root i2 i1 l0 i0 old flags :
  pmm_wf s (f :: fl) → as_wf s root → walk (mem s) root [i2; i1] = Some l0 → (i0 < 512)%nat →
  0 ≤ flags < 1024 → old ≠ f → old ≠ l0 →
  let s' := cow_state s f old l0 i0 flags in
  pmm_wf s' fl ∧ as_wf s' root ∧ same_window s s' ∧
  frame_at (mem s') f = frame_at (mem s) old ∧ frame_at (mem s') old = frame_at (mem s) old ∧
  (∀ t, is_table (mem s') root t ↔ is_table (mem s) root t) ∧
  (∀ idx, count_at s' idx = count_at (after_alloc f s) idx) ∧
  (∀ j2 j1 j0, leaf_at (mem s') root j2 j1 j0 =
     if decide (j2 = i2 ∧ j1 = i1 ∧ j0 = i0) then Some (mk_pte f flags)
     else leaf_at (mem s) root j2 j1 j0).
Proof.
  intros Hp Hwf Hw Hi Hfl Hof Hol s'. set (s1 := after_alloc f s).
  set (s2 := set_mem (<[f := frame_at (mem s1) old]> (mem s1)) s1).
  destruct (wf_free _ _ Hp f) as [(Hal & Hmf & Hb) _]; [apply elem_of_cons; by left|].
  pose proof (head_not_table s f fl root Hp Hwf) as Hnt.
  assert (f ∉ fl) as Hnin by (by apply (wf_nodup _ _) in Hp as [? _]%NoDup_cons).
  assert (∀ t, t ≠ f → frame_at (mem s2) t = frame_at (mem s) t) as Hfr.
  { intros t Ht. simpl. rewrite !frame_at_insert_ne by done. done. }
  assert (∀ t, is_table (mem s) root t → frame_at (mem s2) t = frame_at (mem s) t) as Hfrt.
  { intros t Ht. apply Hfr. by intros ->. }
  assert (∀ t i, is_table (mem s) root t → read_word (mem s2) t i = read_word (mem s) t i) as Hrd.
  { intros t i Ht. unfold read_word. by rewrite Hfrt. }
  assert (as_wf s2 root) as Hwf2.
  { eapply (as_wf_frame s); [done|done|done|..].
    - intros t (_ & Hc & _)%(as_table _ _ Hwf). by apply alloc_count_pos.
    - intros j2 j1 j0 e Hl HU Hm. destruct (as_leaf _ _ Hwf _ _ _ _ Hl HU Hm).
      by apply alloc_count_pos. }
  assert (walk (mem s2) root [i2; i1] = Some l0) as Hw2.
  { by rewrite (walk_tables (mem s) (mem s2)) by (done || simpl; lia). }
  assert (is_table (mem s) root l0) as Htl by (by exists [i2; i1]).
  assert (∀ t, is_table (mem s') root t ↔ is_table (mem s) root t) as Htab.
  { intros t. etrans; [by apply (leaf_write_table s2 root i2 i1)|]. by apply is_table_tables. }
  assert (l0 ≠ f) as Hlf by (by intros ->).
  split_and!.
  - apply swrite_wf; [apply write_counted_wf; [by apply after_alloc_wf|done]|].
    destruct (as_table _ _ Hwf l0 Htl) as (_ & Hc & _).
    pose proof (counted_not_free _ _ l0 Hp ltac:(lia)). set_solver.
  - eapply (leaf_write_wf s2); [done|done|done|]. intros _ _ _.
    rewrite pte_pa_mk by (done || lia). split.
    + destruct (alloc_table_frame s f fl Hp) as (_ & Hc & _). exact Hc.
    + by rewrite (is_table_tables (mem s) (mem s2)) by done.
  - done.
  - unfold s', cow_state. rewrite frame_swrite_ne by done. simpl.
    rewrite frame_at_insert. by rewrite frame_at_insert_ne by done.
  - unfold s', cow_state. rewrite frame_swrite_ne by done. by apply Hfr.
  - done.
  - done.
  - intros j2 j1 j0. unfold s', cow_state. fold s1 s2.
    rewrite (leaf_write_leaf s2 root i2 i1) by done. rewrite pte_valid_mk by lia.
    case_decide; [done|]. by apply leaf_tables.
Qed.

(** C4: Copy-on-write.  A store to a user page marked COW gets a private copy:
    the page now maps a fresh frame with the old contents, writable and no longer
    COW; every other page of the address space translates as before; and exactly
    one reference to the old frame is dropped, which keeps its contents while
    others still hold it and returns it to the allocator otherwise. *)
Theorem store_fault_cow s f fl root va e :
  pmm_wf s (f :: fl) → as_wf s root → ram_ok s →
  translate (mem s) root va = Some e →
  has_flag (pte_flags e) PTE_U = true → has_flag (pte_flags e) PTE_COW = true →
  is_managed_page s (pte_pa e) = true →
  (1 < count_at s (page_index s (pte_pa e)) ∨ sole_mapping (mem s) root va (pte_pa e)) →
  ∃ s', handle_store_page_fault root va s = (Ok tt, s') ∧ as_wf s' root ∧
    frame_at (mem s') f = frame_at (mem s) (pte_pa e) ∧
    (∀ va', translate (mem s') root va' =
       if decide (same_page va' va) then Some (mk_pte f (cow_flags e))
       else translate (mem s) root va') ∧
    if 1 <? count_at s (page_index s (pte_pa e))
    then pmm_wf s' fl ∧ frame_at (mem s') (pte_pa e) = frame_at (mem s) (pte_pa e) ∧
      count_at s' (page_index s (pte_pa e)) = count_at s (page_index s (pte_pa e)) - 1
    else pmm_wf s' (pte_pa e :: fl).
Proof.
  intros Hp Hwf Hram Htr HU HC Hm Hsole. set (old := pte_pa e) in *.
  assert (frame_ok s old) as Hok by by apply managed_frame_ok.
  destruct (as_leaf _ _ Hwf _ _ _ _ Htr HU Hm) as [Hc Hnt]. fold old in Hc, Hnt.
  pose proof Htr as Htr0. unfold translate, leaf_at in Htr0. rewrite walk2 in Htr0.
  destruct (walk (mem s) root [vpn 2 va]) as [l1|] eqn:E1; [|done]. cbn [mbind option_bind] in Htr0.
  destruct (walk (mem s) l1 [vpn 1 va]) as [l0|] eqn:E0; [|done]. cbn [mbind option_bind] in Htr0.
  destruct (pte_valid (read_word (mem s) l0 (vpn 0 va))) eqn:Hv; [|done]. injection Htr0 as He.
  unfold handle_store_page_fault.
  erewrite bind_ok by (by rewrite walk_step_spec, E1).
  erewrite bind_ok by (by rewrite walk_step_spec, E0).
  erewrite bind_ok by apply entry_at_eq. rewrite Hv, He, HC. cbn [negb]. fold old.
  erewrite bind_ok by reflexivity. rewrite Hm. cbn [negb].
  erewrite bind_ok by (by eapply alloc_or_cons).
  erewrite bind_ok by reflexivity. erewrite bind_ok by apply set_entry_eq.
  assert (walk (mem s) root [vpn 2 va; vpn 1 va] = Some l0) as Hw by (by rewrite walk2, E1).
  assert (old ≠ f) as Hof. { intros ->. destruct (wf_free _ _ Hp f); [set_solver|lia]. }
  destruct (cow_state_spec s f fl root (vpn 2 va) (vpn 1 va) l0 (vpn 0 va) old (cow_flags e))
    as (Hp3 & Hwf3 & Hwin3 & Hcp & Hold & Htab & Hcnt & Hlf); [done|done|done|apply vpn_lt|
    apply cow_flags_bound|done|intros ->; apply Hnt; by exists [vpn 2 va; vpn 1 va]|].
  set (s3 := cow_state _ _ _ _ _ _) in *.
  change (swrite _ _ _ _) with s3.
  assert (count_at s3 (page_index s3 old) = count_at s (page_index s old)) as Hc3.
  { rewrite Hcnt, (page_index_window s s3) by done. erewrite after_alloc_count by done.
    by rewrite decide_False. }
  destruct (decr_data_spec s3 fl root old) as (s' & E & Hwin & Hwf' & Hl & Hfr & _ & Hres);
    [done|done|by eapply frame_ok_window|lia|by rewrite Htab| |done|].
  { rewrite Hc3. destruct Hsole as [|Hsole]; [by left|right]. intros j2 j1 j0 e'. rewrite Hlf.
    case_decide as Hd; [|intros Hl HU' Heq; destruct Hd; by eapply Hsole].
    intros [= <-] _. rewrite pte_pa_mk; [congruence|..|apply cow_flags_bound];
      destruct (wf_free _ _ Hp f ltac:(set_solver)) as [(? & _ & ?) _]; [lia|done]. }
  rewrite Hc3, (page_index_window s s3) in Hres by done.
  exists s'. split_and!; [exact E|done| | |].
  - rewrite Hfr by done. exact Hcp.
  - intros va'. unfold translate. rewrite Hl, Hlf.
    destruct (decide (same_page va' va)); [by rewrite decide_True by done|by rewrite decide_False by done].
  - destruct (1 <? _); [|done]. destruct Hres as (? & ? & Hmem). split_and!; [done| |done].
    by rewrite Hmem.
Qed.

(** ** Unmapping *)

(** Releasing a frame and clearing a table entry commute. *)
Lemma decr_swrite_comm s old t i e s1 :
  old ≠ t → decr_ref_and_maybe_free old s = (Ok tt, s1) →
  decr_ref_and_maybe_free old (swrite t i e s) = (Ok tt, swrite t i e s1).
Proof.
  intros Hne. unfold decr_ref_and_maybe_free.
  change (page_index (swrite t i e s) old) with (page_index s old).
  change (is_managed_page (swrite t i e s) old) with (is_managed_page s old).
  change (count_at (swrite t i e s)) with (count_at s).
  destruct (_ || _); [by intros [= <-]|]. destruct (1 <? _); [by intros [= <-]|].
  intros [= <-]. f_equal. unfold push_free, swrite, set_free_head, set_mem, write_word. simpl.
  f_equal. rewrite frame_at_insert_ne by done. by rewrite insert_insert_ne.
Qed.

(** User leaves map distinct managed frames. *)
Definition unshared (s : pmm) (root : Z) : Prop :=
  ∀ i2 i1 i0 j2 j1 j0 e e',
    leaf_at (mem s) root i2 i1 i0 = Some e → leaf_at (mem s) root j2 j1 j0 = Some e' →
    has_flag (pte_flags e) PTE_U = true → has_flag (pte_flags e') PTE_U = true →
    is_managed_page s (pte_pa e) = true → pte_pa e = pte_pa e' → i2 = j2 ∧ i1 = j1 ∧ i0 = j0.

(** The allocator and one address space, as the unmap loop maintains them. *)
Definition space_inv (s : pmm) (root : Z) : Prop :=
  (∃ fl, pmm_wf s fl) ∧ as_wf s root ∧ ram_ok s ∧ unshared s root.

Lemma unshared_sub s s' root :
  unshared s root → same_window s s' →
  (∀ i2 i1 i0 e, leaf_at (mem s') root i2 i1 i0 = Some e → leaf_at (mem s) root i2 i1 i0 = Some e) →
  unshared s' root.
Proof.
  intros Hu Hw Hsub i2 i1 i0 j2 j1 j0 e e' H1 H2. rewrite (managed_window s s') by done.
  by apply Hu; apply Hsub.
Qed.

(** Clearing the leaf entry of a page and dropping the frame it maps. *)
Lemma unmap_leaf_spec s root i2 i1 i0 l0 :
  space_inv s root → walk (mem s) root [i2; i1] = Some l0 → (i0 < 512)%nat →
  let e := read_word (mem s) l0 i0 in
  pte_valid e = true →
  ∃ s', ((if has_flag (pte_flags e) PTE_U then decr_ref_and_maybe_free (pte_pa e) else mret tt) ≫=
           (λ _, set_entry l0 i0 0)) s = (Ok tt, s') ∧ space_inv s' root ∧ same_window s s' ∧
    ∀ j2 j1 j0, leaf_at (mem s') root j2 j1 j0 =
      if decide (j2 = i2 ∧ j1 = i1 ∧ j0 = i0) then None else leaf_at (mem s) root j2 j1 j0.
Proof.
  intros ((fl & Hp) & Hwf & Hram & Hun) Hw Hi e Hv.
  assert (leaf_at (mem s) root i2 i1 i0 = Some e) as Hl.
  { unfold leaf_at. rewrite Hw. simpl. fold e. by rewrite Hv. }
  assert (is_table (mem s) root l0) as Ht by (by exists [i2; i1]).
  destruct (as_table _ _ Hwf l0 Ht) as (_ & Hcl & _).
  set (s1 := swrite l0 i0 0 s).
  assert (pmm_wf s1 fl) as Hp1 by (apply swrite_wf; [done|eapply counted_not_free; [done|lia]]).
  assert (as_wf s1 root) as Hwf1 by (by eapply leaf_write_wf).
  assert (∀ j2 j1 j0, leaf_at (mem s1) root j2 j1 j0 =
    if decide (j2 = i2 ∧ j1 = i1 ∧ j0 = i0) then None else leaf_at (mem s) root j2 j1 j0) as Hl1.
  { intros. by apply (leaf_write_leaf s root i2 i1 l0 i0 0). }
  assert (∀ s', same_window s s' → same_leaves root s1 s' → unshared s' root) as Hun'.
  { intros s' Hwin Hsl. eapply unshared_sub; [done|done|]. intros j2 j1 j0 e'.
    rewrite Hsl, Hl1. by case_decide. }
  destruct (has_flag (pte_flags e) PTE_U && is_managed_page s (pte_pa e)) eqn:HUM.
  - apply andb_true_iff in HUM as [HU Hm]. rewrite HU.
    destruct (as_leaf _ _ Hwf _ _ _ _ Hl HU Hm) as [Hc Hnt].
    assert (frame_ok s (pte_pa e)) as Hok by (by apply managed_frame_ok).
    assert (pte_pa e ≠ l0) as Hne by (by intros Heq; rewrite Heq in Hnt).
    destruct (decr_data_spec s1 fl root (pte_pa e)) as (s' & E & Hwin & Hwf' & Hsl & _ & _ & Hres);
      [done|done|done|done| | |done|].
    { unfold s1. by rewrite (leaf_write_table s root i2 i1 l0 i0 0). }
    { right. intros j2 j1 j0 e'. rewrite Hl1. case_decide as Hd; [done|]. intros Hl' HU' Heq.
      apply Hd. by destruct (Hun _ _ _ _ _ _ _ _ Hl Hl' HU HU' Hm) as (-> & -> & ->). }
    exists s'. split_and!; [|..|done|intros; by rewrite Hsl, Hl1].
    + rewrite decr_free_eq in E by done. erewrite bind_ok by (by apply decr_free_eq).
      rewrite set_entry_eq. rewrite <-E. symmetry.
      rewrite <-(decr_free_eq s1) by done.
      eapply decr_swrite_comm; [done|]. by apply decr_free_eq.
    + split_and!; [|done|by eapply ram_ok_window|by apply Hun'].
      destruct (1 <? _); [destruct Hres as [? _]|]; eauto.
  - exists s1. split_and!; [|split_and!; [by exists fl|done|done|by apply Hun']|done|done].
    destruct (has_flag (pte_flags e) PTE_U); [|done]. simpl in HUM.
    assert (decr_ref_and_maybe_free (pte_pa e) s = (Ok tt, s)) as E.
    { unfold decr_ref_and_maybe_free. by rewrite HUM, orb_true_r. }
    by erewrite bind_ok by exact E.
Qed.

Lemma page_floor_eq x : page_floor x = x / PAGE_SIZE * PAGE_SIZE.
Proof.
  unfold page_floor. change (PAGE_SIZE - 1) with (Z.ones 12).
  rewrite <-Z.ldiff_land, Z.ldiff_ones_r by lia.
  by rewrite Z.shiftl_mul_pow2, Z.shiftr_div_pow2 by lia.
Qed.

Lemma page_floor_aligned x : x mod PAGE_SIZE = 0 → page_floor x = x.
Proof. rewrite page_floor_eq. unfold PAGE_SIZE. intros. pose proof (Z.div_mod x 4096). lia. Qed.

Lemma sat_add_floor_eq va d :
  va mod PAGE_SIZE = 0 → d mod PAGE_SIZE = 0 → va + d ≤ usize_max → sat_add_floor va d = va + d.
Proof.
  intros Hv Hd Hb. unfold sat_add_floor, sat_add. rewrite Z.min_l by (unfold usize_max in Hb; lia).
  apply page_floor_aligned. unfold PAGE_SIZE in *. rewrite Z.add_mod, Hv, Hd by lia. done.
Qed.

Lemma translate_unwalked m root va :
  walk m root [vpn 2 va; vpn 1 va] = None → translate m root va = None.
Proof. intros Hw. unfold translate, leaf_at. by rewrite Hw. Qed.

(** One turn of the loop: the page at [va] is unmapped afterwards, all others
    are as before, and [va] advances by one page or by a whole region. *)
Lemma unmap_step_spec s root va :
  space_inv s root → va mod PAGE_SIZE = 0 → 0 ≤ va → va + 2 ^ 30 ≤ usize_max →
  ∃ s' va', unmap_step root va s = (Ok va', s') ∧ space_inv s' root ∧
    (va' = va + PAGE_SIZE ∨ va' = va + 2 ^ 21 ∨ va' = va + 2 ^ 30) ∧
    ∀ x, translate (mem s') root x =
      if decide (same_page x va) then None else translate (mem s) root x.
Proof.
  intros Hinv Hal Hnn Hb. unfold unmap_step. erewrite bind_ok by apply entry_at_eq.
  assert (walk (mem s) root [vpn 2 va; vpn 1 va] = None → ∀ x, translate (mem s) root x =
    if decide (same_page x va) then None else translate (mem s) root x) as Hskip.
  { intros Hw x. case_decide as Hs; [|done]. apply translate_unwalked.
    by destruct Hs as (-> & -> & _). }
  set (l2e := read_word (mem s) root (vpn 2 va)).
  assert (∀ q, walk (mem s) root (vpn 2 va :: q) =
    if negb (pte_valid l2e) || pte_leaf l2e then None else walk (mem s) (pte_pa l2e) q) as Hw2.
  { intros q. cbn [walk]. fold l2e. by destruct (pte_valid l2e), (pte_leaf l2e). }
  destruct (negb (pte_valid l2e) || pte_leaf l2e).
  { exists s, (va + 2 ^ 30). rewrite sat_add_floor_eq by done.
    split_and!; [done|done|auto|]. apply Hskip. by rewrite Hw2. }
  erewrite bind_ok by apply entry_at_eq. set (l1e := read_word (mem s) (pte_pa l2e) (vpn 1 va)).
  assert (walk (mem s) root [vpn 2 va; vpn 1 va] =
    if negb (pte_valid l1e) || pte_leaf l1e then None else Some (pte_pa l1e)) as Hw1.
  { rewrite Hw2. cbn [walk]. fold l1e. by destruct (pte_valid l1e), (pte_leaf l1e). }
  destruct (negb (pte_valid l1e) || pte_leaf l1e).
  { exists s, (va + 2 ^ 21). rewrite sat_add_floor_eq by (done || lia).
    split_and!; [done|done|auto|]. by apply Hskip. }
  erewrite bind_ok by apply entry_at_eq. set (l0e := read_word (mem s) (pte_pa l1e) (vpn 0 va)).
  assert (∀ s1, usize_add va PAGE_SIZE s1 = (Ok (va + PAGE_SIZE), s1)) as Hadd.
  { intros s1. unfold usize_add. unfold PAGE_SIZE.
    destruct (Z.leb_spec (va + 4096) usize_max); [done|lia]. }
  destruct (pte_valid l0e) eqn:Hv.
  - destruct (unmap_leaf_spec s root _ _ (vpn 0 va) _ Hinv Hw1 (vpn_lt _ _) Hv)
      as (s' & E & Hinv' & _ & Hl). exists s', (va + PAGE_SIZE).
    erewrite bind_ok by exact E. split_and!; [apply Hadd|done|auto|].
    intros x. unfold translate. rewrite Hl.
    destruct (decide (same_page x va)); [by rewrite decide_True|by rewrite decide_False].
  - exists s, (va + PAGE_SIZE). erewrite bind_ok by reflexivity.
    split_and!; [apply Hadd|done|auto|]. intros x. case_decide as Hs; [|done].
    destruct Hs as (H2 & H1 & H0). unfold translate, leaf_at. rewrite H2, H1, H0, Hw1.
    cbn [mbind option_bind]. fold l0e. by rewrite Hv.
Qed.

(** [x] lies on a page that starts in [[lo, hi)]. *)
Definition page_in (lo hi x : Z) : Prop :=
  ∃ y, lo ≤ y < hi ∧ y mod PAGE_SIZE = 0 ∧ same_page x y.

Lemma unmap_loop_spec n s root va end_ :
  space_inv s root → va mod PAGE_SIZE = 0 → 0 ≤ va → end_ + 2 ^ 30 ≤ usize_max →
  end_ - va ≤ Z.of_nat n * PAGE_SIZE →
  ∃ s', unmap_loop (S n) root va end_ s = (Ok true, s') ∧ space_inv s' root ∧
    (∀ x, ¬ page_in va end_ x → translate (mem s') root x = translate (mem s) root x) ∧
    (∀ x, translate (mem s') root x = None ∨ translate (mem s') root x = translate (mem s) root x) ∧
    (va < end_ → translate (mem s') root va = None).
Proof.
  revert s va. induction n as [|n IH]; intros s va Hinv Hal Hnn Hend Hfuel.
  { exists s. cbn [unmap_loop]. rewrite (proj2 (Z.ltb_ge va end_)) by lia. split_and!; auto. intros; lia. }
  cbn [unmap_loop]. destruct (Z.ltb_spec va end_) as [Hlt|].
  2:{ exists s. split_and!; auto. intros; lia. }
  destruct (unmap_step_spec s root va) as (s1 & va1 & E & Hinv1 & Hva1 & Htr1); [done..|lia|].
  assert (va + PAGE_SIZE ≤ va1 ∧ va1 mod PAGE_SIZE = 0) as [Hge Hal1].
  { unfold PAGE_SIZE in *. destruct Hva1 as [->|[->| ->]]; (split; [lia|]);
      rewrite Z.add_mod, Hal by lia; done. }
  destruct (IH s1 va1) as (s' & E' & Hinv' & Hout & Hor & _); [done|done|
    unfold PAGE_SIZE in *; lia|done|unfold PAGE_SIZE in *; lia|].
  exists s'. split_and!; [by erewrite bind_ok by exact E|done|..].
  - intros x Hx. rewrite Hout, Htr1.
    + rewrite decide_False; [done|]. intros Hs. apply Hx. by exists va.
    + intros (y & Hy & Hyal & Hs). apply Hx. exists y. unfold PAGE_SIZE in *. split_and!; (done || lia).
  - intros x. specialize (Htr1 x). destruct (Hor x) as [->| ->]; [by left|]. rewrite Htr1.
    case_decide; auto.
  - intros _. specialize (Htr1 va). rewrite decide_True in Htr1 by done.
    destruct (Hor va) as [->| ->]; [done|]. done.
Qed.

(** [unmap_range] terminates and touches nothing outside its range.  For a
    range that stays 1 GiB below the top of the address space the loop ends within
    one turn per page, keeps the allocator and the address space well formed,
    drops the reference of every page it unmaps, leaves every translation outside
    the range unchanged, changes no translation other than by removing it, and
    unmaps the first page of the range. *)
Theorem unmap_range_safe s root va len n :
  space_inv s root → 0 ≤ va → 0 < len → va + len + 2 ^ 30 ≤ usize_max →
  va + len - page_floor va ≤ Z.of_nat n * PAGE_SIZE →
  ∃ s', unmap_range (S n) root va len s = (Ok true, s') ∧ space_inv s' root ∧
    (∀ x, ¬ page_in (page_floor va) (va + len) x →
       translate (mem s') root x = translate (mem s) root x) ∧
    (∀ x, translate (mem s') root x = None ∨ translate (mem s') root x = translate (mem s) root x) ∧
    translate (mem s') root (page_floor va) = None.
Proof.
  intros Hinv Hva Hlen Hb Hn. unfold unmap_range.
  assert (sat_add 64 va len = va + len) as -> by (unfold usize_max in Hb; apply sat_add_small; lia).
  pose proof (Z.div_mod va PAGE_SIZE ltac:(unfold PAGE_SIZE; lia)).
  pose proof (Z.mod_pos_bound va PAGE_SIZE ltac:(unfold PAGE_SIZE; lia)).
  assert (0 ≤ va / PAGE_SIZE) by (apply Z.div_pos; unfold PAGE_SIZE; lia).
  destruct (unmap_loop_spec n s root (page_floor va) (va + len))
    as (s' & ? & ? & ? & ? & Hfirst); [done|..|lia|done|].
  - rewrite page_floor_eq. apply Z.mod_mul. unfold PAGE_SIZE. lia.
  - rewrite page_floor_eq. unfold PAGE_SIZE in *. lia.
  - exists s'. split_and!; [done..|]. apply Hfirst. rewrite page_floor_eq. lia.
Qed.

(** At the top of the address space [unmap_range] does not terminate.  If
    the root entry of the last gigabyte is not a table, unmapping the last page
    (with any length that reaches the top) returns to the same address for ever:
    no amount of fuel is enough. *)
Theorem unmap_range_top_diverges s root len fuel :
  pte_valid (read_word (mem s) root 511) = false → PAGE_SIZE ≤ len →
  unmap_range fuel root (usize_max - 4095) len s = (Ok false, s).
Proof.
  intros Hinv Hlen. unfold unmap_range.
  assert (sat_add 64 (usize_max - 4095) len = usize_max) as ->.
  { unfold sat_add, usize_max, PAGE_SIZE in *. lia. }
  replace (page_floor (usize_max - 4095)) with (usize_max - 4095) by done.
  induction fuel as [|fuel IH]; [done|]. cbn [unmap_loop].
  replace (usize_max - 4095 <? usize_max) with true by done.
  assert (unmap_step root (usize_max - 4095) s = (Ok (usize_max - 4095), s)) as E.
  { unfold unmap_step. erewrite bind_ok by apply entry_at_eq.
    replace (vpn 2 (usize_max - 4095)) with 511%nat by done. by rewrite Hinv. }
  by erewrite bind_ok by exact E.
Qed.

(** [unmap_range] misses pages.  When the 2 MiB region of the start address
    has no leaf table the loop advances by 2 MiB from the start address itself, not
    to the next region's start: a range of up to 2 MiB that begins inside such a
    region is reported done with nothing unmapped, and a page of the range that is
    mapped in the following region stays mapped. *)
Theorem unmap_range_misses_pages s root va len x e l1 fuel :
  0 ≤ va → va mod PAGE_SIZE = 0 → va + 2 ^ 21 ≤ usize_max → 0 < len ≤ 2 ^ 21 →
  walk (mem s) root [vpn 2 va] = Some l1 →
  pte_valid (read_word (mem s) l1 (vpn 1 va)) = false →
  va ≤ x < va + len → translate (mem s) root x = Some e →
  ∃ s', unmap_range (S (S fuel)) root va len s = (Ok true, s') ∧
    translate (mem s') root x = Some e.
Proof.
  intros Hva Hal Hb Hlen Hw Hinv Hx Htr. exists s. split; [|done]. unfold unmap_range.
  assert (sat_add 64 va len = va + len) as -> by (unfold usize_max in Hb; apply sat_add_small; lia).
  rewrite page_floor_aligned by done. cbn [unmap_loop].
  rewrite (proj2 (Z.ltb_lt va (va + len))) by lia.
  assert (unmap_step root va s = (Ok (va + 2 ^ 21), s)) as E.
  { unfold unmap_step. erewrite bind_ok by apply entry_at_eq.
    cbn [walk] in Hw. destruct (pte_valid _); [|done]. destruct (pte_leaf _); [done|].
    cbn [negb orb andb] in *. injection Hw as ->. erewrite bind_ok by apply entry_at_eq. rewrite Hinv. cbn [negb orb].
    by rewrite sat_add_floor_eq by done. }
  erewrite bind_ok by exact E. by rewrite (proj2 (Z.ltb_ge (va + 2 ^ 21) (va + len))) by lia.
Qed.

(** ** A concrete address space *)

(** An empty table is an address space. *)
Lemma empty_as_wf s f : table_frame s f → (∀ j, read_word (mem s) f j = 0) → as_wf s f.
Proof.
  intros Hf Hz.
  assert (∀ i p, walk (mem s) f (i :: p) = None) as Hw by (intros; simpl; by rewrite Hz).
  split.
  - intros [|i p] [|j q] t _ _; rewrite ?Hw; done.
  - intros t ([|i p] & _ & H); [injection H as <-; done|by rewrite Hw in H].
  - intros [|i p] t j _; [|by rewrite Hw]. intros [= <-]. by rewrite Hz.
  - intros i2 i1 i0 e. unfold leaf_at. by rewrite Hw.
Qed.

Definition demo_root : Z := 2147500032.
Definition demo_data : Z := 2147504128.
Definition demo_s0 : pmm := after_alloc demo_data (after_alloc demo_root demo_pmm).
Definition demo_fl0 : list Z := tail (tail demo_free).
(** Flags of a user page shared by [fork]. *)
Definition demo_flags : Z := 274.
(** The first page of the second 2 MiB of user space. *)
Definition demo_va : Z := 4297064448.

Lemma demo_s0_facts :
  pmm_wf demo_s0 demo_fl0 ∧ as_wf demo_s0 demo_root ∧ ¬ is_table (mem demo_s0) demo_root demo_data.
Proof.
  pose proof demo_wf as Hwf. rewrite demo_free_eq in Hwf.
  pose proof (after_alloc_wf _ _ _ Hwf) as Hwf1.
  assert (tail demo_free = demo_data :: demo_fl0) as Ht by (vm_compute; reflexivity).
  rewrite Ht in Hwf1.
  assert (as_wf (after_alloc demo_root demo_pmm) demo_root) as Has.
  { apply empty_as_wf; [by eapply alloc_table_frame|apply alloc_zero]. }
  split_and!; [by apply after_alloc_wf|by eapply alloc_as_wf|].
  unfold demo_s0. rewrite is_table_tables; [by eapply head_not_table|].
  intros t i Hti. by eapply alloc_tables_read.
Qed.

Lemma demo_ram_ok : ram_ok demo_s0.
Proof. split; vm_compute; congruence. Qed.

Lemma demo_mappable : mappable demo_s0 demo_root demo_data demo_flags.
Proof.
  split; [vm_compute; split; congruence|]. split; [vm_compute; reflexivity|].
  split; [vm_compute; split; congruence|]. intros _ _.
  split; [vm_compute; reflexivity|apply demo_s0_facts].
Qed.

Lemma demo_root_zero j : read_word (mem demo_s0) demo_root j = 0.
Proof. unfold demo_s0. rewrite alloc_read_ne, alloc_zero; [done|]. by vm_compute. Qed.

Lemma demo_leaf_s0 i2 i1 i0 : leaf_at (mem demo_s0) demo_root i2 i1 i0 = None.
Proof. unfold leaf_at. cbn [walk]. by rewrite demo_root_zero. Qed.

Lemma demo_not_huge va : ¬ huge_at (mem demo_s0) demo_root va.
Proof.
  intros ([|i p] & j & t & _ & Hw & Hv & _); cbn [walk] in Hw; [|by rewrite demo_root_zero in Hw].
  injection Hw as <-. by rewrite demo_root_zero in Hv.
Qed.

(** The address space with one page mapped at [va], and what is known of it. *)
Lemma demo_mapped_at va :
  (let x := map_page demo_root va demo_data demo_flags demo_s0 in
   x.1 = Ok tt ∧ free_head x.2 ≠ 0) →
  ∃ s1 f fl1, map_page demo_root va demo_data demo_flags demo_s0 = (Ok tt, s1) ∧
    pmm_wf s1 (f :: fl1) ∧ as_wf s1 demo_root ∧ ram_ok s1 ∧ unshared s1 demo_root ∧
    (∀ x, translate (mem s1) demo_root x =
       if decide (same_page x va) then Some (mk_pte demo_data demo_flags) else None).
Proof.
  intros Hf. destruct demo_s0_facts as (Hp & Hwf & _). cbn zeta in Hf.
  destruct (map_page_full demo_s0 demo_fl0 demo_root va demo_data demo_flags
    Hp Hwf (proj1 demo_ram_ok) demo_mappable) as (r & s1 & fl1 & E & Hp1 & _ & Hwf1 & Hg & Hpost).
  rewrite E in Hf. cbn [fst snd] in Hf. destruct Hf as (-> & Hne).
  destruct fl1 as [|f fl1]; [by destruct Hne; apply (wf_chain _ _ Hp1)|].
  destruct Hpost as [_ Htr].
  assert (∀ x, translate (mem s1) demo_root x =
    if decide (same_page x va) then Some (mk_pte demo_data demo_flags) else None) as Htr'.
  { intros x. rewrite Htr. case_decide; [done|]. apply demo_leaf_s0. }
  exists s1, f, fl1. split_and!; [exact E|done|done| | |exact Htr'].
  - eapply ram_ok_window; [apply Hg|apply demo_ram_ok].
  - intros i2 i1 i0 j2 j1 j0 e e' H1 H2 _ _ _ _.
    destruct (leaf_at_translate _ _ _ _ _ _ Hwf1 H1) as (T1 & ? & ? & ?).
    destruct (leaf_at_translate _ _ _ _ _ _ Hwf1 H2) as (T2 & ? & ? & ?).
    rewrite Htr' in T1, T2. case_decide as S1; [|done]. case_decide as S2; [|done].
    unfold same_page in *. intuition congruence.
Qed.

Lemma demo_mapped : ∃ s1 f fl1,
  map_page demo_root demo_va demo_data demo_flags demo_s0 = (Ok tt, s1) ∧
  pmm_wf s1 (f :: fl1) ∧ as_wf s1 demo_root ∧ ram_ok s1 ∧ unshared s1 demo_root ∧
  (∀ x, translate (mem s1) demo_root x =
     if decide (same_page x demo_va) then Some (mk_pte demo_data demo_flags) else None).
Proof. apply demo_mapped_at. vm_compute. split; [reflexivity|congruence]. Qed.

Lemma map_page_refines_witness :
  ∃ r s', map_page demo_root demo_va demo_data demo_flags demo_s0 = (r, s') ∧
    map_page_post demo_s0 demo_fl0 demo_root demo_va demo_data demo_flags r s'.
Proof.
  destruct demo_s0_facts as (Hp & Hwf & _).
  destruct (map_page_refines demo_s0 demo_fl0 demo_root demo_va demo_data demo_flags
    Hp Hwf (proj1 demo_ram_ok) demo_mappable) as (r & s' & fl' & E & _ & _ & Hpost).
  exists r, s'. split; [exact E|exact Hpost].
Defined.

Lemma map_walk_roundtrip_witness :
  ∃ s', walk_page_table demo_root (demo_va + 5) s' =
    (Ok (demo_data + 5, Z.lor PTE_V demo_flags), s').
Proof.
  destruct demo_s0_facts as (Hp & Hwf & _).
  destruct demo_mapped as (s1 & f & fl1 & E & _). exists s1.
  pose proof (map_walk_roundtrip demo_s0 demo_fl0 demo_root demo_va demo_data demo_flags s1
    (demo_va + 5) Hp Hwf (proj1 demo_ram_ok) demo_mappable E) as H.
  rewrite decide_True in H by (vm_compute; auto).
  change ((demo_va + 5) mod PAGE_SIZE) with 5 in H. exact H.
Defined.

Lemma unmap_range_safe_witness :
  ∃ s', translate (mem s') demo_root demo_va = None ∧ space_inv s' demo_root.
Proof.
  destruct demo_mapped as (s1 & f & fl1 & _ & Hp & Hwf & Hram & Hun & _).
  destruct (unmap_range_safe s1 demo_root demo_va 8192 2) as (s' & _ & Hinv & _ & _ & H).
  - split; [by exists (f :: fl1)|]. split; [exact Hwf|]. split; [exact Hram|exact Hun].
  - vm_compute; congruence.
  - lia.
  - vm_compute; congruence.
  - vm_compute; congruence.
  - exists s'. split; [exact H|exact Hinv].
Defined.

Lemma unmap_range_misses_pages_witness :
  ∃ s s', unmap_range 2 demo_root 4294971392 2097152 s = (Ok true, s') ∧
    translate (mem s') demo_root demo_va ≠ None.
Proof.
  destruct demo_mapped as (s1 & f & fl1 & E & Hp & Hwf & Hram & _ & Htr).
  specialize (Htr demo_va). rewrite decide_True in Htr by apply same_page_refl.
  assert (∃ l1, walk (mem s1) demo_root [4%nat] = Some l1 ∧
    pte_valid (read_word (mem s1) l1 0) = false) as (l1 & Hw & Hv).
  { assert (∃ l1, walk (mem (map_page demo_root demo_va demo_data demo_flags demo_s0).2)
        demo_root [4%nat] = Some l1 ∧
      pte_valid (read_word (mem (map_page demo_root demo_va demo_data demo_flags demo_s0).2) l1 0)
        = false) as H by (eexists; split; vm_compute; reflexivity).
    by rewrite E in H. }
  destruct (unmap_range_misses_pages s1 demo_root 4294971392 2097152 demo_va
    (mk_pte demo_data demo_flags) l1 0) as (s' & E' & H').
  - lia.
  - reflexivity.
  - vm_compute; congruence.
  - lia.
  - exact Hw.
  - exact Hv.
  - unfold demo_va. lia.
  - exact Htr.
  - exists s1, s'. split; [exact E'|]. rewrite H'. congruence.
Defined.

Lemma unmap_range_top_diverges_witness :
  unmap_range 1000 demo_root (usize_max - 4095) 4096 demo_s0 = (Ok false, demo_s0).
Proof.
  apply (unmap_range_top_diverges demo_s0 demo_root 4096 1000).
  - vm_compute. reflexivity.
  - unfold PAGE_SIZE. lia.
Defined.

Lemma store_fault_cow_witness :
  ∃ s1 s' f, handle_store_page_fault demo_root demo_va s1 = (Ok tt, s') ∧
    translate (mem s') demo_root demo_va = Some (mk_pte f 23).
Proof.
  destruct demo_mapped as (s1 & f & fl1 & E & Hp & Hwf & Hram & _ & Htr).
  pose proof (Htr demo_va) as Htv. rewrite decide_True in Htv by apply same_page_refl.
  destruct (store_fault_cow s1 f fl1 demo_root demo_va (mk_pte demo_data demo_flags))
    as (s' & E' & _ & _ & H & _).
  - exact Hp.
  - exact Hwf.
  - exact Hram.
  - exact Htv.
  - vm_compute. reflexivity.
  - vm_compute. reflexivity.
  - assert (is_managed_page (map_page demo_root demo_va demo_data demo_flags demo_s0).2
      (pte_pa (mk_pte demo_data demo_flags)) = true) as H by (vm_compute; reflexivity).
    by rewrite E in H.
  - right. intros i2 i1 i0 e Hl _ _.
    destruct (leaf_at_translate _ _ _ _ _ _ Hwf Hl) as (T & ? & ? & ?).
    rewrite Htr in T. case_decide as S1; [|done]. unfold same_page in S1. intuition congruence.
  - exists s1, s', f. split; [exact E'|]. rewrite H, decide_True by apply same_page_refl.
    reflexivity.
Defined.

Lemma new_process_table_spec_witness :
  ∃ f s', new_process_table ((λ i, read_word (mem demo_s0) demo_root i) <$> seq 0 4) demo_s0
      = (Ok f, s') ∧ as_wf s' f.
Proof.
  destruct demo_s0_facts as (Hp & Hwf & _).
  assert (demo_fl0 = 2147508224 :: tail demo_fl0) as Hfl by (vm_compute; reflexivity).
  rewrite Hfl in Hp.
  destruct (new_process_table_spec demo_s0 _ demo_root Hp Hwf) as (s' & E & _ & Hwf' & _).
  exists 2147508224, s'. split; [exact E|exact Hwf'].
Defined.

Lemma map_page_isolated_witness :
  ∃ s r s', as_wf s demo_root ∧ map_page 2147508224 demo_va demo_data PTE_R s = (r, s') ∧
    translate (mem s') demo_root demo_va = translate (mem s) demo_root demo_va.
Proof.
  destruct demo_s0_facts as (Hp & Hwf & _).
  assert (demo_fl0 = 2147508224 :: tail demo_fl0) as Hfl by (vm_compute; reflexivity).
  rewrite Hfl in Hp.
  pose proof (np_pmm_wf _ _ _ demo_root Hp) as Hp1.
  pose proof (np_as_wf _ _ _ _ Hp Hwf) as H1. pose proof (np_kernel_wf _ _ _ _ Hp Hwf) as H2.
  pose proof (np_shares _ _ _ _ Hp Hwf) as Hsh.
  set (s := swrite _ _ _ _) in *.
  destruct (map_page 2147508224 demo_va demo_data PTE_R s) as [r s'] eqn:E.
  exists s, r, s'. split; [exact H2|]. split; [exact E|].
  apply (map_page_isolated s (tail demo_fl0) 2147508224 demo_root demo_va demo_data PTE_R r s').
  - exact Hp1.
  - exact H1.
  - exact H2.
  - vm_compute. reflexivity.
  - split; [vm_compute; split; congruence|]. split; [vm_compute; reflexivity|].
    split; [vm_compute; split; congruence|]. intros HU. vm_compute in HU. congruence.
  - exact Hsh.
  - vm_compute. lia.
  - exact E.
Defined.
