(* ===== verification/Swap.v ===== *)
(** * Compressed swap and demand paging
      (src/mm/swap.rs, src/mm/pmm.rs alloc_page, src/mm/vmm.rs
      handle_user_page_fault, src/trap/page_fault.rs, src/posix/job.rs)

    The kernel state extends the allocator's with the swap map and its counters
    and with what the fault handler reads and updates of the current process: the
    memory counters of its job and the job's ancestors. *)

From Stdlib Require Import ZArith Lia.
From stdpp Require Import prelude gmap strings.
From S2P Require Import Prelude Pmm Vmm.

Local Open Scope Z_scope.

(** ** Run-length compression *)

(** The run of [b] at the head of [l], at most [cap] long. *)
Fixpoint run_length (b : Z) (l : list Z) (cap : nat) : nat :=
  match cap, l with
  | S cap', x :: l' => if x =? b then S (run_length b l' cap') else O
  | _, _ => O
  end.

(** The outer loop of [compress_page]; each turn consumes at least one byte. *)
Fixpoint compress_loop (fuel : nat) (src : list Z) : list Z :=
  match fuel, src with
  | S n, b :: rest =>
      let run := S (run_length b rest 254) in
      b :: Z.of_nat run :: compress_loop n (drop run src)
  | _, _ => []
  end.

Definition compress_page (src : list Z) : list Z := compress_loop (length src) src.

Fixpoint decompress_loop (src : list Z) (dst : list Z) (out_pos : nat) : list Z :=
  match src with
  | b :: run :: rest =>
      if (out_pos <? 4096)%nat then
        let end_ := Nat.min (out_pos + Z.to_nat run) 4096 in
        decompress_loop rest (splice dst out_pos (replicate (end_ - out_pos) b)) end_
      else dst
  | _ => dst
  end.

Definition decompress_page (src dst : list Z) : list Z := decompress_loop src dst 0.

(** A frame as bytes and back. *)
Definition bytes_of_frame (f : list Z) : list Z := concat (le_bytes 8 <$> f).

Fixpoint words_of (n : nat) (bs : list Z) : list Z :=
  match n with
  | O => []
  | S n' => of_le (take 8 bs) :: words_of n' (drop 8 bs)
  end.

Definition frame_of_bytes (bs : list Z) : list Z := words_of frame_words bs.

(** ** Kernel state *)

Record swapped_page : Type := mkSwapped { sw_data : list Z; sw_flags : Z }.

(** A job and its ancestors, nearest first: the chain [check_memory_limit],
    [alloc_memory] and [dealloc_memory] walk. *)
Record job : Type := mkJob { max_memory : Z; current_memory : Z }.

Record kst : Type := mkKst {
  k_pmm : pmm;
  swap_map : gmap (Z * Z) swapped_page;
  swap_total_pages : Z;
  swap_total_bytes : Z;
  current_proc : option (list job);
  allocated_pages : Z;
}.

Definition set_pmm (s : pmm) (k : kst) : kst :=
  mkKst s (swap_map k) (swap_total_pages k) (swap_total_bytes k) (current_proc k) (allocated_pages k).
Definition set_swap (m : gmap (Z * Z) swapped_page) (pages bytes : Z) (k : kst) : kst :=
  mkKst (k_pmm k) m pages bytes (current_proc k) (allocated_pages k).
Definition set_proc (p : option (list job)) (pages : Z) (k : kst) : kst :=
  mkKst (k_pmm k) (swap_map k) (swap_total_pages k) (swap_total_bytes k) p pages.

Definition on_pmm {A} (c : M pmm A) : M kst A := λ k,
  let '(r, s) := c (k_pmm k) in (r, set_pmm s k).

(** ** Job accounting *)

Definition check_memory_limit (jobs : list job) (bytes : Z) : bool :=
  forallb (λ j, sat_add 64 (current_memory j) bytes <=? max_memory j) jobs.
Definition alloc_memory (jobs : list job) (bytes : Z) : list job :=
  (λ j, mkJob (max_memory j) (wrap 64 (current_memory j + bytes))) <$> jobs.
Definition dealloc_memory (jobs : list job) (bytes : Z) : list job :=
  (λ j, mkJob (max_memory j) (wrap 64 (current_memory j - bytes))) <$> jobs.

(** ** Eviction *)

(** The first element on which [f] yields a result: a loop that returns early. *)
Fixpoint first_some {A B} (f : A → option B) (l : list A) : option B :=
  match l with
  | [] => None
  | x :: l' => match f x with Some b => Some b | None => first_some f l' end
  end.

(** The table behind an entry, unless it is invalid or a leaf. *)
Definition sub_table (m : gmap Z (list Z)) (pt : Z) (i : nat) : option Z :=
  let e := read_word m pt i in
  if negb (pte_valid e) || pte_leaf e then None else Some (pte_pa e).

(** What the scan of one leaf table finds: a valid, user, managed page. *)
Definition victim_at (s : pmm) (l0 : Z) (i : nat) : option (nat * Z) :=
  let pte := read_word (mem s) l0 i in
  if negb (pte_valid pte) || negb (has_flag pte PTE_U) then None
  else if negb (is_managed_page s (pte_pa pte)) then None
  else Some (i, pte).

Record victim : Type := mkVictim {
  v_root : Z; v_l0 : Z; v_i2 : nat; v_i1 : nat; v_i0 : nat; v_pte : Z }.

Definition victim_in (s : pmm) (root : Z) : option victim :=
  first_some (λ l2i,
    l1 ← sub_table (mem s) root l2i;
    first_some (λ l1i,
      l0 ← sub_table (mem s) l1 l1i;
      '(i0, pte) ← first_some (victim_at s l0) (seq 0 512);
      Some (mkVictim root l0 l2i l1i i0 pte)) (seq 0 512)) (seq 4 508).

(** The processes in table order: whether each is stopped, and its [satp]. *)
Definition find_victim (procs : list (bool * Z)) (s : pmm) : option victim :=
  first_some (λ '(stopped, satp),
    let root := Z.shiftl (Z.land satp (2 ^ 44 - 1)) 12 in
    if negb stopped || (root =? 0) then None else victim_in s root) procs.

Definition evict (v : victim) : M kst unit :=
  let pa := pte_pa (v_pte v) in
  let va := Z.lor (Z.lor (Z.shiftl (Z.of_nat (v_i2 v)) 30) (Z.shiftl (Z.of_nat (v_i1 v)) 21))
              (Z.shiftl (Z.of_nat (v_i0 v)) 12) in
  compressed ← gets (λ k, compress_page (bytes_of_frame (frame_at (mem (k_pmm k)) pa)));
  modify (λ k, set_swap
    (<[(v_root v, va) := mkSwapped compressed (pte_flags (v_pte v))]> (swap_map k))
    (swap_total_pages k) (swap_total_bytes k) k) ;;
  on_pmm (set_entry (v_l0 v) (v_i0 v) 0) ;;
  on_pmm (decr_ref_and_maybe_free pa) ;;
  modify (λ k, set_swap (swap_map k) (wrap 64 (swap_total_pages k + 1))
    (wrap 64 (swap_total_bytes k + Z.of_nat (length compressed))) k).

Definition try_evict_page (procs : list (bool * Z)) : M kst bool :=
  v ← gets (λ k, find_victim procs (k_pmm k));
  match v with
  | Some v => evict v ;; mret true
  | None => mret false
  end.

(** [pmm::alloc_page]: retry once after evicting a page. *)
Definition alloc_page (procs : list (bool * Z)) : M kst (option Z) :=
  o ← on_pmm alloc_frame;
  match o with
  | Some f => mret (Some f)
  | None =>
      evicted ← try_evict_page procs;
      if (evicted : bool) then on_pmm alloc_frame else mret None
  end.

(** ** Restoring *)

Definition lookup_swap (k : kst) (root va : Z) : bool :=
  match swap_map k !! (root, va) with Some _ => true | None => false end.

Definition take_swap (root va : Z) : M kst swapped_page := λ k,
  match swap_map k !! (root, va) with
  | None => (Err "swap entry not found", k)
  | Some sp => (Ok sp, set_swap (delete (root, va) (swap_map k)) (swap_total_pages k)
                         (swap_total_bytes k) k)
  end.

Definition swap_in (root page_va : Z) : M kst unit :=
  swapped ← take_swap root page_va;
  frame ← on_pmm (alloc_or "OOM during swap-in");
  on_pmm (modify (λ s, set_mem (<[frame := frame_of_bytes
    (decompress_page (sw_data swapped) (bytes_of_frame (frame_at (mem s) frame)))]> (mem s)) s)) ;;
  match_result (on_pmm (map_page root page_va frame (sw_flags swapped)))
    (λ _, modify (λ k, set_swap (swap_map k) (wrap 64 (swap_total_pages k - 1))
       (wrap 64 (swap_total_bytes k - Z.of_nat (length (sw_data swapped)))) k))
    (λ e, on_pmm (decr_ref_and_maybe_free frame) ;; fail e).

Definition evict_all (root_pa : Z) (k : kst) : kst :=
  let mine := filter (λ kv, kv.1.1 = root_pa) (map_to_list (swap_map k)) in
  set_swap (filter (λ kv, kv.1.1 ≠ root_pa) (swap_map k))
    (wrap 64 (swap_total_pages k - Z.of_nat (length mine)))
    (wrap 64 (swap_total_bytes k - Z.of_nat (sum_list ((λ kv, length (sw_data kv.2)) <$> mine)))) k.

(** ** Page faults *)

Definition fault_flags (extra : Z) : Z :=
  let wants_w := Z.land extra PTE_W =? 0 in
  let wants_x := negb (Z.land extra PTE_X =? 0) in
  Z.lor (Z.lor (Z.lor (Z.lor PTE_R PTE_U) extra) (if wants_x then PTE_X else 0))
    (if wants_w && negb wants_x then PTE_W else 0).

Definition handle_user_page_fault (root fault_va extra : Z) : M kst unit :=
  if 2 ^ 47 <=? fault_va then fail "kernel-space fault"
  else if fault_va <? 2 ^ 32 then fail "address in kernel identity map region"
  else
    let page_va := page_floor fault_va in
    swapped ← gets (λ k, lookup_swap k root page_va);
    if (swapped : bool) then swap_in root page_va
    else
      proc ← gets current_proc;
      if match proc with Some jobs => negb (check_memory_limit jobs PAGE_SIZE) | None => false end
      then fail "Memory limit exceeded for Job"
      else
        frame ← on_pmm (alloc_or "OOM in demand paging");
        match_result (on_pmm (map_page root page_va frame (fault_flags extra)))
          (λ _, modify (λ k, match current_proc k with
             | Some jobs => set_proc (Some (alloc_memory jobs PAGE_SIZE)) (wrap 64 (allocated_pages k + 1)) k
             | None => k
             end))
          (λ _, on_pmm (decr_ref_and_maybe_free frame)).

(** The trap handler resumes the process or ends it with signal 11. *)
Inductive fault_result : Type := Resume | Segfault (why : string).

Definition resume_or_segv (c : M kst unit) : M kst fault_result :=
  match_result c (λ _, mret Resume) (λ e, mret (Segfault e)).

Definition handle_page_fault (cause : Z) (root stval : Z) : M kst fault_result :=
  match cause with
  | 12 => resume_or_segv (handle_user_page_fault root stval PTE_X)
  | 13 => resume_or_segv (handle_user_page_fault root stval 0)
  | 15 => match_result (on_pmm (handle_store_page_fault root stval)) (λ _, mret Resume)
            (λ _, resume_or_segv (handle_user_page_fault root stval 0))
  | _ => panic "internal error: entered unreachable code"
  end.

(** ** Compression is lossless *)

Lemma run_length_spec b l cap :
  (run_length b l cap ≤ cap)%nat ∧ (run_length b l cap ≤ length l)%nat ∧
  take (run_length b l cap) l = replicate (run_length b l cap) b.
Proof.
  revert l. induction cap as [|cap IH]; intros [|x l]; simpl; try (split_and!; done || lia).
  destruct (Z.eqb_spec x b) as [->|]; simpl; [|split_and!; done || lia].
  destruct (IH l) as (H1 & H2 & H3). split_and!; [lia|lia|]. by rewrite H3.
Qed.

Lemma take_splice {A} (l bs : list A) off :
  (off + length bs ≤ length l)%nat → take (off + length bs) (splice l off bs) = take off l ++ bs.
Proof.
  intros H. unfold splice. rewrite take_app_ge by (rewrite length_take; lia).
  f_equal. rewrite length_take, Nat.min_l by lia.
  replace (off + length bs - off)%nat with (length bs) by lia. apply take_app_length.
Qed.

Lemma decompress_compress_loop fuel src dst pos :
  (length src ≤ fuel)%nat → length dst = 4096%nat → (pos + length src = 4096)%nat →
  decompress_loop (compress_loop fuel src) dst pos = take pos dst ++ src.
Proof.
  revert src dst pos. induction fuel as [|fuel IH]; intros [|b rest] dst pos Hf Hd Hp.
  1,3: simpl in *; rewrite app_nil_r, take_ge by lia; done.
  { simpl in Hf. lia. }
  set (src := b :: rest) in *. destruct (run_length_spec b rest 254) as (H1 & H2 & H3).
  cbn [compress_loop]. remember (S (run_length b rest 254)) as run eqn:Erun.
  assert (run ≤ length src ∧ run ≤ 255)%nat as [Hr1 Hr2] by (subst run; unfold src; simpl; lia).
  assert (take run src = replicate run b) as Hrun by (subst run; unfold src; simpl; by rewrite H3).
  unfold src. cbn [decompress_loop]. rewrite <-?Erun. fold src.
  destruct (Nat.ltb_spec pos 4096) as [_|]; [|unfold src in Hp; simpl in Hp; lia].
  rewrite Nat2Z.id, Nat.min_l by lia. replace (pos + run - pos)%nat with run by lia.
  rewrite IH.
  - assert (length (replicate run b) = run) as Hlr by apply length_replicate.
    replace (pos + run)%nat with (pos + length (replicate run b))%nat by lia.
    rewrite take_splice by lia. rewrite <-app_assoc. f_equal.
    rewrite <-Hrun. apply take_drop.
  - rewrite length_drop. lia.
  - rewrite length_splice; [done|]. rewrite length_replicate. lia.
  - rewrite length_drop. lia.
Qed.

Lemma compress_loop_bytes fuel src :
  Forall is_byte src → Forall is_byte (compress_loop fuel src) ∧
  (length (compress_loop fuel src) ≤ 2 * length src)%nat.
Proof.
  revert src. induction fuel as [|fuel IH]; intros [|b rest] Hb; simpl; try (split; [constructor|lia]).
  apply Forall_cons in Hb as [Hb Hrest]. destruct (run_length_spec b rest 254) as (H1 & H2 & _).
  destruct (IH (drop (run_length b rest 254) rest)) as [H3 H4]; [by apply Forall_drop|].
  split; [|rewrite length_drop in H4; lia]. repeat constructor; [apply Hb..| | |done]; unfold is_byte; lia.
Qed.

(** Swap compression is lossless: a page of 4096 bytes compresses to bytes,
    at most twice as many, and decompressing those into any frame gives back exactly
    the page. *)
Theorem compress_roundtrip page dst :
  length page = 4096%nat → Forall is_byte page → length dst = 4096%nat →
  Forall is_byte (compress_page page) ∧ (length (compress_page page) ≤ 2 * length page)%nat ∧
  decompress_page (compress_page page) dst = page.
Proof.
  intros Hp Hb Hd. unfold compress_page, decompress_page.
  destruct (compress_loop_bytes (length page) page Hb) as [H1 H2]. split_and!; [done|lia|].
  by rewrite decompress_compress_loop by lia.
Qed.

Lemma length_bytes_of_frame f : length (bytes_of_frame f) = (8 * length f)%nat.
Proof.
  unfold bytes_of_frame. induction f as [|w f IH]; [done|].
  cbn [fmap list_fmap concat]. rewrite length_app, length_le_bytes, IH. simpl. lia.
Qed.

Lemma bytes_of_frame_bytes f : Forall is_byte (bytes_of_frame f).
Proof.
  unfold bytes_of_frame. induction f as [|w f IH]; [constructor|].
  cbn [fmap list_fmap concat]. apply Forall_app. split; [apply le_bytes_bytes|done].
Qed.

(** Words of 64 bits. *)
Definition is_word (w : Z) : Prop := 0 ≤ w < 2 ^ 64.

Lemma words_of_bytes f : Forall is_word f → words_of (length f) (bytes_of_frame f) = f.
Proof.
  induction 1 as [|w f Hw Hf IH]; [done|]. unfold bytes_of_frame in *. cbn [length words_of].
  cbn [fmap list_fmap concat]. assert (length (le_bytes 8 w) = 8%nat) as Hl by apply length_le_bytes.
  rewrite take_app_length', drop_app_length', IH by done.
  rewrite of_le_bytes; [done|]. exact Hw.
Qed.

Lemma frame_roundtrip f dst :
  length f = frame_words → Forall is_word f → length dst = 4096%nat →
  frame_of_bytes (decompress_page (compress_page (bytes_of_frame f)) dst) = f.
Proof.
  intros Hl Hw Hd. unfold compress_page, decompress_page.
  rewrite decompress_compress_loop; [|done|done|rewrite length_bytes_of_frame, Hl; done].
  simpl app. unfold frame_of_bytes. rewrite <-Hl. by apply words_of_bytes.
Qed.

(** ** Running an allocator computation on the kernel state *)

Lemma on_pmm_eq {A} (c : M pmm A) k r s :
  c (k_pmm k) = (r, s) → on_pmm c k = (r, set_pmm s k).
Proof. intros H. unfold on_pmm. by rewrite H. Qed.

Lemma match_ok {S A B} (c : M S A) (k1 : A → M S B) k2 s a s' :
  c s = (Ok a, s') → match_result c k1 k2 s = k1 a s'.
Proof. intros H. unfold match_result. by rewrite H. Qed.

Lemma match_err {S A B} (c : M S A) (k1 : A → M S B) k2 s e s' :
  c s = (Err e, s') → match_result c k1 k2 s = k2 e s'.
Proof. intros H. unfold match_result. by rewrite H. Qed.

Lemma vpn_floor level va : 0 ≤ level → vpn level (page_floor va) = vpn level va.
Proof.
  intros Hl. rewrite !vpn_eq, page_floor_eq by done. do 2 f_equal. unfold PAGE_SIZE.
  rewrite Z.pow_add_r by lia. change (2 ^ 12) with 4096.
  rewrite <-!Z.div_div by lia. by rewrite Z.div_mul.
Qed.

Lemma same_page_floor x va : same_page x (page_floor va) ↔ same_page x va.
Proof. unfold same_page. by rewrite !vpn_floor by lia. Qed.

Lemma translate_floor m root va : translate m root (page_floor va) = translate m root va.
Proof. unfold translate. by rewrite !vpn_floor by lia. Qed.

(** A freshly allocated frame may be mapped, and mapping it leaves its contents. *)
Section fresh.
Context (s : pmm) (f : Z) (fl : list Z) (root : Z) (contents : list Z).
Hypothesis Hp : pmm_wf s (f :: fl).
Hypothesis Hwf : as_wf s root.
Hypothesis Hram : ram_ok s.

(** The frame, filled by its new owner. *)
Let s1 : pmm := set_mem (<[f := contents]> (mem (after_alloc f s))) (after_alloc f s).

Lemma fresh_frame_ne t : t ≠ f → frame_at (mem s1) t = frame_at (mem s) t.
Proof. intros. simpl. by rewrite !frame_at_insert_ne. Qed.

Lemma fresh_read t i : is_table (mem s) root t → read_word (mem s1) t i = read_word (mem s) t i.
Proof.
  intros Ht. unfold read_word. rewrite fresh_frame_ne; [done|]. intros ->.
  by eapply head_not_table.
Qed.

Lemma fresh_pmm_wf : pmm_wf s1 fl.
Proof.
  apply write_counted_wf; [by apply after_alloc_wf|].
  by pose proof (wf_nodup _ _ Hp) as [? _]%NoDup_cons.
Qed.

Lemma fresh_as_wf : as_wf s1 root.
Proof.
  eapply (as_wf_frame s); [done|done|..].
  - intros t Ht. apply fresh_frame_ne. intros ->. by eapply head_not_table.
  - intros t (_ & Hc & _)%(as_table _ _ Hwf). by apply alloc_count_pos.
  - intros i2 i1 i0 e Hl HU Hm. destruct (as_leaf _ _ Hwf _ _ _ _ Hl HU Hm).
    by apply alloc_count_pos.
Qed.

Lemma fresh_ok : frame_ok s1 f ∧ count_at s1 (page_index s1 f) = 1 ∧ ¬ is_table (mem s1) root f.
Proof.
  destruct (wf_free _ _ Hp f) as [Hok _]; [apply elem_of_cons; by left|]. split_and!; [done| |].
  - change (page_index s1 f) with (page_index s f).
    change (count_at s1) with (count_at (after_alloc f s)).
    erewrite after_alloc_count by done. by rewrite decide_True.
  - rewrite (is_table_tables (mem s) (mem s1)) by apply fresh_read. by eapply head_not_table.
Qed.

Lemma fresh_leaf i2 i1 i0 : leaf_at (mem s1) root i2 i1 i0 = leaf_at (mem s) root i2 i1 i0.
Proof. apply leaf_tables, fresh_read. Qed.

Lemma fresh_walk q : (length q ≤ 3)%nat → walk (mem s1) root q = walk (mem s) root q.
Proof. apply walk_tables, fresh_read. Qed.

Lemma fresh_huge va : huge_at (mem s1) root va → huge_at (mem s) root va.
Proof.
  intros (p & j & t & Hpre & Hw & Hv & Hl).
  assert (length p ≤ 1)%nat as Hlp.
  { apply prefix_length in Hpre. rewrite length_app in Hpre. simpl in Hpre. lia. }
  rewrite fresh_walk in Hw by lia. rewrite fresh_read in Hv, Hl by (exists p; split; [lia|done]).
  by exists p, j, t.
Qed.

Lemma fresh_mappable flags : 0 ≤ flags < 1024 → mappable s1 root f flags.
Proof.
  destruct fresh_ok as (Hok & Hc & Hnt). pose proof Hok as (Hal & _ & Hb). intros Hfl.
  split_and!; [lia|lia|done|lia|lia|]. intros _ _. split; [lia|done].
Qed.

(** Mapping the fresh frame. *)
Lemma fresh_map va flags :
  0 ≤ flags < 1024 →
  ∃ r s2 fl2, map_page root va f flags s1 = (r, s2) ∧ pmm_wf s2 fl2 ∧
    (length fl2 ≤ length fl ≤ length fl2 + 2)%nat ∧ as_wf s2 root ∧
    grows s1 s2 root [vpn 2 va; vpn 1 va; vpn 0 va] ∧ same_window s s2 ∧ count_at s2 (page_index s f) = 1 ∧ ¬ is_table (mem s2) root f ∧
    (∀ j, read_word (mem s2) f j = read_word (mem s1) f j) ∧
    match r with
    | Ok _ => translate (mem s) root va = None ∧
        ∀ x, translate (mem s2) root x =
          if decide (same_page x va) then Some (mk_pte f flags) else translate (mem s) root x
    | Err _ => (∀ x, translate (mem s2) root x = translate (mem s) root x) ∧
        (translate (mem s) root va ≠ None ∨ huge_at (mem s) root va ∨
         (length fl < 2)%nat ∧ walk (mem s) root [vpn 2 va; vpn 1 va] = None)
    | Panic _ => False
    end.
Proof.
  intros Hfl. destruct fresh_ok as (Hok & Hc & Hnt).
  destruct (map_page_full s1 fl root va f flags) as (r & s2 & fl2 & E & Hp2 & Hn & Hwf2 & Hg & Hpost);
    [apply fresh_pmm_wf|apply fresh_as_wf|apply Hram|by apply fresh_mappable|].
  assert (∀ x, translate (mem s1) root x = translate (mem s) root x) as Htr.
  { intros x. apply fresh_leaf. }
  exists r, s2, fl2. split_and!; [done|done|lia|lia|done|done|by apply Hg| | | |].
  - rewrite <-Hc. apply (g_count _ _ _ _ Hg); [done|lia].
  - intros Ht. apply Hnt. eapply grows_table_back; [done|done|lia|done].
  - intros j. apply (g_mem _ _ _ _ Hg); [done|lia|]. intros p Hw Hpre. apply Hnt. exists p.
    apply prefix_length in Hpre. rewrite length_app in Hpre. simpl in Hpre. split; [lia|done].
  - destruct r; [..|done].
    + destruct Hpost as [H1 H2]. split; [by rewrite <-Htr|]. intros x. by rewrite H2, Htr.
    + destruct Hpost as [H1 H2]. split; [intros x; by rewrite H1, Htr|]. rewrite Htr in H2.
      destruct H2 as [(_ & H2)|[(_ & H2 & H3)|(_ & H2)]]; [by left|right; right|right; left].
      * split; [done|]. by rewrite <-fresh_walk by (simpl; lia).
      * by apply fresh_huge.
Qed.

(** Dropping the frame again when it was not mapped. *)
Lemma fresh_drop s2 fl2 path :
  grows s1 s2 root path → pmm_wf s2 fl2 → as_wf s2 root →
  (∀ x, translate (mem s2) root x = translate (mem s) root x) →
  ∃ s3, decr_ref_and_maybe_free f s2 = (Ok tt, s3) ∧ pmm_wf s3 (f :: fl2) ∧ as_wf s3 root ∧
    same_window s s3 ∧ same_leaves root s2 s3 ∧
    (∀ q, q ≠ f → frame_at (mem s3) q = frame_at (mem s2) q) ∧
    (∀ q, frame_ok s2 q → q ≠ f →
       count_at s3 (page_index s2 q) = count_at s2 (page_index s2 q)).
Proof.
  intros Hg Hp2 Hwf2 H1. destruct fresh_ok as (Hok & Hc & Hnt).
  assert (count_at s2 (page_index s2 f) = 1) as Hc2.
  { rewrite (page_index_window s1) by apply Hg. rewrite <-Hc. apply (g_count _ _ _ _ Hg); [done|lia]. }
  destruct (decr_data_spec s2 fl2 root f) as (s3 & E3 & Hw3 & Hwf3 & Hsl & Hfr & Hcnt & Hres);
    [done|done|by eapply frame_ok_window, Hok; apply Hg|lia| | |by eapply ram_ok_window, Hram; apply Hg|].
  - intros Ht. apply Hnt. eapply grows_table_back; [done|done|lia|done].
  - right. intros i2 i1 i0 e' Hl HU Heq.
    destruct (leaf_at_translate _ _ _ _ _ _ Hwf2 Hl) as (Ht & _). rewrite H1 in Ht.
    destruct (wf_free _ _ Hp f) as [Hfok Hf0]; [set_solver|].
    destruct (as_leaf _ _ Hwf _ _ _ _ Ht HU) as [Hcc _]; rewrite Heq in *; [apply Hfok|lia].
  - rewrite Hc2 in Hres. exists s3. split_and!; [done|done|done| |done|done|done].
    eapply same_window_trans; [|done]. by apply Hg.
Qed.
End fresh.

Lemma after_alloc_fill s f :
  set_mem (<[f := zero_frame]> (mem (after_alloc f s))) (after_alloc f s) = after_alloc f s.
Proof.
  unfold after_alloc, set_mem, set_count, set_ref_counts, set_free_head. simpl. f_equal.
  by rewrite insert_insert_eq.
Qed.

(** ** Demand paging *)

(** What the handler does for a fault in the user window that is neither swapped
    nor over its job's limit, when a frame is free. *)
Lemma user_fault_common k f fl root va extra :
  pmm_wf (k_pmm k) (f :: fl) → as_wf (k_pmm k) root → ram_ok (k_pmm k) →
  2 ^ 32 ≤ va < 2 ^ 47 → 0 ≤ fault_flags extra < 1024 →
  lookup_swap k root (page_floor va) = false →
  (∀ jobs, current_proc k = Some jobs → check_memory_limit jobs PAGE_SIZE = true) →
  ∃ r s2 fl2, map_page root (page_floor va) f (fault_flags extra) (after_alloc f (k_pmm k)) = (r, s2) ∧
    pmm_wf s2 fl2 ∧ as_wf s2 root ∧
    match r with
    | Ok _ => translate (mem (k_pmm k)) root va = None ∧
        (∀ x, translate (mem s2) root x =
          if decide (same_page x va) then Some (mk_pte f (fault_flags extra))
          else translate (mem (k_pmm k)) root x) ∧
        (∀ j, read_word (mem s2) f j = 0) ∧
        ∃ k', handle_user_page_fault root va extra k = (Ok tt, k') ∧ k_pmm k' = s2 ∧
          swap_map k' = swap_map k ∧
          current_proc k' = (λ jobs, alloc_memory jobs PAGE_SIZE) <$> current_proc k
    | Err _ =>
        (translate (mem (k_pmm k)) root va ≠ None ∨ huge_at (mem (k_pmm k)) root (page_floor va) ∨
         (length fl < 2)%nat ∧
         walk (mem (k_pmm k)) root [vpn 2 va; vpn 1 va] = None) ∧
        ∃ k', handle_user_page_fault root va extra k = (Ok tt, k') ∧
          (∃ fl', pmm_wf (k_pmm k') fl') ∧ as_wf (k_pmm k') root ∧
          current_proc k' = current_proc k ∧
          ∀ x, translate (mem (k_pmm k')) root x = translate (mem (k_pmm k)) root x
    | Panic _ => False
    end.
Proof.
  intros Hp Hwf Hram Hva Hfl Hsw Hjob.
  destruct (fresh_map (k_pmm k) f fl root zero_frame Hp Hwf Hram (page_floor va) (fault_flags extra) Hfl)
    as (r & s2 & fl2 & E & Hp2 & _ & Hwf2 & Hg & _ & _ & _ & Hz & Hr).
  rewrite after_alloc_fill in E. rewrite translate_floor, !vpn_floor in Hr by lia.
  exists r, s2, fl2. split_and!; [done|done|done|].
  assert (handle_user_page_fault root va extra k =
    match_result (on_pmm (map_page root (page_floor va) f (fault_flags extra)))
      (λ _, modify (λ k, match current_proc k with
         | Some jobs => set_proc (Some (alloc_memory jobs PAGE_SIZE)) (wrap 64 (allocated_pages k + 1)) k
         | None => k
         end))
      (λ _, on_pmm (decr_ref_and_maybe_free f)) (set_pmm (after_alloc f (k_pmm k)) k)) as Hh.
  { unfold handle_user_page_fault.
    destruct (Z.leb_spec (2 ^ 47) va); [lia|]. destruct (Z.ltb_spec va (2 ^ 32)); [lia|].
    erewrite bind_ok by reflexivity. rewrite Hsw. erewrite bind_ok by reflexivity.
    destruct (match current_proc k with Some _ => _ | None => _ end) eqn:Hj.
    { destruct (current_proc k) as [jobs|]; [|done]. by rewrite Hjob in Hj. }
    erewrite bind_ok; [reflexivity|]. apply on_pmm_eq. by eapply alloc_or_cons. }
  assert (on_pmm (map_page root (page_floor va) f (fault_flags extra))
    (set_pmm (after_alloc f (k_pmm k)) k) = (r, set_pmm s2 (set_pmm (after_alloc f (k_pmm k)) k))) as Em
    by (by apply on_pmm_eq).
  destruct r as [[]|e|]; [..|done].
  - destruct Hr as [H1 H2]. split_and!; [done| | |].
    + intros x. rewrite H2. destruct (decide (same_page x va)) as [Hs|Hs].
      * by rewrite decide_True by (by apply same_page_floor).
      * by rewrite decide_False by (by rewrite same_page_floor).
    + intros j. rewrite Hz. simpl. apply read_zero_frame.
    + rewrite Hh. erewrite match_ok by exact Em. eexists. split; [reflexivity|]. simpl.
      destruct (current_proc k) eqn:Hcp; split_and!; simpl; by rewrite ?Hcp.
  - destruct Hr as [H1 H2]. split; [done|].
    destruct (fresh_drop _ _ _ _ zero_frame Hp Hwf Hram s2 fl2 _ Hg Hp2 Hwf2 H1)
      as (s3 & E3 & Hp3 & Hwf3 & _ & Hsl & _).
    rewrite Hh. erewrite match_err by exact Em. eexists.
    split; [by apply on_pmm_eq|]. split_and!; [by eexists|done|done|].
    + intros x. rewrite <-H1. apply Hsl.
Qed.

(** The faults the trap handler can resolve by demand paging. *)
Definition pageable (k : kst) (root va : Z) : Prop :=
  as_wf (k_pmm k) root ∧ ram_ok (k_pmm k) ∧ 2 ^ 32 ≤ va < 2 ^ 47 ∧
  lookup_swap k root (page_floor va) = false ∧
  ∀ jobs, current_proc k = Some jobs → check_memory_limit jobs PAGE_SIZE = true.

Lemma fault_flags_bound extra : extra = 0 ∨ extra = PTE_X → 0 ≤ fault_flags extra < 1024.
Proof. intros [->| ->]; vm_compute; intuition congruence. Qed.

(** Demand paging.  A fault on an unmapped user page, with the job within
    its limit and frames to spare, maps a zeroed fresh frame there, readable, for
    user mode, and either writable (load and store faults) or executable
    (instruction faults) but never both; no other translation changes and the job
    and all its ancestors are charged one page. *)
Theorem demand_paging k f fl root va extra :
  pmm_wf (k_pmm k) (f :: fl) → pageable k root va → extra = 0 ∨ extra = PTE_X →
  translate (mem (k_pmm k)) root va = None → ¬ huge_at (mem (k_pmm k)) root (page_floor va) →
  (2 ≤ length fl)%nat →
  ∃ k', handle_user_page_fault root va extra k = (Ok tt, k') ∧ as_wf (k_pmm k') root ∧
    (∀ x, translate (mem (k_pmm k')) root x =
       if decide (same_page x va) then Some (mk_pte f (fault_flags extra))
       else translate (mem (k_pmm k)) root x) ∧
    (∀ j, read_word (mem (k_pmm k')) f j = 0) ∧
    has_flag (fault_flags extra) PTE_W = negb (has_flag (fault_flags extra) PTE_X) ∧
    current_proc k' = (λ jobs, alloc_memory jobs PAGE_SIZE) <$> current_proc k.
Proof.
  intros Hp (Hwf & Hram & Hva & Hsw & Hjob) Hex Hnone Hhuge Hfl.
  destruct (user_fault_common k f fl root va extra) as (r & s2 & fl2 & _ & _ & Hwf2 & Hr);
    [done..|by apply fault_flags_bound|done|done|].
  destruct r as [|e|]; [|destruct Hr as [[H|[H|[H _]]] _]; [done..|lia]|done].
  destruct Hr as (_ & Htr & Hz & k' & E & <- & _ & Hproc).
  exists k'. split_and!; [done..| |done]. by destruct Hex as [->| ->].
Qed.

Lemma store_fault_not_cow s root va e :
  translate (mem s) root va = Some e → has_flag (pte_flags e) PTE_COW = false →
  handle_store_page_fault root va s = (Err "write to read-only page (not COW)", s).
Proof.
  unfold translate, leaf_at. rewrite walk2. intros Htr HC.
  destruct (walk (mem s) root [vpn 2 va]) as [l1|] eqn:E1; [|done]. cbn [mbind option_bind] in Htr.
  destruct (walk (mem s) l1 [vpn 1 va]) as [l0|] eqn:E0; [|done]. cbn [mbind option_bind] in Htr.
  destruct (pte_valid (read_word (mem s) l0 (vpn 0 va))) eqn:Hv; [|done]. injection Htr as He.
  unfold handle_store_page_fault.
  erewrite bind_ok by (by rewrite walk_step_spec, E1).
  erewrite bind_ok by (by rewrite walk_step_spec, E0).
  erewrite bind_ok by apply entry_at_eq. rewrite Hv, He, HC. done.
Qed.

(** A protection fault is resumed for ever.  When a user page is mapped but
    the access is not permitted (a store to a read-only page that is not COW, an
    instruction fetch from a non-executable page), the handler finds the page
    already mapped, drops the frame it allocated and resumes the process with every
    translation unchanged, so the same access faults again; the process is never
    ended. *)
Theorem protection_fault_resumes k f fl root va e cause :
  pmm_wf (k_pmm k) (f :: fl) → pageable k root va →
  translate (mem (k_pmm k)) root va = Some e →
  cause = 12 ∨ cause = 13 ∨ (cause = 15 ∧ has_flag (pte_flags e) PTE_COW = false) →
  ∃ k', handle_page_fault cause root va k = (Ok Resume, k') ∧
    ∀ x, translate (mem (k_pmm k')) root x = translate (mem (k_pmm k)) root x.
Proof.
  intros Hp (Hwf & Hram & Hva & Hsw & Hjob) Htr Hc.
  assert (∀ extra, extra = 0 ∨ extra = PTE_X → ∃ k',
    handle_user_page_fault root va extra k = (Ok tt, k') ∧
    ∀ x, translate (mem (k_pmm k')) root x = translate (mem (k_pmm k)) root x) as Hu.
  { intros extra Hex.
    destruct (user_fault_common k f fl root va extra) as (r & s2 & fl2 & _ & _ & _ & Hr);
      [done..|by apply fault_flags_bound|done|done|].
    destruct r as [|err|]; [destruct Hr as [Hn _]; congruence| |done].
    destruct Hr as (_ & k' & E & _ & _ & _ & Hx). by exists k'. }
  destruct Hc as [->|[->|[-> HC]]].
  - destruct (Hu PTE_X) as (k' & E & Hx); [by right|]. exists k'. split; [|done].
    cbn [handle_page_fault]. unfold resume_or_segv. by erewrite match_ok by exact E.
  - destruct (Hu 0) as (k' & E & Hx); [by left|]. exists k'. split; [|done].
    cbn [handle_page_fault]. unfold resume_or_segv. by erewrite match_ok by exact E.
  - destruct (Hu 0) as (k' & E & Hx); [by left|]. exists k'. split; [|done].
    cbn [handle_page_fault]. erewrite match_err.
    2:{ apply on_pmm_eq. by eapply store_fault_not_cow. }
    unfold resume_or_segv. replace (set_pmm (k_pmm k) k) with k by (by destruct k).
    by erewrite match_ok by exact E.
Qed.

(** The user window of the fault handler is wider than an Sv39 address
    space.  A fault at address 2^39, outside every canonical user address, has the
    table indices of address 0: if the kernel's null-guard page is unmapped, as the
    kernel sets it up, the handler maps a user-writable page at address 0 in the
    tables all processes share. *)
Theorem fault_window_maps_null_guard k f fl root :
  pmm_wf (k_pmm k) (f :: fl) → pageable k root (2 ^ 39) →
  translate (mem (k_pmm k)) root 0 = None → walk (mem (k_pmm k)) root [0; 0]%nat ≠ None →
  ∃ k', handle_user_page_fault root (2 ^ 39) 0 k = (Ok tt, k') ∧
    translate (mem (k_pmm k')) root 0 = Some (mk_pte f (Z.lor (Z.lor PTE_R PTE_U) PTE_W)).
Proof.
  intros Hp (Hwf & Hram & Hva & Hsw & Hjob) Hnone Hw.
  assert (same_page 0 (2 ^ 39)) as Hs by done.
  assert (translate (mem (k_pmm k)) root (2 ^ 39) = None) as Hn39.
  { rewrite <-Hnone. unfold translate. by destruct Hs as (<- & <- & <-). }
  destruct (user_fault_common k f fl root (2 ^ 39) 0) as (r & s2 & fl2 & _ & _ & _ & Hr);
    [done..|by apply fault_flags_bound; left|done|done|].
  destruct r as [|err|]; [| |done].
  - destruct Hr as (_ & Htr & _ & k' & E & <- & _). exists k'. split; [done|].
    rewrite Htr. by rewrite decide_True.
  - exfalso. destruct Hr as [[H|[H|[_ H]]] _]; [done| |by apply Hw].
    destruct (walk (mem (k_pmm k)) root [0; 0]%nat) as [t|] eqn:Ht; [|done].
    eapply (walked_not_huge _ root); [|exact H]. exact Ht.
Qed.

(** ** Eviction and restoration *)

Lemma first_some_Some {A B} (f : A → option B) l b :
  first_some f l = Some b → ∃ x, x ∈ l ∧ f x = Some b.
Proof.
  induction l as [|x l IH]; [done|]. simpl. destruct (f x) as [b'|] eqn:E.
  - intros [= <-]. exists x. split; [set_solver|done].
  - intros (y & Hy & Hf)%IH. exists y. split; [set_solver|done].
Qed.

Lemma sub_table_walk m pt i : sub_table m pt i = walk m pt [i].
Proof. unfold sub_table. cbn [walk]. by destruct (pte_valid _), (pte_leaf _). Qed.

Lemma has_flag_flags e : has_flag (pte_flags e) PTE_U = has_flag e PTE_U.
Proof. unfold has_flag, pte_flags. by rewrite <-Z.land_assoc. Qed.

(** A victim is a user page of a process's address space. *)
Lemma find_victim_spec procs s v :
  find_victim procs s = Some v →
  walk (mem s) (v_root v) [v_i2 v; v_i1 v] = Some (v_l0 v) ∧
  (4 ≤ v_i2 v < 512)%nat ∧ (v_i1 v < 512)%nat ∧ (v_i0 v < 512)%nat ∧
  read_word (mem s) (v_l0 v) (v_i0 v) = v_pte v ∧ pte_valid (v_pte v) = true ∧
  has_flag (pte_flags (v_pte v)) PTE_U = true ∧ is_managed_page s (pte_pa (v_pte v)) = true.
Proof.
  intros ([st satp] & _ & Hv)%first_some_Some. cbn zeta in Hv.
  set (root := Z.shiftl _ 12) in Hv. destruct (negb st || (root =? 0)); [done|]. unfold victim_in in Hv.
  apply first_some_Some in Hv as (i2 & Hi2%elem_of_seq & Hv).
  rewrite sub_table_walk in Hv. destruct (walk (mem s) root [i2]) as [l1|] eqn:E1; [|done].
  cbn [mbind option_bind] in Hv. apply first_some_Some in Hv as (i1 & Hi1%elem_of_seq & Hv).
  rewrite sub_table_walk in Hv. destruct (walk (mem s) l1 [i1]) as [l0|] eqn:E0; [|done].
  cbn [mbind option_bind] in Hv.
  destruct (first_some (victim_at s l0) (seq 0 512)) as [[i0 pte]|] eqn:E; [|done].
  cbn [mbind option_bind] in Hv. injection Hv as <-.
  apply first_some_Some in E as (i0' & Hi0%elem_of_seq & Hv). unfold victim_at in Hv.
  destruct (pte_valid _) eqn:V; [|done]. destruct (has_flag _ PTE_U) eqn:HU; [|done].
  destruct (is_managed_page _ _) eqn:Hm; [|done]. simpl in Hv. injection Hv as -> <-.
  cbn [v_root v_l0 v_i2 v_i1 v_i0 v_pte]. rewrite has_flag_flags, walk2, E1.
  cbn [mbind option_bind].
  split_and!; [exact E0|lia|lia|lia|lia|done|done|done|done].
Qed.

Lemma victim_va i2 i1 i0 :
  (i2 < 512)%nat → (i1 < 512)%nat → (i0 < 512)%nat →
  Z.lor (Z.lor (Z.shiftl (Z.of_nat i2) 30) (Z.shiftl (Z.of_nat i1) 21))
    (Z.shiftl (Z.of_nat i0) 12) = va_of i2 i1 i0.
Proof.
  intros H2 H1 H0. rewrite !Z.shiftl_mul_pow2 by lia. unfold va_of.
  rewrite <-(Z.mod_small (Z.of_nat i1 * 2 ^ 21) (2 ^ 30)) at 1 by lia.
  rewrite lor_low_high; [|lia|by apply Z.mod_mul]. rewrite (Z.mod_small _ (2 ^ 30)) by lia.
  rewrite <-(Z.mod_small (Z.of_nat i0 * 2 ^ 12) (2 ^ 21)) at 1 by lia.
  rewrite lor_low_high; [by rewrite Z.mod_small by lia|lia|].
  replace (Z.of_nat i2 * 2 ^ 30 + Z.of_nat i1 * 2 ^ 21) with
    ((Z.of_nat i2 * 2 ^ 9 + Z.of_nat i1) * 2 ^ 21) by lia. by apply Z.mod_mul.
Qed.

(** The allocator's side of an eviction. *)
Lemma evict_pmm s fl procs v :
  pmm_wf s fl → as_wf s (v_root v) → ram_ok s → unshared s (v_root v) →
  find_victim procs s = Some v →
  count_at s (page_index s (pte_pa (v_pte v))) = 1 →
  ∃ s', decr_ref_and_maybe_free (pte_pa (v_pte v)) (swrite (v_l0 v) (v_i0 v) 0 s) = (Ok tt, s') ∧
    pmm_wf s' (pte_pa (v_pte v) :: fl) ∧ as_wf s' (v_root v) ∧ ram_ok s' ∧
    (∀ j2 j1 j0, leaf_at (mem s') (v_root v) j2 j1 j0 =
      if decide (j2 = v_i2 v ∧ j1 = v_i1 v ∧ j0 = v_i0 v) then None
      else leaf_at (mem s) (v_root v) j2 j1 j0) ∧
    walk (mem s') (v_root v) [v_i2 v; v_i1 v] = Some (v_l0 v).
Proof.
  intros Hp Hwf Hram Hun (Hw & Hi2 & Hi1 & Hi0 & Hrd & Hv & HU & Hm)%find_victim_spec Hc.
  destruct v as [root l0 i2 i1 i0 pte]; cbn [v_root v_l0 v_i2 v_i1 v_i0 v_pte] in *. set (pa := pte_pa pte) in *.
  assert (leaf_at (mem s) root i2 i1 i0 = Some pte) as Hl.
  { unfold leaf_at. rewrite Hw. cbn [mbind option_bind]. by rewrite Hrd, Hv. }
  destruct (as_leaf _ _ Hwf _ _ _ _ Hl HU Hm) as [_ Hnt]. fold pa in Hnt.
  destruct (as_table _ _ Hwf l0) as (_ & Hcl & _); [by exists [i2; i1]|].
  set (s1 := swrite l0 i0 0 s).
  assert (as_wf s1 root) as Hwf1 by (by eapply leaf_write_wf).
  assert (pmm_wf s1 fl) as Hp1 by (apply swrite_wf; [done|eapply counted_not_free; [done|lia]]).
  pose proof (leaf_write_leaf s root i2 i1 l0 i0 0 Hwf Hw Hi0) as Hl1. fold s1 in Hl1.
  assert (¬ is_table (mem s1) root pa) as Hnt1.
  { unfold s1. by rewrite (leaf_write_table s root i2 i1 l0 i0 0). }
  destruct (decr_data_spec s1 fl root pa) as (s' & E & Hwin & Hwf' & Hsl & Hfr & _ & Hres);
    [done|done|by apply managed_frame_ok| |done| |done|].
  { change (count_at s1 (page_index s1 pa)) with (count_at s (page_index s pa)). lia. }
  { right. intros j2 j1 j0 e'. rewrite Hl1. case_decide as Hd; [done|]. intros Hl' HU' Heq.
    apply Hd. by destruct (Hun _ _ _ _ _ _ _ _ Hl Hl' HU HU' Hm) as (-> & -> & ->). }
  change (count_at s1 (page_index s1 pa)) with (count_at s (page_index s pa)) in Hres.
  rewrite Hc in Hres. simpl in Hres.
  exists s'. split_and!; [done|done|done|by eapply ram_ok_window|intros; by rewrite Hsl, Hl1|].
  rewrite (walk_tables (mem s1) (mem s')); [|intros t i Ht; unfold read_word; rewrite Hfr; [done|by intros ->]|simpl; lia].
  unfold s1. rewrite (leaf_write_walk s root i2 i1); [done..|simpl; lia].
Qed.

Definition victim_addr (v : victim) : Z := va_of (v_i2 v) (v_i1 v) (v_i0 v).

(** The state after evicting [v], given the allocator's state. *)
Definition evicted (v : victim) (s' : pmm) (k : kst) : kst :=
  let data := compress_page (bytes_of_frame (frame_at (mem (k_pmm k)) (pte_pa (v_pte v)))) in
  mkKst s' (<[(v_root v, victim_addr v) := mkSwapped data (pte_flags (v_pte v))]> (swap_map k))
    (wrap 64 (swap_total_pages k + 1)) (wrap 64 (swap_total_bytes k + Z.of_nat (length data)))
    (current_proc k) (allocated_pages k).

Lemma evict_eq v k s' :
  (v_i2 v < 512)%nat → (v_i1 v < 512)%nat → (v_i0 v < 512)%nat →
  decr_ref_and_maybe_free (pte_pa (v_pte v)) (swrite (v_l0 v) (v_i0 v) 0 (k_pmm k)) = (Ok tt, s') →
  evict v k = (Ok tt, evicted v s' k).
Proof.
  intros H2 H1 H0 E. unfold evict. rewrite victim_va by done.
  erewrite bind_ok by reflexivity. erewrite bind_ok by reflexivity.
  erewrite bind_ok by (by apply on_pmm_eq, set_entry_eq).
  erewrite bind_ok by (by apply on_pmm_eq, E). reflexivity.
Qed.

Lemma pte_flags_bound e : 0 ≤ pte_flags e < 1024.
Proof.
  unfold pte_flags. change 1023 with (Z.ones 10). rewrite Z.land_ones by lia.
  apply Z.mod_pos_bound. lia.
Qed.

Lemma wrap_add_sub w x y : 0 ≤ x < 2 ^ w → wrap w (wrap w (x + y) - y) = x.
Proof.
  intros Hx. unfold wrap. rewrite Zminus_mod_idemp_l.
  replace (x + y - y) with x by lia. by apply Z.mod_small.
Qed.

(** Restoring a page whose tables are in place. *)
Lemma swap_in_spec k f fl root va l0 sp page :
  pmm_wf (k_pmm k) (f :: fl) → as_wf (k_pmm k) root → ram_ok (k_pmm k) →
  swap_map k !! (root, va) = Some sp → 0 ≤ sw_flags sp < 1024 →
  sw_data sp = compress_page (bytes_of_frame page) →
  length page = frame_words → Forall is_word page →
  translate (mem (k_pmm k)) root va = None →
  walk (mem (k_pmm k)) root [vpn 2 va; vpn 1 va] = Some l0 →
  ∃ s2, swap_in root va k = (Ok tt, set_swap (delete (root, va) (swap_map k))
      (wrap 64 (swap_total_pages k - 1))
      (wrap 64 (swap_total_bytes k - Z.of_nat (length (sw_data sp)))) (set_pmm s2 k)) ∧
    as_wf s2 root ∧
    (∀ x, translate (mem s2) root x =
       if decide (same_page x va) then Some (mk_pte f (sw_flags sp))
       else translate (mem (k_pmm k)) root x) ∧
    (∀ j, read_word (mem s2) f j = default 0 (page !! j)).
Proof.
  intros Hp Hwf Hram Hsp Hfl Hdata Hlen Hwords Hnone Hw.
  destruct (fresh_map (k_pmm k) f fl root page Hp Hwf Hram va (sw_flags sp) Hfl)
    as (r & s2 & fl2 & E & _ & _ & Hwf2 & _ & _ & _ & _ & Hcont & Hr).
  assert (r = Ok tt) as ->.
  { destruct r as [[]|e|]; [done| |done]. exfalso. destruct Hr as [_ [Hr|[Hr|[_ Hr]]]].
    - done.
    - by eapply walked_not_huge.
    - by rewrite Hw in Hr. }
  exists s2. destruct Hr as [_ Htr]. split_and!; [|done|done|].
  - unfold swap_in. erewrite bind_ok by (unfold take_swap; by rewrite Hsp).
    erewrite bind_ok by (by apply on_pmm_eq; eapply alloc_or_cons).
    erewrite bind_ok by reflexivity.
    assert (frame_of_bytes (decompress_page (sw_data sp)
      (bytes_of_frame (frame_at (mem (after_alloc f (k_pmm k))) f))) = page) as Hpage.
    { rewrite Hdata. apply frame_roundtrip; [done|done|].
      rewrite length_bytes_of_frame, after_alloc_mem, frame_at_insert, length_zero_frame. done. }
    cbn [k_pmm set_pmm set_swap]. rewrite Hpage.
    by erewrite match_ok by (apply on_pmm_eq; exact E).
  - intros j. rewrite Hcont. unfold read_word. simpl. by rewrite frame_at_insert.
Qed.


(** A failed swap-in loses the page.  When no frame is free [swap_in]
    reports an error, but the entry has already been removed from the swap map (and
    the counters still count it): a later fault can only get a zeroed page. *)
Theorem swap_in_oom_loses_page k root va sp :
  pmm_wf (k_pmm k) [] → swap_map k !! (root, va) = Some sp →
  ∃ k', swap_in root va k = (Err "OOM during swap-in", k') ∧
    swap_map k' = delete (root, va) (swap_map k) ∧ lookup_swap k' root va = false ∧
    swap_total_pages k' = swap_total_pages k.
Proof.
  intros Hp Hsp. eexists. split_and!.
  - unfold swap_in. erewrite bind_ok by (unfold take_swap; by rewrite Hsp).
    apply bind_err. apply on_pmm_eq. by apply alloc_or_nil.
  - done.
  - unfold lookup_swap. simpl. by rewrite lookup_delete_eq.
  - done.
Qed.

(** ** Concrete states *)

Definition demo_k (s : pmm) : kst := mkKst s ∅ 0 0 (Some [mkJob usize_max 0]) 0.

Lemma demo_pageable s va :
  as_wf s demo_root → ram_ok s → 2 ^ 32 ≤ va < 2 ^ 47 → pageable (demo_k s) demo_root va.
Proof.
  intros Hwf Hram Hva. split_and!; [done|done|lia|lia|done|].
  intros jobs [= <-]. done.
Qed.

Lemma compress_roundtrip_witness :
  decompress_page (compress_page (replicate 4096 7)) (replicate 4096 0) = replicate 4096 7.
Proof.
  apply (compress_roundtrip (replicate 4096 7) (replicate 4096 0)).
  - apply length_replicate.
  - apply Forall_replicate. unfold is_byte. lia.
  - apply length_replicate.
Defined.

Lemma demand_paging_witness :
  ∃ k' e, handle_user_page_fault demo_root demo_va PTE_X (demo_k demo_s0) = (Ok tt, k') ∧
    translate (mem (k_pmm k')) demo_root demo_va = Some e.
Proof.
  destruct demo_s0_facts as (Hp & Hwf & _).
  assert (demo_fl0 = 2147508224 :: tail demo_fl0) as Hfl by (vm_compute; reflexivity).
  rewrite Hfl in Hp.
  destruct (demand_paging (demo_k demo_s0) 2147508224 (tail demo_fl0) demo_root demo_va PTE_X)
    as (k' & E & _ & Htr & _).
  - exact Hp.
  - apply demo_pageable; [exact Hwf|apply demo_ram_ok|unfold demo_va; lia].
  - right. reflexivity.
  - apply demo_leaf_s0.
  - apply demo_not_huge.
  - vm_compute. lia.
  - eexists k', _. split; [exact E|]. rewrite Htr. by rewrite decide_True by apply same_page_refl.
Defined.

Lemma protection_fault_resumes_witness :
  ∃ k k', handle_page_fault 12 demo_root demo_va k = (Ok Resume, k').
Proof.
  destruct demo_mapped as (s1 & f & fl1 & _ & Hp & Hwf & Hram & _ & Htr).
  destruct (protection_fault_resumes (demo_k s1) f fl1 demo_root demo_va
    (mk_pte demo_data demo_flags) 12) as (k' & E & _).
  - exact Hp.
  - apply demo_pageable; [exact Hwf|exact Hram|unfold demo_va; lia].
  - rewrite Htr. by rewrite decide_True by apply same_page_refl.
  - by left.
  - by exists (demo_k s1), k'.
Defined.

Lemma fault_window_maps_null_guard_witness :
  ∃ k k' f, handle_user_page_fault demo_root (2 ^ 39) 0 k = (Ok tt, k') ∧
    translate (mem (k_pmm k')) demo_root 0 = Some (mk_pte f 22).
Proof.
  destruct (demo_mapped_at 4096) as (s1 & f & fl1 & E & Hp & Hwf & Hram & _ & Htr).
  { vm_compute. split; [reflexivity|congruence]. }
  destruct (fault_window_maps_null_guard (demo_k s1) f fl1 demo_root) as (k' & E' & H).
  - exact Hp.
  - apply demo_pageable; [exact Hwf|exact Hram|lia].
  - rewrite Htr. rewrite decide_False; [done|]. vm_compute. intuition congruence.
  - assert (walk (mem (map_page demo_root 4096 demo_data demo_flags demo_s0).2)
      demo_root [0; 0]%nat ≠ None) as Hw by (vm_compute; congruence).
    rewrite E in Hw. exact Hw.
  - exists (demo_k s1), k', f. split; [exact E'|exact H].
Defined.


Lemma swap_in_oom_loses_page_witness :
  ∃ k k', swap_in demo_root demo_va k = (Err "OOM during swap-in", k') ∧
    lookup_swap k' demo_root demo_va = false.
Proof.
  set (k := mkKst (mkPmm 2147483648 2147549184 0 ∅ ∅ true)
    (<[(demo_root, demo_va) := mkSwapped [] 0]> ∅) 1 0 None 0).
  destruct (swap_in_oom_loses_page k demo_root demo_va (mkSwapped [] 0)) as (k' & E & _ & H & _).
  - split; [done|done|constructor|set_solver|set_solver].
  - apply lookup_insert_eq.
  - exists k, k'. split; [exact E|exact H].
Defined.
