(* ===== verification/Elf.v ===== *)
(** * The ELF loader (src/posix/elf.rs)

    [load_elf] over the allocator and page-table model of [Pmm] and [Vmm].  The
    file is a list of bytes, headers are read at their [repr(C)] offsets, and the
    copy into a frame writes bytes at physical addresses, so that a copy that
    leaves its frame is visible.  The arithmetic is [usize] arithmetic of the build
    the state describes ([debug_assertions]): checked, or wrapping.

    The theorems: a well-formed image is loaded completely and exactly
    ([load_elf_image]); any file whatsoever leaves allocator, address space and
    existing mappings intact unless a segment reaches the last page of the address
    space ([load_elf_safe]); and what such a segment does in a release build
    ([load_elf_top_segment_corrupts]). *)

From Stdlib Require Import ZArith Lia.
From stdpp Require Import prelude gmap strings.
From S2P Require Import Prelude Pmm Vmm Swap.

Local Open Scope Z_scope.

(** ** Bytes of physical memory *)

Definition byte_of (frame : list Z) (o : nat) : Z :=
  default 0 (le_bytes 8 (default 0 (frame !! (o / 8)%nat)) !! (o mod 8)%nat).

(** The byte at offset [o] of the frame at [pa]. *)
Definition byte_at (m : gmap Z (list Z)) (pa : Z) (o : nat) : Z := byte_of (frame_at m pa) o.

(** A byte store at a physical address. *)
Definition poke (m : gmap Z (list Z)) (a b : Z) : gmap Z (list Z) :=
  let pa := page_floor a in
  let o := Z.to_nat (a mod PAGE_SIZE) in
  write_word m pa (o / 8)
    (of_le (<[(o mod 8)%nat := b]> (le_bytes 8 (read_word m pa (o / 8))))).

(** [copy_nonoverlapping] to a physical address. *)
Fixpoint copy_bytes (m : gmap Z (list Z)) (a : Z) (bs : list Z) : gmap Z (list Z) :=
  match bs with
  | [] => m
  | b :: bs' => copy_bytes (poke m a b) (wrap 64 (a + 1)) bs'
  end.

Definition usize_sub (a b : Z) : M pmm Z := λ s,
  if b <=? a then (Ok (a - b), s)
  else if debug_assertions s then (Panic "attempt to subtract with overflow", s)
  else (Ok (wrap 64 (a - b)), s).

Definition checked_add (a b : Z) (e : string) : M pmm Z :=
  if a + b <=? usize_max then mret (a + b) else fail e.

(** ** Headers *)

Definition PT_LOAD : Z := 1.
Definition PF_X : Z := 1.
Definition PF_W : Z := 2.
Definition PF_R : Z := 4.

Definition elf_magic : list Z := [127; 69; 76; 70].

(** Sizes of the two header structs. *)
Definition sizeof_elf_header : Z := 64.
Definition sizeof_program_header : Z := 56.

(** The little-endian field of [n] bytes at [off]. *)
Definition field (data : list Z) (off : Z) (n : nat) : Z := of_le (slice data (Z.to_nat off) n).

Record elf_header : Type := mkElfHeader {
  ident : list Z; e_entry : Z; e_phoff : Z; e_phentsize : Z; e_phnum : Z }.

Definition read_elf_header (data : list Z) : elf_header :=
  mkElfHeader (slice data 0 16) (field data 24 8) (field data 32 8) (field data 54 2)
    (field data 56 2).

Record program_header : Type := mkProgramHeader {
  p_type : Z; p_flags : Z; p_offset : Z; p_vaddr : Z; p_filesz : Z; p_memsz : Z }.

Definition read_program_header (data : list Z) (at_ : Z) : program_header :=
  mkProgramHeader (field data at_ 4) (field data (at_ + 4) 4) (field data (at_ + 8) 8)
    (field data (at_ + 16) 8) (field data (at_ + 32) 8) (field data (at_ + 40) 8).

Record elf_load_info : Type := mkElfLoadInfo {
  entry : Z; phdr_va : Z; phnum : Z; phentsize : Z }.

(** ** Loading *)

Definition segment_flags (ph : program_header) : Z :=
  let flags := PTE_U in
  let flags := if negb (Z.land (p_flags ph) PF_R =? 0) then Z.lor flags PTE_R else flags in
  let flags := if negb (Z.land (p_flags ph) PF_W =? 0) then Z.lor flags PTE_W else flags in
  if negb (Z.land (p_flags ph) PF_X =? 0) then Z.lor flags PTE_X else flags.

(** The part of the page at [va] the file backs is copied over the zeroed frame. *)
Definition copy_page (data : list Z) (ph : program_header) (va frame : Z) : M pmm unit :=
  let va_offset := sat_sub va (p_vaddr ph) in
  let page_offset := sat_sub (p_vaddr ph) va in
  if va_offset <? p_filesz ph then
    room ← usize_sub PAGE_SIZE page_offset;
    let copy_len := Z.min room (p_filesz ph - va_offset) in
    file_start ← usize_add (p_offset ph) va_offset;
    file_end ← usize_add file_start copy_len;
    if file_end <=? Z.of_nat (length data) then
      dst ← usize_add frame page_offset;
      modify (λ s, set_mem (copy_bytes (mem s) dst
        (slice data (Z.to_nat file_start) (Z.to_nat copy_len))) s)
    else mret tt
  else mret tt.

(** One turn of the page loop.  When [map_page] fails the [Frame] is dropped. *)
Definition load_page (data : list Z) (root : Z) (ph : program_header) (va : Z) : M pmm unit :=
  frame ← alloc_or "Failed to alloc page for ELF";
  modify (λ s, set_mem (<[frame := zero_frame]> (mem s)) s) ;;
  copy_page data ph va frame ;;
  match_result (map_page root va frame (segment_flags ph))
    (λ _, mret tt)
    (λ e, decr_ref_and_maybe_free frame ;; fail e).

(** The page loop; every turn takes a frame, so more fuel than there are free
    frames is never used up. *)
Fixpoint load_pages (fuel : nat) (data : list Z) (root : Z) (ph : program_header)
    (va end_va : Z) : M pmm unit :=
  match fuel with
  | O => panic "out of fuel"
  | S n =>
      if va <? end_va then
        load_page data root ph va ;;
        va' ← usize_add va PAGE_SIZE;
        load_pages n data root ph va' end_va
      else mret tt
  end.

Definition load_segment (fuel : nat) (data : list Z) (root : Z) (ph : program_header)
    : M pmm unit :=
  end_va ← checked_add (p_vaddr ph) (p_memsz ph) "integer overflow";
  (if 0 <? p_filesz ph then
     file_end ← checked_add (p_offset ph) (p_filesz ph) "integer overflow";
     if Z.of_nat (length data) <? file_end then fail "segment data extends past end of file"
     else mret tt
   else mret tt) ;;
  if p_memsz ph =? 0 then mret tt
  else load_pages fuel data root ph (page_floor (p_vaddr ph)) end_va.

(** The lowest [PT_LOAD] so far, by address: its address and file offset. *)
Definition first_load (acc : option (Z * Z)) (ph : program_header) : option (Z * Z) :=
  match acc with
  | Some (va, _) => if p_vaddr ph <? va then Some (p_vaddr ph, p_offset ph) else acc
  | None => Some (p_vaddr ph, p_offset ph)
  end.

(** The loop over the program headers. *)
Fixpoint load_headers (fuel : nat) (data : list Z) (root : Z) (phs : list program_header)
    (acc : option (Z * Z)) : M pmm (option (Z * Z)) :=
  match phs with
  | [] => mret acc
  | ph :: phs' =>
      if p_type ph =? PT_LOAD then
        load_segment fuel data root ph ;;
        load_headers fuel data root phs' (first_load acc ph)
      else load_headers fuel data root phs' acc
  end.

(** The program headers, in table order. *)
Definition program_headers (data : list Z) (h : elf_header) : list program_header :=
  (λ i, read_program_header data (e_phoff h + i * e_phentsize h)) <$> seqZ 0 (e_phnum h).

Definition load_elf (fuel : nat) (data : list Z) (root : Z) : M pmm elf_load_info :=
  let len := Z.of_nat (length data) in
  if len <? sizeof_elf_header then fail "File too small"
  else
    let header := read_elf_header data in
    if negb (bool_decide (take 4 (ident header) = elf_magic)) then fail "Not an ELF file"
    else if e_phentsize header <? sizeof_program_header
    then fail "invalid program header entry size"
    else if usize_max <? e_phnum header * e_phentsize header then fail "integer overflow"
    else
      ph_end ← checked_add (e_phoff header) (e_phnum header * e_phentsize header) "integer overflow";
      if len <? ph_end then fail "program headers extend past end of file"
      else
        first ← load_headers fuel data root (program_headers data header) None;
        match first with
        | Some (lva, loff) =>
            a ← usize_add lva (e_phoff header);
            va ← usize_sub a loff;
            mret (mkElfLoadInfo (e_entry header) va (e_phnum header) (e_phentsize header))
        | None => fail "no PT_LOAD segment found"
        end.

(** ** Bytes of frames *)

Lemma length_put_byte w k b : length (<[k := b]> (le_bytes 8 w)) = 8%nat.
Proof. by rewrite length_insert, length_le_bytes. Qed.

Lemma put_byte_bytes w k b : is_byte b → Forall is_byte (<[k := b]> (le_bytes 8 w)).
Proof. intros. apply Forall_insert; [apply le_bytes_bytes|done]. Qed.

Lemma byte_of_insert c o b o' :
  length c = frame_words → (o < 4096)%nat → is_byte b →
  byte_of (<[(o / 8)%nat := of_le (<[(o mod 8)%nat := b]> (le_bytes 8 (default 0 (c !! (o / 8)%nat))))]> c) o'
    = if decide (o = o') then b else byte_of c o'.
Proof.
  intros Hc Ho Hb. unfold byte_of. set (w := default 0 (c !! (o / 8)%nat)).
  assert (o / 8 < length c)%nat as Hlt by (rewrite Hc; apply Nat.Div0.div_lt_upper_bound; unfold frame_words; lia).
  assert (o mod 8 < 8)%nat as Hm by (apply Nat.mod_upper_bound; lia).
  destruct (decide (o / 8 = o' / 8)%nat) as [Hq|Hq].
  - rewrite <-Hq, list_lookup_insert_eq by done. cbn [default from_option id].
    pose proof (le_bytes_of_le _ (put_byte_bytes w (o mod 8) b Hb)) as Hl.
    rewrite length_put_byte in Hl. unfold from_option, id in *. rewrite Hl. destruct (decide (o = o')) as [<-|Hne].
    + by rewrite list_lookup_insert_eq by (rewrite length_le_bytes; done).
    + rewrite list_lookup_insert_ne; [done|]. intros Heq. apply Hne.
      rewrite (Nat.div_mod_eq o 8), (Nat.div_mod_eq o' 8). congruence.
  - rewrite list_lookup_insert_ne by done. by rewrite decide_False by (by intros ->).
Qed.

Lemma page_floor_add f o : f mod PAGE_SIZE = 0 → 0 ≤ o < PAGE_SIZE → page_floor (f + o) = f.
Proof.
  intros Hf Ho. rewrite page_floor_eq. unfold PAGE_SIZE in *. Z.div_mod_to_equations. lia.
Qed.

Lemma mod_add_aligned f o : f mod PAGE_SIZE = 0 → 0 ≤ o < PAGE_SIZE → (f + o) mod PAGE_SIZE = o.
Proof.
  intros Hf Ho. unfold PAGE_SIZE in *. by rewrite Z.add_mod, Hf, Z.add_0_l, Z.mod_mod, Z.mod_small by lia.
Qed.

(** A store inside a frame changes that byte of the frame and nothing else. *)
Lemma poke_frame m f c o b :
  f mod PAGE_SIZE = 0 → length c = frame_words → (o < 4096)%nat → is_byte b →
  ∃ c', poke (<[f := c]> m) (f + Z.of_nat o) b = <[f := c']> m ∧ length c' = frame_words ∧
    ∀ o', byte_of c' o' = if decide (o = o') then b else byte_of c o'.
Proof.
  intros Hf Hc Ho Hb. unfold poke.
  rewrite page_floor_add, mod_add_aligned by (unfold PAGE_SIZE; done || lia). rewrite Nat2Z.id.
  unfold write_word, read_word. rewrite frame_at_insert, insert_insert_eq.
  eexists. split; [reflexivity|]. split; [by rewrite length_insert|].
  intros o'. by apply byte_of_insert.
Qed.

Lemma copy_bytes_frame bs m f c o :
  f mod PAGE_SIZE = 0 → 0 ≤ f < 2 ^ 56 → length c = frame_words →
  (o + length bs ≤ 4096)%nat → Forall is_byte bs →
  ∃ c', copy_bytes (<[f := c]> m) (f + Z.of_nat o) bs = <[f := c']> m ∧ length c' = frame_words ∧
    ∀ o', byte_of c' o' =
      if decide (o ≤ o' < o + length bs)%nat then default 0 (bs !! (o' - o)%nat) else byte_of c o'.
Proof.
  intros Hf Hb Hc. revert c o Hc. induction bs as [|b bs IH]; intros c o Hc Ho Hbs.
  - exists c. split_and!; [done|done|]. intros o'. rewrite decide_False; [done|simpl; lia].
  - apply Forall_cons in Hbs as [Hbb Hbs]. cbn [length] in Ho.
    destruct (poke_frame m f c o b) as (c1 & E1 & Hc1 & H1); [done|done|lia|done|].
    cbn [copy_bytes]. rewrite E1. unfold wrap. rewrite Z.mod_small by lia.
    replace (f + Z.of_nat o + 1) with (f + Z.of_nat (S o)) by lia.
    destruct (IH c1 (S o) Hc1) as (c2 & E2 & Hc2 & H2); [lia|done|].
    exists c2. split_and!; [done|done|]. intros o'. rewrite H2, H1. cbn [length].
    destruct (decide (o = o')) as [<-|Hne].
    + rewrite decide_False by lia. rewrite decide_True by lia. by rewrite Nat.sub_diag.
    + destruct (decide (S o ≤ o' < S o + length bs)%nat).
      * rewrite decide_True by lia. replace (o' - o)%nat with (S (o' - S o)) by lia. done.
      * by rewrite decide_False by lia.
Qed.

Lemma byte_of_zero o : byte_of zero_frame o = 0.
Proof.
  unfold byte_of. replace (default 0 (zero_frame !! (o / 8)%nat)) with 0.
  - change (le_bytes 8 0) with (replicate 8 0).
    destruct (replicate 8 0 !! _) eqn:E; [|done]. by apply lookup_replicate in E as [-> _].
  - unfold zero_frame. destruct (replicate frame_words 0 !! (o / 8)%nat) eqn:E; [|done].
    by apply lookup_replicate in E as [-> _].
Qed.

Lemma byte_at_ext m m' pa o :
  (∀ j, read_word m' pa j = read_word m pa j) → byte_at m' pa o = byte_at m pa o.
Proof. intros H. unfold byte_at, byte_of. specialize (H (o / 8)%nat). unfold read_word in H. by rewrite H. Qed.

(** ** One page *)

(** What the loaded image holds at address [x]: the file's byte, or zero. *)
Definition image_byte (data : list Z) (ph : program_header) (x : Z) : Z :=
  let o := x - p_vaddr ph in
  if (0 <=? o) && (o <? p_filesz ph) then default 0 (data !! Z.to_nat (p_offset ph + o)) else 0.

(** Fields in range, and the file-backed part inside the file. *)
Record header_ok (data : list Z) (ph : program_header) : Prop := {
  h_offset : 0 ≤ p_offset ph;
  h_vaddr : 0 ≤ p_vaddr ph ≤ usize_max;
  h_memsz : 0 ≤ p_memsz ph;
  h_filesz : 0 ≤ p_filesz ph;
  h_file : 0 < p_filesz ph → p_offset ph + p_filesz ph ≤ usize_max ∧
    p_offset ph + p_filesz ph ≤ Z.of_nat (length data);
}.

Lemma usize_add_eq a b s : a + b ≤ usize_max → usize_add a b s = (Ok (a + b), s).
Proof. intros. unfold usize_add. by rewrite (proj2 (Z.leb_le _ _)). Qed.

Lemma usize_sub_eq a b s : b ≤ a → usize_sub a b s = (Ok (a - b), s).
Proof. intros. unfold usize_sub. by rewrite (proj2 (Z.leb_le _ _)). Qed.

(** The copy fills the frame with the image's bytes. *)
Lemma copy_page_eq data ph va f m s :
  header_ok data ph → Forall is_byte data → 0 ≤ va → p_vaddr ph - va < PAGE_SIZE →
  f mod PAGE_SIZE = 0 → 0 ≤ f < 2 ^ 56 → mem s = <[f := zero_frame]> m →
  ∃ c, copy_page data ph va f s = (Ok tt, set_mem (<[f := c]> m) s) ∧ length c = frame_words ∧
    ∀ o, (o < 4096)%nat → byte_of c o = image_byte data ph (va + Z.of_nat o).
Proof.
  intros [Ho Hv Hm Hz Hf] Hd Hva Hpo Hal Hfb Hmem. unfold copy_page, sat_sub, PAGE_SIZE in *.
  destruct (Z.ltb_spec (Z.max 0 (va - p_vaddr ph)) (p_filesz ph)) as [Hlt|Hge].
  2:{ exists zero_frame. rewrite <-Hmem. split_and!; [by destruct s|done|]. intros o _.
      rewrite byte_of_zero. unfold image_byte.
      destruct (Z.leb_spec 0 (va + Z.of_nat o - p_vaddr ph)); [|done].
      destruct (Z.ltb_spec (va + Z.of_nat o - p_vaddr ph) (p_filesz ph)); [lia|done]. }
  destruct Hf as [Hf1 Hf2]; [lia|].
  erewrite bind_ok by (apply usize_sub_eq; lia).
  remember (Z.max 0 (p_vaddr ph - va)) as po eqn:Epo.
  remember (Z.max 0 (va - p_vaddr ph)) as vo eqn:Evo. cbv zeta.
  remember (Z.min (4096 - po) (p_filesz ph - vo)) as n eqn:En.
  erewrite bind_ok by (apply usize_add_eq; lia). erewrite bind_ok by (apply usize_add_eq; lia).
  rewrite (proj2 (Z.leb_le _ _)) by lia.
  erewrite bind_ok by (apply usize_add_eq; unfold usize_max; lia).
  assert (length (slice data (Z.to_nat (p_offset ph + vo)) (Z.to_nat n)) = Z.to_nat n) as Hl
    by (rewrite length_slice; lia).
  replace (f + po) with (f + Z.of_nat (Z.to_nat po)) by lia.
  destruct (copy_bytes_frame (slice data (Z.to_nat (p_offset ph + vo)) (Z.to_nat n)) m f zero_frame
    (Z.to_nat po)) as (c & E & Hc & Hb); [done|done|apply length_zero_frame|lia| |].
  { by apply Forall_take, Forall_drop. }
  exists c. split_and!; [by unfold modify; rewrite Hmem, E|done|]. intros o Ho4.
  rewrite Hb, byte_of_zero, Hl, lookup_slice. unfold image_byte.
  destruct (Z.leb_spec 0 (va + Z.of_nat o - p_vaddr ph));
    destruct (Z.ltb_spec (va + Z.of_nat o - p_vaddr ph) (p_filesz ph)); cbn [andb].
  2-4: by rewrite decide_False by lia.
  rewrite !decide_True by lia. do 2 f_equal. lia.
Qed.

(** [s'] extends [s]: mappings of [s] are kept, and so are the frames that were in
    use as data. *)
Record extends (root : Z) (s s' : pmm) : Prop := {
  x_window : same_window s s';
  x_translate x e : translate (mem s) root x = Some e → translate (mem s') root x = Some e;
  x_count q : frame_ok s q → 0 < count_at s (page_index s q) → ¬ is_table (mem s) root q →
    0 < count_at s' (page_index s q) ∧ ¬ is_table (mem s') root q;
  x_read q j : frame_ok s q → 0 < count_at s (page_index s q) → ¬ is_table (mem s) root q →
    read_word (mem s') q j = read_word (mem s) q j;
}.

#[export] Instance extends_refl root : Reflexive (extends root).
Proof. intros s. split; auto with pmm. Qed.

#[export] Instance extends_trans root : Transitive (extends root).
Proof.
  intros s1 s2 s3 [W1 T1 C1 R1] [W2 T2 C2 R2].
  assert (∀ q, frame_ok s1 q → frame_ok s2 q) as Hok by (intros; by eapply frame_ok_window).
  pose proof (λ q, page_index_window s1 s2 q W1) as Hi.
  split; [by eapply same_window_trans|auto|..]; intros q; [|intros j]; intros Hq Hc Hn;
    destruct (C1 q Hq Hc Hn) as [Hc2 Hn2]; rewrite <-Hi in Hc2.
  - rewrite <-Hi. auto.
  - rewrite R2 by auto. auto.
Qed.

(** Address [x] maps to a frame in use, with the given flags, holding byte [b]. *)
Definition loaded (s : pmm) (root x flags b : Z) : Prop :=
  ∃ f, translate (mem s) root x = Some (mk_pte f flags) ∧ frame_ok s f ∧
    0 < count_at s (page_index s f) ∧ ¬ is_table (mem s) root f ∧
    byte_at (mem s) f (Z.to_nat (x mod PAGE_SIZE)) = b.

Lemma extends_loaded s s' root x flags b :
  extends root s s' → loaded s root x flags b → loaded s' root x flags b.
Proof.
  intros [W T C R] (f & Ht & Hok & Hc & Hn & Hb). destruct (C f Hok Hc Hn) as [Hc' Hn'].
  exists f. split_and!; [auto|by eapply frame_ok_window|by rewrite (page_index_window s)|done|].
  rewrite <-Hb. apply byte_at_ext. auto.
Qed.

Lemma segment_flags_bound ph : 0 ≤ segment_flags ph < 1024.
Proof.
  unfold segment_flags. destruct (negb _), (negb _), (negb _); vm_compute; intuition congruence.
Qed.

(** Translations differ only on pages of addresses satisfying [P]. *)
Definition changes_in (P : Z → Prop) (root : Z) (s s' : pmm) : Prop :=
  ∀ x, translate (mem s') root x ≠ translate (mem s) root x → ∃ a, P a ∧ same_page x a.

Lemma changes_mono (P R : Z → Prop) root s s' :
  changes_in P root s s' → (∀ a, P a → R a) → changes_in R root s s'.
Proof. intros H HR x Hx. destruct (H x Hx) as (a & Ha & Hs). eauto. Qed.

Lemma changes_trans (P Q R : Z → Prop) root s1 s2 s3 :
  changes_in P root s1 s2 → changes_in Q root s2 s3 → (∀ a, P a → R a) → (∀ a, Q a → R a) →
  changes_in R root s1 s3.
Proof.
  intros H1 H2 HP HQ x Hx.
  destruct (decide (translate (mem s2) root x = translate (mem s1) root x)) as [He|He].
  - destruct (H2 x) as (a & Ha & Hs); [congruence|]. eauto.
  - destruct (H1 x He) as (a & Ha & Hs). eauto.
Qed.

(** A frame filled and mapped extends the address space. *)
Lemma fresh_extends s f fl root c s2 path :
  pmm_wf s (f :: fl) → as_wf s root →
  grows (set_mem (<[f := c]> (mem (after_alloc f s))) (after_alloc f s)) s2 root path →
  (length path ≤ 3)%nat →
  (∀ x e, translate (mem s) root x = Some e → translate (mem s2) root x = Some e) →
  extends root s s2.
Proof.
  intros Hp Hwf Hg Hl Ht. set (s1 := set_mem _ _) in *.
  assert (same_window s s1) as Hw by done.
  destruct (wf_free _ _ Hp f) as [Hfok Hf0]; [set_solver|].
  assert (∀ q, frame_ok s q → 0 < count_at s (page_index s q) → frame_ok s1 q ∧ q ≠ f ∧
    count_at s1 (page_index s q) = count_at s (page_index s q)) as Hq.
  { intros q Hq Hc. assert (q ≠ f) as Hne by (intros ->; lia). split_and!; [done|done|].
    change (count_at s1) with (count_at (after_alloc f s)).
    erewrite after_alloc_count by done. by rewrite decide_False. }
  assert (∀ q, ¬ is_table (mem s) root q → ¬ is_table (mem s1) root q) as Htb.
  { intros q. by rewrite (is_table_tables (mem s) (mem s1)) by (intros; by eapply fresh_read). }
  split; [by apply Hg|done|..].
  - intros q Hok Hc Hn. destruct (Hq q Hok Hc) as (Hok1 & Hne & Hc1).
    rewrite <-(page_index_window s s1 q Hw) in Hc1 |- *. split.
    + rewrite (g_count _ _ _ _ Hg) by (done || rewrite Hc1; done). by rewrite Hc1.
    + intros Htab. apply (Htb q Hn). eapply grows_table_back; [done|done| |done]. by rewrite Hc1.
  - intros q j Hok Hc Hn. destruct (Hq q Hok Hc) as (Hok1 & Hne & Hc1).
    rewrite (g_mem _ _ _ _ Hg); [|done|by rewrite (page_index_window s), Hc1|].
    + unfold read_word, s1. by rewrite fresh_frame_ne.
    + intros p Hw' Hpre. apply (Htb q Hn). exists p. split; [|done].
      apply prefix_length in Hpre. rewrite length_app in Hpre. simpl in Hpre. lia.
Qed.

(** What one turn of the page loop achieves. *)
Definition page_post (s : pmm) (fl : list Z) (data : list Z) (root : Z) (ph : program_header)
    (va : Z) (r : outcome unit) (s' : pmm) (fl' : list Z) : Prop :=
  match r with
  | Ok _ => translate (mem s) root va = None ∧
      (∀ x, ¬ same_page x va → translate (mem s') root x = translate (mem s) root x) ∧
      (∀ x, va ≤ x < va + PAGE_SIZE →
         loaded s' root x (segment_flags ph) (image_byte data ph x)) ∧
      (∀ x, huge_at (mem s') root x → huge_at (mem s) root x) ∧
      (length fl' < length fl ≤ length fl' + 3)%nat
  | Err _ => (∀ x, translate (mem s') root x = translate (mem s) root x) ∧
      (translate (mem s) root va ≠ None ∨ huge_at (mem s) root va ∨ (length fl < 3)%nat)
  | Panic _ => False
  end.

Lemma same_page_offset va x :
  va mod PAGE_SIZE = 0 → va ≤ x < va + PAGE_SIZE → same_page x va.
Proof.
  intros Hal Hx. pose proof (page_floor_add va (x - va) Hal ltac:(lia)) as Hf.
  replace (va + (x - va)) with x in Hf by lia. rewrite <-Hf. by rewrite same_page_floor.
Qed.

(** Dropping a frame that was not in use in [s]. *)
Lemma extends_drop s s2 s3 root f :
  extends root s s2 → same_window s s3 → count_at s (page_index s f) = 0 →
  ¬ is_table (mem s2) root f → same_leaves root s2 s3 →
  (∀ q, q ≠ f → frame_at (mem s3) q = frame_at (mem s2) q) →
  (∀ q, frame_ok s2 q → q ≠ f →
     count_at s3 (page_index s2 q) = count_at s2 (page_index s2 q)) →
  extends root s s3.
Proof.
  intros [W T C R] W3 Hf Hnt Hsl Hfr Hcnt.
  assert (∀ q, is_table (mem s3) root q → is_table (mem s2) root q) as Htb.
  { intros q. rewrite (is_table_tables (mem s2) (mem s3)); [done|]. intros t i Ht.
    unfold read_word. rewrite Hfr; [done|]. by intros ->. }
  split; [done| | |].
  - intros x e He. rewrite <-(T x e He). apply Hsl.
  - intros q Hq Hc Hn. destruct (C q Hq Hc Hn) as [Hc2 Hn2].
    assert (q ≠ f) by (intros ->; lia). rewrite <-(page_index_window s s2 q W) in Hc2 |- *.
    rewrite Hcnt by (done || by eapply frame_ok_window). auto.
  - intros q j Hq Hc Hn. rewrite <-R by done. unfold read_word. rewrite Hfr; [done|]. intros ->. lia.
Qed.

Lemma translate_same_page m root x y :
  same_page x y → translate m root x = translate m root y.
Proof. intros (H2 & H1 & H0). unfold translate. by rewrite H2, H1, H0. Qed.

Lemma load_page_spec s fl data root ph va :
  pmm_wf s fl → as_wf s root → ram_ok s → header_ok data ph → Forall is_byte data →
  0 ≤ va → va mod PAGE_SIZE = 0 → p_vaddr ph - va < PAGE_SIZE →
  ∃ r s' fl', load_page data root ph va s = (r, s') ∧ pmm_wf s' fl' ∧ as_wf s' root ∧
    extends root s s' ∧ page_post s fl data root ph va r s' fl'.
Proof.
  intros Hp Hwf Hram Hh Hd Hva Hal Hpo. unfold load_page. destruct fl as [|f fl].
  { exists (Err "Failed to alloc page for ELF"%string), s, [].
    split_and!; [by eapply bind_err, alloc_or_nil|done|done|done|].
    split; [done|]. right. right. simpl. lia. }
  destruct (wf_free _ _ Hp f) as [(Hfal & _ & Hfb) Hf0]; [set_solver|].
  erewrite bind_ok by (by eapply alloc_or_cons). set (s0 := after_alloc f s).
  erewrite bind_ok by reflexivity.
  destruct (copy_page_eq data ph va f (mem s0) (set_mem (<[f := zero_frame]> (mem s0)) s0))
    as (c & E & Hc & Hb); [done..|lia|done|].
  erewrite bind_ok by exact E.
  change (set_mem (<[f := c]> (mem s0)) (set_mem (<[f := zero_frame]> (mem s0)) s0))
    with (set_mem (<[f := c]> (mem s0)) s0).
  destruct (fresh_map s f fl root c Hp Hwf Hram va (segment_flags ph) (segment_flags_bound ph))
    as (r & s2 & fl2 & Em & Hp2 & Hn & Hwf2 & Hg & Hw2 & Hc2 & Hnt2 & Hz & Hr).
  destruct r as [[]|e|]; [..|done].
  - exists (Ok tt), s2, fl2. destruct Hr as [H1 H2].
    split_and!; [by erewrite match_ok by exact Em|done|done| |].
    2: split_and!; [done| | | |simpl; lia|simpl; lia].
    + eapply fresh_extends; [done|done|done|simpl; lia|]. intros x e Hx. rewrite H2.
      case_decide as Hs; [|done]. rewrite (translate_same_page _ _ _ _ Hs) in Hx. congruence.
    + intros x Hs. rewrite H2. by rewrite decide_False.
    + intros x Hx. exists f. rewrite H2, decide_True by (by apply same_page_offset).
      split_and!; [done|by eapply frame_ok_window, (fresh_ok s f fl root c)|..].
      * rewrite (page_index_window s) by done. lia.
      * done.
      * rewrite (byte_at_ext (mem (set_mem (<[f := c]> (mem s0)) s0))) by done.
        unfold byte_at. cbn [mem set_mem]. rewrite frame_at_insert.
        replace x with (va + (x - va)) by lia. rewrite mod_add_aligned by (done || lia).
        unfold PAGE_SIZE in *. rewrite Hb, Z2Nat.id by lia. done.
    + intros x Hx. eapply fresh_huge; [done|done|]. by eapply grows_huge_back.
  - destruct Hr as [H1 H2].
    destruct (fresh_drop _ _ _ _ c Hp Hwf Hram s2 fl2 _ Hg Hp2 Hwf2 H1)
      as (s3 & E3 & Hp3 & Hwf3 & Hw3 & Hsl & Hfr & Hcnt).
    exists (Err e), s3, (f :: fl2).
    split_and!; [|done|done| |split; [intros x; rewrite <-H1; apply Hsl|]].
    + erewrite match_err by exact Em. by erewrite bind_ok by exact E3.
    + eapply (extends_drop s s2); [|done..].
      eapply fresh_extends; [done|done|done|simpl; lia|]. intros x e' Hx. by rewrite H1.
    + destruct H2 as [H2|[H2|[H2 _]]]; [by left|right; by left|right; right; simpl; lia].
Qed.

(** ** The page loop *)

(** The build checks overflow, or the addresses up to [end_va] leave room for
    another page. *)
Definition no_wrap (s : pmm) (end_va : Z) : Prop :=
  debug_assertions s = true ∨ end_va + PAGE_SIZE ≤ 2 ^ 64.

Lemma usize_add_cases a b s :
  usize_add a b s = (Ok (a + b), s) ∧ a + b ≤ usize_max ∨
  usize_add a b s = (Panic "attempt to add with overflow", s) ∧ debug_assertions s = true ∨
  debug_assertions s = false ∧ usize_max < a + b.
Proof.
  unfold usize_add. destruct (Z.leb_spec (a + b) usize_max); [by left|right].
  destruct (debug_assertions s); [by left|by right].
Qed.

Definition overflow_panic {A} (s : pmm) (r : outcome A) : Prop :=
  debug_assertions s = true ∧
  (r = Panic "attempt to add with overflow" ∨ r = Panic "attempt to subtract with overflow").

Section pages.
Context (data : list Z) (root : Z) (ph : program_header).
Hypothesis Hh : header_ok data ph.
Hypothesis Hd : Forall is_byte data.

(** What loading addresses [va .. end_va] achieves. *)
Definition pages_post (s : pmm) (fl : list Z) (va end_va : Z) (r : outcome unit)
    (s' : pmm) (fl' : list Z) : Prop :=
  match r with
  | Ok _ => (∀ x, va ≤ x < end_va → loaded s' root x (segment_flags ph) (image_byte data ph x)) ∧
      (length fl' ≤ length fl)%nat
  | Err _ => True
  | Panic _ => overflow_panic s r
  end.

Lemma load_pages_spec fuel s fl va end_va :
  (length fl < fuel)%nat → pmm_wf s fl → as_wf s root → ram_ok s →
  0 ≤ va → va mod PAGE_SIZE = 0 → p_vaddr ph - va < PAGE_SIZE → no_wrap s end_va →
  ∃ r s' fl', load_pages fuel data root ph va end_va s = (r, s') ∧ pmm_wf s' fl' ∧ as_wf s' root ∧
    extends root s s' ∧ changes_in (λ a, va ≤ a < end_va) root s s' ∧
    pages_post s fl va end_va r s' fl'.
Proof.
  revert s fl va. induction fuel as [|fuel IH]; intros s fl va Hfuel Hp Hwf Hram Hva Hal Hpo Hnw; [lia|].
  cbn [load_pages]. destruct (Z.ltb_spec va end_va) as [Hlt|Hge].
  2:{ exists (Ok tt), s, fl. split_and!; [done|done|done|done|by intros x|]. split; [lia|done]. }
  destruct (load_page_spec s fl data root ph va) as (r & s1 & fl1 & E & Hp1 & Hwf1 & Hx1 & Hr); [done..|].
  pose proof (x_window _ _ _ Hx1) as Hw1.
  destruct r as [[]|e|]; [|..|done].
  2:{ exists (Err e), s1, fl1. destruct Hr as [Hr _].
      split_and!; [by eapply bind_err|done|done|done|by intros x; rewrite Hr|done]. }
  destruct Hr as (_ & Hrest & Hpage & _ & Hn). erewrite bind_ok by exact E.
  assert (changes_in (λ a, va ≤ a < end_va) root s s1) as Hch.
  { intros x Hx. exists va. split; [lia|]. destruct (decide (same_page x va)); [done|].
    by destruct Hx; apply Hrest. }
  destruct (usize_add_cases va PAGE_SIZE s1) as [[Ea Hmax]|[[Ea Hdbg]|[Hdbg Hmax]]].
  - erewrite bind_ok by exact Ea.
    destruct (IH s1 fl1 (va + PAGE_SIZE)) as (r & s2 & fl2 & E2 & Hp2 & Hwf2 & Hx2 & Hch2 & Hr);
      [lia|done|done|by eapply ram_ok_window|unfold PAGE_SIZE; lia| | unfold PAGE_SIZE in *; lia| |].
    { unfold PAGE_SIZE in *. rewrite Z.add_mod, Hal by lia. done. }
    { unfold no_wrap in *. by destruct Hw1 as (_ & _ & ->). }
    exists r, s2, fl2. split_and!; [done|done|done|by etrans| |].
    + eapply changes_trans; [done..|]. unfold PAGE_SIZE. lia.
    + destruct r as [[]|e|e]; [|done|].
      * destruct Hr as [Hall Hn2]. split; [|lia]. intros x Hx.
        destruct (decide (x < va + PAGE_SIZE)); [|apply Hall; lia].
        eapply extends_loaded; [done|]. apply Hpage. lia.
      * unfold pages_post, overflow_panic in *. by destruct Hw1 as (_ & _ & <-).
  - eexists _, s1, fl1. split_and!; [by unfold mbind, M_bind; rewrite Ea|done..|].
    split; [by destruct Hw1 as (_ & _ & <-)|by left].
  - destruct Hnw as [Hdb|Hnw]; [destruct Hw1 as (_ & _ & Hw1); congruence|].
    unfold usize_max in *. lia.
Qed.
End pages.

(** ** Segments *)

(** Unsigned fields. *)
Definition in_range (ph : program_header) : Prop :=
  0 ≤ p_offset ph ∧ 0 ≤ p_vaddr ph ≤ usize_max ∧ 0 ≤ p_memsz ph ∧ 0 ≤ p_filesz ph.

(** The whole segment is in memory, with its permissions. *)
Definition segment_loaded (s : pmm) (root : Z) (data : list Z) (ph : program_header) : Prop :=
  ∀ x, p_vaddr ph ≤ x < p_vaddr ph + p_memsz ph →
    loaded s root x (segment_flags ph) (image_byte data ph x).

(** The pages a segment occupies. *)
Definition in_segment (ph : program_header) (a : Z) : Prop :=
  p_memsz ph ≠ 0 ∧ page_floor (p_vaddr ph) ≤ a < p_vaddr ph + p_memsz ph.

Lemma page_floor_bounds x :
  0 ≤ x → 0 ≤ page_floor x ≤ x ∧ x - page_floor x < PAGE_SIZE ∧ page_floor x mod PAGE_SIZE = 0.
Proof.
  intros Hx. rewrite page_floor_eq. unfold PAGE_SIZE. split; [|split].
  1,2: Z.div_mod_to_equations; lia. apply Z.mod_mul. lia.
Qed.

(** The checks of a segment, before its pages are loaded. *)
Definition segment_checked (data : list Z) (ph : program_header) : Prop :=
  p_vaddr ph + p_memsz ph ≤ usize_max ∧
  (0 < p_filesz ph → p_offset ph + p_filesz ph ≤ usize_max ∧
     p_offset ph + p_filesz ph ≤ Z.of_nat (length data)).

Lemma load_segment_eq fuel data root ph s :
  (∃ e, load_segment fuel data root ph s = (Err e, s)) ∧ ¬ segment_checked data ph ∨
  segment_checked data ph ∧
  load_segment fuel data root ph s =
    if p_memsz ph =? 0 then (Ok tt, s)
    else load_pages fuel data root ph (page_floor (p_vaddr ph)) (p_vaddr ph + p_memsz ph) s.
Proof.
  unfold load_segment, segment_checked, checked_add.
  destruct (Z.leb_spec (p_vaddr ph + p_memsz ph) usize_max) as [H1|H1].
  2:{ left. split; [eexists; by eapply bind_err|lia]. }
  erewrite bind_ok by reflexivity. destruct (Z.ltb_spec 0 (p_filesz ph)) as [H2|H2].
  2:{ right. split; [lia|]. erewrite bind_ok by reflexivity. by destruct (_ =? 0). }
  destruct (Z.leb_spec (p_offset ph + p_filesz ph) usize_max) as [H3|H3].
  2:{ left. split; [eexists; by eapply bind_err, bind_err|lia]. }
  destruct (Z.ltb_spec (Z.of_nat (length data)) (p_offset ph + p_filesz ph)) as [H4|H4].
  - left. split; [eexists; eapply bind_err; erewrite bind_ok by reflexivity|lia].
    by rewrite (proj2 (Z.ltb_lt _ _) H4).
  - right. split; [lia|]. erewrite bind_ok.
    2:{ erewrite bind_ok by reflexivity. by rewrite (proj2 (Z.ltb_ge _ _) H4). }
    by destruct (_ =? 0).
Qed.

Lemma load_segment_spec fuel data root ph s fl :
  in_range ph → Forall is_byte data →
  (length fl < fuel)%nat → pmm_wf s fl → as_wf s root → ram_ok s →
  no_wrap s (p_vaddr ph + p_memsz ph) →
  ∃ r s' fl', load_segment fuel data root ph s = (r, s') ∧ pmm_wf s' fl' ∧ as_wf s' root ∧
    extends root s s' ∧ changes_in (in_segment ph) root s s' ∧
    match r with
    | Ok _ => segment_checked data ph ∧ segment_loaded s' root data ph ∧ (length fl' ≤ length fl)%nat
    | Err _ => True
    | Panic _ => overflow_panic s r
    end.
Proof.
  intros (R1 & R2 & R3 & R4) Hd Hfuel Hp Hwf Hram Hnw.
  destruct (load_segment_eq fuel data root ph s) as [[(e & E) _]|[Hck E]].
  { exists (Err e), s, fl. split_and!; [done|done|done|done|by intros x|done]. }
  destruct (Z.eqb_spec (p_memsz ph) 0) as [Hz|Hz].
  { exists (Ok tt), s, fl. split_and!; [done|done|done|done|by intros x|done| |lia].
    intros x Hx. lia. }
  destruct (page_floor_bounds (p_vaddr ph)) as (F1 & F2 & F3); [lia|].
  assert (header_ok data ph) as Hh by (split; [lia..|apply Hck]).
  destruct (load_pages_spec data root ph Hh Hd fuel s fl (page_floor (p_vaddr ph))
    (p_vaddr ph + p_memsz ph)) as (r & s' & fl' & E' & Hp' & Hwf' & Hx & Hch & Hr); [done..|lia|done|done|done|].
  exists r, s', fl'. split_and!; [by rewrite E|done|done|done| |].
  - intros x Hx'. destruct (Hch x Hx') as (a & Ha & Hs). by exists a.
  - destruct r as [[]|e|e]; [|done|done]. destruct Hr as [Hr Hn]. split_and!; [done| |done].
    intros x Hx'. apply Hr. lia.
Qed.

(** ** The program headers *)

Definition is_load (ph : program_header) : Prop := p_type ph = PT_LOAD.

(** The segment address and offset the loader derives AT_PHDR from. *)
Definition lowest_load (phs : list program_header) (acc : option (Z * Z)) : option (Z * Z) :=
  fold_left (λ acc ph, if p_type ph =? PT_LOAD then first_load acc ph else acc) phs acc.

Definition headers_in_range (s : pmm) (phs : list program_header) : Prop :=
  ∀ ph, ph ∈ phs → is_load ph → in_range ph ∧ no_wrap s (p_vaddr ph + p_memsz ph).

Lemma load_headers_spec fuel data root phs : ∀ acc s fl,
  Forall is_byte data → headers_in_range s phs →
  (length fl < fuel)%nat → pmm_wf s fl → as_wf s root → ram_ok s →
  ∃ r s' fl', load_headers fuel data root phs acc s = (r, s') ∧ pmm_wf s' fl' ∧ as_wf s' root ∧
    extends root s s' ∧
    changes_in (λ a, ∃ ph, ph ∈ phs ∧ is_load ph ∧ in_segment ph a) root s s' ∧
    match r with
    | Ok first => first = lowest_load phs acc ∧
        ∀ ph, ph ∈ phs → is_load ph → segment_checked data ph ∧ segment_loaded s' root data ph
    | Err _ => True
    | Panic _ => overflow_panic s r
    end.
Proof.
  induction phs as [|ph phs IH]; intros acc s fl Hd Hrg Hfuel Hp Hwf Hram.
  { exists (Ok acc), s, fl. split_and!; [done|done|done|done|by intros x|done|]. set_solver. }
  cbn [load_headers lowest_load fold_left]. destruct (Z.eqb_spec (p_type ph) PT_LOAD) as [Ht|Ht].
  2:{ destruct (IH acc s fl) as (r & s' & fl' & E & Hp' & Hwf' & Hx & Hch & Hr); [done| |done..|].
      { intros ph' Hin. apply Hrg. set_solver. }
      exists r, s', fl'. split_and!; [done|done|done|done| |].
      - eapply changes_mono; [done|set_solver].
      - destruct r as [first|e|e]; [|done|done]. destruct Hr as [Hf Hr]. split; [done|].
        intros ph' [->|Hin]%elem_of_cons; [done|auto]. }
  destruct (Hrg ph ltac:(set_solver) Ht) as [Hir Hnw].
  destruct (load_segment_spec fuel data root ph s fl) as (r & s1 & fl1 & E & Hp1 & Hwf1 & Hx1 & Hch1 & Hr);
    [done..|].
  assert (∀ a, in_segment ph a → ∃ ph', ph' ∈ ph :: phs ∧ is_load ph' ∧ in_segment ph' a) as Hin
    by (intros a Ha; exists ph; set_solver).
  destruct r as [[]|e|e].
  2,3: eexists _, s1, fl1; split_and!; [by unfold mbind, M_bind; rewrite E|done|done|done|
    by eapply changes_mono|try done].
  2:{ destruct Hr as [H1 H2]. split; [done|]. destruct H2 as [[= ->]|[= ->]]; [by left|by right]. }
  destruct Hr as (Hck & Hl & Hn). erewrite bind_ok by exact E.
  pose proof (x_window _ _ _ Hx1) as Hw1.
  destruct (IH (first_load acc ph) s1 fl1) as (r & s' & fl' & E' & Hp' & Hwf' & Hx & Hch & Hr);
    [done| |lia|done|done|by eapply ram_ok_window|].
  { intros ph' Hin' Hld. destruct (Hrg ph' ltac:(set_solver) Hld). split; [done|].
    unfold no_wrap in *. by destruct Hw1 as (_ & _ & ->). }
  exists r, s', fl'. split_and!; [done|done|done|by etrans| |].
  - eapply changes_trans; [done|done|done|]. set_solver.
  - destruct r as [first|e|e]; [|done|].
    + destruct Hr as [Hf Hr]. split; [done|]. intros ph' [->|Hin']%elem_of_cons Hld; [|auto].
      split; [done|]. intros x Hx'. eapply extends_loaded; [done|]. by apply Hl.
    + unfold overflow_panic in *. by destruct Hw1 as (_ & _ & <-).
Qed.

(** ** Whole files *)

Lemma field_bounds data off n : Forall is_byte data → 0 ≤ field data off n < 256 ^ Z.of_nat n.
Proof.
  intros Hd. unfold field.
  assert (Forall is_byte (slice data (Z.to_nat off) n)) as Hs by (by apply Forall_take, Forall_drop).
  destruct (of_le_nonneg _ Hs) as [H1 H2]. split; [done|]. eapply Z.lt_le_trans; [done|].
  apply Z.pow_le_mono_r; [lia|]. unfold slice. rewrite length_take. lia.
Qed.

Lemma program_header_in_range data at_ :
  Forall is_byte data → in_range (read_program_header data at_).
Proof.
  intros Hd. split_and!; try apply field_bounds, Hd.
  pose proof (field_bounds data (at_ + 16) 8 Hd). change (256 ^ Z.of_nat 8) with (2 ^ 64) in *.
  cbn [p_vaddr read_program_header]. unfold usize_max. lia.
Qed.

(** The checks on the file header. *)
Definition header_checked (data : list Z) : Prop :=
  let h := read_elf_header data in
  let ph_end := e_phoff h + e_phnum h * e_phentsize h in
  sizeof_elf_header ≤ Z.of_nat (length data) ∧ take 4 (ident h) = elf_magic ∧
  sizeof_program_header ≤ e_phentsize h ∧ ph_end ≤ usize_max ∧ ph_end ≤ Z.of_nat (length data).

(** What is returned once the segments are in place. *)
Definition load_result (h : elf_header) (first : option (Z * Z)) : M pmm elf_load_info :=
  match first with
  | Some (lva, loff) =>
      a ← usize_add lva (e_phoff h);
      va ← usize_sub a loff;
      mret (mkElfLoadInfo (e_entry h) va (e_phnum h) (e_phentsize h))
  | None => fail "no PT_LOAD segment found"
  end.

Lemma load_elf_eq fuel data root s :
  Forall is_byte data →
  (∃ e, load_elf fuel data root s = (Err e, s)) ∧ ¬ header_checked data ∨
  header_checked data ∧
  load_elf fuel data root s =
    (first ← load_headers fuel data root (program_headers data (read_elf_header data)) None;
     load_result (read_elf_header data) first) s.
Proof.
  intros Hd. unfold load_elf, header_checked, checked_add. set (h := read_elf_header data).
  pose proof (field_bounds data 32 8 Hd) as Hb. change (field data 32 8) with (e_phoff h) in Hb.
  destruct (Z.ltb_spec (Z.of_nat (length data)) sizeof_elf_header); [left; split; [by eexists|lia]|].
  case_bool_decide; cbn [negb]; [|left; split; [by eexists|naive_solver]].
  destruct (Z.ltb_spec (e_phentsize h) sizeof_program_header); [left; split; [by eexists|lia]|].
  destruct (Z.ltb_spec usize_max (e_phnum h * e_phentsize h)); [left; split; [by eexists|lia]|].
  destruct (Z.leb_spec (e_phoff h + e_phnum h * e_phentsize h) usize_max).
  2:{ left. split; [eexists; by eapply bind_err|lia]. }
  erewrite bind_ok by reflexivity.
  destruct (Z.ltb_spec (Z.of_nat (length data)) (e_phoff h + e_phnum h * e_phentsize h));
    [left; split; [by eexists|lia]|].
  right. split; [|done]. split_and!; done || lia.
Qed.

Lemma load_result_cases h first s :
  ∃ r, load_result h first s = (r, s) ∧
    match r with
    | Ok info => ∃ va, info = mkElfLoadInfo (e_entry h) va (e_phnum h) (e_phentsize h)
    | Err _ => True
    | Panic _ => overflow_panic s r
    end.
Proof.
  unfold load_result, overflow_panic. destruct first as [[lva loff]|]; [|by eexists].
  unfold usize_add, usize_sub, mbind, M_bind.
  destruct (_ <=? usize_max), (debug_assertions s) eqn:Hdb;
    try destruct (_ <=? _); cbn; rewrite ?Hdb; eexists; (split; [reflexivity|]); cbn; eauto.
Qed.

(** The addresses the file asks to be loaded. *)
Definition in_image (data : list Z) (a : Z) : Prop :=
  ∃ ph, ph ∈ program_headers data (read_elf_header data) ∧ is_load ph ∧ in_segment ph a.

Definition image_loaded (s : pmm) (root : Z) (data : list Z) : Prop :=
  ∀ ph, ph ∈ program_headers data (read_elf_header data) → is_load ph →
    segment_checked data ph ∧ segment_loaded s root data ph.

Definition segments_no_wrap (s : pmm) (data : list Z) : Prop :=
  ∀ ph, ph ∈ program_headers data (read_elf_header data) → is_load ph →
    no_wrap s (p_vaddr ph + p_memsz ph).

Lemma load_elf_spec fuel data root s fl :
  Forall is_byte data → segments_no_wrap s data →
  (length fl < fuel)%nat → pmm_wf s fl → as_wf s root → ram_ok s →
  ∃ r s' fl', load_elf fuel data root s = (r, s') ∧ pmm_wf s' fl' ∧ as_wf s' root ∧
    extends root s s' ∧ changes_in (in_image data) root s s' ∧
    match r with
    | Ok info => header_checked data ∧ image_loaded s' root data ∧
        entry info = e_entry (read_elf_header data)
    | Err _ => True
    | Panic _ => overflow_panic s r
    end.
Proof.
  intros Hd Hnw Hfuel Hp Hwf Hram.
  destruct (load_elf_eq fuel data root s Hd) as [[(e & E) _]|[Hck E]].
  { exists (Err e), s, fl. split_and!; [done|done|done|done|by intros x|done]. }
  destruct (load_headers_spec fuel data root (program_headers data (read_elf_header data)) None s fl)
    as (r & s' & fl' & E' & Hp' & Hwf' & Hx & Hch & Hr); [done| |done..|].
  { intros ph Hin Hld. split; [|auto]. apply list_elem_of_fmap in Hin as (i & -> & _).
    by apply program_header_in_range. }
  destruct r as [first|e|e].
  - destruct (load_result_cases (read_elf_header data) first s') as (r & Er & Hres).
    exists r, s', fl'. rewrite E. erewrite bind_ok by exact E'.
    split_and!; [done|done|done|done|done|]. destruct r as [info|e|e]; [|done|].
    + destruct Hres as [va ->]. split_and!; [done|exact (proj2 Hr)|done].
    + destruct Hres as [Hdb Hres]. split; [|done]. by destruct (x_window _ _ _ Hx) as (_ & _ & <-).
  - eexists _, s', fl'. rewrite E. split_and!; [by eapply bind_err|done..].
  - eexists _, s', fl'. rewrite E. split_and!; [by unfold mbind, M_bind; rewrite E'|done..|].
    destruct Hr as [H1 H2]. split; [done|]. destruct H2 as [[= ->]|[= ->]]; [by left|by right].
Qed.

(** ** A loadable image is loaded *)

Fixpoint page_list (va : Z) (n : nat) : list Z :=
  match n with
  | O => []
  | S n' => va :: page_list (va + PAGE_SIZE) n'
  end.

(** The pages of a segment, and of a list of program headers. *)
Definition segment_pages (ph : program_header) : list Z :=
  if p_memsz ph =? 0 then []
  else let va := page_floor (p_vaddr ph) in
    page_list va (Z.to_nat ((p_vaddr ph + p_memsz ph - va + (PAGE_SIZE - 1)) / PAGE_SIZE)).

Definition image_pages (phs : list program_header) : list Z :=
  phs ≫= λ ph, if p_type ph =? PT_LOAD then segment_pages ph else [].

Definition page_key (va : Z) : nat * nat * nat := (vpn 2 va, vpn 1 va, vpn 0 va).

(** There are frames for the pages [ps] and their tables, no two of them are the
    same page, and none is mapped yet or lies under a huge leaf. *)
Definition ready (root : Z) (s : pmm) (fl : list Z) (ps : list Z) : Prop :=
  (3 * length ps ≤ length fl)%nat ∧ NoDup (page_key <$> ps) ∧
  Forall (λ p, translate (mem s) root p = None ∧ ¬ huge_at (mem s) root p) ps.

Lemma same_page_key x y : same_page x y ↔ page_key x = page_key y.
Proof.
  unfold same_page, page_key. split.
  - intros (H2 & H1 & H0). by rewrite H2, H1, H0.
  - by intros [= H2 H1 H0].
Qed.

Section success.
Context (data : list Z) (root : Z).
Hypothesis Hd : Forall is_byte data.

(** Allocator and address space in order, and ready for [ps]. *)
Definition going (s : pmm) (fl ps : list Z) : Prop :=
  pmm_wf s fl ∧ as_wf s root ∧ ram_ok s ∧ ready root s fl ps.

Lemma load_page_ok s fl ph va ps :
  header_ok data ph → 0 ≤ va → va mod PAGE_SIZE = 0 → p_vaddr ph - va < PAGE_SIZE →
  going s fl (va :: ps) →
  ∃ s' fl', load_page data root ph va s = (Ok tt, s') ∧ going s' fl' ps ∧
    (length fl' < length fl)%nat.
Proof.
  intros Hh Hva Hal Hpo (Hp & Hwf & Hram & Hn & Hnd & Hf).
  destruct (load_page_spec s fl data root ph va) as (r & s' & fl' & E & Hp' & Hwf' & Hx & Hr); [done..|].
  rewrite fmap_cons in Hnd. apply NoDup_cons in Hnd as [Hnin Hnd].
  apply Forall_cons in Hf as [[Hf1 Hf2] Hf]. cbn [length] in Hn.
  destruct r as [[]|e|]; [|destruct Hr as [_ [?|[?|?]]]; [done|done|lia]|done].
  destruct Hr as (_ & Hrest & _ & Hhuge & Hlen). exists s', fl'. split; [done|split; [|lia]].
  split_and!; [done|done|eapply ram_ok_window; [apply Hx|done]|]. split_and!; [lia|done|].
  - apply Forall_forall. intros p Hin. destruct (proj1 (Forall_forall _ _) Hf p Hin) as [H1 H2].
    split; [|naive_solver]. rewrite Hrest; [done|]. rewrite same_page_key. intros Heq.
    apply Hnin. rewrite <-Heq. by apply list_elem_of_fmap_2.
Qed.

Lemma load_pages_ok ph end_va n : ∀ fuel s fl va ps,
  header_ok data ph → 0 ≤ va → va mod PAGE_SIZE = 0 → p_vaddr ph - va < PAGE_SIZE →
  end_va ≤ va + PAGE_SIZE * Z.of_nat n → va + PAGE_SIZE * Z.of_nat n < end_va + PAGE_SIZE →
  end_va + PAGE_SIZE ≤ 2 ^ 64 → (length fl < fuel)%nat → going s fl (page_list va n ++ ps) →
  ∃ s' fl', load_pages fuel data root ph va end_va s = (Ok tt, s') ∧ going s' fl' ps ∧
    (length fl' ≤ length fl)%nat.
Proof.
  unfold PAGE_SIZE. induction n as [|n IH]; intros [|fuel] s fl va ps Hh Hva Hal Hpo He1 He2 Hmax Hfuel Hgo;
    [lia| |lia|]; cbn [load_pages].
  - destruct (Z.ltb_spec va end_va); [lia|]. by exists s, fl.
  - destruct (Z.ltb_spec va end_va); [|lia].
    destruct (load_page_ok s fl ph va (page_list (va + PAGE_SIZE) n ++ ps)) as (s1 & fl1 & E & Hgo1 & Hn);
      [done..|]. erewrite bind_ok by exact E.
    erewrite bind_ok by (apply usize_add_eq; unfold usize_max, PAGE_SIZE; lia).
    destruct (IH fuel s1 fl1 (va + PAGE_SIZE) ps) as (s2 & fl2 & E2 & Hgo2 & Hn2);
      unfold PAGE_SIZE in *; [done|lia| |lia|lia|lia|lia|lia|done|].
    { by rewrite Z.add_mod, Hal by lia. }
    exists s2, fl2. split_and!; [done..|lia].
Qed.

(** The segment passes the checks and ends below the last page. *)
Definition segment_fits (ph : program_header) : Prop :=
  in_range ph ∧ segment_checked data ph ∧ p_vaddr ph + p_memsz ph + PAGE_SIZE ≤ 2 ^ 64.

Lemma load_segment_ok ph fuel s fl ps :
  segment_fits ph → (length fl < fuel)%nat → going s fl (segment_pages ph ++ ps) →
  ∃ s' fl', load_segment fuel data root ph s = (Ok tt, s') ∧ going s' fl' ps ∧
    (length fl' ≤ length fl)%nat.
Proof.
  intros ((R1 & R2 & R3 & R4) & Hck & Hmax) Hfuel Hgo.
  destruct (load_segment_eq fuel data root ph s) as [[_ Hn]|[_ ->]]; [done|].
  unfold segment_pages in Hgo. destruct (Z.eqb_spec (p_memsz ph) 0); [by exists s, fl|].
  destruct (page_floor_bounds (p_vaddr ph)) as (F1 & F2 & F3); [lia|].
  eapply load_pages_ok; [|lia|done|done| | |done|done|exact Hgo]; [by split; [lia..|apply Hck]|..];
    unfold PAGE_SIZE in *; rewrite Z2Nat.id by (apply Z.div_pos; lia);
    Z.div_mod_to_equations; lia.
Qed.

Lemma load_headers_ok phs : ∀ fuel acc s fl,
  (∀ ph, ph ∈ phs → is_load ph → segment_fits ph) → (length fl < fuel)%nat →
  going s fl (image_pages phs) →
  ∃ s' fl', load_headers fuel data root phs acc s = (Ok (lowest_load phs acc), s') ∧ going s' fl' [].
Proof.
  induction phs as [|ph phs IH]; intros fuel acc s fl Hfits Hfuel Hgo; [by exists s, fl|].
  cbn [load_headers lowest_load fold_left]. unfold image_pages in Hgo. rewrite bind_cons in Hgo.
  destruct (Z.eqb_spec (p_type ph) PT_LOAD) as [Ht|Ht].
  - destruct (load_segment_ok ph fuel s fl _ (Hfits ph ltac:(set_solver) Ht) Hfuel Hgo)
      as (s1 & fl1 & E & Hgo1 & Hn). erewrite bind_ok by exact E.
    apply IH with fl1; [set_solver|lia|done].
  - apply IH with fl; [set_solver|done|done].
Qed.
End success.

(** [lowest_load] is the [PT_LOAD] header of least address. *)
Lemma lowest_load_spec phs : ∀ acc,
  match lowest_load phs acc with
  | Some (va, off) =>
      ((∃ ph, ph ∈ phs ∧ is_load ph ∧ va = p_vaddr ph ∧ off = p_offset ph) ∨ acc = Some (va, off)) ∧
      (∀ ph, ph ∈ phs → is_load ph → va ≤ p_vaddr ph) ∧
      (∀ va' off', acc = Some (va', off') → va ≤ va')
  | None => acc = None ∧ ∀ ph, ph ∈ phs → ¬ is_load ph
  end.
Proof.
  induction phs as [|ph phs IH]; intros acc.
  { cbn. destruct acc as [[va off]|]; [|set_solver].
    split_and!; [by right|set_solver|]. intros ?? [= -> ->]. lia. }
  cbn [lowest_load fold_left]. destruct (Z.eqb_spec (p_type ph) PT_LOAD) as [Ht|Ht].
  - specialize (IH (first_load acc ph)). fold (lowest_load phs (first_load acc ph)).
    destruct (lowest_load phs (first_load acc ph)) as [[va off]|].
    2:{ destruct IH as [IH _]. unfold first_load in IH. destruct acc as [[? ?]|]; [|done].
        by destruct (_ <? _). }
    destruct IH as (H1 & H2 & H3).
    assert (∀ v o, first_load acc ph = Some (v, o) → v ≤ p_vaddr ph ∧
      (∀ v' o', acc = Some (v', o') → v ≤ v') ∧
      (v = p_vaddr ph ∧ o = p_offset ph ∨ acc = Some (v, o))) as Hf.
    { unfold first_load. destruct acc as [[v' o']|]; [|naive_solver lia].
      destruct (Z.ltb_spec (p_vaddr ph) v'); naive_solver lia. }
    destruct (first_load acc ph) as [[v o]|] eqn:Ef.
    2:{ unfold first_load in Ef. destruct acc as [[? ?]|]; [|done]. by destruct (_ <? _). }
    destruct (Hf v o eq_refl) as (F1 & F2 & F3). pose proof (H3 v o eq_refl) as F4. split_and!.
    + destruct H1 as [(ph' & ? & ?)|[= -> ->]]; [left; exists ph'; set_solver|].
      destruct F3 as [[-> ->]|F3]; [left; exists ph; set_solver|by right].
    + intros ph' [->|Hin]%elem_of_cons Hl; [lia|auto].
    + intros v' o' Ha. specialize (F2 v' o' Ha). lia.
  - specialize (IH acc). fold (lowest_load phs acc).
    destruct (lowest_load phs acc) as [[va off]|].
    + destruct IH as (H1 & H2 & H3). split_and!; [|set_solver|done].
      destruct H1 as [(ph' & ? & ?)|?]; [left; exists ph'; set_solver|by right].
    + destruct IH as [H1 H2]. split; [done|]. set_solver.
Qed.

(** A file [load_elf] must accept: its checks hold, some segment is loadable, no
    address wraps, and there is room for its pages, which are distinct and unmapped. *)
Definition loadable (root : Z) (s : pmm) (fl data : list Z) : Prop :=
  let h := read_elf_header data in
  let phs := program_headers data h in
  header_checked data ∧ Exists is_load phs ∧
  Forall (λ ph, is_load ph → segment_fits data ph ∧
    p_offset ph ≤ p_vaddr ph + e_phoff h ≤ usize_max) phs ∧
  ready root s fl (image_pages phs).

Lemma load_elf_ok fuel data root s fl :
  Forall is_byte data → loadable root s fl data →
  (length fl < fuel)%nat → pmm_wf s fl → as_wf s root → ram_ok s →
  ∃ info s', load_elf fuel data root s = (Ok info, s') ∧
    ∃ ph, ph ∈ program_headers data (read_elf_header data) ∧ is_load ph ∧
      (∀ ph', ph' ∈ program_headers data (read_elf_header data) → is_load ph' →
         p_vaddr ph ≤ p_vaddr ph') ∧
      phdr_va info = p_vaddr ph + e_phoff (read_elf_header data) - p_offset ph.
Proof.
  intros Hd (Hck & Hex & Hall & Hrd) Hfuel Hp Hwf Hram. rewrite Forall_forall in Hall.
  destruct (load_elf_eq fuel data root s Hd) as [[_ Hn]|[_ ->]]; [done|].
  set (h := read_elf_header data) in *. set (phs := program_headers data h) in *.
  destruct (load_headers_ok data root Hd phs fuel None s fl) as (s' & fl' & E & _);
    [by intros ph Hin Hl; apply Hall|done|by split_and!|].
  pose proof (lowest_load_spec phs None) as Hlow. erewrite bind_ok by exact E.
  destruct (lowest_load phs None) as [[va off]|].
  2:{ destruct Hlow as [_ Hlow]. apply Exists_exists in Hex as (ph & Hin & Hl). by destruct (Hlow ph Hin). }
  destruct Hlow as ([(ph & Hin & Hl & -> & ->)|?] & Hmin & _); [|done].
  destruct (Hall ph Hin Hl) as (_ & H1 & H2). unfold load_result.
  erewrite bind_ok by (by apply usize_add_eq). erewrite bind_ok by (by apply usize_sub_eq).
  eexists _, s'. split; [reflexivity|]. by exists ph.
Qed.

(** ** Properties of the loader *)

(** C11: A loadable ELF file is loaded completely and exactly.  [load_elf] succeeds;
    every address of every PT_LOAD segment is then mapped for user mode with the
    segment's permissions to a frame in use that is no page table, and the byte there
    is the file's byte, or zero beyond the file-backed part; only pages of the image
    have changed their translation; allocator and address space stay well formed;
    the entry point is the header's and AT_PHDR is the address of the program header
    table relative to the lowest segment. *)
Theorem load_elf_image fuel data root s fl :
  Forall is_byte data → loadable root s fl data →
  (length fl < fuel)%nat → pmm_wf s fl → as_wf s root → ram_ok s →
  ∃ info s' fl', load_elf fuel data root s = (Ok info, s') ∧ pmm_wf s' fl' ∧ as_wf s' root ∧
    image_loaded s' root data ∧ changes_in (in_image data) root s s' ∧
    entry info = e_entry (read_elf_header data) ∧
    ∃ ph, ph ∈ program_headers data (read_elf_header data) ∧ is_load ph ∧
      (∀ ph', ph' ∈ program_headers data (read_elf_header data) → is_load ph' →
         p_vaddr ph ≤ p_vaddr ph') ∧
      phdr_va info = p_vaddr ph + e_phoff (read_elf_header data) - p_offset ph.
Proof.
  intros Hd Hl Hfuel Hp Hwf Hram.
  destruct (load_elf_ok fuel data root s fl) as (info & s' & E & Hph); [done..|].
  destruct (load_elf_spec fuel data root s fl) as (r & s1 & fl' & E1 & Hp' & Hwf' & Hx & Hch & Hr);
    [done| |done..|].
  { destruct Hl as (_ & _ & Hall & _). rewrite Forall_forall in Hall. intros ph Hin Hld. right.
    by apply (Hall ph Hin Hld). }
  rewrite E in E1. injection E1 as <- <-. destruct Hr as (_ & Him & Hent).
  by exists info, s', fl'.
Qed.

(** C13: Loading is safe for every file.  Whatever the bytes, [load_elf] returns or,
    in a build with overflow checks only, panics on an arithmetic overflow; it always
    leaves allocator and address space well formed, keeps every mapping the address
    space had and the contents and ownership of every data frame in use, and changes
    translations only on pages of PT_LOAD segments.  If it reports success, all the
    checks held and the whole image is in memory.  In a build without overflow checks
    this needs every segment to end below the last page. *)
Theorem load_elf_safe fuel data root s fl :
  Forall is_byte data → segments_no_wrap s data →
  (length fl < fuel)%nat → pmm_wf s fl → as_wf s root → ram_ok s →
  ∃ r s' fl', load_elf fuel data root s = (r, s') ∧ pmm_wf s' fl' ∧ as_wf s' root ∧
    extends root s s' ∧ changes_in (in_image data) root s s' ∧
    match r with
    | Ok info => header_checked data ∧ image_loaded s' root data ∧
        entry info = e_entry (read_elf_header data)
    | Err _ => True
    | Panic _ => overflow_panic s r
    end.
Proof. apply load_elf_spec. Qed.

(** ** Concrete files *)

(** A file with one PT_LOAD segment, read and execute, that maps the whole file. *)
Definition one_segment (vaddr memsz : Z) (code : list Z) : list Z :=
  elf_magic ++ [2; 1; 1] ++ replicate 9 0 ++ le_bytes 2 2 ++ le_bytes 2 243 ++ le_bytes 4 1 ++
  le_bytes 8 (vaddr + 120) ++ le_bytes 8 64 ++ le_bytes 8 0 ++ le_bytes 4 0 ++ le_bytes 2 64 ++
  le_bytes 2 56 ++ le_bytes 2 1 ++ le_bytes 2 0 ++ le_bytes 2 0 ++ le_bytes 2 0 ++
  le_bytes 4 PT_LOAD ++ le_bytes 4 5 ++ le_bytes 8 0 ++ le_bytes 8 vaddr ++ le_bytes 8 vaddr ++
  le_bytes 8 (120 + Z.of_nat (length code)) ++ le_bytes 8 memsz ++ le_bytes 8 4096 ++ code.

Definition demo_elf : list Z := one_segment demo_va 5000 [115; 0; 0; 0].

Lemma demo_elf_bytes : Forall is_byte demo_elf.
Proof. apply (bool_decide_unpack (Forall is_byte demo_elf)). vm_compute. exact I. Qed.

Lemma demo_elf_headers :
  program_headers demo_elf (read_elf_header demo_elf) = [mkProgramHeader 1 5 0 demo_va 124 5000].
Proof. vm_compute. reflexivity. Qed.

Lemma demo_elf_loadable : loadable demo_root demo_s0 demo_fl0 demo_elf.
Proof.
  split; [vm_compute; intuition congruence|]. cbv zeta. rewrite demo_elf_headers.
  split; [by left|]. split.
  - apply Forall_cons_2; [|apply Forall_nil_2]. intros _.
    split_and!; vm_compute; intuition congruence.
  - split; [vm_compute; lia|]. split.
    + apply (bool_decide_unpack (NoDup _)). vm_compute. exact I.
    + apply Forall_forall. intros p _. split; [apply demo_leaf_s0|apply demo_not_huge].
Qed.

Lemma load_elf_image_witness :
  ∃ info s', load_elf 8 demo_elf demo_root demo_s0 = (Ok info, s') ∧ image_loaded s' demo_root demo_elf.
Proof.
  destruct demo_s0_facts as (Hp & Hwf & _).
  destruct (load_elf_image 8 demo_elf demo_root demo_s0 demo_fl0 demo_elf_bytes demo_elf_loadable
    ltac:(vm_compute; lia) Hp Hwf demo_ram_ok) as (info & s' & fl' & E & _ & _ & Him & _).
  exists info, s'. split; [exact E|exact Him].
Defined.

Lemma load_elf_safe_witness :
  ∃ r s' fl', load_elf 8 demo_elf demo_root demo_s0 = (r, s') ∧ pmm_wf s' fl' ∧
    extends demo_root demo_s0 s'.
Proof.
  destruct demo_s0_facts as (Hp & Hwf & _).
  destruct (load_elf_safe 8 demo_elf demo_root demo_s0 demo_fl0 demo_elf_bytes
    ltac:(intros ph _ _; left; vm_compute; reflexivity)
    ltac:(vm_compute; lia) Hp Hwf demo_ram_ok) as (r & s' & fl' & E & H1 & _ & H2 & _).
  exists r, s', fl'. split; [exact E|]. split; [exact H1|exact H2].
Defined.

(** A file whose segment is the last page but one byte, and a machine running a
    release build. *)
Definition top_elf : list Z := one_segment (2 ^ 64 - 4096) 4095 [].
Definition release_s0 : pmm := after_alloc demo_root (init demo_boot ∅ false).
(** The frame of the device tree, which is never handed out. *)
Definition fdt_frame : Z := 2147516416.

(** The proviso of the previous property is needed.  In a build without overflow
    checks, a well-formed file whose only segment reaches into the last page makes
    the loop's address wrap to zero; the copy for the next page then lands outside
    its frame.  Here it overwrites the machine's device tree, in reserved memory,
    with the file's first bytes. *)
Theorem load_elf_top_segment_corrupts :
  pmm_wf release_s0 (tail demo_free) ∧ as_wf release_s0 demo_root ∧ ram_ok release_s0 ∧
  Forall is_byte top_elf ∧ header_checked top_elf ∧
  Forall (segment_checked top_elf) (program_headers top_elf (read_elf_header top_elf)) ∧
  overlaps_reserved demo_boot fdt_frame = true ∧
  take 4 (byte_at (mem release_s0) fdt_frame <$> seq 0 4) = [0; 0; 0; 0] ∧
  take 4 (byte_at (mem (load_elf 10 top_elf demo_root release_s0).2) fdt_frame <$> seq 0 4)
    = elf_magic.
Proof.
  assert (pmm_wf (init demo_boot ∅ false) demo_free) as Hwf by apply init_wf, demo_boot_ok.
  rewrite demo_free_eq in Hwf. split_and!.
  - by apply after_alloc_wf.
  - apply empty_as_wf; [by eapply alloc_table_frame|apply alloc_zero].
  - vm_compute. intuition congruence.
  - apply (bool_decide_unpack (Forall is_byte top_elf)). vm_compute. exact I.
  - vm_compute. intuition congruence.
  - apply Forall_cons_2; [|apply Forall_nil_2]. vm_compute. intuition congruence.
  - vm_compute. done.
  - vm_compute. done.
  - vm_compute. done.
Qed.
