(* ===== verification/Handle.v ===== *)
(** * Handle tables (src/ipc/handle.rs)

    A process's table of kernel objects, by 16-bit slot with a generation; a
    handle packs both.  The table is generic in the object type.  [view] is the
    abstract table the component promises: a partial map from handles to objects
    with rights; every operation is proved to be the corresponding operation of
    that map. *)

From Stdlib Require Import ZArith Lia.
From stdpp Require Import prelude gmap strings.
From S2P Require Import Prelude.

Local Open Scope Z_scope.

(** ** Handles *)

Definition u16_count : Z := 65536.

Definition encode_handle (id generation : Z) : Z := Z.lor (Z.shiftl generation 16) id.
Definition decode_handle (handle : Z) : Z * Z := (Z.land handle 65535, Z.shiftr handle 16).

#[global] Arguments encode_handle : simpl never.
#[global] Arguments decode_handle : simpl never.

(** ** Rights: the bit set READ, WRITE, DUPLICATE, TRANSFER *)

Definition RIGHT_READ : Z := 1.
Definition RIGHT_WRITE : Z := 2.
Definition RIGHT_DUPLICATE : Z := 4.
Definition RIGHT_TRANSFER : Z := 8.
Definition rights_all : Z := 15.
Definition rights_contains (r required : Z) : bool := Z.land r required =? required.

(** Error numbers are returned as [usize] values counted down from the top. *)
Definition EPERM : Z := usize_max.
Definition ENOENT : Z := usize_max - 1.
Definition ESRCH : Z := usize_max - 2.
Definition EINTR : Z := usize_max - 3.
Definition EBADF : Z := usize_max - 8.
Definition EAGAIN : Z := usize_max - 10.
Definition ENOMEM : Z := usize_max - 11.
Definition EACCES : Z := usize_max - 12.
Definition EFAULT : Z := usize_max - 13.
Definition EINVAL : Z := usize_max - 21.
Definition EMFILE : Z := usize_max - 23.
Definition EPIPE : Z := usize_max - 31.

Section table.
Context {Obj : Type}.

Record handle_entry : Type := mkEntry {
  he_object : Obj;
  he_rights : Z;
  he_generation : Z;
}.

Record handle_table : Type := mkTable {
  ht_map : gmap Z handle_entry;
  ht_cloexec : gset Z;
}.

Definition set_map (m : gmap Z handle_entry) (t : handle_table) : handle_table :=
  mkTable m (ht_cloexec t).

(** ** Operations *)

Definition new_table : handle_table := mkTable ∅ ∅.

(** The search of [lowest_free] from slot [id] over [n] slots. *)
Fixpoint free_slot (m : gmap Z handle_entry) (n : nat) (id : Z) : option Z :=
  match n with
  | O => None
  | S n' => match m !! id with None => Some id | Some _ => free_slot m n' (id + 1) end
  end.

Definition slot_count : nat := Z.to_nat u16_count.

Definition lowest_free (t : handle_table) : option Z := free_slot (ht_map t) slot_count 0.

Definition insert_with_rights (obj : Obj) (rights : Z) : M handle_table Z := λ t,
  match lowest_free t with
  | None => (Panic "handle table full (65536 handles exhausted)", t)
  | Some id =>
      let generation := match ht_map t !! id with
                        | Some entry => wrap 16 (he_generation entry + 1)
                        | None => 1
                        end in
      (Ok (encode_handle id generation),
       set_map (<[id := mkEntry obj rights generation]> (ht_map t)) t)
  end.

Definition insert (obj : Obj) : M handle_table Z := insert_with_rights obj rights_all.

Definition insert_at (handle : Z) (obj : Obj) (t : handle_table) : handle_table :=
  let '(id, generation) := decode_handle handle in
  set_map (<[id := mkEntry obj rights_all generation]> (ht_map t)) t.

Definition insert_entry (handle : Z) (entry : handle_entry) (t : handle_table) : handle_table :=
  let '(id, _) := decode_handle handle in
  set_map (<[id := entry]> (ht_map t)) t.

Definition get_entry (t : handle_table) (handle : Z) : option handle_entry :=
  let '(id, generation) := decode_handle handle in
  match ht_map t !! id with
  | Some e => if he_generation e =? generation then Some e else None
  | None => None
  end.

Definition get (t : handle_table) (handle : Z) : option Obj := he_object <$> get_entry t handle.

Definition get_with_rights (t : handle_table) (handle required : Z)   : Obj + Z :=
  match get_entry t handle with
  | None => inr EBADF
  | Some entry =>
      if negb (rights_contains (he_rights entry) required) then inr EACCES
      else inl (he_object entry)
  end.

Definition remove_entry (handle : Z) (t : handle_table) : option handle_entry * handle_table :=
  let t1 := mkTable (ht_map t) (ht_cloexec t ∖ {[handle]}) in
  let '(id, generation) := decode_handle handle in
  match ht_map t1 !! id with
  | Some e => if he_generation e =? generation then (Some e, set_map (delete id (ht_map t1)) t1)
              else (None, t1)
  | None => (None, t1)
  end.

Definition remove (handle : Z) (t : handle_table) : option Obj * handle_table :=
  let '(e, t') := remove_entry handle t in (he_object <$> e, t').

Definition close_all (t : handle_table) : handle_table := mkTable ∅ ∅.

Definition set_cloexec (handle : Z) (val : bool) (t : handle_table) : handle_table :=
  mkTable (ht_map t)
    (if val then {[handle]} ∪ ht_cloexec t else ht_cloexec t ∖ {[handle]}).

Definition is_cloexec (t : handle_table) (handle : Z) : bool := bool_decide (handle ∈ ht_cloexec t).

(** One turn of [close_on_exec]'s loop over the marked handles. *)
Definition close_marked (m : gmap Z handle_entry) (h : Z) : gmap Z handle_entry :=
  let '(id, generation) := decode_handle h in
  match m !! id with
  | Some e => if he_generation e =? generation then delete id m else m
  | None => m
  end.

Definition close_on_exec (t : handle_table) : handle_table :=
  mkTable (foldl close_marked (ht_map t) (elements (ht_cloexec t))) ∅.

Definition dup (src : Z) : M handle_table (option Z) := λ t,
  match get_entry t src with
  | None => (Ok None, t)
  | Some entry => (h ← insert (he_object entry); mret (Some h)) t
  end.

Definition dup2 (src dst : Z) (t : handle_table) : bool * handle_table :=
  match get_entry t src with
  | Some entry =>
      let '(dst_id, dst_gen) := decode_handle dst in
      (true, mkTable (<[dst_id := mkEntry (he_object entry) (he_rights entry) dst_gen]> (ht_map t))
               (ht_cloexec t ∖ {[dst]}))
  | None => (false, t)
  end.

(** ** The abstract table *)

(** What a handle stands for. *)
Definition view (t : handle_table) (h : Z) : option (Obj * Z) :=
  (λ e, (he_object e, he_rights e)) <$> get_entry t h.

Definition is_handle (h : Z) : Prop := 0 ≤ h < 2 ^ 32.

(** Slots and generations fit in 16 bits. *)
Definition table_wf (t : handle_table) : Prop :=
  ∀ id e, ht_map t !! id = Some e → 0 ≤ id < u16_count ∧ 0 ≤ he_generation e < u16_count.
End table.
Arguments handle_entry : clear implicits.
Arguments handle_table : clear implicits.

(** ** Handles pack and unpack *)

Lemma encode_eq id generation :
  0 ≤ id < u16_count → encode_handle id generation = generation * u16_count + id.
Proof.
  unfold encode_handle, u16_count. intros Hid. rewrite Z.shiftl_mul_pow2 by lia.
  rewrite <-(Z.mod_small id (2 ^ 16)) at 1 by lia.
  rewrite lor_low_high; [|lia|by apply Z.mod_mul]. by rewrite Z.mod_small by lia.
Qed.

Lemma decode_eq h : decode_handle h = (h mod u16_count, h / u16_count).
Proof.
  unfold decode_handle, u16_count. change 65535 with (Z.ones 16).
  by rewrite Z.land_ones, Z.shiftr_div_pow2 by lia.
Qed.

Lemma decode_encode id generation :
  0 ≤ id < u16_count → decode_handle (encode_handle id generation) = (id, generation).
Proof.
  intros Hid. rewrite decode_eq, encode_eq by done. unfold u16_count in *.
  f_equal; [rewrite Z.add_comm, Z.mod_add by lia; by apply Z.mod_small|].
  rewrite Z.add_comm, Z.div_add by lia. rewrite Z.div_small; lia.
Qed.

Lemma encode_decode h : encode_handle (decode_handle h).1 (decode_handle h).2 = h.
Proof.
  rewrite decode_eq. simpl. rewrite encode_eq; unfold u16_count.
  - rewrite Z.mul_comm. by rewrite <-Z.div_mod.
  - apply Z.mod_pos_bound. lia.
Qed.

Lemma decode_bound h : is_handle h →
  0 ≤ (decode_handle h).1 < u16_count ∧ 0 ≤ (decode_handle h).2 < u16_count.
Proof.
  intros Hh. rewrite decode_eq. unfold is_handle, u16_count in *. simpl. split.
  - apply Z.mod_pos_bound. lia.
  - split; [apply Z.div_pos; lia|apply Z.div_lt_upper_bound; lia].
Qed.

Lemma decode_inj h h' : decode_handle h = decode_handle h' → h = h'.
Proof. intros Heq. by rewrite <-(encode_decode h), <-(encode_decode h'), Heq. Qed.

(** ** The free-slot search *)

Section facts.
Context {Obj : Type}.
Implicit Types (t : handle_table Obj) (m : gmap Z (handle_entry Obj)).

Lemma free_slot_Some m n id r :
  free_slot m n id = Some r →
  id ≤ r < id + Z.of_nat n ∧ m !! r = None ∧ ∀ i, id ≤ i < r → is_Some (m !! i).
Proof.
  revert id. induction n as [|n IH]; intros id; [done|]. cbn [free_slot].
  destruct (m !! id) as [e|] eqn:E.
  - intros (H1 & H2 & H3)%IH. split_and!; [lia|lia|done|]. intros i Hi.
    destruct (decide (i = id)) as [->|]; [by eexists|]. apply H3. lia.
  - intros [= <-]. split_and!; [lia|lia|done|]. lia.
Qed.

Lemma free_slot_None m n id :
  free_slot m n id = None → ∀ i, id ≤ i < id + Z.of_nat n → is_Some (m !! i).
Proof.
  revert id. induction n as [|n IH]; intros id; cbn [free_slot]; [lia|].
  destruct (m !! id) as [e|] eqn:E; [|done]. intros H i Hi.
  destruct (decide (i = id)) as [->|]; [by eexists|]. apply (IH (id + 1)); [done|lia].
Qed.

Lemma slot_count_eq : Z.of_nat slot_count = u16_count.
Proof. unfold slot_count. rewrite Z2Nat.id; [done|]. unfold u16_count. lia. Qed.

Lemma lowest_free_spec t :
  match lowest_free t with
  | Some id => 0 ≤ id < u16_count ∧ ht_map t !! id = None ∧
      ∀ i, 0 ≤ i < id → is_Some (ht_map t !! i)
  | None => ∀ i, 0 ≤ i < u16_count → is_Some (ht_map t !! i)
  end.
Proof.
  unfold lowest_free. rewrite <-slot_count_eq. generalize slot_count. intros n.
  destruct (free_slot (ht_map t) n 0) as [id|] eqn:E.
  - apply free_slot_Some in E as (H1 & H2 & H3). split_and!; [lia|lia|done|done].
  - intros i Hi. apply (free_slot_None _ _ _ E). lia.
Qed.

(** ** What changes a lookup *)

(** A lookup only depends on the handle's slot. *)
Lemma get_entry_insert t id e c h :
  get_entry (mkTable (<[id := e]> (ht_map t)) c) h =
    if decide ((decode_handle h).1 = id)
    then if he_generation e =? (decode_handle h).2 then Some e else None
    else get_entry t h.
Proof.
  unfold get_entry. destruct (decode_handle h) as [i g]. simpl. case_decide as Hd.
  - subst. by rewrite lookup_insert_eq.
  - by rewrite lookup_insert_ne.
Qed.

Lemma get_entry_delete t id c h :
  get_entry (mkTable (delete id (ht_map t)) c) h =
    if decide ((decode_handle h).1 = id) then None else get_entry t h.
Proof.
  unfold get_entry. destruct (decode_handle h) as [i g]. simpl. case_decide as Hd.
  - subst. by rewrite lookup_delete_eq.
  - by rewrite lookup_delete_ne.
Qed.

Lemma get_entry_slot t h e :
  get_entry t h = Some e ↔
  ht_map t !! (decode_handle h).1 = Some e ∧ he_generation e = (decode_handle h).2.
Proof.
  unfold get_entry. destruct (decode_handle h) as [i g]. simpl.
  destruct (ht_map t !! i) as [e'|]; [|naive_solver].
  destruct (Z.eqb_spec (he_generation e') g); naive_solver.
Qed.

(** Two valid handles on the same slot are the same handle. *)
Lemma get_entry_same_slot t h h' e e' :
  get_entry t h = Some e → get_entry t h' = Some e' →
  (decode_handle h).1 = (decode_handle h').1 → h = h'.
Proof.
  rewrite !get_entry_slot. intros [H1 H2] [H3 H4] Heq. apply decode_inj.
  rewrite Heq in H1. rewrite (surjective_pairing (decode_handle h)),
    (surjective_pairing (decode_handle h')). congruence.
Qed.

(** ** The operations refine those of the abstract table *)

Lemma insert_shape obj rights t :
  match lowest_free t with
  | None => insert_with_rights obj rights t =
      (Panic "handle table full (65536 handles exhausted)", t)
  | Some id => 0 ≤ id < u16_count ∧ ht_map t !! id = None ∧
      (∀ i, 0 ≤ i < id → is_Some (ht_map t !! i)) ∧
      insert_with_rights obj rights t =
        (Ok (encode_handle id 1), set_map (<[id := mkEntry obj rights 1]> (ht_map t)) t)
  end.
Proof.
  unfold insert_with_rights. pose proof (lowest_free_spec t) as H.
  destruct (lowest_free t) as [id|]; [|done].
  destruct H as (H1 & H2 & H3). split_and!; [lia|lia|done|done|]. by rewrite H2.
Qed.

Lemma insert_eq (obj : Obj) t : insert obj t = insert_with_rights obj rights_all t.
Proof. reflexivity. Qed.

(** C33: Inserting an object refines insertion into the map from handles to
    objects.  While a slot is free, [insert_with_rights] returns a handle that stood
    for nothing, in the lowest free slot, and afterwards that handle stands for the
    object with exactly the given rights while every other handle stands for what it
    did before; it panics exactly when all 65536 slots are taken. *)
Theorem insert_refines obj rights t :
  match insert_with_rights obj rights t with
  | (Ok h, t') =>
      view t h = None ∧ ht_cloexec t' = ht_cloexec t ∧ (table_wf t → table_wf t') ∧
      (∀ i, 0 ≤ i < (decode_handle h).1 → is_Some (ht_map t !! i)) ∧
      ∀ h', view t' h' = if decide (h' = h) then Some (obj, rights) else view t h'
  | (Err _, _) => False
  | (Panic _, t') => t' = t ∧ ∀ i, 0 ≤ i < u16_count → is_Some (ht_map t !! i)
  end.
Proof.
  pose proof (insert_shape obj rights t) as H. destruct (lowest_free t) as [id|] eqn:E.
  - destruct H as (Hid & Hfree & Hlow & ->).
    assert (decode_handle (encode_handle id 1) = (id, 1)) as Hde by by apply decode_encode.
    assert (∀ h', (decode_handle h').1 = id → view t h' = None) as Hnone.
    { intros h' Hh'. unfold view, get_entry. rewrite (surjective_pairing (decode_handle h')), Hh'.
      by rewrite Hfree. }
    split_and!; [apply Hnone; by rewrite Hde|done| |by rewrite Hde|].
    + intros Hwf i e. simpl. rewrite lookup_insert_Some.
      intros [[<- <-]|[_ Hi]]; [|by eapply Hwf]. simpl. unfold u16_count in *. lia.
    + intros h'. unfold view, set_map. rewrite get_entry_insert. cbn [he_generation].
      destruct (decide (h' = encode_handle id 1)) as [->|Hne].
      * rewrite Hde. cbn [fst snd]. by rewrite decide_True.
      * case_decide as Hd; [|done]. destruct (Z.eqb_spec 1 (decode_handle h').2) as [Hg|].
        -- exfalso. apply Hne. rewrite <-(encode_decode h'), Hd. by rewrite <-Hg.
        -- symmetry. by apply Hnone.
  - rewrite H. split; [done|]. pose proof (lowest_free_spec t) as Hs. by rewrite E in Hs.
Qed.

Lemma remove_entry_spec h t :
  (remove_entry h t).1 = get_entry t h ∧
  (∀ h', get_entry (remove_entry h t).2 h' = if decide (h' = h) then None else get_entry t h') ∧
  ht_cloexec (remove_entry h t).2 = ht_cloexec t ∖ {[h]} ∧
  (table_wf t → table_wf (remove_entry h t).2).
Proof.
  unfold remove_entry. rewrite (surjective_pairing (decode_handle h)).
  cbn [ht_map ht_cloexec]. destruct (get_entry t h) as [e|] eqn:E.
  - pose proof E as [He Hg]%get_entry_slot. rewrite He, Hg, Z.eqb_refl. cbn [fst snd].
    split_and!; [done| |done|].
    + intros h'. unfold set_map. cbn [ht_map ht_cloexec]. rewrite get_entry_delete.
      destruct (decide (h' = h)) as [->|Hne]; [by rewrite decide_True|].
      case_decide as Hd; [|done]. destruct (get_entry t h') eqn:E'; [|done].
      destruct Hne. by eapply get_entry_same_slot.
    + intros Hwf i e'. simpl. rewrite lookup_delete_Some. intros [_ Hi]. by eapply Hwf.
  - set (t1 := mkTable (ht_map t) (ht_cloexec t ∖ {[h]})).
    assert (∀ h', get_entry t1 h' = if decide (h' = h) then None else get_entry t h') as Heq.
    { intros h'. case_decide; [by subst|done]. }
    destruct (ht_map t !! (decode_handle h).1) as [e|] eqn:He; [|done].
    destruct (Z.eqb_spec (he_generation e) (decode_handle h).2) as [Hg|Hg]; [|done].
    exfalso. assert (get_entry t h = Some e); [by apply get_entry_slot|congruence].
Qed.

(** Closing a handle refines deletion.  [remove] returns the object the
    handle stands for, if any; afterwards exactly that handle stands for nothing
    and has no close-on-exec mark, and every other handle is as before.  A stale or
    malformed handle removes nothing. *)
Theorem remove_refines h t :
  (remove h t).1 = fst <$> view t h ∧
  (∀ h', view (remove h t).2 h' = if decide (h' = h) then None else view t h') ∧
  ht_cloexec (remove h t).2 = ht_cloexec t ∖ {[h]} ∧
  (table_wf t → table_wf (remove h t).2).
Proof.
  destruct (remove_entry_spec h t) as (H1 & H2 & H3 & H4). unfold remove.
  destruct (remove_entry h t) as [o t']. cbn [fst snd] in *. split_and!; [|..|done|done].
  - rewrite H1. unfold view. by destruct (get_entry t h).
  - intros h'. unfold view. rewrite H2. by case_decide.
Qed.

(** [dup2] makes the target handle stand for the source's object with the
    source's rights, replacing whatever occupied its slot, and clears its
    close-on-exec mark; handles on other slots are untouched.  An invalid source
    changes nothing. *)
Theorem dup2_refines src dst t :
  match view t src with
  | None => dup2 src dst t = (false, t)
  | Some x => (dup2 src dst t).1 = true ∧
      ht_cloexec (dup2 src dst t).2 = ht_cloexec t ∖ {[dst]} ∧
      ∀ h', view (dup2 src dst t).2 h' =
        if decide (h' = dst) then Some x
        else if decide ((decode_handle h').1 = (decode_handle dst).1) then None
        else view t h'
  end.
Proof.
  unfold dup2. unfold view at 1. destruct (get_entry t src) as [e|]; [|done].
  rewrite (surjective_pairing (decode_handle dst)). cbn [fst snd fmap option_fmap option_map].
  split_and!; [done|done|].
  intros h'. unfold view. rewrite get_entry_insert. cbn [he_generation].
  destruct (decide (h' = dst)) as [->|Hne].
  - rewrite decide_True by done. by rewrite Z.eqb_refl.
  - case_decide as Hd; [|done].
    destruct (Z.eqb_spec (decode_handle dst).2 (decode_handle h').2) as [Hg|]; [|done].
    destruct Hne. apply decode_inj. by rewrite (surjective_pairing (decode_handle h')),
      (surjective_pairing (decode_handle dst)), Hd, Hg.
Qed.

(** ** Closing on exec *)

Lemma close_marked_view m c h h' :
  view (mkTable (close_marked m h) c) h' =
    if decide (h' = h) then None else view (mkTable m c) h'.
Proof.
  set (t := mkTable m c). unfold close_marked. rewrite (surjective_pairing (decode_handle h)).
  destruct (get_entry t h) as [e|] eqn:E.
  - pose proof E as [He Hg]%get_entry_slot. cbn [ht_map t] in He. rewrite He, Hg, Z.eqb_refl.
    unfold view. rewrite (get_entry_delete t).
    destruct (decide (h' = h)) as [->|Hne]; [by rewrite decide_True|].
    case_decide as Hd; [|done]. destruct (get_entry t h') eqn:E'; [|done].
    destruct Hne. by eapply get_entry_same_slot.
  - assert (view t h = None) as Hv by (unfold view; by rewrite E).
    destruct (m !! (decode_handle h).1) as [e|] eqn:He.
    + destruct (Z.eqb_spec (he_generation e) (decode_handle h).2) as [Hg|Hg].
      { exfalso. assert (get_entry t h = Some e); [by apply get_entry_slot|congruence]. }
      case_decide; [by subst|done].
    + case_decide; [by subst|done].
Qed.

Lemma close_marked_foldl m c l h' :
  view (mkTable (foldl close_marked m l) c) h' =
    if decide (h' ∈ l) then None else view (mkTable m c) h'.
Proof.
  revert m. induction l as [|h l IH]; intros m; cbn [foldl].
  - by rewrite decide_False by set_solver.
  - rewrite IH, close_marked_view. repeat case_decide; set_solver.
Qed.

(** [close_on_exec] closes exactly the marked handles: after it a handle
    stands for nothing if it was marked and for what it stood for before
    otherwise, and no mark is left. *)
Theorem close_on_exec_exact t :
  (∀ h, view (close_on_exec t) h = if decide (h ∈ ht_cloexec t) then None else view t h) ∧
  ht_cloexec (close_on_exec t) = ∅.
Proof.
  split; [|done]. intros h. unfold close_on_exec. rewrite close_marked_foldl.
  destruct (decide (h ∈ ht_cloexec t)) as [Hin|Hin].
  - by rewrite decide_True by (by apply elem_of_elements).
  - by rewrite decide_False by (by rewrite elem_of_elements).
Qed.

(** ** Stale handles and rights *)

(** A stale handle resolves to a new object.  Generations never advance:
    every insertion uses generation 1 because the slot it takes is empty.  After
    closing a handle of generation 1 whose slot is the lowest free one then, the next
    insertion returns the very same handle, so a copy of the closed handle now
    reaches the unrelated new object with the new object's rights. *)
Theorem stale_handle_resolves h e obj rights t :
  is_handle h → get_entry t h = Some e → he_generation e = 1 →
  (∀ i, 0 ≤ i < (decode_handle h).1 → is_Some (ht_map t !! i)) →
  ∃ t', insert_with_rights obj rights (remove h t).2 = (Ok h, t') ∧ get t' h = Some obj.
Proof.
  intros Hh [He Hg]%get_entry_slot Hg1 Hlow. pose proof (decode_bound h Hh) as [Hb _].
  set (id := (decode_handle h).1) in *.
  assert ((remove h t).2 = mkTable (delete id (ht_map t)) (ht_cloexec t ∖ {[h]})) as ->.
  { unfold remove, remove_entry. rewrite (surjective_pairing (decode_handle h)).
    cbn [fst snd ht_map]. fold id. by rewrite He, Hg, Z.eqb_refl. }
  set (t1 := mkTable _ _). pose proof (insert_shape obj rights t1) as H.
  destruct (lowest_free t1) as [i|] eqn:E.
  - destruct H as (Hi & Hfree & Hl & ->). assert (i = id) as ->.
    { cbn [ht_map t1] in Hfree, Hl. destruct (Z.lt_trichotomy i id) as [Hlt|[Heq|Hgt]]; [|done|].
      - destruct (Hlow i) as [x Hx]; [lia|]. rewrite lookup_delete_ne in Hfree by lia. congruence.
      - destruct (Hl id) as [x Hx]; [lia|]. by rewrite lookup_delete_eq in Hx. }
    assert (encode_handle id 1 = h) as ->.
    { etrans; [|apply encode_decode]. unfold id. f_equal. congruence. }
    eexists. split; [done|]. unfold get, set_map. rewrite get_entry_insert.
    rewrite decide_True by done. cbn [he_generation]. by rewrite <-Hg, Hg1.
  - exfalso. pose proof (lowest_free_spec t1) as Hs. rewrite E in Hs.
    destruct (Hs id) as [x Hx]; [done|]. cbn [ht_map t1] in Hx. by rewrite lookup_delete_eq in Hx.
Qed.

(** [dup] does not keep rights.  Duplicating a handle that lacks some right
    yields a handle to the same object that has it, because the copy is inserted
    with all rights (the system call only asks for the DUPLICATE right). *)
Theorem dup_escalates_rights src e t t' h required :
  get_entry t src = Some e → rights_contains (he_rights e) required = false →
  0 ≤ required < 16 → dup src t = (Ok (Some h), t') →
  get_with_rights t src required = inr EACCES ∧
  get_with_rights t' h required = inl (he_object e).
Proof.
  intros He Hr Hreq Hd. unfold dup in Hd. rewrite He in Hd.
  apply bind_ok_inv in Hd as (h0 & t0 & Hins & Hret).
  assert (h0 = h ∧ t0 = t') as [-> ->] by (unfold mret, M_ret in Hret; by injection Hret as -> ->).
  rewrite insert_eq in Hins. clear Hret.
  pose proof (insert_shape (he_object e) rights_all t) as H.
  destruct (lowest_free t) as [id|]; [|rewrite H in Hins; discriminate Hins].
  destruct H as (Hid & _ & _ & E). rewrite E in Hins. injection Hins as <- <-.
  unfold get_with_rights, set_map. rewrite He, Hr. split; [done|].
  rewrite get_entry_insert, decode_encode by done. cbn [fst snd he_generation].
  rewrite decide_True by done. cbn [Z.eqb Pos.eqb he_rights he_object].
  unfold rights_contains, rights_all. change 15 with (Z.ones 4).
  rewrite Z.land_comm, Z.land_ones, Z.mod_small by lia. by rewrite Z.eqb_refl.
Qed.
End facts.

(** ** A table with one read-only handle *)

Definition demo_table : handle_table string :=
  mkTable {[0 := mkEntry "pipe" RIGHT_READ 1]} ∅.

Lemma stale_handle_resolves_witness :
  ∃ t', insert_with_rights "secret" RIGHT_READ (remove 65536 demo_table).2 = (Ok 65536, t') ∧
    get t' 65536 = Some "secret".
Proof.
  apply (stale_handle_resolves 65536 (mkEntry "pipe" RIGHT_READ 1) "secret" RIGHT_READ demo_table).
  - unfold is_handle. lia.
  - reflexivity.
  - reflexivity.
  - intros i Hi. change (decode_handle 65536).1 with 0 in Hi. lia.
Defined.

Lemma dup_escalates_rights_witness :
  ∃ t' h, get_with_rights demo_table 65536 RIGHT_WRITE = inr EACCES ∧
    get_with_rights t' h RIGHT_WRITE = inl "pipe".
Proof.
  set (t' := mkTable (<[1 := mkEntry "pipe" rights_all 1]> (ht_map demo_table)) (∅ : gset Z)).
  exists t', 65537.
  apply (dup_escalates_rights 65536 (mkEntry "pipe" RIGHT_READ 1) demo_table t' 65537 RIGHT_WRITE).
  - reflexivity.
  - reflexivity.
  - unfold RIGHT_WRITE. lia.
  - vm_compute. reflexivity.
Defined.
