(* ===== verification/Vmo.v ===== *)
(** * Virtual memory objects (src/mm/vmo.rs and the mapping loops of
      src/syscall/vm.rs)

    A VMO owns physical pages; mapping it adds references to them.  [sys_vmo_map]
    and [sys_vmo_unmap] act on the page table of the current process, whose root
    is what they compute from its [satp]. *)

From Stdlib Require Import ZArith Lia.
From stdpp Require Import prelude gmap strings.
From S2P Require Import Prelude Pmm Vmm Swap Handle.

Local Open Scope Z_scope.

Record vmo : Type := mkVmo { size_bytes : Z; physical_pages : list Z }.

(** ** Creation and destruction *)

Fixpoint vmo_alloc (procs : list (bool * Z)) (n : nat) (pages : list Z)
    : M kst (option (list Z)) :=
  match n with
  | O => mret (Some pages)
  | S n' =>
      o ← alloc_page procs;
      match o with
      | Some page => vmo_alloc procs n' (pages ++ [page])
      | None => for_each pages (λ p, on_pmm (free_page p)) ;; mret None
      end
  end.

Definition div_ceil (a b : Z) : Z := (a + b - 1) / b.

Definition vmo_new (procs : list (bool * Z)) (size : Z) : M kst (option vmo) :=
  o ← vmo_alloc procs (Z.to_nat (div_ceil size PAGE_SIZE)) [];
  mret (mkVmo size <$> o).

Definition vmo_drop (v : vmo) : M kst unit :=
  for_each (physical_pages v) (λ p, on_pmm (free_page p)).

(** ** Mapping and unmapping *)

Definition satp_root (satp : Z) : Z := Z.shiftl (Z.land satp (2 ^ 44 - 1)) 12.

(** [(size + page_size - 1) & !(page_size - 1)]. *)
Definition page_ceil (size : Z) : Z := page_floor (wrap 64 (size + PAGE_SIZE - 1)).

Definition prot_flags (prot : Z) : Z :=
  Z.lor (Z.lor (Z.lor (Z.lor PTE_V PTE_U)
    (if has_flag prot 1 || (prot =? 0) then PTE_R else 0))
    (if has_flag prot 2 then PTE_W else 0))
    (if has_flag prot 4 then PTE_X else 0).

(** The loop of [sys_vmo_map] over the pages, with the index as offset. *)
Definition map_vmo_pages (root va flags : Z) (pages : list Z) : M kst unit :=
  for_each (imap pair pages) (λ '(i, pa),
    on_pmm (incr_ref pa) ;;
    match_result (on_pmm (map_page root (wrap 64 (va + Z.of_nat i * PAGE_SIZE)) pa flags))
      (λ _, mret tt)
      (λ e, on_pmm (decr_ref_and_maybe_free pa) ;; fail e)).

(** The handle is already resolved to its VMO, if it is one. *)
Record vm_proc : Type := mkVmProc { vp_satp : Z; next_mmap_va : Z; vp_k : kst }.

Definition on_k {A} (c : M kst A) : M vm_proc A := λ p,
  let '(r, k) := c (vp_k p) in (r, mkVmProc (vp_satp p) (next_mmap_va p) k).

Definition sys_vmo_map (obj : option vmo) (va_hint map_size prot : Z) : M vm_proc Z :=
  if map_size =? 0 then mret EINVAL
  else match obj with
  | None => mret EBADF
  | Some vmo =>
      let aligned := page_ceil map_size in
      va ← (if negb (va_hint =? 0) && (2 ^ 32 <=? va_hint) then mret va_hint
            else λ p, (Ok (next_mmap_va p),
              mkVmProc (vp_satp p) (wrap 64 (next_mmap_va p + aligned)) (vp_k p)));
      root ← gets (λ p, satp_root (vp_satp p));
      let map_pages := Nat.min (Z.to_nat (aligned / PAGE_SIZE)) (length (physical_pages vmo)) in
      match_result
        (on_k (map_vmo_pages root va (prot_flags prot) (take map_pages (physical_pages vmo))))
        (λ _, mret va) (λ _, mret ENOMEM)
  end.

Definition sys_vmo_unmap (fuel : nat) (va size : Z) : M vm_proc (option Z) :=
  if size =? 0 then mret (Some 0)
  else
    root ← gets (λ p, satp_root (vp_satp p));
    done ← on_k (on_pmm (unmap_range fuel root va (page_ceil size)));
    mret (if (done : bool) then Some 0 else None).

(** ** Releasing a list of frames *)

Lemma on_pmm_for_each {A} (l : list A) (f : A → M pmm unit) k :
  for_each l (λ x, on_pmm (f x)) k = on_pmm (for_each l f) k.
Proof.
  revert k. induction l as [|x l IH]; intros k; [by destruct k|].
  cbn [for_each]. unfold on_pmm, mbind, M_bind in *.
  destruct (f x (k_pmm k)) as [[[]|e|w] s]; [|done|done]. by rewrite IH.
Qed.

Lemma free_all_wf pages s fl :
  pmm_wf s fl → NoDup pages →
  (∀ p, p ∈ pages → frame_ok s p ∧ 0 < count_at s (page_index s p)) →
  ∃ s', for_each pages free_page s = (Ok tt, s') ∧ pmm_wf s' (reverse pages ++ fl) ∧
    same_window s s'.
Proof.
  revert s fl. induction pages as [|p pages IH]; intros s fl Hwf Hnd Hok.
  - exists s. split_and!; done.
  - apply NoDup_cons in Hnd as [Hnin Hnd]. destruct (Hok p) as [Hp Hc]; [set_solver|].
    set (s1 := push_free p (set_count (page_index s p) 0 s)).
    assert (pmm_wf s1 (p :: fl)) as Hwf1.
    { apply release_wf; [done|done|]. eapply counted_not_free; [done|lia]. }
    destruct (IH s1 (p :: fl)) as (s' & E & Hwf' & Hw); [done|done| |].
    { intros q Hq. destruct (Hok q) as [Hqok Hqc]; [set_solver|]. split; [done|].
      change (0 < count_at (set_count (page_index s p) 0 s) (page_index s q)).
      rewrite count_set_count_ne; [done|]. intros Heq.
      assert (p = q) as ->; [by eapply page_index_inj; [apply Hwf|..]|done]. }
    exists s'. split_and!; [|by rewrite reverse_cons, <-app_assoc|by eapply same_window_trans].
    cbn [for_each]. by erewrite bind_ok by (by apply free_page_eq).
Qed.

(** Allocation without processes to evict from. *)
Lemma alloc_page_nil k r s :
  alloc_frame (k_pmm k) = (Ok r, s) → alloc_page [] k = (Ok r, set_pmm s k).
Proof.
  intros E. unfold alloc_page. erewrite bind_ok by (by apply on_pmm_eq). by destruct r.
Qed.

(** Frames an allocation loop has collected. *)
Definition held (s : pmm) (pages : list Z) : Prop :=
  NoDup pages ∧ ∀ p, p ∈ pages → frame_ok s p ∧ count_at s (page_index s p) = 1.

Lemma held_alloc s p fl pages :
  pmm_wf s (p :: fl) → held s pages → held (after_alloc p s) (pages ++ [p]).
Proof.
  intros Hwf [Hnd Hh]. destruct (wf_free _ _ Hwf p) as [Hp H0]; [set_solver|].
  assert (p ∉ pages) as Hnin by (intros Hin; destruct (Hh p Hin); lia).
  split.
  - apply NoDup_app. split_and!; [done|set_solver|apply NoDup_singleton].
  - intros q Hq. change (page_index (after_alloc p s) q) with (page_index s q).
    assert (frame_ok s q) as Hqok.
    { apply elem_of_app in Hq as [Hq| ->%list_elem_of_singleton]; [by apply Hh|done]. }
    split; [done|]. erewrite after_alloc_count by done. case_decide; [done|].
    apply Hh. set_solver.
Qed.

Lemma vmo_alloc_spec n pages k fl :
  pmm_wf (k_pmm k) fl → held (k_pmm k) pages →
  if decide (n ≤ length fl)%nat
  then ∃ s', vmo_alloc [] n pages k = (Ok (Some (pages ++ take n fl)), set_pmm s' k) ∧
    pmm_wf s' (drop n fl) ∧ held s' (pages ++ take n fl)
  else ∃ s', vmo_alloc [] n pages k = (Ok None, set_pmm s' k) ∧
    pmm_wf s' (reverse (pages ++ fl)).
Proof.
  revert pages k fl. induction n as [|n IH]; intros pages k fl Hwf Hh.
  - simpl. exists (k_pmm k). rewrite app_nil_r. by destruct k.
  - cbn [vmo_alloc]. destruct fl as [|p fl].
    + rewrite decide_False by (simpl; lia).
      erewrite bind_ok by (by apply alloc_page_nil, alloc_frame_nil).
      destruct (free_all_wf pages (k_pmm k) []) as (s' & E & Hwf' & _); [done|apply Hh| |].
      { intros p Hp. destruct Hh as [_ Hh]. destruct (Hh p Hp). split; [done|lia]. }
      exists s'. rewrite !app_nil_r in *. split; [|done].
      erewrite bind_ok; [reflexivity|]. rewrite on_pmm_for_each.
      replace (set_pmm (k_pmm k) k) with k by (by destruct k). by apply on_pmm_eq.
    + erewrite bind_ok by (by eapply alloc_page_nil, alloc_frame_cons).
      specialize (IH (pages ++ [p]) (set_pmm (after_alloc p (k_pmm k)) k) fl).
      cbn [k_pmm set_pmm] in IH. rewrite <-app_assoc in IH.
      specialize (IH (after_alloc_wf _ _ _ Hwf) (held_alloc _ _ _ _ Hwf Hh)).
      destruct (decide (n ≤ length fl)%nat).
      * rewrite decide_True by (simpl; lia). exact IH.
      * rewrite decide_False by (simpl; lia). by rewrite <-app_assoc in IH.
Qed.

(** Creating a VMO is all or nothing.  With enough free frames it owns
    [size / 4096] rounded up distinct frames, each with reference count 1, taken
    from the front of the free list; otherwise it returns [None] and every frame it
    had taken is back on a well-formed free list. *)
Theorem vmo_new_all_or_nothing k fl size :
  pmm_wf (k_pmm k) fl →
  let n := Z.to_nat (div_ceil size PAGE_SIZE) in
  if decide (n ≤ length fl)%nat
  then ∃ s', vmo_new [] size k = (Ok (Some (mkVmo size (take n fl))), set_pmm s' k) ∧
    pmm_wf s' (drop n fl) ∧ held s' (take n fl)
  else ∃ s', vmo_new [] size k = (Ok None, set_pmm s' k) ∧ pmm_wf s' (reverse fl).
Proof.
  intros Hwf n. assert (held (k_pmm k) []) as Hh by (split; [constructor|set_solver]).
  pose proof (vmo_alloc_spec n [] k fl Hwf Hh) as H. unfold vmo_new. fold n.
  case_decide; destruct H as (s' & E & H); exists s'; (split; [|done]); by erewrite bind_ok by exact E.
Qed.

(** Dropping a mapped VMO frees memory that is still mapped.  [Vmo::drop]
    frees its pages whatever their reference count: a page that a process has mapped
    (so that its count is 2) stays mapped there, yet the very next allocation hands
    out the same frame. *)
Theorem vmo_drop_frees_mapped k fl root va pa e size :
  pmm_wf (k_pmm k) fl → as_wf (k_pmm k) root → frame_ok (k_pmm k) pa →
  count_at (k_pmm k) (page_index (k_pmm k) pa) = 2 → ¬ is_table (mem (k_pmm k)) root pa →
  translate (mem (k_pmm k)) root va = Some e → pte_pa e = pa →
  ∃ k' s'', vmo_drop (mkVmo size [pa]) k = (Ok tt, k') ∧
    translate (mem (k_pmm k')) root va = Some e ∧
    alloc_frame (k_pmm k') = (Ok (Some pa), s'').
Proof.
  intros Hwf Has Hok Hc Hnt Htr Hpa.
  destruct (free_all_wf [pa] (k_pmm k) fl) as (s' & E & Hwf' & _);
    [done|apply NoDup_singleton|intros p ->%list_elem_of_singleton; split; [done|lia]|].
  eexists (set_pmm s' k), _. split_and!.
  - unfold vmo_drop. cbn [physical_pages]. rewrite on_pmm_for_each. by apply on_pmm_eq.
  - cbn [for_each] in E. erewrite bind_ok in E by (apply free_page_eq; [done|lia]).
    injection E as <-. rewrite <-Htr. apply leaf_tables. intros t i Ht.
    unfold read_word. simpl. rewrite frame_at_insert_ne; [done|]. by intros ->.
  - exact (alloc_frame_cons s' pa fl Hwf').
Qed.

(** ** Concrete objects *)

Lemma vmo_new_all_or_nothing_witness :
  ∃ s', vmo_new [] 10000 (demo_k demo_s0) =
    (Ok (Some (mkVmo 10000 (take 3 demo_fl0))), set_pmm s' (demo_k demo_s0)).
Proof.
  destruct demo_s0_facts as (Hp & _).
  pose proof (vmo_new_all_or_nothing (demo_k demo_s0) demo_fl0 10000 Hp) as H.
  cbv zeta in H. change (Z.to_nat (div_ceil 10000 PAGE_SIZE)) with 3%nat in H.
  rewrite decide_True in H by (vm_compute; lia).
  destruct H as (s' & E & _). exists s'. exact E.
Defined.

Lemma vmo_drop_frees_mapped_witness :
  ∃ k k' s'', vmo_drop (mkVmo 4096 [demo_data]) k = (Ok tt, k') ∧
    translate (mem (k_pmm k')) demo_root demo_va ≠ None ∧
    alloc_frame (k_pmm k') = (Ok (Some demo_data), s'').
Proof.
  destruct demo_mapped as (s1 & f & fl1 & E & Hp & Hwf & Hram & _ & Htr).
  specialize (Htr demo_va). rewrite decide_True in Htr by apply same_page_refl.
  assert (let s := (map_page demo_root demo_va demo_data demo_flags demo_s0).2 in
    frame_ok s demo_data ∧ is_managed_page s (pte_pa (mk_pte demo_data demo_flags)) = true ∧
    page_index s demo_data = 5) as (Hok & Hm & Hix).
  { vm_compute. intuition congruence. }
  rewrite E in Hok, Hm, Hix. cbn [snd] in Hok, Hm, Hix.
  assert (has_flag (pte_flags (mk_pte demo_data demo_flags)) PTE_U = true) as HU
    by (vm_compute; reflexivity).
  destruct (as_leaf _ _ Hwf _ _ _ _ Htr HU Hm) as [Hc0 Hnt].
  assert (pte_pa (mk_pte demo_data demo_flags) = demo_data) as Hpa by (vm_compute; reflexivity).
  rewrite Hpa in *.
  set (s2 := set_count (page_index s1 demo_data) 2 s1).
  assert (demo_data ∉ f :: fl1) as Hnin by (eapply counted_not_free; [exact Hp|lia]).
  destruct (vmo_drop_frees_mapped (demo_k s2) (f :: fl1) demo_root demo_va demo_data
    (mk_pte demo_data demo_flags) 4096) as (k' & s'' & E1 & H2 & E3).
  - apply set_count_wf; [exact Hp|exact Hok|exact Hnin].
  - cbn [k_pmm demo_k]. apply (as_wf_frame s1);
      [exact Hwf|split; [|split]; reflexivity|intros t _; reflexivity| |].
    + intros t (_ & Hc & _)%(as_table _ _ Hwf). unfold s2.
      destruct (decide (page_index s1 demo_data = page_index s1 t)) as [<-|Hne].
      * rewrite count_set_count_eq. lia.
      * rewrite count_set_count_ne by exact Hne. exact Hc.
    + intros i2 i1 i0 e Hl HU' Hm'. destruct (as_leaf _ _ Hwf _ _ _ _ Hl HU' Hm') as [Hc _]. unfold s2.
      destruct (decide (page_index s1 demo_data = page_index s1 (pte_pa e))) as [<-|Hne].
      * rewrite count_set_count_eq. lia.
      * rewrite count_set_count_ne by exact Hne. exact Hc.
  - exact Hok.
  - apply count_set_count_eq.
  - exact Hnt.
  - exact Htr.
  - exact Hpa.
  - exists (demo_k s2), k', s''. split; [exact E1|]. split; [rewrite H2; congruence|exact E3].
Defined.
