(* ===== verification/FileLock.v ===== *)
(** * POSIX byte-range locks (src/syscall/ipc.rs, F_GETLK / F_SETLK / F_SETLKW)

    The global lock table and the queue of blocked requests, with what waking a
    process changes of it.  [lock_step] is what processes can do to the tables;
    the exclusion theorem is an invariant of its reachable states. *)

From Stdlib Require Import ZArith Lia.
From stdpp Require Import prelude gmap sorting strings.
From S2P Require Import Prelude Handle.

Local Open Scope Z_scope.

Definition F_RDLCK : Z := 0.
Definition F_WRLCK : Z := 1.
Definition F_UNLCK : Z := 2.

Record lock_entry : Type := mkLock {
  le_pid : Z;
  le_type : Z;
  le_start : Z;
  le_end : Z;
}.

(** What the lock code reads and writes of a process. *)
Record lock_proc : Type := mkLockProc {
  lp_reg10 : option Z;
  lp_waiting : bool;
  lp_running : bool;
  lp_prio : Z;
}.

Record lock_st : Type := mkLocks {
  file_locks : gmap Z (list lock_entry);
  lock_waiters : gmap Z (list lock_entry);
  lock_procs : gmap Z lock_proc;
  run_queue : list (Z * Z);
}.

Definition set_locks (l : gmap Z (list lock_entry)) (s : lock_st) : lock_st :=
  mkLocks l (lock_waiters s) (lock_procs s) (run_queue s).
Definition set_waiters (w : gmap Z (list lock_entry)) (s : lock_st) : lock_st :=
  mkLocks (file_locks s) w (lock_procs s) (run_queue s).

(** ** Ranges and conflicts *)

Definition resolve_range (l_start l_len : Z) : Z * Z :=
  let start := Z.max l_start 0 in
  (start, if l_len =? 0 then i64_max
          else Z.max (- i64_max - 1) (Z.min (start + l_len) i64_max)).

Definition ranges_overlap (s1 e1 s2 e2 : Z) : bool := (s1 <? e2) && (s2 <? e1).

Definition conflicts (req_pid req_type rs re : Z) (e : lock_entry) : bool :=
  if le_pid e =? req_pid then false
  else if negb (ranges_overlap rs re (le_start e) (le_end e)) then false
  else (req_type =? F_WRLCK) || ((req_type =? F_RDLCK) && (le_type e =? F_WRLCK)).

Definition entries_of (s : lock_st) (file_id : Z) : list lock_entry :=
  default [] (file_locks s !! file_id).

(** Kept by [retain]: other processes' locks and those outside the range. *)
Definition outside (pid rs re : Z) (e : lock_entry) : bool :=
  negb (le_pid e =? pid) || negb (ranges_overlap rs re (le_start e) (le_end e)).

(** ** Acquiring and releasing *)

Definition try_acquire (file_id pid l_type rs re : Z) (s : lock_st) : bool * lock_st :=
  let entries := entries_of s file_id in
  if existsb (conflicts pid l_type rs re) entries
  then (false, set_locks (<[file_id := entries]> (file_locks s)) s)
  else (true, set_locks (<[file_id := List.filter (outside pid rs re) entries
                                        ++ [mkLock pid l_type rs re]]> (file_locks s)) s).

(** A granted waiter, if it still exists, returns 0 and becomes runnable. *)
Definition wake_proc (pid : Z) (s : lock_st) : lock_st :=
  match lock_procs s !! pid with
  | Some p => mkLocks (file_locks s) (lock_waiters s)
      (<[pid := mkLockProc (Some 0) false true (lp_prio p)]> (lock_procs s))
      (run_queue s ++ [(pid, lp_prio p)])
  | None => s
  end.

(** The loop over the drained waiters; the accumulator is [still_waiting]. *)
Fixpoint wake_loop (file_id : Z) (ws acc : list lock_entry) (s : lock_st)
    : list lock_entry * lock_st :=
  match ws with
  | [] => (acc, s)
  | w :: ws' =>
      match try_acquire file_id (le_pid w) (le_type w) (le_start w) (le_end w) s with
      | (true, s') => wake_loop file_id ws' acc (wake_proc (le_pid w) s')
      | (false, s') => wake_loop file_id ws' (acc ++ [w]) s'
      end
  end.

Definition wake_lock_waiters (file_id : Z) (s : lock_st) : lock_st :=
  match lock_waiters s !! file_id with
  | None | Some [] => s
  | Some ws => let '(still, s') := wake_loop file_id ws [] s in
               set_waiters (<[file_id := still]> (lock_waiters s')) s'
  end.

Definition drop_if_empty (file_id : Z) (l : list lock_entry) (m : gmap Z (list lock_entry))
    : gmap Z (list lock_entry) :=
  match l with [] => delete file_id m | _ => <[file_id := l]> m end.

Definition release_range (file_id pid rs re : Z) (s : lock_st) : lock_st :=
  let s1 := match file_locks s !! file_id with
            | Some entries =>
                set_locks (drop_if_empty file_id (List.filter (outside pid rs re) entries)
                             (file_locks s)) s
            | None => s
            end in
  wake_lock_waiters file_id s1.

Definition release_fd_locks (file_id pid : Z) (s : lock_st) : lock_st :=
  release_range file_id pid 0 i64_max s.

Definition sorted_keys {A} (m : gmap Z A) : list Z := merge_sort Z.le (elements (dom m)).

Definition release_all_locks (pid : Z) (s : lock_st) : lock_st :=
  let s1 := set_locks (foldl (λ m id, match m !! id with
      | Some v => drop_if_empty id (List.filter (λ e, negb (le_pid e =? pid)) v) m
      | None => m
      end) (file_locks s) (sorted_keys (file_locks s))) s in
  foldl (λ s id, wake_lock_waiters id s) s1 (sorted_keys (lock_waiters s1)).

(** ** The commands of [fcntl] *)

Record flock_arg : Type := mkFlock { l_type : Z; l_whence : Z; l_start : Z; l_len : Z; l_pid : Z }.

Definition fcntl_getlk (file_id pid : Z) (fl : flock_arg) (s : lock_st) : flock_arg :=
  let '(rs, re) := resolve_range (l_start fl) (l_len fl) in
  match List.find (conflicts pid (l_type fl) rs re) (entries_of s file_id) with
  | Some b => mkFlock (le_type b) 0 (le_start b)
      (if le_end b =? i64_max then 0 else le_end b - le_start b) (le_pid b)
  | None => mkFlock F_UNLCK (l_whence fl) (l_start fl) (l_len fl) (l_pid fl)
  end.

Definition fcntl_setlk (file_id pid : Z) (fl : flock_arg) (s : lock_st) : Z * lock_st :=
  let '(rs, re) := resolve_range (l_start fl) (l_len fl) in
  if l_type fl =? F_UNLCK then (0, release_range file_id pid rs re s)
  else let '(ok, s') := try_acquire file_id pid (l_type fl) rs re s in
       (if (ok : bool) then 0 else EAGAIN, s').

(** The result is [None] when the process blocks. *)
Definition fcntl_setlkw (file_id pid : Z) (fl : flock_arg) (s : lock_st) : option Z * lock_st :=
  let '(rs, re) := resolve_range (l_start fl) (l_len fl) in
  if l_type fl =? F_UNLCK then (Some 0, release_range file_id pid rs re s)
  else match try_acquire file_id pid (l_type fl) rs re s with
  | (true, s') => (Some 0, s')
  | (false, s') =>
      (None, mkLocks (file_locks s')
         (<[file_id := default [] (lock_waiters s' !! file_id) ++ [mkLock pid (l_type fl) rs re]]>
            (lock_waiters s'))
         (alter (λ p, mkLockProc (lp_reg10 p) true false (lp_prio p)) pid (lock_procs s'))
         (run_queue s'))
  end.

(** ** Mutual exclusion *)

Definition is_lock (e : lock_entry) : Prop := le_type e = F_RDLCK ∨ le_type e = F_WRLCK.

(** Overlapping locks of different processes are all shared. *)
Definition compatible (l : list lock_entry) : Prop :=
  ∀ e1 e2, e1 ∈ l → e2 ∈ l → le_pid e1 ≠ le_pid e2 →
    ranges_overlap (le_start e1) (le_end e1) (le_start e2) (le_end e2) = true →
    is_lock e1 → is_lock e2 → le_type e1 = F_RDLCK ∧ le_type e2 = F_RDLCK.

Definition exclusive (s : lock_st) : Prop :=
  ∀ file l, file_locks s !! file = Some l → compatible l.

Lemma ranges_overlap_sym s1 e1 s2 e2 : ranges_overlap s1 e1 s2 e2 = ranges_overlap s2 e2 s1 e1.
Proof. unfold ranges_overlap. apply andb_comm. Qed.

Lemma list_filter_in {A} (p : A → bool) l e : e ∈ List.filter p l ↔ e ∈ l ∧ p e = true.
Proof. rewrite !list_elem_of_In. apply filter_In. Qed.

Lemma compatible_sub l l' : (∀ e, e ∈ l' → e ∈ l) → compatible l → compatible l'.
Proof. intros Hsub Hc e1 e2 H1 H2. apply Hc; auto. Qed.

Lemma existsb_false {A} (p : A → bool) l : existsb p l = false ↔ ∀ x, x ∈ l → p x = false.
Proof.
  induction l as [|x l IH]; simpl; [set_solver|]. rewrite orb_false_iff, IH.
  setoid_rewrite elem_of_cons. naive_solver.
Qed.

Lemma entries_compatible s file : exclusive s → compatible (entries_of s file).
Proof.
  intros He. unfold entries_of. destruct (file_locks s !! file) as [l|] eqn:E; simpl; [eauto|].
  intros e1 e2 H1. set_solver.
Qed.

Lemma no_conflict_shared pid ty rs re e :
  conflicts pid ty rs re e = false → le_pid e ≠ pid →
  ranges_overlap rs re (le_start e) (le_end e) = true →
  (ty = F_RDLCK ∨ ty = F_WRLCK) → is_lock e → ty = F_RDLCK ∧ le_type e = F_RDLCK.
Proof.
  unfold conflicts, is_lock, F_RDLCK, F_WRLCK. intros Hc Hp Ho Hty Hl.
  destruct (Z.eqb_spec (le_pid e) pid); [done|]. rewrite Ho in Hc. simpl in Hc.
  destruct Hty as [->| ->], Hl as [Hl|Hl]; rewrite ?Hl in *; simpl in Hc; done.
Qed.

Lemma acquire_compatible pid ty rs re l :
  compatible l → (∀ e, e ∈ l → conflicts pid ty rs re e = false) →
  compatible (List.filter (outside pid rs re) l ++ [mkLock pid ty rs re]).
Proof.
  intros Hc Hn e1 e2 [H1| ->%list_elem_of_singleton]%elem_of_app
    [H2| ->%list_elem_of_singleton]%elem_of_app; simpl.
  - apply list_filter_in in H1 as [H1 _], H2 as [H2 _]. by apply Hc.
  - apply list_filter_in in H1 as [H1 _]. intros Hp Ho Hl1 Hl2.
    rewrite ranges_overlap_sym in Ho.
    by destruct (no_conflict_shared pid ty rs re e1 (Hn _ H1) Hp Ho Hl2 Hl1).
  - apply list_filter_in in H2 as [H2 _]. intros Hp Ho Hl1 Hl2.
    eapply no_conflict_shared; [by apply Hn|congruence|done|done|done].
  - congruence.
Qed.

Lemma try_acquire_exclusive file pid ty rs re s :
  exclusive s → exclusive (try_acquire file pid ty rs re s).2.
Proof.
  intros He. unfold try_acquire. destruct (existsb _ _) eqn:E; simpl; intros f l; simpl;
    rewrite lookup_insert_Some; intros [[<- <-]|[_ Hl]]; try by eapply He.
  - by apply entries_compatible.
  - apply acquire_compatible; [by apply entries_compatible|by apply existsb_false].
Qed.

(** Waking a process only touches the process and the run queue. *)
Lemma wake_proc_locks pid s : file_locks (wake_proc pid s) = file_locks s.
Proof. unfold wake_proc. by destruct (lock_procs s !! pid). Qed.

Lemma wake_loop_exclusive file ws acc s :
  exclusive s → exclusive (wake_loop file ws acc s).2.
Proof.
  revert acc s. induction ws as [|w ws IH]; intros acc s He; [done|]. simpl.
  pose proof (try_acquire_exclusive file (le_pid w) (le_type w) (le_start w) (le_end w) s He) as H.
  destruct (try_acquire _ _ _ _ _ s) as [[] s']; simpl in H; apply IH; [|done].
  intros f l. rewrite wake_proc_locks. apply H.
Qed.

Lemma wake_waiters_exclusive file s : exclusive s → exclusive (wake_lock_waiters file s).
Proof.
  intros He. unfold wake_lock_waiters. destruct (lock_waiters s !! file) as [[|w ws]|]; [done| |done].
  pose proof (wake_loop_exclusive file (w :: ws) [] s He) as H. by destruct (wake_loop _ _ _ _).
Qed.

Lemma drop_if_empty_sub id l m f l' :
  drop_if_empty id l m !! f = Some l' → (f = id ∧ l' = l) ∨ m !! f = Some l'.
Proof.
  unfold drop_if_empty. destruct l as [|e l].
  - rewrite lookup_delete_Some. naive_solver.
  - rewrite lookup_insert_Some. naive_solver.
Qed.

Lemma release_range_exclusive file pid rs re s :
  exclusive s → exclusive (release_range file pid rs re s).
Proof.
  intros He. apply wake_waiters_exclusive. destruct (file_locks s !! file) as [l|] eqn:E; [|done].
  intros f l' [[_ ->]|Hl]%drop_if_empty_sub; [|by eapply He].
  eapply compatible_sub; [|by eapply He]. intros e. rewrite list_filter_in. naive_solver.
Qed.

Lemma release_all_exclusive pid s : exclusive s → exclusive (release_all_locks pid s).
Proof.
  intros He. unfold release_all_locks. set (s1 := set_locks _ s).
  assert (exclusive s1) as He1.
  { unfold s1, exclusive. simpl. generalize (sorted_keys (file_locks s)). intros ids.
    unfold exclusive in He. revert He. generalize (file_locks s). clear.
    induction ids as [|id ids IH]; intros m He; [done|]. simpl. apply IH.
    destruct (m !! id) as [v|] eqn:E; [|done].
    intros f l [[_ ->]|Hl]%drop_if_empty_sub; [|by eapply He].
    eapply compatible_sub; [|by eapply He]. intros e. rewrite list_filter_in. naive_solver. }
  revert He1. generalize (sorted_keys (lock_waiters s1)). generalize s1. clear.
  intros s ids. revert s. induction ids as [|id ids IH]; intros s He; [done|]. simpl.
  by apply IH, wake_waiters_exclusive.
Qed.

(** What processes do to the lock tables. *)
Inductive lock_step : lock_st → lock_st → Prop :=
  | step_setlk file pid fl s : lock_step s (fcntl_setlk file pid fl s).2
  | step_setlkw file pid fl s : lock_step s (fcntl_setlkw file pid fl s).2
  | step_close file pid s : lock_step s (release_fd_locks file pid s)
  | step_exit pid s : lock_step s (release_all_locks pid s).

Lemma lock_step_exclusive s s' : lock_step s s' → exclusive s → exclusive s'.
Proof.
  intros [file pid fl s0|file pid fl s0|file pid s0|pid s0] He.
  - unfold fcntl_setlk. destruct (resolve_range _ _) as [rs re].
    destruct (_ =? _); [by apply release_range_exclusive|].
    pose proof (try_acquire_exclusive file pid (l_type fl) rs re s0 He) as H.
    by destruct (try_acquire _ _ _ _ _ _).
  - unfold fcntl_setlkw. destruct (resolve_range _ _) as [rs re].
    destruct (_ =? _); [by apply release_range_exclusive|].
    pose proof (try_acquire_exclusive file pid (l_type fl) rs re s0 He) as H.
    by destruct (try_acquire _ _ _ _ _ _) as [[] s1].
  - by apply release_range_exclusive.
  - by apply release_all_exclusive.
Qed.

(** Byte-range locks exclude each other.  However processes lock, block,
    unlock, close files and exit, starting with no locks, two different processes
    never hold overlapping locks on a file unless both locks are shared. *)
Theorem locks_exclusive s s' file e1 e2 :
  file_locks s = ∅ → rtc lock_step s s' →
  e1 ∈ entries_of s' file → e2 ∈ entries_of s' file → le_pid e1 ≠ le_pid e2 →
  ranges_overlap (le_start e1) (le_end e1) (le_start e2) (le_end e2) = true →
  is_lock e1 → is_lock e2 → le_type e1 = F_RDLCK ∧ le_type e2 = F_RDLCK.
Proof.
  intros H0 Hsteps. assert (exclusive s') as He; [|by apply entries_compatible].
  assert (exclusive s) as He0 by (intros f l; rewrite H0; by rewrite lookup_empty).
  clear H0. induction Hsteps as [|s s1 s' Hst _ IH]; [done|]. eauto using lock_step_exclusive.
Qed.

(** [try_acquire] grants exactly the requests that conflict with no lock
    held.  On success the process holds precisely the requested range in place of
    its own overlapping locks, and every other process's locks on the file, and all
    locks on other files, are untouched; on refusal no lock changes. *)
Theorem try_acquire_exact file pid ty rs re s :
  let '(ok, s') := try_acquire file pid ty rs re s in
  (ok = true ↔ ∀ e, e ∈ entries_of s file → conflicts pid ty rs re e = false) ∧
  (∀ f, f ≠ file → entries_of s' f = entries_of s f) ∧
  ∀ e, e ∈ entries_of s' file ↔
    if ok then e = mkLock pid ty rs re ∨ (e ∈ entries_of s file ∧ outside pid rs re e = true)
    else e ∈ entries_of s file.
Proof.
  unfold try_acquire. destruct (existsb _ _) eqn:E.
  - split_and!.
    + split; [done|]. intros Hn. apply existsb_false in Hn. congruence.
    + intros f Hf. unfold entries_of. simpl. by rewrite lookup_insert_ne.
    + intros e. unfold entries_of at 1. simpl. by rewrite lookup_insert_eq.
  - split_and!.
    + split; [|done]. intros _. by apply existsb_false.
    + intros f Hf. unfold entries_of. simpl. by rewrite lookup_insert_ne.
    + intros e. unfold entries_of at 1. simpl. rewrite lookup_insert_eq. simpl.
      rewrite elem_of_app, list_filter_in, list_elem_of_singleton. naive_solver.
Qed.

(** ** Blocked requests *)

Definition whole_file (ty : Z) : flock_arg := mkFlock ty 0 0 0 0.

(** The lock a request for the whole file asks for. *)
Definition whole_lock (pid ty : Z) : lock_entry := mkLock pid ty 0 i64_max.

Lemma whole_conflicts pid ty q ty' :
  pid ≠ q → ty = F_WRLCK ∨ (ty = F_RDLCK ∧ ty' = F_WRLCK) →
  conflicts pid ty 0 i64_max (whole_lock q ty') = true.
Proof.
  intros Hne Hty. unfold conflicts. simpl. destruct (Z.eqb_spec q pid); [congruence|].
  by destruct Hty as [->|[-> ->]].
Qed.

(** A state in which exactly [l] is locked and exactly [w] waits, on [file]. *)
Definition one_file (file : Z) (l w : list lock_entry) (s : lock_st) : Prop :=
  file_locks s = {[file := l]} ∧ lock_waiters s = {[file := w]}.

(** Waking when the only waiter can be granted. *)
Lemma wake_one file pid ty s :
  entries_of s file = [] → lock_waiters s = {[file := [whole_lock pid ty]]} →
  one_file file [whole_lock pid ty] []
    (wake_lock_waiters file (set_locks ∅ s)).
Proof.
  intros He Hw. unfold wake_lock_waiters. simpl. rewrite Hw, lookup_singleton_eq. simpl.
  unfold try_acquire, entries_of. simpl. rewrite lookup_empty. simpl.
  unfold one_file, wake_proc, set_locks, set_waiters. simpl.
  destruct (lock_procs s !! pid); simpl; rewrite Hw; split;
    by rewrite ?insert_empty, ?insert_singleton_eq.
Qed.

(** Waking when the only waiter conflicts with the only lock changes nothing. *)
Lemma wake_blocked file p q ty s :
  p ≠ q → one_file file [whole_lock p F_WRLCK] [whole_lock q ty] s →
  ty = F_RDLCK ∨ ty = F_WRLCK →
  one_file file [whole_lock p F_WRLCK] [whole_lock q ty] (wake_lock_waiters file s).
Proof.
  intros Hne [Hl Hw] Hty. unfold wake_lock_waiters. rewrite Hw, lookup_singleton_eq.
  cbn [wake_loop le_pid le_type le_start le_end whole_lock].
  assert (try_acquire file q ty 0 i64_max s =
    (false, set_locks (<[file := [whole_lock p F_WRLCK]]> (file_locks s)) s)) as E.
  { unfold try_acquire, entries_of. rewrite Hl, lookup_singleton_eq. simpl.
    by rewrite whole_conflicts by (by destruct Hty; auto). }
  rewrite E. simpl. split; simpl; [by rewrite Hl, insert_singleton_eq|by rewrite Hw, insert_singleton_eq].
Qed.

(** A lock can be granted to a process that has exited.  A process [q] that
    exits while it is blocked on a lock of [p] stays in the queue of waiters; when
    [p] unlocks, the lock is granted to [q], which no longer exists, and every later
    request of another process is refused. *)
Theorem exit_leaves_waiter file p q r s :
  p ≠ q → r ≠ q →
  one_file file [whole_lock p F_WRLCK] [whole_lock q F_WRLCK] s →
  let s1 := release_all_locks q s in
  let s2 := (fcntl_setlk file p (whole_file F_UNLCK) s1).2 in
  entries_of s2 file = [whole_lock q F_WRLCK] ∧
  (fcntl_setlk file r (whole_file F_RDLCK) s2).1 = EAGAIN.
Proof.
  intros Hpq Hrq [Hl Hw]. cbv zeta.
  assert (one_file file [whole_lock p F_WRLCK] [whole_lock q F_WRLCK] (release_all_locks q s)) as H1.
  { unfold release_all_locks, sorted_keys. rewrite Hl. cbn [lock_waiters set_locks]. rewrite Hw.
    rewrite !dom_singleton_L, !elements_singleton. cbn [merge_sort foldl]. simpl.
    rewrite lookup_singleton_eq. simpl. destruct (Z.eqb_spec p q); [done|]. simpl.
    apply wake_blocked; [done| |by right]. split; simpl; [|done]. by rewrite insert_singleton_eq. }
  set (s1 := release_all_locks q s) in *. destruct H1 as [Hl1 Hw1].
  assert (one_file file [whole_lock q F_WRLCK] []
    (fcntl_setlk file p (whole_file F_UNLCK) s1).2) as [Hl2 _].
  { unfold fcntl_setlk, release_range. simpl. rewrite Hl1, lookup_singleton_eq. simpl.
    unfold outside. simpl. rewrite Z.eqb_refl. simpl.
    rewrite delete_singleton_eq. apply (wake_one file q F_WRLCK (set_locks ∅ s1)); [|done].
    unfold entries_of. simpl. by rewrite lookup_empty. }
  set (s2 := (fcntl_setlk file p _ s1).2) in *.
  assert (entries_of s2 file = [whole_lock q F_WRLCK]) as He.
  { unfold entries_of. by rewrite Hl2, lookup_singleton_eq. }
  split; [done|]. unfold fcntl_setlk. simpl. unfold try_acquire. rewrite He. simpl.
  by rewrite whole_conflicts by auto.
Qed.

(** Downgrading a lock does not wake the readers it lets in.  When [p]
    turns its exclusive lock into a shared one, a reader [q] blocked behind it
    conflicts with nothing any more, but stays in the queue and is not made
    runnable. *)
Theorem downgrade_keeps_waiting file p q s :
  p ≠ q →
  one_file file [whole_lock p F_WRLCK] [whole_lock q F_RDLCK] s →
  let '(res, s') := fcntl_setlk file p (whole_file F_RDLCK) s in
  res = 0 ∧ (∀ e, e ∈ entries_of s' file → conflicts q F_RDLCK 0 i64_max e = false) ∧
  lock_waiters s' !! file = Some [whole_lock q F_RDLCK] ∧ run_queue s' = run_queue s ∧
  lock_procs s' = lock_procs s.
Proof.
  intros Hpq [Hl Hw]. unfold fcntl_setlk. simpl. unfold try_acquire, entries_of.
  rewrite Hl, lookup_singleton_eq. simpl. unfold conflicts at 1. simpl. rewrite Z.eqb_refl. simpl.
  unfold outside. simpl. rewrite Z.eqb_refl. simpl. split_and!; [done| |by rewrite Hw, lookup_singleton_eq|done|done].
  intros e. rewrite lookup_insert_eq. simpl. intros ->%list_elem_of_singleton.
  unfold conflicts. simpl. by destruct (p =? q).
Qed.

(** ** Concrete tables *)

Definition two_procs (ty : Z) : lock_st :=
  mkLocks {[7 := [whole_lock 1 F_WRLCK]]} {[7 := [whole_lock 2 ty]]}
    {[1 := mkLockProc None false true 1; 2 := mkLockProc None true false 1]} [].

Lemma exit_leaves_waiter_witness :
  entries_of (fcntl_setlk 7 1 (whole_file F_UNLCK) (release_all_locks 2 (two_procs F_WRLCK))).2 7
    = [whole_lock 2 F_WRLCK].
Proof.
  apply (exit_leaves_waiter 7 1 2 3 (two_procs F_WRLCK)); [lia|lia|].
  split; reflexivity.
Defined.

Lemma downgrade_keeps_waiting_witness :
  (fcntl_setlk 7 1 (whole_file F_RDLCK) (two_procs F_RDLCK)).1 = 0.
Proof.
  pose proof (downgrade_keeps_waiting 7 1 2 (two_procs F_RDLCK) ltac:(lia)
    (conj eq_refl eq_refl)) as H.
  destruct (fcntl_setlk _ _ _ _) as [res s']. exact (proj1 H).
Defined.

Lemma locks_exclusive_witness :
  ∃ s', rtc lock_step (mkLocks ∅ ∅ ∅ []) s' ∧
    entries_of s' 7 = [whole_lock 1 F_RDLCK; whole_lock 2 F_RDLCK] ∧
    le_type (whole_lock 1 F_RDLCK) = F_RDLCK.
Proof.
  set (s0 := mkLocks ∅ ∅ ∅ []).
  set (s1 := (fcntl_setlk 7 1 (whole_file F_RDLCK) s0).2).
  set (s2 := (fcntl_setlk 7 2 (whole_file F_RDLCK) s1).2).
  assert (rtc lock_step s0 s2) as Hs.
  { apply (rtc_l _ _ s1); [apply (step_setlk 7 1)|]. apply rtc_once, (step_setlk 7 2). }
  exists s2. split; [exact Hs|]. split; [vm_compute; reflexivity|].
  assert (entries_of s2 7 = [whole_lock 1 F_RDLCK; whole_lock 2 F_RDLCK]) as He
    by (vm_compute; reflexivity).
  apply (locks_exclusive s0 s2 7 (whole_lock 1 F_RDLCK) (whole_lock 2 F_RDLCK)).
  - reflexivity.
  - exact Hs.
  - rewrite He. set_solver.
  - rewrite He. set_solver.
  - simpl. lia.
  - vm_compute. reflexivity.
  - left. reflexivity.
  - left. reflexivity.
Defined.
