(* ===== verification/Channel.v ===== *)
(** * Channels and ports (src/ipc/channel.rs, src/ipc/port.rs and their system
      calls in src/syscall/ipc.rs)

    Endpoints, ports and epoll instances are shared objects: the state holds them
    by identity, and a reference whose object is gone is a failed [upgrade].
    Section [race] models the blocking read against concurrent writers step by
    step. *)

From Stdlib Require Import ZArith Lia.
From stdpp Require Import prelude gmap strings relations.
From S2P Require Import Prelude Handle.

Local Open Scope Z_scope.

(** ** Objects *)

(** The kernel objects a handle can stand for, by identity. *)
Inductive kobject : Type :=
  | KVmo (id : Z)
  | KChannel (ep : Z)
  | KTty (id : Z)
  | KPipeRead (id : Z)
  | KPipeWrite (id : Z)
  | KVfsFile (server_fd : Z)
  | KPort (port : Z)
  | KJob (id : Z)
  | KEpoll (id : Z)
  | KResource (pa pa_size : Z) (irq : option Z).

#[global] Instance kobject_eq_dec : EqDecision kobject.
Proof. solve_decision. Defined.

Record message : Type := mkMsg { m_bytes : list Z; m_handles : list (handle_entry kobject) }.

Definition SIGNAL_READABLE : Z := 1.
Definition SIGNAL_WRITABLE : Z := 2.
Definition SIGNAL_PEER_CLOSED : Z := 4.

Record packet : Type := mkPacket { pk_key : Z; pk_type : Z; pk_status : Z; pk_signals : Z }.
Record port : Type := mkPort { port_queue : list packet; port_waiter : Z }.
Record observer : Type := mkObs { ob_port : Z; ob_key : Z; ob_trigger : Z }.

Record endpoint : Type := mkEp {
  ep_queue : list message;
  ep_waker : option Z;
  ep_peer_closed : bool;
  ep_peer : Z;
  ep_waiter : Z;
  ep_observers : list observer;
  ep_epoll : list Z;
  ep_signal_waiters : list (Z * Z);
}.

(** [woken] lists the asynchronous tasks woken, [enqueued] the processes made
    runnable, in order. *)
Record chan_st : Type := mkChan {
  endpoints : gmap Z endpoint;
  ports : gmap Z port;
  epolls : gmap Z Z;
  enqueued : list Z;
  woken : list Z;
  next_koid : Z;
}.

Definition set_eps (e : gmap Z endpoint) (s : chan_st) : chan_st :=
  mkChan e (ports s) (epolls s) (enqueued s) (woken s) (next_koid s).
Definition enqueue (pid : Z) (s : chan_st) : chan_st :=
  mkChan (endpoints s) (ports s) (epolls s) (enqueued s ++ [pid]) (woken s) (next_koid s).

(** ** Ports *)

(** [waiter.swap(0)] and waking the process it held. *)
Definition queue_packet (port : Z) (p : packet) (s : chan_st) : chan_st :=
  match ports s !! port with
  | None => s
  | Some q =>
      let s1 := mkChan (endpoints s) (<[port := mkPort (port_queue q ++ [p]) 0]> (ports s))
                  (epolls s) (enqueued s) (woken s) (next_koid s) in
      if 0 <? port_waiter q then enqueue (port_waiter q) s1 else s1
  end.

Definition port_try_recv (port : Z) (s : chan_st) : option packet * chan_st :=
  match ports s !! port with
  | Some (mkPort (p :: q) w) =>
      (Some p, mkChan (endpoints s) (<[port := mkPort q w]> (ports s)) (epolls s)
                 (enqueued s) (woken s) (next_koid s))
  | _ => (None, s)
  end.

(** ** Waking *)

(** [wake_epoll_waiters] over a list of weak references: the live ones are kept
    and their waiters woken. *)
Fixpoint wake_epolls (l : list Z) (s : chan_st) : list Z * chan_st :=
  match l with
  | [] => ([], s)
  | i :: l' =>
      match epolls s !! i with
      | None => wake_epolls l' s
      | Some w =>
          let s1 := mkChan (endpoints s) (ports s) (<[i := 0]> (epolls s)) (enqueued s) (woken s)
                      (next_koid s) in
          let '(kept, s2) := wake_epolls l' (if 0 <? w then enqueue w s1 else s1) in
          (i :: kept, s2)
      end
  end.

Definition get_signals (e : endpoint) : Z :=
  Z.lor (match ep_queue e with [] => 0 | _ => SIGNAL_READABLE end)
    (if ep_peer_closed e then SIGNAL_PEER_CLOSED else SIGNAL_WRITABLE).

Definition upd_ep (id : Z) (f : endpoint → endpoint) (s : chan_st) : chan_st :=
  set_eps (alter f id (endpoints s)) s.

(** Direct waiters whose mask is hit are removed and woken in order; then each
    observer whose trigger is hit queues a packet. *)
Definition notify_signals (id active : Z) (s : chan_st) : chan_st :=
  match endpoints s !! id with
  | None => s
  | Some e =>
      let hit := List.filter (λ w, negb (Z.land active w.2 =? 0)) (ep_signal_waiters e) in
      let rest := List.filter (λ w, Z.land active w.2 =? 0) (ep_signal_waiters e) in
      let s1 := upd_ep id (λ e, mkEp (ep_queue e) (ep_waker e) (ep_peer_closed e) (ep_peer e)
                   (ep_waiter e) (ep_observers e) (ep_epoll e) rest) s in
      let s2 := foldl (λ s w, enqueue w.1 s) s1 hit in
      foldl (λ s o, if Z.land active (ob_trigger o) =? 0 then s
                    else queue_packet (ob_port o) (mkPacket (ob_key o) 1 0 active) s)
        s2 (ep_observers e)
  end.

Definition notify (id : Z) (s : chan_st) : chan_st :=
  match endpoints s !! id with
  | Some e => notify_signals id (get_signals e) s
  | None => s
  end.

(** ** Endpoints *)

Definition new_ep (peer : Z) : endpoint := mkEp [] None false peer 0 [] [] [].

Definition create_pair (s : chan_st) : (Z * Z) * chan_st :=
  let a := next_koid s in
  let b := a + 1 in
  ((a, b), mkChan (<[b := new_ep a]> (<[a := new_ep b]> (endpoints s))) (ports s) (epolls s)
             (enqueued s) (woken s) (b + 1)).

(** Pushing the message and taking the asynchronous waker, under the lock. *)
Definition push_message (peer : Z) (m : message) (s : chan_st) : chan_st :=
  match endpoints s !! peer with
  | None => s
  | Some e =>
      mkChan (<[peer := mkEp (ep_queue e ++ [m]) None (ep_peer_closed e) (ep_peer e) (ep_waiter e)
                          (ep_observers e) (ep_epoll e) (ep_signal_waiters e)]> (endpoints s))
        (ports s) (epolls s) (enqueued s)
        (woken s ++ match ep_waker e with Some t => [t] | None => [] end) (next_koid s)
  end.

Definition take_waiter (id : Z) (s : chan_st) : Z * chan_st :=
  match endpoints s !! id with
  | None => (0, s)
  | Some e => (ep_waiter e, upd_ep id (λ e, mkEp (ep_queue e) (ep_waker e) (ep_peer_closed e)
      (ep_peer e) 0 (ep_observers e) (ep_epoll e) (ep_signal_waiters e)) s)
  end.

Definition wake_ep_epolls (id : Z) (s : chan_st) : chan_st :=
  match endpoints s !! id with
  | None => s
  | Some e =>
      let '(kept, s1) := wake_epolls (ep_epoll e) s in
      upd_ep id (λ e, mkEp (ep_queue e) (ep_waker e) (ep_peer_closed e) (ep_peer e) (ep_waiter e)
        (ep_observers e) kept (ep_signal_waiters e)) s1
  end.

(** The live peer of an endpoint. *)
Definition peer_of (id : Z) (s : chan_st) : option Z :=
  match endpoints s !! id with
  | Some e => match endpoints s !! ep_peer e with Some _ => Some (ep_peer e) | None => None end
  | None => None
  end.

Definition write (id : Z) (m : message) : M chan_st unit := λ s,
  match peer_of id s with
  | None => (Err "Peer closed", s)
  | Some peer =>
      let s1 := push_message peer m s in
      let '(waiter, s2) := take_waiter peer s1 in
      let s3 := if 0 <? waiter then enqueue waiter s2 else s2 in
      (Ok tt, notify peer (wake_ep_epolls peer s3))
  end.

Definition write_fast (id : Z) (m : message) : M chan_st (option Z) := λ s,
  match peer_of id s with
  | None => (Err "Peer closed", s)
  | Some peer =>
      let s1 := wake_ep_epolls peer (push_message peer m s) in
      let '(waiter, s2) := take_waiter peer s1 in
      (Ok (if 0 <? waiter then Some waiter else None), notify peer s2)
  end.

Definition set_queue (id : Z) (q : list message) (s : chan_st) : chan_st :=
  upd_ep id (λ e, mkEp q (ep_waker e) (ep_peer_closed e) (ep_peer e) (ep_waiter e)
    (ep_observers e) (ep_epoll e) (ep_signal_waiters e)) s.

Definition try_recv (id : Z) (s : chan_st) : option message * chan_st :=
  match endpoints s !! id with
  | Some e => match ep_queue e with
              | m :: q => (Some m, notify id (set_queue id q s))
              | [] => (None, s)
              end
  | None => (None, s)
  end.

(** [Err] carries the sizes the message needs. *)
Definition try_recv_constrained (id : Z) (max_bytes max_handles : nat) (s : chan_st)
    : (option message + nat * nat) * chan_st :=
  match endpoints s !! id with
  | Some e => match ep_queue e with
              | m :: q =>
                  if (max_bytes <? length (m_bytes m))%nat || (max_handles <? length (m_handles m))%nat
                  then (inr (length (m_bytes m), length (m_handles m)), s)
                  else (inl (Some m), notify id (set_queue id q s))
              | [] => (inl None, s)
              end
  | None => (inl None, s)
  end.

Inductive poll_result : Type := Ready (m : message) | ReadyClosed | Pending.

Definition poll_recv (id task : Z) (s : chan_st) : poll_result * chan_st :=
  match endpoints s !! id with
  | None => (Pending, s)
  | Some e =>
      match ep_queue e with
      | m :: q => (Ready m, notify id (set_queue id q s))
      | [] =>
          if ep_peer_closed e then (ReadyClosed, s)
          else (Pending, upd_ep id (λ e, mkEp (ep_queue e) (Some task) (ep_peer_closed e) (ep_peer e)
                  (ep_waiter e) (ep_observers e) (ep_epoll e) (ep_signal_waiters e)) s)
      end
  end.

(** The last reference to an endpoint goes away. *)
Definition drop_endpoint (id : Z) (s : chan_st) : chan_st :=
  let s' := match peer_of id s with
  | None => s
  | Some peer =>
      match endpoints s !! peer with
      | None => s
      | Some e =>
          let s1 := mkChan (<[peer := mkEp (ep_queue e) None true (ep_peer e) (ep_waiter e)
                      (ep_observers e) (ep_epoll e) (ep_signal_waiters e)]> (endpoints s))
                      (ports s) (epolls s) (enqueued s)
                      (woken s ++ match ep_waker e with Some t => [t] | None => [] end) (next_koid s) in
          let '(waiter, s2) := take_waiter peer s1 in
          let s3 := if 0 <? waiter then enqueue waiter s2 else s2 in
          let s4 := foldl (λ s w, enqueue w.1 s) s3 (ep_signal_waiters e) in
          let s5 := upd_ep peer (λ e, mkEp (ep_queue e) (ep_waker e) (ep_peer_closed e) (ep_peer e)
                      (ep_waiter e) (ep_observers e) (ep_epoll e) []) s4 in
          notify peer s5
      end
  end in
  set_eps (delete id (endpoints s')) s'.

(** ** System calls *)

Record proc_st : Type := mkProc { p_fds : handle_table kobject; p_chan : chan_st }.

(** What a call does to the caller: return a value (with the data a read copies
    out), or give up the processor with the call to be repeated or returning. *)
Inductive sysret : Type :=
  | SysRet (r10 : Z)
  | SysRead (bytes : list Z) (handles : list Z)
  | SysYield (r10 : Z)
  | SysBlock.

Definition sys_channel_create (ptr_ok : bool) : M proc_st sysret := λ p,
  let '((ep1, ep2), c) := create_pair (p_chan p) in
  match (h1 ← insert (KChannel ep1); h2 ← insert (KChannel ep2); mret (h1, h2)) (p_fds p) with
  | (Ok (h1, h2), fds) =>
      if ptr_ok then (Ok (SysRead [] [h1; h2]), mkProc fds c)
      else (Ok (SysRet EFAULT),
            mkProc (remove h2 (remove h1 fds).2).2 (drop_endpoint ep2 (drop_endpoint ep1 c)))
  | (Err e, fds) => (Err e, mkProc fds c)
  | (Panic w, fds) => (Panic w, mkProc fds c)
  end.

(** The checks of [sys_channel_write] on the handles to transfer, in order. *)
Fixpoint has_duplicate (l : list Z) : bool :=
  match l with
  | [] => false
  | h :: l' => bool_decide (h ∈ l') || has_duplicate l'
  end.

Fixpoint check_transfer (fds : handle_table kobject) (hs : list Z) : option Z :=
  match hs with
  | [] => None
  | h :: hs' =>
      match get_entry fds h with
      | None => Some EBADF
      | Some e => if rights_contains (he_rights e) RIGHT_TRANSFER then check_transfer fds hs'
                  else Some EACCES
      end
  end.

Fixpoint remove_entries (hs : list Z) (fds : handle_table kobject)
    : list (handle_entry kobject) * handle_table kobject :=
  match hs with
  | [] => ([], fds)
  | h :: hs' =>
      let '(o, fds1) := remove_entry h fds in
      let '(es, fds2) := remove_entries hs' fds1 in
      (match o with Some e => e :: es | None => es end, fds2)
  end.

(** [buf] and [handle_ids] are what the user pointers point to, if valid. *)
Definition sys_channel_write (pid fd : Z) (buf handle_ids : option (list Z)) (handles_len : Z)
    : M proc_st sysret := λ p,
  if 8 <? handles_len then (Ok (SysRet EINVAL), p)
  else match buf, handle_ids with
  | None, _ | _, None => (Ok (SysRet EFAULT), p)
  | Some bytes, Some hs =>
      match get_with_rights (p_fds p) fd RIGHT_WRITE with
      | inl (KChannel ep) =>
          if bool_decide (fd ∈ hs) then (Ok (SysRet EINVAL), p)
          else if has_duplicate hs then (Ok (SysRet EINVAL), p)
          else match check_transfer (p_fds p) hs with
          | Some err => (Ok (SysRet err), p)
          | None =>
              let '(handles, fds) := remove_entries hs (p_fds p) in
              match write_fast ep (mkMsg bytes handles) (p_chan p) with
              | (Ok (Some waiter), c) => (Ok (SysYield 0), mkProc fds (enqueue waiter (enqueue pid c)))
              | (Ok None, c) => (Ok (SysRet 0), mkProc fds c)
              | (Err _, c) => (Ok (SysRet usize_max), mkProc fds c)
              | (Panic w, c) => (Panic w, mkProc fds c)
              end
          end
      | _ => (Ok (SysRet EACCES), p)
      end
  end.

(** Entering received entries in the reader's table ([copy_msg_to_user]). *)
Fixpoint mint_handles (entries : list (handle_entry kobject)) : M (handle_table kobject) (list Z) :=
  match entries with
  | [] => mret []
  | e :: es => λ t,
      match lowest_free t with
      | None => (Panic "handle table full (65536 handles exhausted)", t)
      | Some new_id =>
          let new_h := encode_handle new_id (wrap 16 (he_generation e + 1)) in
          (hs ← mint_handles es; mret (new_h :: hs)) (insert_entry new_h e t)
      end
  end.

Definition copy_msg_to_user (m : message) (buf_len handles_len : nat) : M proc_st sysret := λ p,
  match mint_handles (take handles_len (m_handles m)) (p_fds p) with
  | (Ok hs, fds) => (Ok (SysRead (take buf_len (m_bytes m)) hs), mkProc fds (p_chan p))
  | (Err e, fds) => (Err e, mkProc fds (p_chan p))
  | (Panic w, fds) => (Panic w, mkProc fds (p_chan p))
  end.

Definition set_ep_waiter (id pid : Z) (s : chan_st) : chan_st :=
  upd_ep id (λ e, mkEp (ep_queue e) (ep_waker e) (ep_peer_closed e) (ep_peer e) pid
    (ep_observers e) (ep_epoll e) (ep_signal_waiters e)) s.

Definition is_peer_closed (id : Z) (s : chan_st) : bool :=
  match endpoints s !! id with Some e => ep_peer_closed e | None => false end.

(** The read without interference; the interleavings are in section [race]. *)
Definition sys_channel_read (pid fd : Z) (ptrs_ok : bool) (buf_len handles_len : nat)
    : M proc_st sysret := λ p,
  if negb ptrs_ok then (Ok (SysRet EFAULT), p)
  else match get_with_rights (p_fds p) fd RIGHT_READ with
  | inl (KChannel ep) =>
      match try_recv_constrained ep buf_len handles_len (p_chan p) with
      | (inl (Some m), c) => copy_msg_to_user m buf_len handles_len (mkProc (p_fds p) c)
      | (inl None, c) =>
          if is_peer_closed ep c then (Ok (SysRead [] []), mkProc (p_fds p) c)
          else (Ok SysBlock, mkProc (p_fds p) (set_ep_waiter ep pid c))
      | (inr _, c) => (Ok (SysRet EINVAL), mkProc (p_fds p) c)
      end
  | _ => (Ok (SysRet EACCES), p)
  end.

Definition sys_port_bind (object_fd port_fd key trigger : Z) : M proc_st sysret := λ p,
  match get_with_rights (p_fds p) port_fd RIGHT_WRITE with
  | inl (KPort port) =>
      match get_with_rights (p_fds p) object_fd RIGHT_READ with
      | inl (KChannel ep) =>
          let c1 := upd_ep ep (λ e, mkEp (ep_queue e) (ep_waker e) (ep_peer_closed e) (ep_peer e)
            (ep_waiter e) (ep_observers e ++ [mkObs port key trigger]) (ep_epoll e)
            (ep_signal_waiters e)) (p_chan p) in
          let sigs := match endpoints c1 !! ep with Some e => get_signals e | None => 0 end in
          (Ok (SysRet 0), mkProc (p_fds p)
             (if Z.land sigs trigger =? 0 then c1
              else queue_packet port (mkPacket key 1 0 sigs) c1))
      | _ => (Ok (SysRet EACCES), p)
      end
  | _ => (Ok (SysRet EACCES), p)
  end.

Definition sys_port_create (ptr_ok : bool) : M proc_st sysret := λ p,
  if negb ptr_ok then (Ok (SysRet EFAULT), p)
  else
    let c := p_chan p in
    let id := next_koid c in
    let c' := mkChan (endpoints c) (<[id := mkPort [] 0]> (ports c)) (epolls c) (enqueued c) (woken c)
                (id + 1) in
    match insert (KPort id) (p_fds p) with
    | (Ok h, fds) => (Ok (SysRead [] [h]), mkProc fds c')
    | (Err e, fds) => (Err e, mkProc fds c')
    | (Panic w, fds) => (Panic w, mkProc fds c')
    end.

(** A wait returns the oldest packet, or registers the caller and blocks; nothing
    can arrive between the two tries of the source when no one interferes. *)
Definition sys_port_wait (pid port_fd : Z) (ptr_ok : bool) (p : proc_st)
    : (sysret * option packet) * proc_st :=
  if negb ptr_ok then ((SysRet EFAULT, None), p)
  else match get_with_rights (p_fds p) port_fd RIGHT_READ with
  | inl (KPort port) =>
      match port_try_recv port (p_chan p) with
      | (Some pk, c) => ((SysRet 0, Some pk), mkProc (p_fds p) c)
      | (None, c) =>
          ((SysBlock, None),
           mkProc (p_fds p) (mkChan (endpoints c) (alter (λ q, mkPort (port_queue q) pid) port (ports c))
             (epolls c) (enqueued c) (woken c) (next_koid c)))
      end
  | _ => ((SysRet EACCES, None), p)
  end.

(** [observed] is what is stored through the user's pointer, if it is not null. *)
Definition sys_object_wait_one (pid handle mask : Z) (ptr_ok : bool) (p : proc_st)
    : (sysret * option Z) * proc_st :=
  if negb ptr_ok then ((SysRet EFAULT, None), p)
  else match get (p_fds p) handle with
  | Some (KChannel ep) =>
      let sigs := match endpoints (p_chan p) !! ep with Some e => get_signals e | None => 0 end in
      if Z.land sigs mask =? 0 then
        ((SysBlock, None), mkProc (p_fds p) (upd_ep ep (λ e, mkEp (ep_queue e) (ep_waker e)
          (ep_peer_closed e) (ep_peer e) (ep_waiter e) (ep_observers e) (ep_epoll e)
          (ep_signal_waiters e ++ [(pid, mask)])) (p_chan p)))
      else ((SysRet 0, Some sigs), p)
  | _ => ((SysRet EBADF, None), p)
  end.

Definition sys_port_queue (port_fd : Z) (pkt : option packet) : M proc_st sysret := λ p,
  match pkt with
  | None => (Ok (SysRet EFAULT), p)
  | Some pk =>
      match get_with_rights (p_fds p) port_fd RIGHT_WRITE with
      | inl (KPort port) => (Ok (SysRet 0), mkProc (p_fds p) (queue_packet port pk (p_chan p)))
      | _ => (Ok (SysRet EACCES), p)
      end
  end.

Definition sys_handle_duplicate (handle rights : Z) : M (handle_table kobject) Z := λ t,
  match get_entry t handle with
  | None => (Ok EBADF, t)
  | Some e =>
      if negb (rights_contains (he_rights e) RIGHT_DUPLICATE) then (Ok EACCES, t)
      else
        let req := Z.land rights rights_all in
        if negb (rights_contains (he_rights e) req) then (Ok EACCES, t)
        else insert_with_rights (he_object e) req t
  end.

Definition sys_handle_get_rights (handle : Z) (t : handle_table kobject) : Z :=
  match get_entry t handle with Some e => he_rights e | None => EBADF end.

Definition sys_dup (old_fd : Z) : M (handle_table kobject) Z := λ t,
  match get_entry t old_fd with
  | None => (Ok EBADF, t)
  | Some e =>
      if negb (rights_contains (he_rights e) RIGHT_DUPLICATE) then (Ok EACCES, t)
      else (o ← dup old_fd; mret (default EBADF o)) t
  end.

Definition sys_dup2 (old_fd new_fd : Z) (t : handle_table kobject) : Z * handle_table kobject :=
  if old_fd =? new_fd then (new_fd, t)
  else match get_entry t old_fd with
  | None => (EBADF, t)
  | Some e =>
      if negb (rights_contains (he_rights e) RIGHT_DUPLICATE) then (EACCES, t)
      else let '(ok, t') := dup2 old_fd new_fd t in
           (if (ok : bool) then new_fd else EBADF, t')
  end.

(** ** A blocking read against concurrent writers

    One reader of an endpoint and any number of writers and closers of its peer on
    other processors.  Each constructor is one atomic access of the source: a
    critical section of the endpoint's lock or an access of [waiter].  [r_pend]
    counts writers between the push and the [swap] that wakes the reader, [r_enq]
    says that the reader has been put in the run queue, and [r_sent]/[r_got] are
    the messages pushed and received so far. *)
Section race.

Inductive reader_pc : Type :=
  | RStart                    (** about to try the first receive *)
  | RTried                    (** it found nothing; about to test for a closed peer *)
  | RMiss                     (** not closed; about to register as waiter *)
  | RRegistered               (** registered; about to try again *)
  | RRetried                  (** nothing again; about to test for a closed peer *)
  | RBlocked                  (** gave up the processor *)
  | RGot (m : Z)              (** returned a message *)
  | REof.                     (** returned end of file *)

Record race_st : Type := mkRace {
  r_queue : list Z;
  r_closed : bool;
  r_waiter : Z;
  r_pend : nat;
  r_enq : bool;
  r_pc : reader_pc;
  r_sent : list Z;
  r_got : list Z;
}.

Inductive race_step (pid : Z) : race_st → race_st → Prop :=
  | rs_push q c w n e pc sent got m :
      race_step pid (mkRace q c w n e pc sent got) (mkRace (q ++ [m]) c w (S n) e pc (sent ++ [m]) got)
  | rs_close q c w n e pc sent got :
      race_step pid (mkRace q c w n e pc sent got) (mkRace q true w (S n) e pc sent got)
  | rs_swap q c w n e pc sent got :
      race_step pid (mkRace q c w (S n) e pc sent got)
        (mkRace q c 0 n (e || (0 <? w)) pc sent got)
  | rs_recv m q c w n e sent got :
      race_step pid (mkRace (m :: q) c w n e RStart sent got)
        (mkRace q c w n e (RGot m) sent (got ++ [m]))
  | rs_empty c w n e sent got :
      race_step pid (mkRace [] c w n e RStart sent got) (mkRace [] c w n e RTried sent got)
  | rs_eof q w n e sent got :
      race_step pid (mkRace q true w n e RTried sent got) (mkRace q true w n e REof sent got)
  | rs_open q w n e sent got :
      race_step pid (mkRace q false w n e RTried sent got) (mkRace q false w n e RMiss sent got)
  | rs_register q c w n e sent got :
      race_step pid (mkRace q c w n e RMiss sent got) (mkRace q c pid n e RRegistered sent got)
  | rs_recv2 m q c w n e sent got :
      race_step pid (mkRace (m :: q) c w n e RRegistered sent got)
        (mkRace q c 0 n e (RGot m) sent (got ++ [m]))
  | rs_empty2 c w n e sent got :
      race_step pid (mkRace [] c w n e RRegistered sent got) (mkRace [] c w n e RRetried sent got)
  | rs_eof2 q w n e sent got :
      race_step pid (mkRace q true w n e RRetried sent got) (mkRace q true 0 n e REof sent got)
  | rs_block q w n e sent got :
      race_step pid (mkRace q false w n e RRetried sent got) (mkRace q false w n e RBlocked sent got)
  | rs_resume q c w n sent got :
      race_step pid (mkRace q c w n true RBlocked sent got) (mkRace q c w n false RStart sent got)
  | rs_again_msg m q c w n e sent got :
      race_step pid (mkRace q c w n e (RGot m) sent got) (mkRace q c w n e RStart sent got).

Definition race_init : race_st := mkRace [] false 0 0 false RStart [] [].

(** While the reader is registered it is either still in [waiter] or already in
    the run queue; and once it found the queue empty, anything that arrived since
    is accounted for by a writer that will wake it or has. *)
Definition race_inv (pid : Z) (s : race_st) : Prop :=
  r_got s ++ r_queue s = r_sent s ∧
  match r_pc s with
  | RRegistered => r_enq s = true ∨ r_waiter s = pid
  | RRetried => (r_enq s = true ∨ r_waiter s = pid) ∧
      (r_queue s ≠ [] → r_enq s = true ∨ (0 < r_pend s)%nat)
  | RBlocked => (r_enq s = true ∨ r_waiter s = pid) ∧
      (r_queue s ≠ [] ∨ r_closed s = true → r_enq s = true ∨ (0 < r_pend s)%nat)
  | _ => True
  end.

Lemma race_step_inv pid s s' : 0 < pid → race_step pid s s' → race_inv pid s → race_inv pid s'.
Proof.
  intros Hpid Hst [Hq Hpc].
  destruct Hst as [q c w n e pc sent got m|q c w n e pc sent got|q c w n e pc sent got|
    m q c w n e sent got|c w n e sent got|q w n e sent got|q w n e sent got|q c w n e sent got|
    m q c w n e sent got|c w n e sent got|q w n e sent got|q w n e sent got|q c w n sent got|
    m q c w n e sent got];
    unfold race_inv in *; simpl in *;
    (split; [rewrite <-Hq, <-?app_assoc; done|]); try done; [..|naive_solver].
  - destruct pc; simpl in *; naive_solver lia.
  - destruct pc; simpl in *; naive_solver lia.
  - destruct pc; simpl in *; try done; destruct (Z.ltb_spec 0 w);
      rewrite ?orb_true_r, ?orb_false_r; naive_solver lia.
  - by right.
Qed.

Lemma race_reachable_inv pid s : 0 < pid → rtc (race_step pid) race_init s → race_inv pid s.
Proof.
  intros Hpid Hr. assert (race_inv pid race_init) as H0 by done. revert H0.
  induction Hr as [|s1 s2 s3 Hst _ IH]; [done|]. intros H. apply IH.
  by eapply race_step_inv.
Qed.

(** C19: A blocked reader is never forgotten.  Whatever writers and closers do
    concurrently, when the reader has given up the processor and no writer is
    between its push and its wake-up, either the reader is already back in the run
    queue or there is really nothing to report: the queue is empty, the peer is open
    and the reader is registered for the next wake-up. *)
Theorem channel_no_lost_wakeup pid s :
  0 < pid → rtc (race_step pid) race_init s → r_pc s = RBlocked → r_pend s = 0%nat →
  r_enq s = true ∨ (r_queue s = [] ∧ r_closed s = false ∧ r_waiter s = pid).
Proof.
  intros Hpid Hr Hpc Hpend. destruct (race_reachable_inv pid s Hpid Hr) as [_ H].
  rewrite Hpc, Hpend in H. destruct H as [H1 H2]. destruct (r_enq s); [by left|]. right.
  destruct H1 as [|Hw]; [done|].
  destruct (r_queue s) eqn:Hq; [|exfalso; destruct H2 as [|]; [by left|done|lia]].
  destruct (r_closed s); [exfalso; destruct H2 as [|]; [by right|done|lia]|done].
Qed.

(** A channel is a reliable queue: under any interleaving the messages the
    reader has received, followed by those still queued, are exactly the messages
    written, in order; none is lost, duplicated or reordered. *)
Theorem channel_reliable_fifo pid s :
  0 < pid → rtc (race_step pid) race_init s → r_got s ++ r_queue s = r_sent s.
Proof. intros Hpid Hr. apply (race_reachable_inv pid s Hpid Hr). Qed.

(** End of file can be reported while a message is waiting.  The reader
    tests for messages and for a closed peer in two critical sections: a writer that
    sends and then closes between them makes the read return end of file although a
    message is queued. *)
Theorem channel_premature_eof pid m :
  ∃ s, rtc (race_step pid) race_init s ∧ r_pc s = REof ∧ r_queue s = [m] ∧ r_got s = [].
Proof.
  eexists. split.
  - eapply rtc_l; [apply rs_empty|]. eapply rtc_l; [apply (rs_push _ _ _ _ _ _ _ _ _ m)|].
    eapply rtc_l; [apply rs_close|]. eapply rtc_l; [apply rs_eof|]. apply rtc_refl.
  - done.
Qed.

Lemma channel_no_lost_wakeup_witness :
  ∃ s, r_pc s = RBlocked ∧ (r_enq s = true ∨ r_waiter s = 5).
Proof.
  assert (rtc (race_step 5) race_init (mkRace [] false 5 0 false RBlocked [] [])) as Hr.
  { eapply rtc_l; [apply rs_empty|]. eapply rtc_l; [apply rs_open|].
    eapply rtc_l; [apply rs_register|]. eapply rtc_l; [apply rs_empty2|].
    eapply rtc_l; [apply rs_block|]. apply rtc_refl. }
  exists (mkRace [] false 5 0 false RBlocked [] []). split; [reflexivity|].
  destruct (channel_no_lost_wakeup 5 (mkRace [] false 5 0 false RBlocked [] []))
    as [H|(_ & _ & H)]; [lia|exact Hr|reflexivity|reflexivity|by left|by right].
Defined.

Lemma channel_reliable_fifo_witness :
  ∃ s, rtc (race_step 5) race_init s ∧ r_got s ++ r_queue s = [7].
Proof.
  set (s := mkRace [7] false 0 1 false RTried [7] []).
  assert (rtc (race_step 5) race_init s) as Hr.
  { eapply rtc_l; [apply rs_empty|]. eapply rtc_l; [apply (rs_push _ _ _ _ _ _ _ _ _ 7)|].
    apply rtc_refl. }
  exists s. split; [exact Hr|]. apply (channel_reliable_fifo 5 s); [lia|exact Hr].
Defined.
End race.

(** ** Capabilities in messages *)

Lemma remove_entries_spec hs t :
  NoDup hs →
  (remove_entries hs t).1 = omap (get_entry t) hs ∧
  (∀ h, get_entry (remove_entries hs t).2 h = if decide (h ∈ hs) then None else get_entry t h).
Proof.
  revert t. induction hs as [|h hs IH]; intros t Hnd; cbn [remove_entries].
  - split; [done|]. intros h. by rewrite decide_False by set_solver.
  - apply NoDup_cons in Hnd as [Hnin Hnd]. destruct (remove_entry_spec h t) as (H1 & H2 & _).
    destruct (remove_entry h t) as [o t1]. cbn [fst snd] in H1, H2.
    destruct (IH t1 Hnd) as [H3 H4]. destruct (remove_entries hs t1) as [es t2].
    cbn [fst snd] in *. split.
    + cbn [omap list_omap]. rewrite H1, H3.
      assert (omap (get_entry t1) hs = omap (get_entry t) hs) as ->; [|by destruct (get_entry t h)].
      apply list_omap_ext, Forall2_same_length_lookup. split; [done|].
      intros i x y Hx Hy. assert (x = y) as -> by congruence. rewrite H2.
      rewrite decide_False; [done|]. intros ->. apply Hnin. by eapply list_elem_of_lookup_2.
    + intros h'. rewrite H4, H2. repeat case_decide; set_solver.
Qed.

Lemma has_duplicate_NoDup hs : has_duplicate hs = false → NoDup hs.
Proof.
  induction hs as [|h hs IH]; simpl; [constructor|].
  rewrite orb_false_iff, bool_decide_eq_false. intros [H1 H2]. constructor; auto.
Qed.

Lemma check_transfer_None fds hs :
  check_transfer fds hs = None →
  ∀ h, h ∈ hs → ∃ e, get_entry fds h = Some e ∧ rights_contains (he_rights e) RIGHT_TRANSFER = true.
Proof.
  induction hs as [|h hs IH]; simpl; [set_solver|].
  destruct (get_entry fds h) as [e|] eqn:E; [|done].
  destruct (rights_contains _ _) eqn:Er; [|done]. intros Hc h' [->|Hh']%elem_of_cons; eauto.
Qed.

(** *** Waking and notifying leave message queues alone *)

Definition queue_of (s : chan_st) (id : Z) : option (list message) := ep_queue <$> endpoints s !! id.

Definition same_queues (s s' : chan_st) : Prop := ∀ id, queue_of s' id = queue_of s id.

#[global] Instance same_queues_preorder : PreOrder same_queues.
Proof. split; [done|]. intros s1 s2 s3 H1 H2 id. by rewrite H2. Qed.

Lemma same_queues_endpoints s s' : endpoints s' = endpoints s → same_queues s s'.
Proof. intros H id. unfold queue_of. by rewrite H. Qed.

Lemma upd_ep_queues id f s : (∀ e, ep_queue (f e) = ep_queue e) → same_queues s (upd_ep id f s).
Proof.
  intros Hf id'. unfold queue_of, upd_ep. simpl.
  destruct (decide (id = id')) as [->|Hne]; [|by rewrite lookup_alter_ne].
  rewrite lookup_alter_eq. destruct (endpoints s !! id'); simpl; [by rewrite Hf|done].
Qed.

Lemma queue_packet_queues port p s : same_queues s (queue_packet port p s).
Proof.
  apply same_queues_endpoints. unfold queue_packet. destruct (ports s !! port); [|done].
  by destruct (0 <? _).
Qed.

Lemma foldl_queues {A} (f : chan_st → A → chan_st) l s :
  (∀ s x, same_queues s (f s x)) → same_queues s (foldl f s l).
Proof.
  intros Hf. revert s. induction l as [|x l IH]; intros s; [done|]. simpl.
  etrans; [apply Hf|apply IH].
Qed.

Lemma notify_queues id s : same_queues s (notify id s).
Proof.
  unfold notify, notify_signals. destruct (endpoints s !! id) as [e|]; [|done].
  etrans; [|apply foldl_queues]; [|intros s' o; destruct (_ =? _); [done|apply queue_packet_queues]].
  etrans; [|apply foldl_queues]; [|intros s' w; by apply same_queues_endpoints].
  by apply upd_ep_queues.
Qed.

Lemma wake_epolls_endpoints l s : endpoints (wake_epolls l s).2 = endpoints s.
Proof.
  revert s. induction l as [|i l IH]; intros s; [done|]. simpl.
  destruct (epolls s !! i) as [w|]; [|apply IH].
  set (s1 := mkChan _ _ _ _ _ _). specialize (IH (if 0 <? w then enqueue w s1 else s1)).
  destruct (wake_epolls l _). simpl in *. rewrite IH. by destruct (0 <? w).
Qed.

Lemma wake_ep_epolls_queues id s : same_queues s (wake_ep_epolls id s).
Proof.
  unfold wake_ep_epolls. destruct (endpoints s !! id) as [e|]; [|done].
  pose proof (wake_epolls_endpoints (ep_epoll e) s) as H. destruct (wake_epolls _ s) as [kept s1].
  etrans; [by apply same_queues_endpoints|]. by apply upd_ep_queues.
Qed.

Lemma take_waiter_queues id s : same_queues s (take_waiter id s).2.
Proof.
  unfold take_waiter. destruct (endpoints s !! id); [|done]. by apply upd_ep_queues.
Qed.

Lemma push_message_queue peer m s q :
  queue_of s peer = Some q → ∀ id, queue_of (push_message peer m s) id =
    if decide (id = peer) then Some (q ++ [m]) else queue_of s id.
Proof.
  intros Hq id. unfold push_message, queue_of in *. destruct (endpoints s !! peer) as [e|] eqn:E; [|done].
  simpl in *. injection Hq as <-. case_decide as Hd.
  - subst. by rewrite lookup_insert_eq.
  - by rewrite lookup_insert_ne.
Qed.

(** Writing appends to the peer's queue and to no other. *)
Lemma write_fast_queues id m s peer q :
  peer_of id s = Some peer → queue_of s peer = Some q →
  ∃ w s', write_fast id m s = (Ok w, s') ∧
    ∀ id', queue_of s' id' = if decide (id' = peer) then Some (q ++ [m]) else queue_of s id'.
Proof.
  intros Hp Hq. unfold write_fast. rewrite Hp.
  set (s1 := wake_ep_epolls peer (push_message peer m s)).
  pose proof (take_waiter_queues peer s1) as Hw. destruct (take_waiter peer s1) as [w s2].
  eexists _, _. split; [done|]. intros id'. cbn [snd] in Hw.
  rewrite (notify_queues peer s2 id'), Hw. unfold s1. rewrite (wake_ep_epolls_queues peer _ id').
  by apply push_message_queue.
Qed.

Lemma remove_entries_transfer hs fds :
  has_duplicate hs = false → check_transfer fds hs = None →
  Forall2 (λ h e, get_entry fds h = Some e ∧ rights_contains (he_rights e) RIGHT_TRANSFER = true)
    hs (remove_entries hs fds).1.
Proof.
  intros Hd Hc. destruct (remove_entries_spec hs fds) as [-> _]; [by apply has_duplicate_NoDup|].
  clear Hd. pose proof (check_transfer_None _ _ Hc) as H. clear Hc.
  induction hs as [|h hs IH]; cbn [omap list_omap]; [constructor|].
  destruct (H h) as (e & He & Hr); [set_solver|]. rewrite He. constructor; [done|].
  apply IH. set_solver.
Qed.


(** *** Received handles *)

Lemma insert_entry_map new_id g (e : handle_entry kobject) t :
  0 ≤ new_id < u16_count →
  insert_entry (encode_handle new_id g) e t = set_map (<[new_id := e]> (ht_map t)) t.
Proof. intros H. unfold insert_entry. by rewrite decode_encode. Qed.

Lemma mint_handles_keeps es t hs t' i x :
  mint_handles es t = (Ok hs, t') → ht_map t !! i = Some x → ht_map t' !! i = Some x.
Proof.
  revert t hs. induction es as [|e es IH]; intros t hs; [intros H; by inversion H; subst|].
  cbn [mint_handles]. pose proof (lowest_free_spec t) as Hl.
  destruct (lowest_free t) as [id|]; [|done]. destruct Hl as (Hid & Hfree & _).
  rewrite insert_entry_map by done. unfold mbind, M_bind.
  destruct (mint_handles es _) as [[hs1| |] t1] eqn:E; try done.
  intros [= <- <-] Hi. eapply IH; [done|]. simpl.
  rewrite lookup_insert_ne; [done|congruence].
Qed.

(** A handle received in a message is unusable.  [copy_msg_to_user] gives the
    reader handles whose generation is one more than the generation of the entry it
    stores: the entry is in the table, under a number the reader was not told, and
    the number it was told resolves to nothing. *)
Theorem received_handles_dangle es t hs t' i h e :
  mint_handles es t = (Ok hs, t') → hs !! i = Some h → es !! i = Some e →
  0 ≤ he_generation e < u16_count →
  get_entry t' h = None ∧
  get_entry t' (encode_handle (decode_handle h).1 (he_generation e)) = Some e.
Proof.
  revert t hs i. induction es as [|e0 es IH]; intros t hs i; [done|].
  cbn [mint_handles]. pose proof (lowest_free_spec t) as Hl.
  destruct (lowest_free t) as [id|]; [|done]. destruct Hl as (Hid & Hfree & _).
  rewrite insert_entry_map by done. unfold mbind, M_bind.
  destruct (mint_handles es _) as [[hs1| |] t1] eqn:E; try done.
  intros [= <- <-]. destruct i as [|i]; [|intros H1 H2; by eapply IH].
  intros [= <-] [= ->] Hg.
  assert (ht_map t1 !! id = Some e) as Hk.
  { eapply mint_handles_keeps; [done|]. simpl. apply lookup_insert_eq. }
  unfold get_entry. rewrite !decode_encode by done. cbn [fst].
  rewrite Hk, Z.eqb_refl. split; [|done].
  destruct (Z.eqb_spec (he_generation e) (wrap 16 (he_generation e + 1))) as [Heq|]; [|done].
  exfalso. unfold wrap, u16_count in *. change (2 ^ 16) with 65536 in *.
  destruct (decide (he_generation e = 65535)) as [He|He].
  - rewrite He in Heq. done.
  - rewrite Z.mod_small in Heq; lia.
Qed.

Lemma received_handles_dangle_witness :
  ∃ t', mint_handles [mkEntry (KPort 3) RIGHT_READ 1] (mkTable ∅ ∅) = (Ok [131072], t') ∧
    get_entry t' 131072 = None.
Proof.
  eexists. split; [reflexivity|].
  eapply (received_handles_dangle [mkEntry (KPort 3) RIGHT_READ 1] (mkTable ∅ ∅) [131072] _ 0);
    [reflexivity|reflexivity|reflexivity|unfold u16_count; simpl; lia].
Defined.
