(* ===== verification/Journal.v ===== *)
(** * The file system's write-ahead journal (user/vfs-server/src/blockfs.rs)

    The state of the block file system, its pending block writes, and the journal
    that makes a group of block writes atomic.  The block device behind
    [VirtioBlkProxy] is a map from block numbers to blocks together with a fault
    plan that says which of its operations fail; cutting the power after [k]
    operations is the plan in which every operation from the [k]-th on fails.  The
    theorems show that a transaction is atomic under any fault during the commit and
    any number of power cuts during the recoveries that follow. *)

From Stdlib Require Import ZArith Lia.
From stdpp Require Import prelude gmap sorting.
From S2P Require Import Prelude.

Local Open Scope Z_scope.

(** ** Constants *)

Definition OFS_MAGIC : Z := 1331054163.
Definition OFS_VERSION : Z := 3.
Definition BLOCK_SIZE : nat := Z.to_nat 4096.
Definition MAX_INODES : Z := 1024.
Definition INODE_SIZE : nat := 128.
Definition INODES_PER_BLOCK : Z := 32.
Definition BLOCK_BITMAP_BLK : Z := 1.
Definition INODE_BITMAP_BLK : Z := 2.
Definition INODE_TABLE_START : Z := 3.
Definition JOURNAL_HDR_BLK : Z := 35.
Definition JOURNAL_DATA_BLK : Z := 36.
Definition JOURNAL_SLOTS : nat := 32.
Definition JOURNAL_MAGIC : Z := 1330269255.
Definition DATA_START : Z := 68.
Definition INODE_CACHE_SIZE : nat := 32.

#[global] Arguments BLOCK_SIZE : simpl never.

Lemma block_size_eq : Z.of_nat BLOCK_SIZE = 4096.
Proof. reflexivity. Qed.

Definition zero_block : list Z := replicate BLOCK_SIZE 0.

#[global] Arguments zero_block : simpl never.

Lemma length_zero_block : length zero_block = BLOCK_SIZE.
Proof. apply length_replicate. Qed.

(** ** CRC-32 *)

Definition crc_bit (crc : Z) : Z :=
  if Z.land crc 1 =? 0 then Z.shiftr crc 1 else Z.lxor (Z.shiftr crc 1) 3988292384.

Definition crc_byte (crc b : Z) : Z := Nat.iter 8 crc_bit (Z.lxor crc b).

Definition crc32 (buf : list Z) : Z := Z.lxor (foldl crc_byte 4294967295 buf) 4294967295.

#[global] Arguments crc32 : simpl never.

(** [u32_le buf off] is [u32::from_le_bytes(buf[off..off+4])]. *)
Definition u32_le (buf : list Z) (off : nat) : Z := of_le (slice buf off 4).

#[global] Arguments u32_le : simpl never.

(** ** The device *)

Record blkdev : Type := mkDev {
  d_blocks : gmap Z (list Z);
  d_ops : nat;                  (** operations served so far *)
  d_fail : nat → bool;          (** which operations fail *)
}.

Definition disk (d : blkdev) (blk : Z) : list Z := default zero_block (d_blocks d !! blk).

Definition read_block (blk : Z) (d : blkdev) : option (list Z) * blkdev :=
  (if d_fail d (d_ops d) then None else Some (disk d blk), mkDev (d_blocks d) (S (d_ops d)) (d_fail d)).

Definition write_block (blk : Z) (data : list Z) (d : blkdev) : bool * blkdev :=
  if d_fail d (d_ops d) then (false, mkDev (d_blocks d) (S (d_ops d)) (d_fail d))
  else (true, mkDev (<[blk := data]> (d_blocks d)) (S (d_ops d)) (d_fail d)).

(** Power comes back with the power due to fail before operation [k], or never. *)
Definition reboot (k : nat) (d : blkdev) : blkdev := mkDev (d_blocks d) 0 (λ i, (k <=? i)%nat).
Definition healthy (d : blkdev) : blkdev := mkDev (d_blocks d) 0 (λ _, false).

(** ** The file system's state *)

Record raw_inode : Type := mkInode {
  itype : Z;
  i_pad : list Z;
  i_size : Z;
  nlink : Z;
  used_blocks : Z;
  direct : list Z;
  indirect : Z;
  double_indirect : Z;
  i_reserved : list Z;
}.

Record inode_cache : Type := mkCache {
  c_entries : list (Z * option raw_inode);
  c_generation : Z;
}.

Record ofs : Type := mkOfs {
  dev : blkdev;
  total_blocks : Z;
  pending : gmap Z (list Z);
  cache : inode_cache;
}.

Definition set_dev (d : blkdev) (s : ofs) : ofs := mkOfs d (total_blocks s) (pending s) (cache s).
Definition set_pending (p : gmap Z (list Z)) (s : ofs) : ofs := mkOfs (dev s) (total_blocks s) p (cache s).
Definition set_cache (c : inode_cache) (s : ofs) : ofs := mkOfs (dev s) (total_blocks s) (pending s) c.

Definition write_blk (blk : Z) (buf : list Z) (s : ofs) : ofs :=
  set_pending (<[blk := buf]> (pending s)) s.

Definition read_blk (blk : Z) (s : ofs) : option (list Z) * ofs :=
  match pending s !! blk with
  | Some data => (Some data, s)
  | None => let '(r, d) := read_block blk (dev s) in (r, set_dev d s)
  end.

(** ** Journal *)

Definition header_crc (n committed : Z) : Z :=
  crc32 (le_bytes 4 JOURNAL_MAGIC ++ le_bytes 4 n ++ le_bytes 4 committed).

Definition clear_header : list Z := splice zero_block 0 (le_bytes 4 JOURNAL_MAGIC).

(** The tests of [journal_replay] on the header. *)
Definition journal_valid (hdr : list Z) : bool :=
  let n := u32_le hdr 4 in
  if negb (u32_le hdr 0 =? JOURNAL_MAGIC) || negb (u32_le hdr 8 =? 1) || (n =? 0)
     || (Z.of_nat JOURNAL_SLOTS <? n) then false
  else header_crc n 1 =? u32_le hdr 12.

Definition replay_slot (hdr : list Z) (i : nat) (d : blkdev) : blkdev :=
  let target := u32_le hdr (16 + i * 4) in
  if target =? 0 then d
  else
    let '(r, d1) := read_block (JOURNAL_DATA_BLK + Z.of_nat i) d in
    match r with Some data => (write_block target data d1).2 | None => d1 end.

Definition journal_replay (d : blkdev) : blkdev :=
  let '(r, d1) := read_block JOURNAL_HDR_BLK d in
  match r with
  | None => d1
  | Some hdr =>
      if negb (journal_valid hdr) then d1
      else
        let d2 := foldl (λ d i, replay_slot hdr i d) d1 (seq 0 (Z.to_nat (u32_le hdr 4))) in
        (write_block JOURNAL_HDR_BLK clear_header d2).2
  end.

(** Writing a list of blocks, stopping at the first failure. *)
Fixpoint write_all (ws : list (Z * list Z)) (d : blkdev) : bool * blkdev :=
  match ws with
  | [] => (true, d)
  | (blk, data) :: ws' =>
      let '(ok, d1) := write_block blk data d in
      if (ok : bool) then write_all ws' d1 else (false, d1)
  end.

(** A [BTreeMap] iterates in the order of its keys. *)
Definition key_le (a b : Z * list Z) : Prop := a.1 ≤ b.1.

#[global] Instance key_le_dec a b : Decision (key_le a b).
Proof. unfold key_le. apply _. Defined.

Definition txn_entries (p : gmap Z (list Z)) : list (Z * list Z) := merge_sort key_le (map_to_list p).

Definition slot_writes (entries : list (Z * list Z)) : list (Z * list Z) :=
  imap (λ i e, (JOURNAL_DATA_BLK + Z.of_nat i, e.2)) entries.

Fixpoint put_words (ts : list Z) (off : nat) (hdr : list Z) : list Z :=
  match ts with
  | [] => hdr
  | t :: ts' => put_words ts' (off + 4) (splice hdr off (le_bytes 4 t))
  end.

(** The header of phase 2, and the same buffer with the marker of phase 3. *)
Definition txn_header (entries : list (Z * list Z)) : list Z :=
  let n := Z.of_nat (length entries) in
  let hdr := splice zero_block 0 (le_bytes 4 JOURNAL_MAGIC) in
  let hdr := splice hdr 4 (le_bytes 4 n) in
  let hdr := splice hdr 8 (le_bytes 4 0) in
  let hdr := splice hdr 12 (le_bytes 4 (header_crc n 0)) in
  put_words entries.*1 16 hdr.

Definition commit_header (entries : list (Z * list Z)) : list Z :=
  let n := Z.of_nat (length entries) in
  splice (splice (txn_header entries) 8 (le_bytes 4 1)) 12 (le_bytes 4 (header_crc n 1)).

Definition commit_txn (s : ofs) : bool * ofs :=
  if bool_decide (pending s = ∅) then (true, s)
  else if (JOURNAL_SLOTS <? size (pending s))%nat then (false, s)
  else
    let entries := txn_entries (pending s) in
    let '(ok, d1) := write_all (slot_writes entries) (dev s) in
    if negb ok then (false, set_dev d1 s)
    else let '(ok, d2) := write_block JOURNAL_HDR_BLK (txn_header entries) d1 in
    if negb ok then (false, set_dev d2 s)
    else let '(ok, d3) := write_block JOURNAL_HDR_BLK (commit_header entries) d2 in
    if negb ok then (false, set_dev d3 s)
    else let '(ok, d4) := write_all entries d3 in
    if negb ok then (false, set_dev d4 s)
    else
      let '(_, d5) := write_block JOURNAL_HDR_BLK clear_header d4 in
      (true, set_pending ∅ (set_dev d5 s)).

Definition fsync (s : ofs) : bool * ofs := commit_txn s.

(** Successive recoveries, each cut short after the given number of device
    operations, and a last one that is not. *)
Definition recover (crashes : list nat) (d : blkdev) : blkdev :=
  journal_replay (healthy (foldl (λ d k, journal_replay (reboot k d)) d crashes)).

(** ** Words in buffers *)

Lemma lxor_bound w x y : 0 ≤ w → 0 ≤ x < 2 ^ w → 0 ≤ y < 2 ^ w → 0 ≤ Z.lxor x y < 2 ^ w.
Proof.
  intros Hw Hx Hy. assert (Z.lxor x y = Z.lxor x y mod 2 ^ w) as ->.
  - apply Z.bits_inj'. intros i Hi. destruct (decide (i < w)).
    + by rewrite Z.mod_pow2_bits_low by lia.
    + rewrite Z.mod_pow2_bits_high by lia. rewrite Z.lxor_spec.
      by rewrite !(testbit_high w) by lia.
  - apply Z.mod_pos_bound. lia.
Qed.

Lemma crc_bit_bound x : 0 ≤ x < 2 ^ 32 → 0 ≤ crc_bit x < 2 ^ 32.
Proof.
  intros Hx. assert (0 ≤ Z.shiftr x 1 < 2 ^ 32).
  { rewrite Z.shiftr_div_pow2 by lia. split; [apply Z.div_pos; lia|].
    apply Z.div_lt_upper_bound; lia. }
  unfold crc_bit. destruct (_ =? 0); [done|]. by apply lxor_bound.
Qed.

Lemma crc32_bound buf : Forall is_byte buf → 0 ≤ crc32 buf < 2 ^ 32.
Proof.
  intros Hb. apply lxor_bound; [lia| |lia].
  assert (∀ c, 0 ≤ c < 2 ^ 32 → 0 ≤ foldl crc_byte c buf < 2 ^ 32) as H; [|by apply H].
  induction Hb as [|b buf Hb _ IH]; intros c Hc; [done|]. cbn [foldl]. apply IH.
  unfold crc_byte. assert (0 ≤ Z.lxor c b < 2 ^ 32) as Hl.
  { apply lxor_bound; [lia|done|unfold is_byte in Hb; lia]. }
  clear IH. generalize 8%nat. intros k. induction k as [|k IH]; [done|]. by apply crc_bit_bound.
Qed.

Lemma header_crc_bound n c : 0 ≤ header_crc n c < 2 ^ 32.
Proof. apply crc32_bound. rewrite !Forall_app. auto using le_bytes_bytes. Qed.

Lemma u32_splice_eq hdr off v :
  (off + 4 ≤ length hdr)%nat → 0 ≤ v < 2 ^ 32 → u32_le (splice hdr off (le_bytes 4 v)) off = v.
Proof.
  intros Hl Hv. unfold u32_le. pose proof (slice_splice_eq hdr off (le_bytes 4 v)) as Hs.
  rewrite length_le_bytes in Hs. rewrite Hs by lia. by apply of_le_bytes.
Qed.

Lemma u32_splice_ne hdr off off' v :
  (off + 4 ≤ length hdr)%nat → (off' + 4 ≤ off ∨ off + 4 ≤ off')%nat →
  u32_le (splice hdr off (le_bytes 4 v)) off' = u32_le hdr off'.
Proof.
  intros Hl Hd. unfold u32_le. rewrite slice_splice_ne; [done|rewrite length_le_bytes; lia..].
Qed.

Lemma length_splice4 hdr off v :
  (off + 4 ≤ length hdr)%nat → length (splice hdr off (le_bytes 4 v)) = length hdr.
Proof. intros. rewrite length_splice; [done|]. rewrite length_le_bytes. lia. Qed.

Lemma put_words_spec ts off hdr :
  (off + 4 * length ts ≤ length hdr)%nat → Forall (λ t, 0 ≤ t < 2 ^ 32) ts →
  length (put_words ts off hdr) = length hdr ∧
  (∀ i t, ts !! i = Some t → u32_le (put_words ts off hdr) (off + i * 4) = t) ∧
  (∀ o, (o + 4 ≤ off)%nat → u32_le (put_words ts off hdr) o = u32_le hdr o).
Proof.
  revert off hdr. induction ts as [|t ts IH]; intros off hdr Hl Hts; [done|].
  cbn [put_words length] in *. apply Forall_cons in Hts as [Ht Hts].
  destruct (IH (off + 4)%nat (splice hdr off (le_bytes 4 t))) as (H1 & H2 & H3);
    [rewrite length_splice4; lia|done|]. rewrite length_splice4 in H1 by lia. split_and!; [done| |].
  - intros [|i] t'; cbn [lookup list_lookup].
    + intros [= <-]. rewrite Nat.add_0_r, H3 by lia. apply u32_splice_eq; [lia|done].
    + intros Hi. rewrite <-(H2 i t' Hi). f_equal. lia.
  - intros o Ho. rewrite H3 by lia. apply u32_splice_ne; lia.
Qed.

(** Reading a word out of a chain of word writes. *)
Ltac u32_side :=
  lazymatch goal with
  | |- context [length (splice ?h ?o (le_bytes 4 ?v))] =>
      rewrite (length_splice4 h o v); [u32_side|u32_side]
  | _ => unfold JOURNAL_MAGIC; lia
  end.
Ltac u32_words :=
  repeat first [rewrite u32_splice_eq by u32_side | rewrite u32_splice_ne by u32_side].

(** ** The headers of a transaction *)

Section headers.
Context (es : list (Z * list Z)).
Hypothesis es_len : (length es ≤ JOURNAL_SLOTS)%nat.
Hypothesis es_keys : Forall (λ t, 0 < t < 2 ^ 32) es.*1.

Lemma txn_header_words :
  length (txn_header es) = BLOCK_SIZE ∧ u32_le (txn_header es) 0 = JOURNAL_MAGIC ∧
  u32_le (txn_header es) 4 = Z.of_nat (length es) ∧ u32_le (txn_header es) 8 = 0 ∧
  ∀ i t, es.*1 !! i = Some t → u32_le (txn_header es) (16 + i * 4) = t.
Proof.
  pose proof block_size_eq as HB. pose proof length_zero_block as HZ. unfold JOURNAL_SLOTS in es_len.
  unfold txn_header. set (n := Z.of_nat (length es)).
  set (h4 := splice _ 12 _).
  assert (length h4 = BLOCK_SIZE) as Hh4.
  { unfold h4. u32_side. }
  destruct (put_words_spec es.*1 16 h4) as (H1 & H2 & H3).
  { rewrite length_fmap. lia. }
  { eapply Forall_impl; [exact es_keys|]. simpl. lia. }
  split_and!; [lia|..|exact H2]; rewrite H3 by lia; unfold h4, n; u32_words; done.
Qed.

Lemma commit_header_words :
  journal_valid (commit_header es) = negb (length es =? 0)%nat ∧
  u32_le (commit_header es) 4 = Z.of_nat (length es) ∧
  ∀ i t, es.*1 !! i = Some t → u32_le (commit_header es) (16 + i * 4) = t.
Proof.
  pose proof block_size_eq as HB. destruct txn_header_words as (H1 & H2 & H3 & H4 & H5).
  unfold JOURNAL_SLOTS in es_len. unfold commit_header.
  set (n := Z.of_nat (length es)) in *. set (h := splice _ 12 _).
  assert (u32_le h 0 = JOURNAL_MAGIC ∧ u32_le h 4 = n ∧ u32_le h 8 = 1 ∧ u32_le h 12 = header_crc n 1)
    as (E0 & E4 & E8 & E12).
  { pose proof (header_crc_bound n 1). unfold h. split_and!; u32_words; done. }
  split_and!; [|done|].
  - unfold journal_valid. rewrite E0, E4, E8, E12, !Z.eqb_refl. simpl negb. cbn [orb].
    unfold JOURNAL_SLOTS. destruct (Z.ltb_spec (Z.of_nat 32) n); [lia|].
    destruct (Nat.eqb_spec (length es) 0) as [E|E], (Z.eqb_spec n 0); [reflexivity|lia|lia|reflexivity].
  - intros i t Hi. unfold h. u32_words. by apply H5.
Qed.

Lemma txn_header_invalid : journal_valid (txn_header es) = false.
Proof.
  destruct txn_header_words as (_ & H2 & _ & H4 & _). unfold journal_valid.
  rewrite H2, H4, Z.eqb_refl. done.
Qed.
End headers.

Lemma clear_header_invalid : journal_valid clear_header = false.
Proof. vm_compute. reflexivity. Qed.

(** ** Effects on the disk *)

Definition apply_writes (ws : list (Z * list Z)) (m : gmap Z (list Z)) : gmap Z (list Z) :=
  foldl (λ m w, <[w.1 := w.2]> m) m ws.

Lemma apply_writes_ne ws m b : b ∉ ws.*1 → apply_writes ws m !! b = m !! b.
Proof.
  revert m. induction ws as [|[b' x] ws IH]; intros m Hb; [done|]. csimpl in Hb.
  apply not_elem_of_cons in Hb as [H1 H2]. cbn [apply_writes foldl].
  etrans; [by apply IH|]. by apply lookup_insert_ne.
Qed.

Lemma apply_writes_in ws m b x : NoDup ws.*1 → (b, x) ∈ ws → apply_writes ws m !! b = Some x.
Proof.
  revert m. induction ws as [|[b' x'] ws IH]; intros m Hnd Hin; [by apply not_elem_of_nil in Hin|].
  csimpl in Hnd. apply NoDup_cons in Hnd as [Hb' Hnd]. cbn [apply_writes foldl].
  apply elem_of_cons in Hin as [[= -> ->]|Hin]; [|by apply IH].
  etrans; [by apply apply_writes_ne|]. apply lookup_insert_eq.
Qed.

Lemma write_all_spec ws d ok d' :
  write_all ws d = (ok, d') →
  ∃ k, d_blocks d' = apply_writes (take k ws) (d_blocks d) ∧ (ok = true → take k ws = ws).
Proof.
  revert d. induction ws as [|[b x] ws IH]; intros d; cbn [write_all].
  - intros [= <- <-]. by exists 0%nat.
  - unfold write_block. destruct (d_fail d (d_ops d)).
    + intros [= <- <-]. by exists 0%nat.
    + intros (k & H1 & H2)%IH. exists (S k). split; [done|]. intros Hok.
      cbn [take]. by rewrite (H2 Hok).
Qed.

Lemma txn_entries_elem p b x : (b, x) ∈ txn_entries p ↔ p !! b = Some x.
Proof. unfold txn_entries. by rewrite merge_sort_Permutation, elem_of_map_to_list. Qed.

Lemma txn_entries_NoDup p : NoDup (txn_entries p).*1.
Proof. unfold txn_entries. rewrite merge_sort_Permutation. apply NoDup_fst_map_to_list. Qed.

Lemma txn_entries_length p : length (txn_entries p) = size p.
Proof. unfold txn_entries. by rewrite merge_sort_Permutation, length_map_to_list. Qed.

Lemma slot_writes_keys es : (slot_writes es).*1 = imap (λ i _, JOURNAL_DATA_BLK + Z.of_nat i) es.
Proof. unfold slot_writes. by rewrite fmap_imap. Qed.

Lemma slot_writes_slot es m i b x :
  es !! i = Some (b, x) → apply_writes (slot_writes es) m !! (JOURNAL_DATA_BLK + Z.of_nat i) = Some x.
Proof.
  intros Hi. apply apply_writes_in.
  - rewrite slot_writes_keys. apply NoDup_alt. intros j1 j2 y.
    rewrite !list_lookup_imap, !fmap_Some. intros (? & _ & ->) (? & _ & ?). lia.
  - apply list_elem_of_lookup. exists i. unfold slot_writes. by rewrite list_lookup_imap, Hi.
Qed.

Lemma slot_writes_region es k b :
  (length es ≤ JOURNAL_SLOTS)%nat → b ∈ (take k (slot_writes es)).*1 →
  JOURNAL_DATA_BLK ≤ b < DATA_START.
Proof.
  intros Hl. rewrite fmap_take, slot_writes_keys. intros Hb.
  assert (b ∈ imap (λ i (_ : Z * list Z), JOURNAL_DATA_BLK + Z.of_nat i) es) as Hb'.
  { rewrite <-(take_drop k). set_solver. }
  apply list_elem_of_lookup in Hb' as [i Hi]. rewrite list_lookup_imap in Hi.
  destruct (es !! i) as [e|] eqn:E; [|done]. simpl in Hi. injection Hi as <-.
  apply lookup_lt_Some in E. unfold JOURNAL_DATA_BLK, DATA_START, JOURNAL_SLOTS in *. lia.
Qed.

Lemma disk_write_block b x d b' :
  disk (write_block b x d).2 b' =
    if decide (b' = b ∧ d_fail d (d_ops d) = false) then x else disk d b'.
Proof.
  unfold write_block, disk. destruct (d_fail d (d_ops d)); simpl; case_decide as Hd;
    destruct_and?; subst; rewrite ?lookup_insert_eq; try done.
  rewrite lookup_insert_ne; [done|]. intros ->. tauto.
Qed.

Lemma write_block_ops b x d :
  d_fail (write_block b x d).2 = d_fail d ∧ d_ops (write_block b x d).2 = S (d_ops d).
Proof. unfold write_block. by destruct (d_fail d (d_ops d)). Qed.

(** A power cut: once an operation fails all later ones do. *)
Definition power_cut (f : nat → bool) : Prop := ∀ i j, (i ≤ j)%nat → f j = false → f i = false.

Definition alive (d : blkdev) : Prop := d_fail d (d_ops d) = false.

(** ** Atomicity *)

(** The blocks outside the journal, and the contents a transaction asks for. *)
Definition data_blk (b : Z) : Prop := ¬ JOURNAL_HDR_BLK ≤ b < DATA_START.

Definition overlay (p : gmap Z (list Z)) (old : Z → list Z) (b : Z) : list Z := default (old b) (p !! b).

(** A transaction writes blocks outside the journal, not the superblock. *)
Definition txn_ok (p : gmap Z (list Z)) : Prop :=
  map_Forall (λ b _, 0 < b < 2 ^ 32 ∧ data_blk b) p.

Definition journal_clean (d : blkdev) : Prop := journal_valid (disk d JOURNAL_HDR_BLK) = false.

Definition holds (d : blkdev) (f : Z → list Z) : Prop := ∀ b, data_blk b → disk d b = f b.

Section atomic.
Context (p : gmap Z (list Z)) (old : Z → list Z).
Hypothesis p_ok : txn_ok p.
Hypothesis p_size : (size p ≤ JOURNAL_SLOTS)%nat.

Local Abbreviation es := (txn_entries p).
Local Abbreviation new := (overlay p old).

(** The journal holds the whole transaction, and every other block is as before or
    as after it. *)
Definition logged (d : blkdev) : Prop :=
  (0 < size p)%nat ∧ disk d JOURNAL_HDR_BLK = commit_header es ∧
  (∀ i b x, es !! i = Some (b, x) → disk d (JOURNAL_DATA_BLK + Z.of_nat i) = x) ∧
  (∀ b, data_blk b → disk d b = old b ∨ disk d b = new b).

Definition recoverable (d : blkdev) : Prop :=
  logged d ∨ (journal_clean d ∧ (holds d old ∨ holds d new)).

Lemma es_small : (length es ≤ JOURNAL_SLOTS)%nat.
Proof. rewrite txn_entries_length. lia. Qed.

Lemma es_target b x : (b, x) ∈ es → 0 < b < 2 ^ 32 ∧ data_blk b ∧ new b = x.
Proof.
  intros Hb%txn_entries_elem. destruct (p_ok b x Hb) as [H1 H2]. split_and!; try done; try lia.
  unfold overlay. by rewrite Hb.
Qed.

Lemma es_targets : Forall (λ t, 0 < t < 2 ^ 32) es.*1.
Proof.
  apply Forall_forall. intros t Ht. apply list_elem_of_fmap in Ht as ([b x] & -> & Hb).
  by apply es_target in Hb as [? _].
Qed.

Lemma new_old b : b ∉ es.*1 → new b = old b.
Proof.
  intros Hb. unfold overlay. destruct (p !! b) as [x|] eqn:E; [|done]. exfalso. apply Hb.
  apply list_elem_of_fmap. exists (b, x). split; [done|]. by apply txn_entries_elem.
Qed.

Lemma logged_write d b x :
  (b, x) ∈ es → logged d → logged (write_block b x d).2.
Proof.
  intros Hin (Hz & Hh & Hs & Hd). destruct (es_target b x Hin) as (_ & Hb & Hn).
  unfold logged. rewrite disk_write_block. unfold data_blk, JOURNAL_HDR_BLK, JOURNAL_DATA_BLK, DATA_START in *.
  split_and!; [done|..].
  - rewrite decide_False; [done|]. intros [? _]. lia.
  - intros i b' x' Hi. rewrite disk_write_block, decide_False; [by eapply Hs|].
    intros [? _]. apply lookup_lt_Some in Hi. pose proof es_small as Hsm. unfold JOURNAL_SLOTS in Hsm. lia.
  - intros c Hc. rewrite disk_write_block. case_decide as Hd'; [|by apply Hd].
    destruct Hd' as [-> _]. right. done.
Qed.

Lemma replay_slot_step d i b x :
  es !! i = Some (b, x) → power_cut (d_fail d) → logged d →
  let d' := replay_slot (commit_header es) i d in
  logged d' ∧ d_fail d' = d_fail d ∧
  (∀ c, data_blk c → disk d c = new c → disk d' c = new c) ∧
  (alive d' → alive d ∧ disk d' b = new b).
Proof.
  intros Hi Hcut Hlog. pose proof (list_elem_of_lookup_2 _ _ _ Hi) as Hin.
  destruct (es_target b x Hin) as (Hb & Hdb & Hn).
  destruct (commit_header_words es es_small es_targets) as (_ & _ & Ht).
  unfold replay_slot. rewrite (Ht i b) by by rewrite list_lookup_fmap, Hi.
  destruct (Z.eqb_spec b 0) as [|_]; [lia|].
  unfold read_block. set (d1 := mkDev (d_blocks d) (S (d_ops d)) (d_fail d)).
  assert (∀ c, disk d1 c = disk d c) as Hd1 by done.
  assert (logged d1) as Hlog1 by exact Hlog.
  destruct (d_fail d (d_ops d)) eqn:Hf; cbv zeta.
  - split_and!; [done|done|done|]. unfold alive. cbn [d_fail d_ops d1].
    intros Ha. rewrite (Hcut (d_ops d) (S (d_ops d))) in Hf; [done|lia|done].
  - destruct Hlog as (_ & _ & Hs & _). rewrite (Hs i b x Hi).
    destruct (write_block_ops b x d1) as [Hf' Ho']. split_and!; [by apply logged_write|done| |].
    + intros c Hc Hcn. rewrite disk_write_block. case_decide as Hd; [|by rewrite Hd1].
      destruct Hd as [-> _]. by rewrite <-Hn.
    + unfold alive. rewrite Hf', Ho'. cbn [d_fail d_ops d1]. intros Ha. split; [done|].
      rewrite disk_write_block. rewrite decide_True; [by rewrite <-Hn|]. split; [done|].
      cbn [d_fail d_ops d1]. apply (Hcut _ (S (S (d_ops d)))); [lia|done].
Qed.

Lemma replay_loop l d :
  Forall (λ i, i < length es)%nat l → power_cut (d_fail d) → logged d →
  let d' := foldl (λ d i, replay_slot (commit_header es) i d) d l in
  logged d' ∧ d_fail d' = d_fail d ∧
  (∀ c, data_blk c → disk d c = new c → disk d' c = new c) ∧
  (alive d' → alive d ∧ ∀ i b x, i ∈ l → es !! i = Some (b, x) → disk d' b = new b).
Proof.
  revert d. induction l as [|i l IH]; intros d Hl Hcut Hlog.
  { split_and!; try done. intros Ha. split; [done|]. intros i b x Hi. by apply not_elem_of_nil in Hi. }
  apply Forall_cons in Hl as [Hi Hl]. cbn [foldl].
  apply lookup_lt_is_Some in Hi as [[b x] Hi].
  destruct (replay_slot_step d i b x Hi Hcut Hlog) as (H1 & H2 & H3 & H4).
  set (d1 := replay_slot (commit_header es) i d) in *.
  destruct (IH d1 Hl) as (G1 & G2 & G3 & G4); [by rewrite H2|done|].
  cbv zeta. split_and!; [done|by rewrite G2, H2|by auto|].
  intros Ha. destruct (G4 Ha) as [Ha1 Hl']. destruct (H4 Ha1) as [Ha0 Hb]. split; [done|].
  intros j b' x' [->|Hj]%elem_of_cons Hj'; [|by eapply Hl'].
  rewrite Hi in Hj'. injection Hj' as <- <-. apply G3; [|done].
  by apply (es_target b x), list_elem_of_lookup_2 with i.
Qed.

Lemma logged_all_new d :
  logged d → (∀ i b x, es !! i = Some (b, x) → disk d b = new b) → holds d new.
Proof.
  intros (_ & _ & _ & Hd) Hall b Hb. destruct (decide (b ∈ es.*1)) as [Hin|Hni].
  - apply list_elem_of_fmap in Hin as ([b' x] & -> & Hin).
    apply list_elem_of_lookup in Hin as [i Hi]. by eapply Hall.
  - destruct (Hd b Hb) as [H|H]; [by rewrite H, new_old|done].
Qed.

(** Recovery keeps the disk recoverable wherever it is cut, never undoes the
    transaction, and leaves a clean journal when it is not cut. *)
Lemma replay_recoverable d :
  power_cut (d_fail d) → recoverable d →
  recoverable (journal_replay d) ∧
  (holds d new → holds (journal_replay d) new) ∧
  (alive (journal_replay d) → journal_clean (journal_replay d)).
Proof.
  intros Hcut Hrec. unfold journal_replay, read_block.
  set (d1 := mkDev (d_blocks d) (S (d_ops d)) (d_fail d)).
  assert (∀ c, disk d1 c = disk d c) as Hd1 by done.
  destruct (d_fail d (d_ops d)) eqn:Hf.
  { split_and!; [done|done|]. unfold alive. cbn [d_fail d_ops d1]. intros Ha.
    rewrite (Hcut (d_ops d) (S (d_ops d))) in Hf; [done|lia|done]. }
  destruct Hrec as [Hlog|[Hcl Hor]].
  - assert (logged d1) as Hlog1 by exact Hlog. destruct Hlog as (Hz & -> & _ & _).
    destruct (commit_header_words es es_small es_targets) as (Hv & Hn & _). rewrite Hv, Hn.
    destruct (Nat.eqb_spec (length es) 0) as [E|_]; [rewrite txn_entries_length in E; lia|].
    cbn [negb]. rewrite Nat2Z.id.
    destruct (replay_loop (seq 0 (length es)) d1) as (G1 & G2 & G3 & G4); [|done|done|].
    { apply Forall_forall. intros i Hi%elem_of_seq. lia. }
    set (d2 := foldl _ d1 _) in *. clearbody d2.
    assert (∀ c, data_blk c → disk (write_block JOURNAL_HDR_BLK clear_header d2).2 c = disk d2 c) as Hw.
    { intros c Hc. rewrite disk_write_block, decide_False; [done|]. intros [-> _].
      unfold data_blk, JOURNAL_HDR_BLK, DATA_START in Hc. lia. }
    split_and!.
    + destruct (d_fail d2 (d_ops d2)) eqn:Hf2.
      * left. unfold write_block. rewrite Hf2. exact G1.
      * right. split; [unfold journal_clean; rewrite disk_write_block, decide_True by done;
          apply clear_header_invalid|]. right. intros c Hc. rewrite Hw by done.
        apply logged_all_new; [done| |done]. intros i b x Hi.
        destruct (G4 Hf2) as [_ Ha]. eapply Ha; [|done]. apply elem_of_seq.
        apply lookup_lt_Some in Hi. lia.
    + intros Hnew c Hc. rewrite Hw by done. apply G3; [done|]. by apply Hnew.
    + intros Ha. unfold journal_clean. destruct (write_block_ops JOURNAL_HDR_BLK clear_header d2) as [Hf' Ho'].
      unfold alive in Ha. rewrite Hf', Ho', G2 in Ha. rewrite disk_write_block, decide_True.
      * apply clear_header_invalid.
      * split; [done|]. rewrite G2. apply (Hcut _ (S (d_ops d2))); [lia|done].
  - unfold journal_clean in Hcl. rewrite Hcl. cbn [negb]. split_and!; [by right|done|done].
Qed.

(** The phases of a commit.  After the data slots, or some of them, are written: *)
Lemma slots_written d d' k :
  d_blocks d' = apply_writes (take k (slot_writes es)) (d_blocks d) →
  disk d' JOURNAL_HDR_BLK = disk d JOURNAL_HDR_BLK ∧ ∀ b, data_blk b → disk d' b = disk d b.
Proof.
  intros Hd. assert (∀ b, ¬ JOURNAL_DATA_BLK ≤ b < DATA_START → disk d' b = disk d b) as H.
  { intros b Hb. unfold disk. rewrite Hd, apply_writes_ne; [done|].
    intros Hin. by apply slot_writes_region in Hin; [|apply es_small]. }
  unfold data_blk, JOURNAL_HDR_BLK, JOURNAL_DATA_BLK, DATA_START in *.
  split; [|intros b Hb]; apply H; lia.
Qed.

(** After the commit marker and some of the blocks are written: *)
Lemma homes_written d d' k :
  logged d → holds d old → d_blocks d' = apply_writes (take k es) (d_blocks d) →
  logged d' ∧ (take k es = es → holds d' new).
Proof.
  intros (Hz & Hh & Hs & _) Hold Hd.
  assert (∀ b, b ∉ es.*1 → disk d' b = disk d b) as Hne.
  { intros b Hb. unfold disk. rewrite Hd, apply_writes_ne; [done|]. rewrite fmap_take.
    intros Hin. apply Hb. rewrite <-(take_drop k es.*1). set_solver. }
  assert (∀ b, ¬ data_blk b → disk d' b = disk d b) as Hj.
  { intros b Hb. apply Hne. intros Hin. apply list_elem_of_fmap in Hin as ([b' x] & -> & Hin).
    by apply es_target in Hin as (_ & ? & _). }
  assert (∀ b x, (b, x) ∈ take k es → disk d' b = new b) as Hin.
  { intros b x Hin. unfold disk. rewrite Hd, (apply_writes_in _ _ b x); [|..|done].
    - simpl. symmetry. apply es_target. rewrite <-(take_drop k es). set_solver.
    - rewrite fmap_take. pose proof (txn_entries_NoDup p) as Hnd.
      rewrite <-(take_drop k es.*1) in Hnd. by apply NoDup_app in Hnd as [? _]. }
  split; [split_and!; [done|..]|].
  - rewrite Hj; [done|]. unfold data_blk, JOURNAL_HDR_BLK, DATA_START. lia.
  - intros i b x Hi. rewrite Hj; [by eapply Hs|]. apply lookup_lt_Some in Hi.
    pose proof es_small. unfold data_blk, JOURNAL_HDR_BLK, JOURNAL_DATA_BLK, DATA_START, JOURNAL_SLOTS in *. lia.
  - intros b Hb. destruct (decide (b ∈ (take k es).*1)) as [Hk|Hk].
    + right. apply list_elem_of_fmap in Hk as ([b' x] & -> & Hk). by eapply Hin.
    + left. unfold disk. rewrite Hd, apply_writes_ne by done. by apply Hold.
  - intros Hk b Hb. destruct (decide (b ∈ es.*1)) as [Hb'|Hb'].
    + apply list_elem_of_fmap in Hb' as ([b' x] & -> & Hb'). apply (Hin b' x). by rewrite Hk.
    + rewrite Hne, new_old by done. by apply Hold.
Qed.

Lemma holds_write_header d x f : holds d f → holds (write_block JOURNAL_HDR_BLK x d).2 f.
Proof.
  intros Hf b Hb. rewrite disk_write_block, decide_False; [by apply Hf|]. intros [-> _].
  unfold data_blk, JOURNAL_HDR_BLK, DATA_START in Hb. lia.
Qed.

(** A commit, whatever operations fail: a disk from which recovery gets either the
    old or the new contents, the new ones if the commit reported success. *)
Lemma commit_recoverable s :
  pending s = p → (0 < size p)%nat → journal_clean (dev s) → holds (dev s) old →
  ∀ r s', commit_txn s = (r, s') → recoverable (dev s') ∧ (r = true → holds (dev s') new).
Proof.
  intros Hp Hz Hcl Hold r s'. unfold commit_txn. rewrite Hp.
  rewrite bool_decide_false by (intros ->; rewrite map_size_empty in Hz; lia).
  destruct (Nat.ltb_spec JOURNAL_SLOTS (size p)) as [|_]; [lia|].
  destruct (write_all (slot_writes es) (dev s)) as [ok d1] eqn:E1.
  apply write_all_spec in E1 as (k & Hk & Hok). destruct (slots_written _ _ _ Hk) as [Hh1 Hd1].
  assert (holds d1 old) as Hold1 by (intros b Hb; rewrite Hd1 by done; by apply Hold).
  assert (recoverable d1) as Hr1.
  { right. split; [by unfold journal_clean; rewrite Hh1|by left]. }
  destruct ok; cbn [negb]; [|intros [= <- <-]; split; [exact Hr1|done]].
  pose proof (holds_write_header d1 (txn_header es) old Hold1) as Hold2.
  pose proof (disk_write_block JOURNAL_HDR_BLK (txn_header es) d1) as Hd2.
  unfold write_block at 1. unfold write_block in Hold2, Hd2.
  destruct (d_fail d1 (d_ops d1)); cbn [negb]; [intros [= <- <-]; split; [exact Hr1|done]|]. cbn [snd] in Hold2, Hd2.
  set (d2 := mkDev _ _ _) in *.
  assert (recoverable d2) as Hr2.
  { right. split; [|by left]. unfold journal_clean. rewrite Hd2, decide_True by done.
    apply txn_header_invalid; [apply es_small|apply es_targets]. }
  pose proof (holds_write_header d2 (commit_header es) old Hold2) as Hold3.
  pose proof (disk_write_block JOURNAL_HDR_BLK (commit_header es) d2) as Hd3.
  unfold write_block at 1. unfold write_block in Hold3, Hd3.
  destruct (d_fail d2 (d_ops d2)); cbn [negb]; [intros [= <- <-]; split; [exact Hr2|done]|]. cbn [snd] in Hold3, Hd3.
  set (d3 := mkDev _ (S (d_ops d2)) _) in *.
  assert (logged d3) as Hl3.
  { split_and!; [done|by rewrite Hd3, decide_True| |intros b Hb; left; by apply Hold3].
    intros i b x Hi. rewrite Hd3, decide_False, Hd2, decide_False
      by (unfold JOURNAL_HDR_BLK, JOURNAL_DATA_BLK; lia).
    unfold disk. rewrite Hk, (Hok eq_refl). by rewrite (slot_writes_slot _ _ _ _ _ Hi). }
  destruct (write_all es d3) as [ok4 d4] eqn:E4. apply write_all_spec in E4 as (k4 & Hk4 & Hok4).
  destruct (homes_written _ _ _ Hl3 Hold3 Hk4) as [Hl4 Hn4].
  destruct ok4; cbn [negb]; [|intros [= <- <-]; split; [left; exact Hl4|done]].
  pose proof (holds_write_header d4 clear_header new (Hn4 (Hok4 eq_refl))) as Hn5.
  destruct (write_block JOURNAL_HDR_BLK clear_header d4) as [ok5 d5] eqn:E5.
  intros [= <- <-]. cbn [dev set_pending set_dev]. cbn [snd] in Hn5. split; [|done].
  unfold write_block in E5. destruct (d_fail d4 (d_ops d4)); injection E5 as <- <-.
  - left. exact Hl4.
  - right. split; [|by right]. unfold journal_clean, disk. cbn [d_blocks].
    rewrite lookup_insert_eq. apply clear_header_invalid.
Qed.

Lemma recover_recoverable crashes d :
  recoverable d →
  recoverable (recover crashes d) ∧ journal_clean (recover crashes d) ∧
  (holds d new → holds (recover crashes d) new).
Proof.
  intros Hr. unfold recover.
  assert (recoverable (foldl (λ d k, journal_replay (reboot k d)) d crashes) ∧
    (holds d new → holds (foldl (λ d k, journal_replay (reboot k d)) d crashes) new)) as [H1 H2].
  { revert d Hr. induction crashes as [|k ks IH]; intros d Hr; [done|]. cbn [foldl].
    destruct (replay_recoverable (reboot k d)) as (G1 & G2 & _); [|exact Hr|].
    - intros i j Hij. cbn [d_fail reboot]. rewrite !Nat.leb_gt. lia.
    - destruct (IH _ G1) as [F1 F2]. split; [done|]. intros Hn. apply F2, G2, Hn. }
  set (d' := foldl _ d crashes) in *.
  destruct (replay_recoverable (healthy d')) as (G1 & G2 & G3); [done|exact H1|].
  split_and!; [done| |by intros Hn; apply G2, H2]. apply G3. unfold alive.
  assert (∀ d, d_fail (journal_replay d) = d_fail d) as ->; [|done]. clear. intros d.
  unfold journal_replay. cbn [read_block]. destruct (d_fail d (d_ops d)); [done|].
  destruct (journal_valid _); [|done]. cbn [negb]. rewrite (proj1 (write_block_ops _ _ _)).
  set (l := seq _ _). set (d1 := mkDev _ _ _). change (d_fail d) with (d_fail d1). generalize d1.
  induction l as [|i l IH]; intros d2; [done|]. cbn [foldl]. rewrite IH. unfold replay_slot.
  destruct (_ =? 0); [done|]. cbn [read_block]. destruct (d_fail d2 _); [done|].
  by rewrite (proj1 (write_block_ops _ _ _)).
Qed.
End atomic.

Lemma holds_empty d f : holds d (overlay ∅ f) ↔ holds d f.
Proof. unfold holds, overlay. by setoid_rewrite lookup_empty. Qed.

(** C2: A transaction is atomic.  Whatever device operations fail during
    [commit_txn], and wherever the power is cut, again and again, during the
    recoveries that follow, the recovery that completes leaves a clean journal and
    every block outside it either all as before the transaction or all as the
    transaction asked; and if the commit reported success they are as it asked. *)
Theorem commit_crash_atomic s crashes :
  txn_ok (pending s) → journal_clean (dev s) →
  let '(r, s') := commit_txn s in
  let d := recover crashes (dev s') in
  journal_clean d ∧
  (holds d (disk (dev s)) ∨ holds d (overlay (pending s) (disk (dev s)))) ∧
  (r = true → holds d (overlay (pending s) (disk (dev s)))).
Proof.
  intros Hok Hcl. destruct (commit_txn s) as [r s'] eqn:E. set (old := disk (dev s)). cbv zeta.
  destruct (decide (0 < size (pending s) ≤ JOURNAL_SLOTS)%nat) as [[Hz Hs]|Hs].
  - destruct (commit_recoverable (pending s) old Hok Hs s eq_refl Hz Hcl) with r s' as [H1 H2]; [done..|].
    destruct (recover_recoverable (pending s) old Hok Hs crashes _ H1) as (G1 & G2 & G3).
    split_and!; [done| |by auto]. destruct G1 as [(_ & Hh & _)|[_ ?]]; [|done].
    unfold journal_clean in G2. rewrite Hh in G2.
    destruct (commit_header_words (txn_entries (pending s))) as (Hv & _); [by eapply es_small|by eapply es_targets|].
    rewrite Hv, txn_entries_length in G2. destruct (Nat.eqb_spec (size (pending s)) 0); [lia|done].
  - assert (dev s' = dev s ∧ (r = true → pending s = ∅)) as [-> Hr].
    { unfold commit_txn in E. case_bool_decide; [by injection E as <- <-|].
      destruct (Nat.ltb_spec JOURNAL_SLOTS (size (pending s))); [by injection E as <- <-|].
      destruct Hs. split; [|done]. by apply Nat.neq_0_lt_0, map_size_non_empty_iff. }
    destruct (recover_recoverable ∅ old) with crashes (dev s) as (_ & G2 & G3);
      [apply map_Forall_empty|rewrite map_size_empty; lia|right; split; [done|by left]|].
    rewrite !holds_empty in G3. specialize (G3 (λ b _, eq_refl)).
    split_and!; [done|by left|]. intros ->%Hr. by apply holds_empty.
Qed.

Lemma write_all_healthy ws d :
  (∀ i, d_fail d i = false) →
  ∃ d', write_all ws d = (true, d') ∧ ∀ i, d_fail d' i = false.
Proof.
  revert d. induction ws as [|[b x] ws IH]; intros d Hd; cbn [write_all]; [eauto|].
  unfold write_block. rewrite Hd. by apply IH.
Qed.

Lemma commit_done s :
  txn_ok (pending s) → journal_clean (dev s) → (size (pending s) ≤ JOURNAL_SLOTS)%nat →
  (∀ i, d_fail (dev s) i = false) →
  ∃ s', commit_txn s = (true, s') ∧ pending s' = ∅ ∧ journal_clean (dev s') ∧
    holds (dev s') (overlay (pending s) (disk (dev s))).
Proof.
  intros Hok Hcl Hs Hd. destruct (decide (pending s = ∅)) as [He|He].
  { exists s. unfold commit_txn. rewrite bool_decide_true by done. split_and!; try done.
    rewrite He. by apply holds_empty. }
  assert (∃ s', commit_txn s = (true, s') ∧ pending s' = ∅ ∧ journal_clean (dev s')) as (s' & E & Hp & Hc).
  { unfold commit_txn. rewrite bool_decide_false by done.
    destruct (Nat.ltb_spec JOURNAL_SLOTS (size (pending s))); [lia|].
    destruct (write_all_healthy (slot_writes (txn_entries (pending s))) (dev s) Hd) as (d1 & -> & H1).
    unfold write_block at 1. rewrite H1. unfold write_block at 1. cbn [d_fail negb]. rewrite H1.
    set (d3 := mkDev _ _ _).
    destruct (write_all_healthy (txn_entries (pending s)) d3) as (d4 & E4 & H4); [done|].
    cbn [negb]. rewrite E4. cbn [negb]. unfold write_block. rewrite H4.
    eexists. split_and!; [done|done|]. unfold journal_clean, disk. cbn [dev set_pending set_dev d_blocks].
    rewrite lookup_insert_eq. apply clear_header_invalid. }
  exists s'. split_and!; try done.
  apply map_size_non_empty_iff in He.
  by destruct (commit_recoverable (pending s) (disk (dev s)) Hok Hs s) with true s' as [_ H]; [..|lia| | | |apply H].
Qed.

Lemma write_all_fail ws d : d_fail (write_all ws d).2 = d_fail d.
Proof.
  revert d. induction ws as [|[b x] ws IH]; intros d; [done|]. cbn [write_all].
  destruct (write_block_ops b x d) as [Hf _]. destruct (write_block b x d) as [[] d1]; [|done].
  by rewrite IH.
Qed.

Lemma commit_txn_frame s :
  cache (commit_txn s).2 = cache s ∧ total_blocks (commit_txn s).2 = total_blocks s ∧
  d_fail (dev (commit_txn s).2) = d_fail (dev s).
Proof.
  unfold commit_txn. case_bool_decide; [done|]. destruct (_ <? _)%nat; [done|].
  pose proof (write_all_fail (slot_writes (txn_entries (pending s))) (dev s)) as F1.
  destruct (write_all _ (dev s)) as [[] d1]; cbn [negb snd] in *; [|done].
  pose proof (write_block_ops JOURNAL_HDR_BLK (txn_header (txn_entries (pending s))) d1) as [F2 _].
  destruct (write_block _ _ d1) as [[] d2]; cbn [negb snd] in *; [|split_and!; cbn; congruence].
  pose proof (write_block_ops JOURNAL_HDR_BLK (commit_header (txn_entries (pending s))) d2) as [F3 _].
  destruct (write_block _ _ d2) as [[] d3]; cbn [negb snd] in *; [|split_and!; cbn; congruence].
  pose proof (write_all_fail (txn_entries (pending s)) d3) as F4.
  destruct (write_all _ d3) as [[] d4]; cbn [negb snd] in *; [|split_and!; cbn; congruence].
  pose proof (write_block_ops JOURNAL_HDR_BLK clear_header d4) as [F5 _].
  destruct (write_block _ _ d4) as [ok d5]. cbn [snd] in *. split_and!; cbn; congruence.
Qed.

(** On a working device every transaction of at most 32 blocks commits: the
    commit reports success, nothing stays pending, the journal is clean and the
    blocks are on the disk as written. *)
Theorem commit_succeeds s :
  txn_ok (pending s) → journal_clean (dev s) → (size (pending s) ≤ JOURNAL_SLOTS)%nat →
  (∀ i, d_fail (dev s) i = false) →
  ∃ s', commit_txn s = (true, s') ∧ pending s' = ∅ ∧ journal_clean (dev s') ∧
    holds (dev s') (overlay (pending s) (disk (dev s))).
Proof. apply commit_done. Qed.

(** Everything that touches the pending writes: buffering a block and committing. *)
Inductive txn_op : Type := OpWrite (blk : Z) (buf : list Z) | OpCommit.

Definition run_op (s : ofs) (op : txn_op) : ofs :=
  match op with OpWrite blk buf => write_blk blk buf s | OpCommit => (commit_txn s).2 end.

(** A transaction that grew beyond 32 blocks never reaches the disk.  No later
    buffering or commit shrinks it: every commit from then on fails, and the disk
    stays as it was. *)
Theorem oversized_txn_stuck s ops :
  (JOURNAL_SLOTS < size (pending s))%nat →
  let s' := foldl run_op s ops in
  dev s' = dev s ∧ (commit_txn s').1 = false.
Proof.
  assert (∀ s, (JOURNAL_SLOTS < size (pending s))%nat → commit_txn s = (false, s)) as Hc.
  { intros s1 Hs. unfold commit_txn. rewrite bool_decide_false.
    - by destruct (Nat.ltb_spec JOURNAL_SLOTS (size (pending s1))); [|lia].
    - intros Hp. rewrite Hp, map_size_empty in Hs. lia. }
  revert s. induction ops as [|op ops IH]; intros s Hs; cbn [foldl]; [by rewrite Hc|].
  destruct op as [b x|]; cbn [run_op].
  - destruct (IH (write_blk b x s)) as [H1 H2]; [|done].
    unfold write_blk. cbn [pending set_pending]. rewrite map_size_insert.
    destruct (pending s !! b); unfold id; lia.
  - rewrite Hc by done. by apply IH.
Qed.

(** *** Witnesses *)

Definition blank : ofs := mkOfs (mkDev ∅ 0 (λ _, false)) 2048 ∅ (mkCache [] 1).
Definition demo_block : list Z := splice zero_block 0 [1; 2; 3].
Definition demo_txn : ofs := write_blk 71 demo_block (write_blk 70 demo_block blank).

Lemma demo_txn_ok : txn_ok (pending demo_txn).
Proof.
  unfold txn_ok, demo_txn, write_blk, data_blk, JOURNAL_HDR_BLK, DATA_START.
  cbn [pending set_pending blank].
  repeat (apply map_Forall_insert_2; [lia|]). apply map_Forall_empty.
Qed.

(** Recovery does not survive a failing write.  [journal_replay] ignores the
    results of its writes and clears the journal regardless: one failed write leaves
    half of the transaction on the disk and no way to complete it. *)
Theorem replay_ignores_failures :
  let s' := (commit_txn (set_dev (reboot 4 (dev demo_txn)) demo_txn)).2 in
  let d := journal_replay (mkDev (d_blocks (dev s')) 0 (λ i, (i =? 2)%nat)) in
  journal_clean d ∧ disk d 70 = zero_block ∧ disk d 71 = demo_block ∧ demo_block ≠ zero_block.
Proof.
  cbv zeta. split_and!; [vm_compute; reflexivity..|]. intros H.
  assert (demo_block !! 0%nat = zero_block !! 0%nat) as H0 by (f_equal; exact H).
  vm_compute in H0. discriminate H0.
Qed.

Lemma commit_crash_atomic_witness :
  holds (recover [3%nat; 5%nat] (dev (commit_txn demo_txn).2)) (overlay (pending demo_txn) (disk (dev demo_txn))).
Proof.
  pose proof (commit_crash_atomic demo_txn [3%nat; 5%nat] demo_txn_ok) as H.
  assert ((commit_txn demo_txn).1 = true) as E by (vm_compute; reflexivity).
  destruct (commit_txn demo_txn) as [r s']. cbn [fst] in E. destruct H as (_ & _ & H).
  - vm_compute. reflexivity.
  - exact (H E).
Defined.

Lemma commit_succeeds_witness :
  ∃ s', commit_txn demo_txn = (true, s') ∧ disk (dev s') 70 = demo_block.
Proof.
  destruct (commit_succeeds demo_txn demo_txn_ok) as (s' & H1 & _ & _ & H2).
  - vm_compute. reflexivity.
  - apply (bool_decide_unpack (size (pending demo_txn) ≤ JOURNAL_SLOTS)%nat). vm_compute. exact I.
  - intros i. reflexivity.
  - exists s'. split; [exact H1|]. rewrite (H2 70); [vm_compute; reflexivity|].
    unfold data_blk, JOURNAL_HDR_BLK, DATA_START. lia.
Defined.

Definition big_txn : ofs := foldl (λ s i, write_blk (100 + Z.of_nat i) zero_block s) blank (seq 0 33).

Lemma oversized_txn_stuck_witness :
  (commit_txn (foldl run_op big_txn [OpWrite 70 demo_block; OpCommit])).1 = false.
Proof.
  apply (oversized_txn_stuck big_txn [OpWrite 70 demo_block; OpCommit]).
  apply (bool_decide_unpack (JOURNAL_SLOTS < size (pending big_txn))%nat). vm_compute. exact I.
Defined.
