(* ===== verification/Ofs.v ===== *)
(** * The block file system (user/vfs-server/src/blockfs.rs)

    Bitmaps, inodes and their cache, the map from file offsets to blocks, files and
    directories, over the pending writes and the journal of [Journal].  Operations
    are in the state monad on [ofs]; [Panic] is an index out of the bounds of a
    block, [Err] marks a loop that used up its fuel. *)

From Stdlib Require Import ZArith Lia.
From stdpp Require Import prelude gmap strings.
From S2P Require Import Prelude Journal.

Local Open Scope Z_scope.

Definition ITYPE_FILE : Z := 1.
Definition ITYPE_DIR : Z := 2.
Definition ITYPE_SYMLINK : Z := 3.
Definition ITYPE_DIR_ENTRY : Z := 2.
Definition ROOT_INODE : Z := 0.
Definition DIRENTRY_SIZE : nat := 64.
Definition DIRENTRIES_PER_BLOCK : nat := 64.
Definition NPTRS : Z := 1024.

Inductive fs_error : Type :=
  | NotFound | NotFile | NotDir | Exists | NoSpace | BadInode | MissingBlock | BlockRead
  | BlockWrite | InvalidName | CrossMount.

(** ** Lifting block access *)

Definition rd (blk : Z) : M ofs (option (list Z)) := λ s, let '(r, s') := read_blk blk s in (Ok r, s').
Definition wr (blk : Z) (buf : list Z) : M ofs unit := modify (write_blk blk buf).
Definition commit : M ofs bool := λ s, let '(r, s') := commit_txn s in (Ok r, s').

(** ** Bitmaps *)

Definition bit_mask (bit : nat) : Z := Z.shiftl 1 (Z.of_nat (bit mod 8)).

Definition bitmap_set (bitmap_blk : Z) (bit : nat) (value : bool) : M ofs unit :=
  r ← rd bitmap_blk;
  match r with
  | None => mret tt
  | Some buf =>
      match buf !! (bit / 8)%nat with
      | None => panic "index out of bounds"
      | Some byte =>
          wr bitmap_blk (<[(bit / 8)%nat := if value then Z.lor byte (bit_mask bit)
                                            else Z.ldiff byte (bit_mask bit)]> buf)
      end
  end.

(** The scan of [bitmap_alloc] from bit [i] over [n] bits. *)
Fixpoint bitmap_scan (buf : list Z) (i n : nat) : outcome (option (nat * Z)) :=
  match n with
  | O => Ok None
  | S n' =>
      match buf !! (i / 8)%nat with
      | None => Panic "index out of bounds"
      | Some byte => if Z.land byte (bit_mask i) =? 0 then Ok (Some (i, byte))
                     else bitmap_scan buf (S i) n'
      end
  end.

Definition bitmap_alloc (bitmap_blk : Z) (start limit : nat) : M ofs (option nat) :=
  r ← rd bitmap_blk;
  match r with
  | None => mret None
  | Some buf =>
      match bitmap_scan buf start (limit - start) with
      | Ok None => mret None
      | Ok (Some (i, byte)) =>
          _ ← wr bitmap_blk (<[(i / 8)%nat := Z.lor byte (bit_mask i)]> buf);
          mret (Some i)
      | Err e => fail e
      | Panic w => panic w
      end
  end.

(** ** Inodes on disk *)

Definition words (buf : list Z) (off n : nat) : list Z := (λ i, u32_le buf (off + i * 4)) <$> seq 0 n.

Definition byte_at (buf : list Z) (i : nat) : Z := default 0 (buf !! i).

Definition raw_inode_read (buf : list Z) : raw_inode :=
  mkInode (byte_at buf 0) (slice buf 1 3) (u32_le buf 4) (u32_le buf 8) (u32_le buf 12)
    (words buf 16 12) (u32_le buf 64) (u32_le buf 68) (words buf 72 14).

Definition raw_inode_write (buf : list Z) (inode : raw_inode) : list Z :=
  let buf := splice buf 0 [itype inode] in
  let buf := splice buf 1 (i_pad inode) in
  let buf := splice buf 4 (le_bytes 4 (i_size inode)) in
  let buf := splice buf 8 (le_bytes 4 (nlink inode)) in
  let buf := splice buf 12 (le_bytes 4 (used_blocks inode)) in
  let buf := put_words (direct inode) 16 buf in
  let buf := splice buf 64 (le_bytes 4 (indirect inode)) in
  let buf := splice buf 68 (le_bytes 4 (double_indirect inode)) in
  put_words (i_reserved inode) 72 buf.

(** ** The inode cache *)

Definition cache_new : inode_cache := mkCache (replicate INODE_CACHE_SIZE (0, None)) 1.

Fixpoint cache_find (l : list (Z * option raw_inode)) (ino : Z) : option raw_inode :=
  match l with
  | [] => None
  | (key, val) :: l' => if key =? ino then val else cache_find l' ino
  end.

Definition cache_get (c : inode_cache) (ino : Z) : option raw_inode := cache_find (c_entries c) ino.

Definition cache_insert (ino : Z) (inode : raw_inode) (c : inode_cache) : inode_cache :=
  mkCache (<[Z.to_nat (c_generation c mod Z.of_nat INODE_CACHE_SIZE) := (ino, Some inode)]> (c_entries c))
    (wrap 64 (c_generation c + 1)).

Fixpoint clear_first (ino : Z) (l : list (Z * option raw_inode)) : list (Z * option raw_inode) :=
  match l with
  | [] => []
  | (key, val) :: l' => if key =? ino then (key, None) :: l' else (key, val) :: clear_first ino l'
  end.

Definition cache_invalidate (ino : Z) (c : inode_cache) : inode_cache :=
  mkCache (clear_first ino (c_entries c)) (c_generation c).

(** ** Inode access *)

Definition inode_blk (ino : Z) : Z := INODE_TABLE_START + ino / INODES_PER_BLOCK.
Definition inode_off (ino : Z) : nat := (Z.to_nat (ino mod INODES_PER_BLOCK) * INODE_SIZE)%nat.

Definition read_inode (ino : Z) : M ofs (option raw_inode) :=
  if MAX_INODES <=? ino then mret None
  else
    c ← gets cache;
    match cache_get c ino with
    | Some inode => mret (Some inode)
    | None =>
        r ← rd (inode_blk ino);
        match r with
        | None => mret None
        | Some buf =>
            let inode := raw_inode_read (slice buf (inode_off ino) INODE_SIZE) in
            _ ← modify (λ s, set_cache (cache_insert ino inode (cache s)) s);
            mret (Some inode)
        end
    end.

Definition write_inode (ino : Z) (inode : raw_inode) : M ofs bool :=
  if MAX_INODES <=? ino then mret false
  else
    _ ← modify (λ s, set_cache (cache_invalidate ino (cache s)) s);
    r ← rd (inode_blk ino);
    match r with
    | None => mret false
    | Some buf =>
        let slot := slice buf (inode_off ino) INODE_SIZE in
        _ ← wr (inode_blk ino) (splice buf (inode_off ino) (raw_inode_write slot inode));
        mret true
    end.

(** ** Allocation *)

Definition alloc_block : M ofs (option Z) :=
  limit ← gets total_blocks;
  r ← bitmap_alloc BLOCK_BITMAP_BLK (Z.to_nat DATA_START) (Z.to_nat limit);
  mret (Z.of_nat <$> r).

Definition free_block (blk : Z) : M ofs unit :=
  if DATA_START <=? blk then bitmap_set BLOCK_BITMAP_BLK (Z.to_nat blk) false else mret tt.

Fixpoint free_indirect_blocks (depth : nat) (blk : Z) : M ofs unit :=
  if blk =? 0 then mret tt
  else match depth with
  | O => free_block blk
  | S d =>
      r ← rd blk;
      match r with
      | None => mret tt
      | Some ib =>
          _ ← for_each (words ib 0 (Z.to_nat NPTRS))
                (λ b, if b =? 0 then mret tt else free_indirect_blocks d b);
          free_block blk
      end
  end.

Definition alloc_inode : M ofs (option Z) :=
  r ← bitmap_alloc INODE_BITMAP_BLK 1 (Z.to_nat MAX_INODES);
  mret (Z.of_nat <$> r).

Definition free_inode (ino : Z) : M ofs unit :=
  _ ← modify (λ s, set_cache (cache_invalidate ino (cache s)) s);
  bitmap_set INODE_BITMAP_BLK (Z.to_nat ino) false.

(** ** The map from file blocks to disk blocks *)

Definition set_direct (i : nat) (b : Z) (n : raw_inode) : raw_inode :=
  mkInode (itype n) (i_pad n) (i_size n) (nlink n) (used_blocks n) (<[i := b]> (direct n)) (indirect n)
    (double_indirect n) (i_reserved n).
Definition set_indirect (b : Z) (n : raw_inode) : raw_inode :=
  mkInode (itype n) (i_pad n) (i_size n) (nlink n) (used_blocks n) (direct n) b (double_indirect n)
    (i_reserved n).
Definition set_double (b : Z) (n : raw_inode) : raw_inode :=
  mkInode (itype n) (i_pad n) (i_size n) (nlink n) (used_blocks n) (direct n) (indirect n) b
    (i_reserved n).
Definition add_used (n : raw_inode) : raw_inode :=
  mkInode (itype n) (i_pad n) (i_size n) (nlink n) (wrap 32 (used_blocks n + 1)) (direct n) (indirect n)
    (double_indirect n) (i_reserved n).
Definition set_size (sz : Z) (n : raw_inode) : raw_inode :=
  mkInode (itype n) (i_pad n) sz (nlink n) (used_blocks n) (direct n) (indirect n) (double_indirect n)
    (i_reserved n).
Definition set_nlink (k : Z) (n : raw_inode) : raw_inode :=
  mkInode (itype n) (i_pad n) (i_size n) k (used_blocks n) (direct n) (indirect n) (double_indirect n)
    (i_reserved n).

(** Allocate a block and zero it. *)
Definition alloc_zeroed : M ofs (option Z) :=
  r ← alloc_block;
  match r with
  | None => mret None
  | Some b => _ ← wr b zero_block; mret (Some b)
  end.

(** A root pointer of the inode: allocated when null and [alloc] is set. *)
Definition root_pointer (b : Z) (set : Z → raw_inode → raw_inode) (ino : Z) (alloc : bool)
    (inode : raw_inode) : M ofs (option Z * raw_inode) :=
  if negb (b =? 0) then mret (Some b, inode)
  else if negb alloc then mret (None, inode)
  else
    r ← alloc_zeroed;
    match r with
    | None => mret (None, inode)
    | Some nb =>
        let inode' := add_used (set nb inode) in
        _ ← write_inode ino inode';
        mret (Some nb, inode')
    end.

(** Entry [i] of the indirect block [ib]. *)
Definition indirect_entry (ib : Z) (i : nat) (ino : Z) (alloc : bool) (inode : raw_inode)
    : M ofs (option Z * raw_inode) :=
  r ← rd ib;
  match r with
  | None => mret (None, inode)
  | Some buf =>
      let blk := u32_le buf (i * 4) in
      if negb (blk =? 0) then mret (Some blk, inode)
      else if negb alloc then mret (None, inode)
      else
        r ← alloc_zeroed;
        match r with
        | None => mret (None, inode)
        | Some nb =>
            _ ← wr ib (splice buf (i * 4) (le_bytes 4 nb));
            let inode' := add_used inode in
            _ ← write_inode ino inode';
            mret (Some nb, inode')
        end
  end.

Definition get_file_block (ino idx : Z) (alloc : bool) (inode : raw_inode)
    : M ofs (option Z * raw_inode) :=
  if idx <? 12 then
    root_pointer (default 0 (direct inode !! Z.to_nat idx)) (set_direct (Z.to_nat idx)) ino alloc inode
  else
    let idx := idx - 12 in
    if idx <? NPTRS then
      '(r, inode) ← root_pointer (indirect inode) set_indirect ino alloc inode;
      match r with
      | None => mret (None, inode)
      | Some ib => indirect_entry ib (Z.to_nat idx) ino alloc inode
      end
    else
      let idx := idx - NPTRS in
      let outer := idx / NPTRS in
      let inner := idx mod NPTRS in
      if NPTRS <=? outer then mret (None, inode)
      else
        '(r, inode) ← root_pointer (double_indirect inode) set_double ino alloc inode;
        match r with
        | None => mret (None, inode)
        | Some dib =>
            '(r, inode) ← indirect_entry dib (Z.to_nat outer) ino alloc inode;
            match r with
            | None => mret (None, inode)
            | Some ib => indirect_entry ib (Z.to_nat inner) ino alloc inode
            end
        end.

(** ** Files *)

Definition is_filelike (inode : raw_inode) : bool :=
  (itype inode =? ITYPE_FILE) || (itype inode =? ITYPE_SYMLINK).

(** The reading loop, from [done] bytes read to [to_read]; each round reads at
    least one byte, so [to_read] rounds are enough. *)
Fixpoint read_loop (fuel : nat) (ino offset : Z) (done to_read : nat) (acc : list Z) (inode : raw_inode)
    : M ofs (list Z + fs_error) :=
  if (to_read <=? done)%nat then mret (inl acc)
  else match fuel with
  | O => fail "fuel"
  | S fuel' =>
      let pos := offset + Z.of_nat done in
      let block_idx := wrap 32 (pos / 4096) in
      let block_off := Z.to_nat (pos mod 4096) in
      let chunk := Nat.min (to_read - done) (BLOCK_SIZE - block_off) in
      '(r, inode) ← get_file_block ino block_idx false inode;
      match r with
      | None => mret (inr MissingBlock)
      | Some blk =>
          b ← rd blk;
          match b with
          | None => mret (inr BlockRead)
          | Some buf => read_loop fuel' ino offset (done + chunk) to_read
                          (acc ++ slice buf block_off chunk) inode
          end
      end
  end.

Definition file_read (ino offset : Z) (buf_len : nat) : M ofs (list Z + fs_error) :=
  r ← read_inode ino;
  match r with
  | None => mret (inr BadInode)
  | Some inode =>
      if negb (is_filelike inode) then mret (inr NotFile)
      else if i_size inode <=? offset then mret (inl [])
      else
        let to_read := Nat.min (Z.to_nat (i_size inode - offset)) buf_len in
        read_loop to_read ino offset 0 to_read [] inode
  end.

Fixpoint write_loop (fuel : nat) (ino offset : Z) (done : nat) (data : list Z) (inode : raw_inode)
    : M ofs (raw_inode + fs_error) :=
  if (length data <=? done)%nat then mret (inl inode)
  else match fuel with
  | O => fail "fuel"
  | S fuel' =>
      let pos := offset + Z.of_nat done in
      let block_idx := wrap 32 (pos / 4096) in
      let block_off := Z.to_nat (pos mod 4096) in
      let chunk := Nat.min (length data - done) (BLOCK_SIZE - block_off) in
      '(r, inode) ← get_file_block ino block_idx true inode;
      match r with
      | None => mret (inr NoSpace)
      | Some blk =>
          b ← (if negb (block_off =? 0)%nat || (chunk <? BLOCK_SIZE)%nat then rd blk
               else mret (Some zero_block));
          match b with
          | None => mret (inr BlockRead)
          | Some buf =>
              _ ← wr blk (splice buf block_off (slice data done chunk));
              write_loop fuel' ino offset (done + chunk) data inode
          end
      end
  end.

Definition file_write (ino offset : Z) (data : list Z) : M ofs (nat + fs_error) :=
  r ← read_inode ino;
  match r with
  | None => mret (inr BadInode)
  | Some inode =>
      if negb (is_filelike inode) then mret (inr NotFile)
      else
        let end_ := wrap 64 (offset + Z.of_nat (length data)) in
        w ← write_loop (length data) ino offset 0 data inode;
        match w with
        | inr e => mret (inr e)
        | inl inode =>
            _ ← (if i_size inode <? end_ then write_inode ino (set_size (wrap 32 end_) inode)
                 else mret true);
            _ ← commit;
            mret (inl (length data))
        end
  end.

Definition file_truncate (ino : Z) : M ofs unit :=
  r ← read_inode ino;
  match r with
  | None => mret tt
  | Some inode =>
      _ ← for_each (List.filter (λ b, negb (b =? 0)) (direct inode)) free_block;
      _ ← (if negb (indirect inode =? 0) then free_indirect_blocks 1 (indirect inode) else mret tt);
      _ ← (if negb (double_indirect inode =? 0) then free_indirect_blocks 2 (double_indirect inode)
           else mret tt);
      _ ← write_inode ino (mkInode (itype inode) (i_pad inode) 0 (nlink inode) 0 (replicate 12 0) 0 0
                             (i_reserved inode));
      _ ← commit;
      mret tt
  end.

(** ** Directory entries *)

(** Inode number, name length and entry type. *)
Definition dirent_read (buf : list Z) (off : nat) : Z * Z * Z :=
  (u32_le buf off, byte_at buf (off + 4), byte_at buf (off + 5)).

Definition dirent_write (buf : list Z) (off : nat) (ino : Z) (name : list Z) (etype : Z) : list Z :=
  let buf := splice buf off (le_bytes 4 ino) in
  let buf := splice buf (off + 4) [wrap 8 (Z.of_nat (length name))] in
  let buf := splice buf (off + 5) [etype] in
  splice buf (off + 8) name.

Definition dirent_name (buf : list Z) (off name_len : nat) : list Z := slice buf (off + 8) name_len.

Definition dirent_name_eq (buf : list Z) (off name_len : nat) (name : list Z) : bool :=
  (name_len =? length name)%nat && bool_decide (dirent_name buf off name_len = name).

Definition dirent_clear (buf : list Z) (off : nat) : list Z := splice buf off (replicate DIRENTRY_SIZE 0).

(** ** Directories *)

Definition div_ceil (a b : nat) : nat := ((a + b - 1) / b)%nat.

(** What the scan of one directory block finds: the matching entry (its slot,
    inode and type), the end of the entries, or the number of entries seen. *)
Inductive scan_result : Type :=
  | Found (slot : nat) (ino etype : Z)
  | AtEnd
  | NextBlock (seen : nat).

Fixpoint scan_block (buf : list Z) (name : list Z) (total seen slot n : nat) : scan_result :=
  match n with
  | O => NextBlock seen
  | S n' =>
      if (total <=? seen)%nat then AtEnd
      else
        let off := (slot * DIRENTRY_SIZE)%nat in
        let '(de_ino, de_len, de_type) := dirent_read buf off in
        if negb (de_len =? 0) && dirent_name_eq buf off (Z.to_nat de_len) name
        then Found slot de_ino de_type
        else scan_block buf name total (S seen) (S slot) n'
  end.

(** The search over the blocks of a directory; [size / 4096 + 1] rounds reach the
    end. *)
Fixpoint lookup_loop (fuel : nat) (dir_ino : Z) (name : list Z) (inode : raw_inode) (total seen : nat)
    (block_idx : Z) : M ofs (option (Z * Z)) :=
  if i_size inode <=? block_idx * 4096 then mret None
  else match fuel with
  | O => fail "fuel"
  | S fuel' =>
      '(r, _) ← get_file_block dir_ino block_idx false inode;
      match r with
      | None => mret None
      | Some blk =>
          b ← rd blk;
          match b with
          | None => mret None
          | Some buf =>
              match scan_block buf name total seen 0 DIRENTRIES_PER_BLOCK with
              | Found _ de_ino de_type => mret (Some (de_ino, de_type))
              | AtEnd => mret None
              | NextBlock seen' => lookup_loop fuel' dir_ino name inode total seen' (block_idx + 1)
              end
          end
      end
  end.

Definition dir_rounds (inode : raw_inode) : nat := S (Z.to_nat (i_size inode / 4096)).

Definition dir_lookup_inode (dir_ino : Z) (name : list Z) : M ofs (option (Z * Z)) :=
  r ← read_inode dir_ino;
  match r with
  | None => mret None
  | Some inode =>
      if negb (itype inode =? ITYPE_DIR) then mret None
      else if (55 <? length name)%nat then mret None
      else lookup_loop (dir_rounds inode) dir_ino name inode
             (div_ceil (Z.to_nat (i_size inode)) DIRENTRY_SIZE) 0 0
  end.

(** The components of a path already split at its slashes, empty ones included. *)
Fixpoint lookup_components (comps : list (list Z)) (cur_ino cur_type : Z) : M ofs (option (Z * Z)) :=
  match comps with
  | [] => mret (Some (cur_ino, cur_type))
  | [] :: comps' => lookup_components comps' cur_ino cur_type
  | comp :: comps' =>
      if negb (cur_type =? ITYPE_DIR_ENTRY) then mret None
      else
        r ← dir_lookup_inode cur_ino comp;
        match r with
        | None => mret None
        | Some (ino, ty) => lookup_components comps' ino ty
        end
  end.

Definition lookup_path (path : list Z) : M ofs (option (Z * Z)) :=
  lookup_components (split_on 47 path) ROOT_INODE ITYPE_DIR_ENTRY.

Definition bump_nlink (ino : Z) (f : Z → Z) : M ofs unit :=
  r ← read_inode ino;
  match r with
  | None => mret tt
  | Some n => _ ← write_inode ino (set_nlink (f (nlink n)) n); mret tt
  end.

(** The first free slot of a block among the directory's entries. *)
Fixpoint free_dirent (buf : list Z) (coverage total slot n : nat) : option nat :=
  match n with
  | O => None
  | S n' =>
      if (total <=? coverage + slot)%nat then None
      else
        let '(_, len, _) := dirent_read buf (slot * DIRENTRY_SIZE) in
        if len =? 0 then Some slot else free_dirent buf coverage total (S slot) n'
  end.

(** Reusing a free slot.  A block that cannot be read is tried again: the loop of
    the source then spins, which the fuel cuts short. *)
Fixpoint reuse_loop (fuel : nat) (dir_ino : Z) (name : list Z) (child_ino etype : Z) (inode : raw_inode)
    (total : nat) (block_idx : nat) : M ofs (option bool * raw_inode) :=
  let coverage := (block_idx * DIRENTRIES_PER_BLOCK)%nat in
  if (total <=? coverage)%nat then mret (None, inode)
  else match fuel with
  | O => fail "fuel"
  | S fuel' =>
      '(r, inode) ← get_file_block dir_ino (Z.of_nat block_idx) false inode;
      match r with
      | None => reuse_loop fuel' dir_ino name child_ino etype inode total (S block_idx)
      | Some blk =>
          b ← rd blk;
          match b with
          | None => reuse_loop fuel' dir_ino name child_ino etype inode total block_idx
          | Some buf =>
              match free_dirent buf coverage total 0 DIRENTRIES_PER_BLOCK with
              | None => reuse_loop fuel' dir_ino name child_ino etype inode total (S block_idx)
              | Some slot =>
                  _ ← wr blk (dirent_write buf (slot * DIRENTRY_SIZE) child_ino name etype);
                  let slot_pos := Z.of_nat ((coverage + slot + 1) * DIRENTRY_SIZE) in
                  let inode' := if i_size inode <? slot_pos then set_size (wrap 32 slot_pos) inode
                                else inode in
                  _ ← (if i_size inode <? slot_pos then write_inode dir_ino inode' else mret true);
                  _ ← (if etype =? ITYPE_DIR_ENTRY then bump_nlink dir_ino (λ k, sat_add 32 k 1)
                       else mret tt);
                  ok ← commit;
                  mret (Some ok, inode')
              end
          end
      end
  end.

Definition dir_add_entry (dir_ino : Z) (name : list Z) (child_ino etype : Z) : M ofs bool :=
  r ← read_inode dir_ino;
  match r with
  | None => mret false
  | Some inode =>
      if negb (itype inode =? ITYPE_DIR) then mret false
      else if (55 <? length name)%nat then mret false
      else
        let total := div_ceil (Z.to_nat (i_size inode)) DIRENTRY_SIZE in
        '(r, inode) ← reuse_loop (S total) dir_ino name child_ino etype inode total 0;
        match r with
        | Some ok => mret ok
        | None =>
            let next := div_ceil (Z.to_nat (i_size inode)) BLOCK_SIZE in
            '(r, inode) ← get_file_block dir_ino (Z.of_nat next) true inode;
            let blk := default 0 r in
            if blk =? 0 then mret false
            else
              _ ← wr blk (dirent_write zero_block 0 child_ino name etype);
              let new_size := Z.of_nat ((next * DIRENTRIES_PER_BLOCK + 1) * DIRENTRY_SIZE) in
              _ ← (if i_size inode <? new_size
                   then write_inode dir_ino (set_size (wrap 32 new_size) inode) else mret true);
              _ ← (if etype =? ITYPE_DIR_ENTRY then bump_nlink dir_ino (λ k, sat_add 32 k 1)
                   else mret tt);
              commit
        end
  end.

Definition dir_link_entry (dir_ino : Z) (name : list Z) (child_ino etype : Z) : M ofs bool :=
  r ← read_inode child_ino;
  match r with
  | None => mret false
  | Some child =>
      let child := set_nlink (sat_add 32 (nlink child) 1) child in
      _ ← write_inode child_ino child;
      ok ← dir_add_entry dir_ino name child_ino etype;
      _ ← (if (ok : bool) then mret true
           else write_inode child_ino (set_nlink (sat_sub (nlink child) 1) child));
      mret ok
  end.

Definition DOT : list Z := [46].
Definition DOTDOT : list Z := [46; 46].

Definition init_dir (ino parent_ino : Z) : M ofs bool :=
  r ← read_inode ino;
  match r with
  | None => mret false
  | Some inode =>
      if negb (itype inode =? ITYPE_DIR) then mret false
      else
        b ← alloc_block;
        match b with
        | None => mret false
        | Some blk =>
            let buf := dirent_write zero_block 0 ino DOT ITYPE_DIR_ENTRY in
            let buf := dirent_write buf DIRENTRY_SIZE parent_ino DOTDOT ITYPE_DIR_ENTRY in
            _ ← wr blk buf;
            _ ← write_inode ino (mkInode (itype inode) (i_pad inode) 128 2 1 (<[0%nat := blk]> (direct inode))
                                   (indirect inode) (double_indirect inode) (i_reserved inode));
            _ ← commit;
            mret true
        end
  end.

Definition default_inode : raw_inode := mkInode 0 [0; 0; 0] 0 0 0 (replicate 12 0) 0 0 (replicate 14 0).

(** Removing the entry found at [slot] of block [blk]. *)
Definition unlink_found (dir_ino blk : Z) (buf : list Z) (slot : nat) (child_ino etype : Z) : M ofs unit :=
  c ← read_inode child_ino;
  let child := default default_inode c in
  let child := if 0 <? nlink child then set_nlink (nlink child - 1) child else child in
  _ ← (if nlink child =? 0 then (_ ← file_truncate child_ino; free_inode child_ino)
       else (_ ← write_inode child_ino child; mret tt));
  _ ← (if etype =? ITYPE_DIR_ENTRY
       then bump_nlink dir_ino (λ k, if 0 <? k then k - 1 else k) else mret tt);
  _ ← wr blk (dirent_clear buf (slot * DIRENTRY_SIZE));
  _ ← commit;
  mret tt.

Fixpoint unlink_loop (fuel : nat) (dir_ino : Z) (name : list Z) (inode : raw_inode) (total seen : nat)
    (block_idx : nat) : M ofs bool :=
  if (total <=? block_idx * DIRENTRIES_PER_BLOCK)%nat then mret false
  else match fuel with
  | O => fail "fuel"
  | S fuel' =>
      '(r, _) ← get_file_block dir_ino (Z.of_nat block_idx) false inode;
      match r with
      | None => mret false
      | Some blk =>
          b ← rd blk;
          match b with
          | None => mret false
          | Some buf =>
              match scan_block buf name total seen 0 DIRENTRIES_PER_BLOCK with
              | Found slot de_ino de_type =>
                  _ ← unlink_found dir_ino blk buf slot de_ino de_type; mret true
              | AtEnd => unlink_loop fuel' dir_ino name inode total total (S block_idx)
              | NextBlock seen' => unlink_loop fuel' dir_ino name inode total seen' (S block_idx)
              end
          end
      end
  end.

Definition dir_unlink (dir_ino : Z) (name : list Z) : M ofs bool :=
  r ← read_inode dir_ino;
  match r with
  | None => mret false
  | Some inode =>
      let total := div_ceil (Z.to_nat (i_size inode)) DIRENTRY_SIZE in
      unlink_loop (S total) dir_ino name inode total 0 0
  end.

(** The entries of one block, in order, up to the directory's total; names that
    are not UTF-8 are dropped. *)
Fixpoint block_entries (buf : list Z) (total seen slot n : nat) : list (list Z * Z * Z) * nat :=
  match n with
  | O => ([], seen)
  | S n' =>
      if (total <=? seen)%nat then ([], seen)
      else
        let off := (slot * DIRENTRY_SIZE)%nat in
        let '(de_ino, de_len, de_type) := dirent_read buf off in
        let '(rest, seen') := block_entries buf total (S seen) (S slot) n' in
        let name := dirent_name buf off (Z.to_nat de_len) in
        (if negb (de_len =? 0) && utf8_valid name then (name, de_ino, de_type) :: rest else rest, seen')
  end.

Fixpoint readall_loop (fuel : nat) (dir_ino : Z) (inode : raw_inode) (total seen : nat) (block_idx : Z)
    (acc : list (list Z * Z * Z)) : M ofs (list (list Z * Z * Z)) :=
  if i_size inode <=? block_idx * 4096 then mret acc
  else match fuel with
  | O => fail "fuel"
  | S fuel' =>
      '(r, _) ← get_file_block dir_ino block_idx false inode;
      match r with
      | None => mret acc
      | Some blk =>
          b ← rd blk;
          match b with
          | None => mret acc
          | Some buf =>
              let '(es, seen') := block_entries buf total seen 0 DIRENTRIES_PER_BLOCK in
              readall_loop fuel' dir_ino inode total seen' (block_idx + 1) (acc ++ es)
          end
      end
  end.

Definition dir_readall (dir_ino : Z) : M ofs (list (list Z * Z * Z)) :=
  r ← read_inode dir_ino;
  match r with
  | None => mret []
  | Some inode =>
      if negb (itype inode =? ITYPE_DIR) then mret []
      else readall_loop (dir_rounds inode) dir_ino inode
             (div_ceil (Z.to_nat (i_size inode)) DIRENTRY_SIZE) 0 0 []
  end.

(** ** Creating and mounting *)

Definition inode_info (ino : Z) : M ofs (option (Z * Z * Z)) :=
  r ← read_inode ino;
  mret ((λ n, (itype n, i_size n, nlink n)) <$> r).

Definition fresh_inode (ty : Z) : raw_inode := mkInode ty [0; 0; 0] 0 1 0 (replicate 12 0) 0 0 (replicate 14 0).

Definition create_inode (ty : Z) : M ofs (option Z) :=
  r ← alloc_inode;
  match r with
  | None => mret None
  | Some ino => _ ← write_inode ino (fresh_inode ty); mret (Some ino)
  end.

(** Direct device writes, whose results are ignored. *)
Definition dev_write (blk : Z) (buf : list Z) : M ofs unit :=
  modify (λ s, set_dev (write_block blk buf (dev s)).2 s).

Definition super_crc (magic version total : Z) : Z :=
  crc32 (le_bytes 4 magic ++ le_bytes 4 version ++ le_bytes 4 total).

Definition superblock (total : Z) : list Z :=
  let buf := splice zero_block 0 (le_bytes 4 OFS_MAGIC) in
  let buf := splice buf 4 (le_bytes 4 OFS_VERSION) in
  let buf := splice buf 8 (le_bytes 4 total) in
  splice buf 12 (le_bytes 4 (super_crc OFS_MAGIC OFS_VERSION total)).

(** The bitmap with the first [n] bits set. *)
Definition mark_used (n : nat) : list Z :=
  foldl (λ buf i, alter (λ b, Z.lor b (bit_mask i)) (i / 8)%nat buf) zero_block (seq 0 n).

Definition mkfs : M ofs unit :=
  total ← gets total_blocks;
  _ ← dev_write 0 (superblock total);
  _ ← dev_write BLOCK_BITMAP_BLK (mark_used (Z.to_nat DATA_START));
  _ ← dev_write INODE_BITMAP_BLK zero_block;
  _ ← for_each (seq 3 32) (λ b, dev_write (Z.of_nat b) zero_block);
  _ ← dev_write JOURNAL_HDR_BLK clear_header;
  _ ← bitmap_set INODE_BITMAP_BLK 0 true;
  _ ← write_inode ROOT_INODE (fresh_inode ITYPE_DIR);
  _ ← commit;
  mret tt.

(** Mounting: the superblock is read before the journal is replayed. *)
Definition ofs_new (d : blkdev) : outcome (option ofs) :=
  let '(r, d1) := read_block 0 d in
  match r with
  | None => Ok None
  | Some buf =>
      let s := mkOfs (journal_replay d1) 2048 ∅ cache_new in
      let magic := u32_le buf 0 in
      let version := u32_le buf 4 in
      let stored_total := u32_le buf 8 in
      let crc_ok := super_crc magic version stored_total =? u32_le buf 12 in
      if (magic =? OFS_MAGIC) && (version =? OFS_VERSION) && crc_ok then
        Ok (Some (mkOfs (dev s) stored_total (pending s) (cache s)))
      else
        let total := if 68 <? stored_total then stored_total else 2048 in
        match mkfs (mkOfs (dev s) total (pending s) (cache s)) with
        | (Ok _, s') => Ok (Some s')
        | (Err e, _) => Err e
        | (Panic w, _) => Panic w
        end
  end.
