(* ===== verification/OfsInode.v ===== *)
(** * Bitmaps and inodes of the block file system: theorems

    The contents of the file system as its operations see them: [view s b] is what
    reading block [b] gives, pending writes included.  Allocation and inode access
    are characterised by their effect on [view]. *)

From Stdlib Require Import ZArith Lia.
From stdpp Require Import prelude gmap strings.
From S2P Require Import Prelude Journal Ofs.

Local Open Scope Z_scope.

(** ** What the operations see *)

Definition view (s : ofs) (b : Z) : list Z := overlay (pending s) (disk (dev s)) b.

Definition healthy_dev (s : ofs) : Prop := ∀ i, d_fail (dev s) i = false.

(** The state after reading a block: only the device's clock may have moved. *)
Definition touch (b : Z) (s : ofs) : ofs :=
  match pending s !! b with
  | Some _ => s
  | None => set_dev (mkDev (d_blocks (dev s)) (S (d_ops (dev s))) (d_fail (dev s))) s
  end.

Create HintDb ofs.
Create Rewrite HintDb ofs.

Section views.
Implicit Types s : ofs.

Lemma rd_ok s b : healthy_dev s → rd b s = (Ok (Some (view s b)), touch b s).
Proof.
  intros Hd. unfold rd, read_blk, touch, view, overlay. destruct (pending s !! b); [done|].
  unfold read_block. by rewrite Hd.
Qed.

Lemma view_touch s b : view (touch b s) = view s.
Proof. unfold touch. by destruct (pending s !! b). Qed.
Lemma cache_touch s b : cache (touch b s) = cache s.
Proof. unfold touch. by destruct (pending s !! b). Qed.
Lemma total_touch s b : total_blocks (touch b s) = total_blocks s.
Proof. unfold touch. by destruct (pending s !! b). Qed.
Lemma pending_touch s b : pending (touch b s) = pending s.
Proof. unfold touch. by destruct (pending s !! b) eqn:?. Qed.
Lemma blocks_touch s b : d_blocks (dev (touch b s)) = d_blocks (dev s).
Proof. unfold touch. by destruct (pending s !! b). Qed.
Lemma healthy_touch s b : healthy_dev s → healthy_dev (touch b s).
Proof. intros H i. unfold touch. destruct (pending s !! b); apply H. Qed.

Lemma view_write s b x b' : view (write_blk b x s) b' = if decide (b' = b) then x else view s b'.
Proof.
  unfold view, overlay, write_blk. cbn [pending set_pending dev]. case_decide as Hb.
  - subst. by rewrite lookup_insert_eq.
  - by rewrite lookup_insert_ne.
Qed.

Lemma view_set_cache s c : view (set_cache c s) = view s.
Proof. reflexivity. Qed.
End views.

#[export] Hint Rewrite view_touch cache_touch total_touch pending_touch blocks_touch view_write
  view_set_cache : ofs.

(** The standing assumptions: a device that works, blocks of the right size, pending
    writes outside the journal, and a clean journal. *)
Record fs_ok (s : ofs) : Prop := {
  ok_healthy : healthy_dev s;
  ok_pending : txn_ok (pending s);
  ok_clean : journal_clean (dev s);
  ok_blocks : ∀ b, data_blk b → length (view s b) = BLOCK_SIZE;
}.

Lemma fs_ok_touch s b : fs_ok s → fs_ok (touch b s).
Proof.
  intros [H1 H2 H3 H4]. split.
  - by apply healthy_touch.
  - by rewrite pending_touch.
  - unfold journal_clean, disk. by rewrite blocks_touch.
  - by rewrite view_touch.
Qed.

Lemma fs_ok_write s b x :
  fs_ok s → 0 < b < 2 ^ 32 → data_blk b → length x = BLOCK_SIZE → fs_ok (write_blk b x s).
Proof.
  intros [H1 H2 H3 H4] Hb Hd Hx. split; [done|by apply map_Forall_insert_2|done|].
  intros b' Hb'. rewrite view_write. case_decide; auto.
Qed.

Lemma fs_ok_cache s c : fs_ok s → fs_ok (set_cache c s).
Proof. intros [H1 H2 H3 H4]. by split. Qed.

#[export] Hint Resolve fs_ok_touch fs_ok_cache ok_healthy : ofs.

(** Committing does not change what the operations see outside the journal. *)
Lemma commit_view s :
  fs_ok s → ∃ r s', commit s = (Ok r, s') ∧ fs_ok s' ∧ cache s' = cache s ∧
    total_blocks s' = total_blocks s ∧ ∀ b, data_blk b → view s' b = view s b.
Proof.
  intros [H1 H2 H3 H4]. unfold commit. pose proof (commit_txn_frame s) as (Fc & Ft & Ff).
  destruct (decide (size (pending s) ≤ JOURNAL_SLOTS)%nat) as [Hs|Hs].
  - destruct (commit_done s H2 H3 Hs H1) as (s' & E & Hp & Hc & Hh). rewrite E in *. cbn [snd] in *.
    assert (∀ b, data_blk b → view s' b = view s b) as Hv.
    { intros b Hb. unfold view at 1, overlay. rewrite Hp, lookup_empty. by apply Hh. }
    exists true, s'. split_and!; try done. split; [|by rewrite Hp|done|].
    + intros i. rewrite Ff. apply H1.
    + intros b Hb. rewrite Hv; auto.
  - exists false, s. split_and!; try done. unfold commit_txn. rewrite bool_decide_false.
    + by destruct (Nat.ltb_spec JOURNAL_SLOTS (size (pending s))); [|lia].
    + intros He. rewrite He, map_size_empty in Hs. lia.
Qed.

(** ** Bitmaps *)

Definition bit_at (buf : list Z) (i : nat) : bool := Z.testbit (byte_at buf (i / 8)) (Z.of_nat (i mod 8)).

Lemma land_mask x k : 0 ≤ k → (Z.land x (Z.shiftl 1 k) =? 0) = negb (Z.testbit x k).
Proof.
  intros Hk. destruct (Z.testbit x k) eqn:E; cbn [negb].
  - apply Z.eqb_neq. intros H. apply (f_equal (λ z, Z.testbit z k)) in H.
    rewrite Z.land_spec, E, Z.shiftl_spec, Z.sub_diag, Z.testbit_0_l in H by lia. discriminate H.
  - apply Z.eqb_eq, Z.bits_inj'. intros i Hi. rewrite Z.land_spec, Z.testbit_0_l.
    destruct (decide (i = k)) as [->|Hne]; [by rewrite E|].
    rewrite Z.shiftl_1_l, Z.pow2_bits_false by lia. apply andb_false_r.
Qed.

Lemma testbit_mask i j : Z.testbit (bit_mask i) (Z.of_nat (j mod 8)) = bool_decide (i mod 8 = j mod 8)%nat.
Proof.
  unfold bit_mask. rewrite Z.shiftl_1_l. case_bool_decide as H.
  - rewrite H. apply Z.pow2_bits_true. lia.
  - apply Z.pow2_bits_false. lia.
Qed.

Lemma same_bit i j : (i / 8 = j / 8)%nat → (i mod 8 = j mod 8)%nat → i = j.
Proof. intros H1 H2. rewrite (Nat.div_mod_eq i 8), (Nat.div_mod_eq j 8), H1, H2. done. Qed.

(** Setting or clearing one bit of a buffer. *)
Lemma bit_at_update buf i j byte (value : bool) :
  buf !! (i / 8)%nat = Some byte →
  bit_at (<[(i / 8)%nat := if value then Z.lor byte (bit_mask i) else Z.ldiff byte (bit_mask i)]> buf) j =
    if decide (j = i) then value else bit_at buf j.
Proof.
  intros Hb. unfold bit_at, byte_at. pose proof (lookup_lt_Some _ _ _ Hb) as Hlt.
  destruct (decide (i / 8 = j / 8)%nat) as [Heq|Hne].
  - rewrite <-Heq, list_lookup_insert_eq by done. rewrite Hb. cbn [default from_option id].
    assert (bool_decide (i mod 8 = j mod 8)%nat = bool_decide (j = i)) as Hbd.
    { apply bool_decide_ext. split; [|by intros ->]. intros. symmetry. by apply same_bit. }
    destruct value; rewrite ?Z.lor_spec, ?Z.ldiff_spec, testbit_mask, Hbd; clear Hbd;
      destruct (decide (j = i)); [rewrite bool_decide_true by done|rewrite bool_decide_false by done|
        rewrite bool_decide_true by done|rewrite bool_decide_false by done]; cbn [negb];
      by rewrite ?orb_true_r, ?orb_false_r, ?andb_false_r, ?andb_true_r.
  - rewrite list_lookup_insert_ne by done. rewrite decide_False; [done|]. by intros ->.
Qed.

Lemma bitmap_scan_spec buf i n :
  (i + n ≤ 8 * length buf)%nat →
  match bitmap_scan buf i n with
  | Ok (Some (j, byte)) => (i ≤ j < i + n)%nat ∧ buf !! (j / 8)%nat = Some byte ∧ bit_at buf j = false ∧
      ∀ k, (i ≤ k < j)%nat → bit_at buf k = true
  | Ok None => ∀ k, (i ≤ k < i + n)%nat → bit_at buf k = true
  | _ => False
  end.
Proof.
  revert i. induction n as [|n IH]; intros i Hi; cbn [bitmap_scan]; [lia|].
  destruct (buf !! (i / 8)%nat) as [byte|] eqn:E.
  2:{ apply lookup_ge_None in E. assert (i / 8 < length buf)%nat; [|lia].
      apply Nat.Div0.div_lt_upper_bound. lia. }
  unfold bit_mask at 1. rewrite land_mask by lia.
  assert (Z.testbit byte (Z.of_nat (i mod 8)) = bit_at buf i) as ->.
  { unfold bit_at, byte_at. by rewrite E. }
  destruct (bit_at buf i) eqn:Hb; cbn [negb].
  - specialize (IH (S i) ltac:(lia)). destruct (bitmap_scan buf (S i) n) as [[[j b]|]| |]; try done.
    + destruct IH as (H1 & H2 & H3 & H4). split_and!; try done; [lia..|].
      intros k Hk. destruct (decide (k = i)) as [->|]; [done|]. apply H4. lia.
    + intros k Hk. destruct (decide (k = i)) as [->|]; [done|]. apply IH. lia.
  - split_and!; try done; lia.
Qed.

(** The effect of an operation that changes one bit of bitmap [blk] at most. *)
Definition bit_changed (blk : Z) (i : nat) (value : bool) (s s' : ofs) : Prop :=
  (∀ b, b ≠ blk → view s' b = view s b) ∧
  (∀ j, bit_at (view s' blk) j = if decide (j = i) then value else bit_at (view s blk) j).

Definition same_rest (s s' : ofs) : Prop := cache s' = cache s ∧ total_blocks s' = total_blocks s.

Section bitmaps.
Context (s : ofs) (blk : Z).
Hypothesis s_ok : fs_ok s.
Hypothesis blk_ok : 0 < blk < 2 ^ 32 ∧ data_blk blk.

Lemma bitmap_write i byte (value : bool) :
  view s blk !! (i / 8)%nat = Some byte →
  let s' := write_blk blk (<[(i / 8)%nat := if value then Z.lor byte (bit_mask i)
              else Z.ldiff byte (bit_mask i)]> (view s blk)) (touch blk s) in
  fs_ok s' ∧ same_rest s s' ∧ bit_changed blk i value s s'.
Proof.
  intros Hb. destruct blk_ok as [Hr Hd]. cbv zeta. split_and!.
  - apply fs_ok_write; [by apply fs_ok_touch|done|done|]. rewrite length_insert.
    by apply (ok_blocks s s_ok).
  - unfold same_rest, write_blk. cbn [cache total_blocks set_pending]. by autorewrite with ofs.
  - split.
    + intros b Hne. rewrite view_write, decide_False by done. by autorewrite with ofs.
    + intros j. rewrite view_write, decide_True by done. by apply bit_at_update.
Qed.

Lemma bitmap_byte i : (i < 8 * BLOCK_SIZE)%nat → ∃ byte, view s blk !! (i / 8)%nat = Some byte.
Proof.
  intros Hi. apply lookup_lt_is_Some. rewrite (ok_blocks s s_ok) by apply blk_ok.
  apply Nat.Div0.div_lt_upper_bound. lia.
Qed.

Lemma bitmap_set_spec i value :
  (i < 8 * BLOCK_SIZE)%nat →
  ∃ s', bitmap_set blk i value s = (Ok tt, s') ∧ fs_ok s' ∧ same_rest s s' ∧
    bit_changed blk i value s s'.
Proof.
  intros Hi. destruct (bitmap_byte i Hi) as [byte Hb]. unfold bitmap_set.
  rewrite (bind_ok _ _ _ _ _ (rd_ok s blk (ok_healthy s s_ok))), Hb.
  eexists. split; [reflexivity|]. by apply bitmap_write.
Qed.

Lemma bitmap_alloc_spec start limit :
  (start ≤ 8 * BLOCK_SIZE)%nat → (limit ≤ 8 * BLOCK_SIZE)%nat →
  ∃ r s', bitmap_alloc blk start limit s = (Ok r, s') ∧ fs_ok s' ∧ same_rest s s' ∧
    match r with
    | Some i => (start ≤ i < limit)%nat ∧ bit_at (view s blk) i = false ∧
        (∀ k, (start ≤ k < i)%nat → bit_at (view s blk) k = true) ∧ bit_changed blk i true s s'
    | None => (∀ k, (start ≤ k < limit)%nat → bit_at (view s blk) k = true) ∧ view s' = view s
    end.
Proof.
  intros Hst Hlim. unfold bitmap_alloc. rewrite (bind_ok _ _ _ _ _ (rd_ok s blk (ok_healthy s s_ok))).
  pose proof (bitmap_scan_spec (view s blk) start (limit - start)) as Hs.
  rewrite (ok_blocks s s_ok) in Hs by apply blk_ok. specialize (Hs ltac:(lia)).
  destruct (bitmap_scan _ _ _) as [[[i byte]|]| |]; try done.
  - destruct Hs as (H1 & H2 & H3 & H4). eexists (Some i), _. split; [reflexivity|].
    destruct (bitmap_write i byte true H2) as (G1 & G2 & G3). split_and!; try done; lia.
  - eexists None, _. split; [reflexivity|]. split_and!.
    + by apply fs_ok_touch.
    + split; by autorewrite with ofs.
    + intros k Hk. apply Hs. lia.
    + by autorewrite with ofs.
Qed.
End bitmaps.

Lemma bitmap_blocks_ok :
  (0 < BLOCK_BITMAP_BLK < 2 ^ 32 ∧ data_blk BLOCK_BITMAP_BLK) ∧
  (0 < INODE_BITMAP_BLK < 2 ^ 32 ∧ data_blk INODE_BITMAP_BLK).
Proof.
  unfold data_blk, BLOCK_BITMAP_BLK, INODE_BITMAP_BLK, JOURNAL_HDR_BLK, DATA_START. lia.
Qed.

(** A disk one bitmap block can describe. *)
Definition disk_fits (s : ofs) : Prop := 0 ≤ total_blocks s ≤ 32768.

Definition block_used (s : ofs) (b : Z) : Prop := bit_at (view s BLOCK_BITMAP_BLK) (Z.to_nat b) = true.

Lemma alloc_block_effect s :
  fs_ok s → disk_fits s →
  ∃ r s', alloc_block s = (Ok r, s') ∧ fs_ok s' ∧ same_rest s s' ∧
    match r with
    | Some b => DATA_START ≤ b < total_blocks s ∧ ¬ block_used s b ∧
        (∀ c, DATA_START ≤ c < b → block_used s c) ∧
        bit_changed BLOCK_BITMAP_BLK (Z.to_nat b) true s s'
    | None => (∀ c, DATA_START ≤ c < total_blocks s → block_used s c) ∧ view s' = view s
    end.
Proof.
  intros Hok Hfit. pose proof block_size_eq as HB. unfold disk_fits in Hfit.
  destruct (bitmap_alloc_spec s BLOCK_BITMAP_BLK Hok (proj1 bitmap_blocks_ok) (Z.to_nat DATA_START)
    (Z.to_nat (total_blocks s))) as (r & s' & E & Hok' & Hsame & Hr); [unfold DATA_START; lia|lia|].
  unfold alloc_block. rewrite (bind_ok _ _ s (total_blocks s) s) by done.
  rewrite (bind_ok _ _ _ _ _ E). exists (Z.of_nat <$> r), s'. split; [done|]. split_and!; try done.
  unfold block_used, DATA_START in *. destruct r as [i|]; cbn [fmap option_fmap option_map].
  - destruct Hr as (H1 & H2 & H3 & H4). rewrite Nat2Z.id. split_and!; try done; [lia..| |].
    + congruence.
    + intros c Hc. apply H3. lia.
  - destruct Hr as [H1 H2]. split; [|done]. intros c Hc. apply H1. lia.
Qed.

Lemma free_block_effect s b :
  fs_ok s → disk_fits s → DATA_START ≤ b < total_blocks s →
  ∃ s', free_block b s = (Ok tt, s') ∧ fs_ok s' ∧ same_rest s s' ∧
    bit_changed BLOCK_BITMAP_BLK (Z.to_nat b) false s s'.
Proof.
  intros Hok Hfit Hb. pose proof block_size_eq as HB. unfold disk_fits, DATA_START in *.
  unfold free_block, DATA_START. destruct (Z.leb_spec 68 b); [|lia].
  apply bitmap_set_spec; [done|apply bitmap_blocks_ok|lia].
Qed.

(** Block allocation is sound and complete: on a working disk it returns the
    lowest free block of the data area, never a block of the file system's own
    metadata or journal, marks exactly that block used and changes no other block;
    it fails only when every data block is in use. *)
Theorem alloc_block_spec s :
  fs_ok s → disk_fits s →
  ∃ r s', alloc_block s = (Ok r, s') ∧
    match r with
    | Some b => DATA_START ≤ b < total_blocks s ∧ ¬ block_used s b ∧
        (∀ c, DATA_START ≤ c < b → block_used s c) ∧ block_used s' b ∧
        (∀ c, 0 ≤ c → c ≠ b → block_used s' c ↔ block_used s c) ∧
        (∀ c, c ≠ BLOCK_BITMAP_BLK → view s' c = view s c)
    | None => (∀ c, DATA_START ≤ c < total_blocks s → block_used s c) ∧ view s' = view s
    end.
Proof.
  intros Hok Hfit. destruct (alloc_block_effect s Hok Hfit) as (r & s' & E & _ & _ & Hr).
  exists r, s'. split; [done|]. destruct r as [b|]; [|done].
  destruct Hr as (H1 & H2 & H3 & H4 & H5). unfold block_used in *. split_and!; try done; [lia..| |].
  - by rewrite H5, decide_True.
  - intros c Hc Hne. rewrite H5, decide_False; [done|]. unfold DATA_START in H1. lia.
Qed.

(** ** Inodes on disk *)

Definition u32 (x : Z) : Prop := 0 ≤ x < 2 ^ 32.

Record inode_wf (n : raw_inode) : Prop := {
  wf_itype : is_byte (itype n);
  wf_pad : length (i_pad n) = 3%nat;
  wf_words : u32 (i_size n) ∧ u32 (nlink n) ∧ u32 (used_blocks n) ∧ u32 (indirect n) ∧
    u32 (double_indirect n);
  wf_direct : length (direct n) = 12%nat ∧ Forall u32 (direct n);
  wf_reserved : length (i_reserved n) = 14%nat ∧ Forall u32 (i_reserved n);
}.

Definition words_bytes (ws : list Z) : list Z := concat (le_bytes 4 <$> ws).

Lemma length_words_bytes ws : length (words_bytes ws) = (4 * length ws)%nat.
Proof.
  unfold words_bytes. induction ws as [|w ws IH]; [done|]. cbn [fmap list_fmap concat].
  rewrite length_app, IH, length_le_bytes. cbn [length]. lia.
Qed.

Lemma splice_adjacent {A} (l a b : list A) off :
  (off + length a + length b ≤ length l)%nat →
  splice (splice l off a) (off + length a) b = splice l off (a ++ b).
Proof.
  intros Hl. apply list_eq. intros i.
  rewrite !lookup_splice by (rewrite ?length_splice, ?length_app; lia). rewrite length_app.
  repeat case_decide; try lia; try done.
  - rewrite lookup_app_r by lia. f_equal. lia.
  - rewrite lookup_app_l by lia. done.
Qed.

Lemma put_words_splice ws off buf :
  (off + 4 * length ws ≤ length buf)%nat → put_words ws off buf = splice buf off (words_bytes ws).
Proof.
  revert off buf. induction ws as [|w ws IH]; intros off buf Hl; cbn [put_words length] in *.
  - unfold splice, words_bytes. simpl. by rewrite Nat.add_0_r, take_drop.
  - rewrite IH by (rewrite length_splice4; lia).
    pose proof (splice_adjacent buf (le_bytes 4 w) (words_bytes ws) off) as H.
    rewrite length_words_bytes, length_le_bytes in H. apply H. lia.
Qed.

Lemma u32_splice_disjoint buf off bs off' :
  (off + length bs ≤ length buf)%nat → (off' + 4 ≤ off ∨ off + length bs ≤ off')%nat →
  u32_le (splice buf off bs) off' = u32_le buf off'.
Proof. intros. unfold u32_le. by rewrite slice_splice_ne. Qed.

Lemma words_splice_disjoint buf off bs off' n :
  (off + length bs ≤ length buf)%nat → (off' + 4 * n ≤ off ∨ off + length bs ≤ off')%nat →
  words (splice buf off bs) off' n = words buf off' n.
Proof.
  intros Hl Hd. apply list_fmap_ext. intros i x Hi%lookup_seq. rewrite u32_splice_disjoint; [done|done|lia].
Qed.

Lemma words_put_words ws off buf :
  (off + 4 * length ws ≤ length buf)%nat → Forall u32 ws →
  words (put_words ws off buf) off (length ws) = ws.
Proof.
  intros Hl Hw. destruct (put_words_spec ws off buf Hl Hw) as (_ & H & _). apply list_eq. intros i.
  unfold words. rewrite list_lookup_fmap. destruct (ws !! i) as [w|] eqn:E.
  - pose proof (lookup_lt_Some _ _ _ E). rewrite lookup_seq_lt by done. simpl. f_equal. by apply H.
  - apply lookup_ge_None in E. by rewrite lookup_seq_ge.
Qed.

Lemma byte_at_splice_disjoint buf off bs i :
  (off + length bs ≤ length buf)%nat → (i < off)%nat → byte_at (splice buf off bs) i = byte_at buf i.
Proof. intros. unfold byte_at. rewrite lookup_splice by done. case_decide; [lia|done]. Qed.

(** Lengths of chains of writes, and reading through the writes made elsewhere. *)
Ltac inode_len :=
  rewrite ?length_words_bytes, ?length_le_bytes;
  lazymatch goal with
  | |- context [length (splice ?b ?o ?bs)] => rewrite (length_splice b o bs) by inode_len; inode_len
  | _ => simpl; lia
  end.
Ltac inode_read :=
  repeat first
    [ rewrite u32_splice_disjoint by inode_len | rewrite words_splice_disjoint by inode_len
    | rewrite slice_splice_ne by inode_len | rewrite byte_at_splice_disjoint by inode_len ].

Section raw_inode.
Context (buf : list Z) (n : raw_inode).
Hypothesis buf_len : length buf = INODE_SIZE.
Hypothesis n_wf : inode_wf n.

Lemma raw_inode_splices :
  raw_inode_write buf n =
  splice (splice (splice (splice (splice (splice (splice (splice (splice buf
    0 [itype n]) 1 (i_pad n)) 4 (le_bytes 4 (i_size n))) 8 (le_bytes 4 (nlink n)))
    12 (le_bytes 4 (used_blocks n))) 16 (words_bytes (direct n))) 64 (le_bytes 4 (indirect n)))
    68 (le_bytes 4 (double_indirect n))) 72 (words_bytes (i_reserved n)).
Proof.
  destruct n_wf as [H1 H2 H3 [H4 _] [H5 _]]. unfold INODE_SIZE in buf_len. unfold raw_inode_write.
  rewrite (put_words_splice (direct n)) by inode_len. by rewrite put_words_splice by inode_len.
Qed.

Lemma length_raw_inode_write : length (raw_inode_write buf n) = INODE_SIZE.
Proof.
  rewrite raw_inode_splices. destruct n_wf as [H1 H2 H3 [H4 _] [H5 _]].
  unfold INODE_SIZE in *. inode_len.
Qed.

Lemma raw_inode_roundtrip : raw_inode_read (raw_inode_write buf n) = n.
Proof.
  rewrite raw_inode_splices.
  destruct n_wf as [H1 H2 (H31 & H32 & H33 & H34 & H35) [H41 H42] [H51 H52]].
  unfold INODE_SIZE in buf_len. unfold raw_inode_read.
  destruct n as [ty pad sz nl ub dir ind dbl res]. cbn [itype i_pad i_size nlink used_blocks direct
    indirect double_indirect i_reserved] in *. f_equal.
  - inode_read. rewrite <-H2. apply slice_splice_eq. inode_len.
  - inode_read. apply u32_splice_eq; [inode_len|done].
  - inode_read. apply u32_splice_eq; [inode_len|done].
  - inode_read. apply u32_splice_eq; [inode_len|done].
  - inode_read. rewrite <-put_words_splice by inode_len. rewrite <-H41.
    apply words_put_words; [inode_len|done].
  - inode_read. apply u32_splice_eq; [inode_len|done].
  - inode_read. apply u32_splice_eq; [inode_len|done].
  - rewrite <-put_words_splice by inode_len. rewrite <-H51. apply words_put_words; [inode_len|done].
Qed.
End raw_inode.

(** ** The inode table and the cache *)

Definition inode_num (ino : Z) : Prop := 0 ≤ ino < MAX_INODES.

Definition disk_inode (s : ofs) (ino : Z) : raw_inode :=
  raw_inode_read (slice (view s (inode_blk ino)) (inode_off ino) INODE_SIZE).

(** The inode an operation reading [ino] gets. *)
Definition current (s : ofs) (ino : Z) : raw_inode :=
  default (disk_inode s ino) (cache_get (cache s) ino).

Lemma inode_blk_bounds ino : inode_num ino → INODE_TABLE_START ≤ inode_blk ino < JOURNAL_HDR_BLK.
Proof.
  unfold inode_num, MAX_INODES, inode_blk, INODE_TABLE_START, INODES_PER_BLOCK, JOURNAL_HDR_BLK.
  intros H. assert (0 ≤ ino / 32 < 32); [|lia].
  split; [apply Z.div_pos; lia|apply Z.div_lt_upper_bound; lia].
Qed.

Lemma inode_blk_ok ino : inode_num ino → 0 < inode_blk ino < 2 ^ 32 ∧ data_blk (inode_blk ino).
Proof.
  intros H%inode_blk_bounds. unfold data_blk, INODE_TABLE_START, JOURNAL_HDR_BLK, DATA_START in *. lia.
Qed.

Lemma inode_off_bound ino : (inode_off ino + INODE_SIZE ≤ BLOCK_SIZE)%nat.
Proof.
  unfold inode_off, INODE_SIZE, INODES_PER_BLOCK. pose proof block_size_eq.
  pose proof (Z.mod_pos_bound ino 32). lia.
Qed.

(** Two inodes of one table block are in disjoint slots of it. *)
Lemma inode_slots_disjoint ino ino' :
  inode_num ino → inode_num ino' → ino ≠ ino' → inode_blk ino = inode_blk ino' →
  (inode_off ino' + INODE_SIZE ≤ inode_off ino ∨ inode_off ino + INODE_SIZE ≤ inode_off ino')%nat.
Proof.
  unfold inode_num, inode_blk, inode_off, INODE_SIZE, INODES_PER_BLOCK. intros H1 H2 Hne Hb.
  assert (ino mod 32 ≠ ino' mod 32) as Hm.
  { intros Hm. apply Hne. rewrite (Z.div_mod ino 32), (Z.div_mod ino' 32) by lia. lia. }
  pose proof (Z.mod_pos_bound ino 32 ltac:(lia)). pose proof (Z.mod_pos_bound ino' 32 ltac:(lia)). lia.
Qed.

Lemma cache_get_invalidate ino ino' c :
  cache_get (cache_invalidate ino c) ino' = if decide (ino' = ino) then None else cache_get c ino'.
Proof.
  unfold cache_get, cache_invalidate. cbn [c_entries].
  induction (c_entries c) as [|[k v] l IH]; cbn [clear_first cache_find]; [by case_decide|].
  destruct (Z.eqb_spec k ino) as [->|Hk]; cbn [cache_find].
  - destruct (Z.eqb_spec ino ino') as [->|Hne]; [by rewrite decide_True|]. by rewrite decide_False by done.
  - destruct (Z.eqb_spec k ino') as [->|Hne]; [by rewrite decide_False by congruence|done].
Qed.

(** Caching an inode that had no cached value leaves the others' first entries, or
    exposes what was behind the entry it replaces. *)
Lemma cache_get_insert ino n c :
  cache_get c ino = None →
  cache_get (cache_insert ino n c) ino = Some n ∨ cache_get (cache_insert ino n c) ino = None.
Proof.
  unfold cache_get, cache_insert. cbn [c_entries]. generalize (Z.to_nat (c_generation c mod Z.of_nat INODE_CACHE_SIZE)).
  induction (c_entries c) as [|[k v] l IH]; intros i; [by right|]. cbn [cache_find].
  destruct i as [|i]; cbn [insert list_insert cache_find].
  - rewrite Z.eqb_refl. by left.
  - destruct (Z.eqb_spec k ino); [by intros ->; right|]. apply IH.
Qed.

Section inode_access.
Context (s : ofs) (ino : Z).
Hypothesis s_ok : fs_ok s.
Hypothesis ino_ok : inode_num ino.

Lemma read_inode_spec :
  ∃ s', read_inode ino s = (Ok (Some (current s ino)), s') ∧ fs_ok s' ∧ view s' = view s ∧
    total_blocks s' = total_blocks s ∧ current s' ino = current s ino.
Proof.
  unfold read_inode, inode_num in *. destruct (Z.leb_spec MAX_INODES ino); [lia|].
  rewrite (bind_ok _ _ s (cache s) s) by done. unfold current.
  destruct (cache_get (cache s) ino) as [n|] eqn:E; cbn [default from_option].
  - exists s. split_and!; try done. by rewrite E.
  - rewrite (bind_ok _ _ _ _ _ (rd_ok s _ (ok_healthy s s_ok))). eexists. split; [reflexivity|].
    rewrite (cache_touch s). split_and!.
    + by apply fs_ok_cache, fs_ok_touch.
    + by autorewrite with ofs.
    + unfold set_cache. cbn [total_blocks]. by autorewrite with ofs.
    + unfold disk_inode. rewrite view_set_cache, view_touch. unfold set_cache at 1. cbn [cache].
      by destruct (cache_get_insert ino (raw_inode_read (slice (view s (inode_blk ino))
        (inode_off ino) INODE_SIZE)) (cache s) E) as [-> | ->].
Qed.

Lemma write_inode_spec n :
  inode_wf n →
  ∃ s', write_inode ino n s = (Ok true, s') ∧ fs_ok s' ∧ total_blocks s' = total_blocks s ∧
    cache s' = cache_invalidate ino (cache s) ∧ disk_inode s' ino = n ∧
    (∀ ino', inode_num ino' → ino' ≠ ino → disk_inode s' ino' = disk_inode s ino') ∧
    (∀ b, b ≠ inode_blk ino → view s' b = view s b).
Proof.
  intros Hn. unfold write_inode. pose proof ino_ok as Hino. unfold inode_num in Hino.
  destruct (Z.leb_spec MAX_INODES ino); [lia|].
  rewrite (bind_ok _ _ s tt (set_cache (cache_invalidate ino (cache s)) s)) by done.
  set (s1 := set_cache _ s). assert (fs_ok s1) as Hok1 by by apply fs_ok_cache.
  rewrite (bind_ok _ _ _ _ _ (rd_ok s1 _ (ok_healthy s1 Hok1))).
  change (view s1) with (view s).
  destruct (inode_blk_ok ino ino_ok) as [Hb1 Hb2]. pose proof (inode_off_bound ino) as Hoff.
  pose proof (ok_blocks s s_ok _ Hb2) as Hlen.
  set (old := slice (view s (inode_blk ino)) (inode_off ino) INODE_SIZE).
  assert (length old = INODE_SIZE) as Hold by (apply length_slice; lia).
  pose proof (length_raw_inode_write old n Hold Hn) as Hnew.
  eexists. split; [reflexivity|]. set (buf := splice _ _ _).
  assert (length buf = BLOCK_SIZE) as Hbuf by (unfold buf; rewrite length_splice; lia).
  split_and!.
  - apply fs_ok_write; [by apply fs_ok_touch|done..].
  - unfold write_blk. cbn [total_blocks set_pending]. by autorewrite with ofs.
  - unfold write_blk. cbn [cache set_pending]. by autorewrite with ofs.
  - unfold disk_inode. rewrite view_write, decide_True by done. unfold buf.
    pose proof (slice_splice_eq (view s (inode_blk ino)) (inode_off ino) (raw_inode_write old n)) as Hs.
    rewrite Hnew in Hs. rewrite Hs by lia. by apply raw_inode_roundtrip.
  - intros ino' Hino' Hne. unfold disk_inode. rewrite view_write. case_decide as Hd; [|by autorewrite with ofs].
    rewrite Hd. unfold buf. rewrite slice_splice_ne; [done|lia|]. rewrite Hnew.
    by apply inode_slots_disjoint.
  - intros b Hb. rewrite view_write, decide_False by done. by autorewrite with ofs.
Qed.
End inode_access.

(** An inode reads back as it was written, whatever the state of the cache, and
    writing it leaves every other inode on the disk and every other block alone. *)
Theorem inode_write_read s ino n :
  fs_ok s → inode_num ino → inode_wf n →
  ∃ s1 s2, write_inode ino n s = (Ok true, s1) ∧ read_inode ino s1 = (Ok (Some n), s2) ∧
    (∀ ino', inode_num ino' → ino' ≠ ino → disk_inode s1 ino' = disk_inode s ino') ∧
    (∀ b, b ≠ inode_blk ino → view s1 b = view s b).
Proof.
  intros Hok Hino Hn.
  destruct (write_inode_spec s ino Hok Hino n Hn) as (s1 & E1 & Hok1 & _ & Hc & Hd & Ho & Hv).
  destruct (read_inode_spec s1 ino Hok1 Hino) as (s2 & E2 & _). exists s1, s2. split_and!; try done.
  rewrite E2. unfold current. by rewrite Hc, cache_get_invalidate, decide_True, Hd by done.
Qed.

(** *** A stale inode *)

Definition demo_inode (k : Z) : raw_inode := mkInode 1 [0; 0; 0] k 1 0 (replicate 12 0) 0 0 (replicate 14 0).

Definition stale_prog : M ofs (option raw_inode) :=
  _ ← read_inode 5;
  _ ← write_inode 5 (demo_inode 1);
  _ ← read_inode 5;
  _ ← write_inode 5 (demo_inode 2);
  _ ← for_each (seq 6 31) (λ i, _ ← read_inode (Z.of_nat i); mret tt);
  read_inode 5.

Definition blank_fs : ofs := mkOfs (mkDev ∅ 0 (λ _, false)) 2048 ∅ cache_new.

(** The inode cache can serve a stale inode.  It may hold several entries for an
    inode and invalidates only the first: after an inode is read and written twice
    and enough others are read, reading it gives the first value written although
    the second is in the inode table. *)
Theorem inode_cache_stale :
  ∃ s, stale_prog blank_fs = (Ok (Some (demo_inode 1)), s) ∧ disk_inode s 5 = demo_inode 2.
Proof. eexists. split; vm_compute; reflexivity. Qed.

(** *** Witnesses *)

Lemma blank_fs_ok : fs_ok blank_fs.
Proof.
  split.
  - intros i. reflexivity.
  - apply map_Forall_empty.
  - vm_compute. reflexivity.
  - intros b _. apply length_zero_block.
Qed.

Lemma demo_inode_wf k : u32 k → inode_wf (demo_inode k).
Proof.
  intros Hk. split; cbn.
  - unfold is_byte. lia.
  - reflexivity.
  - unfold u32 in *. lia.
  - split; [reflexivity|]. apply (Forall_replicate u32 12 0). unfold u32. lia.
  - split; [reflexivity|]. apply (Forall_replicate u32 14 0). unfold u32. lia.
Qed.

Lemma alloc_block_spec_witness :
  ∃ s', alloc_block blank_fs = (Ok (Some 68), s') ∧ block_used s' 68.
Proof.
  destruct (alloc_block_spec blank_fs blank_fs_ok) as (r & s' & E & H).
  - unfold disk_fits. cbn. lia.
  - assert ((alloc_block blank_fs).1 = Ok (Some 68)) as E1 by (vm_compute; reflexivity).
    rewrite E in E1. cbn [fst] in E1. injection E1 as ->. exists s'. split; [exact E|].
    destruct H as (_ & _ & _ & H & _). exact H.
Defined.

Lemma inode_write_read_witness :
  ∃ s1 s2, write_inode 5 (demo_inode 7) blank_fs = (Ok true, s1) ∧
    read_inode 5 s1 = (Ok (Some (demo_inode 7)), s2).
Proof.
  destruct (inode_write_read blank_fs 5 (demo_inode 7) blank_fs_ok) as (s1 & s2 & H1 & H2 & _).
  - unfold inode_num, MAX_INODES. lia.
  - apply demo_inode_wf. unfold u32. lia.
  - exists s1, s2. split; [exact H1|exact H2].
Defined.
