(* ===== verification/OfsFile.v ===== *)
(** * Files of the block file system: theorems

    A file is a tree of blocks: the pointers of its inode, the entries of its
    indirect blocks, and the data blocks at the leaves.  [at_pos] reads that tree as a
    partial map from positions to block numbers; a well-formed file's map is
    injective into the used blocks of the data area.  The operations extend the map
    one fresh block at a time, which is what makes a file read back as it was
    written. *)

From Stdlib Require Import ZArith Lia.
From stdpp Require Import prelude gmap strings.
From S2P Require Import Prelude Journal Ofs OfsInode.

Local Open Scope Z_scope.

(** ** Positions in the block tree *)

Inductive fpos : Type :=
  | PDirect (i : nat)
  | PInd
  | PIndE (i : nat)
  | PDbl
  | PDblE (o : nat)
  | PDblEE (o i : nat).

#[global] Instance fpos_eq_dec : EqDecision fpos.
Proof. solve_decision. Defined.

Definition nptrs : nat := Z.to_nat NPTRS.

Lemma nptrs_eq : Z.of_nat nptrs = 1024.
Proof. reflexivity. Qed.

Definition pos_ok (p : fpos) : Prop :=
  match p with
  | PDirect i => (i < 12)%nat
  | PInd | PDbl => True
  | PIndE i | PDblE i => (i < nptrs)%nat
  | PDblEE o i => (o < nptrs)%nat ∧ (i < nptrs)%nat
  end.

(** The position of the block that holds the pointer, and the entry in it. *)
Definition parent (p : fpos) : option (fpos * nat) :=
  match p with
  | PDirect _ | PInd | PDbl => None
  | PIndE i => Some (PInd, i)
  | PDblE o => Some (PDbl, o)
  | PDblEE o i => Some (PDblE o, i)
  end.

(** Leaves are data blocks, the other positions indirect blocks. *)
Definition leafp (p : fpos) : bool :=
  match p with PDirect _ | PIndE _ | PDblEE _ _ => true | PInd | PDbl | PDblE _ => false end.

Definition leaf (idx : Z) : option fpos :=
  if idx <? 12 then Some (PDirect (Z.to_nat idx))
  else if idx - 12 <? NPTRS then Some (PIndE (Z.to_nat (idx - 12)))
  else
    let k := idx - 12 - NPTRS in
    if NPTRS <=? k / NPTRS then None else Some (PDblEE (Z.to_nat (k / NPTRS)) (Z.to_nat (k mod NPTRS))).

Definition nz (x : Z) : option Z := if x =? 0 then None else Some x.

Definition entry (v : Z → list Z) (o : option Z) (i : nat) : option Z :=
  ib ← o; nz (u32_le (v ib) (i * 4)).

Definition at_pos (v : Z → list Z) (n : raw_inode) (p : fpos) : option Z :=
  match p with
  | PDirect i => nz (default 0 (direct n !! i))
  | PInd => nz (indirect n)
  | PIndE i => entry v (nz (indirect n)) i
  | PDbl => nz (double_indirect n)
  | PDblE o => entry v (nz (double_indirect n)) o
  | PDblEE o i => entry v (entry v (nz (double_indirect n)) o) i
  end.

Lemma at_child v n p p0 i : parent p = Some (p0, i) → at_pos v n p = entry v (at_pos v n p0) i.
Proof. destruct p; intros [= <- <-]; done. Qed.

Lemma parent_inj p q p0 i : parent p = Some (p0, i) → parent q = Some (p0, i) → p = q.
Proof. destruct p, q; simpl; intros; simplify_eq; done. Qed.

Lemma parent_ok p p0 i : pos_ok p → parent p = Some (p0, i) → pos_ok p0 ∧ (i < nptrs)%nat ∧ leafp p0 = false.
Proof. destruct p; simpl; intros ? [= <- <-]; naive_solver. Qed.

Lemma leaf_ok idx p : 0 ≤ idx → leaf idx = Some p → pos_ok p ∧ leafp p = true.
Proof.
  unfold leaf. intros Hi. pose proof nptrs_eq as HN. unfold NPTRS.
  destruct (Z.ltb_spec idx 12); [intros [= <-]; simpl; split; [lia|done]|].
  destruct (Z.ltb_spec (idx - 12) 1024); [intros [= <-]; simpl; split; [lia|done]|].
  destruct (Z.leb_spec 1024 ((idx - 12 - 1024) / 1024)); [done|]. intros [= <-]. simpl.
  pose proof (Z.mod_pos_bound (idx - 12 - 1024) 1024 ltac:(lia)).
  pose proof (Z.div_pos (idx - 12 - 1024) 1024 ltac:(lia) ltac:(lia)). split; [lia|done].
Qed.

Lemma leaf_inj i j p : 0 ≤ i → 0 ≤ j → leaf i = Some p → leaf j = Some p → i = j.
Proof.
  unfold leaf, NPTRS. intros Hi Hj.
  pose proof (Z.div_mod (i - 12 - 1024) 1024 ltac:(lia)). pose proof (Z.div_mod (j - 12 - 1024) 1024 ltac:(lia)).
  pose proof (Z.mod_pos_bound (i - 12 - 1024) 1024 ltac:(lia)).
  pose proof (Z.mod_pos_bound (j - 12 - 1024) 1024 ltac:(lia)).
  destruct (Z.ltb_spec i 12), (Z.ltb_spec j 12), (Z.ltb_spec (i - 12) 1024), (Z.ltb_spec (j - 12) 1024),
    (Z.leb_spec 1024 ((i - 12 - 1024) / 1024)), (Z.leb_spec 1024 ((j - 12 - 1024) / 1024));
    intros; simplify_eq; lia.
Qed.

Lemma leaf_defined idx : 0 ≤ idx < 2 ^ 20 → is_Some (leaf idx).
Proof.
  intros H. unfold leaf, NPTRS. destruct (_ <? _); [eauto|]. destruct (_ <? _); [eauto|].
  destruct (Z.leb_spec 1024 ((idx - 12 - 1024) / 1024)) as [Hd|]; [|eauto].
  assert ((idx - 12 - 1024) / 1024 < 1024); [|lia]. apply Z.div_lt_upper_bound; lia.
Qed.

Lemma u32_zero_block k : (k + 4 ≤ BLOCK_SIZE)%nat → u32_le zero_block k = 0.
Proof.
  intros Hk. unfold u32_le, slice, zero_block. rewrite drop_replicate, take_replicate.
  rewrite Nat.min_l by lia. done.
Qed.

(** ** Adding one block to the tree *)

Section extend.
Context (v v' : Z → list Z) (n n' : raw_inode) (p : fpos) (nb : Z).
Hypothesis nb_ok : 0 < nb < 2 ^ 32.
Hypothesis p_none : at_pos v n p = None.
Hypothesis roots : ∀ r, parent r = None → at_pos v' n' r = if decide (r = p) then Some nb else at_pos v n r.
Hypothesis nb_zero : v' nb = zero_block.
Hypothesis meta_in : ∀ p0 i c, parent p = Some (p0, i) → at_pos v n p0 = Some c →
  length (v c) = BLOCK_SIZE ∧ v' c = splice (v c) (i * 4) (le_bytes 4 nb).
Hypothesis meta_out : ∀ q c, pos_ok q → leafp q = false → at_pos v n q = Some c →
  (∀ i, parent p ≠ Some (q, i)) → v' c = v c.
Hypothesis p_parent : ∀ p0 i, parent p = Some (p0, i) → is_Some (at_pos v n p0).
Hypothesis p_ok : pos_ok p.

Lemma nz_nb : nz nb = Some nb.
Proof. unfold nz. by destruct (Z.eqb_spec nb 0); [lia|]. Qed.

Lemma extend_child q q0 j :
  pos_ok q → parent q = Some (q0, j) →
  at_pos v' n' q0 = (if decide (q0 = p) then Some nb else at_pos v n q0) →
  at_pos v' n' q = if decide (q = p) then Some nb else at_pos v n q.
Proof.
  intros Hq Hpar H0. destruct (parent_ok _ _ _ Hq Hpar) as (Hq0 & Hj & Hlf).
  pose proof nptrs_eq as HN. pose proof block_size_eq as HB.
  rewrite (at_child v' n' q q0 j Hpar), H0. destruct (decide (q0 = p)) as [->|Hne].
  - rewrite decide_False; [|by intros ->; destruct p]. rewrite (at_child v n q p j Hpar), p_none.
    unfold entry. simpl. by rewrite nb_zero, u32_zero_block by lia.
  - rewrite (at_child v n q q0 j Hpar). destruct (at_pos v n q0) as [c|] eqn:Ec; simpl.
    2:{ rewrite decide_False; [done|]. intros ->. destruct (p_parent _ _ Hpar). congruence. }
    destruct (parent p) as [[p0 i]|] eqn:Ep.
    2:{ rewrite (meta_out q0 c) by first [done | intros ?; congruence]. rewrite decide_False; [done|]. congruence. }
    destruct (decide (p0 = q0)) as [->|Hne0].
    + destruct (meta_in q0 i c eq_refl Ec) as [Hlen ->].
      destruct (parent_ok _ _ _ p_ok Ep) as (_ & Hi & _).
      destruct (decide (i = j)) as [->|Hij].
      * rewrite decide_True by by eapply parent_inj. rewrite u32_splice_eq by lia. apply nz_nb.
      * rewrite decide_False by congruence. by rewrite u32_splice_ne by lia.
    + rewrite (meta_out q0 c) by first [done | intros ?; congruence]. rewrite decide_False by congruence. done.
Qed.

Lemma extend_at q : pos_ok q → at_pos v' n' q = if decide (q = p) then Some nb else at_pos v n q.
Proof.
  intros Hq. destruct (parent q) as [[q0 j]|] eqn:E; [|by apply roots].
  eapply extend_child; [done..|]. destruct (parent_ok _ _ _ Hq E) as (Hq0 & _ & _).
  destruct (parent q0) as [[q1 k]|] eqn:E0; [|by apply roots].
  eapply extend_child; [done..|]. apply roots. by destruct q; simplify_eq/=.
Qed.
End extend.

(** ** Well-formed files and their growth *)

Record file_ok (s : ofs) (n : raw_inode) : Prop := {
  fo_inode : inode_wf n;
  fo_used : ∀ p b, pos_ok p → at_pos (view s) n p = Some b →
    DATA_START ≤ b < total_blocks s ∧ block_used s b;
  fo_inj : ∀ p q b, pos_ok p → pos_ok q → at_pos (view s) n p = Some b →
    at_pos (view s) n q = Some b → p = q;
}.

(** The indirect blocks of a file. *)
Definition meta (s : ofs) (n : raw_inode) (c : Z) : Prop :=
  ∃ p, pos_ok p ∧ leafp p = false ∧ at_pos (view s) n p = Some c.

(** A file grew: its blocks stay where they are, the new ones were free and the new
    data blocks are zeroed, and no used block but the file's indirect ones changed. *)
Record grow (s : ofs) (n : raw_inode) (s' : ofs) (n' : raw_inode) : Prop := {
  gr_keep : ∀ p b, pos_ok p → at_pos (view s) n p = Some b → at_pos (view s') n' p = Some b;
  gr_new : ∀ p b, pos_ok p → at_pos (view s') n' p = Some b →
    at_pos (view s) n p = Some b ∨ (at_pos (view s) n p = None ∧ ¬ block_used s b);
  gr_zero : ∀ p b, pos_ok p → leafp p = true → at_pos (view s') n' p = Some b →
    at_pos (view s) n p = None → view s' b = zero_block;
  gr_used : ∀ c, 0 ≤ c → block_used s c → block_used s' c;
  gr_frame : ∀ c, DATA_START ≤ c → block_used s c → ¬ meta s n c → view s' c = view s c;
  gr_total : total_blocks s' = total_blocks s;
  gr_size : i_size n' = i_size n ∧ itype n' = itype n;
}.

Lemma grow_refl s s' n :
  view s' = view s → total_blocks s' = total_blocks s → grow s n s' n.
Proof.
  intros Hv Ht. unfold block_used in *. split; rewrite ?Hv; try done; unfold block_used; rewrite ?Hv; try done.
  - intros p b _ H. by left.
  - intros p b _ _ H1 H2. congruence.
Qed.

Lemma file_ok_same s s' n :
  view s' = view s → total_blocks s' = total_blocks s → file_ok s n → file_ok s' n.
Proof. intros Hv Ht [H1 H2 H3]. unfold block_used in *. split; rewrite ?Hv, ?Ht; try done. unfold block_used. by rewrite Hv. Qed.

Lemma leaf_not_meta s n p b :
  file_ok s n → pos_ok p → leafp p = true → at_pos (view s) n p = Some b → ¬ meta s n b.
Proof.
  intros Hf Hp Hl Hb (q & Hq & Hlq & Hqb). assert (p = q) as -> by by eapply (fo_inj s n Hf). congruence.
Qed.

Lemma grow_meta s n s' n' c : grow s n s' n' → block_used s c → meta s' n' c → meta s n c.
Proof.
  intros Hg Hu (p & Hp & Hl & Hc). exists p. split_and!; try done.
  by destruct (gr_new _ _ _ _ Hg p c Hp Hc) as [?|[_ ?]].
Qed.

Lemma grow_trans s n s1 n1 s2 n2 :
  file_ok s n → file_ok s1 n1 → grow s n s1 n1 → grow s1 n1 s2 n2 → grow s n s2 n2.
Proof.
  intros F F1 G1 G2. pose proof (λ p b Hp Hb, proj1 (fo_used s1 n1 F1 p b Hp Hb)) as R1.
  split.
  - intros p b Hp Hb. by apply (gr_keep _ _ _ _ G2), (gr_keep _ _ _ _ G1).
  - intros p b Hp Hb. destruct (gr_new _ _ _ _ G2 p b Hp Hb) as [Hb1|[Hn Hu]].
    + by apply (gr_new _ _ _ _ G1).
    + right. destruct (at_pos (view s) n p) as [b'|] eqn:E.
      { apply (gr_keep _ _ _ _ G1) in E; [congruence|done]. }
      split; [done|]. intros Hu'. apply Hu, (gr_used _ _ _ _ G1); [|done].
      destruct (decide (0 ≤ b)); [done|]. unfold block_used in *.
      exfalso. apply Hu. replace (Z.to_nat b) with (Z.to_nat 0) in * by lia.
      by apply (gr_used _ _ _ _ G1 0).
  - intros p b Hp Hl Hb Hn. destruct (at_pos (view s1) n1 p) as [b1|] eqn:E.
    + assert (b1 = b) as ->. { apply (gr_keep _ _ _ _ G2) in E; [congruence|done]. }
      rewrite (gr_frame _ _ _ _ G2).
      * by apply (gr_zero _ _ _ _ G1 p).
      * specialize (R1 p b Hp E). lia.
      * by eapply (fo_used s1 n1 F1).
      * by eapply leaf_not_meta.
    + by apply (gr_zero _ _ _ _ G2 p).
  - intros c Hc Hu. by apply (gr_used _ _ _ _ G2), (gr_used _ _ _ _ G1).
  - intros c Hc Hu Hm. assert (0 ≤ c) by (unfold DATA_START in Hc; lia).
    rewrite (gr_frame _ _ _ _ G2).
    + by apply (gr_frame _ _ _ _ G1).
    + done.
    + by apply (gr_used _ _ _ _ G1).
    + intros Hm1. apply Hm. by eapply grow_meta.
  - by rewrite (gr_total _ _ _ _ G2), (gr_total _ _ _ _ G1).
  - destruct (gr_size _ _ _ _ G1), (gr_size _ _ _ _ G2). split; congruence.
Qed.

(** What allocating and zeroing a block does. *)
Lemma alloc_zeroed_spec s :
  fs_ok s → disk_fits s →
  ∃ r s', alloc_zeroed s = (Ok r, s') ∧ fs_ok s' ∧ same_rest s s' ∧
    match r with
    | Some b => DATA_START ≤ b < total_blocks s ∧ ¬ block_used s b ∧ view s' b = zero_block ∧
        (∀ c, c ≠ b → c ≠ BLOCK_BITMAP_BLK → view s' c = view s c) ∧
        (∀ c, 0 ≤ c → block_used s' c ↔ c = b ∨ block_used s c)
    | None => view s' = view s
    end.
Proof.
  intros Hok Hfit. destruct (alloc_block_effect s Hok Hfit) as (r & s1 & E & Hok1 & [Hc Ht] & Hr).
  unfold alloc_zeroed. rewrite (bind_ok _ _ _ _ _ E). destruct r as [b|].
  - destruct Hr as (Hb & Hu & _ & Hv & Hbit). eexists (Some b), _. split; [reflexivity|].
    unfold disk_fits, DATA_START, BLOCK_BITMAP_BLK in *. split_and!.
    + apply fs_ok_write; [done|lia| |apply length_zero_block].
      unfold data_blk, JOURNAL_HDR_BLK, DATA_START. lia.
    + done.
    + lia.
    + lia.
    + done.
    + by rewrite view_write, decide_True.
    + intros c H1 H2. rewrite view_write, decide_False by done. by apply Hv.
    + intros c Hc0. unfold block_used, BLOCK_BITMAP_BLK in *. rewrite view_write, decide_False by lia.
      rewrite Hbit. case_decide as Hd.
      * assert (c = b) as -> by lia. tauto.
      * split; [by right|]. intros [->|?]; done.
  - destruct Hr as [_ Hv]. eexists None, _. split; [reflexivity|]. split_and!; done.
Qed.

Section alloc_extends.
Context (s s' : ofs) (n n' : raw_inode) (p : fpos) (b : Z).
Hypothesis f_ok : file_ok s n.
Hypothesis fits : disk_fits s.
Hypothesis p_ok : pos_ok p.
Hypothesis p_none : at_pos (view s) n p = None.
Hypothesis p_parent : ∀ p0 i, parent p = Some (p0, i) → is_Some (at_pos (view s) n p0).
Hypothesis b_range : DATA_START ≤ b < total_blocks s.
Hypothesis b_free : ¬ block_used s b.
Hypothesis n_wf : inode_wf n'.
Hypothesis n_same : i_size n' = i_size n ∧ itype n' = itype n.
Hypothesis total_same : total_blocks s' = total_blocks s.
Hypothesis roots : ∀ r, parent r = None →
  at_pos (view s') n' r = if decide (r = p) then Some b else at_pos (view s) n r.
Hypothesis b_zero : view s' b = zero_block.
Hypothesis in_parent : ∀ p0 i c, parent p = Some (p0, i) → at_pos (view s) n p0 = Some c →
  length (view s c) = BLOCK_SIZE ∧ view s' c = splice (view s c) (i * 4) (le_bytes 4 b).
Hypothesis elsewhere : ∀ c, DATA_START ≤ c → c ≠ b →
  (∀ p0 i, parent p = Some (p0, i) → at_pos (view s) n p0 ≠ Some c) → view s' c = view s c.
Hypothesis used_after : ∀ c, 0 ≤ c → block_used s' c ↔ c = b ∨ block_used s c.

Lemma alloc_at q : pos_ok q →
  at_pos (view s') n' q = if decide (q = p) then Some b else at_pos (view s) n q.
Proof.
  intros Hq. unfold disk_fits, DATA_START in *. apply extend_at; try done; [lia|].
  intros r c Hr Hl Hc Hpar. destruct (fo_used s n f_ok r c Hr Hc) as [Hc1 Hc2].
  apply elsewhere.
  - unfold DATA_START. apply Hc1.
  - by intros ->.
  - intros p0 i Hp0 Hc0. assert (r = p0) as ->; [|by apply (Hpar i)].
    eapply (fo_inj s n f_ok); [done| |done|done]. by destruct (parent_ok _ _ _ p_ok Hp0).
Qed.

Lemma alloc_file_ok : file_ok s' n'.
Proof.
  split; [done|..].
  - intros q c Hq. rewrite alloc_at, total_same by done. unfold DATA_START in *. case_decide.
    + intros [= <-]. split; [lia|]. apply used_after; [lia|by left].
    + intros Hc. destruct (fo_used s n f_ok q c Hq Hc) as [H1 H2]. split; [done|].
      apply used_after; [unfold DATA_START in H1; lia|by right].
  - intros q r c Hq Hr. rewrite !alloc_at by done. repeat case_decide; subst; try done.
    + intros [= <-] Hr'. by destruct (fo_used s n f_ok r b Hr Hr').
    + intros Hq' [= <-]. by destruct (fo_used s n f_ok q b Hq Hq').
    + by apply (fo_inj s n f_ok).
Qed.

Lemma alloc_grow : grow s n s' n'.
Proof.
  split; try done.
  - intros q c Hq Hc. rewrite alloc_at by done. case_decide; [congruence|done].
  - intros q c Hq. rewrite alloc_at by done. case_decide; [|by left].
    intros [= <-]. right. by subst.
  - intros q c Hq Hl. rewrite alloc_at by done. case_decide; [by intros [= <-]|congruence].
  - intros c Hc Hu. apply used_after; [done|by right].
  - intros c Hc Hu Hm. apply elsewhere; [done|by intros ->|]. intros p0 i Hp0 Hc0. apply Hm.
    exists p0. destruct (parent_ok _ _ _ p_ok Hp0) as (? & _ & ?). done.
Qed.
End alloc_extends.

(** The inode an operation sees, before and after. *)
Definition tracks (s : ofs) (n : raw_inode) (s' : ofs) (n' : raw_inode) (ino : Z) : Prop :=
  current s ino = n → current s' ino = n'.

(** The outcome of resolving position [p] with allocation. *)
Definition resolved (s : ofs) (n : raw_inode) (p : fpos) (ino : Z) (r : option Z) (n' : raw_inode)
    (s' : ofs) : Prop :=
  fs_ok s' ∧ file_ok s' n' ∧ grow s n s' n' ∧ tracks s n s' n' ino ∧
  ∀ b, r = Some b → at_pos (view s') n' p = Some b.

Lemma resolved_same s n p ino s' r :
  fs_ok s' → file_ok s n → view s' = view s → same_rest s s' →
  (∀ b, r = Some b → at_pos (view s) n p = Some b) → resolved s n p ino r n s'.
Proof.
  intros Hok Hf Hv [Hc Ht] Hr. split_and!; [done|by eapply file_ok_same|by apply grow_refl| |by rewrite Hv].
  unfold tracks, current, disk_inode. by rewrite Hc, Hv.
Qed.

Lemma current_written s ino n : cache_get (cache s) ino = None → disk_inode s ino = n → current s ino = n.
Proof. intros H1 H2. unfold current. by rewrite H1. Qed.

Lemma data_not_table c ino : inode_num ino → DATA_START ≤ c → c ≠ inode_blk ino ∧ c ≠ BLOCK_BITMAP_BLK.
Proof.
  intros H%inode_blk_bounds Hc. unfold JOURNAL_HDR_BLK, DATA_START, BLOCK_BITMAP_BLK in *. lia.
Qed.

Lemma add_used_wf n : inode_wf n → inode_wf (add_used n).
Proof.
  intros [H1 H2 (H31 & H32 & H33 & H34 & H35) H4 H5]. split; try done. cbn. split_and!; try done;
    unfold wrap; apply Z.mod_pos_bound; lia.
Qed.

(** Recording an allocation in the inode table ends the step: [s1] is the state with
    the new block [b] in place, before the inode is written. *)
Lemma finish_alloc s s1 n n' p b ino :
  fs_ok s1 → inode_num ino → file_ok s n → disk_fits s → pos_ok p → at_pos (view s) n p = None →
  (∀ p0 i, parent p = Some (p0, i) → is_Some (at_pos (view s) n p0)) →
  DATA_START ≤ b < total_blocks s → ¬ block_used s b → inode_wf n' →
  i_size n' = i_size n ∧ itype n' = itype n → total_blocks s1 = total_blocks s →
  (∀ v r, parent r = None → at_pos v n' r = if decide (r = p) then Some b else at_pos v n r) →
  view s1 b = zero_block →
  (∀ p0 i c, parent p = Some (p0, i) → at_pos (view s) n p0 = Some c →
    length (view s c) = BLOCK_SIZE ∧ view s1 c = splice (view s c) (i * 4) (le_bytes 4 b)) →
  (∀ c, DATA_START ≤ c → c ≠ b → (∀ p0 i, parent p = Some (p0, i) → at_pos (view s) n p0 ≠ Some c) →
    view s1 c = view s c) →
  (∀ c, 0 ≤ c → block_used s1 c ↔ c = b ∨ block_used s c) →
  ∃ s2, write_inode ino n' s1 = (Ok true, s2) ∧ resolved s n p ino (Some b) n' s2.
Proof.
  intros Hok1 Hino Hf Hfit Hp Hnone Hpar Hb Hfree Hwf Hsize Ht1 Hroots Hz Hin Helse Hu.
  destruct (write_inode_spec s1 ino Hok1 Hino n' Hwf) as (s2 & E2 & Hok2 & Ht2 & Hc2 & Hd2 & _ & Hv2).
  exists s2. split; [done|].
  assert (∀ c, DATA_START ≤ c → view s2 c = view s1 c) as Hv.
  { intros c Hc. apply Hv2. by apply data_not_table. }
  assert (∀ c, 0 ≤ c → block_used s2 c ↔ c = b ∨ block_used s c) as Hu2.
  { intros c Hc. rewrite <-Hu by done. unfold block_used. rewrite Hv2; [done|].
    pose proof (inode_blk_bounds ino Hino). unfold BLOCK_BITMAP_BLK, INODE_TABLE_START in *. lia. }
  assert (total_blocks s2 = total_blocks s) as Ht by by rewrite Ht2.
  assert (∀ r, parent r = None →
    at_pos (view s2) n' r = if decide (r = p) then Some b else at_pos (view s) n r) as Hroots2.
  { intros r Hr. rewrite Hroots by done. case_decide; [done|]. by destruct r. }
  assert (view s2 b = zero_block) as Hz2 by (rewrite Hv; [done|lia]).
  assert (∀ p0 i c, parent p = Some (p0, i) → at_pos (view s) n p0 = Some c →
    length (view s c) = BLOCK_SIZE ∧ view s2 c = splice (view s c) (i * 4) (le_bytes 4 b)) as Hin2.
  { intros p0 i c Hp0 Hc. destruct (Hin p0 i c Hp0 Hc) as [H1 H2]. split; [done|]. rewrite <-H2.
    apply Hv. destruct (fo_used s n Hf p0 c) as [? _]; [by destruct (parent_ok _ _ _ Hp Hp0)|done|lia]. }
  assert (∀ c, DATA_START ≤ c → c ≠ b →
    (∀ p0 i, parent p = Some (p0, i) → at_pos (view s) n p0 ≠ Some c) → view s2 c = view s c) as Helse2.
  { intros c Hc Hcb Hcp. rewrite Hv by done. by apply Helse. }
  split_and!.
  - done.
  - by apply (alloc_file_ok s s2 n n' p b).
  - by apply (alloc_grow s s2 n n' p b).
  - intros _. apply current_written; [by rewrite Hc2, cache_get_invalidate, decide_True|done].
  - intros b' [= <-]. rewrite (alloc_at s s2 n n' p b) by done. by rewrite decide_True.
Qed.

Lemma block_word b s : disk_fits s → DATA_START ≤ b < total_blocks s → u32 b ∧ nz b = Some b.
Proof. unfold u32, nz, disk_fits, DATA_START. destruct (Z.eqb_spec b 0); [lia|]. intros. split; [lia|done]. Qed.

(** Setting a root pointer of an inode. *)
Lemma root_pointer_spec s n ino p set :
  fs_ok s → disk_fits s → inode_num ino → file_ok s n → parent p = None → pos_ok p →
  (∀ b, u32 b → inode_wf (set b n)) →
  (∀ b v, at_pos v (set b n) p = nz b) →
  (∀ b v r, parent r = None → r ≠ p → at_pos v (set b n) r = at_pos v n r) →
  (∀ b, i_size (set b n) = i_size n ∧ itype (set b n) = itype n) →
  ∀ b0, at_pos (view s) n p = nz b0 →
  ∃ r n' s', root_pointer b0 set ino true n s = (Ok (r, n'), s') ∧ resolved s n p ino r n' s'.
Proof.
  intros Hok Hfit Hino Hf Hpar Hp Hwf Hset Hother Hsize b0 Hb0. unfold root_pointer.
  destruct (Z.eqb_spec b0 0) as [->|Hne]; cbn [negb].
  2:{ eexists _, _, s. split; [reflexivity|]. apply resolved_same; try done.
      intros b [= <-]. rewrite Hb0. unfold nz. by destruct (Z.eqb_spec b0 0). }
  destruct (alloc_zeroed_spec s Hok Hfit) as (r & s1 & E & Hok1 & Hsame & Hr).
  rewrite (bind_ok _ _ _ _ _ E). destruct r as [b|].
  2:{ eexists _, _, s1. split; [reflexivity|]. by apply resolved_same. }
  destruct Hr as (Hb & Hfree & Hz & Hv & Hu). destruct (block_word b s Hfit Hb) as [Hb32 Hnz].
  destruct (finish_alloc s s1 n (add_used (set b n)) p b ino) as (s2 & E2 & Hres);
    try done; try (intros ? ?; congruence).
  - by apply add_used_wf, Hwf.
  - by destruct (Hsize b).
  - by destruct Hsame.
  - intros v r Hr. assert (at_pos v (add_used (set b n)) r = at_pos v (set b n) r) as -> by by destruct r.
    case_decide; [subst; by rewrite Hset, Hnz|by apply Hother].
  - intros c Hc Hcb _. apply Hv; [done|]. by apply (data_not_table c ino).
  - rewrite (bind_ok _ _ _ _ _ E2). by eexists _, _, s2.
Qed.

(** An entry of an indirect block of the file. *)
Lemma indirect_entry_spec s n ino p p0 i ib :
  fs_ok s → disk_fits s → inode_num ino → file_ok s n → parent p = Some (p0, i) → pos_ok p →
  at_pos (view s) n p0 = Some ib →
  ∃ r n' s', indirect_entry ib i ino true n s = (Ok (r, n'), s') ∧ resolved s n p ino r n' s'.
Proof.
  intros Hok Hfit Hino Hf Hpar Hp Hib. unfold indirect_entry.
  rewrite (bind_ok _ _ _ _ _ (rd_ok s ib (ok_healthy s Hok))).
  pose proof (at_child (view s) n p p0 i Hpar) as Hat. rewrite Hib in Hat. cbn in Hat.
  set (s0 := touch ib s). assert (fs_ok s0) as Hok0 by by apply fs_ok_touch.
  assert (view s0 = view s) as Hv0 by apply view_touch.
  assert (same_rest s s0) as Hsame0 by (split; [apply cache_touch|apply total_touch]).
  destruct (Z.eqb_spec (u32_le (view s ib) (i * 4)) 0) as [Hz|Hnz]; cbn [negb].
  2:{ eexists _, _, s0. split; [reflexivity|]. apply resolved_same; try done. intros b [= <-].
      rewrite Hat. unfold nz. by destruct (Z.eqb_spec (u32_le (view s ib) (i * 4)) 0). }
  rewrite Hz in Hat. destruct Hsame0 as [Hc0 Ht0].
  destruct (alloc_zeroed_spec s0 Hok0) as (r & s1 & E & Hok1 & [Hc1 Ht1] & Hr); [by unfold disk_fits; rewrite Ht0|].
  rewrite (bind_ok _ _ _ _ _ E). destruct r as [b|].
  2:{ eexists _, _, s1. split; [reflexivity|]. apply resolved_same; try done; [by rewrite Hr|].
      split; congruence. }
  rewrite Hv0, Ht0 in Hr. unfold block_used in Hr. rewrite Hv0 in Hr.
  destruct Hr as (Hb & Hfree & Hzb & Hv & Hu). destruct (block_word b s Hfit Hb) as [Hb32 Hnz].
  destruct (parent_ok _ _ _ Hp Hpar) as (Hp0 & Hi & _).
  destruct (fo_used s n Hf p0 ib Hp0 Hib) as [Hibr Hibu].
  assert (ib ≠ b) as Hibb by by intros ->.
  assert (data_blk ib ∧ 0 < ib < 2 ^ 32) as [Hdib Hib32].
  { unfold data_blk, disk_fits, DATA_START, JOURNAL_HDR_BLK in *. lia. }
  pose proof (ok_blocks s Hok ib Hdib) as Hlen. pose proof nptrs_eq as HN. pose proof block_size_eq as HB.
  set (buf := splice (view s ib) (i * 4) (le_bytes 4 b)).
  rewrite (bind_ok _ _ s1 tt (write_blk ib buf s1)) by done. set (s2 := write_blk ib buf s1).
  assert (fs_ok s2) as Hok2. { apply fs_ok_write; try done. unfold buf. by rewrite length_splice4 by lia. }
  destruct (finish_alloc s s2 n (add_used n) p b ino) as (s3 & E3 & Hres); try done.
  - intros ? ? [= <- <-]%(eq_trans (eq_sym Hpar)). by rewrite Hib.
  - apply add_used_wf, Hf.
  - by change (total_blocks s1 = total_blocks s); rewrite Ht1.
  - intros v r Hr. rewrite decide_False by congruence. by destruct r.
  - unfold s2. by rewrite view_write, decide_False.
  - intros ? ? c [= <- <-]%(eq_trans (eq_sym Hpar)). rewrite Hib. intros [= <-].
    split; [done|]. unfold s2. by rewrite view_write, decide_True.
  - intros c Hc Hcb Hcp. unfold s2. rewrite view_write, decide_False by (intros ->; by eapply Hcp).
    apply Hv; [done|]. by apply (data_not_table c ino).
  - intros c Hc. unfold block_used, s2. rewrite view_write, decide_False; [by apply Hu|].
    unfold BLOCK_BITMAP_BLK, DATA_START in *. lia.
  - rewrite (bind_ok _ _ _ _ _ E3). by eexists _, _, s3.
Qed.

Lemma resolved_trans s n p ino r n1 s1 q r' n2 s2 :
  file_ok s n → resolved s n p ino r n1 s1 → resolved s1 n1 q ino r' n2 s2 → resolved s n q ino r' n2 s2.
Proof.
  intros Hf (H1 & H2 & H3 & H4 & _) (G1 & G2 & G3 & G4 & G5). split_and!; try done.
  - by apply (grow_trans s n s1 n1 s2 n2).
  - intros Hc. by apply G4, H4.
Qed.

Lemma resolved_none s n p q ino n1 s1 : resolved s n p ino None n1 s1 → resolved s n q ino None n1 s1.
Proof. intros (H1 & H2 & H3 & H4 & _). by split_and!. Qed.

Lemma resolved_fits s n p ino r n1 s1 : disk_fits s → resolved s n p ino r n1 s1 → disk_fits s1.
Proof. intros Hf (_ & _ & Hg & _). unfold disk_fits. by rewrite (gr_total _ _ _ _ Hg). Qed.

Section get_file_block.
Context (s : ofs) (n : raw_inode) (ino : Z).
Hypothesis s_ok : fs_ok s.
Hypothesis s_fits : disk_fits s.
Hypothesis ino_ok : inode_num ino.
Hypothesis f_ok : file_ok s n.

Lemma direct_spec i :
  (i < 12)%nat →
  ∃ r n' s', root_pointer (default 0 (direct n !! i)) (set_direct i) ino true n s = (Ok (r, n'), s') ∧
    resolved s n (PDirect i) ino r n' s'.
Proof.
  intros Hi. destruct (fo_inode s n f_ok) as [H1 H2 H3 [H41 H42] H5].
  apply root_pointer_spec; try done.
  - intros b Hb. split; try done. cbn. rewrite length_insert. split; [done|].
    apply Forall_insert; done.
  - intros b v. cbn. by rewrite list_lookup_insert_eq by lia.
  - intros b v r Hr Hne. destruct r as [j| | | | |]; try done. cbn.
    rewrite list_lookup_insert_ne; [done|]. congruence.
Qed.

Lemma indirect_root_spec :
  ∃ r n' s', root_pointer (indirect n) set_indirect ino true n s = (Ok (r, n'), s') ∧
    resolved s n PInd ino r n' s'.
Proof.
  destruct (fo_inode s n f_ok) as [H1 H2 (H31 & H32 & H33 & H34 & H35) H4 H5].
  apply root_pointer_spec; try done.
  intros b v r Hr Hne. by destruct r.
Qed.

Lemma double_root_spec :
  ∃ r n' s', root_pointer (double_indirect n) set_double ino true n s = (Ok (r, n'), s') ∧
    resolved s n PDbl ino r n' s'.
Proof.
  destruct (fo_inode s n f_ok) as [H1 H2 (H31 & H32 & H33 & H34 & H35) H4 H5].
  apply root_pointer_spec; try done.
  intros b v r Hr Hne. by destruct r.
Qed.
End get_file_block.

(** Following a pointer after the block that holds it was resolved. *)
Lemma indirect_step s n ino p0 ib n1 s1 p i :
  disk_fits s → inode_num ino → file_ok s n → resolved s n p0 ino (Some ib) n1 s1 →
  parent p = Some (p0, i) → pos_ok p →
  ∃ r n' s', indirect_entry ib i ino true n1 s1 = (Ok (r, n'), s') ∧ resolved s n p ino r n' s'.
Proof.
  intros Hfit Hino Hf Hr Hpar Hp. pose proof (resolved_fits _ _ _ _ _ _ _ Hfit Hr) as Hfit1.
  pose proof Hr as (Hok1 & Hf1 & _ & _ & Hib).
  destruct (indirect_entry_spec s1 n1 ino p p0 i ib) as (r & n' & s' & E & Hres); try done; [by apply Hib|].
  exists r, n', s'. split; [done|]. by eapply resolved_trans.
Qed.

Lemma get_file_block_spec s n ino idx p :
  fs_ok s → disk_fits s → inode_num ino → file_ok s n → 0 ≤ idx → leaf idx = Some p →
  ∃ r n' s', get_file_block ino idx true n s = (Ok (r, n'), s') ∧ resolved s n p ino r n' s'.
Proof.
  intros Hok Hfit Hino Hf Hidx Hleaf. pose proof (leaf_ok idx p Hidx Hleaf) as [Hp _].
  unfold leaf in Hleaf. unfold get_file_block. destruct (Z.ltb_spec idx 12).
  { injection Hleaf as <-. apply direct_spec; try done. }
  destruct (Z.ltb_spec (idx - 12) NPTRS).
  { injection Hleaf as <-.
    destruct (indirect_root_spec s n ino Hok Hfit Hino Hf) as (r & n1 & s1 & E & Hres).
    rewrite (bind_ok _ _ _ _ _ E). destruct r as [ib|].
    - by eapply indirect_step.
    - exists None, n1, s1. split; [done|]. by eapply resolved_none. }
  destruct (NPTRS <=? _); [done|]. injection Hleaf as <-.
  destruct (double_root_spec s n ino Hok Hfit Hino Hf) as (r & n1 & s1 & E & Hres).
  rewrite (bind_ok _ _ _ _ _ E). destruct r as [dib|].
  2:{ exists None, n1, s1. split; [done|]. by eapply resolved_none. }
  destruct (indirect_step s n ino PDbl dib n1 s1 (PDblE (Z.to_nat ((idx - 12 - NPTRS) / NPTRS)))
    (Z.to_nat ((idx - 12 - NPTRS) / NPTRS))) as (r & n2 & s2 & E2 & Hres2); try done; [by destruct Hp|].
  rewrite (bind_ok _ _ _ _ _ E2). destruct r as [ib|].
  - by eapply indirect_step.
  - exists None, n2, s2. split; [done|]. by eapply resolved_none.
Qed.

(** Without allocation the tree is only read. *)
Definition reads_to (s s' : ofs) : Prop := fs_ok s' ∧ view s' = view s ∧ same_rest s s'.

#[global] Instance reads_to_trans : Transitive reads_to.
Proof. intros s1 s2 s3 (H1 & H2 & H3 & H4) (G1 & G2 & G3 & G4). split_and!; [done|congruence|split; congruence]. Qed.

Lemma reads_touch s b : fs_ok s → reads_to s (touch b s).
Proof.
  intros Hok. split_and!; [by apply fs_ok_touch|apply view_touch|split; [apply cache_touch|apply total_touch]].
Qed.

Lemma indirect_entry_lookup s n ino ib i :
  fs_ok s → ∃ s', indirect_entry ib i ino false n s = (Ok (entry (view s) (Some ib) i, n), s') ∧ reads_to s s'.
Proof.
  intros Hok. unfold indirect_entry. rewrite (bind_ok _ _ _ _ _ (rd_ok s ib (ok_healthy s Hok))).
  cbn [entry mbind option_bind]. unfold nz. exists (touch ib s).
  split; [by destruct (u32_le (view s ib) (i * 4) =? 0)|]. by apply reads_touch.
Qed.

Lemma root_pointer_lookup s n ino b set :
  root_pointer b set ino false n s = (Ok (nz b, n), s).
Proof. unfold root_pointer, nz. by destruct (b =? 0). Qed.

Lemma get_file_block_lookup s n ino idx p :
  fs_ok s → leaf idx = Some p →
  ∃ s', get_file_block ino idx false n s = (Ok (at_pos (view s) n p, n), s') ∧ reads_to s s'.
Proof.
  intros Hok Hleaf. unfold leaf in Hleaf. unfold get_file_block.
  assert (reads_to s s) as Hrefl by by split_and!.
  destruct (idx <? 12). { injection Hleaf as <-. rewrite root_pointer_lookup. by exists s. }
  destruct (_ <? NPTRS).
  { injection Hleaf as <-. rewrite (bind_ok _ _ _ _ _ (root_pointer_lookup _ _ _ _ _)).
    cbn [at_pos]. destruct (nz (indirect n)) as [ib|]; [by apply indirect_entry_lookup|by exists s]. }
  destruct (NPTRS <=? _); [done|]. injection Hleaf as <-.
  rewrite (bind_ok _ _ _ _ _ (root_pointer_lookup _ _ _ _ _)). cbn [at_pos].
  destruct (nz (double_indirect n)) as [dib|]; [|by exists s].
  destruct (indirect_entry_lookup s n ino dib (Z.to_nat ((idx - 12 - NPTRS) / NPTRS)) Hok) as (s1 & E & Hr).
  rewrite (bind_ok _ _ _ _ _ E). destruct (entry (view s) (Some dib) _) as [ib|]; [|by exists s1].
  pose proof Hr as (Hok1 & Hv1 & _).
  destruct (indirect_entry_lookup s1 n ino ib (Z.to_nat ((idx - 12 - NPTRS) mod NPTRS)) Hok1) as (s2 & E2 & Hr2).
  rewrite Hv1 in E2. exists s2. split; [done|]. by etrans.
Qed.

(** ** The bytes of a file *)

Definition fbyte (s : ofs) (n : raw_inode) (pos : Z) : option Z :=
  p ← leaf (pos / 4096); b ← at_pos (view s) n p; view s b !! Z.to_nat (pos mod 4096).

Lemma at_pos_meta s s' n :
  (∀ c, meta s n c → view s' c = view s c) → ∀ q, pos_ok q → at_pos (view s') n q = at_pos (view s) n q.
Proof.
  intros H.
  assert (∀ q q0 j, pos_ok q → parent q = Some (q0, j) → at_pos (view s') n q0 = at_pos (view s) n q0 →
    at_pos (view s') n q = at_pos (view s) n q) as Hc.
  { intros q q0 j Hq Hpar H0. rewrite !(at_child _ _ _ _ _ Hpar), H0. unfold entry.
    destruct (at_pos (view s) n q0) as [c|] eqn:E; [|done]. cbn. rewrite H; [done|].
    exists q0. destruct (parent_ok _ _ _ Hq Hpar) as (? & _ & ?). done. }
  intros q Hq. destruct (parent q) as [[q0 j]|] eqn:E; [|by destruct q].
  eapply Hc; [done..|]. destruct (parent_ok _ _ _ Hq E) as (Hq0 & _ & _).
  destruct (parent q0) as [[q1 k]|] eqn:E0; [|by destruct q0].
  eapply Hc; [done..|]. by destruct q; simplify_eq/=.
Qed.

Lemma fbyte_same s s' n pos : view s' = view s → fbyte s' n pos = fbyte s n pos.
Proof. intros Hv. unfold fbyte. by rewrite Hv. Qed.

Lemma pos_idx pos : 0 ≤ pos → 0 ≤ pos / 4096.
Proof. intros. apply Z.div_pos; lia. Qed.

Lemma fbyte_grow s n s' n' pos x :
  file_ok s n → grow s n s' n' → 0 ≤ pos → fbyte s n pos = Some x → fbyte s' n' pos = Some x.
Proof.
  intros Hf Hg Hpos. unfold fbyte. destruct (leaf (pos / 4096)) as [p|] eqn:El; [|done]. cbn.
  destruct (leaf_ok _ _ (pos_idx pos Hpos) El) as [Hp Hl].
  destruct (at_pos (view s) n p) as [b|] eqn:Eb; [|done]. cbn.
  rewrite (gr_keep _ _ _ _ Hg p b Hp Eb). cbn. destruct (fo_used s n Hf p b Hp Eb) as [Hb Hu].
  rewrite (gr_frame _ _ _ _ Hg b); [done|lia|done|]. by eapply leaf_not_meta.
Qed.

(** Overwriting a data block of the file. *)
Section write_leaf.
Context (s : ofs) (n : raw_inode) (p : fpos) (b : Z) (buf : list Z).
Hypothesis s_ok : fs_ok s.
Hypothesis s_fits : disk_fits s.
Hypothesis f_ok : file_ok s n.
Hypothesis p_ok : pos_ok p ∧ leafp p = true.
Hypothesis p_at : at_pos (view s) n p = Some b.
Hypothesis buf_len : length buf = BLOCK_SIZE.

Local Abbreviation s' := (write_blk b buf s).

Lemma leaf_range : DATA_START ≤ b < total_blocks s ∧ block_used s b.
Proof. by apply (fo_used s n f_ok p); [apply p_ok|]. Qed.

Lemma write_leaf_at q : pos_ok q → at_pos (view s') n q = at_pos (view s) n q.
Proof.
  apply at_pos_meta. intros c Hc. rewrite view_write, decide_False; [done|]. intros ->.
  by eapply leaf_not_meta; [..|exact Hc]; [|apply p_ok|apply p_ok|].
Qed.

Lemma write_leaf_fs_ok : fs_ok s'.
Proof.
  destruct leaf_range as [Hb _]. unfold disk_fits, DATA_START in *.
  apply fs_ok_write; try done; [lia|]. unfold data_blk, JOURNAL_HDR_BLK, DATA_START. lia.
Qed.

Lemma write_leaf_used c : block_used s' c ↔ block_used s c.
Proof.
  unfold block_used. destruct leaf_range as [Hb _]. unfold DATA_START, BLOCK_BITMAP_BLK in *.
  by rewrite view_write, decide_False by lia.
Qed.

Lemma write_leaf_file_ok : file_ok s' n.
Proof.
  destruct f_ok as [H1 H2 H3]. split; [done|..].
  - intros q c Hq. rewrite write_leaf_at, write_leaf_used by done. by apply H2.
  - intros q r c Hq Hr. rewrite !write_leaf_at by done. by apply H3.
Qed.

Lemma write_leaf_current ino : inode_num ino → current s' ino = current s ino.
Proof.
  intros Hino. unfold current, disk_inode. rewrite view_write, decide_False; [done|].
  destruct leaf_range as [Hb _]. pose proof (inode_blk_bounds ino Hino).
  unfold JOURNAL_HDR_BLK, DATA_START in *. lia.
Qed.

Lemma write_leaf_fbyte idx pos :
  0 ≤ idx → 0 ≤ pos → leaf idx = Some p →
  fbyte s' n pos = if decide (pos / 4096 = idx) then buf !! Z.to_nat (pos mod 4096) else fbyte s n pos.
Proof.
  intros Hidx Hpos Hleaf. unfold fbyte. case_decide as Hd.
  - rewrite Hd, Hleaf. cbn. rewrite write_leaf_at by apply p_ok. rewrite p_at. cbn.
    by rewrite view_write, decide_True.
  - destruct (leaf (pos / 4096)) as [q|] eqn:El; [|done]. cbn.
    destruct (leaf_ok _ _ (pos_idx pos Hpos) El) as [Hq _]. rewrite write_leaf_at by done.
    destruct (at_pos (view s) n q) as [c|] eqn:Ec; [|done]. cbn.
    rewrite view_write, decide_False; [done|]. intros ->. apply Hd.
    assert (q = p) as -> by (by eapply (fo_inj s n f_ok); [|apply p_ok|..]).
    eapply leaf_inj; [by apply pos_idx|done..].
Qed.
End write_leaf.

(** ** Writing *)

Definition owned (s : ofs) (n : raw_inode) (c : Z) : Prop := ∃ p, pos_ok p ∧ at_pos (view s) n p = Some c.

(** One file written: its inode is tracked, its blocks well formed, bytes outside
    [lo, hi) kept, blocks of other files untouched. *)
Record wrote (ino lo hi : Z) (s : ofs) (n : raw_inode) (s' : ofs) (n' : raw_inode) : Prop := {
  wr_fs : fs_ok s';
  wr_file : file_ok s' n';
  wr_total : total_blocks s' = total_blocks s;
  wr_tracks : tracks s n s' n' ino;
  wr_size : i_size n' = i_size n ∧ itype n' = itype n;
  wr_keep : ∀ pos x, 0 ≤ pos → ¬ lo ≤ pos < hi → fbyte s n pos = Some x → fbyte s' n' pos = Some x;
  wr_foreign : ∀ c, DATA_START ≤ c → block_used s c → ¬ owned s n c →
    block_used s' c ∧ ¬ owned s' n' c ∧ view s' c = view s c;
}.

Lemma wrote_refl ino lo hi s n : fs_ok s → file_ok s n → wrote ino lo hi s n s n.
Proof. intros. split; try done. by intros H1. Qed.

Lemma wrote_trans ino lo mid hi s n s1 n1 s2 n2 :
  lo ≤ mid ≤ hi → wrote ino lo mid s n s1 n1 → wrote ino mid hi s1 n1 s2 n2 → wrote ino lo hi s n s2 n2.
Proof.
  intros Hm [A1 A2 A3 A4 [A5 A5'] A6 A7] [B1 B2 B3 B4 [B5 B5'] B6 B7]. split; try done.
  - congruence.
  - intros H. by apply B4, A4.
  - split; congruence.
  - intros pos x Hpos Ho Hx. apply B6; [done|lia|]. apply A6; [done|lia|done].
  - intros c Hc Hu Ho. destruct (A7 c Hc Hu Ho) as (Hu1 & Ho1 & Hv1).
    destruct (B7 c Hc Hu1 Ho1) as (Hu2 & Ho2 & Hv2). split_and!; [done..|congruence].
Qed.

Lemma resolved_foreign s n p ino r n' s' c :
  resolved s n p ino r n' s' → DATA_START ≤ c → block_used s c → ¬ owned s n c →
  block_used s' c ∧ ¬ owned s' n' c ∧ view s' c = view s c.
Proof.
  intros (_ & _ & Hg & _) Hc Hu Ho. unfold DATA_START in Hc. split_and!.
  - apply (gr_used _ _ _ _ Hg); [lia|done].
  - intros (q & Hq & Hqc). destruct (gr_new _ _ _ _ Hg q c Hq Hqc) as [?|[_ ?]]; [|done].
    apply Ho. by exists q.
  - apply (gr_frame _ _ _ _ Hg); [done|done|]. intros (q & Hq & _ & Hqc). apply Ho. by exists q.
Qed.

(** Positions of one block. *)
Lemma same_block pos k :
  0 ≤ k → pos mod 4096 + k < 4096 →
  (pos + k) / 4096 = pos / 4096 ∧ (pos + k) mod 4096 = pos mod 4096 + k.
Proof.
  intros Hk Hlt. pose proof (Z.mod_pos_bound pos 4096 ltac:(lia)).
  pose proof (Z.div_mod pos 4096 ltac:(lia)).
  assert ((pos + k) / 4096 = pos / 4096) as Hd.
  { symmetry. apply (Z.div_unique _ _ _ (pos mod 4096 + k)); lia. }
  split; [done|]. pose proof (Z.div_mod (pos + k) 4096 ltac:(lia)). lia.
Qed.

(** One round of the writing loop: the block is resolved, read unless it will be
    overwritten whole, and written back with the chunk in place. *)
Lemma write_round s n ino pos data p n1 s1 b base s1' :
  let off := Z.to_nat (pos mod 4096) in
  let s2 := write_blk b (splice base off data) s1' in
  0 ≤ pos → (off + length data ≤ BLOCK_SIZE)%nat → disk_fits s → inode_num ino → file_ok s n →
  leaf (pos / 4096) = Some p → resolved s n p ino (Some b) n1 s1 → reads_to s1 s1' →
  length base = BLOCK_SIZE → (base = view s1 b ∨ length data = BLOCK_SIZE) →
  wrote ino pos (pos + Z.of_nat (length data)) s n s2 n1 ∧
  ∀ k, (k < length data)%nat → fbyte s2 n1 (pos + Z.of_nat k) = data !! k.
Proof.
  intros off s2 Hpos Hoff Hfit Hino Hf Hleaf Hres (Hok1 & Hv1 & Hc1 & Ht1) Hbl Hbase.
  pose proof (resolved_fits _ _ _ _ _ _ _ Hfit Hres) as Hfit1.
  destruct (leaf_ok _ _ (pos_idx pos Hpos) Hleaf) as [Hp Hl]. pose proof block_size_eq as HB.
  pose proof Hres as (_ & Hf1 & Hg & Htr & Hat). specialize (Hat b eq_refl).
  assert (file_ok s1' n1) as Hf1' by by eapply file_ok_same.
  assert (disk_fits s1') as Hfit1' by by (unfold disk_fits; rewrite Ht1).
  assert (at_pos (view s1') n1 p = Some b) as Hat' by by rewrite Hv1.
  assert (length (splice base off data) = BLOCK_SIZE) as Hnew by (rewrite length_splice; lia).
  pose proof (write_leaf_fbyte s1' n1 p b (splice base off data) Hf1' (conj Hp Hl) Hat' (pos / 4096)) as Hfb.
  pose proof (Z.mod_pos_bound pos 4096 ltac:(lia)) as Hmod.
  unfold s2. clear s2. split; [split|].
  - by apply (write_leaf_fs_ok s1' n1 p).
  - by apply (write_leaf_file_ok s1' n1 p).
  - change (total_blocks s1' = total_blocks s). by rewrite Ht1, (gr_total _ _ _ _ Hg).
  - intros Hcur. rewrite (write_leaf_current s1' n1 p) by done.
    rewrite <-(Htr Hcur). unfold current, disk_inode. by rewrite Hc1, Hv1.
  - by destruct (gr_size _ _ _ _ Hg).
  - intros pos' x Hpos' Hout Hx. rewrite Hfb by (done || by apply pos_idx).
    apply (fbyte_grow _ _ _ _ _ _ Hf Hg Hpos') in Hx. case_decide as Hd; [|by rewrite (fbyte_same s1 s1')].
    pose proof (Z.mod_pos_bound pos' 4096 ltac:(lia)). pose proof (Z.div_mod pos' 4096 ltac:(lia)).
    pose proof (Z.div_mod pos 4096 ltac:(lia)).
    rewrite lookup_splice by lia. rewrite decide_False by lia.
    destruct Hbase as [->|Hfull]; [|lia]. unfold fbyte in Hx. rewrite Hd, Hleaf in Hx. cbn in Hx.
    by rewrite Hat in Hx.
  - intros c Hc Hu Ho. destruct (resolved_foreign _ _ _ _ _ _ _ _ Hres Hc Hu Ho) as (Hu1 & Ho1 & Hw1).
    assert (c ≠ b) as Hcb. { intros ->. apply Ho1. by exists p. } split_and!.
    + rewrite (write_leaf_used s1' n1 p) by done. unfold block_used. by rewrite Hv1.
    + intros (q & Hq & Hqc). apply Ho1. exists q. split; [done|].
      rewrite (write_leaf_at s1' n1 p) in Hqc by done. by rewrite <-Hv1.
    + rewrite view_write, decide_False by done. by rewrite Hv1.
  - intros k Hk. destruct (same_block pos (Z.of_nat k)) as [H1 H2]; [lia|lia|].
    rewrite Hfb, H1, decide_True, H2 by (done || lia || by apply pos_idx).
    rewrite lookup_splice by lia. rewrite decide_True by lia. f_equal. lia.
Qed.

(** The index of the block that holds a position of a file below 4 GiB. *)
Lemma block_idx_small pos :
  0 ≤ pos < 2 ^ 32 → wrap 32 (pos / 4096) = pos / 4096 ∧ ∃ p, leaf (pos / 4096) = Some p.
Proof.
  intros Hpos. assert (0 ≤ pos / 4096 < 2 ^ 20) as H.
  { split; [apply Z.div_pos; lia|]. apply Z.div_lt_upper_bound; lia. }
  split; [apply Z.mod_small; lia|]. by apply leaf_defined.
Qed.

(** The block as the loop has it before copying the chunk in. *)
Lemma load_block s b (whole : bool) :
  fs_ok s → data_blk b →
  ∃ base s', (if negb whole then rd b else mret (Some zero_block)) s = (Ok (Some base), s') ∧
    reads_to s s' ∧ length base = BLOCK_SIZE ∧ (base = view s b ∨ whole = true).
Proof.
  intros Hok Hb. destruct whole; cbn [negb].
  - exists zero_block, s. split_and!; [done|by split_and!|apply length_zero_block|by right].
  - exists (view s b), (touch b s). rewrite rd_ok by by apply ok_healthy.
    split_and!; [done|by apply reads_touch|by apply ok_blocks|by left].
Qed.

Lemma chunk_bounds pos rest :
  (0 < rest)%nat →
  let off := Z.to_nat (pos mod 4096) in
  let chunk := Nat.min rest (BLOCK_SIZE - off) in
  (0 < chunk ≤ rest)%nat ∧ (off + chunk ≤ BLOCK_SIZE)%nat.
Proof.
  intros Hr off chunk. pose proof block_size_eq. pose proof (Z.mod_pos_bound pos 4096 ltac:(lia)).
  unfold chunk, off. lia.
Qed.

Definition write_result (ino off : Z) (done : nat) (data : list Z) (s : ofs) (n : raw_inode)
    (w : raw_inode + fs_error) (s' : ofs) : Prop :=
  match w with
  | inl n' => wrote ino (off + Z.of_nat done) (off + Z.of_nat (length data)) s n s' n' ∧
      ∀ k, (done ≤ k < length data)%nat → fbyte s' n' (off + Z.of_nat k) = data !! k
  | inr e => e = NoSpace
  end.

Lemma write_loop_spec fuel ino off done data n s :
  0 ≤ off → off + Z.of_nat (length data) ≤ 2 ^ 32 → (done ≤ length data)%nat →
  (length data - done ≤ fuel)%nat → inode_num ino → disk_fits s → fs_ok s → file_ok s n →
  ∃ w s', write_loop fuel ino off done data n s = (Ok w, s') ∧ write_result ino off done data s n w s'.
Proof.
  intros Hoff Hmax. revert done n s. induction fuel as [|fuel IH]; intros done n s Hd Hfuel Hino Hfit Hok Hf;
    cbn [write_loop]; destruct (Nat.leb_spec (length data) done) as [Hend|Hmore]; try lia.
  1,2: exists (inl n), s; split; [done|]; split; [|lia];
    replace done with (length data) by lia; by apply wrote_refl.
  set (pos := off + Z.of_nat done). destruct (block_idx_small pos) as [-> [p Hleaf]]; [lia|].
  destruct (chunk_bounds pos (length data - done)) as [Hch1 Hch2]; [lia|].
  set (boff := Z.to_nat (pos mod 4096)) in *. set (chunk := Nat.min _ _) in *.
  destruct (get_file_block_spec s n ino (pos / 4096) p) as (r & n1 & s1 & E & Hres); try done; [apply pos_idx; lia|].
  rewrite (bind_ok _ _ _ _ _ E). destruct r as [b|]; [|by exists (inr NoSpace), s1].
  pose proof Hres as (Hok1 & Hf1 & Hg & _ & Hat).
  assert (data_blk b) as Hdb.
  { destruct (fo_used s1 n1 Hf1 p b) as [Hb _]; [|by apply Hat|].
    - eapply leaf_ok; [|done]. apply pos_idx. lia.
    - unfold data_blk, JOURNAL_HDR_BLK, DATA_START in *. lia. }
  destruct (load_block s1 b (negb (negb (boff =? 0)%nat || (chunk <? BLOCK_SIZE)%nat)) Hok1 Hdb)
    as (base & s1' & El & Hrd & Hbl & Hbase). rewrite negb_involutive in El.
  rewrite (bind_ok _ _ _ _ _ El).
  assert (length (slice data done chunk) = chunk) as Hsl by (apply length_slice; lia).
  destruct (write_round s n ino pos (slice data done chunk) p n1 s1 b base s1') as [Hw Hnew];
    rewrite ?Hsl; try done; [lia| |].
  { destruct Hbase as [?|Hwh]; [by left|right]. apply negb_true_iff, orb_false_iff in Hwh as [_ Hwh].
    apply Nat.ltb_ge in Hwh. lia. }
  rewrite Hsl in Hw, Hnew. fold boff in Hw, Hnew.
  rewrite (bind_ok _ _ s1' tt (write_blk b (splice base boff (slice data done chunk)) s1')) by done.
  set (s2 := write_blk _ _ _) in *.
  destruct (IH (done + chunk)%nat n1 s2) as (w & s' & E' & Hw'); try done; try lia; try apply Hw.
  { unfold disk_fits. by rewrite (wr_total _ _ _ _ _ _ _ Hw). }
  exists w, s'. split; [done|]. destruct w as [n'|e]; [|done]. destruct Hw' as [Hw' Hnew'].
  replace (off + Z.of_nat (done + chunk)) with (pos + Z.of_nat chunk) in Hw' by lia. split.
  - eapply (wrote_trans _ _ (pos + Z.of_nat chunk)); [lia|exact Hw|exact Hw'].
  - intros k Hk. destruct (decide (k < done + chunk)%nat) as [Hlt|Hge]; [|apply Hnew'; lia].
    destruct (lookup_lt_is_Some_2 data k) as [x Hx]; [lia|]. rewrite Hx.
    apply (wr_keep _ _ _ _ _ _ _ Hw'); [lia..|].
    replace (off + Z.of_nat k) with (pos + Z.of_nat (k - done)) by lia. rewrite Hnew by lia.
    rewrite lookup_slice, decide_True by lia. rewrite <-Hx. f_equal. lia.
Qed.

(** ** Reading *)

Lemma read_loop_spec fuel ino off done data n s :
  0 ≤ off → off + Z.of_nat (length data) ≤ 2 ^ 32 → (done ≤ length data)%nat →
  (length data - done ≤ fuel)%nat → fs_ok s →
  (∀ k, (k < length data)%nat → fbyte s n (off + Z.of_nat k) = data !! k) →
  ∃ s', read_loop fuel ino off done (length data) (take done data) n s = (Ok (inl data), s') ∧ reads_to s s'.
Proof.
  intros Hoff Hmax. revert done s. induction fuel as [|fuel IH]; intros done s Hd Hfuel Hok Hby;
    cbn [read_loop]; destruct (Nat.leb_spec (length data) done) as [Hend|Hmore]; try lia.
  1,2: exists s; rewrite take_ge by lia; split; [done|by split_and!].
  set (pos := off + Z.of_nat done). destruct (block_idx_small pos) as [-> [p Hleaf]]; [lia|].
  destruct (chunk_bounds pos (length data - done)) as [Hch1 Hch2]; [lia|].
  set (boff := Z.to_nat (pos mod 4096)) in *. set (chunk := Nat.min _ _) in *.
  destruct (get_file_block_lookup s n ino (pos / 4096) p Hok Hleaf) as (s1 & E & Hrd1).
  rewrite (bind_ok _ _ _ _ _ E). pose proof (Hby done Hmore) as Hfirst. fold pos in Hfirst.
  unfold fbyte in Hfirst. rewrite Hleaf in Hfirst. cbn in Hfirst.
  destruct (lookup_lt_is_Some_2 data done Hmore) as [x Hx]. rewrite Hx in Hfirst.
  destruct (at_pos (view s) n p) as [b|] eqn:Eb; [|done]. cbn in Hfirst.
  pose proof Hrd1 as (Hok1 & Hv1 & _).
  rewrite (bind_ok _ _ _ _ _ (rd_ok s1 b (ok_healthy s1 Hok1))), Hv1.
  assert (slice (view s b) boff chunk = slice data done chunk) as ->.
  { apply list_eq. intros j. rewrite !lookup_slice. case_decide; [|done].
    pose proof block_size_eq. pose proof (Z.mod_pos_bound pos 4096 ltac:(lia)).
    destruct (same_block pos (Z.of_nat j)) as [Hq1 Hq2]; [lia|lia|].
    specialize (Hby (done + j)%nat ltac:(lia)).
    replace (off + Z.of_nat (done + j)) with (pos + Z.of_nat j) in Hby by lia.
    unfold fbyte in Hby. rewrite Hq1, Hq2, Hleaf in Hby. cbn in Hby. rewrite Eb in Hby. cbn in Hby.
    rewrite <-Hby. f_equal. lia. }
  unfold slice. rewrite take_take_drop.
  pose proof (reads_touch s1 b Hok1) as Hrd2. assert (reads_to s (touch b s1)) as Hrd by by etrans.
  pose proof Hrd as (Hok2 & Hv2 & _).
  destruct (IH (done + chunk)%nat (touch b s1)) as (s' & E' & Hrd'); try done; try lia.
  { intros k Hk. rewrite (fbyte_same s) by done. by apply Hby. }
  exists s'. split; [done|]. by etrans.
Qed.

Lemma file_read_spec s ino off data :
  fs_ok s → inode_num ino → is_filelike (current s ino) = true → 0 ≤ off →
  off + Z.of_nat (length data) ≤ i_size (current s ino) < 2 ^ 32 →
  (∀ k, (k < length data)%nat → fbyte s (current s ino) (off + Z.of_nat k) = data !! k) →
  ∃ s', file_read ino off (length data) s = (Ok (inl data), s').
Proof.
  intros Hok Hino Hty Hoff Hsz Hby. unfold file_read.
  destruct (read_inode_spec s ino Hok Hino) as (s1 & E & Hok1 & Hv1 & _ & Hcur).
  rewrite (bind_ok _ _ _ _ _ E), Hty. cbn [negb].
  destruct (Z.leb_spec (i_size (current s ino)) off) as [Hle|Hlt].
  - exists s1. assert (data = []) as ->; [|done]. apply length_zero_iff_nil. lia.
  - rewrite Nat.min_r by lia.
    destruct (read_loop_spec (length data) ino off 0 data (current s ino) s1) as (s' & E' & _);
      try done; try lia.
    + intros k Hk. rewrite (fbyte_same s) by done. by apply Hby.
    + rewrite take_0 in E'. by exists s'.
Qed.

(** ** What a write does *)

(** The file [ino] of [s'] is that of [s] with [data] at [off]. *)
Record written (ino off : Z) (data : list Z) (s s' : ofs) : Prop := {
  wn_fs : fs_ok s';
  wn_fits : disk_fits s';
  wn_file : file_ok s' (current s' ino);
  wn_type : itype (current s' ino) = itype (current s ino);
  wn_size : i_size (current s' ino) = Z.max (i_size (current s ino)) (off + Z.of_nat (length data));
  wn_data : ∀ k, (k < length data)%nat → fbyte s' (current s' ino) (off + Z.of_nat k) = data !! k;
  wn_keep : ∀ pos x, 0 ≤ pos → ¬ off ≤ pos < off + Z.of_nat (length data) →
    fbyte s (current s ino) pos = Some x → fbyte s' (current s' ino) pos = Some x;
  wn_foreign : ∀ c, DATA_START ≤ c → block_used s c → ¬ owned s (current s ino) c →
    block_used s' c ∧ view s' c = view s c;
}.

Lemma at_pos_set_size v n k p : at_pos v (set_size k n) p = at_pos v n p.
Proof. by destruct p. Qed.

Lemma set_size_file_ok s n k : u32 k → file_ok s n → file_ok s (set_size k n).
Proof.
  intros Hk [[H1 H2 (H31 & H32 & H33 & H34 & H35) H4 H5] G2 G3]. split; [by split|..].
  - intros p b. rewrite at_pos_set_size. apply G2.
  - intros p q b. rewrite !at_pos_set_size. apply G3.
Qed.

(** States that agree on the data area and on the inode. *)
Lemma file_ok_data s s' n :
  (∀ b, DATA_START ≤ b → view s' b = view s b) → (∀ b, block_used s' b ↔ block_used s b) →
  total_blocks s' = total_blocks s → file_ok s n →
  file_ok s' n ∧ ∀ pos, 0 ≤ pos → fbyte s' n pos = fbyte s n pos.
Proof.
  intros Hv Hu Ht Hf. assert (∀ q, pos_ok q → at_pos (view s') n q = at_pos (view s) n q) as Hat.
  { apply at_pos_meta. intros c (p & Hp & _ & Hc). apply Hv. by apply (fo_used s n Hf p c Hp Hc). }
  destruct Hf as [H1 H2 H3]. split; [split; [done|..]|].
  - intros p b Hp. rewrite Hat, Hu, Ht by done. by apply H2.
  - intros p q b Hp Hq. rewrite !Hat by done. by apply H3.
  - intros pos Hpos. unfold fbyte. destruct (leaf (pos / 4096)) as [p|] eqn:El; [|done]. cbn.
    destruct (leaf_ok _ _ (pos_idx pos Hpos) El) as [Hp _]. rewrite Hat by done.
    destruct (at_pos (view s) n p) as [b|] eqn:Eb; [|done]. cbn. rewrite Hv; [done|].
    by apply (H2 p b Hp Eb).
Qed.

(** Steps that only touch metadata: the data area and the block bitmap stay. *)
Definition keeps_data (s s' : ofs) : Prop :=
  fs_ok s' ∧ total_blocks s' = total_blocks s ∧ (∀ b, DATA_START ≤ b → view s' b = view s b) ∧
  ∀ b, block_used s' b ↔ block_used s b.

#[global] Instance keeps_data_trans : Transitive keeps_data.
Proof.
  intros s1 s2 s3 (A1 & A2 & A3 & A4) (B1 & B2 & B3 & B4). split_and!; [done|congruence|..].
  - intros b Hb. by rewrite B3, A3.
  - intros b. by rewrite B4, A4.
Qed.

Lemma resize_spec s n ino sz :
  fs_ok s → file_ok s n → inode_num ino → u32 sz →
  ∃ s', write_inode ino (set_size sz n) s = (Ok true, s') ∧ keeps_data s s' ∧ current s' ino = set_size sz n.
Proof.
  intros Hok Hf Hino Hsz.
  destruct (write_inode_spec s ino Hok Hino (set_size sz n)) as (s' & E & Hok' & Ht & Hc & Hd & _ & Hv).
  { by apply (set_size_file_ok s). }
  exists s'. split; [done|]. split; [split_and!; try done|].
  - intros b Hb. apply Hv. by apply data_not_table.
  - intros b. unfold block_used. rewrite Hv; [done|]. pose proof (inode_blk_bounds ino Hino).
    unfold BLOCK_BITMAP_BLK, INODE_TABLE_START in *. lia.
  - apply current_written; [by rewrite Hc, cache_get_invalidate, decide_True|done].
Qed.

Lemma commit_keeps s ino :
  fs_ok s → inode_num ino →
  ∃ r s', commit s = (Ok r, s') ∧ keeps_data s s' ∧ current s' ino = current s ino.
Proof.
  intros Hok Hino. destruct (commit_view s Hok) as (r & s' & E & Hok' & Hc & Ht & Hv).
  exists r, s'. split; [done|]. split; [split_and!; try done|].
  - intros b Hb. apply Hv. unfold data_blk, DATA_START in *. lia.
  - intros b. unfold block_used. rewrite Hv; [done|apply bitmap_blocks_ok].
  - unfold current, disk_inode. rewrite Hc, Hv; [done|]. by apply inode_blk_ok.
Qed.

Section file_write.
Context (s : ofs) (ino off : Z) (data : list Z).
Hypothesis s_ok : fs_ok s.
Hypothesis s_fits : disk_fits s.
Hypothesis ino_ok : inode_num ino.
Hypothesis f_ok : file_ok s (current s ino).
Hypothesis off_ok : 0 ≤ off ∧ off + Z.of_nat (length data) < 2 ^ 32.

(** From the state after the writing loop to the end of the operation. *)
Lemma finish_write s1 n1 s2 :
  wrote ino off (off + Z.of_nat (length data)) s (current s ino) s1 n1 →
  (∀ k, (k < length data)%nat → fbyte s1 n1 (off + Z.of_nat k) = data !! k) →
  keeps_data s1 s2 →
  current s2 ino = set_size (Z.max (i_size n1) (off + Z.of_nat (length data))) n1 →
  written ino off data s s2.
Proof.
  intros Hw Hnew Hk Hcur. pose proof Hk as (Hok2 & Ht2 & Hv2 & Hu2).
  destruct (wr_size _ _ _ _ _ _ _ Hw) as [Hsz Hty].
  assert (u32 (Z.max (i_size n1) (off + Z.of_nat (length data)))) as Hu32.
  { destruct (fo_inode _ _ (wr_file _ _ _ _ _ _ _ Hw)) as [_ _ (H & _) _ _]. unfold u32 in *. lia. }
  set (n2 := set_size _ n1) in *.
  destruct (file_ok_data s1 s2 n2) as [Hf2 Hb2]; try done.
  { by apply set_size_file_ok, Hw. }
  assert (∀ pos, 0 ≤ pos → fbyte s2 n2 pos = fbyte s1 n1 pos) as Hby.
  { intros pos Hpos. rewrite Hb2 by done. unfold fbyte. destruct (leaf (pos / 4096)) as [q|]; [|done].
    cbn. unfold n2. by rewrite at_pos_set_size. }
  split; rewrite ?Hcur; try done.
  - unfold disk_fits. by rewrite Ht2, (wr_total _ _ _ _ _ _ _ Hw).
  - cbn. by rewrite Hsz.
  - intros k Hk'. rewrite Hby by lia. by apply Hnew.
  - intros pos x Hpos Hout Hx. rewrite Hby by done. by apply (wr_keep _ _ _ _ _ _ _ Hw).
  - intros c Hc Hu Ho. destruct (wr_foreign _ _ _ _ _ _ _ Hw c Hc Hu Ho) as (Hu1 & _ & Hv1).
    rewrite Hu2, Hv2 by done. done.
Qed.

Lemma file_write_spec :
  is_filelike (current s ino) = true →
  ∃ r s', file_write ino off data s = (Ok r, s') ∧
    match r with
    | inl k => k = length data ∧ written ino off data s s'
    | inr e => e = NoSpace
    end.
Proof.
  intros Hty. unfold file_write. destruct off_ok as [Hoff Hmax].
  destruct (read_inode_spec s ino s_ok ino_ok) as (s0 & E0 & Hok0 & Hv0 & Ht0 & Hcur0).
  rewrite (bind_ok _ _ _ _ _ E0), Hty. cbn [negb]. set (n := current s ino) in *.
  assert (file_ok s0 n) as Hf0 by by eapply file_ok_same.
  destruct (write_loop_spec (length data) ino off 0 data n s0) as (w & s1 & E1 & Hw); try done; try lia.
  { unfold disk_fits. by rewrite Ht0. }
  rewrite (bind_ok _ _ _ _ _ E1). destruct w as [n1|e]; [|by exists (inr e), s1].
  destruct Hw as [Hw Hnew]. rewrite Z.add_0_r in Hw.
  assert (wrote ino off (off + Z.of_nat (length data)) s n s1 n1) as Hw'.
  { destruct Hw as [H1 H2 H3 H4 H5 H6 H7]. split; try done; [congruence| | |].
    - intros _. by apply H4.
    - intros pos x Hpos Hout. rewrite <-(fbyte_same s s0) by done. by apply H6.
    - intros c Hc. unfold block_used, owned in *. rewrite Hv0 in H7. by apply H7. }
  assert (current s1 ino = n1) as Hcur1 by by apply (wr_tracks _ _ _ _ _ _ _ Hw).
  assert (wrap 64 (off + Z.of_nat (length data)) = off + Z.of_nat (length data)) as -> by (apply Z.mod_small; lia).
  assert (∃ ok s2, (if i_size n1 <? off + Z.of_nat (length data)
      then write_inode ino (set_size (wrap 32 (off + Z.of_nat (length data))) n1) else mret true) s1 = (Ok ok, s2) ∧
    keeps_data s1 s2 ∧ current s2 ino = set_size (Z.max (i_size n1) (off + Z.of_nat (length data))) n1)
    as (ok & s2 & E2 & Hk2 & Hcur2).
  { destruct (Z.ltb_spec (i_size n1) (off + Z.of_nat (length data))) as [Hlt|Hge].
    - rewrite Z.max_r by lia. unfold wrap. rewrite Z.mod_small by lia. exists true.
      apply resize_spec; [apply Hw|apply Hw|done|]. unfold u32. lia.
    - exists true, s1. rewrite Z.max_l, Hcur1 by lia. split_and!; [done|..]; [|by destruct n1].
      split_and!; try done. apply Hw. }
  rewrite (bind_ok _ _ _ _ _ E2). pose proof Hk2 as (Hok2 & _).
  destruct (commit_keeps s2 ino Hok2 ino_ok) as (r & s3 & E3 & Hk3 & Hcur3).
  rewrite (bind_ok _ _ _ _ _ E3). exists (inl (length data)), s3. split; [done|]. split; [done|].
  apply (finish_write s1 n1); [done|intros; apply Hnew; lia|by etrans|congruence].
Qed.
End file_write.

(** C3: A file reads back as it was written.  On a disk in order, writing [data] at
    [off] of a well-formed file either fails for lack of space or reports all the
    bytes written, and then reading that range returns exactly [data]; the file is
    well formed again, its other bytes are kept, its size grows just enough, and no
    block of another file changes.  Direct, indirect and double-indirect blocks, holes
    filled on the way, and transactions too large for the journal are covered. *)
Theorem file_write_read s ino off data :
  fs_ok s → disk_fits s → inode_num ino → file_ok s (current s ino) →
  is_filelike (current s ino) = true → 0 ≤ off → off + Z.of_nat (length data) < 2 ^ 32 →
  ∃ r s1, file_write ino off data s = (Ok r, s1) ∧
    match r with
    | inl k => k = length data ∧ written ino off data s s1 ∧
        ∃ s2, file_read ino off (length data) s1 = (Ok (inl data), s2)
    | inr e => e = NoSpace
    end.
Proof.
  intros Hok Hfit Hino Hf Hty Hoff Hmax.
  destruct (file_write_spec s ino off data Hok Hfit Hino Hf (conj Hoff Hmax) Hty) as (r & s1 & E & Hr).
  exists r, s1. split; [done|]. destruct r as [k|e]; [|done]. destruct Hr as [-> Hw].
  split_and!; try done. apply file_read_spec; try done.
  - apply Hw.
  - unfold is_filelike. by rewrite (wn_type _ _ _ _ _ Hw).
  - rewrite (wn_size _ _ _ _ _ Hw).
    destruct (fo_inode _ _ Hf) as [_ _ (H & _) _ _]. unfold u32 in H. lia.
  - apply Hw.
Qed.

(** *** Witnesses *)

(** A formatted-looking disk with one empty file. *)
Definition demo_fs : ofs := (write_inode 5 (demo_inode 0) blank_fs).2.

Lemma demo_fs_ok :
  fs_ok demo_fs ∧ disk_fits demo_fs ∧ current demo_fs 5 = demo_inode 0 ∧ file_ok demo_fs (demo_inode 0).
Proof.
  destruct (write_inode_spec blank_fs 5 blank_fs_ok) with (demo_inode 0) as (s & E & Hok & Ht & Hc & Hd & _).
  { unfold inode_num, MAX_INODES. lia. }
  { apply demo_inode_wf. unfold u32. lia. }
  assert (demo_fs = s) as -> by (unfold demo_fs; by rewrite E).
  assert (∀ p, at_pos (view s) (demo_inode 0) p = None) as Hnone.
  { intros [i| | | | |]; try done. cbn [at_pos direct demo_inode].
    destruct (replicate 12 0 !! i) as [x|] eqn:Ex; [|done]. apply lookup_replicate in Ex as [-> _]. done. }
  split_and!; [done| | |split].
  - unfold disk_fits. rewrite Ht. cbn. lia.
  - apply current_written; [|done]. rewrite Hc, cache_get_invalidate. by rewrite decide_True.
  - apply demo_inode_wf. unfold u32. lia.
  - intros p b _. by rewrite Hnone.
  - intros p q b _ _. by rewrite Hnone.
Qed.

Lemma file_write_read_witness :
  ∃ s1 s2, file_write 5 4094 [1; 2; 3; 4] demo_fs = (Ok (inl 4%nat), s1) ∧
    file_read 5 4094 4 s1 = (Ok (inl [1; 2; 3; 4]), s2).
Proof.
  pose proof demo_fs_ok as (H1 & H2 & H3 & H4).
  destruct (file_write_read demo_fs 5 4094 [1; 2; 3; 4] H1 H2) as (r & s1 & E & H).
  - unfold inode_num, MAX_INODES. lia.
  - rewrite H3. exact H4.
  - rewrite H3. reflexivity.
  - lia.
  - cbn. lia.
  - assert ((file_write 5 4094 [1; 2; 3; 4] demo_fs).1 = Ok (inl 4%nat)) as E1 by (vm_compute; reflexivity).
    rewrite E in E1. cbn [fst] in E1. injection E1 as ->. destruct H as (_ & _ & s2 & H).
    exists s1, s2. split; [exact E|exact H].
Defined.
