(* ===== verification/Crypto.v ===== *)
(** * SHA-256 and the user database (src/crypto.rs, src/posix/user.rs)

    The hash as the kernel computes it, with its padding and its 64-entry schedule
    array, beside the definition of FIPS 180-4, and the password check built on it.
    Words are 32-bit [Z]; all additions wrap. *)

From Stdlib Require Import ZArith Lia.
From stdpp Require Import prelude gmap strings.
From S2P Require Import Prelude.

Local Open Scope Z_scope.

(** ** Word operations *)

Definition add32 (x y : Z) : Z := wrap 32 (x + y).
Definition rotate_right (x k : Z) : Z := Z.lor (Z.shiftr x k) (wrap 32 (Z.shiftl x (32 - k))).
Definition not32 (x : Z) : Z := Z.lxor x 4294967295.

Definition ch (x y z : Z) : Z := Z.lxor (Z.land x y) (Z.land (not32 x) z).
Definition maj (x y z : Z) : Z := Z.lxor (Z.lxor (Z.land x y) (Z.land x z)) (Z.land y z).
Definition sigma0 (x : Z) : Z := Z.lxor (Z.lxor (rotate_right x 2) (rotate_right x 13)) (rotate_right x 22).
Definition sigma1 (x : Z) : Z := Z.lxor (Z.lxor (rotate_right x 6) (rotate_right x 11)) (rotate_right x 25).
Definition gamma0 (x : Z) : Z := Z.lxor (Z.lxor (rotate_right x 7) (rotate_right x 18)) (Z.shiftr x 3).
Definition gamma1 (x : Z) : Z := Z.lxor (Z.lxor (rotate_right x 17) (rotate_right x 19)) (Z.shiftr x 10).

Definition H0 : list Z :=
  [0x6a09e667; 0xbb67ae85; 0x3c6ef372; 0xa54ff53a; 0x510e527f; 0x9b05688c; 0x1f83d9ab; 0x5be0cd19].

Definition K : list Z := concat
  [[0x428a2f98; 0x71374491; 0xb5c0fbcf; 0xe9b5dba5];
   [0x3956c25b; 0x59f111f1; 0x923f82a4; 0xab1c5ed5];
   [0xd807aa98; 0x12835b01; 0x243185be; 0x550c7dc3];
   [0x72be5d74; 0x80deb1fe; 0x9bdc06a7; 0xc19bf174];
   [0xe49b69c1; 0xefbe4786; 0x0fc19dc6; 0x240ca1cc];
   [0x2de92c6f; 0x4a7484aa; 0x5cb0a9dc; 0x76f988da];
   [0x983e5152; 0xa831c66d; 0xb00327c8; 0xbf597fc7];
   [0xc6e00bf3; 0xd5a79147; 0x06ca6351; 0x14292967];
   [0x27b70a85; 0x2e1b2138; 0x4d2c6dfc; 0x53380d13];
   [0x650a7354; 0x766a0abb; 0x81c2c92e; 0x92722c85];
   [0xa2bfe8a1; 0xa81a664b; 0xc24b8b70; 0xc76c51a3];
   [0xd192e819; 0xd6990624; 0xf40e3585; 0x106aa070];
   [0x19a4c116; 0x1e376c08; 0x2748774c; 0x34b0bcb5];
   [0x391c0cb3; 0x4ed8aa4a; 0x5b9cca4f; 0x682e6ff3];
   [0x748f82ee; 0x78a5636f; 0x84c87814; 0x8cc70208];
   [0x90befffa; 0xa4506ceb; 0xbef9a3f7; 0xc67178f2]].

Definition at0 (l : list Z) (i : nat) : Z := default 0 (l !! i).

(** ** The hash *)

Definition be_bytes (n : nat) (x : Z) : list Z := rev (le_bytes n x).
Definition of_be (l : list Z) : Z := of_le (rev l).

Definition pad (data : list Z) : list Z :=
  let n := length data in
  let bit_len := wrap 64 (Z.of_nat n * 8) in
  let msg := splice (splice (replicate (n + 1 + 8) 0) 0 data) n [0x80] in
  let pad_len := ((64 - (n + 9) mod 64) mod 64)%nat in
  let msg := msg ++ replicate pad_len 0 in
  splice msg (length msg - 8) (be_bytes 8 bit_len).

(** [w[t]] for the first sixteen words, then the recurrence, in place. *)
Definition load_words (chunk : list Z) (w : list Z) : list Z :=
  foldl (λ w t, <[t := of_be [at0 chunk (t * 4); at0 chunk (t * 4 + 1); at0 chunk (t * 4 + 2);
                              at0 chunk (t * 4 + 3)]]> w) w (seq 0 16).

Definition extend_words (w : list Z) : list Z :=
  foldl (λ w t, <[t := add32 (add32 (add32 (gamma1 (at0 w (t - 2))) (at0 w (t - 7)))
                               (gamma0 (at0 w (t - 15)))) (at0 w (t - 16))]> w) w (seq 16 48).

(** The working variables a..h and one round. *)
Record vars : Type := mkVars { va : Z; vb : Z; vc : Z; vd : Z; ve : Z; vf : Z; vg : Z; vh : Z }.

Definition round (w : list Z) (v : vars) (t : nat) : vars :=
  let t1 := add32 (add32 (add32 (add32 (vh v) (sigma1 (ve v))) (ch (ve v) (vf v) (vg v))) (at0 K t))
              (at0 w t) in
  let t2 := add32 (sigma0 (va v)) (maj (va v) (vb v) (vc v)) in
  mkVars (add32 t1 t2) (va v) (vb v) (vc v) (add32 (vd v) t1) (ve v) (vf v) (vg v).

Definition process_chunk (h chunk : list Z) : list Z :=
  let w := extend_words (load_words chunk (replicate 64 0)) in
  let v := foldl (round w) (mkVars (at0 h 0) (at0 h 1) (at0 h 2) (at0 h 3) (at0 h 4) (at0 h 5) (at0 h 6)
                              (at0 h 7)) (seq 0 64) in
  [add32 (at0 h 0) (va v); add32 (at0 h 1) (vb v); add32 (at0 h 2) (vc v); add32 (at0 h 3) (vd v);
   add32 (at0 h 4) (ve v); add32 (at0 h 5) (vf v); add32 (at0 h 6) (vg v); add32 (at0 h 7) (vh v)].

(** [msg.chunks(64)]; [fuel] is the message length, more than the chunks. *)
Fixpoint chunks (fuel : nat) (l : list Z) : list (list Z) :=
  match fuel, l with
  | S fuel', _ :: _ => take 64 l :: chunks fuel' (drop 64 l)
  | _, _ => []
  end.

Definition sha256 (data : list Z) : list Z :=
  let msg := pad data in
  let h := foldl process_chunk H0 (chunks (length msg) msg) in
  concat (be_bytes 4 <$> h).

(** ** Users *)

Record user_entry : Type := mkUser {
  u_uid : Z; u_gid : Z; u_name : string; password_hash : list Z; home : string; shell : string;
}.

Record group_entry : Type := mkGroup { g_gid : Z; g_name : string; members : list Z }.

Definition ROOT_UID : Z := 0.
Definition ROOT_GID : Z := 0.
Definition GUEST_UID : Z := 1000.
Definition GUEST_GID : Z := 1000.
Definition SUDO_GID : Z := 27.

Definition ROOT_HASH : list Z :=
  [0x48; 0x13; 0x49; 0x4d; 0x13; 0x7e; 0x16; 0x31; 0xbb; 0xa3; 0x01; 0xd5; 0xac; 0xab; 0x6e; 0x7b;
   0xb7; 0xaa; 0x74; 0xce; 0x11; 0x85; 0xd4; 0x56; 0x56; 0x5e; 0xf5; 0x1d; 0x73; 0x76; 0x77; 0xb2].

Definition GUEST_HASH : list Z :=
  [0x84; 0x98; 0x3c; 0x60; 0xf7; 0xda; 0xad; 0xc1; 0xcb; 0x86; 0x98; 0x62; 0x1f; 0x80; 0x2c; 0x0d;
   0x9f; 0x9a; 0x3c; 0x3c; 0x29; 0x5c; 0x81; 0x07; 0x48; 0xfb; 0x04; 0x81; 0x15; 0xc1; 0x86; 0xec].

Definition USERS : list user_entry :=
  [mkUser ROOT_UID ROOT_GID "root" ROOT_HASH "/root" "/sh";
   mkUser GUEST_UID GUEST_GID "guest" GUEST_HASH "/home/guest" "/sh"].

Definition GROUPS : list group_entry :=
  [mkGroup ROOT_GID "root" [ROOT_UID]; mkGroup GUEST_GID "guest" [GUEST_UID];
   mkGroup SUDO_GID "sudo" [ROOT_UID; GUEST_UID]].

Definition hash_password (data : list Z) : list Z := sha256 data.

Definition verify_password (stored plaintext : list Z) : bool :=
  bool_decide (hash_password plaintext = stored).

Definition find_by_name (name : string) : option user_entry :=
  List.find (λ u, bool_decide (u_name u = name)) USERS.
Definition find_by_uid (uid : Z) : option user_entry := List.find (λ u, u_uid u =? uid) USERS.
Definition find_group_by_name (name : string) : option group_entry :=
  List.find (λ g, bool_decide (g_name g = name)) GROUPS.
Definition find_group_by_gid (gid : Z) : option group_entry := List.find (λ g, g_gid g =? gid) GROUPS.

Definition groups_of (uid : Z) : list Z :=
  g_gid <$> List.filter (λ g, bool_decide (uid ∈ members g)) GROUPS.

Definition authenticate (username : string) (password : list Z) : option user_entry :=
  u ← find_by_name username;
  if verify_password (password_hash u) password then Some u else None.

Definition authenticate_uid (uid : Z) (password : list Z) : bool :=
  match find_by_uid uid with Some u => verify_password (password_hash u) password | None => false end.

Definition in_group (uid gid : Z) : bool :=
  match find_group_by_gid gid with Some g => bool_decide (uid ∈ members g) | None => false end.

Definition can_sudo (uid : Z) : bool := (uid =? ROOT_UID) || in_group uid SUDO_GID.

Definition is_root (euid : Z) : bool := euid =? ROOT_UID.

(** ** FIPS 180-4

    The standard's definition: rotation as arithmetic, sums taken once modulo 2^32,
    the schedule as the sequence of its recurrence, padding by the least number of
    zero bits, blocks by position. *)
Module Fips.

Definition ROTR (k x : Z) : Z := x / 2 ^ k + (x mod 2 ^ k) * 2 ^ (32 - k).
Definition SHR (k x : Z) : Z := x / 2 ^ k.
Definition xor3 (a b c : Z) : Z := Z.lxor (Z.lxor a b) c.
Definition Sigma0 (x : Z) : Z := xor3 (ROTR 2 x) (ROTR 13 x) (ROTR 22 x).
Definition Sigma1 (x : Z) : Z := xor3 (ROTR 6 x) (ROTR 11 x) (ROTR 25 x).
Definition s0 (x : Z) : Z := xor3 (ROTR 7 x) (ROTR 18 x) (SHR 3 x).
Definition s1 (x : Z) : Z := xor3 (ROTR 17 x) (ROTR 19 x) (SHR 10 x).

Definition padding (data : list Z) : list Z :=
  let l := 8 * Z.of_nat (length data) in
  let k := (448 - (l + 1)) mod 512 in
  data ++ [128] ++ replicate (Z.to_nat ((k - 7) / 8)) 0 ++ be_bytes 8 l.

(** Word [t] of a block, and the schedule's first [n] words. *)
Definition M (block : list Z) (t : nat) : Z := of_be (slice block (t * 4) 4).

Fixpoint W (block : list Z) (n : nat) : list Z :=
  match n with
  | O => []
  | S t =>
      let w := W block t in
      w ++ [if (t <? 16)%nat then M block t
            else (s1 (at0 w (t - 2)) + at0 w (t - 7) + s0 (at0 w (t - 15)) + at0 w (t - 16)) mod 2 ^ 32]
  end.

Definition step (w : list Z) (v : vars) (t : nat) : vars :=
  let T1 := vh v + Sigma1 (ve v) + ch (ve v) (vf v) (vg v) + at0 K t + at0 w t in
  let T2 := Sigma0 (va v) + maj (va v) (vb v) (vc v) in
  mkVars ((T1 + T2) mod 2 ^ 32) (va v) (vb v) (vc v) ((vd v + T1) mod 2 ^ 32) (ve v) (vf v) (vg v).

Definition vars_of (h : list Z) : vars :=
  mkVars (at0 h 0) (at0 h 1) (at0 h 2) (at0 h 3) (at0 h 4) (at0 h 5) (at0 h 6) (at0 h 7).
Definition list_of (v : vars) : list Z := [va v; vb v; vc v; vd v; ve v; vf v; vg v; vh v].

Definition compress (h block : list Z) : list Z :=
  zip_with (λ x y, (x + y) mod 2 ^ 32) h (list_of (foldl (step (W block 64)) (vars_of h) (seq 0 64))).

Definition block_of (msg : list Z) (j : nat) : list Z := slice msg (64 * j) 64.

Definition hash (data : list Z) : list Z :=
  let msg := padding data in
  concat (be_bytes 4 <$> foldl compress H0 (block_of msg <$> seq 0 (length msg / 64))).
End Fips.

(** ** Padding *)

Lemma length_be_bytes n x : length (be_bytes n x) = n.
Proof. unfold be_bytes. by rewrite length_rev, length_le_bytes. Qed.

Lemma splice_tail {A} (l a b : list A) : length b = length a → splice (l ++ a) (length l) b = l ++ b.
Proof.
  intros H. unfold splice. rewrite take_app_length, drop_ge by (rewrite length_app; lia).
  by rewrite app_nil_r.
Qed.

Lemma pad_shape data :
  pad data = data ++ [128] ++ replicate ((64 - (length data + 9) mod 64) mod 64) 0 ++
    be_bytes 8 (wrap 64 (Z.of_nat (length data) * 8)).
Proof.
  unfold pad. set (n := length data). set (k := ((64 - (n + 9) mod 64) mod 64)%nat).
  set (L := be_bytes 8 _). assert (length L = 8%nat) as HL by apply length_be_bytes.
  assert (splice (splice (replicate (n + 1 + 8) 0) 0 data) n [0x80] = data ++ [128] ++ replicate 8 0) as ->.
  { replace (n + 1 + 8)%nat with (n + (1 + 8))%nat by lia. rewrite replicate_add.
    assert (splice (replicate n 0 ++ replicate (1 + 8) 0) 0 data = data ++ replicate (1 + 8) 0) as ->.
    { unfold splice. rewrite take_0, Nat.add_0_l. cbn [app]. f_equal. fold n.
      rewrite drop_app_length'; [done|by rewrite length_replicate]. }
    unfold splice. rewrite take_app_length' by done. f_equal. cbn [app length]. f_equal.
    rewrite drop_app, drop_ge by lia. fold n. by replace (n + 1 - n)%nat with 1%nat by lia. }
  assert ((data ++ [128] ++ replicate 8 0) ++ replicate k 0 = (data ++ [128] ++ replicate k 0) ++ replicate 8 0) as ->.
  { rewrite <-!app_assoc. do 2 f_equal. by rewrite <-!replicate_add, Nat.add_comm. }
  set (m := data ++ [128] ++ replicate k 0).
  replace (length (m ++ replicate 8 0%Z) - 8)%nat with (length m)
    by (rewrite length_app, length_replicate; lia).
  rewrite splice_tail by by rewrite HL. unfold m. by rewrite <-!app_assoc.
Qed.

Lemma zero_bytes_eq (n : nat) :
  Z.to_nat (((448 - (8 * Z.of_nat n + 1)) mod 512 - 7) / 8) = ((64 - (n + 9) mod 64) mod 64)%nat.
Proof.
  apply Nat2Z.inj. rewrite Nat2Z.inj_mod, Nat2Z.inj_sub, Nat2Z.inj_mod by (apply Nat.lt_le_incl, Nat.mod_upper_bound; lia).
  rewrite Z2Nat.id; Z.div_mod_to_equations; lia.
Qed.

Lemma pad_fips data : Z.of_nat (length data) < 2 ^ 61 → pad data = Fips.padding data.
Proof.
  intros Hl. rewrite pad_shape. unfold Fips.padding. rewrite zero_bytes_eq. do 3 f_equal.
  unfold wrap. rewrite Z.mod_small by lia. f_equal. lia.
Qed.

Lemma pad_length data : (length (pad data) mod 64 = 0)%nat.
Proof.
  rewrite pad_shape, !length_app, length_replicate, length_be_bytes. cbn [length].
  apply Nat2Z.inj. rewrite Nat2Z.inj_mod, !Nat2Z.inj_add, Nat2Z.inj_mod, Nat2Z.inj_sub, Nat2Z.inj_mod
    by (apply Nat.lt_le_incl, Nat.mod_upper_bound; lia).
  Z.div_mod_to_equations. lia.
Qed.

(** ** Words *)

Definition word (x : Z) : Prop := 0 ≤ x < 2 ^ 32.

Lemma mod_word x : word (x mod 2 ^ 32).
Proof. apply Z.mod_pos_bound. lia. Qed.

Lemma rotate_right_fips x k : word x → 0 < k < 32 → rotate_right x k = Fips.ROTR k x.
Proof.
  intros Hx Hk. unfold rotate_right, Fips.ROTR, wrap, word in *.
  rewrite Z.shiftr_div_pow2, Z.shiftl_mul_pow2 by lia.
  replace (2 ^ 32) with (2 ^ k * 2 ^ (32 - k)) by (rewrite <-Z.pow_add_r by lia; f_equal; lia).
  rewrite Z.mul_mod_distr_r by lia. rewrite Z.lor_comm.
  assert (0 ≤ x / 2 ^ k < 2 ^ (32 - k)) as Hd.
  { split; [apply Z.div_pos; lia|]. apply Z.div_lt_upper_bound; [lia|]. rewrite <-Z.pow_add_r by lia.
    replace (k + (32 - k)) with 32 by lia. lia. }
  rewrite <-(Z.mod_small (x / 2 ^ k) (2 ^ (32 - k))) at 1 by done.
  rewrite (lor_low_high (32 - k)); [rewrite (Z.mod_small (x / 2 ^ k)) by done; lia|lia|apply Z.mod_mul; lia].
Qed.

Lemma sigmas_fips x : word x →
  sigma0 x = Fips.Sigma0 x ∧ sigma1 x = Fips.Sigma1 x ∧ gamma0 x = Fips.s0 x ∧ gamma1 x = Fips.s1 x.
Proof.
  intros Hx. unfold sigma0, sigma1, gamma0, gamma1. rewrite !rotate_right_fips, !Z.shiftr_div_pow2 by (done || lia).
  done.
Qed.

Lemma add32_sum a b : add32 (a mod 2 ^ 32) b = (a + b) mod 2 ^ 32.
Proof. unfold add32, wrap. apply Zplus_mod_idemp_l. Qed.

(** ** The schedule *)

(** Filling an array from left to right follows any sequence [g] that the loop body
    [f] extends. *)
Lemma foldl_fill (f : list Z → nat → Z) (g : nat → list Z) a n r :
  (∀ t, length (g t) = t) →
  (∀ t r, (a ≤ t < a + n)%nat → g (S t) = g t ++ [f (g t ++ r) t]) →
  (n ≤ length r)%nat →
  foldl (λ w t, <[t := f w t]> w) (g a ++ r) (seq a n) = g (a + n)%nat ++ drop n r.
Proof.
  intros Hlen. revert a r. induction n as [|n IH]; intros a r Hg Hr; cbn [seq foldl].
  - by rewrite Nat.add_0_r, drop_0.
  - destruct r as [|x r]; cbn [length] in Hr; [lia|].
    rewrite <-(Nat.add_0_r a) at 1. rewrite <-(Hlen a) at 1. rewrite insert_app_r. cbn [insert list_insert].
    replace (g a ++ f (g a ++ x :: r) a :: r) with ((g a ++ [f (g a ++ x :: r) a]) ++ r) by by rewrite <-app_assoc.
    rewrite <-(Hg a (x :: r)) by lia. rewrite IH; [|intros; apply Hg; lia|lia].
    cbn [drop]. f_equal. f_equal. lia.
Qed.

Lemma length_W block n : length (Fips.W block n) = n.
Proof. induction n as [|n IH]; [done|]. cbn [Fips.W]. rewrite length_app, IH. simpl. lia. Qed.

Lemma at0_app l r i : (i < length l)%nat → at0 (l ++ r) i = at0 l i.
Proof. intros. unfold at0. by rewrite lookup_app_l. Qed.

Lemma at0_word l i : Forall word l → word (at0 l i).
Proof.
  intros H. unfold at0. destruct (l !! i) as [x|] eqn:E; [|by unfold word]. simpl.
  by eapply Forall_lookup_1.
Qed.

Lemma slice4 (l : list Z) i :
  (i + 4 ≤ length l)%nat → slice l i 4 = [at0 l i; at0 l (i + 1); at0 l (i + 2); at0 l (i + 3)].
Proof.
  intros Hl. apply list_eq. intros j. rewrite lookup_slice. unfold at0.
  destruct (decide (j < 4)%nat) as [Hj|Hj].
  - destruct j as [|[|[|[|j]]]]; [rewrite Nat.add_0_r|..|lia]; cbn [lookup list_lookup];
      (destruct (l !! _) eqn:E; [done|apply lookup_ge_None in E; lia]).
  - by destruct j as [|[|[|[|j]]]]; try lia.
Qed.

Lemma M_word block t : Forall is_byte block → word (Fips.M block t).
Proof.
  intros Hb. unfold Fips.M, of_be, word. assert (Forall is_byte (rev (slice block (t * 4) 4))) as Hf.
  { apply Forall_rev. unfold slice. by apply Forall_take, Forall_drop. }
  pose proof (of_le_nonneg _ Hf) as H. rewrite length_rev in H.
  assert (length (slice block (t * 4) 4) ≤ 4)%nat as Hl by (unfold slice; rewrite length_take; lia).
  assert (256 ^ Z.of_nat (length (slice block (t * 4) 4)) ≤ 256 ^ 4); [apply Z.pow_le_mono_r; lia|].
  change (256 ^ 4) with (2 ^ 32) in *. lia.
Qed.

Lemma W_words block n : Forall is_byte block → Forall word (Fips.W block n).
Proof.
  intros Hb. induction n as [|n IH]; cbn [Fips.W]; [constructor|]. apply Forall_app. split; [done|].
  constructor; [|constructor]. destruct (_ <? _)%nat; [by apply M_word|apply mod_word].
Qed.

Lemma schedule_fips block :
  length block = 64%nat → Forall is_byte block →
  extend_words (load_words block (replicate 64 0)) = Fips.W block 64.
Proof.
  intros Hl Hb. unfold load_words.
  change (replicate 64 0) with (Fips.W block 0 ++ replicate 64 0).
  rewrite (foldl_fill (λ w t, of_be [at0 block (t * 4); at0 block (t * 4 + 1); at0 block (t * 4 + 2);
    at0 block (t * 4 + 3)]) (Fips.W block)); [|apply length_W| |by rewrite length_replicate; lia].
  - unfold extend_words.
    rewrite (foldl_fill (λ w t, add32 (add32 (add32 (gamma1 (at0 w (t - 2))) (at0 w (t - 7)))
      (gamma0 (at0 w (t - 15)))) (at0 w (t - 16))) (Fips.W block));
      [|apply length_W| |by rewrite length_drop, length_replicate; simpl; lia].
    + rewrite drop_drop, drop_ge, app_nil_r by (rewrite length_replicate; lia). done.
    + intros t r Ht. cbn [Fips.W]. destruct (Nat.ltb_spec t 16); [lia|]. do 2 f_equal.
      rewrite !at0_app by (rewrite length_W; lia).
      pose proof (W_words block t Hb) as Hw.
      destruct (sigmas_fips (at0 (Fips.W block t) (t - 2)) (at0_word _ _ Hw)) as (_ & _ & _ & ->).
      destruct (sigmas_fips (at0 (Fips.W block t) (t - 15)) (at0_word _ _ Hw)) as (_ & _ & -> & _).
      unfold add32 at 3, wrap. by rewrite !add32_sum.
  - intros t r Ht. cbn [Fips.W]. destruct (Nat.ltb_spec t 16); [|lia]. do 2 f_equal.
    unfold Fips.M. by rewrite slice4 by lia.
Qed.

(** ** Compression *)

Definition vars_ok (v : vars) : Prop := Forall word (Fips.list_of v).

Lemma round_fips w v t : vars_ok v → round w v t = Fips.step w v t ∧ vars_ok (Fips.step w v t).
Proof.
  destruct v as [a b c d e f g h]. unfold vars_ok, Fips.list_of. intros Hv.
  decompose_Forall_hyps. unfold round, Fips.step. cbn [va vb vc vd ve vf vg vh].
  destruct (sigmas_fips a) as (-> & _); [done|]. destruct (sigmas_fips e) as (_ & -> & _); [done|].
  split.
  - assert (add32 (add32 (add32 (add32 h (Fips.Sigma1 e)) (ch e f g)) (at0 K t)) (at0 w t) =
      (h + Fips.Sigma1 e + ch e f g + at0 K t + at0 w t) mod 2 ^ 32) as ->.
    { unfold add32 at 4, wrap. by rewrite !add32_sum. }
    f_equal.
    + rewrite add32_sum. unfold add32, wrap. by rewrite Zplus_mod_idemp_r.
    + unfold add32, wrap. by rewrite Zplus_mod_idemp_r.
  - rewrite !Forall_cons. split_and!; try done; apply mod_word.
Qed.

Lemma rounds_fips w v l :
  vars_ok v → foldl (round w) v l = foldl (Fips.step w) v l ∧ vars_ok (foldl (Fips.step w) v l).
Proof.
  revert v. induction l as [|t l IH]; intros v Hv; [done|]. cbn [foldl].
  destruct (round_fips w v t Hv) as [-> Hv']. by apply IH.
Qed.

Lemma chunk_fips h block :
  length h = 8%nat → Forall word h → length block = 64%nat → Forall is_byte block →
  process_chunk h block = Fips.compress h block ∧ length (Fips.compress h block) = 8%nat ∧
  Forall word (Fips.compress h block).
Proof.
  intros Hh Hw Hl Hb. unfold process_chunk, Fips.compress. rewrite schedule_fips by done.
  change (mkVars _ _ _ _ _ _ _ _) with (Fips.vars_of h).
  assert (vars_ok (Fips.vars_of h)) as Hv.
  { unfold vars_ok, Fips.list_of. rewrite !Forall_cons. split_and!; try by apply at0_word. done. }
  destruct (rounds_fips (Fips.W block 64) (Fips.vars_of h) (seq 0 64) Hv) as [-> _].
  set (v := foldl _ _ _). clearbody v.
  destruct h as [|h0 [|h1 [|h2 [|h3 [|h4 [|h5 [|h6 [|h7 [|]]]]]]]]]; try done.
  split_and!; [done|done|]. cbn [zip_with Fips.list_of]. rewrite !Forall_cons.
  split_and!; try apply mod_word. done.
Qed.

Lemma chunks_blocks n fuel l :
  length l = (64 * n)%nat → (n ≤ fuel)%nat → chunks fuel l = Fips.block_of l <$> seq 0 n.
Proof.
  revert fuel l. induction n as [|n IH]; intros fuel l Hl Hf.
  - destruct l; [|done]. by destruct fuel.
  - destruct fuel as [|fuel]; [lia|].
    assert (chunks (S fuel) l = take 64 l :: chunks fuel (drop 64 l)) as ->.
    { destruct l; [simpl in Hl; lia|done]. }
    rewrite (IH fuel (drop 64 l)) by (rewrite ?length_drop; lia). cbn [seq fmap list_fmap]. f_equal.
    rewrite <-fmap_S_seq, <-list_fmap_compose. apply list_fmap_ext. intros i j _. simpl.
    unfold Fips.block_of, slice. rewrite drop_drop. do 2 f_equal. lia.
Qed.

Lemma compress_fold bs h :
  length h = 8%nat → Forall word h → Forall (λ b, length b = 64%nat ∧ Forall is_byte b) bs →
  foldl process_chunk h bs = foldl Fips.compress h bs.
Proof.
  intros Hl Hw Hbs. revert h Hl Hw. induction Hbs as [|b bs [Hb1 Hb2] _ IH]; intros h Hl Hw; [done|].
  cbn [foldl]. destruct (chunk_fips h b) as (-> & H1 & H2); try done. by apply IH.
Qed.

Lemma be_bytes_bytes n x : Forall is_byte (be_bytes n x).
Proof. apply Forall_rev, le_bytes_bytes. Qed.

Lemma sha256_eq data :
  Forall is_byte data → Z.of_nat (length data) < 2 ^ 61 → sha256 data = Fips.hash data.
Proof.
  intros Hb Hl. unfold sha256, Fips.hash. rewrite <-pad_fips by done. f_equal. f_equal.
  pose proof (pad_length data) as Hm. set (msg := pad data) in *.
  assert (length msg = 64 * (length msg / 64))%nat as Hn by (rewrite (Nat.div_mod_eq (length msg) 64) at 1; lia).
  rewrite (chunks_blocks (length msg / 64)) by lia. apply compress_fold; [done|repeat constructor; lia|].
  apply Forall_fmap, Forall_forall. intros j Hj%elem_of_seq. simpl. split.
  - apply length_slice. lia.
  - unfold Fips.block_of, slice. apply Forall_take, Forall_drop. unfold msg. rewrite pad_shape.
    rewrite !Forall_app. split_and!; [done|by repeat constructor|by apply Forall_replicate|apply be_bytes_bytes].
Qed.

(** The kernel's SHA-256 is the SHA-256 of FIPS 180-4: for every message
    shorter than 2^61 bytes the in-place routine gives the digest of the standard. *)
Theorem sha256_fips data :
  Forall is_byte data → Z.of_nat (length data) < 2 ^ 61 → sha256 data = Fips.hash data.
Proof. apply sha256_eq. Qed.

(** Logging in takes the right password: [authenticate] succeeds with a user
    exactly when the user database has that user under the name and the stored hash
    is the standard's digest of the password; and the hashes stored are those of
    the two documented passwords. *)
Theorem authenticate_exact name pw u :
  Forall is_byte pw → Z.of_nat (length pw) < 2 ^ 61 →
  (authenticate name pw = Some u ↔
     u ∈ USERS ∧ u_name u = name ∧ password_hash u = Fips.hash pw) ∧
  authenticate "root" [114; 111; 111; 116] = find_by_uid ROOT_UID ∧
  authenticate "guest" [103; 117; 101; 115; 116] = find_by_uid GUEST_UID.
Proof.
  intros Hb Hl. split; [|split; vm_compute; reflexivity].
  unfold authenticate, verify_password, hash_password. rewrite (sha256_eq pw Hb Hl).
  generalize (Fips.hash pw). intros hash. unfold find_by_name, USERS. cbn [List.find u_name].
  rewrite !elem_of_cons. repeat case_bool_decide; subst; cbn [mbind option_bind password_hash] in *;
    repeat case_bool_decide; subst; split; intros; destruct_and?; destruct_or?; simplify_eq/=;
    try done; auto; by match goal with H : _ ∈ [] |- _ => apply not_elem_of_nil in H end.
Qed.

Lemma sha256_fips_witness : sha256 [97; 98; 99] = Fips.hash [97; 98; 99].
Proof. apply (sha256_fips [97; 98; 99]); [repeat constructor; lia|cbn; lia]. Defined.

Lemma authenticate_exact_witness :
  authenticate "root" [120] = None ∧ authenticate "root" [114; 111; 111; 116] = find_by_uid ROOT_UID.
Proof.
  split; [vm_compute; reflexivity|].
  apply (authenticate_exact "root" [120] (mkUser 0 0 "" [] "" "")); [repeat constructor; lia|cbn; lia].
Defined.
