(* ===== verification/Process.v ===== *)
(** * Processes and the scheduler (src/posix/process.rs, src/namespace.rs,
      src/posix/job.rs, src/ipc/msg.rs and the trap frame of src/trap/mod.rs)

    The process control block, the kernel state the process code shares (process
    table, run, sleep and futex queues, page-table reference counts), and the
    scheduler.  A handler that calls [schedule] does not return: it is a
    computation ending in [Block].  The trap frame a handler receives is the one
    stored in the table for the current process, so the two are one value here.
    What a handler reads of user memory is an argument; what it writes is
    appended to [k_stores] with the address space that was active. *)

From Stdlib Require Import ZArith Lia.
From stdpp Require Import prelude gmap sorting strings.
From S2P Require Import Prelude Pmm Vmm Swap Handle Vmo FileLock Channel.

Local Open Scope Z_scope.

Lemma run_eta {A B} (r : A * B) (a : A) : r.1 = a → r = (a, r.2).
Proof. destruct r. simpl. by intros ->. Qed.

(** ** Numbers *)

(** [x as i32] for a [usize], and [x as usize] for an [i32]. *)
Definition to_i32 (x : Z) : Z :=
  let y := wrap 32 x in if y <? 2 ^ 31 then y else y - 2 ^ 32.
Definition to_usize (x : Z) : Z := wrap 64 x.

(** ** The process control block *)

Record TrapFrame : Type := mkTf {
  kernel_sp : Z;
  regs : list Z;
  sepc : Z;
  sstatus : Z;
  kernel_hartid : Z;
}.

Definition new_trap_frame : TrapFrame := mkTf 0 (replicate 32 0) 0 0 0.

Definition set_reg (i : nat) (v : Z) (tf : TrapFrame) : TrapFrame :=
  mkTf (kernel_sp tf) (<[i := v]> (regs tf)) (sepc tf) (sstatus tf) (kernel_hartid tf).
Definition set_sepc (pc : Z) (tf : TrapFrame) : TrapFrame :=
  mkTf (kernel_sp tf) (regs tf) pc (sstatus tf) (kernel_hartid tf).
Definition set_kernel_sp (sp : Z) (tf : TrapFrame) : TrapFrame :=
  mkTf sp (regs tf) (sepc tf) (sstatus tf) (kernel_hartid tf).
Definition set_hartid (h : Z) (tf : TrapFrame) : TrapFrame :=
  mkTf (kernel_sp tf) (regs tf) (sepc tf) (sstatus tf) h.
Definition reg (i : nat) (tf : TrapFrame) : Z := default 0 (regs tf !! i).

(** [tf.sepc += n] and [tf.sepc -= n]. *)
Definition add_sepc (n : Z) (tf : TrapFrame) : TrapFrame := set_sepc (wrap 64 (sepc tf + n)) tf.

Record Message : Type := mkMessage { source : Z; type_ : Z; data : list Z }.

(** The 64 bytes of a message in memory. *)
Definition message_bytes (m : Message) : list Z :=
  le_bytes 4 (wrap 32 (source m)) ++ le_bytes 4 (wrap 32 (type_ m)) ++ data m.
Definition message_of (bs : list Z) : Message :=
  mkMessage (to_i32 (of_le (take 4 bs))) (to_i32 (of_le (take 4 (drop 4 bs))))
            (take 56 (drop 8 bs)).

Inductive ProcState : Type := Running | Stopped | Zombie (status : Z).

Inductive IpcState : Type :=
  | INone
  | Sending (target : Z) (msg : Message) (reply_msg_ptr : option Z)
  | Receiving (source msg_ptr : Z)
  | ReceivingReply (source msg_ptr : Z)
  | MessageAvailable (msg : Message)
  | SendComplete
  | LockWaiting (lock_id l_type l_start l_end : Z).

(** Namespaces are shared objects, held by identifier. *)
Record NsSet : Type := mkNs { ns_mnt : Z; ns_pid : Z; ns_net : Z }.

Definition CAP_NONE : Z := 0.
Definition CAP_MMIO : Z := 1.
Definition CAP_DATACOPY : Z := 2.
Definition CAP_NET_RAW : Z := 4.
Definition CAP_PROCESS : Z := 8.
Definition CAP_INTERRUPT : Z := 16.
Definition CAP_SYS_ADMIN : Z := 32.
Definition CAP_DRIVER : Z := 64.
Definition CAP_NET_ADMIN : Z := 128.
Definition CAP_MOUNT : Z := 256.
Definition CAP_KILL_ANY : Z := 512.

Definition PRIO_REALTIME : Z := 0.
Definition PRIO_HIGH : Z := 8.
Definition PRIO_NORMAL : Z := 16.
Definition PRIO_LOW : Z := 24.
Definition PRIO_IDLE : Z := 31.

(** The fields of [Process], grouped by the part of the kernel that uses them. *)
Record Family : Type := mkFamily {
  tgid : Z; ppid : Z; pgid : Z; sid : Z; children : list Z }.
Record Creds : Type := mkCreds { uid : Z; gid : Z; euid : Z; egid : Z; caps : Z }.
Record Space : Type := mkSpace {
  satp_val : Z; next_mmap : Z; heap_break : Z; kernel_stack_bottom : Z; clear_tid_ptr : Z }.
Record Waits : Type := mkWaits {
  wait_target : option Z; wait_status_ptr : option Z; wait_result : list (Z * Z) }.
Record Ipc : Type := mkIpc {
  mailbox : list (Z * list Z); mailbox_waiter : Z;
  ipc_state : IpcState; senders : list Z; irq_pending : list Message }.
Record Signals : Type := mkSignals {
  pending_signals : Z; blocked_signals : Z;
  signal_handlers : list Z; signal_restorers : list Z; signal_masks : list Z }.

Record Process : Type := mkProcess {
  pid : Z;
  family : Family;
  creds : Creds;
  priority : Z;
  state : ProcState;
  fds : handle_table kobject;
  trap_frame : TrapFrame;
  space : Space;
  waits : Waits;
  ipc : Ipc;
  signals : Signals;
  cwd : string;
  proc_job : Z;
  ns : NsSet;
}.

Definition with_family (x : Family) (p : Process) : Process :=
  mkProcess (pid p) x (creds p) (priority p) (state p) (fds p) (trap_frame p) (space p)
    (waits p) (ipc p) (signals p) (cwd p) (proc_job p) (ns p).
Definition with_creds (x : Creds) (p : Process) : Process :=
  mkProcess (pid p) (family p) x (priority p) (state p) (fds p) (trap_frame p) (space p)
    (waits p) (ipc p) (signals p) (cwd p) (proc_job p) (ns p).
Definition with_priority (x : Z) (p : Process) : Process :=
  mkProcess (pid p) (family p) (creds p) x (state p) (fds p) (trap_frame p) (space p)
    (waits p) (ipc p) (signals p) (cwd p) (proc_job p) (ns p).
Definition with_state (x : ProcState) (p : Process) : Process :=
  mkProcess (pid p) (family p) (creds p) (priority p) x (fds p) (trap_frame p) (space p)
    (waits p) (ipc p) (signals p) (cwd p) (proc_job p) (ns p).
Definition with_fds (x : handle_table kobject) (p : Process) : Process :=
  mkProcess (pid p) (family p) (creds p) (priority p) (state p) x (trap_frame p) (space p)
    (waits p) (ipc p) (signals p) (cwd p) (proc_job p) (ns p).
Definition with_tf (x : TrapFrame) (p : Process) : Process :=
  mkProcess (pid p) (family p) (creds p) (priority p) (state p) (fds p) x (space p)
    (waits p) (ipc p) (signals p) (cwd p) (proc_job p) (ns p).
Definition with_space (x : Space) (p : Process) : Process :=
  mkProcess (pid p) (family p) (creds p) (priority p) (state p) (fds p) (trap_frame p) x
    (waits p) (ipc p) (signals p) (cwd p) (proc_job p) (ns p).
Definition with_waits (x : Waits) (p : Process) : Process :=
  mkProcess (pid p) (family p) (creds p) (priority p) (state p) (fds p) (trap_frame p) (space p)
    x (ipc p) (signals p) (cwd p) (proc_job p) (ns p).
Definition with_ipc (x : Ipc) (p : Process) : Process :=
  mkProcess (pid p) (family p) (creds p) (priority p) (state p) (fds p) (trap_frame p) (space p)
    (waits p) x (signals p) (cwd p) (proc_job p) (ns p).
Definition with_signals (x : Signals) (p : Process) : Process :=
  mkProcess (pid p) (family p) (creds p) (priority p) (state p) (fds p) (trap_frame p) (space p)
    (waits p) (ipc p) x (cwd p) (proc_job p) (ns p).
Definition with_ns (x : NsSet) (p : Process) : Process :=
  mkProcess (pid p) (family p) (creds p) (priority p) (state p) (fds p) (trap_frame p) (space p)
    (waits p) (ipc p) (signals p) (cwd p) (proc_job p) x.

Definition on_tf (f : TrapFrame → TrapFrame) (p : Process) : Process :=
  with_tf (f (trap_frame p)) p.
Definition set_ipc_state (x : IpcState) (p : Process) : Process :=
  with_ipc (mkIpc (mailbox (ipc p)) (mailbox_waiter (ipc p)) x (senders (ipc p))
              (irq_pending (ipc p))) p.
Definition set_senders (x : list Z) (p : Process) : Process :=
  with_ipc (mkIpc (mailbox (ipc p)) (mailbox_waiter (ipc p)) (ipc_state (ipc p)) x
              (irq_pending (ipc p))) p.
Definition set_irq_pending (x : list Message) (p : Process) : Process :=
  with_ipc (mkIpc (mailbox (ipc p)) (mailbox_waiter (ipc p)) (ipc_state (ipc p))
              (senders (ipc p)) x) p.
Definition set_mailbox (x : list (Z * list Z)) (w : Z) (p : Process) : Process :=
  with_ipc (mkIpc x w (ipc_state (ipc p)) (senders (ipc p)) (irq_pending (ipc p))) p.
Definition set_children (x : list Z) (p : Process) : Process :=
  with_family (mkFamily (tgid (family p)) (ppid (family p)) (pgid (family p))
                 (sid (family p)) x) p.
Definition set_ppid (x : Z) (p : Process) : Process :=
  with_family (mkFamily (tgid (family p)) x (pgid (family p)) (sid (family p))
                 (children (family p))) p.
Definition set_wait_target (t : option Z) (ptr : option Z) (p : Process) : Process :=
  with_waits (mkWaits t ptr (wait_result (waits p))) p.
Definition set_wait_result (r : list (Z * Z)) (p : Process) : Process :=
  with_waits (mkWaits (wait_target (waits p)) (wait_status_ptr (waits p)) r) p.
Definition set_pending (x : Z) (p : Process) : Process :=
  with_signals (mkSignals x (blocked_signals (signals p)) (signal_handlers (signals p))
                  (signal_restorers (signals p)) (signal_masks (signals p))) p.
Definition set_blocked (x : Z) (p : Process) : Process :=
  with_signals (mkSignals (pending_signals (signals p)) x (signal_handlers (signals p))
                  (signal_restorers (signals p)) (signal_masks (signals p))) p.
Definition set_satp (x : Z) (p : Process) : Process :=
  with_space (mkSpace x (next_mmap (space p)) (heap_break (space p))
                (kernel_stack_bottom (space p)) (clear_tid_ptr (space p))) p.
Definition set_clear_tid (x : Z) (p : Process) : Process :=
  with_space (mkSpace (satp_val (space p)) (next_mmap (space p)) (heap_break (space p))
                (kernel_stack_bottom (space p)) x) p.
Definition set_caps (x : Z) (p : Process) : Process :=
  with_creds (mkCreds (uid (creds p)) (gid (creds p)) (euid (creds p)) (egid (creds p)) x) p.

Definition is_zombie (p : Process) : bool :=
  match state p with Zombie _ => true | _ => false end.
Definition is_stopped (p : Process) : bool :=
  match state p with Stopped => true | _ => false end.

(** ** The kernel state *)

Record kjob : Type := mkKjob {
  kj_parent : option Z; kj_children : list Z; kj_processes : list Z; kj_limits : job }.

Record kernel : Type := mkKernel {
  k_procs : gmap Z Process;
  (** Buckets in increasing priority number, each a FIFO. *)
  k_runq : list (Z * list Z);
  k_sleep : list (Z * Z);
  k_futex : gmap Z (list Z);
  k_satp_refs : gmap Z Z;
  k_irq_handlers : gmap Z Z;
  k_file_locks : gmap Z (list lock_entry);
  k_lock_waiters : gmap Z (list lock_entry);
  k_next_pid : Z;
  k_foreground : Z;
  (** Of the executing HART: its number, current process and [satp]. *)
  k_hart : Z;
  k_current : Z;
  k_satp : Z;
  (** The word at the bottom of each live kernel stack. *)
  k_kstacks : gmap Z Z;
  k_jobs : gmap Z kjob;
  k_root_job : option Z;
  k_next_ns : Z;
  k_root_ns : option NsSet;
  k_ttys : Z;
  k_active_tty : option Z;
  k_kernel_root : list Z;
  k_chan : chan_st;
  k_mm : kst;
  (** Stores to user memory: root page table, address, bytes. *)
  k_stores : list (Z * Z * list Z);
}.

Definition with_procs (x : gmap Z Process) (k : kernel) : kernel :=
  mkKernel x (k_runq k) (k_sleep k) (k_futex k) (k_satp_refs k) (k_irq_handlers k)
    (k_file_locks k) (k_lock_waiters k) (k_next_pid k) (k_foreground k) (k_hart k)
    (k_current k) (k_satp k) (k_kstacks k) (k_jobs k) (k_root_job k) (k_next_ns k)
    (k_root_ns k) (k_ttys k) (k_active_tty k) (k_kernel_root k) (k_chan k) (k_mm k) (k_stores k).
Definition with_runq (x : list (Z * list Z)) (k : kernel) : kernel :=
  mkKernel (k_procs k) x (k_sleep k) (k_futex k) (k_satp_refs k) (k_irq_handlers k)
    (k_file_locks k) (k_lock_waiters k) (k_next_pid k) (k_foreground k) (k_hart k)
    (k_current k) (k_satp k) (k_kstacks k) (k_jobs k) (k_root_job k) (k_next_ns k)
    (k_root_ns k) (k_ttys k) (k_active_tty k) (k_kernel_root k) (k_chan k) (k_mm k) (k_stores k).
Definition with_sleep (x : list (Z * Z)) (k : kernel) : kernel :=
  mkKernel (k_procs k) (k_runq k) x (k_futex k) (k_satp_refs k) (k_irq_handlers k)
    (k_file_locks k) (k_lock_waiters k) (k_next_pid k) (k_foreground k) (k_hart k)
    (k_current k) (k_satp k) (k_kstacks k) (k_jobs k) (k_root_job k) (k_next_ns k)
    (k_root_ns k) (k_ttys k) (k_active_tty k) (k_kernel_root k) (k_chan k) (k_mm k) (k_stores k).
Definition with_futex (x : gmap Z (list Z)) (k : kernel) : kernel :=
  mkKernel (k_procs k) (k_runq k) (k_sleep k) x (k_satp_refs k) (k_irq_handlers k)
    (k_file_locks k) (k_lock_waiters k) (k_next_pid k) (k_foreground k) (k_hart k)
    (k_current k) (k_satp k) (k_kstacks k) (k_jobs k) (k_root_job k) (k_next_ns k)
    (k_root_ns k) (k_ttys k) (k_active_tty k) (k_kernel_root k) (k_chan k) (k_mm k) (k_stores k).
Definition with_satp_refs (x : gmap Z Z) (k : kernel) : kernel :=
  mkKernel (k_procs k) (k_runq k) (k_sleep k) (k_futex k) x (k_irq_handlers k)
    (k_file_locks k) (k_lock_waiters k) (k_next_pid k) (k_foreground k) (k_hart k)
    (k_current k) (k_satp k) (k_kstacks k) (k_jobs k) (k_root_job k) (k_next_ns k)
    (k_root_ns k) (k_ttys k) (k_active_tty k) (k_kernel_root k) (k_chan k) (k_mm k) (k_stores k).
Definition with_irq (x : gmap Z Z) (k : kernel) : kernel :=
  mkKernel (k_procs k) (k_runq k) (k_sleep k) (k_futex k) (k_satp_refs k) x
    (k_file_locks k) (k_lock_waiters k) (k_next_pid k) (k_foreground k) (k_hart k)
    (k_current k) (k_satp k) (k_kstacks k) (k_jobs k) (k_root_job k) (k_next_ns k)
    (k_root_ns k) (k_ttys k) (k_active_tty k) (k_kernel_root k) (k_chan k) (k_mm k) (k_stores k).
Definition with_locks (x w : gmap Z (list lock_entry)) (k : kernel) : kernel :=
  mkKernel (k_procs k) (k_runq k) (k_sleep k) (k_futex k) (k_satp_refs k) (k_irq_handlers k)
    x w (k_next_pid k) (k_foreground k) (k_hart k)
    (k_current k) (k_satp k) (k_kstacks k) (k_jobs k) (k_root_job k) (k_next_ns k)
    (k_root_ns k) (k_ttys k) (k_active_tty k) (k_kernel_root k) (k_chan k) (k_mm k) (k_stores k).
Definition with_next_pid (x : Z) (k : kernel) : kernel :=
  mkKernel (k_procs k) (k_runq k) (k_sleep k) (k_futex k) (k_satp_refs k) (k_irq_handlers k)
    (k_file_locks k) (k_lock_waiters k) x (k_foreground k) (k_hart k)
    (k_current k) (k_satp k) (k_kstacks k) (k_jobs k) (k_root_job k) (k_next_ns k)
    (k_root_ns k) (k_ttys k) (k_active_tty k) (k_kernel_root k) (k_chan k) (k_mm k) (k_stores k).
Definition with_current (x satp : Z) (k : kernel) : kernel :=
  mkKernel (k_procs k) (k_runq k) (k_sleep k) (k_futex k) (k_satp_refs k) (k_irq_handlers k)
    (k_file_locks k) (k_lock_waiters k) (k_next_pid k) (k_foreground k) (k_hart k)
    x satp (k_kstacks k) (k_jobs k) (k_root_job k) (k_next_ns k)
    (k_root_ns k) (k_ttys k) (k_active_tty k) (k_kernel_root k) (k_chan k) (k_mm k) (k_stores k).
Definition with_kstacks (x : gmap Z Z) (k : kernel) : kernel :=
  mkKernel (k_procs k) (k_runq k) (k_sleep k) (k_futex k) (k_satp_refs k) (k_irq_handlers k)
    (k_file_locks k) (k_lock_waiters k) (k_next_pid k) (k_foreground k) (k_hart k)
    (k_current k) (k_satp k) x (k_jobs k) (k_root_job k) (k_next_ns k)
    (k_root_ns k) (k_ttys k) (k_active_tty k) (k_kernel_root k) (k_chan k) (k_mm k) (k_stores k).
Definition with_jobs (x : gmap Z kjob) (root : option Z) (k : kernel) : kernel :=
  mkKernel (k_procs k) (k_runq k) (k_sleep k) (k_futex k) (k_satp_refs k) (k_irq_handlers k)
    (k_file_locks k) (k_lock_waiters k) (k_next_pid k) (k_foreground k) (k_hart k)
    (k_current k) (k_satp k) (k_kstacks k) x root (k_next_ns k)
    (k_root_ns k) (k_ttys k) (k_active_tty k) (k_kernel_root k) (k_chan k) (k_mm k) (k_stores k).
Definition with_next_ns (x : Z) (k : kernel) : kernel :=
  mkKernel (k_procs k) (k_runq k) (k_sleep k) (k_futex k) (k_satp_refs k) (k_irq_handlers k)
    (k_file_locks k) (k_lock_waiters k) (k_next_pid k) (k_foreground k) (k_hart k)
    (k_current k) (k_satp k) (k_kstacks k) (k_jobs k) (k_root_job k) x
    (k_root_ns k) (k_ttys k) (k_active_tty k) (k_kernel_root k) (k_chan k) (k_mm k) (k_stores k).
Definition with_ttys (n : Z) (active : option Z) (k : kernel) : kernel :=
  mkKernel (k_procs k) (k_runq k) (k_sleep k) (k_futex k) (k_satp_refs k) (k_irq_handlers k)
    (k_file_locks k) (k_lock_waiters k) (k_next_pid k) (k_foreground k) (k_hart k)
    (k_current k) (k_satp k) (k_kstacks k) (k_jobs k) (k_root_job k) (k_next_ns k)
    (k_root_ns k) n active (k_kernel_root k) (k_chan k) (k_mm k) (k_stores k).
Definition with_foreground (x : Z) (k : kernel) : kernel :=
  mkKernel (k_procs k) (k_runq k) (k_sleep k) (k_futex k) (k_satp_refs k) (k_irq_handlers k)
    (k_file_locks k) (k_lock_waiters k) (k_next_pid k) x (k_hart k)
    (k_current k) (k_satp k) (k_kstacks k) (k_jobs k) (k_root_job k) (k_next_ns k)
    (k_root_ns k) (k_ttys k) (k_active_tty k) (k_kernel_root k) (k_chan k) (k_mm k) (k_stores k).
Definition with_chan (x : chan_st) (k : kernel) : kernel :=
  mkKernel (k_procs k) (k_runq k) (k_sleep k) (k_futex k) (k_satp_refs k) (k_irq_handlers k)
    (k_file_locks k) (k_lock_waiters k) (k_next_pid k) (k_foreground k) (k_hart k)
    (k_current k) (k_satp k) (k_kstacks k) (k_jobs k) (k_root_job k) (k_next_ns k)
    (k_root_ns k) (k_ttys k) (k_active_tty k) (k_kernel_root k) x (k_mm k) (k_stores k).
Definition with_mm (x : kst) (k : kernel) : kernel :=
  mkKernel (k_procs k) (k_runq k) (k_sleep k) (k_futex k) (k_satp_refs k) (k_irq_handlers k)
    (k_file_locks k) (k_lock_waiters k) (k_next_pid k) (k_foreground k) (k_hart k)
    (k_current k) (k_satp k) (k_kstacks k) (k_jobs k) (k_root_job k) (k_next_ns k)
    (k_root_ns k) (k_ttys k) (k_active_tty k) (k_kernel_root k) (k_chan k) x (k_stores k).
Definition with_stores (x : list (Z * Z * list Z)) (k : kernel) : kernel :=
  mkKernel (k_procs k) (k_runq k) (k_sleep k) (k_futex k) (k_satp_refs k) (k_irq_handlers k)
    (k_file_locks k) (k_lock_waiters k) (k_next_pid k) (k_foreground k) (k_hart k)
    (k_current k) (k_satp k) (k_kstacks k) (k_jobs k) (k_root_job k) (k_next_ns k)
    (k_root_ns k) (k_ttys k) (k_active_tty k) (k_kernel_root k) (k_chan k) (k_mm k) x.

Definition upd_proc (q : Z) (f : Process → Process) (k : kernel) : kernel :=
  with_procs (alter f q (k_procs k)) k.
Definition proc_of (q : Z) (k : kernel) : option Process := k_procs k !! q.

(** A store through the address space that is active on this HART. *)
Definition store_user (va : Z) (bs : list Z) (k : kernel) : kernel :=
  with_stores (k_stores k ++ [(satp_root (k_satp k), va, bs)]) k.

(** An operation of the memory manager. *)
Definition on_mm {A} (c : M kst A) : M kernel A := λ k,
  let '(r, s) := c (k_mm k) in (r, with_mm s k).

(** How a handler ends: back to the trap handler, or by [schedule]. *)
Inductive control : Type := Return | Block.

(** [tf.regs[10] = v; return]. *)
Definition set_a0 (v : Z) (k : kernel) : kernel :=
  upd_proc (k_current k) (on_tf (set_reg 10 v)) k.
Definition ret (v : Z) : M kernel control := modify (set_a0 v) ;; mret Return.

(** [get_current_proc_or_esrch!]: the trap frame of a process that is gone is no
    longer reachable from the table. *)
Definition current_or_esrch (f : Process → M kernel control) : M kernel control := λ k,
  match proc_of (k_current k) k with
  | Some p => f p k
  | None => (Ok Return, k)
  end.

(** ** The run queue *)

Fixpoint rq_push (prio q : Z) (rq : list (Z * list Z)) : list (Z * list Z) :=
  match rq with
  | [] => [(prio, [q])]
  | (p, b) :: rq' =>
      if prio <? p then (prio, [q]) :: rq
      else if prio =? p then (p, b ++ [q]) :: rq'
      else (p, b) :: rq_push prio q rq'
  end.

Definition rq_pop (rq : list (Z * list Z)) : option Z * list (Z * list Z) :=
  match rq with
  | [] => (None, [])
  | (p, b) :: rq' =>
      match b with
      | [] => (None, rq')
      | [q] => (Some q, rq')
      | q :: b' => (Some q, (p, b') :: rq')
      end
  end.

Definition enqueue_with_prio (q prio : Z) (k : kernel) : kernel :=
  with_runq (rq_push prio q (k_runq k)) k.
Definition enqueue_pid (q : Z) (k : kernel) : kernel :=
  enqueue_with_prio q (from_option priority PRIO_NORMAL (proc_of q k)) k.

(** [*state = Running; enqueue_with_prio(pid, prio)], for a process of the table. *)
Definition make_runnable (q : Z) (k : kernel) : kernel :=
  match proc_of q k with
  | Some p => enqueue_with_prio q (priority p) (upd_proc q (with_state Running) k)
  | None => k
  end.
Definition wake_if_stopped (q : Z) (k : kernel) : kernel :=
  match proc_of q k with
  | Some p => if is_stopped p then make_runnable q k else k
  | None => k
  end.

(** ** The scheduler *)

Definition KSTACK_CANARY : Z := 0xDEADC0DEDEADC0DE.

Inductive sched : Type := Dispatch (q : Z) | Wfi | Again.

(** Switch to a process: state, current pid, address space and HART number. *)
Definition dispatch (q : Z) (k : kernel) : kernel :=
  match proc_of q k with
  | Some p =>
      with_current q (satp_val (space p))
        (upd_proc q (λ p, on_tf (set_hartid (k_hart k)) (with_state Running p)) k)
  | None => k
  end.

(** One turn of the loop of [schedule]. *)
Definition schedule_turn : M kernel sched := λ k,
  let '(next, rq) := rq_pop (k_runq k) in
  let k1 := with_runq rq k in
  match next with
  | None => (Ok Wfi, with_current 0 (k_satp k1) k1)
  | Some q =>
      match proc_of q k1 with
      | None => (Ok Again, k1)
      | Some p =>
          if is_zombie p then (Ok Again, k1)
          else if negb (kernel_stack_bottom (space p) =? 0) &&
                  negb (default 0 (k_kstacks k1 !! kernel_stack_bottom (space p)) =? KSTACK_CANARY)
          then (Panic "kernel stack overflow detected", k1)
          else (Ok (Dispatch q), dispatch q k1)
      end
  end.

(** The loop, until it enters user mode or waits for an interrupt. *)
Fixpoint schedule (fuel : nat) : M kernel sched :=
  match fuel with
  | O => mret Again
  | S n => r ← schedule_turn;
           match r with Again => schedule n | _ => mret r end
  end.

(** ** Sleeping *)

(** [Vec::swap_remove]. *)
Definition swap_remove {A} (i : nat) (l : list A) : list A :=
  match last l with
  | Some x => take (length l - 1) (<[i := x]> l)
  | None => l
  end.

Fixpoint wake_loop_sleep (fuel : nat) (now : Z) (i : nat) (k : kernel) : kernel :=
  match fuel with
  | O => k
  | S n =>
      match k_sleep k !! i with
      | None => k
      | Some (q, t) =>
          if t <=? now
          then wake_loop_sleep n now i (make_runnable q (with_sleep (swap_remove i (k_sleep k)) k))
          else wake_loop_sleep n now (S i) k
      end
  end.

(** Each turn removes an entry or moves past one, so the length is enough fuel. *)
Definition wake_sleepers (now : Z) (k : kernel) : kernel :=
  wake_loop_sleep (length (k_sleep k)) now 0 k.

(** ** Shared page tables *)

Definition satp_share (root_pa : Z) (k : kernel) : kernel :=
  with_satp_refs (<[root_pa := wrap 64 (default 1 (k_satp_refs k !! root_pa) + 1)]> (k_satp_refs k)) k.

Definition satp_unshare (root_pa : Z) (k : kernel) : bool * kernel :=
  match k_satp_refs k !! root_pa with
  | Some count =>
      let remaining := wrap 64 (count - 1) in
      if remaining =? 0
      then (true, with_satp_refs (delete root_pa (k_satp_refs k)) k)
      else (false, with_satp_refs (<[root_pa := remaining]> (k_satp_refs k)) k)
  | None => (true, k)
  end.

(** ** Namespaces and jobs *)

Definition CLONE_NEWNS : Z := 0x20000.
Definition CLONE_NEWPID : Z := 0x20000000.
Definition CLONE_NEWNET : Z := 0x40000000.

Definition alloc_ns_id : M kernel Z := λ k,
  (Ok (k_next_ns k), with_next_ns (wrap 32 (k_next_ns k + 1)) k).

(** A forked namespace is a fresh one. *)
Definition fork_from (parent : NsSet) (clone_flags : Z) : M kernel NsSet :=
  mnt ← (if has_flag clone_flags CLONE_NEWNS then alloc_ns_id else mret (ns_mnt parent));
  pidns ← (if has_flag clone_flags CLONE_NEWPID then alloc_ns_id else mret (ns_pid parent));
  net ← (if has_flag clone_flags CLONE_NEWNET then alloc_ns_id else mret (ns_net parent));
  mret (mkNs mnt pidns net).

Definition root_ns : M kernel NsSet := λ k,
  match k_root_ns k with
  | Some n => (Ok n, k)
  | None => (Panic "called `Option::unwrap()` on a `None` value", k)
  end.

Definition new_job (parent : option Z) : kjob := mkKjob parent [] [] (mkJob usize_max 0).

(** A job's identity is its place in the arena. *)
Definition fresh_job (k : kernel) : Z := Z.of_nat (size (k_jobs k)).

Definition get_root_job : M kernel Z := λ k,
  match k_root_job k with
  | Some j => (Ok j, k)
  | None => let j := fresh_job k in
            (Ok j, with_jobs (<[j := new_job None]> (k_jobs k)) (Some j) k)
  end.

Definition job_push (j q : Z) (k : kernel) : kernel :=
  with_jobs (alter (λ x, mkKjob (kj_parent x) (kj_children x) (kj_processes x ++ [q])
                            (kj_limits x)) j (k_jobs k)) (k_root_job k) k.

(** ** Creating a process *)

Definition generate_pid : M kernel Z := λ k,
  (Ok (k_next_pid k), with_next_pid (to_i32 (k_next_pid k + 1)) k).

Definition aslr_rand (time hart : Z) : Z :=
  wrap 64 (wrap 64 (time * 0x9E3779B9) + wrap 64 (hart * 0x10001)).

Definition MAX_PROCESSES : Z := 512.
Definition KERNEL_STACK_SIZE : Z := 65536.

(** The parent's handles, and its close-on-exec marks. *)
Definition inherit_fds (parent : handle_table kobject) : handle_table kobject :=
  let copied := foldl (λ t h,
      match ht_map parent !! h with
      | Some e => insert_entry (encode_handle h (he_generation e)) e t
      | None => t
      end) new_table (sorted_keys (ht_map parent)) in
  foldl (λ t h, set_cloexec h true t) copied (merge_sort Z.le (elements (ht_cloexec parent))).

(** A fresh TTY, made active, on the three standard handles. *)
Definition tty_fds : M kernel (handle_table kobject) := λ k,
  let t := k_ttys k in
  (Ok (insert_at 2 (KTty t) (insert_at 1 (KTty t) (insert_at 0 (KTty t) new_table))),
   with_ttys (t + 1) (Some t) k).

(** What a process starts with: credentials, working directory, signal set-up,
    process group and session, namespaces. *)
Definition inherited (ppid q : Z) : M kernel (Creds * string * Signals * Z * Z * NsSet) := λ k,
  match (if ppid =? 0 then None else proc_of ppid k) with
  | Some par =>
      let sg := signals par in
      (ns' ← fork_from (ns par) 0;
       mret (creds par, cwd par,
         mkSignals 0 (blocked_signals sg) (signal_handlers sg) (signal_restorers sg)
           (signal_masks sg), pgid (family par), sid (family par), ns')) k
  | None =>
      (ns' ← root_ns;
       mret (mkCreds 0 0 0 0 CAP_NONE, "/"%string,
         mkSignals 0 0 (replicate 32 0) (replicate 32 0) (replicate 32 0), q, q, ns')) k
  end.

(** [kstack] is what the kernel heap returned for the stack (0 when it is
    exhausted) and [t1], [t2] the two readings of the time counter. *)
Definition process_new (ppid kstack t1 t2 : Z) : M kernel Process :=
  n ← gets (λ k, Z.of_nat (size (k_procs k)));
  if MAX_PROCESSES <=? n then fail "process limit reached" else
  q ← generate_pid;
  kr ← gets k_kernel_root;
  pt_addr ← match_result (on_mm (on_pmm (new_process_table kr))) mret
              (λ _, fail "OOM: failed to create page table for process");
  let satp := Z.lor (Z.shiftl 8 60) (Z.shiftr pt_addr 12) in
  if kstack =? 0 then
    match_result (on_mm (on_pmm (destroy_user_space (Z.shiftl (Z.shiftr pt_addr 12) 12))))
      (λ _, mret tt) (λ _, mret tt) ;;
    fail "OOM: failed to allocate kernel stack"
  else
  modify (λ k, with_kstacks (<[kstack := KSTACK_CANARY]> (k_kstacks k)) k) ;;
  fds ← (if ppid =? 0 then tty_fds
         else gets (λ k, from_option (λ p, inherit_fds (fds p)) new_table (proc_of ppid k)));
  '(cr, dir, sg, pg, sd, ns') ← inherited ppid q;
  jb ← (λ k, match (if ppid =? 0 then None else proc_of ppid k) with
             | Some par => (Ok (proc_job par), k)
             | None => get_root_job k
             end);
  modify (job_push jb q) ;;
  h ← gets k_hart;
  let p := mkProcess q (mkFamily q ppid pg sd []) cr PRIO_NORMAL Running fds
      (set_kernel_sp (wrap 64 (kstack + KERNEL_STACK_SIZE)) new_trap_frame)
      (mkSpace satp (page_floor (wrap 64 (0x400000000 + Z.land (aslr_rand t1 h) 0x0FFFFFFF)))
         (wrap 64 (0x200000000 + Z.land (aslr_rand t2 h) 0x00FFFFFF)) kstack 0)
      (mkWaits None None []) (mkIpc [] 0 INone [] []) sg dir jb ns' in
  modify (λ k, with_procs (<[q := p]> (k_procs k)) k) ;;
  (if ppid =? 0 then mret tt
   else modify (upd_proc ppid (λ par, set_children (children (family par) ++ [q]) par))) ;;
  mret p.

(** ** The run queue is a stable priority queue *)

(** The specification: one list in the order of dispatch; a new entry goes behind
    everything at least as urgent. *)
Fixpoint pq_insert (prio q : Z) (l : list (Z * Z)) : list (Z * Z) :=
  match l with
  | [] => [(prio, q)]
  | (p, x) :: l' => if prio <? p then (prio, q) :: l else (p, x) :: pq_insert prio q l'
  end.

Definition rq_abs (rq : list (Z * list Z)) : list (Z * Z) :=
  rq ≫= λ '(p, b), pair p <$> b.

(** Keys increase and no bucket is empty. *)
Definition rq_wf (rq : list (Z * list Z)) : Prop :=
  StronglySorted Z.lt rq.*1 ∧ Forall (λ e, e.2 ≠ []) rq.

Lemma pq_insert_behind (prio q : Z) (l1 l2 : list (Z * Z)) :
  Forall (λ e, e.1 ≤ prio) l1 →
  pq_insert prio q (l1 ++ l2) = l1 ++ pq_insert prio q l2.
Proof.
  induction 1 as [|[p x] l1 Hp _ IH]; [done|]. simpl in *.
  destruct (Z.ltb_spec prio p); [lia|]. by rewrite IH.
Qed.

Lemma pq_insert_front (prio q : Z) (l : list (Z * Z)) :
  Forall (λ e, prio < e.1) l → pq_insert prio q l = (prio, q) :: l.
Proof.
  destruct 1 as [|[p x] l Hp _]; [done|]. simpl in *.
  by destruct (Z.ltb_spec prio p); [|lia].
Qed.

Lemma rq_abs_keys (P : Z → Prop) (rq : list (Z * list Z)) :
  Forall P rq.*1 → Forall (λ e, P e.1) (rq_abs rq).
Proof.
  unfold rq_abs. induction rq as [|[p b] rq IH]; [by constructor|]. simpl.
  intros [Hp Hrq]%Forall_cons. apply Forall_app. split; [|by apply IH].
  by apply Forall_fmap, Forall_true.
Qed.

Lemma rq_push_keys (P : Z → Prop) (prio q : Z) (rq : list (Z * list Z)) :
  P prio → Forall P rq.*1 → Forall P (rq_push prio q rq).*1.
Proof.
  induction rq as [|[p b] rq IH]; intros HP; simpl; [by repeat constructor|].
  intros [Hp Hrq]%Forall_cons.
  destruct (prio <? p); [|destruct (prio =? p)]; simpl; rewrite ?Forall_cons; auto.
Qed.

Lemma rq_push_wf (prio q : Z) (rq : list (Z * list Z)) :
  rq_wf rq → rq_wf (rq_push prio q rq).
Proof.
  unfold rq_wf. induction rq as [|[p b] rq IH]; intros [Hs Hn]; simpl.
  { split; repeat constructor; done. }
  apply StronglySorted_inv in Hs as [Hs Hp]. apply Forall_cons in Hn as [Hb Hn].
  simpl in *. destruct (Z.ltb_spec prio p); [|destruct (Z.eqb_spec prio p)]; simpl.
  - split.
    + constructor; [by constructor|]. constructor; [done|].
      eapply Forall_impl; [done|]. simpl; intros; lia.
    + constructor; [done|]. by constructor.
  - split; [by constructor|]. constructor; [|done]. simpl. by destruct b.
  - destruct IH as [Hs' Hn']; [done|]. split; [|by constructor].
    constructor; [done|]. apply rq_push_keys; [lia|done].
Qed.

Lemma rq_push_abs (prio q : Z) (rq : list (Z * list Z)) :
  rq_wf rq → rq_abs (rq_push prio q rq) = pq_insert prio q (rq_abs rq).
Proof.
  unfold rq_wf. induction rq as [|[p b] rq IH]; intros [Hs Hn]; [done|].
  apply StronglySorted_inv in Hs as [Hs Hp]. apply Forall_cons in Hn as [Hb Hn]. simpl in *.
  assert (Forall (λ e, p < e.1) (rq_abs rq)) as Habs by (by apply rq_abs_keys).
  destruct (Z.ltb_spec prio p) as [Hlt|Hge]; [|destruct (Z.eqb_spec prio p) as [->|Hne]].
  - rewrite pq_insert_front; [done|]. apply Forall_app. split.
    + by apply Forall_fmap, Forall_true.
    + eapply Forall_impl; [done|]. simpl; intros; lia.
  - rewrite pq_insert_behind by (apply Forall_fmap, Forall_true; simpl; lia).
    fold (rq_abs rq). rewrite pq_insert_front by done.
    change (rq_abs ((p, b ++ [q]) :: rq)) with ((pair p <$> (b ++ [q])) ++ rq_abs rq).
    by rewrite fmap_app, <-app_assoc.
  - rewrite pq_insert_behind by (apply Forall_fmap, Forall_true; simpl; lia).
    fold (rq_abs rq). rewrite <-IH by done. done.
Qed.

Lemma rq_pop_spec (rq : list (Z * list Z)) :
  rq_wf rq →
  match rq_abs rq with
  | [] => rq_pop rq = (None, [])
  | (p, q) :: l => ∃ rq', rq_pop rq = (Some q, rq') ∧ rq_abs rq' = l ∧ rq_wf rq'
  end.
Proof.
  destruct rq as [|[p b] rq]; intros [Hs Hn]; [done|].
  apply StronglySorted_inv in Hs as [Hs Hp]. apply Forall_cons in Hn as [Hb Hn]. simpl in *.
  destruct b as [|q b]; [done|]. simpl. destruct b as [|q' b].
  - exists rq. by repeat split.
  - exists ((p, q' :: b) :: rq). repeat split; [by constructor|by constructor].
Qed.

(** C17: the run queue, a map from priority to a FIFO bucket, implements a stable
    priority queue: enqueuing inserts behind every entry at least as urgent, the
    scheduler's pop takes the first entry, and both keep the buckets sorted and
    non-empty. *)
Theorem run_queue_refines (rq : list (Z * list Z)) (prio q : Z) :
  rq_wf rq →
  rq_wf (rq_push prio q rq) ∧
  rq_abs (rq_push prio q rq) = pq_insert prio q (rq_abs rq) ∧
  match rq_abs rq with
  | [] => rq_pop rq = (None, [])
  | (_, x) :: l => ∃ rq', rq_pop rq = (Some x, rq') ∧ rq_abs rq' = l ∧ rq_wf rq'
  end.
Proof.
  intros H. split_and!; [by apply rq_push_wf|by apply rq_push_abs|by apply rq_pop_spec].
Qed.

Lemma run_queue_refines_witness :
  rq_abs (rq_push 8 7 [(8, [3]); (16, [4; 5])]) = [(8, 3); (8, 7); (16, 4); (16, 5)].
Proof.
  rewrite (proj1 (proj2 (run_queue_refines [(8, [3]); (16, [4; 5])] 8 7
    ltac:(split; repeat (constructor || lia || discriminate))))).
  reflexivity.
Defined.

(** ** What the scheduler picks *)

Definition runnable (k : kernel) (q : Z) : bool :=
  match proc_of q k with Some p => negb (is_zombie p) | None => false end.

(** Every kernel stack of a process still has its canary. *)
Definition canaries (k : kernel) : Prop :=
  ∀ q p, proc_of q k = Some p → kernel_stack_bottom (space p) = 0 ∨
    k_kstacks k !! kernel_stack_bottom (space p) = Some KSTACK_CANARY.

Lemma schedule_turn_spec (k : kernel) (p x : Z) (l : list (Z * Z)) :
  rq_wf (k_runq k) → canaries k → rq_abs (k_runq k) = (p, x) :: l →
  ∃ rq', rq_abs rq' = l ∧ rq_wf rq' ∧
    schedule_turn k =
      (if runnable k x then (Ok (Dispatch x), dispatch x (with_runq rq' k))
       else (Ok Again, with_runq rq' k)).
Proof.
  intros Hwf Hc Habs. pose proof (rq_pop_spec _ Hwf) as Hpop. rewrite Habs in Hpop.
  destruct Hpop as (rq' & Hp & Hl & Hwf'). exists rq'. split_and!; [done..|].
  unfold schedule_turn, runnable. rewrite Hp.
  change (proc_of x (with_runq rq' k)) with (proc_of x k).
  destruct (proc_of x k) as [pr|] eqn:Hx; [|done].
  destruct (is_zombie pr); [done|]. simpl.
  destruct (Hc x pr Hx) as [->| ->]; simpl; [done|].
  by rewrite Bool.andb_false_r.
Qed.

Lemma schedule_pick (n : nat) (k : kernel) :
  rq_wf (k_runq k) → canaries k → (length (rq_abs (k_runq k)) < n)%nat →
  ∃ pre rq', Forall (λ e, runnable k e.2 = false) pre ∧ rq_wf rq' ∧
    ((∃ p x, rq_abs (k_runq k) = pre ++ (p, x) :: rq_abs rq' ∧ runnable k x = true ∧
        schedule n k = (Ok (Dispatch x), dispatch x (with_runq rq' k))) ∨
     (rq_abs (k_runq k) = pre ∧ rq' = [] ∧
        schedule n k = (Ok Wfi, with_current 0 (k_satp k) (with_runq [] k)))).
Proof.
  revert k. induction n as [|n IH]; intros k Hwf Hc Hlen; [lia|].
  destruct (rq_abs (k_runq k)) as [|[p x] l] eqn:Habs.
  - exists [], []. split_and!; [done|by repeat constructor|]. right. split_and!; [done..|].
    pose proof (rq_pop_spec _ Hwf) as Hpop. rewrite Habs in Hpop.
    cbn [schedule]. erewrite bind_ok; [|unfold schedule_turn; rewrite Hpop; reflexivity].
    reflexivity.
  - destruct (schedule_turn_spec k p x l Hwf Hc Habs) as (rq' & Hl & Hwf' & Hturn).
    destruct (runnable k x) eqn:Hrun.
    + exists [], rq'. split_and!; [done..|]. left. exists p, x. split_and!; [by rewrite Hl|done|].
      cbn [schedule]. by erewrite bind_ok by exact Hturn.
    + destruct (IH (with_runq rq' k)) as (pre & rq2 & Hpre & Hwf2 & Hres);
        [done|done|simpl; rewrite Hl; simpl in Hlen; lia|].
      exists ((p, x) :: pre), rq2. split_and!; [by constructor|done|].
      cbn [schedule]. erewrite bind_ok by exact Hturn. cbn [k_runq with_runq] in Hres.
      rewrite Hl in Hres. destruct Hres as [(p' & x' & -> & Hr & ->)|(-> & -> & ->)].
      * left. by exists p', x'.
      * right. done.
Qed.

(** C18: with its canaries intact, the scheduler always comes to a decision: it
    dispatches the first process in queue order that exists and is not a zombie,
    dropping what stands before it, and idles only when no entry is runnable; the
    dispatched process is current, running, in its own address space. *)
Theorem schedule_correct (k : kernel) :
  rq_wf (k_runq k) → canaries k →
  ∃ pre rq', Forall (λ e, runnable k e.2 = false) pre ∧ rq_wf rq' ∧
    let '(r, k') := schedule (S (length (rq_abs (k_runq k)))) k in
    ((∃ p x pr, rq_abs (k_runq k) = pre ++ (p, x) :: rq_abs rq' ∧
        proc_of x k = Some pr ∧ is_zombie pr = false ∧ r = Ok (Dispatch x) ∧
        k_current k' = x ∧ k_satp k' = satp_val (space pr) ∧ k_runq k' = rq' ∧
        state <$> proc_of x k' = Some Running) ∨
     (rq_abs (k_runq k) = pre ∧ r = Ok Wfi ∧ k_current k' = 0 ∧ k_runq k' = [])).
Proof.
  intros Hwf Hc.
  destruct (schedule_pick (S (length (rq_abs (k_runq k)))) k Hwf Hc)
    as (pre & rq' & Hpre & Hwf' & Hres); [lia|].
  exists pre, rq'. split_and!; [done..|].
  destruct Hres as [(p & x & Habs & Hrun & ->)|(Habs & -> & ->)]; [left|by right].
  unfold runnable in Hrun. destruct (proc_of x k) as [pr|] eqn:Hx; [|done].
  exists p, x, pr. apply negb_true_iff in Hrun.
  change (proc_of x (with_runq rq' k)) with (proc_of x k).
  unfold dispatch. change (proc_of x (with_runq rq' k)) with (proc_of x k). rewrite Hx.
  split_and!; try done.
  unfold proc_of in *. simpl. by rewrite lookup_alter_eq, Hx.
Qed.

(** Small kernels for the witnesses: processes without address space or kernel
    stack, given by pid, parent, state and children. *)
Definition demo_proc (q pp : Z) (st : ProcState) (ch : list Z) : Process :=
  mkProcess q (mkFamily q pp q q ch) (mkCreds 0 0 0 0 CAP_NONE) PRIO_NORMAL st new_table
    (set_sepc 65536 new_trap_frame) (mkSpace 0 0x400000000 0x200000000 0 0)
    (mkWaits None None []) (mkIpc [] 0 INone [] [])
    (mkSignals 0 0 (replicate 32 0) (replicate 32 0) (replicate 32 0)) "/"%string 0
    (mkNs 1 2 3).

Definition demo_mm : kst := mkKst (mkPmm 0 0 0 ∅ ∅ false) ∅ 0 0 None 0.

Definition demo_kernel (cur : Z) (rq : list (Z * list Z)) (ps : list Process) : kernel :=
  mkKernel (list_to_map ((λ p, (pid p, p)) <$> ps)) rq [] ∅ ∅ ∅ ∅ ∅ 100 (-1) 0 cur 0 ∅ ∅ None
    4 (Some (mkNs 1 2 3)) 0 None [] (mkChan ∅ ∅ ∅ [] [] 1) demo_mm [].

Lemma schedule_correct_witness :
  let k := demo_kernel 9 [(16, [2; 3; 4])] [demo_proc 2 1 (Zombie 0) []; demo_proc 4 1 Stopped []] in
  rq_wf (k_runq k) ∧ canaries k ∧ (schedule 4 k).1 = Ok (Dispatch 4).
Proof.
  intros k.
  assert (rq_wf (k_runq k)) as Hwf by (split; repeat (constructor || discriminate)).
  assert (canaries k) as Hc.
  { intros q p. unfold k, proc_of, demo_kernel. simpl.
    rewrite lookup_insert_Some, lookup_insert_Some, lookup_empty.
    intros [[_ <-]|[_ [[_ <-]|[_ ?]]]]; [by left..|done]. }
  split_and!; [done..|].
  destruct (schedule_correct k Hwf Hc) as (pre & rq' & _). vm_compute. reflexivity.
Defined.

(** ** Sleepers *)

Lemma swap_remove_perm {A} (i : nat) (l : list A) (x : A) :
  l !! i = Some x →
  x :: swap_remove i l ≡ₚ l ∧ length (swap_remove i l) = (length l - 1)%nat ∧
  take i (swap_remove i l) = take i l.
Proof.
  intros Hi. unfold swap_remove. pose proof (lookup_lt_Some _ _ _ Hi) as Hlt.
  destruct l as [|y l0 _] using rev_ind; [done|].
  rewrite last_snoc. rewrite length_app in *. simpl in *.
  replace (length l0 + 1 - 1)%nat with (length l0) by lia.
  destruct (decide (i < length l0)%nat) as [Hi0|Hi0].
  - rewrite lookup_app_l in Hi by done.
    rewrite insert_app_l, take_app_length' by (rewrite ?length_insert; done).
    split_and!; [|by rewrite length_insert|by rewrite take_insert_ge, take_app_le by lia].
    rewrite <-(take_drop_middle _ _ _ Hi) at 2.
    rewrite insert_take_drop by done. solve_Permutation.
  - assert (i = length l0) as -> by lia. rewrite list_lookup_middle in Hi by done.
    injection Hi as ->. rewrite (insert_app_r_alt _ _ _ x) by done.
    rewrite Nat.sub_diag. simpl. rewrite take_app_length.
    split_and!; [solve_Permutation|done|by rewrite firstn_all].
Qed.

Lemma wake_loop_sleep_spec (fuel : nat) (now : Z) (i : nat) (k : kernel) :
  (length (k_sleep k) ≤ i + fuel)%nat →
  Forall (λ e, now < e.2) (take i (k_sleep k)) →
  ∃ woken rest, woken ++ rest ≡ₚ k_sleep k ∧
    Forall (λ e, e.2 ≤ now) woken ∧ Forall (λ e, now < e.2) rest ∧
    wake_loop_sleep fuel now i k = with_sleep rest (foldl (λ k q, make_runnable q k) k woken.*1).
Proof.
  revert i k. induction fuel as [|n IH]; intros i k Hlen Hpre.
  - exists [], (k_sleep k). rewrite firstn_all2 in Hpre by lia. by destruct k.
  - cbn [wake_loop_sleep]. destruct (k_sleep k !! i) as [[q t]|] eqn:Hi.
    + destruct (Z.leb_spec t now) as [Ht|Ht].
      * destruct (swap_remove_perm _ _ _ Hi) as (Hperm & Hl & Htake).
        set (k1 := make_runnable q (with_sleep (swap_remove i (k_sleep k)) k)).
        assert (k_sleep k1 = swap_remove i (k_sleep k)) as Hk1.
        { unfold k1, make_runnable. by destruct (proc_of _ _). }
        destruct (IH i k1) as (woken & rest & Hp & Hw & Hr & ->).
        { rewrite Hk1, Hl. lia. }
        { by rewrite Hk1, Htake. }
        exists ((q, t) :: woken), rest. split_and!; [|by constructor|done|].
        { rewrite <-Hperm. simpl. by rewrite Hp, Hk1. }
        assert (∀ l x k', with_sleep rest (foldl (λ k q, make_runnable q k) (with_sleep x k') l)
                 = with_sleep rest (foldl (λ k q, make_runnable q k) k' l)) as Hfold.
        { induction l as [|y l IHl]; intros x k'; [done|]. simpl.
          rewrite <-(IHl x (make_runnable y k')). f_equal. f_equal.
          unfold make_runnable. change (proc_of y (with_sleep x k')) with (proc_of y k').
          by destruct (proc_of y k'). }
        simpl. rewrite <-(Hfold _ (swap_remove i (k_sleep k)) (make_runnable q k)).
        f_equal. f_equal. unfold k1, make_runnable.
        change (proc_of q (with_sleep (swap_remove i (k_sleep k)) k)) with (proc_of q k).
        by destruct (proc_of q k).
      * apply IH; [lia|]. rewrite (take_S_r _ _ _ Hi). apply Forall_app_2; [done|].
        by constructor.
    + exists [], (k_sleep k). apply lookup_ge_None in Hi.
      rewrite firstn_all2 in Hpre by lia. by destruct k.
Qed.

(** a timer tick wakes exactly the sleepers whose deadline has passed: each of
    them, if it still exists, becomes Running and is queued at its priority; the
    others keep their deadline, and nothing else changes. *)
Theorem wake_sleepers_exact (now : Z) (k : kernel) :
  ∃ woken rest, woken ++ rest ≡ₚ k_sleep k ∧
    Forall (λ e, e.2 ≤ now) woken ∧ Forall (λ e, now < e.2) rest ∧
    wake_sleepers now k = with_sleep rest (foldl (λ k q, make_runnable q k) k woken.*1).
Proof. apply wake_loop_sleep_spec; [lia|by rewrite take_0]. Qed.
