(* ===== verification/Lifecycle.v ===== *)
(** * Process lifecycle (src/posix/spawn.rs, src/posix/wait.rs and fork, clone,
      exit and waitpid of src/syscall/proc.rs)

    [exit] is one function with the source's phases in order; [sys_waitpid] is
    its two halves, before and after the point where the caller announces what
    it waits for, because a child can exit on another HART between them.  A
    second [lock] of a mutex by its owner panics in [sync.rs], and does so here. *)

From Stdlib Require Import ZArith Lia.
From stdpp Require Import prelude gmap sorting strings.
From S2P Require Import Prelude Pmm Vmm Swap Handle Vmo FileLock Channel Process.

Local Open Scope Z_scope.

Definition SIGHUP : Z := 1.
Definition SIGCHLD : Z := 17.
Definition SIGCONT : Z := 18.

(** The panic of [Mutex::lock] when this HART already holds the mutex. *)
Definition recursive_lock {A} : M kernel A := panic "Recursive lock deadlock detected!".

(** ** Exit *)

Definition try_wake_parent (parent child status : Z) (k : kernel) : kernel :=
  match proc_of parent k with
  | None => k
  | Some par =>
      let k1 := upd_proc parent
        (λ p, set_pending (Z.lor (pending_signals (signals p)) (Z.shiftl 1 SIGCHLD)) p) k in
      let matches := match wait_target (waits par) with
                     | None => true
                     | Some t => (t =? -1) || (t =? child)
                     end in
      if negb matches then k1
      else wake_if_stopped parent
             (upd_proc parent (λ p, set_wait_result (wait_result (waits p) ++ [(child, status)]) p) k1)
  end.

(** The channel endpoints a handle table refers to, and whether something else
    still does: another process, or a message in flight. *)
Definition channel_ids (t : handle_table kobject) : list Z :=
  omap (λ h, e ← ht_map t !! h;
             match he_object e with KChannel ep => Some ep | _ => None end)
       (sorted_keys (ht_map t)).
Definition refers (ep : Z) (e : handle_entry kobject) : bool :=
  match he_object e with KChannel x => x =? ep | _ => false end.
Definition referenced (ep : Z) (k : kernel) : bool :=
  existsb (λ x, bool_decide (ep ∈ channel_ids (fds x.2))) (map_to_list (k_procs k)) ||
  existsb (λ x, existsb (λ m, existsb (refers ep) (m_handles m)) (ep_queue x.2))
    (map_to_list (endpoints (k_chan k))).

(** [proc.fds.lock().close_all()]: the endpoints nothing else refers to are
    dropped.  Waking a peer's reader goes through [enqueue], which locks the
    process table; [exit] holds it. *)
Definition close_all_fds (q : Z) : M kernel unit := λ k,
  match proc_of q k with
  | None => (Ok tt, k)
  | Some p =>
      let k1 := upd_proc q (with_fds new_table) k in
      let gone := List.filter (λ ep, negb (referenced ep k1)) (remove_dups (channel_ids (fds p))) in
      let chan := foldl (λ s ep, drop_endpoint ep s) (k_chan k1) gone in
      if (length (enqueued chan) =? length (enqueued (k_chan k1)))%nat
      then (Ok tt, with_chan chan k1)
      else recursive_lock k1
  end.

(** A process blocked on the dying one: past its [ecall], with ESRCH. *)
Definition release_blocked (q : Z) (k : kernel) : kernel :=
  wake_if_stopped q
    (upd_proc q (λ p, set_ipc_state INone (on_tf (λ tf, set_reg 10 ESRCH (add_sepc 4 tf)) p)) k).

Definition waits_on (dead : Z) (p : Process) : bool :=
  match ipc_state (ipc p) with
  | ReceivingReply s _ | Receiving s _ => s =? dead
  | _ => false
  end.

(** [CLONE_CHILD_CLEARTID]. *)
Definition clear_tid (ptr : Z) (k : kernel) : kernel :=
  if negb (ptr =? 0) && (0x100000000 <=? ptr) then
    let k1 := store_user ptr (le_bytes 4 0) k in
    let waiters := default [] (k_futex k1 !! ptr) in
    foldl (λ k w, make_runnable w k) (with_futex (delete ptr (k_futex k1)) k1) waiters
  else k.

(** [release_all_locks] on the kernel: what it does to each process it wakes. *)
Definition lock_view (k : kernel) : lock_st :=
  mkLocks (k_file_locks k) (k_lock_waiters k)
    ((λ p, mkLockProc None false false (priority p)) <$> k_procs k) [].
Definition lock_wake (k : kernel) (e : Z * Z) : kernel :=
  enqueue_with_prio e.1 e.2
    (upd_proc e.1 (λ p, with_state Running (set_ipc_state INone (on_tf (set_reg 10 0) p))) k).
Definition release_process_locks (q : Z) (k : kernel) : kernel :=
  let s := release_all_locks q (lock_view k) in
  foldl lock_wake (with_locks (file_locks s) (lock_waiters s) k) (run_queue s).

(** Phase 2: the children go to init. *)
Definition adopt (cs : list Z) (p : Process) : Process :=
  set_children (foldl (λ l c, if bool_decide (c ∈ l) then l else l ++ [c])
                  (children (family p)) cs) p.
Definition reparent_child (k : kernel) (c : Z) : kernel :=
  match proc_of c k with
  | None => k
  | Some p =>
      let k1 := upd_proc c (set_ppid 1) k in
      match state p with
      | Zombie st => try_wake_parent 1 c st k1
      | _ => k1
      end
  end.
Definition reparent (cs : list Z) (k : kernel) : kernel :=
  foldl reparent_child (upd_proc 1 (adopt cs) k) cs.

(** Phase 4: process groups left without a parent in their session. *)
Definition table_values (k : kernel) : list Process :=
  omap (λ q, proc_of q k) (sorted_keys (k_procs k)).
Definition keeps_group (dead g : Z) (k : kernel) (p : Process) : bool :=
  (pgid (family p) =? g) && negb (ppid (family p) =? dead) && negb (ppid (family p) =? 0) &&
  match proc_of (ppid (family p)) k with
  | Some par => sid (family par) =? sid (family p)
  | None => false
  end.
Definition hangup_group (g : Z) (k : kernel) : kernel :=
  foldl (λ k p, if pgid (family p) =? g then
           wake_if_stopped (pid p) (upd_proc (pid p) (λ p,
             set_pending (Z.lor (pending_signals (signals p))
               (Z.lor (Z.shiftl 1 SIGHUP) (Z.shiftl 1 SIGCONT))) p) k)
         else k) k (table_values k).
Definition group_of (k : kernel) (q : Z) : option Z := pgid ∘ family <$> proc_of q k.
Definition orphan_groups (dead : Z) (cs : list Z) (k : kernel) : kernel :=
  let groups := foldl (λ l g, if bool_decide (g ∈ l) then l else l ++ [g]) []
                  (omap (group_of k) (cs ++ [dead])) in
  foldl (λ k g, if existsb (keeps_group dead g k) (table_values k) then k
                else hangup_group g k) k groups.

Definition exit (q status : Z) : M kernel unit := λ k,
  match proc_of q k with
  | None => (Ok tt, k)
  | Some p =>
      (modify (upd_proc q (with_state (Zombie status))) ;;
       close_all_fds q ;;
       modify (upd_proc q (set_senders [])) ;;
       modify (clear_tid (clear_tid_ptr (space p))) ;;
       modify (λ k, foldl (λ k s, release_blocked s k) k (senders (ipc p))) ;;
       stuck ← gets (λ k, omap (λ w, w' ← proc_of w k; if waits_on q w' then Some w else None)
                            (sorted_keys (k_procs k)));
       modify (λ k, foldl (λ k w, release_blocked w k) k stuck) ;;
       modify (λ k, with_irq (filter (λ x, x.2 ≠ q) (k_irq_handlers k)) k) ;;
       modify (release_process_locks q) ;;
       let cs := children (family p) in
       (match cs with [] => mret tt | _ => modify (reparent cs) end) ;;
       (if ppid (family p) =? 0 then mret tt
        else modify (try_wake_parent (ppid (family p)) q status)) ;;
       match cs with [] => mret tt | _ => modify (orphan_groups q cs) end) k
  end.

(** ** Releasing an address space and reaping *)

(** [let _ = c]: an error is ignored, a panic is not. *)
Definition ignore {A} (c : M kernel A) : M kernel unit :=
  match_result c (λ _, mret tt) (λ _, mret tt).

(** [if satp_unshare(root) { evict_all(root); destroy_user_space(root); }]. *)
Definition release_space (root : Z) : M kernel unit := λ k,
  let '(last, k1) := satp_unshare root k in
  (if last
   then on_mm (modify (evict_all root)) ;; ignore (on_mm (on_pmm (destroy_user_space root)))
   else mret tt) k1.

Definition dealloc_kstack (bottom : Z) (k : kernel) : kernel :=
  if bottom =? 0 then k else with_kstacks (delete bottom (k_kstacks k)) k.

Definition remove_child (c : Z) (p : Process) : Process :=
  set_children (List.filter (λ x, negb (x =? c)) (children (family p))) p.

Definition reap_zombie (zpid zstatus parent status_ptr : Z) : M kernel unit :=
  o ← gets (proc_of zpid);
  (match o with
   | None => mret tt
   | Some z =>
       modify (λ k, with_procs (delete zpid (k_procs k)) k) ;;
       modify (upd_proc parent (λ p, set_wait_target None None (remove_child zpid p))) ;;
       modify (dealloc_kstack (kernel_stack_bottom (space z))) ;;
       let root := satp_root (satp_val (space z)) in
       if root =? 0 then mret tt else release_space root
   end) ;;
  (if status_ptr =? 0 then mret tt
   else modify (store_user status_ptr (le_bytes 4 (wrap 32 zstatus)))) ;;
  modify (set_a0 (to_usize zpid)).

(** ** Waiting *)

Definition WNOHANG : Z := 1.

(** Whether [waitpid target] covers a child, by pid or by process group. *)
Definition wait_matches (k : kernel) (parent : Process) (target c : Z) : bool :=
  if 0 <? target then target =? c
  else if target =? 0 then
    match proc_of c k with Some p => pgid (family p) =? pgid (family parent) | None => false end
  else if target =? -1 then true
  else match proc_of c k with Some p => pgid (family p) =? - target | None => false end.

(** The first zombie among the children that satisfy [matches]. *)
Definition find_zombie (k : kernel) (matches : Z → bool) (cs : list Z) : option (Z * Z) :=
  first_some (λ c, if matches c then
                     match state <$> proc_of c k with
                     | Some (Zombie st) => Some (c, st)
                     | _ => None
                     end
                   else None) cs.

Definition pop_result (q : Z) : M kernel (option (Z * Z)) := λ k,
  match wait_result ∘ waits <$> proc_of q k with
  | Some (r :: l) => (Ok (Some r), upd_proc q (set_wait_result l) k)
  | _ => (Ok None, k)
  end.

(** The first half; [None] goes on to block. *)
Definition waitpid_scan (target status_ptr options : Z) : M kernel (option control) :=
  me ← gets k_current;
  delivered ← pop_result me;
  match delivered with
  | Some (z, st) => reap_zombie z st me status_ptr ;; mret (Some Return)
  | None =>
      found ← gets (λ k, par ← proc_of me k;
                find_zombie k (wait_matches k par target) (children (family par)));
      match found with
      | Some (z, st) => reap_zombie z st me status_ptr ;; mret (Some Return)
      | None =>
          has ← gets (λ k, match proc_of me k with
                           | Some par => existsb (wait_matches k par target) (children (family par))
                           | None => false
                           end);
          if negb has then c ← ret usize_max; mret (Some c)
          else if negb (Z.land options WNOHANG =? 0) then c ← ret 0; mret (Some c)
          else mret None
      end
  end.

(** The second half: announce the target, look once more, then sleep. *)
Definition waitpid_block (target status_ptr : Z) : M kernel control :=
  me ← gets k_current;
  o ← gets (proc_of me);
  match o with
  | None => ret usize_max
  | Some _ =>
      modify (upd_proc me (set_wait_target (Some target) (Some status_ptr))) ;;
      queued ← pop_result me;
      raced ← (match queued with
               | Some r => mret (Some r)
               | None => gets (λ k, par ← proc_of me k;
                   find_zombie k (λ c, if 0 <? target then target =? c else true)
                     (children (family par)))
               end);
      match raced with
      | Some (z, st) =>
          modify (upd_proc me (set_wait_target None None)) ;;
          reap_zombie z st me status_ptr ;; mret Return
      | None =>
          modify (upd_proc me (λ p, with_state Stopped (on_tf (add_sepc (-4)) p))) ;;
          mret Block
      end
  end.

Definition sys_waitpid (target status_ptr options : Z) : M kernel control :=
  if negb (status_ptr =? 0) && negb (is_user_pointer_valid 4 status_ptr 1) then ret EFAULT else
  r ← waitpid_scan (to_i32 target) status_ptr options;
  match r with Some c => mret c | None => waitpid_block (to_i32 target) status_ptr end.

(** [wait.rs]: the polling variants. *)
Definition take_zombie (parent target : Z) : M kernel (option (Z * Z)) :=
  o ← gets (proc_of parent);
  par ← ok_or o "Parent not found";
  found ← gets (λ k, find_zombie k (λ c, (target =? -1) || (target =? c)) (children (family par)));
  match found with
  | Some (z, st) =>
      modify (λ k, with_procs (delete z (k_procs k)) k) ;;
      modify (upd_proc parent (remove_child z)) ;;
      mret (Some (z, st))
  | None => mret None
  end.
Definition poll_waitpid (parent target : Z) : M kernel (option (Z * Z)) := take_zombie parent target.
Definition waitpid_sync (parent target : Z) : M kernel (Z * Z) :=
  r ← take_zombie parent target; ok_or r "No zombie found".

(** ** Fork and clone *)

Definition cleanup_process (q : Z) : M kernel unit :=
  o ← gets (proc_of q);
  match o with
  | None => mret tt
  | Some p =>
      (if ppid (family p) =? 0 then mret tt
       else modify (upd_proc (ppid (family p)) (remove_child q))) ;;
      modify (dealloc_kstack (kernel_stack_bottom (space p))) ;;
      release_space (satp_root (satp_val (space p)))
  end ;;
  modify (λ k, with_procs (delete q (k_procs k)) k).

(** The child's frame: the parent's, on its own kernel stack, returning 0. *)
Definition child_frame (parent child : TrapFrame) : TrapFrame :=
  set_reg 10 0 (set_kernel_sp (kernel_sp child) parent).

(** [spawn::sys_fork].  A failed clone calls [cleanup_process] with the process
    table still locked. *)
Definition fork (kstack t1 t2 : Z) : M kernel Z :=
  me ← gets k_current;
  child ← process_new me kstack t1 t2;
  o ← gets (proc_of me);
  (match o with
   | None => mret tt
   | Some par =>
       match_result (on_mm (on_pmm (clone_user_space (satp_root (satp_val (space par)))
                                      (satp_root (satp_val (space child))))))
         (λ _, mret tt) (λ _, recursive_lock) ;;
       modify (upd_proc (pid child) (on_tf (λ tf, add_sepc 4 (child_frame (trap_frame par) tf))))
   end) ;;
  modify (enqueue_with_prio (pid child) (priority child)) ;;
  mret (pid child).

Definition sys_fork (kstack t1 t2 : Z) : M kernel control :=
  match_result (fork kstack t1 t2) (λ c, ret (to_usize c)) (λ _, ret usize_max).

Definition CLONE_VM : Z := 0x100.
Definition CLONE_THREAD : Z := 0x10000.
Definition CLONE_SETTLS : Z := 0x80000.
Definition CLONE_CHILD_CLEARTID : Z := 0x200000.
Definition CLONE_CHILD_SETTID : Z := 0x1000000.

(** The address space of a clone: shared, or copied as for fork. *)
Definition clone_space (share : bool) (par child : Process) : M kernel bool :=
  let parent_root := satp_root (satp_val (space par)) in
  let child_root := satp_root (satp_val (space child)) in
  if share then
    ignore (on_mm (on_pmm (destroy_user_space child_root))) ;;
    modify (upd_proc (pid child) (set_satp (satp_val (space par)))) ;;
    modify (satp_share parent_root) ;;
    mret true
  else
    match_result (on_mm (on_pmm (clone_user_space parent_root child_root)))
      (λ _, mret true) (λ _, cleanup_process (pid child) ;; mret false).

Definition set_tgid (x : Z) (p : Process) : Process :=
  with_family (mkFamily x (ppid (family p)) (pgid (family p)) (sid (family p))
                 (children (family p))) p.

Definition sys_clone (flags_arg stack tls tid_ptr kstack t1 t2 : Z) : M kernel control :=
  let flags := wrap 32 flags_arg in
  me ← gets k_current;
  match_result (process_new me kstack t1 t2) (λ child,
    o ← gets (proc_of me);
    match o with
    | None => recursive_lock
    | Some par =>
        ok ← clone_space (has_flag flags CLONE_VM) par child;
        if negb ok then ret usize_max else
        (if has_flag flags CLONE_THREAD
         then modify (upd_proc (pid child) (set_tgid (tgid (family par)))) else mret tt) ;;
        ns' ← fork_from (ns par) flags;
        modify (upd_proc (pid child) (with_ns ns')) ;;
        modify (upd_proc (pid child) (on_tf (λ tf,
          let tf1 := child_frame (trap_frame par) tf in
          let tf2 := if stack =? 0 then tf1 else set_reg 2 stack tf1 in
          if has_flag flags CLONE_SETTLS then set_reg 4 tls tf2 else tf2))) ;;
        (if has_flag flags CLONE_CHILD_SETTID && negb (tid_ptr =? 0)
         then modify (store_user tid_ptr (le_bytes 4 (wrap 32 (pid child)))) else mret tt) ;;
        (if has_flag flags CLONE_CHILD_CLEARTID && negb (tid_ptr =? 0)
         then modify (upd_proc (pid child) (set_clear_tid tid_ptr)) else mret tt) ;;
        modify (enqueue_with_prio (pid child) (priority child)) ;;
        ret (to_usize (pid child))
    end) (λ _, ret ENOMEM).

Definition sys_exit (status : Z) : M kernel control :=
  me ← gets k_current; exit me (to_i32 status) ;; mret Block.

(** ** Views of one process

    What an operation leaves alone of a process is an equation between views. *)

Definition view {A} (g : Process → A) (q : Z) (k : kernel) : option A := g <$> proc_of q k.

Create Rewrite HintDb view.

Section views.
Context {A : Type} (g : Process → A) (q : Z).

Lemma view_upd_ne (q' : Z) (f : Process → Process) (k : kernel) :
  q ≠ q' → view g q (upd_proc q' f k) = view g q k.
Proof. intros. unfold view, proc_of. simpl. by rewrite lookup_alter_ne. Qed.

Lemma view_upd_eq (f : Process → Process) (k : kernel) :
  view g q (upd_proc q f k) = g ∘ f <$> proc_of q k.
Proof. unfold view, proc_of. simpl. rewrite lookup_alter_eq. by destruct (_ !! q). Qed.

Lemma view_upd_same (q' : Z) (f : Process → Process) (k : kernel) :
  (∀ p, g (f p) = g p) → view g q (upd_proc q' f k) = view g q k.
Proof.
  intros Hf. destruct (decide (q = q')) as [->|]; [|by apply view_upd_ne].
  unfold view, proc_of. simpl. rewrite lookup_alter_eq.
  destruct (_ !! q'); simpl; congruence.
Qed.

Lemma view_make_runnable (q' : Z) (k : kernel) :
  (∀ p, g (with_state Running p) = g p) → view g q (make_runnable q' k) = view g q k.
Proof.
  intros Hg. unfold make_runnable. destruct (proc_of q' k) as [p|]; [|done].
  exact (view_upd_same q' _ k Hg).
Qed.

Lemma view_wake_if_stopped (q' : Z) (k : kernel) :
  (∀ p, g (with_state Running p) = g p) → view g q (wake_if_stopped q' k) = view g q k.
Proof.
  intros Hg. unfold wake_if_stopped. destruct (proc_of q' k) as [p|]; [|done].
  destruct (is_stopped p); [by apply view_make_runnable|done].
Qed.

Lemma view_foldl {B} (h : kernel → B → kernel) (l : list B) (k : kernel) :
  (∀ k x, view g q (h k x) = view g q k) → view g q (foldl h k l) = view g q k.
Proof. intros Hh. revert k. induction l as [|x l IH]; intros k; [done|]. simpl. by rewrite IH. Qed.

Lemma view_close_fds (q' : Z) (k : kernel) r k' :
  (∀ t p, g (with_fds t p) = g p) → close_all_fds q' k = (r, k') → view g q k' = view g q k.
Proof.
  intros Hfd. unfold close_all_fds. destruct (proc_of q' k) as [p|]; [|by intros [= <- <-]].
  destruct (_ =? _)%nat; intros [= <- <-]; apply (view_upd_same q'); intros; apply Hfd.
Qed.
End views.

(** A view blind to what waking, signalling and IPC release change. *)
Definition blind {A} (g : Process → A) : Prop :=
  (∀ st p, g (with_state st p) = g p) ∧
  (∀ t p, length (regs t) = length (regs (trap_frame p)) → g (with_tf t p) = g p) ∧
  (∀ s p, g (with_ipc s p) = g p) ∧ (∀ s p, g (with_signals s p) = g p) ∧
  (∀ t p, g (with_fds t p) = g p).

Section blind.
Context {A : Type} (g : Process → A) (Hg : blind g) (q : Z).

Lemma view_release_blocked (q' : Z) (k : kernel) :
  view g q (release_blocked q' k) = view g q k.
Proof.
  destruct Hg as (Hst & Htf & Hipc & _). unfold release_blocked.
  rewrite view_wake_if_stopped by done. apply view_upd_same. intros p.
  unfold set_ipc_state, on_tf. rewrite Hipc, Htf; [done|]. apply length_insert.
Qed.

Lemma view_clear_tid (ptr : Z) (k : kernel) : view g q (clear_tid ptr k) = view g q k.
Proof.
  destruct Hg as (Hst & _). unfold clear_tid. destruct (_ && _); [|done].
  by rewrite view_foldl by (intros; by apply view_make_runnable).
Qed.

Lemma view_release_locks (q' : Z) (k : kernel) :
  view g q (release_process_locks q' k) = view g q k.
Proof.
  destruct Hg as (Hst & Htf & Hipc & _). unfold release_process_locks.
  rewrite view_foldl; [done|]. intros k' [q1 prio]. unfold lock_wake. simpl.
  change (view g q (enqueue_with_prio q1 prio ?x)) with (view g q x).
  apply (view_upd_same g q q1). intros p. unfold set_ipc_state, on_tf. rewrite Hst, Hipc, Htf; [done|].
  apply length_insert.
Qed.

Lemma view_orphan_groups (q' : Z) (cs : list Z) (k : kernel) :
  view g q (orphan_groups q' cs k) = view g q k.
Proof.
  destruct Hg as (Hst & _ & _ & Hsg & _). unfold orphan_groups. apply view_foldl.
  intros k' x. destruct (existsb _ _); [done|]. unfold hangup_group. apply view_foldl.
  intros k1 p. destruct (_ =? _); [|done]. rewrite view_wake_if_stopped by done.
  apply view_upd_same. intros p'. unfold set_pending. by rewrite Hsg.
Qed.

Lemma view_close_all (q' : Z) (k : kernel) r k' :
  close_all_fds q' k = (r, k') → view g q k' = view g q k.
Proof. apply view_close_fds, Hg. Qed.
End blind.

(** ** Exit, phase by phase *)

Definition stuck_on (q : Z) (k : kernel) : list Z :=
  omap (λ w, w' ← proc_of w k; if waits_on q w' then Some w else None) (sorted_keys (k_procs k)).

(** Everything [exit] does after closing the handles, for the process as it was. *)
Definition exit_unblock (q : Z) (p : Process) (k : kernel) : kernel :=
  let k1 := foldl (λ k s, release_blocked s k)
              (clear_tid (clear_tid_ptr (space p)) (upd_proc q (set_senders []) k))
              (senders (ipc p)) in
  let k2 := foldl (λ k w, release_blocked w k) k1 (stuck_on q k1) in
  release_process_locks q (with_irq (filter (λ x, x.2 ≠ q) (k_irq_handlers k2)) k2).

Definition exit_family (q status : Z) (p : Process) (k : kernel) : kernel :=
  let cs := children (family p) in
  let k1 := match cs with [] => k | _ => reparent cs k end in
  let k2 := if ppid (family p) =? 0 then k1 else try_wake_parent (ppid (family p)) q status k1 in
  match cs with [] => k2 | _ => orphan_groups q cs k2 end.

Lemma exit_eq (q status : Z) (p : Process) (k : kernel) :
  proc_of q k = Some p →
  exit q status k =
    (close_all_fds q ;; modify (λ k, exit_family q status p (exit_unblock q p k)))
      (upd_proc q (with_state (Zombie status)) k).
Proof.
  intros Hp. unfold exit. rewrite Hp. unfold mbind, M_bind, modify, gets.
  destruct (close_all_fds q _) as [[[]|e|w] k1]; [|reflexivity..].
  unfold exit_family. destruct (children (family p)), (ppid (family p) =? 0); reflexivity.
Qed.

(** [exit] fails only by the recursive lock of [close_all_fds]. *)
Lemma exit_cases (q status : Z) (k : kernel) :
  (∃ k', exit q status k = (Ok tt, k')) ∨ ∃ w k', exit q status k = (Panic w, k').
Proof.
  destruct (proc_of q k) as [p|] eqn:Hp.
  - rewrite (exit_eq _ _ _ _ Hp). unfold mbind, M_bind, close_all_fds.
    destruct (proc_of q (upd_proc q _ k)); [destruct (_ =? _)%nat|]; simpl; eauto.
  - left. exists k. unfold exit. by rewrite Hp.
Qed.

Lemma view_try_wake_ne {A} (g : Process → A) (q parent c st : Z) (k : kernel) :
  blind g → q ≠ parent → view g q (try_wake_parent parent c st k) = view g q k.
Proof.
  intros (Hst & _) Hne. unfold try_wake_parent. destruct (proc_of parent k); [|done].
  destruct (negb _); [by apply view_upd_ne|].
  rewrite view_wake_if_stopped by done. by rewrite !view_upd_ne.
Qed.

Lemma view_reparent {A} (g : Process → A) (q : Z) (cs : list Z) (k : kernel) :
  blind g → (∀ x p, g (set_ppid x p) = g p) → q ≠ 1 → view g q (reparent cs k) = view g q k.
Proof.
  intros Hg Hpp Hq. unfold reparent. rewrite view_foldl; [by apply view_upd_ne|].
  intros k' c. unfold reparent_child. destruct (proc_of c k') as [p|]; [|done].
  destruct (state p); rewrite ?view_try_wake_ne by done; by apply view_upd_same.
Qed.

Lemma view_exit_unblock {A} (g : Process → A) (q q' : Z) (p : Process) (k : kernel) :
  blind g → view g q (exit_unblock q' p k) = view g q k.
Proof.
  intros Hg. unfold exit_unblock. rewrite view_release_locks by done.
  change (view g q (with_irq ?x ?y)) with (view g q y).
  rewrite view_foldl by (intros; by apply view_release_blocked).
  rewrite view_foldl by (intros; by apply view_release_blocked).
  rewrite view_clear_tid by done. apply view_upd_same. intros. apply Hg.
Qed.

(** What the parent sees of its own waiting. *)
Definition wview (p : Process) : list Z * Waits := (children (family p), waits p).

Lemma wview_blind : blind wview.
Proof. by repeat split. Qed.

Definition awaits (w : Waits) (c : Z) : bool :=
  match wait_target w with None => true | Some t => (t =? -1) || (t =? c) end.

Lemma try_wake_parent_reports (parent c st : Z) (k : kernel) (cs : list Z) (w : Waits) :
  view wview parent k = Some (cs, w) → awaits w c = true →
  view wview parent (try_wake_parent parent c st k) =
    Some (cs, mkWaits (wait_target w) (wait_status_ptr w) (wait_result w ++ [(c, st)])).
Proof.
  unfold view, try_wake_parent. intros Hv Hm.
  destruct (proc_of parent k) as [par|] eqn:Hpar; [|done]. injection Hv as <- <-.
  unfold awaits in Hm. rewrite Hm. simpl.
  fold (view wview parent (wake_if_stopped parent (upd_proc parent
    (λ p, set_wait_result (wait_result (waits p) ++ [(c, st)]) p) (upd_proc parent
    (λ p, set_pending (Z.lor (pending_signals (signals p)) (Z.shiftl 1 SIGCHLD)) p) k)))).
  rewrite view_wake_if_stopped by (intros; apply wview_blind). rewrite view_upd_eq.
  unfold proc_of in *. simpl. by rewrite lookup_alter_eq, Hpar.
Qed.

(** When [exit] returns, the exit status stands at the end of the parent's queue,
    if the parent waits for this child, for any child, or not at all. *)
Lemma exit_reports (c st : Z) (k k' : kernel) (pc : Process) (cs : list Z) (w : Waits) :
  proc_of c k = Some pc → c ≠ ppid (family pc) → ppid (family pc) ≠ 0 → ppid (family pc) ≠ 1 →
  view wview (ppid (family pc)) k = Some (cs, w) → awaits w c = true →
  exit c st k = (Ok tt, k') →
  view wview (ppid (family pc)) k' =
    Some (cs, mkWaits (wait_target w) (wait_status_ptr w) (wait_result w ++ [(c, st)])).
Proof.
  intros Hc Hne H0 H1 Hv Hm. rewrite (exit_eq _ _ _ _ Hc).
  intros ([] & k1 & Hclose & [= <-])%bind_ok_inv. pose proof wview_blind as Hb.
  assert (view wview (ppid (family pc)) (exit_unblock c pc k1) = Some (cs, w)) as Hv1.
  { rewrite view_exit_unblock by done.
    erewrite view_close_all by done. by rewrite view_upd_ne by done. }
  unfold exit_family. rewrite (proj2 (Z.eqb_neq _ _) H0).
  destruct (children (family pc)).
  - by apply try_wake_parent_reports.
  - rewrite view_orphan_groups by done. apply try_wake_parent_reports; [|done].
    by rewrite view_reparent.
Qed.

(** A component of the kernel state [exit] does not write. *)
Definition kblind {A} (h : kernel → A) : Prop :=
  (∀ x k, h (with_procs x k) = h k) ∧ (∀ x k, h (with_runq x k) = h k) ∧
  (∀ x k, h (with_futex x k) = h k) ∧ (∀ x k, h (with_stores x k) = h k) ∧
  (∀ x k, h (with_chan x k) = h k) ∧ (∀ x k, h (with_irq x k) = h k) ∧
  (∀ x y k, h (with_locks x y k) = h k).

Section kblind.
Context {A : Type} (h : kernel → A) (Hh : kblind h).

Lemma kview_upd (q : Z) (f : Process → Process) (k : kernel) : h (upd_proc q f k) = h k.
Proof. apply Hh. Qed.

Lemma kview_make_runnable (q : Z) (k : kernel) : h (make_runnable q k) = h k.
Proof.
  unfold make_runnable, enqueue_with_prio. destruct (proc_of q k); [|done].
  destruct Hh as (_ & Hrq & _). by rewrite Hrq, kview_upd.
Qed.

Lemma kview_wake_if_stopped (q : Z) (k : kernel) : h (wake_if_stopped q k) = h k.
Proof.
  unfold wake_if_stopped. destruct (proc_of q k); [|done].
  destruct (is_stopped _); [apply kview_make_runnable|done].
Qed.

Lemma kview_foldl {B} (f : kernel → B → kernel) (l : list B) (k : kernel) :
  (∀ k x, h (f k x) = h k) → h (foldl f k l) = h k.
Proof. intros Hf. revert k. induction l as [|x l IH]; intros k; [done|]. simpl. by rewrite IH. Qed.

Lemma kview_try_wake_parent (q c st : Z) (k : kernel) : h (try_wake_parent q c st k) = h k.
Proof.
  unfold try_wake_parent. destruct (proc_of q k); [|done].
  destruct (negb _); rewrite ?kview_wake_if_stopped, !kview_upd; done.
Qed.

Lemma kview_exit_unblock (q : Z) (p : Process) (k : kernel) : h (exit_unblock q p k) = h k.
Proof.
  destruct Hh as (_ & Hrq & Hfx & Hst & _ & Hirq & Hlk).
  unfold exit_unblock, release_process_locks.
  rewrite kview_foldl; [|intros; unfold lock_wake, enqueue_with_prio; by rewrite Hrq, kview_upd].
  rewrite Hlk, Hirq. unfold release_blocked.
  rewrite kview_foldl by (intros; by rewrite kview_wake_if_stopped, kview_upd).
  rewrite kview_foldl by (intros; by rewrite kview_wake_if_stopped, kview_upd).
  unfold clear_tid, store_user. destruct (_ && _); [|apply kview_upd].
  rewrite kview_foldl by (intros; apply kview_make_runnable).
  by rewrite Hfx, Hst, kview_upd.
Qed.

Lemma kview_exit_family (q st : Z) (p : Process) (k : kernel) : h (exit_family q st p k) = h k.
Proof.
  assert (∀ cs k, h (reparent cs k) = h k) as Hrep.
  { intros cs k'. unfold reparent. rewrite kview_foldl; [apply kview_upd|].
    intros k1 c. unfold reparent_child. destruct (proc_of c k1) as [pc|]; [|done].
    destruct (state pc); by rewrite ?kview_try_wake_parent, kview_upd. }
  assert (∀ cs k, h (orphan_groups q cs k) = h k) as Horp.
  { intros cs k'. unfold orphan_groups. apply kview_foldl. intros k1 x.
    destruct (existsb _ _); [done|]. unfold hangup_group. apply kview_foldl. intros k2 y.
    destruct (_ =? _); by rewrite ?kview_wake_if_stopped, ?kview_upd. }
  unfold exit_family. destruct (children _), (ppid _ =? 0);
    by rewrite ?Horp, ?kview_try_wake_parent, ?Hrep.
Qed.

Lemma kview_exit (q st : Z) (k : kernel) r k' : exit q st k = (r, k') → h k' = h k.
Proof.
  destruct (proc_of q k) as [p|] eqn:Hp.
  2:{ unfold exit. rewrite Hp. by intros [= <- <-]. }
  rewrite (exit_eq _ _ _ _ Hp). unfold mbind, M_bind, close_all_fds.
  destruct Hh as (_ & _ & _ & _ & Hch & _).
  destruct (proc_of q (upd_proc q _ k)) as [p'|]; [destruct (_ =? _)%nat|]; intros [= <- <-];
    by rewrite ?kview_exit_family, ?kview_exit_unblock, ?Hch, ?kview_upd.
Qed.
End kblind.

(** A view of a process [exit] does not write, whichever process it is. *)
Lemma view_exit {A} (g : Process → A) (x q st : Z) (k : kernel) r k' :
  blind g → (∀ f p, g (with_family f p) = g p) → (∀ w p, g (with_waits w p) = g p) →
  exit q st k = (r, k') → view g x k' = view g x k.
Proof.
  intros Hg Hf Hw.
  assert (∀ par c s k, view g x (try_wake_parent par c s k) = view g x k) as Htw.
  { intros par c s k1. unfold try_wake_parent. destruct (proc_of par k1); [|done].
    destruct Hg as (Hst & _ & _ & Hsg & _).
    destruct (negb _); [apply view_upd_same; intros; apply Hsg|].
    rewrite view_wake_if_stopped by apply Hst.
    rewrite !view_upd_same; [done|intros; apply Hsg|intros; apply Hw]. }
  assert (∀ cs k, view g x (reparent cs k) = view g x k) as Hrep.
  { intros cs k1. unfold reparent. rewrite view_foldl; [apply view_upd_same; intros; apply Hf|].
    intros k2 c. unfold reparent_child. destruct (proc_of c k2) as [pc|]; [|done].
    destruct (state pc); rewrite ?Htw; apply view_upd_same; intros; apply Hf. }
  destruct (proc_of q k) as [p|] eqn:Hp.
  2:{ unfold exit. rewrite Hp. by intros [= <- <-]. }
  rewrite (exit_eq _ _ _ _ Hp). unfold mbind, M_bind.
  destruct (close_all_fds q _) as [r1 k1] eqn:Hc. apply (view_close_all g Hg x) in Hc.
  rewrite view_upd_same in Hc by (intros; apply Hg).
  destruct r1 as [[]| |]; intros [= <- <-]; [|done..]. rewrite <-Hc.
  unfold exit_family. destruct (children _), (ppid _ =? 0);
    by rewrite ?view_orphan_groups, ?Htw, ?Hrep, ?view_exit_unblock.
Qed.

(** ** Reaping *)

Lemma release_space_cases (root : Z) (k : kernel) :
  (∃ refs mm, release_space root k = (Ok tt, with_mm mm (with_satp_refs refs k))) ∨
  ∃ w, (destroy_user_space root (k_pmm (k_mm k))).1 = Panic w.
Proof.
  unfold release_space.
  assert (∃ refs b, satp_unshare root k = (b, with_satp_refs refs k)) as (refs & b & ->).
  { unfold satp_unshare. destruct (k_satp_refs k !! root); [destruct (_ =? 0); eauto|].
    exists (k_satp_refs k), true. by destruct k. }
  destruct b; [|left; exists refs, (k_mm k); by destruct k].
  unfold mbind, M_bind, ignore, match_result, on_mm, on_pmm, modify. simpl.
  change (k_pmm (evict_all root (k_mm k))) with (k_pmm (k_mm k)).
  destruct (destroy_user_space root (k_pmm (k_mm k))) as [[[]|e|w] s]; simpl; eauto 10.
Qed.

(** The caller after reaping [c]: the child is forgotten, the wait is over. *)
Definition reaped (c st me ptr : Z) (k k' : kernel) : Prop :=
  proc_of c k' = None ∧
  view (reg 10 ∘ trap_frame) me k' = Some (to_usize c) ∧
  (∀ cs w, view wview me k = Some (cs, w) →
     view wview me k' = Some (List.filter (λ x, negb (x =? c)) cs,
                              mkWaits None None (wait_result w))) ∧
  k_stores k' = k_stores k ++
    (if ptr =? 0 then [] else [(satp_root (k_satp k), ptr, le_bytes 4 (wrap 32 st))]).

Lemma reg_set_reg (i : nat) (v : Z) (tf : TrapFrame) :
  (i < length (regs tf))%nat → reg i (set_reg i v tf) = v.
Proof. intros. unfold reg, set_reg. simpl. by rewrite list_lookup_insert_eq. Qed.

Lemma reap_zombie_spec (c st me ptr : Z) (k : kernel) (z par : Process) :
  proc_of c k = Some z → k_current k = me → c ≠ me → proc_of me k = Some par →
  (10 < length (regs (trap_frame par)))%nat →
  (∃ k', reap_zombie c st me ptr k = (Ok tt, k') ∧ reaped c st me ptr k k') ∨
  ∃ w, (destroy_user_space (satp_root (satp_val (space z))) (k_pmm (k_mm k))).1 = Panic w.
Proof.
  intros Hz Hme Hne Hpar Hlen.
  set (k1 := dealloc_kstack (kernel_stack_bottom (space z)) (upd_proc me
     (λ p, set_wait_target None None (remove_child c p)) (with_procs (delete c (k_procs k)) k))).
  set (root := satp_root (satp_val (space z))).
  assert (k_procs k1 = alter (λ p, set_wait_target None None (remove_child c p)) me
            (delete c (k_procs k)) ∧ k_current k1 = me ∧ k_satp k1 = k_satp k ∧
          k_stores k1 = k_stores k ∧ k_mm k1 = k_mm k) as (Hp1 & Hc1 & Hs1 & Hst1 & Hm1).
  { unfold k1, dealloc_kstack. by destruct (_ =? 0). }
  assert ((∃ refs mm, (if root =? 0 then mret tt else release_space root) k1
             = (Ok tt, with_mm mm (with_satp_refs refs k1))) ∨
          ∃ w, (destroy_user_space root (k_pmm (k_mm k))).1 = Panic w)
    as [(refs & mm & Hrel)|?]; [|left|by right].
  { destruct (root =? 0); [|rewrite <-Hm1; apply release_space_cases].
    left. exists (k_satp_refs k1), (k_mm k1). by destruct k1. }
  eexists. split.
  { unfold reap_zombie. erewrite bind_ok by reflexivity. rewrite Hz.
    erewrite bind_ok; [|do 3 (erewrite bind_ok by reflexivity); exact Hrel].
    erewrite bind_ok; [reflexivity|].
    instantiate (1 := if ptr =? 0 then with_mm mm (with_satp_refs refs k1) else
      store_user ptr (le_bytes 4 (wrap 32 st)) (with_mm mm (with_satp_refs refs k1))).
    by destruct (ptr =? 0). }
  assert (∀ x, proc_of x (set_a0 (to_usize c) (if ptr =? 0 then with_mm mm (with_satp_refs refs k1) else
      store_user ptr (le_bytes 4 (wrap 32 st)) (with_mm mm (with_satp_refs refs k1)))) =
    alter (on_tf (set_reg 10 (to_usize c))) me (k_procs k1) !! x) as Hpx.
  { intros x. unfold proc_of, set_a0. destruct (ptr =? 0); simpl; by rewrite Hc1. }
  unfold reaped, view. rewrite !Hpx, Hp1. unfold proc_of in Hz, Hpar.
  rewrite (lookup_alter_ne _ _ me c), (lookup_alter_ne _ _ me c), lookup_delete_eq by done.
  rewrite !lookup_alter_eq, lookup_delete_ne, Hpar by done. unfold proc_of. rewrite Hpar. simpl.
  split_and!; [done|by rewrite reg_set_reg| |].
  - by intros ?? [= <- <-].
  - destruct (ptr =? 0); simpl; rewrite ?Hst1, ?Hs1, ?app_nil_r; done.
Qed.

(** ** No exit is lost *)

Definition reg_count (p : Process) : nat := length (regs (trap_frame p)).

Lemma reg_count_blind : blind reg_count.
Proof. by repeat split. Qed.

Lemma waitpid_scan_none (target ptr options : Z) (k k1 : kernel) :
  waitpid_scan target ptr options k = (Ok None, k1) →
  k1 = k ∧ ∃ par, proc_of (k_current k) k = Some par ∧ wait_result (waits par) = [] ∧
    find_zombie k (wait_matches k par target) (children (family par)) = None.
Proof.
  unfold waitpid_scan. intros (me & ? & [= <- <-] & H)%bind_ok_inv.
  apply bind_ok_inv in H as (delivered & k2 & Hpop & H). unfold pop_result in Hpop.
  destruct (proc_of (k_current k) k) as [par|] eqn:Hp; simpl in Hpop.
  2:{ injection Hpop as <- <-. apply bind_ok_inv in H as (found & k3 & [= <- <-] & H).
      rewrite Hp in H. simpl in H. apply bind_ok_inv in H as (has & k3 & [= <- <-] & H).
      rewrite Hp in H. simpl in H. by apply bind_ok_inv in H as (? & ? & ? & [=]). }
  destruct (wait_result (waits par)) as [|[z st] l] eqn:Hr; injection Hpop as <- <-.
  2:{ by apply bind_ok_inv in H as (? & ? & ? & [=]). }
  apply bind_ok_inv in H as (found & k3 & [= <- <-] & H). rewrite Hp in H. simpl in H.
  destruct (find_zombie _ _ _) as [[z st]|] eqn:Hf.
  { by apply bind_ok_inv in H as (? & ? & ? & [=]). }
  apply bind_ok_inv in H as (has & k3 & [= <- <-] & H). rewrite Hp in H.
  destruct (negb _); [by apply bind_ok_inv in H as (? & ? & ? & [=])|].
  destruct (negb _); [by apply bind_ok_inv in H as (? & ? & ? & [=])|].
  injection H as <-. split; [done|]. by exists par.
Qed.

(** The second half of [waitpid] takes what stands in the queue. *)
Lemma waitpid_block_queued (target ptr c st : Z) (k : kernel) (par z : Process) (l : list (Z * Z)) :
  proc_of (k_current k) k = Some par → wait_result (waits par) = (c, st) :: l →
  proc_of c k = Some z → c ≠ k_current k → (10 < length (regs (trap_frame par)))%nat →
  (∃ k', waitpid_block target ptr k = (Ok Return, k') ∧ proc_of c k' = None ∧
     view (reg 10 ∘ trap_frame) (k_current k) k' = Some (to_usize c) ∧
     view wview (k_current k) k' =
       Some (List.filter (λ x, negb (x =? c)) (children (family par)), mkWaits None None l) ∧
     k_stores k' = k_stores k ++
       (if ptr =? 0 then [] else [(satp_root (k_satp k), ptr, le_bytes 4 (wrap 32 st))])) ∨
  ∃ w, (destroy_user_space (satp_root (satp_val (space z))) (k_pmm (k_mm k))).1 = Panic w.
Proof.
  intros Hpar Hr Hz Hne Hlen. set (me := k_current k) in *.
  set (k3 := upd_proc me (set_wait_target None None) (upd_proc me (set_wait_result l)
               (upd_proc me (set_wait_target (Some target) (Some ptr)) k))).
  assert (proc_of me k3 = Some (set_wait_target None None (set_wait_result l
            (set_wait_target (Some target) (Some ptr) par)))) as Hme3.
  { unfold k3, proc_of in *. simpl. by rewrite !lookup_alter_eq, Hpar. }
  assert (proc_of c k3 = Some z) as Hz3.
  { unfold k3, proc_of in *. simpl. by rewrite !lookup_alter_ne. }
  destruct (reap_zombie_spec c st me ptr k3 z _ Hz3 eq_refl Hne Hme3 Hlen)
    as [(k' & Hreap & Hc & Ha & Hw & Hs)|]; [left|by right].
  exists k'. split_and!; [|done|done| |done].
  - unfold waitpid_block. erewrite bind_ok by reflexivity. fold me.
    erewrite bind_ok by reflexivity. rewrite Hpar.
    erewrite bind_ok by reflexivity. erewrite bind_ok.
    2:{ unfold pop_result, proc_of in *. simpl. rewrite lookup_alter_eq, Hpar. simpl.
        rewrite Hr. reflexivity. }
    erewrite bind_ok by reflexivity. simpl.
    erewrite bind_ok by reflexivity. fold k3. by erewrite bind_ok by exact Hreap.
  - rewrite (Hw (children (family par)) (mkWaits None None l)); [done|].
    unfold view. by rewrite Hme3.
Qed.



(** ** A sleeping parent is woken *)

Definition queued (q : Z) (k : kernel) : Prop := ∃ p, (p, q) ∈ rq_abs (k_runq k).

(** The process sleeps, or it runs and has its place in the run queue. *)
Definition asleep_or_queued (q : Z) (k : kernel) : Prop :=
  view state q k = Some Stopped ∨ (view state q k = Some Running ∧ queued q k).
Definition up (q : Z) (k : kernel) : Prop := view state q k = Some Running ∧ queued q k.

Lemma elem_of_rq_push (prio q p x : Z) (rq : list (Z * list Z)) :
  (p, x) ∈ rq_abs (rq_push prio q rq) ↔ (p = prio ∧ x = q) ∨ (p, x) ∈ rq_abs rq.
Proof.
  induction rq as [|[p' b] rq IH]; simpl; [set_solver|].
  change (rq_abs ((p', b) :: rq)) with ((pair p' <$> b) ++ rq_abs rq).
  destruct (prio <? p'); [|destruct (Z.eqb_spec prio p') as [->|]].
  - change (rq_abs ((prio, [q]) :: (p', b) :: rq))
      with ([(prio, q)] ++ (pair p' <$> b) ++ rq_abs rq). set_solver.
  - change (rq_abs ((p', b ++ [q]) :: rq)) with ((pair p' <$> (b ++ [q])) ++ rq_abs rq).
    rewrite fmap_app. set_solver.
  - change (rq_abs ((p', b) :: rq_push prio q rq))
      with ((pair p' <$> b) ++ rq_abs (rq_push prio q rq)). set_solver.
Qed.

Section waking.
Context (q : Z).

Lemma queued_enqueue (x prio : Z) (k : kernel) :
  queued q k ∨ x = q → queued q (enqueue_with_prio x prio k).
Proof.
  unfold queued. simpl. intros [[p Hp]| ->]; [exists p|exists prio];
    rewrite elem_of_rq_push; auto.
Qed.

(** Marking a process Running and queueing it. *)
Lemma up_run (f : Process → Process) (prio : Z) (k : kernel) :
  (∀ p, state (f p) = Running) → is_Some (proc_of q k) →
  up q (enqueue_with_prio q prio (upd_proc q f k)).
Proof.
  intros Hf [p Hp]. split; [|apply queued_enqueue; by right].
  change (view state q (enqueue_with_prio q prio ?x)) with (view state q x).
  rewrite view_upd_eq, Hp. simpl. by rewrite Hf.
Qed.

(** What every phase of [exit] preserves about a process other than the dying one. *)
Definition steady (P : kernel → Prop) : Prop :=
  (∀ k f x, (∀ p, state (f p) = state p) → P k → P (upd_proc x f k)) ∧
  (∀ k f x prio, (∀ p, state (f p) = Running) → P k →
     P (enqueue_with_prio x prio (upd_proc x f k))) ∧
  (∀ k k', k_procs k' = k_procs k → k_runq k' = k_runq k → P k → P k').

Lemma up_steady : steady (up q).
Proof.
  split_and!.
  - intros k f x Hf [H Hq]. split; [|done]. by rewrite view_upd_same.
  - intros k f x prio Hf H. destruct (decide (x = q)) as [->|Hne].
    + apply up_run; [done|]. destruct H as [H _]. unfold view in H. by destruct (proc_of q k).
    + destruct H as [H Hq]. split; [|apply queued_enqueue; by left].
      change (view state q (enqueue_with_prio x prio ?y)) with (view state q y).
      by rewrite view_upd_ne.
  - intros k k' Hp Hr. unfold up, view, proc_of, queued. by rewrite Hp, Hr.
Qed.

Lemma asleep_or_queued_steady : steady (asleep_or_queued q).
Proof.
  destruct up_steady as (U1 & U2 & U3). split_and!.
  - intros k f x Hf [H|H]; [left; by rewrite view_upd_same|right; by apply U1].
  - intros k f x prio Hf [H|H]; [|right; by apply U2].
    destruct (decide (x = q)) as [->|Hne].
    + right. apply up_run; [done|]. unfold view in H. by destruct (proc_of q k).
    + left. change (view state q (enqueue_with_prio x prio ?y)) with (view state q y).
      by rewrite view_upd_ne.
  - intros k k' Hp Hr [H|H]; [left|right; by eapply U3].
    unfold view, proc_of in *. by rewrite Hp.
Qed.
End waking.

Section steady.
Context (P : kernel → Prop) (HP : steady P).

Lemma steady_make_runnable (x : Z) (k : kernel) : P k → P (make_runnable x k).
Proof.
  destruct HP as (_ & Hrun & _). unfold make_runnable. destruct (proc_of x k); [|done].
  by apply Hrun.
Qed.

Lemma steady_wake_if_stopped (x : Z) (k : kernel) : P k → P (wake_if_stopped x k).
Proof.
  unfold wake_if_stopped. destruct (proc_of x k) as [p|]; [|done].
  destruct (is_stopped p); [apply steady_make_runnable|done].
Qed.

Lemma steady_foldl {B} (h : kernel → B → kernel) (l : list B) (k : kernel) :
  (∀ k x, P k → P (h k x)) → P k → P (foldl h k l).
Proof. intros Hh. revert k. induction l as [|x l IH]; intros k HPk; [done|]. simpl. auto. Qed.

Lemma steady_release_blocked (x : Z) (k : kernel) : P k → P (release_blocked x k).
Proof. intros H. apply steady_wake_if_stopped. by apply HP. Qed.

Lemma steady_exit_unblock (q : Z) (p : Process) (k : kernel) : P k → P (exit_unblock q p k).
Proof.
  destruct HP as (Hupd & Hrun & Hext). intros H.
  assert (P (upd_proc q (set_senders []) k)) as H1 by (by apply Hupd).
  assert (P (clear_tid (clear_tid_ptr (space p)) (upd_proc q (set_senders []) k))) as H2.
  { unfold clear_tid. destruct (_ && _); [|done].
    apply steady_foldl; [intros; by apply steady_make_runnable|]. by eapply Hext; [..|exact H1]. }
  unfold exit_unblock, release_process_locks.
  apply steady_foldl; [intros k' []; by apply Hrun|].
  assert (∀ x y k, P k → P (with_locks x y k)) as Hl by (intros ?? k'; by apply (Hext k')).
  assert (∀ x k, P k → P (with_irq x k)) as Hi by (intros ? k'; by apply (Hext k')).
  apply Hl, Hi.
  apply steady_foldl; [intros; by apply steady_release_blocked|].
  apply steady_foldl; [intros; by apply steady_release_blocked|done].
Qed.

Lemma steady_try_wake_parent (x c st : Z) (k : kernel) : P k → P (try_wake_parent x c st k).
Proof.
  destruct HP as (Hupd & _ & _). intros H. unfold try_wake_parent.
  destruct (proc_of x k); [|done]. destruct (negb _); [by apply Hupd|].
  apply steady_wake_if_stopped. apply Hupd; [done|]. by apply Hupd.
Qed.

Lemma steady_reparent (cs : list Z) (k : kernel) : P k → P (reparent cs k).
Proof.
  destruct HP as (Hupd & _ & _). intros H. apply steady_foldl; [|by apply Hupd].
  intros k' c H'. unfold reparent_child. destruct (proc_of c k') as [pc|]; [|done].
  destruct (state pc); try apply steady_try_wake_parent; by apply Hupd.
Qed.

Lemma steady_orphan_groups (q : Z) (cs : list Z) (k : kernel) : P k → P (orphan_groups q cs k).
Proof.
  destruct HP as (Hupd & _ & _). intros H. apply steady_foldl; [|done].
  intros k' x H'. destruct (existsb _ _); [done|]. apply steady_foldl; [|done].
  intros k1 y H1. destruct (_ =? _); [|done]. apply steady_wake_if_stopped. by apply Hupd.
Qed.
End steady.

Lemma try_wake_parent_wakes (parent c st : Z) (k : kernel) (w : Waits) :
  view waits parent k = Some w → awaits w c = true → asleep_or_queued parent k →
  up parent (try_wake_parent parent c st k).
Proof.
  intros Hw Ha Hst. unfold view, try_wake_parent in *.
  destruct (proc_of parent k) as [par|] eqn:Hpar; [|done]. injection Hw as <-.
  unfold awaits in Ha. rewrite Ha. simpl.
  set (k1 := upd_proc parent _ (upd_proc parent _ k)).
  assert (proc_of parent k1 = Some (set_wait_result (wait_result (waits par) ++ [(c, st)])
    (set_pending (Z.lor (pending_signals (signals par)) (Z.shiftl 1 SIGCHLD)) par))) as H1.
  { unfold k1, proc_of in *. simpl. by rewrite !lookup_alter_eq, Hpar. }
  unfold wake_if_stopped. rewrite H1. unfold is_stopped. simpl.
  destruct Hst as [Hst|Hup]; unfold view in *; rewrite Hpar in *.
  - injection Hst as ->. unfold make_runnable. rewrite H1. apply up_run; [done|].
    rewrite H1. by eexists.
  - destruct Hup as [[= Hs] Hq].
    rewrite Hs. split; [|exact Hq]. unfold view. rewrite H1. simpl. by rewrite Hs.
Qed.

(** a parent asleep in [waitpid] for this child or for any child is woken by
    the child's exit: it is Running, in the run queue, and the child's pid and
    status stand in its queue of results for the re-executed call. *)
Theorem exit_wakes_waiting_parent (c st : Z) (k k' : kernel) (pc : Process) (cs : list Z) (w : Waits) :
  proc_of c k = Some pc → c ≠ ppid (family pc) → ppid (family pc) ≠ 0 → ppid (family pc) ≠ 1 →
  view wview (ppid (family pc)) k = Some (cs, w) → awaits w c = true →
  view state (ppid (family pc)) k = Some Stopped →
  exit c st k = (Ok tt, k') →
  up (ppid (family pc)) k' ∧
  view wview (ppid (family pc)) k' =
    Some (cs, mkWaits (wait_target w) (wait_status_ptr w) (wait_result w ++ [(c, st)])).
Proof.
  intros Hc Hne H0 H1 Hv Hm Hst Hexit. split; [|by eapply exit_reports].
  set (P := ppid (family pc)) in *. rewrite (exit_eq _ _ _ _ Hc) in Hexit.
  apply bind_ok_inv in Hexit as ([] & k1 & Hclose & [= <-]).
  assert (∀ g : Process → list Z * Waits, blind g → view g P k1 = view g P k) as Hk1.
  { intros g Hg. erewrite view_close_all by done. by rewrite view_upd_ne. }
  assert (asleep_or_queued P k1) as Ha1.
  { left. by rewrite (view_close_fds state P c _ _ _ ltac:(done) Hclose), view_upd_ne. }
  set (k2 := exit_unblock c pc k1).
  assert (asleep_or_queued P k2) as Ha2
    by (apply steady_exit_unblock; [apply asleep_or_queued_steady|done]).
  assert (view wview P k2 = Some (cs, w)) as Hv2.
  { unfold k2. rewrite view_exit_unblock, Hk1 by apply wview_blind. done. }
  unfold exit_family. fold P. rewrite (proj2 (Z.eqb_neq _ _) H0).
  assert (∀ k3, view wview P k3 = Some (cs, w) → asleep_or_queued P k3 →
            up P (try_wake_parent P c st k3)) as Hup.
  { intros k3 Hv3. apply try_wake_parent_wakes with w; [|done].
    unfold view in *. destruct (proc_of P k3); [|done]. by injection Hv3 as _ <-. }
  destruct (children (family pc)); [by apply Hup|].
  apply steady_orphan_groups; [apply up_steady|]. apply Hup.
  - by rewrite view_reparent by (done || apply wview_blind).
  - apply steady_reparent; [apply asleep_or_queued_steady|done].
Qed.

Lemma exit_wakes_waiting_parent_witness :
  let k := (sys_waitpid (to_usize (-1)) 0 0
              (demo_kernel 2 [] [demo_proc 2 5 Running [3]; demo_proc 3 2 Running []])).2 in
  view state 2 k = Some Stopped ∧ up 2 (exit 3 7 k).2.
Proof.
  intros k.
  assert (view state 2 k = Some Stopped) as Hst by (vm_compute; reflexivity).
  assert (exit 3 7 k = (Ok tt, (exit 3 7 k).2)) as Hexit by (vm_compute; reflexivity).
  split; [exact Hst|].
  exact (proj1 (exit_wakes_waiting_parent 3 7 k _ (demo_proc 3 2 Running []) [3]
    (mkWaits (Some (-1)) (Some 0) []) ltac:(vm_compute; reflexivity) ltac:(discriminate)
    ltac:(discriminate) ltac:(discriminate) ltac:(vm_compute; reflexivity) eq_refl Hst Hexit)).
Defined.

(** ** What a new process inherits *)

Lemma on_mm_frame {A} (c : M kst A) (k k' : kernel) r :
  on_mm c k = (r, k') → ∃ mm, k' = with_mm mm k.
Proof. unfold on_mm. destruct (c (k_mm k)) as [r' s]. intros [= <- <-]. eauto. Qed.

(** The new process as a function of its parent. *)
Definition inherits (par p : Process) : Prop :=
  creds p = creds par ∧ cwd p = cwd par ∧ ns p = ns par ∧ proc_job p = proc_job par ∧
  fds p = inherit_fds (fds par) ∧
  signals p = mkSignals 0 (blocked_signals (signals par)) (signal_handlers (signals par))
                (signal_restorers (signals par)) (signal_masks (signals par)) ∧
  pgid (family p) = pgid (family par) ∧ sid (family p) = sid (family par).

Lemma process_new_ok (parent kstack t1 t2 : Z) (k k' : kernel) (p par : Process) :
  parent ≠ 0 → proc_of parent k = Some par →
  process_new parent kstack t1 t2 k = (Ok p, k') →
  Z.of_nat (size (k_procs k)) < MAX_PROCESSES ∧
  pid p = k_next_pid k ∧ ppid (family p) = parent ∧ inherits par p ∧
  priority p = PRIO_NORMAL ∧ state p = Running ∧ waits p = mkWaits None None [] ∧
  ipc p = mkIpc [] 0 INone [] [] ∧ children (family p) = [] ∧
  kernel_sp (trap_frame p) = wrap 64 (kstack + KERNEL_STACK_SIZE) ∧
  kernel_stack_bottom (space p) = kstack ∧ length (regs (trap_frame p)) = 32%nat ∧
  k_procs k' = alter (λ x, set_children (children (family x) ++ [pid p]) x) parent
                 (<[pid p := p]> (k_procs k)) ∧
  k_current k' = k_current k ∧ k_runq k' = k_runq k.
Proof.
  intros H0 Hpar H. unfold process_new in H. rewrite (proj2 (Z.eqb_neq _ _) H0) in H.
  apply bind_ok_inv in H as (n & ? & [= <- <-] & H).
  destruct (Z.leb_spec MAX_PROCESSES (Z.of_nat (size (k_procs k)))); [done|].
  apply bind_ok_inv in H as (q & k1 & [= <- <-] & H).
  apply bind_ok_inv in H as (kr & ? & [= <- <-] & H).
  apply bind_ok_inv in H as (pt & k2 & Hpt & H). unfold match_result in Hpt.
  destruct (on_mm _ _) as [r k2'] eqn:Hmm. apply on_mm_frame in Hmm as [mm ->].
  destruct r as [a|e|w]; [|done|done]. injection Hpt as -> <-.
  destruct (kstack =? 0); [by apply bind_ok_inv in H as (? & ? & _ & [=])|].
  apply bind_ok_inv in H as ([] & ? & [= <-] & H).
  apply bind_ok_inv in H as (f & ? & [= <- <-] & H).
  unfold proc_of in Hpar, H. simpl in H. rewrite Hpar in H. simpl in H.
  apply bind_ok_inv in H as (x & k3 & Hin & H).
  assert (k3 = with_kstacks (<[kstack := KSTACK_CANARY]> (k_kstacks k)) (with_mm mm
     (with_next_pid (to_i32 (k_next_pid k + 1)) k)) ∧
    x = (creds par, cwd par, mkSignals 0 (blocked_signals (signals par))
      (signal_handlers (signals par)) (signal_restorers (signals par))
      (signal_masks (signals par)), pgid (family par), sid (family par), ns par)) as [-> ->].
  { unfold inherited, proc_of in Hin. rewrite (proj2 (Z.eqb_neq _ _) H0) in Hin. simpl in Hin.
    rewrite Hpar in Hin. unfold fork_from in Hin. simpl in Hin.
    injection Hin as <- <-. by destruct (ns par). }
  apply bind_ok_inv in H as (jb & ? & Hj & H). simpl in Hj. rewrite Hpar in Hj.
  injection Hj as <- <-.
  apply bind_ok_inv in H as ([] & ? & [= <-] & H).
  apply bind_ok_inv in H as (h & ? & [= <- <-] & H).
  apply bind_ok_inv in H as ([] & ? & [= <-] & H).
  apply bind_ok_inv in H as ([] & ? & [= <-] & H).
  injection H as <- <-. simpl. unfold inherits. simpl. split_and!; done.
Qed.

Lemma elem_of_sorted_keys {A} (m : gmap Z A) (i : Z) : i ∈ sorted_keys m ↔ is_Some (m !! i).
Proof.
  unfold sorted_keys. rewrite merge_sort_Permutation, elem_of_elements. apply elem_of_dom.
Qed.

Lemma inherit_fds_eq (t : handle_table kobject) : table_wf t → inherit_fds t = t.
Proof.
  intros Hwf. unfold inherit_fds.
  set (step := λ t0 h, match ht_map t !! h with
    | Some e => insert_entry (encode_handle h (he_generation e)) e t0 | None => t0 end).
  assert (∀ ks t0, ht_cloexec (foldl step t0 ks) = ht_cloexec t0 ∧
    ∀ i, ht_map (foldl step t0 ks) !! i =
      (if bool_decide (i ∈ ks) then ht_map t !! i ∪ ht_map t0 !! i else ht_map t0 !! i)) as Hmap.
  { induction ks as [|h ks IH]; intros t0; [done|]. simpl. destruct (IH (step t0 h)) as [-> Hi].
    assert (ht_cloexec (step t0 h) = ht_cloexec t0 ∧
      ht_map (step t0 h) = partial_alter (λ o, ht_map t !! h ∪ o) h (ht_map t0)) as [-> Hs].
    { unfold step. destruct (ht_map t !! h) as [e|] eqn:Hh.
      - unfold insert_entry. destruct (Hwf h e Hh). rewrite decode_encode by done. split; [done|].
        simpl. apply map_eq. intros i. destruct (decide (i = h)) as [->|].
        + rewrite lookup_insert_eq, lookup_partial_alter_eq. by destruct (ht_map t0 !! h).
        + by rewrite lookup_insert_ne, lookup_partial_alter_ne.
      - split; [done|]. symmetry. apply map_eq. intros i.
        destruct (decide (i = h)) as [->|]; [|by rewrite lookup_partial_alter_ne].
        by rewrite lookup_partial_alter_eq, (left_id_L None _). }
    split; [done|]. intros i. rewrite Hi, Hs.
    destruct (decide (i = h)) as [->|Hne].
    - rewrite lookup_partial_alter_eq. rewrite (bool_decide_eq_true_2 (h ∈ h :: ks)) by set_solver.
      case_bool_decide; destruct (ht_map t !! h), (ht_map t0 !! h); done.
    - rewrite lookup_partial_alter_ne by done.
      rewrite (bool_decide_ext (i ∈ h :: ks) (i ∈ ks)) by set_solver. done. }
  assert (∀ ks (t0 : handle_table kobject), foldl (λ t h, set_cloexec h true t) t0 ks
            = mkTable (ht_map t0) (list_to_set ks ∪ ht_cloexec t0)) as Hclo.
  { induction ks as [|h ks IH]; intros t0; simpl.
    - destruct t0. simpl. f_equal. set_solver.
    - rewrite IH. simpl. f_equal. set_solver. }
  destruct (Hmap (sorted_keys (ht_map t)) new_table) as [Hc Hm].
  rewrite Hclo, Hc. destruct t as [m cl]. simpl in *. f_equal.
  - apply map_eq. intros i. rewrite Hm, lookup_empty. case_bool_decide as Hin.
    + by rewrite (right_id_L None _).
    + rewrite elem_of_sorted_keys in Hin. by destruct (m !! i) eqn:E; [destruct Hin; eauto|].
  - apply set_eq. intros i. rewrite elem_of_union, elem_of_list_to_set, merge_sort_Permutation,
      elem_of_elements. set_solver.
Qed.

(** ** Fork *)

(** The trap handler steps over the [ecall] before it dispatches. *)
Definition ecall_entry (k : kernel) : kernel := upd_proc (k_current k) (on_tf (add_sepc 4)) k.

Lemma fork_ok (kstack t1 t2 c : Z) (k k' : kernel) (par : Process) :
  k_current k ≠ 0 → proc_of (k_current k) k = Some par → proc_of (k_next_pid k) k = None →
  fork kstack t1 t2 k = (Ok c, k') →
  c = k_next_pid k ∧ queued c k' ∧
  view (trap_frame) (k_current k) k' = Some (trap_frame par) ∧
  view (children ∘ family) (k_current k) k' = Some (children (family par) ++ [c]) ∧
  ∃ p, proc_of c k' = Some p ∧ inherits par p ∧ ppid (family p) = k_current k ∧
    priority p = PRIO_NORMAL ∧ state p = Running ∧
    trap_frame p = add_sepc 4 (set_reg 10 0
      (set_kernel_sp (wrap 64 (kstack + KERNEL_STACK_SIZE)) (trap_frame par))).
Proof.
  intros H0 Hpar Hfresh H. unfold fork in H.
  assert (k_next_pid k ≠ k_current k) as Hne by congruence.
  apply bind_ok_inv in H as (me & ? & [= <- <-] & H).
  apply bind_ok_inv in H as (child & k1 & Hnew & H).
  destruct (process_new_ok _ _ _ _ _ _ _ _ H0 Hpar Hnew)
    as (_ & Hpid & Hpp & Hinh & Hprio & Hst & _ & _ & _ & Hsp & _ & _ & Hprocs & Hcur & Hrq).
  apply bind_ok_inv in H as (o & ? & [= <- <-] & H).
  assert (proc_of (k_current k) k1
    = Some (set_children (children (family par) ++ [pid child]) par)) as Hpar1.
  { unfold proc_of in *. rewrite Hprocs, lookup_alter_eq, lookup_insert_ne by congruence.
    by rewrite Hpar. }
  assert (proc_of (pid child) k1 = Some child) as Hchild.
  { unfold proc_of in *. rewrite Hprocs, lookup_alter_ne by congruence. by rewrite lookup_insert_eq. }
  rewrite Hpar1 in H. apply bind_ok_inv in H as ([] & k2 & Hbody & H).
  apply bind_ok_inv in Hbody as ([] & k1' & Hclone & [= <-]).
  assert (∃ mm, k1' = with_mm mm k1) as [mm ->].
  { unfold match_result in Hclone. destruct (on_mm _ k1) as [r kx] eqn:Hmm.
    apply on_mm_frame in Hmm as [mm ->]. destruct r; [|done|done]. injection Hclone as <-. eauto. }
  apply bind_ok_inv in H as ([] & k3 & [= <-] & [= <- <-]).
  set (f := on_tf (λ tf, add_sepc 4 (child_frame (trap_frame par) tf))).
  split_and!; [done| | | |].
  - apply queued_enqueue. by right.
  - unfold view, proc_of in *. simpl. rewrite lookup_alter_ne by congruence. by rewrite Hpar1.
  - unfold view, proc_of in *. simpl. rewrite lookup_alter_ne by congruence. by rewrite Hpar1.
  - exists (f child). split_and!.
    + unfold proc_of in *. simpl. rewrite lookup_alter_eq. simpl in Hchild. by rewrite Hchild.
    + exact Hinh.
    + exact Hpp.
    + exact Hprio.
    + exact Hst.
    + unfold f, on_tf, child_frame. simpl. by rewrite Hsp.
Qed.

(** C39: fork makes a process with a fresh pid that inherits the parent's
    credentials, directory, namespaces, job, handles and signal set-up, runs with
    the parent's registers on its own kernel stack and returns 0, is queued at
    normal priority and is listed among the parent's children, while the parent's
    frame is untouched. *)
Theorem fork_creates_child (kstack t1 t2 c : Z) (k k' : kernel) (par : Process) :
  k_current k ≠ 0 → proc_of (k_current k) k = Some par → proc_of (k_next_pid k) k = None →
  table_wf (fds par) → length (regs (trap_frame par)) = 32%nat →
  fork kstack t1 t2 k = (Ok c, k') →
  proc_of c k = None ∧ queued c k' ∧
  view trap_frame (k_current k) k' = Some (trap_frame par) ∧
  view (children ∘ family) (k_current k) k' = Some (children (family par) ++ [c]) ∧
  ∃ p, proc_of c k' = Some p ∧ fds p = fds par ∧ creds p = creds par ∧ cwd p = cwd par ∧
    ns p = ns par ∧ proc_job p = proc_job par ∧ ppid (family p) = k_current k ∧
    pending_signals (signals p) = 0 ∧ blocked_signals (signals p) = blocked_signals (signals par) ∧
    signal_handlers (signals p) = signal_handlers (signals par) ∧
    priority p = PRIO_NORMAL ∧ state p = Running ∧
    reg 10 (trap_frame p) = 0 ∧
    (∀ i, i ≠ 10%nat → reg i (trap_frame p) = reg i (trap_frame par)) ∧
    kernel_sp (trap_frame p) = wrap 64 (kstack + KERNEL_STACK_SIZE).
Proof.
  intros H0 Hpar Hfresh Hwf Hlen H.
  destruct (fork_ok _ _ _ _ _ _ _ H0 Hpar Hfresh H)
    as (-> & Hq & Hf & Hch & p & Hp & Hinh & Hpp & Hprio & Hst & Htf).
  destruct Hinh as (Hcr & Hcwd & Hns & Hjob & Hfds & Hsig & _).
  split_and!; [done..|]. exists p. rewrite Hfds, Hsig, Htf, inherit_fds_eq by done.
  split_and!; try done; simpl.
  - unfold reg. simpl. by rewrite list_lookup_insert_eq by (rewrite Hlen; lia).
  - intros i Hi. unfold reg. simpl. by rewrite list_lookup_insert_ne.
Qed.

(** the child of [fork] does not resume at the instruction after the [ecall]
    but one later: the trap handler already stepped over the [ecall], and fork
    steps once more in the child (clone does not). *)
Theorem fork_child_skips_instruction (kstack t1 t2 c : Z) (k k' : kernel) (par : Process) :
  k_current k ≠ 0 → proc_of (k_current k) k = Some par → proc_of (k_next_pid k) k = None →
  0 ≤ sepc (trap_frame par) < 2 ^ 64 - 8 →
  fork kstack t1 t2 (ecall_entry k) = (Ok c, k') →
  view (sepc ∘ trap_frame) (k_current k) k' = Some (sepc (trap_frame par) + 4) ∧
  view (sepc ∘ trap_frame) c k' = Some (sepc (trap_frame par) + 8).
Proof.
  intros H0 Hpar Hfresh Hpc H.
  assert (proc_of (k_current k) (ecall_entry k) = Some (on_tf (add_sepc 4) par)) as Hpar'.
  { unfold ecall_entry, proc_of in *. simpl. by rewrite lookup_alter_eq, Hpar. }
  assert (proc_of (k_next_pid k) (ecall_entry k) = None) as Hfresh'.
  { unfold ecall_entry, proc_of in *. simpl. rewrite lookup_alter_ne by congruence. done. }
  destruct (fork_ok _ _ _ _ (ecall_entry k) k' _ H0 Hpar' Hfresh' H)
    as (-> & _ & Hf & _ & p & Hp & _ & _ & _ & _ & Htf).
  change (k_current (ecall_entry k)) with (k_current k) in *.
  change (k_next_pid (ecall_entry k)) with (k_next_pid k) in *.
  unfold view in *. rewrite Hp. destruct (proc_of (k_current k) k') as [par2|]; [|done].
  injection Hf as Hf. simpl. rewrite Hf, Htf. simpl. unfold wrap.
  rewrite !Z.mod_small by (rewrite ?Z.mod_small; lia). split; f_equal; lia.
Qed.

(** A kernel with free memory whose process 2 may fork. *)
Definition fork_kernel : kernel :=
  with_mm (demo_k demo_pmm) (demo_kernel 2 [] [demo_proc 2 5 Running []]).

Lemma fork_kernel_runs : (fork 4096 0 0 fork_kernel).1 = Ok 100.
Proof. vm_compute. reflexivity. Qed.

Lemma fork_creates_child_witness :
  fork 4096 0 0 fork_kernel = (Ok 100, (fork 4096 0 0 fork_kernel).2) ∧
  queued 100 (fork 4096 0 0 fork_kernel).2.
Proof.
  pose proof (run_eta _ _ fork_kernel_runs) as H. split; [exact H|].
  generalize dependent ((fork 4096 0 0 fork_kernel).2). intros k' H.
  destruct (fork_creates_child 4096 0 0 100 fork_kernel k' (demo_proc 2 5 Running [])
    ltac:(discriminate) ltac:(vm_compute; reflexivity) ltac:(vm_compute; reflexivity)
    ltac:(intros id e He; discriminate He) ltac:(reflexivity) H) as (_ & Hq & _). exact Hq.
Defined.

Lemma fork_ecall_runs : (fork 4096 0 0 (ecall_entry fork_kernel)).1 = Ok 100.
Proof. vm_compute. reflexivity. Qed.

Lemma fork_child_skips_instruction_witness :
  view (sepc ∘ trap_frame) 2 (fork 4096 0 0 (ecall_entry fork_kernel)).2 = Some 65540 ∧
  view (sepc ∘ trap_frame) 100 (fork 4096 0 0 (ecall_entry fork_kernel)).2 = Some 65544.
Proof.
  pose proof (run_eta _ _ fork_ecall_runs) as H.
  generalize dependent ((fork 4096 0 0 (ecall_entry fork_kernel)).2). intros k' H.
  exact (fork_child_skips_instruction 4096 0 0 100 fork_kernel k' (demo_proc 2 5 Running [])
    ltac:(discriminate) ltac:(vm_compute; reflexivity) ltac:(vm_compute; reflexivity)
    ltac:(vm_compute; split; [discriminate|reflexivity]) H).
Defined.

(** ** Address spaces have an owner

    The processes of the table that use a root page table. *)

Definition users (root : Z) (k : kernel) : gmap Z Space :=
  filter (λ x, satp_root (satp_val x.2) = root) (space <$> k_procs k).

(** The count of a shared root is the number of its users; a root without a count
    has at most one. *)
Definition refs_ok (k : kernel) : Prop :=
  ∀ root, root ≠ 0 →
    match k_satp_refs k !! root with
    | Some n => 1 ≤ n < 2 ^ 64 ∧ n = Z.of_nat (size (users root k))
    | None => (size (users root k) ≤ 1)%nat
    end.

Lemma lookup_users (root q : Z) (k : kernel) (sp : Space) :
  users root k !! q = Some sp ↔ view space q k = Some sp ∧ satp_root (satp_val sp) = root.
Proof. unfold users, view, proc_of. by rewrite map_lookup_filter_Some, lookup_fmap. Qed.

Lemma refs_ok_ext (k k' : kernel) :
  (∀ q, view space q k' = view space q k) → k_satp_refs k' = k_satp_refs k →
  refs_ok k → refs_ok k'.
Proof.
  intros Hv Hr Hok root Hroot. rewrite Hr.
  assert (users root k' = users root k) as ->; [|by apply Hok].
  apply map_eq. intros q. apply option_eq. intros sp. by rewrite !lookup_users, Hv.
Qed.

Lemma users_delete (root q : Z) (k : kernel) (p : Process) :
  proc_of q k = Some p →
  size (users root k) =
    (size (users root (with_procs (delete q (k_procs k)) k)) +
     if decide (satp_root (satp_val (space p)) = root) then 1 else 0)%nat.
Proof.
  unfold proc_of, users. simpl. intros Hp. rewrite fmap_delete, map_filter_delete.
  case_decide as Hr.
  - assert (filter (λ x, satp_root (satp_val x.2) = root) (space <$> k_procs k) !! q
              = Some (space p)) as Hq
      by (apply map_lookup_filter_Some; by rewrite lookup_fmap, Hp).
    rewrite map_size_delete_Some by eauto.
    pose proof (map_size_ne_0_lookup_2 _ q (mk_is_Some _ _ Hq)). lia.
  - rewrite map_size_delete_None; [lia|]. apply map_lookup_filter_None. right.
    intros sp. rewrite lookup_fmap, Hp. by intros [= <-].
Qed.

(** Giving up a root after leaving the table: the last user is told to free it. *)
Lemma satp_unshare_last (k : kernel) (q root : Z) (p : Process) :
  refs_ok k → proc_of q k = Some p → satp_root (satp_val (space p)) = root → root ≠ 0 →
  let k1 := with_procs (delete q (k_procs k)) k in
  let '(last, k2) := satp_unshare root k1 in
  (last = true ↔ users root k1 = ∅) ∧ refs_ok k2.
Proof.
  intros Hok Hp Hr Hr0 k1. pose proof (users_delete root q k p Hp) as Hsz.
  rewrite decide_True in Hsz by done. fold k1 in Hsz.
  pose proof (Hok root Hr0) as Hroot. unfold satp_unshare.
  change (k_satp_refs k1) with (k_satp_refs k).
  assert (∀ r, r ≠ root → size (users r k1) = size (users r k)) as Hother.
  { intros r Hne. rewrite (users_delete r q k p Hp), decide_False by congruence.
    unfold k1. lia. }
  assert (∀ m, (∀ r, r ≠ root → m !! r = k_satp_refs k !! r) →
    match m !! root with
    | Some n => 1 ≤ n < 2 ^ 64 ∧ n = Z.of_nat (size (users root k1))
    | None => (size (users root k1) ≤ 1)%nat
    end → refs_ok (with_satp_refs m k1)) as Hrefs.
  { intros m Hm Hmr r Hr'. change (users r (with_satp_refs m k1)) with (users r k1). simpl.
    destruct (decide (r = root)) as [->|Hne]; [done|].
    rewrite Hm, Hother by done. by apply Hok. }
  destruct (k_satp_refs k !! root) as [n|] eqn:Hn.
  - destruct Hroot as [Hb Hn']. unfold wrap. rewrite Z.mod_small by lia.
    destruct (Z.eqb_spec (n - 1) 0) as [H1|H1]; split.
    + split; [intros _; apply map_size_empty_iff; lia|done].
    + apply Hrefs; [intros; by rewrite lookup_delete_ne|]. rewrite lookup_delete_eq. lia.
    + split; [done|]. intros He. rewrite He, map_size_empty in Hsz. lia.
    + apply Hrefs; [intros; by rewrite lookup_insert_ne|]. rewrite lookup_insert_eq. lia.
  - split; [split; [intros _; apply map_size_empty_iff; lia|done]|].
    replace k1 with (with_satp_refs (k_satp_refs k) k1) by done. apply Hrefs; [done|].
    rewrite Hn. lia.
Qed.

(** A root joined by one more process is counted. *)
Lemma satp_share_ok (k : kernel) (q root : Z) (p : Process) :
  refs_ok k → root ≠ 0 → Z.of_nat (size (users root k)) < 2 ^ 64 - 1 →
  (1 ≤ size (users root k))%nat → proc_of q k = None →
  satp_root (satp_val (space p)) = root →
  refs_ok (satp_share root (with_procs (<[q := p]> (k_procs k)) k)).
Proof.
  intros Hok Hr0 Hmax Hone Hq Hp r Hr'. unfold satp_share, users, proc_of in *. simpl.
  rewrite fmap_insert.
  pose proof (Hok r Hr') as Hroot. destruct (decide (r = root)) as [->|Hne].
  - rewrite lookup_insert_eq. rewrite map_filter_insert_True by done.
    rewrite map_size_insert_None
      by (apply map_lookup_filter_None; left; by rewrite lookup_fmap, Hq).
    unfold users in Hroot. destruct (k_satp_refs k !! root); simpl; unfold wrap;
      rewrite Z.mod_small; lia.
  - rewrite lookup_insert_ne by done. rewrite map_filter_insert_False by (simpl; congruence).
    rewrite delete_id by (by rewrite lookup_fmap, Hq). exact Hroot.
Qed.

(** What [release_space] does, once [satp_unshare] has answered. *)
Lemma release_space_unshare (root : Z) (k : kernel) (b : bool) (refs : gmap Z Z) :
  satp_unshare root k = (b, with_satp_refs refs k) →
  let '(r, k') := release_space root k in
  k_satp_refs k' = refs ∧ (∀ q, view space q k' = view space q k) ∧
  (b = false → r = Ok tt ∧ k_mm k' = k_mm k) ∧
  (b = true → k_pmm (k_mm k') = (destroy_user_space root (k_pmm (k_mm k))).2) ∧
  (r = Ok tt ∨ ∃ w, r = Panic w).
Proof.
  intros Hun. unfold release_space. rewrite Hun. destruct b; [|split_and!; by try left].
  unfold mbind, M_bind, ignore, match_result, on_mm, on_pmm, modify. simpl.
  change (k_pmm (evict_all root (k_mm k))) with (k_pmm (k_mm k)).
  destruct (destroy_user_space root (k_pmm (k_mm k))) as [[[]|e|w] s]; simpl;
    split_and!; eauto; done.
Qed.

(** Nobody else runs on the tables of a process that leaves. *)
Lemma no_other_user (c root : Z) (k : kernel) :
  users root (with_procs (delete c (k_procs k)) k) = ∅ ↔
  ∀ q p, q ≠ c → proc_of q k = Some p → satp_root (satp_val (space p)) ≠ root.
Proof.
  split.
  - intros He q p Hq Hp Hr.
    assert (users root (with_procs (delete c (k_procs k)) k) !! q = Some (space p)) as Hin.
    { apply lookup_users. unfold view, proc_of in *. simpl. by rewrite lookup_delete_ne, Hp. }
    by rewrite He, lookup_empty in Hin.
  - intros Hall. apply map_empty. intros q. apply eq_None_not_Some. intros [sp Hsp].
    apply lookup_users in Hsp as [Hsp Hr]. unfold view, proc_of in Hsp. simpl in Hsp.
    destruct (decide (q = c)) as [->|Hq]; [by rewrite lookup_delete_eq in Hsp|].
    rewrite lookup_delete_ne in Hsp by done.
    destruct (k_procs k !! q) as [p|] eqn:Hp; [|done]. injection Hsp as <-. by eapply Hall.
Qed.

(** Dropping a reference depends on the counts alone. *)
Lemma satp_unshare_refs (root : Z) (k k' : kernel) :
  k_satp_refs k' = k_satp_refs k →
  ∃ b refs, satp_unshare root k = (b, with_satp_refs refs k) ∧
            satp_unshare root k' = (b, with_satp_refs refs k').
Proof.
  intros Hr. unfold satp_unshare. rewrite Hr.
  destruct (k_satp_refs k !! root); [destruct (_ =? 0); eauto|].
  exists true, (k_satp_refs k). split; [by destruct k|f_equal; rewrite <-Hr; by destruct k'].
Qed.

(** The end of reaping: the status is stored and the pid returned. *)
Definition reap_result (c st ptr : Z) : M kernel unit :=
  (if ptr =? 0 then mret tt
   else modify (store_user ptr (le_bytes 4 (wrap 32 st)))) ;; modify (set_a0 (to_usize c)).
Lemma reap_result_spec (c st ptr : Z) (k : kernel) :
  ∃ k', reap_result c st ptr k = (Ok tt, k') ∧ k_mm k' = k_mm k ∧ k_satp_refs k' = k_satp_refs k ∧
    ∀ q, view space q k' = view space q k.
Proof.
  exists (set_a0 (to_usize c) (if ptr =? 0 then k else store_user ptr (le_bytes 4 (wrap 32 st)) k)).
  unfold reap_result. split_and!; [by destruct (ptr =? 0)..|].
  intros q. unfold set_a0. rewrite view_upd_same by done. by destruct (ptr =? 0).
Qed.

(** reaping never frees a page table another process still uses: while the
    zombie's root has another user, reaping it leaves the memory manager exactly
    as it was; without one, the root is released by [destroy_user_space]; and the
    reference counts stay equal to the numbers of users. *)
Theorem reap_respects_sharing (c st me ptr : Z) (k : kernel) (z : Process) :
  refs_ok k → proc_of c k = Some z → satp_root (satp_val (space z)) ≠ 0 →
  let root := satp_root (satp_val (space z)) in
  let k' := (reap_zombie c st me ptr k).2 in
  refs_ok k' ∧
  ((∃ q p, q ≠ c ∧ proc_of q k = Some p ∧ satp_root (satp_val (space p)) = root) →
     (reap_zombie c st me ptr k).1 = Ok tt ∧ k_mm k' = k_mm k) ∧
  ((∀ q p, q ≠ c → proc_of q k = Some p → satp_root (satp_val (space p)) ≠ root) →
     k_pmm (k_mm k') = (destroy_user_space root (k_pmm (k_mm k))).2).
Proof.
  intros Hok Hz Hr0 root k'.
  set (kd := with_procs (delete c (k_procs k)) k).
  pose proof (satp_unshare_last k c root z Hok Hz eq_refl Hr0) as Hun.
  cbv zeta in Hun. fold kd in Hun.
  set (k1 := dealloc_kstack (kernel_stack_bottom (space z)) (upd_proc me
     (λ p, set_wait_target None None (remove_child c p)) kd)).
  assert (∀ q, view space q k1 = view space q kd) as Hv1.
  { intros q. transitivity (view space q (upd_proc me
      (λ p, set_wait_target None None (remove_child c p)) kd)); [|by apply view_upd_same].
    unfold k1, dealloc_kstack. by destruct (_ =? 0). }
  assert (k_satp_refs k1 = k_satp_refs kd ∧ k_mm k1 = k_mm k) as [Hr1 Hm1].
  { unfold k1, dealloc_kstack. by destruct (_ =? 0). }
  destruct (satp_unshare_refs root kd k1 Hr1) as (b & refs & Hd & H1).
  rewrite Hd in Hun. destruct Hun as [Hlast Hrefs].
  assert (reap_zombie c st me ptr k = (release_space root ;; reap_result c st ptr) k1) as Hreap.
  { unfold reap_zombie. erewrite bind_ok by reflexivity. rewrite Hz.
    rewrite (proj2 (Z.eqb_neq _ _) Hr0). reflexivity. }
  pose proof (release_space_unshare root k1 b refs H1) as Hrel.
  unfold k'. rewrite Hreap. unfold mbind at 1 2 3 4, M_bind.
  destruct (release_space root k1) as [r kr].
  destruct Hrel as (Hrr & Hrv & Hfalse & Htrue & Hres).
  assert (∀ q, view space q kr = view space q kd) as Hrv' by (intros q; by rewrite Hrv, Hv1).
  destruct (reap_result_spec c st ptr kr) as (kf & Ht & Hmf & Hrf & Hvf).
  pose proof (no_other_user c root k) as Husers. fold kd in Husers.
  split_and!.
  - destruct Hres as [->|[w ->]]; [rewrite Ht|]; (eapply refs_ok_ext; [..|exact Hrefs]); try done.
    + intros q. by rewrite Hvf.
    + simpl. by rewrite Hrf.
  - intros (q & p & Hq & Hp & Hr). destruct b.
    { exfalso. exact (proj1 Husers (proj1 Hlast eq_refl) q p Hq Hp Hr). }
    destruct (Hfalse eq_refl) as [-> Hmm]. rewrite Ht. simpl. by rewrite Hmf, Hmm, Hm1.
  - intros Hall. rewrite <-Hm1, <-Htrue by (by apply Hlast, Husers).
    destruct Hres as [->|[w ->]]; [|done]. rewrite Ht. simpl. by rewrite Hmf.
Qed.

(** Two threads on one root page table, one of them a zombie. *)
Definition threads_kernel : kernel :=
  with_satp_refs {[ 2147500032 := 2 ]} (demo_kernel 2 []
    [set_satp (Z.shiftr 2147500032 12) (demo_proc 2 5 Running [3]);
     set_satp (Z.shiftr 2147500032 12) (demo_proc 3 2 (Zombie 0) [])]).

Lemma reap_respects_sharing_witness :
  refs_ok threads_kernel ∧
  (reap_zombie 3 0 2 0 threads_kernel).1 = Ok tt ∧
  k_mm (reap_zombie 3 0 2 0 threads_kernel).2 = k_mm threads_kernel.
Proof.
  assert (refs_ok threads_kernel) as Hok.
  { intros root Hr. destruct (decide (root = 2147500032)) as [->|Hne].
    - vm_compute. split; [split; [discriminate|reflexivity]|reflexivity].
    - change (k_satp_refs threads_kernel) with ({[ 2147500032 := 2 ]} : gmap Z Z).
      rewrite lookup_singleton_ne by done.
      assert (users root threads_kernel = ∅) as ->; [|vm_compute; lia].
      apply map_empty. intros q. apply eq_None_not_Some. intros [sp Hsp].
      apply lookup_users in Hsp as [Hsp Hroot]. unfold view, threads_kernel, proc_of in Hsp.
      simpl in Hsp. rewrite <-lookup_fmap, !fmap_insert, fmap_empty in Hsp.
      apply lookup_insert_Some in Hsp as [[_ <-]|[_ [[_ <-]|[_ Hsp]]%lookup_insert_Some]];
        [by apply Hne; rewrite <-Hroot; vm_compute..|done]. }
  split; [exact Hok|].
  refine (proj1 (proj2 (reap_respects_sharing 3 0 2 0 threads_kernel _ Hok
    ltac:(vm_compute; reflexivity) ltac:(vm_compute; discriminate))) _).
  exists 2. eexists. split_and!; [discriminate|vm_compute; reflexivity|vm_compute; reflexivity].
Defined.

(** ** Where the lifecycle goes wrong *)

(** Process 2 waits for its process group; its child 3 belongs to the group. *)
Definition group_kernel : kernel :=
  demo_kernel 2 [] [demo_proc 2 5 Running [3];
    with_family (mkFamily 3 2 2 2 []) (demo_proc 3 2 Running [])].

(** a parent that sleeps in [waitpid(0)] is not woken when a child of its group
    exits: [try_wake_parent] compares the target 0 with the pid.  The parent stays
    asleep with an empty run queue, although the same call would now reap the child. *)
Theorem group_wait_never_woken (st : Z) :
  let k := (sys_waitpid 0 0 0 group_kernel).2 in
  let k' := (exit 3 st k).2 in
  (sys_waitpid 0 0 0 group_kernel).1 = Ok Block ∧ (exit 3 st k).1 = Ok tt ∧
  view state 3 k' = Some (Zombie st) ∧ view state 2 k' = Some Stopped ∧ k_runq k' = [] ∧
  (sys_waitpid 0 0 0 k').1 = Ok Return ∧
  view (reg 10 ∘ trap_frame) 2 (sys_waitpid 0 0 0 k').2 = Some 3.
Proof. vm_compute. split_and!; reflexivity. Qed.

(** [exit] of a process that is already a zombie reports it again: after a
    second [exit] (SIGKILL does not look at the state) two calls of [waitpid] both
    return the same child, the second one with the signal's status. *)
Theorem zombie_reported_twice (st : Z) :
  let k0 := demo_kernel 2 [] [demo_proc 2 5 Running [3]; demo_proc 3 2 Running []] in
  let k := (exit 3 (-9) (exit 3 st k0).2).2 in
  let k1 := (sys_waitpid (to_usize (-1)) 0 0 k).2 in
  let k2 := (sys_waitpid (to_usize (-1)) 0 0 k1).2 in
  proc_of 3 k1 = None ∧ view (reg 10 ∘ trap_frame) 2 k1 = Some 3 ∧
  view (wait_result ∘ waits) 2 k1 = Some [(3, -9)] ∧
  view (reg 10 ∘ trap_frame) 2 k2 = Some 3.
Proof. vm_compute. split_and!; reflexivity. Qed.

(** [waitpid target] returns the head of the queue of results whatever the target. *)
Lemma waitpid_takes_head (target ptr options z st : Z) (k : kernel) (par zp : Process)
    (l : list (Z * Z)) :
  proc_of (k_current k) k = Some par → wait_result (waits par) = (z, st) :: l →
  proc_of z k = Some zp → z ≠ k_current k → (10 < reg_count par)%nat →
  (ptr = 0 ∨ is_user_pointer_valid 4 ptr 1 = true) →
  (∃ k', sys_waitpid target ptr options k = (Ok Return, k') ∧
     view (reg 10 ∘ trap_frame) (k_current k) k' = Some (to_usize z)) ∨
  ∃ w, (destroy_user_space (satp_root (satp_val (space zp))) (k_pmm (k_mm k))).1 = Panic w.
Proof.
  intros Hpar Hr Hz Hne Hlen Hptr. set (me := k_current k) in *.
  set (k1 := upd_proc me (set_wait_result l) k).
  assert (proc_of me k1 = Some (set_wait_result l par)) as Hme1.
  { unfold k1, proc_of in *. simpl. by rewrite lookup_alter_eq, Hpar. }
  assert (proc_of z k1 = Some zp) as Hz1.
  { unfold k1, proc_of in *. simpl. by rewrite lookup_alter_ne. }
  destruct (reap_zombie_spec z st me ptr k1 zp _ Hz1 eq_refl Hne Hme1 Hlen)
    as [(k' & Hreap & _ & Ha & _)|]; [left|by right].
  exists k'. split; [|exact Ha]. unfold sys_waitpid.
  assert (negb (ptr =? 0) && negb (is_user_pointer_valid 4 ptr 1) = false) as ->.
  { destruct Hptr as [->| ->]; [done|]. apply Bool.andb_false_r. }
  rewrite (bind_ok _ _ _ (Some Return) k'); [reflexivity|].
  unfold waitpid_scan. erewrite bind_ok by reflexivity. fold me. erewrite bind_ok.
  2:{ unfold pop_result. rewrite Hpar. simpl. rewrite Hr. reflexivity. }
  simpl. fold k1. by erewrite bind_ok by exact Hreap.
Qed.

(** a parent that is not waiting when child [z] exits, and then asks for another
    child, is given [z]: the queued result is returned without a look at the target. *)
Theorem waitpid_ignores_target (target z st : Z) (k : kernel) (par zp : Process) :
  proc_of (k_current k) k = Some par → wait_result (waits par) = [(z, st)] →
  proc_of z k = Some zp → z ≠ k_current k → (10 < reg_count par)%nat →
  0 < to_i32 target → to_i32 target ≠ z →
  (∃ k', sys_waitpid target 0 0 k = (Ok Return, k') ∧
     view (reg 10 ∘ trap_frame) (k_current k) k' = Some (to_usize z)) ∨
  ∃ w, (destroy_user_space (satp_root (satp_val (space zp))) (k_pmm (k_mm k))).1 = Panic w.
Proof. intros Hpar Hr Hz Hne Hlen _ _. apply (waitpid_takes_head _ _ _ _ st _ par _ []); auto. Qed.

Lemma waitpid_ignores_target_witness :
  let k := (exit 3 7 (demo_kernel 2 [] [demo_proc 2 5 Running [3; 4]; demo_proc 3 2 Running [];
              demo_proc 4 2 Running []])).2 in
  view (reg 10 ∘ trap_frame) 2 (sys_waitpid 4 0 0 k).2 = Some 3.
Proof.
  intros k.
  assert (∃ par zp, proc_of (k_current k) k = Some par ∧ wait_result (waits par) = [(3, 7)] ∧
    proc_of 3 k = Some zp ∧ 3 ≠ k_current k ∧ (10 < reg_count par)%nat ∧
    satp_root (satp_val (space zp)) = 0) as (par & zp & Hp & Hr & Hz & Hne & Hlen & Hsp).
  { do 2 eexists. split_and!; try (vm_compute; reflexivity); vm_compute; [discriminate|lia]. }
  destruct (waitpid_ignores_target 4 3 7 k par zp Hp Hr Hz Hne Hlen ltac:(vm_compute; reflexivity)
    ltac:(vm_compute; discriminate)) as [(k' & -> & H)|[w Hw]]; [exact H|].
  rewrite Hsp in Hw. vm_compute in Hw. discriminate Hw.
Defined.

(** when copying the address space fails, [fork] panics the kernel instead of
    returning an error: it calls [cleanup_process] while it still holds the process
    table, and the second lock of the table by the same HART is a panic. *)
Theorem fork_failure_panics (kstack t1 t2 : Z) (k k1 : kernel) (child par : Process) (e : string) :
  process_new (k_current k) kstack t1 t2 k = (Ok child, k1) →
  proc_of (k_current k) k1 = Some par →
  (clone_user_space (satp_root (satp_val (space par))) (satp_root (satp_val (space child)))
     (k_pmm (k_mm k1))).1 = Err e →
  (fork kstack t1 t2 k).1 = Panic "Recursive lock deadlock detected!".
Proof.
  intros Hnew Hpar Hclone. unfold fork. erewrite bind_ok by reflexivity.
  erewrite bind_ok by exact Hnew. erewrite bind_ok by reflexivity. rewrite Hpar.
  unfold mbind, M_bind, match_result, on_mm, on_pmm.
  destruct (clone_user_space _ _ _) as [r s]. simpl in Hclone. by rewrite Hclone.
Qed.

(** One frame is left, and the parent has a page-table page to copy. *)
Definition tight_kernel : kernel :=
  let m := write_word (write_word (mem demo_pmm) 2147500032 0 0) 2147491840 4
             (mk_pte 2147495936 0) in
  with_mm (demo_k (set_mem m demo_pmm)) (demo_kernel 2 []
    [set_satp (Z.shiftr 2147491840 12) (demo_proc 2 5 Running [])]).

(** Whether the copy of the address space fails, after the process was made. *)
Definition clone_fails (cur : Z) (r : outcome Process * kernel) : bool :=
  match r with
  | (Ok child, k1) =>
      match proc_of cur k1 with
      | Some par => match (clone_user_space (satp_root (satp_val (space par)))
          (satp_root (satp_val (space child))) (k_pmm (k_mm k1))).1 with
          | Err _ => true | _ => false end
      | None => false
      end
  | _ => false
  end.

Lemma fork_failure_panics_witness :
  (fork 4096 0 0 tight_kernel).1 = Panic "Recursive lock deadlock detected!".
Proof.
  assert (clone_fails (k_current tight_kernel)
    (process_new (k_current tight_kernel) 4096 0 0 tight_kernel) = true) as H
    by (vm_compute; reflexivity).
  destruct (process_new (k_current tight_kernel) 4096 0 0 tight_kernel) as [r k1] eqn:Hnew.
  destruct r as [child| |]; [|discriminate H..]. cbn [clone_fails] in H.
  destruct (proc_of _ k1) as [par|] eqn:Hpar; [|discriminate H].
  destruct ((clone_user_space _ _ _).1) as [|e|] eqn:Hc; [discriminate H| |discriminate H].
  exact (fork_failure_panics 4096 0 0 tight_kernel k1 child par e Hnew Hpar Hc).
Defined.

(** Waking only appends to the list of processes made runnable. *)
Definition wakes_more (s s' : chan_st) : Prop := enqueued s `prefix_of` enqueued s'.

#[local] Instance wakes_more_preorder : PreOrder wakes_more.
Proof. split; unfold wakes_more; [intros s; done|intros s1 s2 s3; by etrans]. Qed.

Lemma wakes_more_foldl {A} (f : chan_st → A → chan_st) (l : list A) (s : chan_st) :
  (∀ s x, wakes_more s (f s x)) → wakes_more s (foldl f s l).
Proof.
  intros Hf. revert s. induction l as [|x l IH]; intros s; [done|]. simpl.
  etrans; [apply Hf|apply IH].
Qed.

Lemma wakes_more_notify (id : Z) (s : chan_st) : wakes_more s (notify id s).
Proof.
  unfold notify. destruct (endpoints s !! id) as [e|] eqn:He; [|done].
  unfold notify_signals. rewrite He. etrans; [|apply wakes_more_foldl].
  - apply (wakes_more_foldl _ _ (upd_ep id _ s)). intros s' w. by exists [w.1].
  - intros s' o. destruct (_ =? 0); [done|]. unfold queue_packet.
    destruct (ports s' !! ob_port o); [|done]. unfold wakes_more.
    destruct (0 <? _); simpl; [by eexists|done].
Qed.

(** Dropping an endpoint whose peer has a blocked reader wakes that reader. *)
Lemma drop_endpoint_wakes (ep peer : Z) (s : chan_st) (e e' : endpoint) :
  endpoints s !! ep = Some e → ep_peer e = peer →
  endpoints s !! peer = Some e' → 0 < ep_waiter e' →
  (length (enqueued s) < length (enqueued (drop_endpoint ep s)))%nat.
Proof.
  intros He Hpeer He' Hw. unfold drop_endpoint.
  assert (peer_of ep s = Some peer) as ->.
  { unfold peer_of. by rewrite He, Hpeer, He'. }
  rewrite He'. unfold take_waiter. cbn [endpoints]. rewrite lookup_insert_eq. cbn [ep_waiter].
  rewrite (proj2 (Z.ltb_lt _ _) Hw). cbn [set_eps enqueued].
  match goal with |- context [notify peer (upd_ep peer ?f ?s4)] =>
    pose proof (wakes_more_notify peer (upd_ep peer f s4)) as Hn;
    assert (wakes_more (enqueue (ep_waiter e') s) s4) as H4 end.
  { etrans; [|apply wakes_more_foldl; intros s' w; by exists [w.1]].
    by unfold wakes_more. }
  apply prefix_length in Hn. apply prefix_length in H4. simpl in Hn, H4.
  rewrite length_app in H4. simpl in H4. lia.
Qed.

(** a process that exits while it holds the last handle to a channel endpoint,
    and another process is blocked reading the other end, panics the kernel: [exit]
    closes the handles with the process table locked, and waking the reader locks
    it again. *)
Theorem exit_with_blocked_peer_panics (q st ep : Z) (k : kernel) (p : Process) (e e' : endpoint) :
  proc_of q k = Some p → channel_ids (fds p) = [ep] →
  referenced ep (upd_proc q (with_fds new_table) (upd_proc q (with_state (Zombie st)) k)) = false →
  endpoints (k_chan k) !! ep = Some e →
  endpoints (k_chan k) !! ep_peer e = Some e' → 0 < ep_waiter e' →
  (exit q st k).1 = Panic "Recursive lock deadlock detected!".
Proof.
  intros Hp Hids Href He He' Hw. rewrite (exit_eq _ _ _ _ Hp).
  pose proof (drop_endpoint_wakes ep _ _ e e' He eq_refl He' Hw) as Hlt.
  assert (proc_of q (upd_proc q (with_state (Zombie st)) k)
            = Some (with_state (Zombie st) p)) as Hq.
  { unfold proc_of in *. simpl. by rewrite lookup_alter_eq, Hp. }
  unfold mbind, M_bind, close_all_fds. rewrite Hq.
  change (fds (with_state (Zombie st) p)) with (fds p). rewrite Hids.
  change (remove_dups [ep]) with [ep]. cbn [List.filter]. rewrite Href. cbn [negb foldl].
  change (k_chan (upd_proc q _ (upd_proc q _ k))) with (k_chan k).
  by rewrite (proj2 (Nat.eqb_neq _ _)) by lia.
Qed.

(** Process 2 holds endpoint 1, process 3 is blocked reading endpoint 2. *)
Definition peer_kernel : kernel :=
  with_chan (mkChan (<[1 := mkEp [] None false 2 0 [] [] []]>
                    (<[2 := mkEp [] None false 1 3 [] [] []]> ∅)) ∅ ∅ [] [] 3)
    (demo_kernel 2 [] [with_fds (insert_at 3 (KChannel 1) new_table) (demo_proc 2 5 Running []);
       with_fds (insert_at 3 (KChannel 2) new_table) (demo_proc 3 5 Running [])]).

Lemma exit_with_blocked_peer_panics_witness :
  (exit 2 0 peer_kernel).1 = Panic "Recursive lock deadlock detected!".
Proof.
  apply (exit_with_blocked_peer_panics 2 0 1 peer_kernel
    (with_fds (insert_at 3 (KChannel 1) new_table) (demo_proc 2 5 Running []))
    (mkEp [] None false 2 0 [] [] []) (mkEp [] None false 1 3 [] [] []));
    vm_compute; reflexivity.
Defined.
