(* ===== verification/Rendezvous.v ===== *)
(** * Synchronous messages (the mailbox and the rendezvous IPC of
      src/syscall/ipc.rs)

    [send], [receive] and [sendrec] as state transformers.  A call that blocks
    winds [sepc] back, so that the process re-executes it when it is scheduled
    again: the theorems follow a message through such re-executions.  [bytes] is
    what the caller's buffer holds. *)

From Stdlib Require Import ZArith Lia.
From stdpp Require Import prelude gmap sorting strings relations.
From S2P Require Import Prelude Pmm Vmm Swap Handle Vmo FileLock Channel Process Lifecycle.

Local Open Scope Z_scope.

Definition unwrap_none {A} : M kernel A := panic "called `Option::unwrap()` on a `None` value".

(** The size of [Message]. *)
Definition MESSAGE_SIZE : Z := 64.

(** [tf.sepc -= 4; schedule()]. *)
Definition block_and_retry : M kernel control :=
  me ← gets k_current;
  modify (upd_proc me (on_tf (add_sepc (-4)))) ;; mret Block.

Definition copy_message (ptr : Z) (m : Message) (k : kernel) : kernel :=
  store_user ptr (message_bytes m) k.

(** ** The mailbox *)

Definition sys_mailbox_send (to_arg ptr len : Z) (bytes : list Z) : M kernel control :=
  let to := to_i32 to_arg in
  if 4096 <? len then ret usize_max
  else if negb (is_user_pointer_valid 1 ptr len) then ret usize_max
  else
    me ← gets k_current;
    o ← gets (proc_of to);
    match o with
    | None => ret usize_max
    | Some t =>
        modify (upd_proc to (λ p, set_mailbox (mailbox (ipc p) ++ [(me, take (Z.to_nat len) bytes)])
                                    (mailbox_waiter (ipc p)) p)) ;;
        (if mailbox_waiter (ipc t) =? 0 then mret tt
         else modify (upd_proc to (λ p, set_mailbox (mailbox (ipc p)) 0 p)) ;;
              modify (wake_if_stopped to)) ;;
        ret 0
    end.

Definition sys_mailbox_receive (ptr max_len from_ptr : Z) : M kernel control :=
  current_or_esrch (λ p,
    match mailbox (ipc p) with
    | (sender, buf) :: rest =>
        me ← gets k_current;
        modify (upd_proc me (λ p, set_mailbox rest (mailbox_waiter (ipc p)) p)) ;;
        let copy_len := Z.min max_len (Z.of_nat (length buf)) in
        if negb (is_user_pointer_valid 1 ptr copy_len) then ret usize_max
        else
          modify (store_user ptr (take (Z.to_nat copy_len) buf)) ;;
          (if from_ptr =? 0 then mret tt
           else modify (store_user from_ptr (le_bytes 4 (wrap 32 sender)))) ;;
          ret copy_len
    | [] =>
        me ← gets k_current;
        modify (upd_proc me (λ p, with_state Stopped (set_mailbox (mailbox (ipc p)) 1 p))) ;;
        block_and_retry
    end).

(** ** Rendezvous *)

(** A message from the kernel, such as a hardware interrupt. *)
Definition kernel_send_msg (target : Z) (msg : Message) (k : kernel) : kernel :=
  match proc_of target k with
  | None => k
  | Some t =>
      let queue := upd_proc target (λ p, set_irq_pending (irq_pending (ipc p) ++ [msg]) p) k in
      match ipc_state (ipc t) with
      | Receiving s _ =>
          if (s =? source msg) || (s =? -1)
          then enqueue_with_prio target (priority t)
                 (upd_proc target (set_ipc_state (MessageAvailable msg)) k)
          else queue
      | INone => upd_proc target (set_ipc_state (MessageAvailable msg)) k
      | _ => queue
      end
  end.

(** The message of a caller: its buffer, with the true source. *)
Definition user_message (me : Z) (bytes : list Z) : Message :=
  let m := message_of bytes in mkMessage me (type_ m) (data m).

(** The target takes a message it waits for. *)
Definition deposit (to : Z) (t : Process) (m : Message) (k : kernel) : kernel :=
  enqueue_with_prio to (priority t) (upd_proc to (set_ipc_state (MessageAvailable m)) k).

(** The sender queues up at the target. *)
Definition queue_sender (me to : Z) (m : Message) (reply : option Z) (k : kernel) : kernel :=
  upd_proc to (λ p, set_senders (senders (ipc p) ++ [me]) p)
    (upd_proc me (set_ipc_state (Sending to m reply)) k).

Definition accepts_send (me : Z) (s : IpcState) : bool :=
  match s with
  | Receiving src _ | ReceivingReply src _ => (src =? me) || (src =? -1)
  | _ => false
  end.

Definition sys_ipc_send (to_arg msg_ptr : Z) (bytes : list Z) : M kernel control :=
  let to := to_i32 to_arg in
  me ← gets k_current;
  o ← gets (proc_of me);
  match o with
  | None => unwrap_none
  | Some sender =>
      match ipc_state (ipc sender) with
      | SendComplete => modify (upd_proc me (set_ipc_state INone)) ;; ret 0
      | _ =>
          if negb (is_user_pointer_valid MESSAGE_SIZE msg_ptr 1) then ret usize_max else
          let m := user_message me bytes in
          target ← gets (proc_of to);
          match target with
          | None => ret usize_max
          | Some t =>
              if accepts_send me (ipc_state (ipc t)) then modify (deposit to t m) ;; ret 0
              else if to =? me then recursive_lock
              else modify (queue_sender me to m None) ;; block_and_retry
          end
      end
  end.

(** The first sender in the queue that matches, and the queue without it. *)
Definition matches_from (from s : Z) : bool := (from =? -1) || (from =? s).
Fixpoint take_first {A} (p : A → bool) (l : list A) : option (A * list A) :=
  match l with
  | [] => None
  | x :: l' => if p x then Some (x, l') else
      match take_first p l' with Some (y, r) => Some (y, x :: r) | None => None end
  end.

(** Receiving from a queued sender. *)
Definition receive_from_sender (me s : Z) (rest : list Z) (msg_ptr : Z) : M kernel control :=
  modify (upd_proc me (set_senders rest)) ;;
  o ← gets (proc_of s);
  match o with
  | None => unwrap_none
  | Some sender =>
      match ipc_state (ipc sender) with
      | Sending _ msg reply =>
          if negb (is_user_pointer_valid MESSAGE_SIZE msg_ptr 1) then ret usize_max else
          modify (copy_message msg_ptr msg) ;;
          (match reply with
           | Some r_ptr => modify (upd_proc s (set_ipc_state (ReceivingReply me r_ptr)))
           | None => modify (λ k, enqueue_with_prio s (priority sender)
                                    (upd_proc s (set_ipc_state SendComplete) k))
           end) ;;
          ret (to_usize (source msg))
      | _ => ret usize_max
      end
  end.

Definition sys_ipc_receive (from_arg msg_ptr : Z) : M kernel control :=
  let from := to_i32 from_arg in
  me ← gets k_current;
  o ← gets (proc_of me);
  match o with
  | None => unwrap_none
  | Some receiver =>
      match ipc_state (ipc receiver) with
      | MessageAvailable msg =>
          if negb (is_user_pointer_valid MESSAGE_SIZE msg_ptr 1) then ret usize_max else
          modify (copy_message msg_ptr msg) ;;
          modify (upd_proc me (λ p, match irq_pending (ipc p) with
             | next :: rest => set_ipc_state (MessageAvailable next) (set_irq_pending rest p)
             | [] => set_ipc_state INone p
             end)) ;;
          ret (to_usize (source msg))
      | _ =>
          match take_first (λ m, matches_from from (source m)) (irq_pending (ipc receiver)) with
          | Some (msg, rest) =>
              modify (upd_proc me (set_irq_pending rest)) ;;
              if negb (is_user_pointer_valid MESSAGE_SIZE msg_ptr 1) then ret usize_max else
              modify (copy_message msg_ptr msg) ;;
              ret (to_usize (source msg))
          | None =>
              match take_first (matches_from from) (senders (ipc receiver)) with
              | Some (s, rest) => receive_from_sender me s rest msg_ptr
              | None =>
                  modify (upd_proc me (set_ipc_state (Receiving from msg_ptr))) ;;
                  block_and_retry
              end
          end
      end
  end.

Definition sys_ipc_sendrec (to_arg msg_ptr : Z) (bytes : list Z) : M kernel control :=
  let to := to_i32 to_arg in
  me ← gets k_current;
  o ← gets (proc_of me);
  match o with
  | None => unwrap_none
  | Some sender =>
      match ipc_state (ipc sender) with
      | MessageAvailable msg =>
          modify (copy_message msg_ptr msg) ;;
          modify (upd_proc me (set_ipc_state INone)) ;; ret 0
      | ReceivingReply _ _ => block_and_retry
      | INone =>
          let m := user_message me bytes in
          target ← gets (proc_of to);
          match target with
          | None => ret usize_max
          | Some t =>
              if to =? me then recursive_lock else
              match ipc_state (ipc t) with
              | Receiving src _ =>
                  if (src =? me) || (src =? -1) then
                    modify (deposit to t m) ;;
                    modify (upd_proc me (set_ipc_state (ReceivingReply to msg_ptr))) ;;
                    block_and_retry
                  else modify (queue_sender me to m (Some msg_ptr)) ;; block_and_retry
              | _ => modify (queue_sender me to m (Some msg_ptr)) ;; block_and_retry
              end
          end
      | _ => modify (upd_proc me (set_ipc_state INone)) ;; ret usize_max
      end
  end.

(** ** Following a call *)

(** The process is scheduled, in its address space. *)
Definition run_as (q : Z) (k : kernel) : kernel :=
  with_current q (from_option (satp_val ∘ space) 0 (proc_of q k)) k.

Definition with_ipc_state (x : IpcState) (i : Ipc) : Ipc :=
  mkIpc (mailbox i) (mailbox_waiter i) x (senders i) (irq_pending i).
Definition with_senders (x : list Z) (i : Ipc) : Ipc :=
  mkIpc (mailbox i) (mailbox_waiter i) (ipc_state i) x (irq_pending i).

(** What an IPC call leaves alone of every process. *)
Definition frame_of (p : Process) : Space * nat := (space p, reg_count p).

Lemma frame_on_tf (f : TrapFrame → TrapFrame) (p : Process) :
  (∀ t, length (regs (f t)) = length (regs t)) → frame_of (on_tf f p) = frame_of p.
Proof. intros Hf. unfold frame_of, reg_count, on_tf. simpl. by rewrite Hf. Qed.

(** [call me c k r k']: scheduled as [me], the call [c] ends in [r], leaves the
    frames alone and stores [out] through the address space of [me]. *)
Definition called (me : Z) (c : M kernel control) (k : kernel) (r : control) (out : list (Z * list Z))
    (k' : kernel) : Prop :=
  c (run_as me k) = (Ok r, k') ∧
  (∀ q, view frame_of q k' = view frame_of q k) ∧
  k_stores k' = k_stores k ++
    ((λ x, (satp_root (from_option (satp_val ∘ space) 0 (proc_of me k)), x.1, x.2)) <$> out).

(** The result register. *)
Definition a0 (q : Z) (k : kernel) : option Z := view (reg 10 ∘ trap_frame) q k.

Lemma a0_set (v : Z) (k : kernel) (p : Process) :
  proc_of (k_current k) k = Some p → (10 < reg_count p)%nat → a0 (k_current k) (set_a0 v k) = Some v.
Proof.
  intros Hp Hl. unfold a0, set_a0. rewrite view_upd_eq, Hp. simpl. by rewrite reg_set_reg.
Qed.

(** The IPC record of one process changes, the others keep theirs. *)
Definition ipc_update (me : Z) (i : Ipc) (k k' : kernel) : Prop :=
  view ipc me k' = Some i ∧ ∀ q, q ≠ me → view ipc q k' = view ipc q k.

Section calls.
Context (me : Z) (k : kernel) (p : Process).
Hypothesis (Hp : proc_of me k = Some p).

(** The state after [tf.sepc -= 4] from a state [k1] reached by the call. *)
Lemma block_called (c : M kernel control) (k1 : kernel) :
  c (run_as me k) = block_and_retry k1 → k_current k1 = me →
  (∀ q, view frame_of q k1 = view frame_of q k) → k_stores k1 = k_stores k →
  ∃ k', called me c k Block [] k' ∧ (∀ q, view ipc q k' = view ipc q k1) ∧ k_runq k' = k_runq k1.
Proof.
  intros Hc Hcur Hf Hs. eexists. split; [split; [|split]|split].
  - rewrite Hc. unfold block_and_retry. erewrite bind_ok by reflexivity.
    erewrite bind_ok by reflexivity. reflexivity.
  - intros q. simpl. rewrite view_upd_same; [by apply Hf|]. intros x. by apply frame_on_tf.
  - simpl. by rewrite app_nil_r.
  - intros q. by rewrite view_upd_same.
  - done.
Qed.

Lemma ret_called (c : M kernel control) (v : Z) (out : list (Z * list Z)) (k1 : kernel) :
  c (run_as me k) = ret v k1 → k_current k1 = me →
  (∀ q, view frame_of q k1 = view frame_of q k) → (10 < reg_count p)%nat →
  k_stores k1 = k_stores k ++
    ((λ x, (satp_root (satp_val (space p)), x.1, x.2)) <$> out) →
  ∃ k', called me c k Return out k' ∧ a0 me k' = Some v ∧
    (∀ q, view ipc q k' = view ipc q k1) ∧ k_runq k' = k_runq k1.
Proof.
  intros Hc Hcur Hf Hlen Hs. exists (set_a0 v k1). split; [split; [|split]|split_and!].
  - rewrite Hc. unfold ret. by erewrite bind_ok by reflexivity.
  - intros q. unfold set_a0. rewrite view_upd_same; [by apply Hf|]. intros x. apply frame_on_tf.
    intros t. apply length_insert.
  - rewrite Hp. exact Hs.
  - pose proof (Hf me) as Hme. unfold view in Hme. rewrite Hp in Hme.
    destruct (proc_of me k1) as [p1|] eqn:Hp1; [|done]. injection Hme as _ Hcnt.
    rewrite <-Hcur. eapply a0_set; [by rewrite Hcur|lia].
  - intros q. unfold set_a0. by rewrite view_upd_same.
  - done.
Qed.
End calls.

(** ** The moves of a conversation *)

Lemma view_some {A} (g : Process → A) (q : Z) (k : kernel) (p : Process) :
  proc_of q k = Some p → view g q k = Some (g p).
Proof. intros H. unfold view. by rewrite H. Qed.

Lemma proc_of_view {A} (g : Process → A) (q : Z) (k : kernel) (a : A) :
  view g q k = Some a → ∃ p, proc_of q k = Some p ∧ g p = a.
Proof. unfold view. destruct (proc_of q k); [|done]. intros [= <-]. eauto. Qed.

(** The handlers begin by looking up the caller. *)
Ltac at_caller :=
  repeat match goal with
  | |- context [k_current (run_as ?q ?k)] => change (k_current (run_as q k)) with q
  | |- context [proc_of ?x (run_as ?q ?k)] => change (proc_of x (run_as q k)) with (proc_of x k)
  end.

Section moves.
Context (me : Z) (k : kernel) (i : Ipc) (sp : Space) (n : nat).
Hypothesis (Hi : view ipc me k = Some i) (Hf : view frame_of me k = Some (sp, n)).
Hypothesis (Hn : (10 < n)%nat).

Lemma caller : ∃ p, proc_of me k = Some p ∧ ipc p = i ∧ space p = sp ∧ reg_count p = n.
Proof.
  destruct (proc_of_view _ _ _ _ Hi) as (p & Hp & <-). exists p.
  unfold view in Hf. rewrite Hp in Hf. by injection Hf as <- <-.
Qed.

(** Nothing to receive: the caller waits. *)
Lemma receive_waits (from ptr : Z) :
  ipc_state i = INone → irq_pending i = [] → senders i = [] →
  ∃ k', called me (sys_ipc_receive from ptr) k Block [] k' ∧
    ipc_update me (with_ipc_state (Receiving (to_i32 from) ptr) i) k k'.
Proof.
  intros Hs Hirq Hsend. destruct caller as (p & Hp & Hip & _ & _).
  set (k1 := upd_proc me (set_ipc_state (Receiving (to_i32 from) ptr)) (run_as me k)).
  destruct (block_called me k (sys_ipc_receive from ptr) k1) as (k' & Hc & Hv & _).
  - unfold sys_ipc_receive. erewrite bind_ok by reflexivity.
    erewrite bind_ok by reflexivity. at_caller. rewrite Hp, Hip, Hs, Hirq, Hsend. reflexivity.
  - done.
  - intros q. unfold k1. by rewrite view_upd_same.
  - done.
  - exists k'. split; [done|]. split.
    + rewrite Hv. unfold k1. rewrite view_upd_eq.
      change (proc_of me (run_as me k)) with (proc_of me k). rewrite Hp. simpl. by rewrite Hip.
    + intros q Hq. rewrite Hv. unfold k1. by rewrite view_upd_ne.
Qed.

(** A deposited message is taken, and the caller is idle again. *)
Lemma receive_takes (from ptr : Z) (m : Message) :
  ipc_state i = MessageAvailable m → irq_pending i = [] →
  is_user_pointer_valid MESSAGE_SIZE ptr 1 = true →
  ∃ k', called me (sys_ipc_receive from ptr) k Return [(ptr, message_bytes m)] k' ∧
    a0 me k' = Some (to_usize (source m)) ∧ ipc_update me (with_ipc_state INone i) k k'.
Proof.
  intros Hs Hirq Hptr. destruct caller as (p & Hp & Hip & Hsp & Hcnt).
  set (k1 := upd_proc me (λ p, match irq_pending (ipc p) with
             | next :: rest => set_ipc_state (MessageAvailable next) (set_irq_pending rest p)
             | [] => set_ipc_state INone p
             end) (copy_message ptr m (run_as me k))).
  destruct (ret_called me k p Hp (sys_ipc_receive from ptr) (to_usize (source m))
    [(ptr, message_bytes m)] k1) as (k' & Hc & Ha & Hv & _).
  - unfold sys_ipc_receive. erewrite bind_ok by reflexivity.
    erewrite bind_ok by reflexivity. at_caller. rewrite Hp, Hip, Hs, Hptr. cbn [negb].
    erewrite bind_ok by reflexivity. by erewrite bind_ok by reflexivity.
  - done.
  - intros q. unfold k1. rewrite view_upd_same; [done|]. intros x. by destruct (irq_pending (ipc x)).
  - lia.
  - unfold k1, copy_message. simpl. by rewrite Hp.
  - exists k'. split_and!; [done..|]. split.
    + rewrite Hv. unfold k1. rewrite view_upd_eq.
      change (proc_of me (copy_message ptr m (run_as me k))) with (proc_of me k).
      rewrite Hp. simpl. rewrite Hip, Hirq. simpl. by rewrite Hip.
    + intros q Hq. rewrite Hv. unfold k1. by rewrite view_upd_ne.
Qed.

(** The reply has arrived. *)
Lemma sendrec_finishes (to ptr : Z) (bytes : list Z) (m : Message) :
  ipc_state i = MessageAvailable m →
  ∃ k', called me (sys_ipc_sendrec to ptr bytes) k Return [(ptr, message_bytes m)] k' ∧
    a0 me k' = Some 0 ∧ ipc_update me (with_ipc_state INone i) k k'.
Proof.
  intros Hs. destruct caller as (p & Hp & Hip & Hsp & Hcnt).
  set (k1 := upd_proc me (set_ipc_state INone) (copy_message ptr m (run_as me k))).
  destruct (ret_called me k p Hp (sys_ipc_sendrec to ptr bytes) 0
    [(ptr, message_bytes m)] k1) as (k' & Hc & Ha & Hv & _).
  - unfold sys_ipc_sendrec. erewrite bind_ok by reflexivity.
    erewrite bind_ok by reflexivity. at_caller. rewrite Hp, Hip, Hs.
    erewrite bind_ok by reflexivity. by erewrite bind_ok by reflexivity.
  - done.
  - intros q. unfold k1. by rewrite view_upd_same.
  - lia.
  - unfold k1, copy_message. simpl. by rewrite Hp.
  - exists k'. split_and!; [done..|]. split.
    + rewrite Hv. unfold k1. rewrite view_upd_eq.
      change (proc_of me (copy_message ptr m (run_as me k))) with (proc_of me k).
      rewrite Hp. simpl. by rewrite Hip.
    + intros q Hq. rewrite Hv. unfold k1. by rewrite view_upd_ne.
Qed.
End moves.

Lemma view_deposit {A} (g : Process → A) (q to : Z) (t : Process) (m : Message) (k : kernel) :
  view g q (deposit to t m k) = view g q (upd_proc to (set_ipc_state (MessageAvailable m)) k).
Proof. done. Qed.

(** Two processes change, the others keep their IPC record. *)
Definition ipc_update2 (q1 : Z) (i1 : Ipc) (q2 : Z) (i2 : Ipc) (k k' : kernel) : Prop :=
  view ipc q1 k' = Some i1 ∧ view ipc q2 k' = Some i2 ∧
  ∀ q, q ≠ q1 → q ≠ q2 → view ipc q k' = view ipc q k.

Section two.
Context (me to : Z) (k : kernel) (i j : Ipc) (sp : Space) (n : nat).
Hypothesis (Hi : view ipc me k = Some i) (Hf : view frame_of me k = Some (sp, n)).
Hypothesis (Hj : view ipc to k = Some j) (Hn : (10 < n)%nat) (Hne : to ≠ me).

(** The target waits for the caller: it gets the message, the caller awaits the reply. *)
Lemma sendrec_deposits (to_arg ptr : Z) (bytes : list Z) (src mptr : Z) :
  to_i32 to_arg = to → ipc_state i = INone → ipc_state j = Receiving src mptr →
  src = me ∨ src = -1 →
  ∃ k', called me (sys_ipc_sendrec to_arg ptr bytes) k Block [] k' ∧ queued to k' ∧
    ipc_update2 me (with_ipc_state (ReceivingReply to ptr) i)
      to (with_ipc_state (MessageAvailable (user_message me bytes)) j) k k'.
Proof.
  intros Hto Hs Ht Hsrc. destruct (caller me k i sp n Hi Hf Hn) as (p & Hp & Hip & _ & _).
  destruct (proc_of_view _ _ _ _ Hj) as (t & Hpt & Hjt).
  set (k0 := deposit to t (user_message me bytes) (run_as me k)).
  set (k1 := upd_proc me (set_ipc_state (ReceivingReply to ptr)) k0).
  destruct (block_called me k (sys_ipc_sendrec to_arg ptr bytes) k1) as (k' & Hc & Hv & Hrq).
  - unfold sys_ipc_sendrec. erewrite bind_ok by reflexivity.
    erewrite bind_ok by reflexivity. at_caller. rewrite Hp, Hip, Hs.
    erewrite bind_ok by reflexivity. at_caller.
    rewrite Hto, Hpt, (proj2 (Z.eqb_neq _ _) Hne), Hjt, Ht.
    assert ((src =? me) || (src =? -1) = true) as ->
      by (apply orb_true_iff; rewrite !Z.eqb_eq; done).
    erewrite bind_ok by reflexivity. by erewrite bind_ok by reflexivity.
  - done.
  - intros q. unfold k1, k0. by rewrite view_upd_same, view_deposit, view_upd_same.
  - done.
  - exists k'. split_and!; [done| |split_and!].
    + unfold queued. rewrite Hrq. apply (queued_enqueue to). by right.
    + rewrite Hv. unfold k1. rewrite view_upd_eq. unfold k0, proc_of, deposit in *. simpl.
      rewrite lookup_alter_ne, Hp by done. simpl. by rewrite Hip.
    + rewrite Hv. unfold k1, k0. rewrite view_upd_ne, view_deposit, view_upd_eq by done.
      at_caller. rewrite Hpt. simpl. by rewrite Hjt.
    + intros q Hq1 Hq2. rewrite Hv. unfold k1, k0.
      by rewrite view_upd_ne, view_deposit, view_upd_ne.
Qed.

Lemma queue_sender_views (m : Message) (reply : option Z) :
  let k1 := queue_sender me to m reply (run_as me k) in
  (∀ q, view frame_of q k1 = view frame_of q k) ∧
  ipc_update2 me (with_ipc_state (Sending to m reply) i)
    to (with_senders (senders j ++ [me]) j) k k1.
Proof.
  destruct (caller me k i sp n Hi Hf Hn) as (p & Hp & Hip & _ & _).
  destruct (proc_of_view _ _ _ _ Hj) as (t & Hpt & Hjt). intros k1. unfold k1, queue_sender.
  split; [|split_and!].
  - intros q. by rewrite !view_upd_same.
  - rewrite view_upd_ne, view_upd_eq by done. at_caller. rewrite Hp. simpl. by rewrite Hip.
  - rewrite view_upd_eq. unfold proc_of in *. simpl. rewrite lookup_alter_ne, Hpt by done.
    simpl. by rewrite Hjt.
  - intros q Hq1 Hq2. by rewrite !view_upd_ne.
Qed.

(** The target is busy: the caller queues up, for the reply as well. *)
Lemma sendrec_queues (to_arg ptr : Z) (bytes : list Z) :
  to_i32 to_arg = to → ipc_state i = INone → ipc_state j = INone →
  ∃ k', called me (sys_ipc_sendrec to_arg ptr bytes) k Block [] k' ∧
    ipc_update2 me (with_ipc_state (Sending to (user_message me bytes) (Some ptr)) i)
      to (with_senders (senders j ++ [me]) j) k k'.
Proof.
  intros Hto Hs Ht. destruct (caller me k i sp n Hi Hf Hn) as (p & Hp & Hip & _ & _).
  destruct (proc_of_view _ _ _ _ Hj) as (t & Hpt & Hjt).
  destruct (queue_sender_views (user_message me bytes) (Some ptr)) as [Hfr (V1 & V2 & V3)].
  destruct (block_called me k (sys_ipc_sendrec to_arg ptr bytes)
    (queue_sender me to (user_message me bytes) (Some ptr) (run_as me k))) as (k' & Hc & Hv & _).
  - unfold sys_ipc_sendrec. erewrite bind_ok by reflexivity.
    erewrite bind_ok by reflexivity. at_caller. rewrite Hp, Hip, Hs.
    erewrite bind_ok by reflexivity. at_caller.
    rewrite Hto, Hpt, (proj2 (Z.eqb_neq _ _) Hne), Hjt, Ht.
    by erewrite bind_ok by reflexivity.
  - done.
  - done.
  - done.
  - exists k'. split; [done|]. split_and!; [by rewrite Hv..|].
    intros q Hq1 Hq2. rewrite Hv. by apply V3.
Qed.

(** A plain send to a process that waits for it. *)
Lemma send_delivers (to_arg ptr : Z) (bytes : list Z) :
  to_i32 to_arg = to → ipc_state i ≠ SendComplete → accepts_send me (ipc_state j) = true →
  is_user_pointer_valid MESSAGE_SIZE ptr 1 = true →
  ∃ k', called me (sys_ipc_send to_arg ptr bytes) k Return [] k' ∧ a0 me k' = Some 0 ∧
    queued to k' ∧
    ipc_update to (with_ipc_state (MessageAvailable (user_message me bytes)) j) k k'.
Proof.
  intros Hto Hs Ha Hptr. destruct (caller me k i sp n Hi Hf Hn) as (p & Hp & Hip & Hsp & Hcnt).
  destruct (proc_of_view _ _ _ _ Hj) as (t & Hpt & Hjt).
  set (k1 := deposit to t (user_message me bytes) (run_as me k)).
  destruct (ret_called me k p Hp (sys_ipc_send to_arg ptr bytes) 0 [] k1)
    as (k' & Hc & Ha0 & Hv & Hrq).
  - unfold sys_ipc_send. erewrite bind_ok by reflexivity.
    erewrite bind_ok by reflexivity. at_caller. rewrite Hp, Hip.
    destruct (ipc_state i) eqn:Hst; try done; rewrite Hptr; cbn [negb];
      (erewrite bind_ok by reflexivity; at_caller; rewrite Hto, Hpt, Hjt, Ha;
       by erewrite bind_ok by reflexivity).
  - done.
  - intros q. unfold k1. by rewrite view_deposit, view_upd_same.
  - lia.
  - unfold k1. simpl. by rewrite app_nil_r.
  - exists k'. split_and!; [done|done| |split].
    + unfold queued. rewrite Hrq. apply (queued_enqueue to). by right.
    + rewrite Hv. unfold k1. rewrite view_deposit, view_upd_eq.
      at_caller. rewrite Hpt. simpl. by rewrite Hjt.
    + intros q Hq. rewrite Hv. unfold k1. by rewrite view_deposit, view_upd_ne.
Qed.
End two.

(** A queued request is taken from its sender, who now awaits the reply. *)
Lemma receive_from_queue (me s : Z) (k : kernel) (i j : Ipc) (sp : Space) (n : nat)
    (from ptr : Z) (rest : list Z) (to : Z) (m : Message) (r_ptr : Z) :
  view ipc me k = Some i → view frame_of me k = Some (sp, n) → (10 < n)%nat →
  view ipc s k = Some j → s ≠ me →
  ipc_state i = INone → irq_pending i = [] →
  take_first (matches_from (to_i32 from)) (senders i) = Some (s, rest) →
  ipc_state j = Sending to m (Some r_ptr) → is_user_pointer_valid MESSAGE_SIZE ptr 1 = true →
  ∃ k', called me (sys_ipc_receive from ptr) k Return [(ptr, message_bytes m)] k' ∧
    a0 me k' = Some (to_usize (source m)) ∧
    ipc_update2 me (with_senders rest i) s (with_ipc_state (ReceivingReply me r_ptr) j) k k'.
Proof.
  intros Hi Hf Hn Hj Hne Hs Hirq Htake Hsend Hptr.
  destruct (caller me k i sp n Hi Hf Hn) as (p & Hp & Hip & Hsp & Hcnt).
  destruct (proc_of_view _ _ _ _ Hj) as (ps & Hps & Hjs).
  set (k0 := upd_proc me (set_senders rest) (run_as me k)).
  set (k1 := upd_proc s (set_ipc_state (ReceivingReply me r_ptr)) (copy_message ptr m k0)).
  destruct (ret_called me k p Hp (sys_ipc_receive from ptr) (to_usize (source m))
    [(ptr, message_bytes m)] k1) as (k' & Hc & Ha & Hv & _).
  - unfold sys_ipc_receive. erewrite bind_ok by reflexivity.
    erewrite bind_ok by reflexivity. at_caller. rewrite Hp, Hip, Hs, Hirq. cbn [take_first].
    rewrite Htake. unfold receive_from_sender. erewrite bind_ok by reflexivity. fold k0.
    erewrite bind_ok by reflexivity.
    assert (proc_of s k0 = Some ps) as ->.
    { unfold k0, proc_of in *. simpl. by rewrite lookup_alter_ne. }
    rewrite Hjs, Hsend, Hptr. cbn [negb].
    erewrite bind_ok by reflexivity. by erewrite bind_ok by reflexivity.
  - done.
  - intros q. unfold k1, k0. rewrite view_upd_same by done.
    change (view frame_of q (copy_message ptr m ?x)) with (view frame_of q x).
    by rewrite view_upd_same.
  - lia.
  - unfold k1, copy_message. simpl. by rewrite Hp.
  - exists k'. split_and!; [done|done|]. unfold ipc_update2. rewrite !Hv. unfold k1.
    split_and!.
    + rewrite view_upd_ne by done.
      change (view ipc me (copy_message ptr m k0)) with (view ipc me k0). unfold k0.
      rewrite view_upd_eq. at_caller. rewrite Hp. simpl. by rewrite Hip.
    + rewrite view_upd_eq.
      change (proc_of s (copy_message ptr m k0)) with (proc_of s k0).
      assert (proc_of s k0 = Some ps) as ->.
      { unfold k0, proc_of in *. simpl. by rewrite lookup_alter_ne. }
      simpl. by rewrite Hjs.
    + intros q Hq1 Hq2. rewrite Hv. unfold k1. rewrite view_upd_ne by done.
      change (view ipc q (copy_message ptr m k0)) with (view ipc q k0). unfold k0.
      by rewrite view_upd_ne.
Qed.

(** ** A remote call *)

(** The conversation from the moment the client awaits the reply of a server that
    has taken the request. *)
Lemma rpc_reply (c s : Z) (k : kernel) (i j : Ipc) (spc sps : Space) (nc ns : nat)
    (c_arg s_arg cptr rptr : Z) (reply bytes : list Z) :
  c ≠ s → to_i32 c_arg = c →
  view ipc c k = Some i → view ipc s k = Some j → ipc_state j = INone →
  ipc_state i = ReceivingReply s cptr →
  view frame_of c k = Some (spc, nc) → view frame_of s k = Some (sps, ns) →
  (10 < nc)%nat → (10 < ns)%nat → is_user_pointer_valid MESSAGE_SIZE rptr 1 = true →
  ∃ k1 k2,
    called s (sys_ipc_send c_arg rptr reply) k Return [] k1 ∧ a0 s k1 = Some 0 ∧ queued c k1 ∧
    called c (sys_ipc_sendrec s_arg cptr bytes) k1 Return
      [(cptr, message_bytes (user_message s reply))] k2 ∧ a0 c k2 = Some 0 ∧
    view ipc c k2 = Some (with_ipc_state INone i) ∧ view ipc s k2 = Some j.
Proof.
  intros Hne Hc Hi Hj Hjn Hwait Hfc Hfs Hnc Hns Hptr.
  destruct (send_delivers s c k j i sps ns Hj Hfs Hi Hns c_arg rptr reply Hc)
    as (k1 & Hcall & Ha & Hq & Hc1 & Ho1); [by rewrite Hjn| |done|].
  { rewrite Hwait. simpl. by rewrite Z.eqb_refl. }
  destruct Hcall as (Hrun & Hfr & Hst).
  destruct (sendrec_finishes c k1 _ spc nc Hc1 ltac:(by rewrite Hfr) Hnc s_arg cptr bytes
    (user_message s reply) eq_refl) as (k2 & Hcall2 & Ha2 & Hc2 & Ho2).
  exists k1, k2. split_and!; try done. by rewrite Ho2, Ho1.
Qed.

(** Two idle processes with room for a result, nothing pending for the server. *)
Record idle_pair (c s : Z) (k : kernel) : Prop := {
  pair_ne : c ≠ s;
  pair_client : ∃ i, view ipc c k = Some i ∧ ipc_state i = INone;
  pair_server : ∃ j, view ipc s k = Some j ∧ ipc_state j = INone ∧ senders j = [] ∧
                     irq_pending j = [];
  pair_regs q : q = c ∨ q = s → ∃ sp n, view frame_of q k = Some (sp, n) ∧ (10 < n)%nat;
}.

Lemma idle_kept (c s : Z) (k k' : kernel) :
  idle_pair c s k → (∀ q, view frame_of q k' = view frame_of q k) →
  view ipc c k' = view ipc c k → view ipc s k' = view ipc s k → idle_pair c s k'.
Proof.
  intros [Hne Hc Hs Hregs] Hfr Hi Hj. split; [done|by rewrite Hi|by rewrite Hj|].
  intros q Hq. rewrite Hfr. by apply Hregs.
Qed.
Lemma with_ipc_state_id i : ipc_state i = INone → with_ipc_state INone i = i.
Proof. destruct i. simpl. by intros ->. Qed.
Lemma with_senders_id j : senders j = [] → with_senders [] j = j.
Proof. destruct j. simpl. by intros ->. Qed.

(** C5: a remote call completes, whichever side comes first.  If the server waits
    for anyone, or serves its queue after the client has blocked, it receives the
    client's message with the client's true pid as source, whatever the client wrote
    there; when it answers with a plain send, the client's re-executed call returns 0
    with the reply, whose source is the server, in its buffer, and both are idle. *)
Theorem rpc_completes (c s c_arg s_arg any cptr sptr rptr : Z) (req reply : list Z) (k : kernel) :
  idle_pair c s k → to_i32 c_arg = c → to_i32 s_arg = s → to_i32 any = -1 →
  is_user_pointer_valid MESSAGE_SIZE sptr 1 = true →
  is_user_pointer_valid MESSAGE_SIZE rptr 1 = true →
  (∃ k1 k2 k3 k4 k5,
    called s (sys_ipc_receive any sptr) k Block [] k1 ∧
    called c (sys_ipc_sendrec s_arg cptr req) k1 Block [] k2 ∧ queued s k2 ∧
    called s (sys_ipc_receive any sptr) k2 Return
      [(sptr, message_bytes (user_message c req))] k3 ∧ a0 s k3 = Some (to_usize c) ∧
    called s (sys_ipc_send c_arg rptr reply) k3 Return [] k4 ∧ a0 s k4 = Some 0 ∧ queued c k4 ∧
    called c (sys_ipc_sendrec s_arg cptr req) k4 Return
      [(cptr, message_bytes (user_message s reply))] k5 ∧ a0 c k5 = Some 0 ∧
    idle_pair c s k5) ∧
  (∃ k1 k2 k3 k4,
    called c (sys_ipc_sendrec s_arg cptr req) k Block [] k1 ∧
    called s (sys_ipc_receive any sptr) k1 Return
      [(sptr, message_bytes (user_message c req))] k2 ∧ a0 s k2 = Some (to_usize c) ∧
    called s (sys_ipc_send c_arg rptr reply) k2 Return [] k3 ∧ a0 s k3 = Some 0 ∧ queued c k3 ∧
    called c (sys_ipc_sendrec s_arg cptr req) k3 Return
      [(cptr, message_bytes (user_message s reply))] k4 ∧ a0 c k4 = Some 0 ∧
    idle_pair c s k4).
Proof.
  intros Hidle Hc Hs Hany Hsptr Hrptr. pose proof Hidle as [Hne (i & Hi & Hin) (j & Hj & Hjn & Hjs & Hji) Hregs].
  destruct (Hregs c ltac:(by left)) as (spc & nc & Hfc & Hnc).
  destruct (Hregs s ltac:(by right)) as (sps & ns & Hfs & Hns).
  pose proof (with_ipc_state_id i Hin) as Hii. pose proof (with_ipc_state_id j Hjn) as Hjj.
  pose proof (with_senders_id j Hjs) as Hjss.
  split.
  - destruct (receive_waits s k j sps ns Hj Hfs Hns any sptr Hjn Hji Hjs)
      as (k1 & C1 & V1 & O1). rewrite Hany in V1. destruct C1 as (R1 & F1 & S1).
    destruct (sendrec_deposits c s k1 i _ spc nc ltac:(by rewrite O1) ltac:(by rewrite F1)
      V1 Hnc ltac:(done) s_arg cptr req (-1) sptr Hs Hin eq_refl ltac:(by right))
      as (k2 & C2 & Q2 & U2 & V2 & _). destruct C2 as (R2 & F2 & S2).
    destruct (receive_takes s k2 _ sps ns V2 ltac:(by rewrite F2, F1) Hns any sptr
      (user_message c req) eq_refl Hji Hsptr) as (k3 & C3 & A3 & V3 & O3).
    destruct C3 as (R3 & F3 & S3).
    assert (view ipc s k3 = Some j) as V3' by (rewrite V3; f_equal; exact Hjj).
    destruct (rpc_reply c s k3 (with_ipc_state (ReceivingReply s cptr) i) j spc sps nc ns
      c_arg s_arg cptr rptr reply req Hne Hc ltac:(by rewrite O3) V3' Hjn eq_refl
      ltac:(by rewrite F3, F2, F1) ltac:(by rewrite F3, F2, F1) Hnc Hns Hrptr)
      as (k4 & k5 & C4 & A4 & Q4 & C5 & A5 & I5 & J5).
    exists k1, k2, k3, k4, k5. split_and!; try done. destruct C4 as (_ & F4 & _).
    destruct C5 as (_ & F5 & _). apply (idle_kept c s k); [done| |rewrite I5, Hi; f_equal; exact Hii|by rewrite J5].
    intros q. by rewrite F5, F4, F3, F2, F1.
  - destruct (sendrec_queues c s k i j spc nc Hi Hfc Hj Hnc ltac:(done) s_arg cptr req Hs Hin Hjn)
      as (k1 & C1 & U1 & V1 & _). destruct C1 as (R1 & F1 & S1).
    destruct (receive_from_queue s c k1 _ _ sps ns any sptr [] s (user_message c req) cptr
      V1 ltac:(by rewrite F1) Hns U1 Hne Hjn Hji) as (k2 & C2 & A2 & V2 & U2 & _);
      [simpl; by rewrite Hany, Hjs|done|done|]. destruct C2 as (R2 & F2 & S2).
    assert (view ipc s k2 = Some j) as V2' by (rewrite V2; f_equal; simpl; exact Hjss).
    destruct (rpc_reply c s k2 (with_ipc_state (ReceivingReply s cptr) i) j spc sps nc ns
      c_arg s_arg cptr rptr reply req Hne Hc U2 V2' Hjn eq_refl
      ltac:(by rewrite F2, F1) ltac:(by rewrite F2, F1) Hnc Hns Hrptr)
      as (k3 & k4 & C3 & A3 & Q3 & C4 & A4 & I4 & J4).
    exists k1, k2, k3, k4. split_and!; try done. destruct C3 as (_ & F3 & _).
    destruct C4 as (_ & F4 & _). apply (idle_kept c s k); [done| |rewrite I4, Hi; f_equal; exact Hii|by rewrite J4].
    intros q. by rewrite F4, F3, F2, F1.
Qed.

Lemma rpc_completes_witness :
  let k := demo_kernel 2 [] [demo_proc 2 1 Running []; demo_proc 3 1 Running []] in
  idle_pair 2 3 k ∧
  ∃ k1 k2, called 3 (sys_ipc_receive (to_usize (-1)) 4294967296) k Block [] k1 ∧
    called 2 (sys_ipc_sendrec 3 4294967296 (replicate 64 7)) k1 Block [] k2 ∧ queued 3 k2.
Proof.
  intros k.
  assert (idle_pair 2 3 k) as Hidle.
  { split; [discriminate| | |].
    - eexists. split; [vm_compute; reflexivity|reflexivity].
    - eexists. split_and!; [vm_compute; reflexivity|reflexivity..].
    - intros q [->| ->]; do 2 eexists; (split; [vm_compute; reflexivity|lia]). }
  split; [exact Hidle|].
  destruct (rpc_completes 2 3 2 3 (to_usize (-1)) 4294967296 4294967296 4294967296
    (replicate 64 7) [] k Hidle eq_refl eq_refl eq_refl ltac:(vm_compute; reflexivity)
    ltac:(vm_compute; reflexivity)) as [(k1 & k2 & _ & _ & _ & C1 & C2 & Q2 & _) _].
  exists k1, k2. split_and!; assumption.
Defined.

(** ** The queues of senders are accurate *)

Definition sview (p : Process) : IpcState * list Z := (ipc_state (ipc p), senders (ipc p)).
Definition is_sending (s : IpcState) : bool := match s with Sending _ _ _ => true | _ => false end.

(** A process stands in a queue at most once, and only while it is blocked sending
    there. *)
Definition senders_ok (k : kernel) : Prop :=
  ∀ t st l, view sview t k = Some (st, l) →
    NoDup l ∧ ∀ s, s ∈ l → s ≠ t ∧ ∃ m r l', view sview s k = Some (Sending t m r, l').

Section senders.
Context (k k' : kernel) (Hok : senders_ok k).

Lemma senders_ok_same : (∀ q, view sview q k' = view sview q k) → senders_ok k'.
Proof.
  intros Hv t st l. rewrite Hv. intros Ht. destruct (Hok t st l Ht) as [Hnd Hin].
  split; [done|]. intros s Hs. setoid_rewrite Hv. by apply Hin.
Qed.

(** A process that is not sending changes to another such state. *)
Lemma senders_ok_state (q : Z) (st st' : IpcState) (l : list Z) :
  view sview q k = Some (st, l) → is_sending st = false →
  view sview q k' = Some (st', l) → (∀ x, x ≠ q → view sview x k' = view sview x k) →
  senders_ok k'.
Proof.
  intros Hq Hs Hq' Ho t st1 l1 Ht.
  assert (∃ st2, view sview t k = Some (st2, l1)) as [st2 Ht2].
  { destruct (decide (t = q)) as [->|]; [|rewrite Ho in Ht by done; eauto].
    rewrite Hq' in Ht. injection Ht as _ <-. eauto. }
  destruct (Hok t st2 l1 Ht2) as [Hnd Hin]. split; [done|]. intros s Hin'.
  destruct (Hin s Hin') as (Hne & m & r & l' & H). split; [done|]. exists m, r, l'.
  rewrite Ho; [done|]. intros ->. rewrite Hq in H. by injection H as -> _.
Qed.

(** A process joins the queue of another. *)
Lemma senders_ok_queue (me to : Z) (st st2 : IpcState) (l l2 : list Z) (m : Message) (r : option Z) :
  me ≠ to → view sview me k = Some (st, l) → is_sending st = false →
  view sview to k = Some (st2, l2) →
  view sview me k' = Some (Sending to m r, l) → view sview to k' = Some (st2, l2 ++ [me]) →
  (∀ x, x ≠ me → x ≠ to → view sview x k' = view sview x k) → senders_ok k'.
Proof.
  intros Hne Hme Hs Hto Hme' Hto' Ho.
  assert (∀ t st0 l0 s, view sview t k = Some (st0, l0) → s ∈ l0 → s ≠ me ∧ s ≠ t ∧
    ∃ m0 r0 l', view sview s k' = Some (Sending t m0 r0, l')) as Hkeep.
  { intros t st0 l0 s Ht Hin. destruct (Hok t st0 l0 Ht) as [_ H].
    destruct (H s Hin) as (Hst & m0 & r0 & l' & Hsv).
    assert (s ≠ me) as Hsm by (intros ->; rewrite Hme in Hsv; by injection Hsv as -> _).
    split_and!; [done..|]. destruct (decide (s = to)) as [->|]; [|rewrite Ho by done; eauto].
    rewrite Hto in Hsv. injection Hsv as -> _. rewrite Hto'. eauto. }
  intros t st1 l1 Ht. destruct (decide (t = to)) as [->|Hnt].
  - rewrite Hto' in Ht. injection Ht as <- <-. destruct (Hok to st2 l2 Hto) as [Hnd _]. split.
    + apply NoDup_app. split_and!; [done| |apply NoDup_singleton].
      intros x Hx ->%list_elem_of_singleton. by destruct (Hkeep to st2 l2 me Hto Hx).
    + intros s [Hin| ->%list_elem_of_singleton]%elem_of_app; [|eauto 10].
      by destruct (Hkeep to st2 l2 s Hto Hin) as (_ & ? & ?).
  - assert (∃ st0, view sview t k = Some (st0, l1)) as [st0 Ht0].
    { destruct (decide (t = me)) as [->|]; [|rewrite Ho in Ht by done; eauto].
      rewrite Hme' in Ht. injection Ht as _ <-. eauto. }
    split; [by apply (Hok t st0 l1)|]. intros s Hin.
    by destruct (Hkeep t st0 l1 s Ht0 Hin) as (_ & ? & ?).
Qed.

(** A process drops a sender from its queue; the sender may change state. *)
Lemma senders_ok_take (me s : Z) (st st' : IpcState) (l1 l2 ls : list Z)
    (m : Message) (r : option Z) :
  view sview me k = Some (st, l1 ++ s :: l2) →
  view sview s k = Some (Sending me m r, ls) →
  view sview me k' = Some (st, l1 ++ l2) → view sview s k' = Some (st', ls) →
  (∀ x, x ≠ me → x ≠ s → view sview x k' = view sview x k) → senders_ok k'.
Proof.
  intros Hme Hs Hme' Hs' Ho. destruct (Hok me _ _ Hme) as [Hnd Hin].
  rewrite <-Permutation_middle in Hnd. apply NoDup_cons in Hnd as [Hns Hnd].
  assert (∀ t st0 l0 x, view sview t k = Some (st0, l0) → x ∈ l0 → x ≠ s → x ≠ t ∧
    ∃ m0 r0 l', view sview x k' = Some (Sending t m0 r0, l')) as Hkeep.
  { intros t st0 l0 x Ht Hx Hxs. destruct (Hok t st0 l0 Ht) as [_ H].
    destruct (H x Hx) as (Hxt & m0 & r0 & l' & Hxv). split; [done|].
    destruct (decide (x = me)) as [->|]; [|rewrite Ho by done; eauto].
    rewrite Hme in Hxv. injection Hxv as -> _. rewrite Hme'. eauto. }
  intros t st1 l Ht. destruct (decide (t = me)) as [->|Hnt].
  - rewrite Hme' in Ht. injection Ht as <- <-. split; [done|]. intros x Hx.
    apply (Hkeep me st _ x Hme); [set_solver|]. intros ->. done.
  - assert (∃ st0, view sview t k = Some (st0, l)) as [st0 Ht0].
    { destruct (decide (t = s)) as [->|]; [|rewrite Ho in Ht by done; eauto].
      rewrite Hs' in Ht. injection Ht as _ <-. eauto. }
    destruct (Hok t st0 l Ht0) as [Hnd1 Hin1]. split; [done|]. intros x Hx.
    apply (Hkeep t st0 l x Ht0 Hx). intros ->. destruct (Hin1 s Hx) as (_ & ? & ? & ? & H).
    rewrite Hs in H. by injection H as <- _ _ _.
Qed.
End senders.

Lemma take_first_split {A} (f : A → bool) (l : list A) (x : A) (rest : list A) :
  take_first f l = Some (x, rest) → ∃ l1 l2, l = l1 ++ x :: l2 ∧ rest = l1 ++ l2 ∧ f x = true.
Proof.
  revert rest. induction l as [|y l IH]; intros rest; [done|]. simpl.
  destruct (f y) eqn:Hy; [intros [= -> ->]; by exists [], rest|].
  destruct (take_first f l) as [[z r]|]; [|done]. intros [= -> <-].
  destruct (IH r eq_refl) as (l1 & l2 & -> & -> & Hf). by exists (y :: l1), l2.
Qed.

(** What the queues do not depend on. *)
Lemma sview_set_a0 (q v : Z) (k : kernel) : view sview q (set_a0 v k) = view sview q k.
Proof. by apply view_upd_same. Qed.
Lemma sview_on_tf (q x : Z) (f : TrapFrame → TrapFrame) (k : kernel) :
  view sview q (upd_proc x (on_tf f) k) = view sview q k.
Proof. by apply view_upd_same. Qed.
Lemma sview_irq (q x : Z) (l : list Message) (k : kernel) :
  view sview q (upd_proc x (set_irq_pending l) k) = view sview q k.
Proof. by apply view_upd_same. Qed.

#[local] Hint Rewrite sview_set_a0 sview_on_tf sview_irq : view.

(** A change of state through [set_ipc_state], followed by what leaves the queues alone. *)
Lemma senders_ok_set (k k' : kernel) (q : Z) (p : Process) (st' : IpcState) :
  senders_ok k → proc_of q k = Some p → is_sending (ipc_state (ipc p)) = false →
  (∀ x, view sview x k' = view sview x (upd_proc q (set_ipc_state st') k)) → senders_ok k'.
Proof.
  intros Hok Hp Hs Hv.
  eapply (senders_ok_state k k' Hok q (ipc_state (ipc p)) st' (senders (ipc p))); try done.
  - exact (view_some sview q k p Hp).
  - by rewrite Hv, view_upd_eq, Hp.
  - intros x Hx. by rewrite Hv, view_upd_ne.
Qed.

Lemma kernel_send_msg_ok (target : Z) (msg : Message) (k : kernel) :
  senders_ok k → senders_ok (kernel_send_msg target msg k).
Proof.
  intros Hok. unfold kernel_send_msg. destruct (proc_of target k) as [t|] eqn:Ht; [|done].
  assert (senders_ok (upd_proc target (λ p, set_irq_pending (irq_pending (ipc p) ++ [msg]) p) k))
    as Hq by (eapply senders_ok_same; [done|]; intros; by apply view_upd_same).
  destruct (ipc_state (ipc t)) eqn:Hst; try done;
    [|destruct (_ || _); [|done]];
    (eapply (senders_ok_set k _ target t (MessageAvailable msg)); [done|done|by rewrite Hst|done]).
Qed.

Section handlers.
Context (k : kernel) (p : Process) (Hok : senders_ok k).
Hypothesis (Hp : proc_of (k_current k) k = Some p).
Hypothesis (Hns : is_sending (ipc_state (ipc p)) = false).

Lemma senders_ok_ret (v : Z) (k1 : kernel) : senders_ok k1 → senders_ok (ret v k1).2.
Proof.
  intros H. eapply senders_ok_same; [exact H|]. intros q. exact (sview_set_a0 q v k1).
Qed.

Lemma senders_ok_block (k1 : kernel) : senders_ok k1 → senders_ok (block_and_retry k1).2.
Proof. intros H. eapply senders_ok_same; [exact H|]. intros q. apply sview_on_tf. Qed.

Lemma senders_ok_set_me (st' : IpcState) :
  senders_ok (upd_proc (k_current k) (set_ipc_state st') k).
Proof. by eapply (senders_ok_set k _ (k_current k) p st'). Qed.

Lemma senders_ok_deposit (to : Z) (t : Process) (m : Message) :
  proc_of to k = Some t → is_sending (ipc_state (ipc t)) = false → senders_ok (deposit to t m k).
Proof. intros Ht Hs. by eapply (senders_ok_set k _ to t (MessageAvailable m)). Qed.

Lemma senders_ok_queue_sender (to : Z) (t : Process) (m : Message) (r : option Z) :
  proc_of to k = Some t → to ≠ k_current k → senders_ok (queue_sender (k_current k) to m r k).
Proof.
  intros Ht Hne.
  eapply (senders_ok_queue k _ Hok (k_current k) to _ _ _ _ m r);
    [done|exact (view_some sview _ _ _ Hp)|done|exact (view_some sview _ _ _ Ht)|..];
    unfold queue_sender.
  - rewrite view_upd_ne by done. by rewrite view_upd_eq, Hp.
  - rewrite view_upd_eq. unfold proc_of in *. simpl. by rewrite lookup_alter_ne, Ht.
  - intros x Hx1 Hx2. by rewrite !view_upd_ne.
Qed.

End handlers.

Lemma sys_ipc_send_ok (k : kernel) (p : Process) (to ptr : Z) (bytes : list Z) :
  senders_ok k → proc_of (k_current k) k = Some p → is_sending (ipc_state (ipc p)) = false →
  senders_ok (sys_ipc_send to ptr bytes k).2.
Proof.
  intros Hok Hp Hns.
  unfold sys_ipc_send. erewrite bind_ok by reflexivity. erewrite bind_ok by reflexivity. rewrite Hp.
  assert (senders_ok (upd_proc (k_current k) (set_ipc_state INone) k)) as Hset
    by (by eapply senders_ok_set_me).
  pose proof (senders_ok_queue_sender k p Hok Hp Hns) as Hqs.
  assert (∀ st, ipc_state (ipc p) = st → st ≠ SendComplete →
    senders_ok ((if negb (is_user_pointer_valid MESSAGE_SIZE ptr 1) then ret usize_max else
      target ← gets (proc_of (to_i32 to));
      match target with
      | None => ret usize_max
      | Some t =>
          if accepts_send (k_current k) (ipc_state (ipc t))
          then modify (deposit (to_i32 to) t (user_message (k_current k) bytes)) ;; ret 0
          else if to_i32 to =? k_current k then recursive_lock
          else modify (queue_sender (k_current k) (to_i32 to) (user_message (k_current k) bytes) None)
                 ;; block_and_retry
      end) k).2) as Hmain.
  { intros st Hst Hne. destruct (negb _); [by apply senders_ok_ret|].
    erewrite bind_ok by reflexivity.
    destruct (proc_of (to_i32 to) k) as [t|] eqn:Ht; [|by apply senders_ok_ret].
    destruct (accepts_send _ _) eqn:Ha.
    - erewrite bind_ok by reflexivity. apply senders_ok_ret. apply senders_ok_deposit; [done|done|].
      by destruct (ipc_state (ipc t)).
    - destruct (Z.eqb_spec (to_i32 to) (k_current k)); [done|].
      erewrite bind_ok by reflexivity. apply senders_ok_block.
      by eapply Hqs. }
  destruct (ipc_state (ipc p)) eqn:Hst; try (by apply (Hmain _ eq_refl)).
  erewrite bind_ok by reflexivity. apply senders_ok_ret. exact Hset.
Qed.

Lemma sys_ipc_sendrec_ok (k : kernel) (p : Process) (to ptr : Z) (bytes : list Z) :
  senders_ok k → proc_of (k_current k) k = Some p → is_sending (ipc_state (ipc p)) = false →
  senders_ok (sys_ipc_sendrec to ptr bytes k).2.
Proof.
  intros Hok Hp Hns.
  assert (∀ st', senders_ok (upd_proc (k_current k) (set_ipc_state st') k)) as Hset
    by (intros; by eapply senders_ok_set_me).
  pose proof (senders_ok_queue_sender k p Hok Hp Hns) as Hqs.
  unfold sys_ipc_sendrec. erewrite bind_ok by reflexivity. erewrite bind_ok by reflexivity.
  rewrite Hp. destruct (ipc_state (ipc p)) eqn:Hst; try done.
  - erewrite bind_ok by reflexivity.
    destruct (proc_of (to_i32 to) k) as [t|] eqn:Ht; [|by apply senders_ok_ret].
    destruct (Z.eqb_spec (to_i32 to) (k_current k)) as [|Hne]; [done|].
    assert (senders_ok ((modify (queue_sender (k_current k) (to_i32 to)
      (user_message (k_current k) bytes) (Some ptr)) ;; block_and_retry) k).2) as Hqueue.
    { erewrite bind_ok by reflexivity. apply senders_ok_block. by eapply Hqs. }
    destruct (ipc_state (ipc t)) eqn:Htst; try exact Hqueue.
    destruct (_ || _); [|exact Hqueue].
    erewrite bind_ok by reflexivity. erewrite bind_ok by reflexivity. apply senders_ok_block.
    eapply (senders_ok_set (deposit (to_i32 to) t (user_message (k_current k) bytes) k) _
      (k_current k) p (ReceivingReply (to_i32 to) ptr)); [|
      unfold deposit, proc_of in *; simpl; by rewrite lookup_alter_ne, Hp|by rewrite Hst|done..].
    apply senders_ok_deposit; [done|done|by rewrite Htst].
  - erewrite bind_ok by reflexivity. apply senders_ok_ret. by apply Hset.
  - by apply senders_ok_block.
  - erewrite bind_ok by reflexivity. erewrite bind_ok by reflexivity. apply senders_ok_ret.
    eapply (senders_ok_set k _ (k_current k) p INone); [done|done|by rewrite Hst|done].
  - erewrite bind_ok by reflexivity. apply senders_ok_ret. by apply Hset.
  - erewrite bind_ok by reflexivity. apply senders_ok_ret. by apply Hset.
Qed.

(** Taking a message from a queued sender: the sender is found, sending. *)
Lemma receive_from_sender_ok (k : kernel) (p : Process) (s ptr : Z) (l1 l2 : list Z) :
  senders_ok k → proc_of (k_current k) k = Some p → senders (ipc p) = l1 ++ s :: l2 →
  (∃ r, (receive_from_sender (k_current k) s (l1 ++ l2) ptr k).1 = Ok r) ∧
  senders_ok (receive_from_sender (k_current k) s (l1 ++ l2) ptr k).2.
Proof.
  intros Hok Hp Hl. set (me := k_current k) in *.
  assert (view sview me k = Some (ipc_state (ipc p), l1 ++ s :: l2)) as Hme
    by (rewrite <-Hl; exact (view_some sview _ _ _ Hp)).
  destruct (Hok _ _ _ Hme) as [Hnd Hin].
  destruct (Hin s) as (Hne & m & r & ls & Hsv); [set_solver|].
  destruct (proc_of_view _ _ _ _ Hsv) as (ps & Hps & [= Hst Hls]).
  set (k0 := upd_proc me (set_senders (l1 ++ l2)) k).
  assert (proc_of s k0 = Some ps) as Hs0.
  { unfold k0, proc_of in *. simpl. by rewrite lookup_alter_ne. }
  assert (∀ k' st', view sview me k' = Some (ipc_state (ipc p), l1 ++ l2) →
    view sview s k' = Some (st', ls) → (∀ x, x ≠ me → x ≠ s → view sview x k' = view sview x k) →
    senders_ok k') as Htake by (intros; by eapply senders_ok_take).
  assert (view sview me k0 = Some (ipc_state (ipc p), l1 ++ l2)) as Hme0.
  { unfold k0. by rewrite view_upd_eq, Hp. }
  assert (∀ x, x ≠ me → view sview x k0 = view sview x k) as Ho0.
  { intros x Hx. unfold k0. by rewrite view_upd_ne. }
  unfold receive_from_sender. erewrite bind_ok by reflexivity. fold k0.
  erewrite bind_ok by reflexivity. rewrite Hs0, Hst. destruct (negb _).
  { split; [by eexists|]. apply senders_ok_ret.
    apply (Htake k0 (Sending me m r)); [done|by rewrite Ho0|by intros; rewrite Ho0]. }
  erewrite bind_ok by reflexivity.
  assert (∀ st' k', (∀ x, view sview x k' = view sview x (upd_proc s (set_ipc_state st') k0)) →
    senders_ok k') as Hdone.
  { intros st' k' Hv. apply (Htake k' st').
    - by rewrite Hv, view_upd_ne.
    - rewrite Hv, view_upd_eq, Hs0. simpl. by rewrite <-Hls.
    - intros x Hx1 Hx2. by rewrite Hv, view_upd_ne, Ho0. }
  destruct r as [rp|]; (erewrite bind_ok by reflexivity); (split; [by eexists|]);
    apply senders_ok_ret; [by apply (Hdone (ReceivingReply me rp))|by apply (Hdone SendComplete)].
Qed.

(** Receiving keeps the queues accurate and always ends. *)
Lemma sys_ipc_receive_ok (k : kernel) (p : Process) (from ptr : Z) :
  senders_ok k → proc_of (k_current k) k = Some p → is_sending (ipc_state (ipc p)) = false →
  (∃ r, (sys_ipc_receive from ptr k).1 = Ok r) ∧ senders_ok (sys_ipc_receive from ptr k).2.
Proof.
  intros Hok Hp Hns.
  assert (∀ v k1, senders_ok k1 → (∃ r, (ret v k1).1 = Ok r) ∧ senders_ok (ret v k1).2) as Hret
    by (intros; split; [by eexists|by apply senders_ok_ret]).
  pose proof (senders_ok_set_me k p Hok Hp Hns) as Hset.
  assert (∀ l, senders_ok (upd_proc (k_current k) (set_irq_pending l) k)) as Hirq
    by (intros l; eapply senders_ok_same; [done|]; intros; by apply view_upd_same).
  unfold sys_ipc_receive. erewrite bind_ok by reflexivity. erewrite bind_ok by reflexivity.
  rewrite Hp.
  set (rest := match take_first (λ m, matches_from (to_i32 from) (source m)) _ with
               | Some _ => _ | None => _ end).
  assert ((∃ r, (rest k).1 = Ok r) ∧ senders_ok (rest k).2) as Hrest.
  { unfold rest. destruct (take_first _ (irq_pending (ipc p))) as [[msg l]|].
    - erewrite bind_ok by reflexivity. destruct (negb _); [by apply Hret|].
      erewrite bind_ok by reflexivity. apply Hret. exact (Hirq l).
    - destruct (take_first _ (senders (ipc p))) as [[s l]|] eqn:Hs.
      + apply take_first_split in Hs as (l1 & l2 & Hl & -> & _). by eapply receive_from_sender_ok.
      + erewrite bind_ok by reflexivity. split; [by eexists|]. by apply senders_ok_block. }
  destruct (ipc_state (ipc p)) eqn:Hst; try exact Hrest. clear Hrest rest.
  destruct (negb _); [by apply Hret|].
  erewrite bind_ok by reflexivity. erewrite bind_ok by reflexivity. apply Hret.
  destruct (irq_pending (ipc p)) as [|next l] eqn:Hq;
    [eapply (senders_ok_set k _ (k_current k) p INone)|
     eapply (senders_ok_set k _ (k_current k) p (MessageAvailable next))];
    [done|done|by rewrite Hst| |done|done|by rewrite Hst|];
    intros x; (destruct (decide (x = k_current k)) as [->|];
      [rewrite !view_upd_eq|by rewrite !view_upd_ne]);
    change (proc_of (k_current k) (copy_message ptr msg k)) with (proc_of (k_current k) k);
    rewrite Hp; simpl; by rewrite Hq.
Qed.

(** One IPC call of a process that is not itself queued, or an interrupt. *)
Inductive ipc_step : kernel → kernel → Prop :=
  | step_send me p to ptr bytes k : proc_of me k = Some p → is_sending (ipc_state (ipc p)) = false →
      ipc_step k (sys_ipc_send to ptr bytes (run_as me k)).2
  | step_receive me p from ptr k : proc_of me k = Some p → is_sending (ipc_state (ipc p)) = false →
      ipc_step k (sys_ipc_receive from ptr (run_as me k)).2
  | step_sendrec me p to ptr bytes k : proc_of me k = Some p →
      is_sending (ipc_state (ipc p)) = false →
      ipc_step k (sys_ipc_sendrec to ptr bytes (run_as me k)).2
  | step_interrupt target msg k : ipc_step k (kernel_send_msg target msg k).

Lemma ipc_step_ok (k k' : kernel) : ipc_step k k' → senders_ok k → senders_ok k'.
Proof.
  intros Hstep Hok.
  assert (∀ me, senders_ok (run_as me k)) as Hrun
    by (intros; by apply (senders_ok_same k)).
  destruct Hstep as [me p to ptr bytes k Hp Hs|me p from ptr k Hp Hs|me p to ptr bytes k Hp Hs|].
  - by apply (sys_ipc_send_ok (run_as me k) p).
  - by apply (sys_ipc_receive_ok (run_as me k) p).
  - by apply (sys_ipc_sendrec_ok (run_as me k) p).
  - by apply kernel_send_msg_ok.
Qed.

(** C23: from a state with no queued sender, no sequence of sends, receives, remote
    calls and interrupts (with any arguments, bad pointers included) makes a receive
    panic: every pid in a queue is that of a live process blocked sending there, and
    stands there once. *)
Theorem ipc_never_panics (k0 k : kernel) :
  (∀ q p, proc_of q k0 = Some p → senders (ipc p) = []) → rtc ipc_step k0 k →
  senders_ok k ∧
  ∀ me p from ptr, proc_of me k = Some p → is_sending (ipc_state (ipc p)) = false →
    ∃ r, (sys_ipc_receive from ptr (run_as me k)).1 = Ok r.
Proof.
  intros H0 Hsteps.
  assert (senders_ok k) as Hok.
  { assert (senders_ok k0) as Hok0.
    { intros t st l (p & Hp & [= _ <-])%proc_of_view. rewrite (H0 t p Hp).
      split; [constructor|]. intros s Hs. by apply not_elem_of_nil in Hs. }
    clear H0. revert Hok0. induction Hsteps as [|k1 k2 k3 Hstep _ IH]; [done|].
    intros Hok. by eapply IH, ipc_step_ok. }
  split; [done|]. intros me p from ptr Hp Hs.
  apply (sys_ipc_receive_ok (run_as me k) p from ptr); [|done|done]. by apply (senders_ok_same k).
Qed.

Lemma ipc_never_panics_witness :
  let k := demo_kernel 2 [] [demo_proc 2 1 Running []; demo_proc 3 1 Running []] in
  let k1 := (sys_ipc_send 3 4294967296 [] (run_as 2 k)).2 in
  rtc ipc_step k k1 ∧ ∃ r, (sys_ipc_receive (to_usize (-1)) 4294967296 (run_as 3 k1)).1 = Ok r.
Proof.
  intros k k1.
  assert (rtc ipc_step k k1) as Hstep.
  { apply rtc_once. apply (step_send 2 (demo_proc 2 1 Running [])); reflexivity. }
  split; [exact Hstep|].
  refine (proj2 (ipc_never_panics k k1 _ Hstep) 3 (set_senders [2] (demo_proc 3 1 Running []))
    (to_usize (-1)) 4294967296 _ eq_refl); [|vm_compute; reflexivity].
  intros q p. unfold k, proc_of, demo_kernel. simpl. rewrite !lookup_insert_Some, lookup_empty.
  intros [[_ <-]|[_ [[_ <-]|[_ ?]]]]; [reflexivity|reflexivity|discriminate].
Defined.

(** ** Where the rendezvous goes wrong *)

(** a process blocked in [send] is never run again after its target exits:
    blocking leaves its state Running, and [exit] queues only Stopped processes.  It
    has ESRCH in its result register and an empty run queue to wait in. *)
Theorem exit_strands_sender (bytes : list Z) (st : Z) :
  let k0 := demo_kernel 2 [] [demo_proc 2 5 Running []; demo_proc 3 5 Running []] in
  let k1 := (sys_ipc_send 3 4294967296 bytes (run_as 2 k0)).2 in
  let k2 := (exit 3 st k1).2 in
  (sys_ipc_send 3 4294967296 bytes (run_as 2 k0)).1 = Ok Block ∧
  (exit 3 st k1).1 = Ok tt ∧ a0 2 k2 = Some ESRCH ∧
  view (ipc_state ∘ ipc) 2 k2 = Some INone ∧ view state 2 k2 = Some Running ∧ k_runq k2 = [].
Proof. vm_compute. split_and!; reflexivity. Qed.

(** a process that is killed and reaped while it is blocked in [send] leaves its
    pid in the target's queue of senders; when the target receives, the kernel
    unwraps the missing table entry and panics. *)
Theorem reaped_sender_panics (bytes : list Z) (st : Z) :
  let k0 := demo_kernel 2 [] [demo_proc 1 0 Running [2]; demo_proc 2 1 Running [];
                              demo_proc 3 5 Running []] in
  let k1 := (sys_ipc_send 3 4294967296 bytes (run_as 2 k0)).2 in
  let k2 := (exit 2 st k1).2 in
  let k3 := (sys_waitpid 2 0 0 (run_as 1 k2)).2 in
  (exit 2 st k1).1 = Ok tt ∧ a0 1 k3 = Some 2 ∧
  (sys_ipc_receive (to_usize (-1)) 4294967296 (run_as 3 k3)).1 =
    Panic "called `Option::unwrap()` on a `None` value".
Proof. vm_compute. split_and!; reflexivity. Qed.

(** an interrupt message that arrives while a driver is idle is deposited as if
    it were a reply; the driver's next [sendrec] returns it at once and never sends its
    request: the server's IPC record is untouched. *)
Theorem sendrec_mistakes_interrupt (s s_arg ptr : Z) (bytes : list Z) (irq : Message)
    (k : kernel) (d : Z) (i j : Ipc) (sp : Space) (n : nat) :
  d ≠ s → to_i32 s_arg = s → view ipc d k = Some i → ipc_state i = INone →
  view ipc s k = Some j → view frame_of d k = Some (sp, n) → (10 < n)%nat →
  ∃ k', called d (sys_ipc_sendrec s_arg ptr bytes) (kernel_send_msg d irq k) Return
          [(ptr, message_bytes irq)] k' ∧
    a0 d k' = Some 0 ∧ view ipc s k' = Some j.
Proof.
  intros Hne Hs Hi Hin Hj Hf Hn.
  destruct (proc_of_view _ _ _ _ Hi) as (p & Hp & Hip).
  assert (kernel_send_msg d irq k = upd_proc d (set_ipc_state (MessageAvailable irq)) k) as ->.
  { unfold kernel_send_msg. by rewrite Hp, Hip, Hin. }
  destruct (sendrec_finishes d (upd_proc d (set_ipc_state (MessageAvailable irq)) k)
    (with_ipc_state (MessageAvailable irq) i) sp n) with s_arg ptr bytes irq
    as (k' & Hc & Ha & _ & Ho); [|by rewrite view_upd_same|done|done|].
  { rewrite view_upd_eq, Hp. simpl. by rewrite Hip. }
  exists k'. split_and!; [done|done|]. by rewrite Ho, view_upd_ne.
Qed.

Lemma sendrec_mistakes_interrupt_witness :
  let k := demo_kernel 2 [] [demo_proc 2 1 Running []; demo_proc 3 1 Running []] in
  ∃ k', called 2 (sys_ipc_sendrec 3 4294967296 [])
    (kernel_send_msg 2 (mkMessage (-2) (-2) (replicate 56 0)) k) Return
    [(4294967296, message_bytes (mkMessage (-2) (-2) (replicate 56 0)))] k' ∧ a0 2 k' = Some 0.
Proof.
  intros k.
  destruct (sendrec_mistakes_interrupt 3 3 4294967296 [] (mkMessage (-2) (-2) (replicate 56 0)) k
    2 _ _ _ _ ltac:(discriminate) eq_refl (view_some ipc 2 k (demo_proc 2 1 Running []) eq_refl)
    eq_refl (view_some ipc 3 k (demo_proc 3 1 Running []) eq_refl)
    (view_some frame_of 2 k (demo_proc 2 1 Running []) eq_refl) ltac:(vm_compute; lia))
    as (k' & Hc & Ha & _).
  exists k'. split; assumption.
Defined.
