(* ===== verification/Signals.v ===== *)
(** * Signals and sleeping (src/syscall/proc.rs and the signal delivery of
      src/trap/mod.rs)

    Sending, masking, delivering and returning from signals, with the calls a
    signal interrupts: sleeping and futexes.  A delivered frame is written to the
    user stack and read back by [sys_sigreturn]: the round trip is a theorem. *)

From Stdlib Require Import ZArith Lia.
From stdpp Require Import prelude gmap sorting strings.
From S2P Require Import Prelude Pmm Vmm Swap Handle Vmo FileLock Channel Process Lifecycle Rendezvous.

Local Open Scope Z_scope.

Definition SIGKILL : Z := 9.
Definition SIGSTOP : Z := 19.
Definition SIGTSTP : Z := 20.
Definition SIGTTIN : Z := 21.
Definition SIGTTOU : Z := 22.

Definition bit (n : Z) : Z := Z.shiftl 1 n.

(** ** Sending *)

(** Interrupt a stopped process: out of the queue it sends to, past its [ecall],
    with EINTR, and runnable. *)
Definition wake_with_eintr (q : Z) (k : kernel) : kernel :=
  match proc_of q k with
  | None => k
  | Some p =>
      if negb (is_stopped p) then k else
      let k1 := match ipc_state (ipc p) with
                | Sending target _ _ => upd_proc target
                    (λ t, set_senders (List.filter (λ s, negb (s =? q)) (senders (ipc t))) t) k
                | _ => k
                end in
      make_runnable q (upd_proc q (λ p,
        on_tf (λ tf, set_reg 10 EINTR (add_sepc 4 tf)) (set_ipc_state INone p)) k1)
  end.

Definition kill_matches (k : kernel) (target : Z) (q : Z) (p : Process) : bool :=
  let current_pgid := default 0 (view (pgid ∘ family) (k_current k) k) in
  if 0 <? target then q =? target
  else if target =? 0 then pgid (family p) =? current_pgid
  else if target =? -1 then (1 <? q) && negb (q =? k_current k)
  else pgid (family p) =? to_i32 (- target).

(** The body of the loop over the table, for a signal other than SIGKILL. *)
Definition send_signal (sig q : Z) (k : kernel) : kernel :=
  let k1 := upd_proc q (λ p, set_pending (Z.lor (pending_signals (signals p)) (bit sig)) p) k in
  match proc_of q k with
  | Some p => if Z.land (bit sig) (blocked_signals (signals p)) =? 0
              then wake_with_eintr q k1 else k1
  | None => k1
  end.

Definition sys_kill (target_arg sig_arg : Z) : M kernel control :=
  let target := to_i32 target_arg in
  let sig := wrap 32 sig_arg in
  if 32 <=? sig then ret usize_max else
  me ← gets k_current;
  hits ← gets (λ k, List.filter (λ q,
            match proc_of q k with
            | Some p => kill_matches k target q p && negb (sig =? 0)
            | None => false
            end) (sorted_keys (k_procs k)));
  if sig =? SIGKILL then
    for_each (List.filter (λ q, negb (q =? me)) hits) (λ q, exit q (-9)) ;;
    if bool_decide (me ∈ hits) then exit me (-9) ;; mret Block
    else ret (match hits with [] => usize_max | _ => 0 end)
  else
    modify (λ k, foldl (λ k q, send_signal sig q k) k hits) ;;
    ret (match hits with [] => usize_max | _ => 0 end).

Definition sys_tgkill (tgid_arg tid_arg sig : Z) : M kernel control :=
  let tid := to_i32 tid_arg in
  o ← gets (proc_of tid);
  match o with
  | Some p =>
      if tgid (family p) =? to_i32 tgid_arg then
        (if negb (sig =? 0) && (sig <? 32)
         then modify (upd_proc tid (λ p,
                set_pending (Z.lor (pending_signals (signals p)) (bit (sig - 1))) p))
         else mret tt) ;;
        ret 0
      else ret ESRCH
  | None => ret ESRCH
  end.

(** ** Handlers and masks *)

(** A [SigAction]; [sys_sigaction] is given the one at [act_ptr] when it is read. *)
Record SigAction : Type := mkSigAction {
  sa_handler : Z; sa_flags : Z; sa_mask : Z; sa_restorer : Z }.

(** [repr(C)]: a [u32] among words is padded to 8 bytes. *)
Definition sigaction_bytes (a : SigAction) : list Z :=
  le_bytes 8 (sa_handler a) ++ le_bytes 8 (sa_flags a) ++
  le_bytes 4 (sa_mask a) ++ replicate 4 0 ++ le_bytes 8 (sa_restorer a).
Definition SIGACTION_SIZE : Z := 32.

Definition set_handler (sig : nat) (a : SigAction) (p : Process) : Process :=
  let sg := signals p in
  with_signals (mkSignals (pending_signals sg) (blocked_signals sg)
    (<[sig := sa_handler a]> (signal_handlers sg)) (<[sig := sa_restorer a]> (signal_restorers sg))
    (<[sig := sa_mask a]> (signal_masks sg))) p.
Definition get_handler (sig : nat) (p : Process) : SigAction :=
  let sg := signals p in
  mkSigAction (default 0 (signal_handlers sg !! sig)) 0 (default 0 (signal_masks sg !! sig))
    (default 0 (signal_restorers sg !! sig)).

Definition sys_sigaction (sig act_ptr old_ptr : Z) (act : SigAction) : M kernel control :=
  if (32 <=? sig) || (sig =? SIGKILL) then ret usize_max
  else if negb (old_ptr =? 0) && negb (is_user_pointer_valid SIGACTION_SIZE old_ptr 1) then ret EFAULT
  else if negb (act_ptr =? 0) && negb (is_user_pointer_valid SIGACTION_SIZE act_ptr 1) then ret EFAULT
  else current_or_esrch (λ p,
    me ← gets k_current;
    (if old_ptr =? 0 then mret tt
     else modify (store_user old_ptr (sigaction_bytes (get_handler (Z.to_nat sig) p)))) ;;
    (if act_ptr =? 0 then mret tt else modify (upd_proc me (set_handler (Z.to_nat sig) act))) ;;
    ret 0).

(** [new_set] is the word at [set_ptr]. *)
Definition sys_sigprocmask (how set_ptr old_ptr new_set : Z) : M kernel control :=
  current_or_esrch (λ p,
    me ← gets k_current;
    if negb (old_ptr =? 0) && negb (is_user_pointer_valid 4 old_ptr 1) then ret EFAULT else
    (if old_ptr =? 0 then mret tt
     else modify (store_user old_ptr (le_bytes 4 (blocked_signals (signals p))))) ;;
    if set_ptr =? 0 then ret 0
    else if negb (is_user_pointer_valid 4 set_ptr 1) then ret EFAULT
    else
      let old := blocked_signals (signals p) in
      match (if how =? 0 then Some (Z.lor old new_set)
             else if how =? 1 then Some (Z.ldiff old new_set)
             else if how =? 2 then Some new_set else None) with
      | None => ret EINVAL
      | Some updated =>
          modify (upd_proc me
            (set_blocked (Z.lor (Z.lor updated (bit SIGKILL)) (bit SIGSTOP)))) ;;
          ret 0
      end).

Definition sys_sigpending (set_ptr : Z) : M kernel control :=
  if negb (is_user_pointer_valid 4 set_ptr 1) then ret EFAULT else
  me ← gets k_current;
  o ← gets (proc_of me);
  match o with
  | Some p =>
      modify (store_user set_ptr (le_bytes 4
        (Z.ldiff (pending_signals (signals p)) (blocked_signals (signals p))))) ;;
      ret 0
  | None => ret ESRCH
  end.

(** ** Delivery *)

(** [u32::trailing_zeros], for a non-zero argument. *)
Definition trailing_zeros (x : Z) : Z :=
  default 32 (first_some (λ i, if Z.testbit x (Z.of_nat i) then Some (Z.of_nat i) else None)
                (seq 0 32)).

(** The frame in memory: the saved mask, padding, and the trap frame. *)
Definition tf_words (tf : TrapFrame) : list Z :=
  kernel_sp tf :: regs tf ++ [sepc tf; sstatus tf; kernel_hartid tf].
Definition frame_bytes (saved_blocked : Z) (tf : TrapFrame) : list Z :=
  le_bytes 4 saved_blocked ++ le_bytes 4 0 ++ (tf_words tf ≫= le_bytes 8).
Definition SIGNAL_FRAME_SIZE : Z := 296.

(** The words of a frame read back: word [i] of the trap frame. *)
Definition frame_blocked (bs : list Z) : Z := of_le (take 4 bs).
Definition frame_word (bs : list Z) (i : nat) : Z := of_le (slice bs (8 + 8 * i) 8).

Arguments frame_bytes : simpl never.
Arguments frame_word : simpl never.
Arguments frame_blocked : simpl never.

Definition is_err {A} (c : M kernel A) : M kernel bool :=
  match_result c (λ _, mret false) (λ _, mret true).

(** Make the page of [va] present, unless it is; [true] on failure. *)
Definition touch_page (root va : Z) : M kernel bool :=
  missing ← is_err (on_mm (on_pmm (walk_page_table root va)));
  if (missing : bool) then is_err (on_mm (handle_user_page_fault root va 0)) else mret false.

Definition exit_and_schedule (q status : Z) : M kernel control := exit q status ;; mret Block.

Definition is_stop_signal (sig : Z) : bool :=
  (sig =? SIGSTOP) || (sig =? SIGTSTP) || (sig =? SIGTTIN) || (sig =? SIGTTOU).

(** Phases 2 and 3: the frame goes on the user stack, the handler is entered. *)
Definition enter_handler (q sig handler restorer blocked extra root new_sp : Z) : M kernel control :=
  let new_sp_end := new_sp + SIGNAL_FRAME_SIZE - 1 in
  bad1 ← touch_page root new_sp;
  if (bad1 : bool) then exit_and_schedule q (-11) else
  bad2 ← (if new_sp / 4096 =? new_sp_end / 4096 then mret false else touch_page root new_sp_end);
  if (bad2 : bool) then exit_and_schedule q (-11) else
  o ← gets (proc_of q);
  match o with
  | None => mret Return
  | Some p =>
      modify (store_user new_sp (frame_bytes blocked (trap_frame p))) ;;
      modify (upd_proc q (on_tf (λ tf,
        set_reg 1 restorer (set_sepc handler (set_reg 10 sig (set_reg 2 new_sp tf)))))) ;;
      modify (upd_proc q (set_blocked (Z.lor (Z.lor blocked extra) (bit sig)))) ;;
      mret Return
  end.

(** The tail of [rust_trap_handler], on the way back to user mode. *)
Definition deliver_signals : M kernel control :=
  q ← gets k_current;
  o ← gets (proc_of q);
  match o with
  | None => mret Return
  | Some p =>
      if Z.testbit (sstatus (trap_frame p)) 8 then mret Return else
      let sg := signals p in
      let deliverable := Z.ldiff (pending_signals sg) (blocked_signals sg) in
      if deliverable =? 0 then mret Return else
      let sig := trailing_zeros deliverable in
      modify (upd_proc q (λ p, set_pending (Z.ldiff (pending_signals (signals p)) (bit sig)) p)) ;;
      if sig =? SIGKILL then exit_and_schedule q (-9) else
      let handler := default 0 (signal_handlers sg !! Z.to_nat sig) in
      let restorer := default 0 (signal_restorers sg !! Z.to_nat sig) in
      if sig =? SIGCONT then
        modify (upd_proc q (λ p, set_pending (Z.ldiff (pending_signals (signals p))
          (Z.lor (Z.lor (Z.lor (bit SIGSTOP) (bit SIGTSTP)) (bit SIGTTIN)) (bit SIGTTOU))) p)) ;;
        modify (wake_if_stopped q) ;; mret Return
      else if is_stop_signal sig && (handler =? 0) then
        modify (upd_proc q (with_state Stopped)) ;; mret Block
      else if (handler =? 1) || ((handler =? 0) && (sig =? SIGCHLD)) then mret Return
      else if handler =? 0 then exit_and_schedule q (- sig)
      else
        let sp := reg 2 (trap_frame p) in
        if (sp <? SIGNAL_FRAME_SIZE + 16) || (2 ^ 47 <? sp) then exit_and_schedule q (-11)
        else
          enter_handler q sig handler restorer (blocked_signals sg)
            (default 0 (signal_masks sg !! Z.to_nat sig))
            (satp_root (satp_val (space p)))
            (Z.land (sp - SIGNAL_FRAME_SIZE) (Z.lnot 15))
  end.

(** Registers 1 to 31 from a frame; [x0] and the kernel's words are left alone. *)
Definition restore_regs (bytes : list Z) (tf : TrapFrame) : TrapFrame :=
  foldl (λ tf i, set_reg i (frame_word bytes (1 + i)) tf) tf (seq 1 31).
Arguments restore_regs : simpl never.

(** [bytes] is what stands at the user's stack pointer. *)
Definition sys_sigreturn (bytes : list Z) : M kernel control :=
  me ← gets k_current;
  o ← gets (proc_of me);
  match o with
  | None => mret Return
  | Some p =>
      if negb (is_user_pointer_valid SIGNAL_FRAME_SIZE (reg 2 (trap_frame p)) 1) then ret EFAULT
      else
        modify (upd_proc me (on_tf (λ tf,
          set_sepc (frame_word bytes 33) (restore_regs bytes tf)))) ;;
        modify (upd_proc me (set_blocked (frame_blocked bytes))) ;;
        mret Return
  end.

(** ** Sleeping and futexes *)

(** [sec] and [nsec] are the fields at [req_ptr], [now] the time counter. *)
Definition sys_nanosleep (req_ptr sec nsec now : Z) : M kernel control :=
  if (req_ptr =? 0) || negb (is_user_pointer_valid 16 req_ptr 1) then ret EFAULT else
  let ticks := wrap 64 (wrap 64 (wrap 64 sec * 10000000) + wrap 64 nsec / 100) in
  me ← gets k_current;
  modify (λ k, with_sleep (k_sleep k ++ [(me, wrap 64 (now + ticks))]) k) ;;
  modify (upd_proc me (with_state Stopped)) ;;
  ret 0 ;; mret Block.

Definition FUTEX_WAIT : Z := 0.
Definition FUTEX_WAKE : Z := 1.

(** [actual] is the word at [uaddr], read with the table locked. *)
Definition sys_futex (uaddr op val actual : Z) : M kernel control :=
  if negb (is_user_pointer_valid 4 uaddr 1) then ret EFAULT
  else if op =? FUTEX_WAIT then
    if negb (actual =? wrap 32 val) then ret EAGAIN else
    me ← gets k_current;
    modify (λ k, with_futex (<[uaddr := default [] (k_futex k !! uaddr) ++ [me]]> (k_futex k)) k) ;;
    modify (upd_proc me (with_state Stopped)) ;;
    ret 0 ;; mret Block
  else if op =? FUTEX_WAKE then
    let count := if val =? 0 then 1 else val in
    waiters ← gets (λ k, default [] (k_futex k !! uaddr));
    let n := Z.to_nat (Z.min count (Z.of_nat (length waiters))) in
    modify (λ k, match k_futex k !! uaddr with
                 | None => k
                 | Some _ => with_futex (match drop n waiters with
                     | [] => delete uaddr (k_futex k)
                     | rest => <[uaddr := rest]> (k_futex k)
                     end) k
                 end) ;;
    modify (λ k, foldl (λ k w, make_runnable w k) k (take n waiters)) ;;
    ret (Z.of_nat (length (take n waiters)))
  else ret usize_max.

(** ** The signal frame comes back *)

(** Word [i] of a sequence of words written one after the other. *)
Lemma slice_words (ws : list Z) (i : nat) (w : Z) :
  ws !! i = Some w → slice (ws ≫= le_bytes 8) (8 * i) 8 = le_bytes 8 w.
Proof.
  revert i. induction ws as [|x ws IH]; intros i Hi; [done|]. unfold slice in *.
  cbn [mbind list_bind]. destruct i as [|i].
  - injection Hi as ->. rewrite Nat.mul_0_r, drop_0.
    by rewrite take_app_le, take_ge by (rewrite length_le_bytes; lia).
  - rewrite drop_app_ge by (rewrite length_le_bytes; lia). rewrite length_le_bytes.
    replace (8 * S i - 8)%nat with (8 * i)%nat by lia. by apply IH.
Qed.

Lemma frame_word_bytes (blocked : Z) (tf : TrapFrame) (i : nat) (w : Z) :
  tf_words tf !! i = Some w → 0 ≤ w < 2 ^ 64 → frame_word (frame_bytes blocked tf) i = w.
Proof.
  intros Hi Hw. unfold frame_word, frame_bytes, slice.
  rewrite app_assoc, drop_app_ge by (rewrite length_app, !length_le_bytes; lia).
  rewrite length_app, !length_le_bytes. replace (8 + 8 * i - (4 + 4))%nat with (8 * i)%nat by lia.
  fold (slice (tf_words tf ≫= le_bytes 8) (8 * i) 8). rewrite (slice_words _ _ _ Hi).
  apply of_le_bytes. lia.
Qed.

Lemma frame_blocked_bytes (blocked : Z) (tf : TrapFrame) :
  0 ≤ blocked < 2 ^ 32 → frame_blocked (frame_bytes blocked tf) = blocked.
Proof.
  intros Hb. unfold frame_blocked, frame_bytes.
  rewrite take_app_le, take_ge by (rewrite length_le_bytes; lia). apply of_le_bytes. lia.
Qed.

(** A trap frame of machine words. *)
Definition tf_ok (tf : TrapFrame) : Prop :=
  length (regs tf) = 32%nat ∧ Forall (λ w, 0 ≤ w < 2 ^ 64) (regs tf) ∧ 0 ≤ sepc tf < 2 ^ 64.

Lemma restored_reg (f : nat → Z) (is_ : list nat) (tf : TrapFrame) (i : nat) :
  (i < length (regs tf))%nat →
  reg i (foldl (λ tf i, set_reg i (f i) tf) tf is_) =
    (if bool_decide (i ∈ is_) then f i else reg i tf).
Proof.
  revert tf. induction is_ as [|j l IH]; intros tf Hi; [done|]. simpl.
  rewrite IH by (simpl; by rewrite length_insert).
  destruct (decide (i = j)) as [->|Hne].
  - rewrite reg_set_reg by done. rewrite (bool_decide_eq_true_2 (j ∈ j :: l)) by set_solver.
    by case_bool_decide.
  - rewrite (bool_decide_ext (i ∈ j :: l) (i ∈ l)) by set_solver.
    unfold reg at 1. simpl. by rewrite list_lookup_insert_ne.
Qed.

(** What [sys_sigreturn] restores from a frame written for [tf]. *)
Lemma sigreturn_restores (k : kernel) (p : Process) (tf : TrapFrame) (blocked : Z) :
  proc_of (k_current k) k = Some p → length (regs (trap_frame p)) = 32%nat →
  is_user_pointer_valid SIGNAL_FRAME_SIZE (reg 2 (trap_frame p)) 1 = true →
  tf_ok tf → 0 ≤ blocked < 2 ^ 32 →
  ∃ k' p', sys_sigreturn (frame_bytes blocked tf) k = (Ok Return, k') ∧
    proc_of (k_current k) k' = Some p' ∧
    (∀ i, (1 ≤ i < 32)%nat → reg i (trap_frame p') = reg i tf) ∧
    sepc (trap_frame p') = sepc tf ∧ blocked_signals (signals p') = blocked.
Proof.
  intros Hp Hlen Hptr (Htl & Htw & Hpc) Hb. set (bs := frame_bytes blocked tf).
  unfold sys_sigreturn. do 2 eexists. split_and!.
  - erewrite bind_ok by reflexivity. erewrite bind_ok by reflexivity. rewrite Hp, Hptr. simpl.
    erewrite bind_ok by reflexivity. by erewrite bind_ok by reflexivity.
  - unfold proc_of in *. simpl. rewrite !lookup_alter_eq, Hp. reflexivity.
  - intros i Hi. unfold on_tf. simpl.
    change (reg i (set_sepc ?pc ?t)) with (reg i t). unfold restore_regs.
    rewrite restored_reg by lia.
    rewrite bool_decide_eq_true_2 by (apply elem_of_seq; lia).
    destruct (lookup_lt_is_Some_2 (regs tf) i) as [w Hw]; [lia|].
    unfold reg. rewrite Hw. simpl. apply frame_word_bytes.
    + unfold tf_words. cbn [lookup list_lookup plus]. by apply lookup_app_l_Some.
    + exact (Forall_lookup_1 _ _ _ _ Htw Hw).
  - simpl. apply frame_word_bytes; [|done].
    change ((regs tf ++ [sepc tf; sstatus tf; kernel_hartid tf]) !! 32%nat = Some (sepc tf)).
    by rewrite lookup_app_r, Htl by lia.
  - simpl. by apply frame_blocked_bytes.
Qed.

Lemma touch_page_frame (root va : Z) (k k' : kernel) (r : outcome bool) :
  touch_page root va k = (r, k') → ∃ mm, k' = with_mm mm k.
Proof.
  unfold touch_page, is_err, match_result, mbind, M_bind. intros H.
  destruct (on_mm (on_pmm _) k) as [r1 k1] eqn:H1. apply on_mm_frame in H1 as [mm1 ->].
  destruct r1; simpl in H; [injection H as _ <-; eauto| |injection H as _ <-; eauto].
  destruct (on_mm _ (with_mm mm1 k)) as [r2 k2] eqn:H2. apply on_mm_frame in H2 as [mm2 ->].
  destruct r2; injection H as _ <-; by exists mm2.
Qed.

Lemma exit_never_returns (q st : Z) (k k' : kernel) :
  exit_and_schedule q st k ≠ (Ok Return, k').
Proof. intros ([] & k1 & _ & [=])%bind_ok_inv. Qed.

Lemma wake_if_stopped_stores (q : Z) (k : kernel) : k_stores (wake_if_stopped q k) = k_stores k.
Proof.
  unfold wake_if_stopped, make_runnable. destruct (proc_of q k) as [p|]; [|done].
  by destruct (is_stopped p).
Qed.

(** Entering a handler: the frame of the interrupted code is stored at the new stack
    pointer, and the registers are those the handler expects. *)
Lemma enter_handler_ok (q sig h rs bl ex root sp : Z) (k k' : kernel) (p : Process) :
  proc_of q k = Some p → enter_handler q sig h rs bl ex root sp k = (Ok Return, k') →
  k_stores k' = k_stores k ++ [(satp_root (k_satp k), sp, frame_bytes bl (trap_frame p))] ∧
  ∃ p', proc_of q k' = Some p' ∧ sepc (trap_frame p') = h ∧
    trap_frame p' = set_reg 1 rs (set_sepc h (set_reg 10 sig (set_reg 2 sp (trap_frame p)))) ∧
    blocked_signals (signals p') = Z.lor (Z.lor bl ex) (bit sig).
Proof.
  intros Hp H. unfold enter_handler in H.
  apply bind_ok_inv in H as (bad1 & k1 & Ht1 & H). apply touch_page_frame in Ht1 as [mm1 ->].
  destruct bad1; [by apply exit_never_returns in H|].
  apply bind_ok_inv in H as (bad2 & k2 & Ht2 & H).
  assert (∃ mm, k2 = with_mm mm k) as [mm ->].
  { destruct (_ =? _); [injection Ht2 as _ <-; eauto|].
    apply touch_page_frame in Ht2 as [mm2 ->]. by exists mm2. }
  destruct bad2; [by apply exit_never_returns in H|].
  apply bind_ok_inv in H as (o & ? & [= <- <-] & H).
  change (proc_of q (with_mm mm k)) with (proc_of q k) in H. rewrite Hp in H.
  apply bind_ok_inv in H as ([] & ? & [= <-] & H).
  apply bind_ok_inv in H as ([] & ? & [= <-] & H).
  apply bind_ok_inv in H as ([] & ? & [= <-] & [= <-]).
  split; [done|]. eexists. split_and!.
  - unfold proc_of in *. simpl. rewrite !lookup_alter_eq, Hp. reflexivity.
  - done.
  - done.
  - done.
Qed.

(** C7: signal delivery and [sigreturn] round-trip.  When a delivery has pushed a
    frame, the process is at its handler with the frame at its stack pointer; and
    whatever happens in between, a [sigreturn] with the stack pointer back at that
    address and the frame unchanged restores registers 1 to 31, the program counter
    and the signal mask of the interrupted code. *)
Theorem signal_roundtrip (k k1 : kernel) (p : Process) :
  proc_of (k_current k) k = Some p → tf_ok (trap_frame p) →
  0 ≤ blocked_signals (signals p) < 2 ^ 32 →
  deliver_signals k = (Ok Return, k1) → k_stores k1 ≠ k_stores k →
  ∃ sp bytes p1,
    k_stores k1 = k_stores k ++ [(satp_root (k_satp k), sp, bytes)] ∧
    proc_of (k_current k) k1 = Some p1 ∧ reg 2 (trap_frame p1) = sp ∧
    sepc (trap_frame p1) ∈ signal_handlers (signals p) ∧
    ∀ k2 p2, proc_of (k_current k2) k2 = Some p2 → length (regs (trap_frame p2)) = 32%nat →
      reg 2 (trap_frame p2) = sp → is_user_pointer_valid SIGNAL_FRAME_SIZE sp 1 = true →
      ∃ k3 p3, sys_sigreturn bytes k2 = (Ok Return, k3) ∧ proc_of (k_current k2) k3 = Some p3 ∧
        (∀ i, (1 ≤ i < 32)%nat → reg i (trap_frame p3) = reg i (trap_frame p)) ∧
        sepc (trap_frame p3) = sepc (trap_frame p) ∧
        blocked_signals (signals p3) = blocked_signals (signals p).
Proof.
  intros Hp Htf Hb H Hne. unfold deliver_signals in H.
  apply bind_ok_inv in H as (q & ? & [= <- <-] & H).
  apply bind_ok_inv in H as (o & ? & [= <- <-] & H). rewrite Hp in H.
  destruct (Z.testbit _ 8); [by injection H as <-|].
  destruct (_ =? 0); [by injection H as <-|].
  set (sig := trailing_zeros _) in H. set (sg := signals p) in *.
  apply bind_ok_inv in H as ([] & ? & [= <-] & H).
  destruct (sig =? SIGKILL); [by apply exit_never_returns in H|].
  destruct (sig =? SIGCONT).
  { apply bind_ok_inv in H as ([] & ? & [= <-] & H).
    apply bind_ok_inv in H as ([] & ? & [= <-] & [= <-]). destruct Hne.
    by rewrite wake_if_stopped_stores. }
  destruct (is_stop_signal sig && _).
  { by apply bind_ok_inv in H as ([] & ? & _ & [=]). }
  destruct (_ || _); [by injection H as <-|].
  destruct (Z.eqb_spec (default 0 (signal_handlers sg !! Z.to_nat sig)) 0) as [|Hh];
    [by apply exit_never_returns in H|].
  destruct (_ || _); [by apply exit_never_returns in H|].
  set (f := λ p, set_pending (Z.ldiff (pending_signals (signals p)) (bit sig)) p) in *.
  assert (proc_of (k_current k) (upd_proc (k_current k) f k) = Some (f p)) as Hp0.
  { unfold proc_of in *. simpl. by rewrite lookup_alter_eq, Hp. }
  destruct (enter_handler_ok _ _ _ _ _ _ _ _ _ _ _ Hp0 H) as (Hst & p1 & Hp1 & Hpc & Htf1 & _).
  do 3 eexists. split_and!; [exact Hst|exact Hp1| | |].
  - rewrite Htf1. unfold reg, set_reg, set_sepc. simpl. destruct Htf as [Hl _].
    rewrite !list_lookup_insert_ne by done. by rewrite list_lookup_insert_eq by (rewrite Hl; lia).
  - rewrite Hpc. destruct (signal_handlers sg !! Z.to_nat sig) as [h|] eqn:Hsh; [|done].
    by eapply list_elem_of_lookup_2.
  - intros k2 p2 Hp2 Hl2 Hsp Hptr. rewrite <-Hsp in Hptr.
    by apply (sigreturn_restores k2 p2 (trap_frame p) _ Hp2).
Qed.

(** Process 2 has a handler for SIGINT, a stack, and SIGINT pending. *)
Definition handler_proc : Process :=
  with_signals (mkSignals (bit 2) 0 (<[2%nat := 66000]> (replicate 32 0)) (replicate 32 0)
                  (replicate 32 0))
    (on_tf (set_reg 2 8589934000) (demo_proc 2 1 Running [])).
Definition handler_kernel : kernel :=
  with_mm (demo_k demo_pmm) (demo_kernel 2 [] [handler_proc]).

Lemma handler_kernel_delivers :
  (deliver_signals handler_kernel).1 = Ok Return ∧
  length (k_stores (deliver_signals handler_kernel).2) = 1%nat.
Proof. vm_compute. split; reflexivity. Qed.

Lemma signal_roundtrip_witness :
  ∃ sp bytes k1, deliver_signals handler_kernel = (Ok Return, k1) ∧
    k_stores k1 = [(0, sp, bytes)].
Proof.
  destruct handler_kernel_delivers as [Hr Hs]. pose proof (run_eta _ _ Hr) as Hrun.
  generalize dependent ((deliver_signals handler_kernel).2). intros k1 Hlen Hrun.
  destruct (signal_roundtrip handler_kernel k1 handler_proc) as (sp & bytes & p1 & Hst & _).
  - reflexivity.
  - split; [reflexivity|]. split; [|split; [discriminate|reflexivity]].
    apply (bool_decide_unpack _). vm_compute. exact I.
  - split; [discriminate|reflexivity].
  - exact Hrun.
  - intros Heq. rewrite Heq in Hlen. discriminate Hlen.
  - exists sp, bytes, k1. split; [exact Hrun|exact Hst].
Defined.

(** ** Who is signalled *)

Definition pview (p : Process) : Z := pending_signals (signals p).

Lemma view_wake_with_eintr (q x : Z) (k : kernel) :
  view pview q (wake_with_eintr x k) = view pview q k.
Proof.
  unfold wake_with_eintr. destruct (proc_of x k) as [p|]; [|done].
  destruct (negb _); [done|]. rewrite view_make_runnable by done. rewrite view_upd_same by done.
  destruct (ipc_state (ipc p)); try done. by apply view_upd_same.
Qed.

Definition pend (sig : Z) (b : bool) (w : Z) : Z := if b then Z.lor w (bit sig) else w.

Lemma view_send_signal (sig q x : Z) (k : kernel) :
  view pview q (send_signal sig x k) = pend sig (bool_decide (q = x)) <$> view pview q k.
Proof.
  assert (view pview q (upd_proc x
      (λ p, set_pending (Z.lor (pending_signals (signals p)) (bit sig)) p) k) =
    pend sig (bool_decide (q = x)) <$> view pview q k) as H.
  { case_bool_decide as Hq; simpl.
    - subst x. rewrite view_upd_eq. unfold view. by destruct (proc_of q k).
    - rewrite view_upd_ne by done. by destruct (view pview q k). }
  unfold send_signal. destruct (proc_of x k) as [p|]; [|exact H].
  destruct (_ =? 0); [|exact H]. by rewrite view_wake_with_eintr.
Qed.

Lemma view_send_signals (sig q : Z) (l : list Z) (k : kernel) :
  view pview q (foldl (λ k x, send_signal sig x k) k l) =
    pend sig (bool_decide (q ∈ l)) <$> view pview q k.
Proof.
  revert k. induction l as [|x l IH]; intros k; cbn [foldl].
  { rewrite bool_decide_false by set_solver. by destruct (view pview q k). }
  rewrite IH, view_send_signal. destruct (view pview q k) as [w|]; [simpl; f_equal|done].
  rewrite (bool_decide_ext (q ∈ x :: l) (q = x ∨ q ∈ l)) by set_solver.
  rewrite bool_decide_or. unfold pend.
  destruct (bool_decide (q = x)), (bool_decide (q ∈ l)); simpl; try done.
  by rewrite <-Z.lor_assoc, Z.lor_diag.
Qed.

Lemma eintr_current (x : Z) (k : kernel) : k_current (wake_with_eintr x k) = k_current k.
Proof.
  unfold wake_with_eintr. destruct (proc_of x k) as [p|]; [|done]. destruct (negb _); [done|].
  unfold make_runnable. destruct (proc_of _ _); destruct (ipc_state (ipc p)); done.
Qed.

Lemma send_signal_current (sig x : Z) (k : kernel) : k_current (send_signal sig x k) = k_current k.
Proof.
  unfold send_signal. destruct (proc_of x k) as [p|]; [|done].
  destruct (_ =? 0); [|done]. by rewrite eintr_current.
Qed.

(** The processes [kill] addresses. *)
Definition kill_hits (target sig : Z) (k : kernel) : list Z :=
  List.filter (λ q, match proc_of q k with
                    | Some p => kill_matches k target q p && negb (sig =? 0)
                    | None => false
                    end) (sorted_keys (k_procs k)).

Lemma elem_of_kill_hits (target sig q : Z) (k : kernel) :
  sig ≠ 0 → q ∈ kill_hits target sig k ↔
  ∃ p, proc_of q k = Some p ∧ kill_matches k target q p = true.
Proof.
  intros Hs. unfold kill_hits. rewrite list_filter_in, elem_of_sorted_keys.
  rewrite (proj2 (Z.eqb_neq _ _) Hs). unfold proc_of.
  destruct (k_procs k !! q) as [p|]; simpl; [rewrite andb_true_r|]; naive_solver.
Qed.

Lemma sys_kill_run (target sig : Z) (k : kernel) :
  0 ≤ sig < 32 → sig ≠ SIGKILL →
  sys_kill target sig k = (Ok Return,
    set_a0 (match kill_hits (to_i32 target) sig k with [] => usize_max | _ => 0 end)
      (foldl (λ k q, send_signal sig q k) k (kill_hits (to_i32 target) sig k))).
Proof.
  intros Hsig Hk. unfold sys_kill.
  assert (wrap 32 sig = sig) as Hw by (apply Z.mod_small; lia). rewrite Hw.
  rewrite (proj2 (Z.leb_gt 32 sig)) by lia. rewrite (proj2 (Z.eqb_neq _ _) Hk). reflexivity.
Qed.

(** [kill] with an ordinary signal returns, and marks the signal pending in
    exactly the processes the target denotes (a pid, the caller's group, everyone
    but init and the caller, or a group) and in no other, whatever the sleepers
    among them were waiting for. *)
Theorem kill_exact (target sig : Z) (k : kernel) :
  1 ≤ sig < 32 → sig ≠ SIGKILL →
  ∃ k', sys_kill target sig k = (Ok Return, k') ∧
    ∀ q, view pview q k' =
      (λ p, pend sig (kill_matches k (to_i32 target) q p) (pview p)) <$> proc_of q k.
Proof.
  intros Hsig Hk. eexists. split; [apply sys_kill_run; [lia|done]|]. intros q.
  unfold set_a0. rewrite view_upd_same by done. rewrite view_send_signals. unfold view.
  destruct (proc_of q k) as [p|] eqn:Hp; [simpl; do 2 f_equal|done].
  apply Bool.eq_iff_eq_true. rewrite bool_decide_eq_true, elem_of_kill_hits by lia.
  naive_solver.
Qed.

Lemma kill_exact_witness :
  ∃ k', sys_kill 2 15 (demo_kernel 3 [] [demo_proc 2 1 Stopped []; demo_proc 3 1 Running []])
          = (Ok Return, k') ∧ view pview 2 k' = Some (bit 15) ∧ view pview 3 k' = Some 0.
Proof.
  destruct (kill_exact 2 15 (demo_kernel 3 [] [demo_proc 2 1 Stopped []; demo_proc 3 1 Running []]))
    as (k' & Hk & Hv); [lia|discriminate|].
  exists k'. split; [exact Hk|]. rewrite !Hv. split; vm_compute; reflexivity.
Defined.

Lemma proc_of_upd (q : Z) (f : Process → Process) (k : kernel) :
  proc_of q (upd_proc q f k) = f <$> proc_of q k.
Proof. unfold proc_of. simpl. apply lookup_alter_eq. Qed.

Lemma unblocked_bit (w sig : Z) :
  0 ≤ sig → Z.testbit w sig = false → (Z.land (bit sig) w =? 0) = true.
Proof.
  intros Hs Hb. apply Z.eqb_eq, Z.bits_inj'. intros n Hn.
  unfold bit. rewrite Z.land_spec, Z.bits_0, Z.shiftl_1_l, Z.pow2_bits_eqb by done.
  destruct (Z.eqb_spec sig n); [by subst|done].
Qed.

Lemma interrupt_sleeper (sig q : Z) (k : kernel) (p : Process) :
  proc_of q k = Some p → is_stopped p = true → ipc_state (ipc p) = INone → 0 ≤ sig →
  Z.testbit (blocked_signals (signals p)) sig = false →
  proc_of q (send_signal sig q k) =
    Some (with_state Running (on_tf (λ tf, set_reg 10 EINTR (add_sepc 4 tf))
      (set_ipc_state INone (set_pending (Z.lor (pending_signals (signals p)) (bit sig)) p)))).
Proof.
  intros Hp Hst Hi Hs Hb. unfold send_signal. rewrite Hp, unblocked_bit by done.
  unfold wake_with_eintr. rewrite proc_of_upd, Hp. cbn [fmap option_fmap option_map].
  replace (is_stopped (set_pending _ p)) with (is_stopped p) by done. rewrite Hst. cbn [negb].
  replace (ipc_state (ipc (set_pending _ p))) with (ipc_state (ipc p)) by done. rewrite Hi.
  unfold make_runnable. rewrite !proc_of_upd, Hp. cbn [fmap option_fmap option_map].
  match goal with |- proc_of q (enqueue_with_prio _ _ ?k1) = _ =>
    change (proc_of q k1 = Some (with_state Running (on_tf (λ tf, set_reg 10 EINTR (add_sepc 4 tf))
      (set_ipc_state INone (set_pending (Z.lor (pending_signals (signals p)) (bit sig)) p))))) end.
  by rewrite !proc_of_upd, Hp.
Qed.

(** A sleeper interrupted by a signal resumes one instruction too far:
    [nanosleep] leaves [sepc] past its [ecall], and the wake-up with EINTR advances
    it again, so the instruction after the call is never executed. *)
Theorem eintr_skips_instruction (req_ptr sec nsec now sig : Z) (k k1 : kernel) (p : Process) :
  proc_of (k_current k) k = Some p → ipc_state (ipc p) = INone →
  0 ≤ sig < 32 → Z.testbit (blocked_signals (signals p)) sig = false →
  sys_nanosleep req_ptr sec nsec now k = (Ok Block, k1) →
  view (sepc ∘ trap_frame) (k_current k) (send_signal sig (k_current k) k1)
    = Some (sepc (add_sepc 4 (trap_frame p))).
Proof.
  intros Hp Hi Hs Hb Hrun. unfold sys_nanosleep in Hrun.
  destruct (_ || _); [discriminate|]. injection Hrun as <-. unfold set_a0, view.
  rewrite (interrupt_sleeper _ _ _ (on_tf (set_reg 10 0) (with_state Stopped p))); try done; [|lia].
  cbn [k_current upd_proc with_procs with_sleep]. rewrite !proc_of_upd. unfold proc_of in *.
  cbn [k_procs with_sleep]. by rewrite Hp.
Qed.

Lemma eintr_skips_instruction_witness :
  let k := demo_kernel 2 [] [demo_proc 2 1 Running []] in
  ∃ k1, sys_nanosleep 4294971392 1 0 50 k = (Ok Block, k1) ∧
    view (sepc ∘ trap_frame) 2 (send_signal 15 2 k1) = Some 65540.
Proof.
  intros k.
  assert ((sys_nanosleep 4294971392 1 0 50 k).1 = Ok Block) as Hr by (vm_compute; reflexivity).
  exists (sys_nanosleep 4294971392 1 0 50 k).2. split; [exact (run_eta _ _ Hr)|].
  exact (eintr_skips_instruction 4294971392 1 0 50 15 k _ (demo_proc 2 1 Running [])
    eq_refl eq_refl ltac:(lia) eq_refl (run_eta _ _ Hr)).
Defined.

(** ** Sleepers that are gone *)

Lemma view_state_runnable (q x : Z) (k : kernel) :
  view state q (make_runnable x k) =
    (if decide (q = x) then (λ _, Running) <$> proc_of q k else view state q k).
Proof.
  unfold make_runnable. case_decide as Hq; [subst x|].
  - destruct (proc_of q k) as [p|] eqn:Hp; [|unfold view; by rewrite Hp].
    change (view state q (upd_proc q (with_state Running) k) = Some Running).
    by rewrite view_upd_eq, Hp.
  - destruct (proc_of x k) as [p|]; [|done]. by apply (view_upd_ne state q x).
Qed.

Lemma view_state_runnables (q : Z) (l : list Z) (k : kernel) :
  is_Some (proc_of q k) →
  view state q (foldl (λ k x, make_runnable x k) k l) =
    (if decide (q ∈ l) then Some Running else view state q k).
Proof.
  revert k. induction l as [|x l IH]; intros k Hq; cbn [foldl].
  { by rewrite decide_False by set_solver. }
  assert (is_Some (proc_of q (make_runnable x k))) as Hq'.
  { pose proof (view_state_runnable q x k) as H. unfold view in H.
    destruct (proc_of q (make_runnable x k)); [by eexists|]. destruct Hq as [p Hq].
    rewrite Hq in H. by case_decide. }
  rewrite IH by done. rewrite view_state_runnable.
  destruct Hq as [p Hp]. rewrite Hp. destruct (decide (q ∈ l)), (decide (q = x)).
  all: first [rewrite decide_True by set_solver | rewrite decide_False by set_solver]; done.
Qed.

(** The timer resurrects the dead: neither [exit] nor a signal takes a sleeper
    off the sleep queue, and [wake_sleepers] marks whatever it finds there running,
    a zombie included, whose exit status is then lost to its parent. *)
Theorem timer_resurrects_zombie (now t q st : Z) (k : kernel) (p : Process) :
  proc_of q k = Some p → state p = Zombie st → (q, t) ∈ k_sleep k → t ≤ now →
  view state q (wake_sleepers now k) = Some Running.
Proof.
  intros Hp Hst Hin Ht.
  destruct (wake_loop_sleep_spec (length (k_sleep k)) now 0 k) as (woken & rest & Hperm & _ & Hr & Hw);
    [lia|by rewrite take_0|].
  unfold wake_sleepers. rewrite Hw.
  change (view state q (foldl (λ k q, make_runnable q k) k woken.*1) = Some Running).
  rewrite view_state_runnables by by eexists. rewrite decide_True; [done|].
  rewrite <-Hperm, elem_of_app in Hin. destruct Hin as [Hin|Hin].
  - apply list_elem_of_fmap. by exists (q, t).
  - rewrite Forall_forall in Hr. specialize (Hr _ Hin). simpl in Hr. lia.
Qed.

(** Process 2 sleeps, process 3 kills it, and the timer finds it in the queue. *)
Definition killed_sleeper : kernel :=
  (sys_kill 2 SIGKILL (run_as 3 (sys_nanosleep 4294971392 1 0 50
     (demo_kernel 2 [] [demo_proc 1 0 Running [2; 3]; demo_proc 2 1 Running [];
                        demo_proc 3 1 Running []])).2)).2.

Lemma timer_resurrects_zombie_witness :
  view state 2 killed_sleeper = Some (Zombie (-9)) ∧
  view state 2 (wake_sleepers 10000050 killed_sleeper) = Some Running.
Proof.
  assert (view state 2 killed_sleeper = Some (Zombie (-9))) as Hst by (vm_compute; reflexivity).
  assert (k_sleep killed_sleeper = [(2, 10000050)]) as Hs by (vm_compute; reflexivity).
  split; [exact Hst|]. unfold view in Hst.
  destruct (proc_of 2 killed_sleeper) as [p|] eqn:Hp; [|discriminate Hst].
  injection Hst as Hst.
  apply (timer_resurrects_zombie 10000050 10000050 2 (-9) killed_sleeper p Hp Hst); [|lia].
  rewrite Hs. apply list_elem_of_singleton. reflexivity.
Defined.

(** [kill] with signal 0, which POSIX defines as a test for existence, reports
    failure whatever processes exist. *)
Theorem kill_probe_fails (target : Z) (k : kernel) (p : Process) :
  proc_of (k_current k) k = Some p → (10 < reg_count p)%nat →
  ∃ k', sys_kill target 0 k = (Ok Return, k') ∧ a0 (k_current k) k' = Some usize_max.
Proof.
  intros Hp Hr. eexists. split; [apply sys_kill_run; [lia|done]|].
  assert (kill_hits (to_i32 target) 0 k = []) as ->.
  { unfold kill_hits. induction (sorted_keys (k_procs k)) as [|q l IH]; [done|]. simpl.
    destruct (proc_of q k); [|done]. by rewrite andb_false_r. }
  simpl. by apply (a0_set _ _ p).
Qed.

Lemma kill_probe_fails_witness :
  ∃ k', sys_kill 2 0 (demo_kernel 2 [] [demo_proc 2 1 Running []]) = (Ok Return, k') ∧
    a0 2 k' = Some usize_max.
Proof.
  apply (kill_probe_fails 2 (demo_kernel 2 [] [demo_proc 2 1 Running []]) (demo_proc 2 1 Running []));
    [reflexivity|]. vm_compute. lia.
Defined.
