(* ===== verification/Streams.v ===== *)
(** * Byte streams: pipes, terminals and the calls on them (src/syscall/fs.rs,
      src/ipc/handle.rs, src/tty.rs, src/trap/interrupt.rs)

    [read], [write], [close], [poll] and [pipe] on every kind of object, the line discipline
    the UART interrupt feeds, and what a last reference does when it goes away.  Pipes,
    terminals and epoll instances are shared objects held by identity; a strong count is the
    number of handles, in tables or in messages in flight, that refer to the object.

    [pipe_fifo] says that a pipe is a queue of bytes, [pipe_read_resumes] and
    [pipe_eof_resumes] that a blocked reader continues; [tty_lines] what a reader of a
    terminal gets of what is typed.  Section [pipe_race] has the steps of a reader, of
    writers and of closers on several HARTs ([pipe_no_lost_wakeup], [pipe_eof_lost]). *)

From Stdlib Require Import ZArith Lia.
From stdpp Require Import prelude gmap strings relations.
From S2P Require Import Prelude Pmm Vmm Swap Handle Vmo FileLock Channel Process Lifecycle Signals.

Local Open Scope Z_scope.

Definition EIO : Z := usize_max - 4.
Definition EEXIST : Z := usize_max - 16.
Definition ESPIPE : Z := usize_max - 28.
Definition ENOSYS : Z := usize_max - 37.
Definition SIGPIPE : Z := 13.

(** ** Objects *)

(** The two halves share the bytes, the waiting process and the watchers. *)
Record pipe_st : Type := mkPipe { pi_data : list Z; pi_waiter : Z; pi_epoll : list Z }.

Record TtyState : Type := mkTty {
  t_buf : list Z;
  t_echo : bool;
  t_raw : bool;
  t_waiter : Z;
  t_ctrlc : bool;
  t_epoll : list Z;
}.

Definition tty_new : TtyState := mkTty [] true false 0 false [].

Record EpollItem : Type := mkItem { it_events : Z; it_data : Z; it_last_state : Z }.

(** The interest list is ordered by descriptor.  The waiting process is in [epolls] of the
    channels' state, where writers find it. *)
Record EpollInstance : Type := mkEpoll { ei_items : list (Z * EpollItem); ei_saved_sigmask : Z }.

(** The kernel with these objects, and the UART: bytes received and sent. *)
Record sys : Type := mkSys {
  s_k : kernel;
  s_pipes : gmap Z pipe_st;
  s_ttys : gmap Z TtyState;
  s_epolls : gmap Z EpollInstance;
  s_rx : list Z;
  s_tx : list Z;
  s_next : Z;
}.

Definition set_k (x : kernel) (s : sys) : sys :=
  mkSys x (s_pipes s) (s_ttys s) (s_epolls s) (s_rx s) (s_tx s) (s_next s).
Definition set_pipes (x : gmap Z pipe_st) (s : sys) : sys :=
  mkSys (s_k s) x (s_ttys s) (s_epolls s) (s_rx s) (s_tx s) (s_next s).
Definition set_ttys (x : gmap Z TtyState) (s : sys) : sys :=
  mkSys (s_k s) (s_pipes s) x (s_epolls s) (s_rx s) (s_tx s) (s_next s).
Definition set_epolls (x : gmap Z EpollInstance) (s : sys) : sys :=
  mkSys (s_k s) (s_pipes s) (s_ttys s) x (s_rx s) (s_tx s) (s_next s).
Definition set_rx (x : list Z) (s : sys) : sys :=
  mkSys (s_k s) (s_pipes s) (s_ttys s) (s_epolls s) x (s_tx s) (s_next s).
Definition set_tx (x : list Z) (s : sys) : sys :=
  mkSys (s_k s) (s_pipes s) (s_ttys s) (s_epolls s) (s_rx s) x (s_next s).
Definition set_next (x : Z) (s : sys) : sys :=
  mkSys (s_k s) (s_pipes s) (s_ttys s) (s_epolls s) (s_rx s) (s_tx s) x.

Definition in_k (f : kernel → kernel) : M sys unit := modify (λ s, set_k (f (s_k s)) s).
Definition put (v : Z) : M sys control := in_k (set_a0 v) ;; mret Return.
Definition upd_pipe (id : Z) (f : pipe_st → pipe_st) : M sys unit := modify (λ s, set_pipes (alter f id (s_pipes s)) s).
Definition upd_tty (id : Z) (f : TtyState → TtyState) : M sys unit := modify (λ s, set_ttys (alter f id (s_ttys s)) s).
Definition put_char (c : Z) : M sys unit := modify (λ s, set_tx (s_tx s ++ [c]) s).

Definition current (f : Process → M sys control) : M sys control := λ s,
  match proc_of (k_current (s_k s)) (s_k s) with
  | Some p => f p s
  | None => (Ok Return, s)
  end.

(** A computation on the channels' state; the processes it wakes go to the run queue. *)
Definition on_chan {A} (c : M chan_st A) : M sys A := λ s,
  let k := s_k s in
  let '(r, c') := c (k_chan k) in
  let woken := drop (length (enqueued (k_chan k))) (enqueued c') in
  (r, set_k (foldl (λ k q, enqueue_pid q k) (with_chan c' k) woken) s).

(** [waiter] was taken by [swap(0)]. *)
Definition wake (waiter : Z) : M sys unit := if 0 <? waiter then in_k (enqueue_pid waiter) else mret tt.

(** The call is repeated when the process runs again. *)
Definition block : M sys control :=
  in_k (λ k, upd_proc (k_current k) (on_tf (add_sepc (-4))) k) ;; mret Block.

(** ** References *)

Definition table_objects (t : handle_table kobject) : list kobject := he_object <$> (map_to_list (ht_map t)).*2.
Definition message_objects (m : message) : list kobject := he_object <$> m_handles m.
Definition queue_objects (e : endpoint) : list kobject := concat (message_objects <$> ep_queue e).
Definition references (k : kernel) : list kobject :=
  concat ((λ p, table_objects (fds p)) <$> (map_to_list (k_procs k)).*2) ++
  concat (queue_objects <$> (map_to_list (endpoints (k_chan k))).*2).
Definition alive (o : kobject) (k : kernel) : bool := bool_decide (o ∈ references k).

(** ** Waking *)

Definition wake_pipe (id : Z) : M sys unit :=
  o ← gets (λ s, s_pipes s !! id);
  match o with
  | None => mret tt
  | Some p =>
      upd_pipe id (λ p, mkPipe (pi_data p) 0 (pi_epoll p)) ;;
      wake (pi_waiter p) ;;
      kept ← on_chan (λ c, let '(l, c') := wake_epolls (pi_epoll p) c in (Ok l, c'));
      upd_pipe id (λ p, mkPipe (pi_data p) (pi_waiter p) kept)
  end.

Definition wake_tty (id : Z) : M sys unit :=
  o ← gets (λ s, s_ttys s !! id);
  match o with
  | None => mret tt
  | Some t =>
      upd_tty id (λ t, mkTty (t_buf t) (t_echo t) (t_raw t) 0 (t_ctrlc t) (t_epoll t)) ;;
      wake (t_waiter t) ;;
      kept ← on_chan (λ c, let '(l, c') := wake_epolls (t_epoll t) c in (Ok l, c'));
      upd_tty id (λ t, mkTty (t_buf t) (t_echo t) (t_raw t) (t_waiter t) (t_ctrlc t) kept)
  end.

(** ** Last references *)

(** The [Drop] of an object nothing else refers to; the objects that go with it. *)
Definition drop_last (o : kobject) : M sys (list kobject) :=
  match o with
  | KPipeWrite id => wake_pipe id ;; mret []
  | KChannel ep =>
      l ← gets (λ s, from_option queue_objects [] (endpoints (k_chan (s_k s)) !! ep));
      on_chan (modify (drop_endpoint ep)) ;;
      mret l
  | KEpoll id =>
      w ← gets (λ s, default 0 (epolls (k_chan (s_k s)) !! id));
      modify (λ s, set_epolls (delete id (s_epolls s)) s) ;;
      in_k (λ k, let c := k_chan k in
        with_chan (mkChan (endpoints c) (ports c) (delete id (epolls c)) (enqueued c) (woken c) (next_koid c)) k) ;;
      wake w ;;
      mret []
  | _ => mret []
  end.

(** Every turn drops one reference, of the list or of a message in flight. *)
Fixpoint drop_loop (fuel : nat) (l : list kobject) : M sys unit :=
  match fuel, l with
  | S f, o :: l' =>
      live ← gets (λ s, bool_decide (o ∈ l') || alive o (s_k s));
      more ← (if live : bool then mret [] else drop_last o);
      drop_loop f (more ++ l')
  | _, _ => mret tt
  end.
Definition in_flight (k : kernel) : nat := length (concat (queue_objects <$> (map_to_list (endpoints (k_chan k))).*2)).
Definition drop_objects (l : list kobject) : M sys unit :=
  n ← gets (λ s, in_flight (s_k s)); drop_loop (n + length l) l.

(** [close_all] of a process that exits, which holds the process table: [enqueue] locks it. *)
Definition close_all_locked (q : Z) : M sys unit := λ s,
  match proc_of q (s_k s) with
  | None => (Ok tt, s)
  | Some p =>
      let s1 := set_k (upd_proc q (with_fds new_table) (s_k s)) s in
      let '(r, s2) := drop_objects (table_objects (fds p)) s1 in
      if bool_decide (k_runq (s_k s2) = k_runq (s_k s1)) then (r, s2)
      else (Panic "Recursive lock deadlock detected!", s1)
  end.

(** ** System calls *)

Definition sys_pipe (ptr : Z) : M sys control :=
  id ← gets s_next;
  modify (set_next (id + 1)) ;;
  modify (λ s, set_pipes (<[id := mkPipe [] 0 []]> (s_pipes s)) s) ;;
  current (λ p, λ s,
    match (h_r ← insert (KPipeRead id); h_w ← insert (KPipeWrite id); mret (h_r, h_w)) (fds p) with
    | (Ok (h_r, h_w), t) =>
        (in_k (upd_proc (k_current (s_k s)) (with_fds t)) ;;
         if negb (is_user_pointer_valid 8 ptr 1) then put usize_max
         else in_k (store_user ptr (le_bytes 4 h_r ++ le_bytes 4 h_w)) ;; put 0) s
    | (Err e, t) => (Err e, s)
    | (Panic e, t) => (Panic e, s)
    end).

(** A background process that uses its terminal: the signal goes to its whole group. *)
Definition signal_group (g sig : Z) (k : kernel) : kernel :=
  with_procs ((λ p, if pgid (family p) =? g then set_pending (Z.lor (pending_signals (signals p)) (bit sig)) p else p)
                <$> k_procs k) k.
Definition background (p : Process) (k : kernel) : bool := (0 <? k_foreground k) && negb (pgid (family p) =? k_foreground k).

Definition print (buf : list Z) : M sys unit :=
  if utf8_valid buf then modify (λ s, set_tx (s_tx s ++ buf) s) else mret tt.

Definition raise_sigpipe (k : kernel) : kernel :=
  upd_proc (k_current k) (λ p,
    if Z.ldiff (bit SIGPIPE) (blocked_signals (signals p)) =? 0 then p
    else set_pending (Z.lor (pending_signals (signals p)) (bit SIGPIPE)) p) k.

Definition pipe_write (id : Z) (buf : list Z) : M sys control :=
  open ← gets (λ s, alive (KPipeRead id) (s_k s));
  if negb open then
    in_k raise_sigpipe ;;
    put EPIPE
  else
    upd_pipe id (λ p, mkPipe (pi_data p ++ buf) (pi_waiter p) (pi_epoll p)) ;;
    wake_pipe id ;;
    put (Z.of_nat (length buf)).

(** [buf] is what the memory at [ptr] holds. *)
Definition sys_write (fd ptr : Z) (buf : list Z) : M sys control :=
  let len := Z.of_nat (length buf) in
  if negb (is_user_pointer_valid 1 ptr len) then put EFAULT
  else current (λ p,
    match get_with_rights (fds p) (wrap 32 fd) RIGHT_WRITE with
    | inl (KTty _) =>
        bg ← gets (λ s, background p (s_k s));
        if bg : bool then in_k (signal_group (pgid (family p)) SIGTTOU) ;; put EIO
        else print buf ;; put len
    | inl (KChannel ep) => λ s,
        match on_chan (write ep (mkMsg buf [])) s with
        | (Ok _, s') => put len s'
        | (_, s') => put usize_max s'
        end
    | inl (KPipeWrite id) => pipe_write id buf
    | inl _ => put usize_max
    | inr e => put e
    end).

(** The bytes a terminal has ready for a reader of [len] bytes. *)
Definition tty_ready (t : TtyState) : bool :=
  if t_raw t then negb (bool_decide (t_buf t = [])) else bool_decide (10 ∈ t_buf t).
Definition tty_take (t : TtyState) (len : Z) : nat :=
  Z.to_nat (Z.min len (if t_raw t then Z.of_nat (length (t_buf t))
                       else Z.of_nat (default O (position (λ b, b =? 10) (t_buf t))) + 1)).

Definition tty_read (id ptr len : Z) : M sys control :=
  o ← gets (λ s, s_ttys s !! id);
  match o with
  | None => put usize_max
  | Some t =>
      if t_ctrlc t then
        upd_tty id (λ t, mkTty (t_buf t) (t_echo t) (t_raw t) (t_waiter t) false (t_epoll t)) ;;
        put 0
      else if tty_ready t then
        let n := tty_take t len in
        in_k (store_user ptr (take n (t_buf t))) ;;
        upd_tty id (λ t, mkTty (drop n (t_buf t)) (t_echo t) (t_raw t) (t_waiter t) (t_ctrlc t) (t_epoll t)) ;;
        put (Z.of_nat n)
      else
        me ← gets (λ s, k_current (s_k s));
        upd_tty id (λ t, mkTty (t_buf t) (t_echo t) (t_raw t) me (t_ctrlc t) (t_epoll t)) ;;
        block
  end.

(** What fits of a message is copied, the rest is lost. *)
Definition copy_message (ptr len : Z) (m : message) : M sys control :=
  let bytes := take (Z.to_nat len) (m_bytes m) in
  in_k (store_user ptr bytes) ;; put (Z.of_nat (length bytes)).

Definition receive (ep : Z) : M sys (option message) := on_chan (λ c, let '(o, c') := try_recv ep c in (Ok o, c')).
Definition set_ep_waiter (ep pid : Z) : M sys unit :=
  on_chan (modify (upd_ep ep (λ e, mkEp (ep_queue e) (ep_waker e) (ep_peer_closed e) (ep_peer e) pid
    (ep_observers e) (ep_epoll e) (ep_signal_waiters e)))).

Definition channel_read (ep ptr len : Z) : M sys control :=
  o ← receive ep;
  match o with
  | Some m => copy_message ptr len m
  | None =>
      me ← gets (λ s, k_current (s_k s));
      set_ep_waiter ep me ;;
      o2 ← receive ep;
      match o2 with
      | Some m => set_ep_waiter ep 0 ;; copy_message ptr len m
      | None => block
      end
  end.

Definition pipe_read (id ptr len : Z) : M sys control :=
  o ← gets (λ s, s_pipes s !! id);
  match o with
  | None => put usize_max
  | Some p =>
      if negb (bool_decide (pi_data p = [])) then
        let n := Z.to_nat (Z.min len (Z.of_nat (length (pi_data p)))) in
        in_k (store_user ptr (take n (pi_data p))) ;;
        upd_pipe id (λ p, mkPipe (drop n (pi_data p)) (pi_waiter p) (pi_epoll p)) ;;
        put (Z.of_nat n)
      else
        open ← gets (λ s, alive (KPipeWrite id) (s_k s));
        if negb open then put 0
        else
          me ← gets (λ s, k_current (s_k s));
          upd_pipe id (λ p, mkPipe (pi_data p) me (pi_epoll p)) ;;
          still ← gets (λ s, alive (KPipeWrite id) (s_k s));
          if negb still then upd_pipe id (λ p, mkPipe (pi_data p) 0 (pi_epoll p)) ;; put 0
          else block
  end.

Definition sys_read (fd ptr len : Z) : M sys control :=
  if negb (is_user_pointer_valid 1 ptr len) then put EFAULT
  else current (λ p,
    match get_with_rights (fds p) (wrap 32 fd) RIGHT_READ with
    | inl (KTty id) =>
        bg ← gets (λ s, background p (s_k s));
        if bg : bool then in_k (signal_group (pgid (family p)) SIGTTIN) ;; put EIO
        else tty_read id ptr len
    | inl (KChannel ep) => channel_read ep ptr len
    | inl (KPipeRead id) => pipe_read id ptr len
    | inl _ => put usize_max
    | inr e => put e
    end).

Definition sys_lseek (fd : Z) : M sys control := current (λ p,
  match get (fds p) (wrap 32 fd) with Some _ => put ESPIPE | None => put EBADF end).

(** [release_fd_locks] on the kernel. *)
Definition release_file (file q : Z) (k : kernel) : kernel :=
  let s := release_fd_locks file q (lock_view k) in
  foldl lock_wake (with_locks (file_locks s) (lock_waiters s) k) (run_queue s).

Definition sys_close (arg0 : Z) : M sys control := current (λ p,
  let fd := wrap 32 arg0 in
  me ← gets (λ s, k_current (s_k s));
  match get (fds p) fd with
  | Some (KVfsFile server_fd) => in_k (release_file server_fd me)
  | _ => mret tt
  end ;;
  let '(o, t) := remove fd (fds p) in
  in_k (upd_proc me (with_fds t)) ;;
  match o with
  | Some x => drop_objects [x] ;; put 0
  | None => put usize_max
  end).

Definition sys_set_echo (arg0 : Z) : M sys control := current (λ p,
  match get (fds p) 0 with
  | Some (KTty id) => upd_tty id (λ t, mkTty (t_buf t) (negb (arg0 =? 0)) (t_raw t) (t_waiter t) (t_ctrlc t) (t_epoll t))
  | _ => mret tt
  end ;; put 0).
Definition sys_set_raw (arg0 : Z) : M sys control := current (λ p,
  match get (fds p) 0 with
  | Some (KTty id) => upd_tty id (λ t, mkTty (t_buf t) (t_echo t) (negb (arg0 =? 0)) (t_waiter t) (t_ctrlc t) (t_epoll t))
  | _ => mret tt
  end ;; put 0).

(** *** poll *)

Definition POLLIN : Z := 1.
Definition POLLOUT : Z := 4.
Definition POLLERR : Z := 8.
Definition POLLHUP : Z := 16.
Definition POLLNVAL : Z := 32.

Definition wants (events b : Z) : bool := negb (Z.land events b =? 0).
Definition when (c : bool) (b : Z) : Z := if c then b else 0.

(** A channel is tested by receiving from it. *)
Definition revents (p : Process) (fd events : Z) : M sys Z :=
  match get (fds p) (wrap 32 fd) with
  | None => mret POLLNVAL
  | Some (KPipeRead id) =>
      o ← gets (λ s, s_pipes s !! id);
      open ← gets (λ s, alive (KPipeWrite id) (s_k s));
      mret (Z.lor (when (negb (bool_decide (from_option pi_data [] o = [])) && wants events POLLIN) POLLIN)
                  (when (negb open) POLLHUP))
  | Some (KPipeWrite id) =>
      open ← gets (λ s, alive (KPipeRead id) (s_k s));
      mret (Z.lor (when (wants events POLLOUT) POLLOUT) (when (negb open) POLLERR))
  | Some (KChannel ep) =>
      got ← (if wants events POLLIN then receive ep else mret None);
      mret (Z.lor (when (bool_decide (is_Some got)) POLLIN) (when (wants events POLLOUT) POLLOUT))
  | Some _ => mret (Z.lor (when (wants events POLLIN) POLLIN) (when (wants events POLLOUT) POLLOUT))
  end.

Fixpoint poll_loop (p : Process) (ptr i : Z) (l : list (Z * Z)) (ready : Z) : M sys Z :=
  match l with
  | [] => mret ready
  | (fd, events) :: l' =>
      r ← revents p fd events;
      (if r =? 0 then mret tt else in_k (store_user (ptr + i * 8 + 6) (le_bytes 2 r))) ;;
      poll_loop p ptr (i + 1) l' (if r =? 0 then ready else ready + 1)
  end.

(** [entries] are the descriptors and events of the [nfds] records at [ptr]. *)
Definition sys_poll (ptr nfds : Z) (entries : list (Z * Z)) : M sys control :=
  if nfds =? 0 then put 0
  else if negb (is_user_pointer_valid 1 ptr (wrap 64 (nfds * 8))) then put EFAULT
  else current (λ p, n ← poll_loop p ptr 0 entries 0; put n).

(** *** fstat *)

Definition fstat_mode (o : kobject) : option Z :=
  match o with
  | KTty _ => Some 8320
  | KPipeRead _ | KPipeWrite _ => Some 4516
  | KChannel _ | KEpoll _ => Some 8192
  | _ => None
  end.
Definition sys_fstat (fd ptr : Z) : M sys control :=
  if negb (is_user_pointer_valid 1 ptr 144) then put EFAULT
  else current (λ p,
    match get (fds p) (wrap 32 fd) with
    | None => put EBADF
    | Some o =>
        match fstat_mode o with
        | None => put ENOSYS
        | Some mode =>
            for_each [(0, le_bytes 8 0); (8, le_bytes 8 0); (16, le_bytes 4 1); (20, le_bytes 4 mode);
                      (24, le_bytes 4 0); (28, le_bytes 4 0); (40, le_bytes 8 0); (48, le_bytes 8 0);
                      (56, le_bytes 4 0); (64, le_bytes 8 0); (72, le_bytes 8 0); (80, le_bytes 8 0);
                      (88, le_bytes 8 0); (96, le_bytes 8 0); (104, le_bytes 8 0); (112, le_bytes 8 0);
                      (120, replicate 24 0)]
              (λ '(off, b), in_k (store_user (ptr + off) b)) ;;
            put 0
        end
    end).

(** ** The line discipline *)

(** ^C and ^Z: to the foreground group if there is one, else to the reader. *)
Definition interrupt_one (fg sig : Z) (k : kernel) (q : Z) : kernel :=
  match proc_of q k with
  | Some p => if pgid (family p) =? fg
              then wake_if_stopped q (upd_proc q (λ p, set_pending (Z.lor (pending_signals (signals p)) (bit sig)) p) k)
              else k
  | None => k
  end.
Definition interrupt_group (fg sig : Z) (k : kernel) : kernel :=
  foldl (interrupt_one fg sig) k (sorted_keys (k_procs k)).

Definition control_key (id c letter sig : Z) : M sys unit :=
  fg ← gets (λ s, k_foreground (s_k s));
  put_char 94 ;; put_char letter ;; put_char 10 ;;
  if 0 <? fg then in_k (interrupt_group fg sig)
  else
    upd_tty id (λ t, mkTty (t_buf t ++ [c]) (t_echo t) (t_raw t) (t_waiter t) true (t_epoll t)) ;;
    wake_tty id.

Definition echoes (t : TtyState) (b : list Z) : M sys unit :=
  if t_echo t then for_each b put_char else mret tt.
Definition set_tbuf (b : list Z) (t : TtyState) : TtyState :=
  mkTty b (t_echo t) (t_raw t) (t_waiter t) (t_ctrlc t) (t_epoll t).

(** One byte; the result says whether the buffer grew. *)
Definition input_byte (id : Z) (t : TtyState) (c : Z) : M sys bool :=
  if t_raw t then upd_tty id (set_tbuf (t_buf t ++ [c])) ;; mret true
  else if (c =? 13) || (c =? 10) then
    echoes t [10] ;; upd_tty id (set_tbuf (t_buf t ++ [10])) ;; mret true
  else if (c =? 8) || (c =? 127) then
    match t_buf t with
    | [] => mret false
    | _ => upd_tty id (set_tbuf (removelast (t_buf t))) ;; echoes t [8; 32; 8] ;; mret false
    end
  else echoes t [c] ;; upd_tty id (set_tbuf (t_buf t ++ [c])) ;; mret true.

Fixpoint uart_loop (id : Z) (rx : list Z) (any_pushed : bool) : M sys bool :=
  match rx with
  | [] => mret any_pushed
  | c :: rx' =>
      modify (set_rx rx') ;;
      if c =? 3 then control_key id 3 67 2 ;; mret any_pushed
      else if c =? 26 then control_key id 26 90 SIGTSTP ;; mret any_pushed
      else
        o ← gets (λ s, s_ttys s !! id);
        match o with
        | None => mret any_pushed
        | Some t => pushed ← input_byte id t c; uart_loop id rx' (any_pushed || pushed)
        end
  end.

Definition poll_uart_into_linedisc : M sys unit :=
  o ← gets (λ s, k_active_tty (s_k s));
  match o with
  | None => mret tt
  | Some id =>
      rx ← gets s_rx;
      any_pushed ← uart_loop id rx false;
      if any_pushed : bool then wake_tty id else mret tt
  end.

(** ** Data in pipes *)

Definition k_regs_ok (k : kernel) : Prop := ∀ q p, k_procs k !! q = Some p → length (regs (trap_frame p)) = 32%nat.
Definition pipe_data (id : Z) (s : sys) : list Z := from_option pi_data [] (s_pipes s !! id).

(** What leaves pipe [id] alone. *)
Record quiet (id : Z) (s s' : sys) : Prop := {
  q_data : pipe_data id s' = pipe_data id s;
  q_some : is_Some (s_pipes s !! id) → is_Some (s_pipes s' !! id);
  q_regs : k_regs_ok (s_k s) → k_regs_ok (s_k s');
}.

#[export] Instance quiet_preorder id : PreOrder (quiet id).
Proof. split; [by split|]. intros s1 s2 s3 [D1 S1 R1] [D2 S2 R2]. split; [congruence|auto..]. Qed.

Definition keeps_regs (f : kernel → kernel) : Prop := ∀ k, k_regs_ok k → k_regs_ok (f k).

Lemma upd_proc_regs q f : (∀ p, length (regs (trap_frame (f p))) = length (regs (trap_frame p))) → keeps_regs (upd_proc q f).
Proof.
  intros Hf k Hk q' p'. cbn. intros Hp. destruct (decide (q = q')) as [->|].
  - rewrite lookup_alter_eq in Hp. destruct (k_procs k !! q') as [p|] eqn:E; [|done]. injection Hp as <-. rewrite Hf. eauto.
  - rewrite lookup_alter_ne in Hp by done. eauto.
Qed.

Lemma set_a0_regs v : keeps_regs (set_a0 v).
Proof. intros k. apply upd_proc_regs. intros p. apply length_insert. Qed.

Lemma procs_regs (f : kernel → kernel) : (∀ k, k_procs (f k) = k_procs k) → keeps_regs f.
Proof. intros Hf k Hk q p. rewrite Hf. apply Hk. Qed.

Lemma enqueue_regs q : keeps_regs (enqueue_pid q).
Proof. by apply procs_regs. Qed.

Lemma foldl_regs {A} (f : kernel → A → kernel) l : (∀ a, keeps_regs (λ k, f k a)) → keeps_regs (λ k, foldl f k l).
Proof. intros Hf. induction l as [|a l IH]; intros k Hk; [done|]. apply IH. by apply Hf. Qed.

Lemma quiet_k id f : keeps_regs f → preserves (quiet id) (in_k f).
Proof. intros Hf s. split; [done..|]. apply Hf. Qed.

Lemma quiet_put id v : preserves (quiet id) (put v).
Proof. apply (preserves_bind (quiet id)); [apply quiet_k, set_a0_regs|]. intros _. apply (preserves_ret (quiet id)). Qed.

Lemma quiet_pipe id i f : i ≠ id ∨ (∀ p, pi_data (f p) = pi_data p) → preserves (quiet id) (upd_pipe i f).
Proof.
  intros Hf s. split; [|by cbn; rewrite lookup_alter_is_Some|done]. unfold pipe_data. cbn.
  destruct (decide (i = id)) as [->|]; [|by rewrite lookup_alter_ne].
  rewrite lookup_alter_eq. destruct Hf as [|Hf]; [done|]. destruct (s_pipes s !! id); [apply Hf|done].
Qed.

Lemma quiet_chan {A} id (c : M chan_st A) : preserves (quiet id) (on_chan c).
Proof.
  intros s. unfold on_chan. destruct (c _) as [r c']. split; [done..|]. intros Hk. cbn.
  apply (foldl_regs (λ k q, enqueue_pid q k)); [intros a; apply enqueue_regs|]. by apply procs_regs.
Qed.

Lemma quiet_same id (f : sys → sys) : (∀ s, s_pipes (f s) = s_pipes s ∧ s_k (f s) = s_k s) → preserves (quiet id) (modify f).
Proof. intros Hf s. destruct (Hf s) as [Hp Hk]. split; cbn; unfold pipe_data; by rewrite ?Hp, ?Hk. Qed.

Lemma quiet_tty id i f : preserves (quiet id) (upd_tty i f).
Proof. by apply quiet_same. Qed.

Lemma quiet_wake id w : preserves (quiet id) (wake w).
Proof. unfold wake. destruct (0 <? w); [apply quiet_k, enqueue_regs|apply (preserves_ret (quiet id))]. Qed.

Ltac quiet :=
  repeat first
    [ preserves_step
    | lazymatch goal with
      | |- preserves (quiet _) (put _) => apply quiet_put
      | |- preserves (quiet _) (wake _) => apply quiet_wake
      | |- preserves (quiet _) (on_chan _) => apply quiet_chan
      | |- preserves (quiet _) (upd_tty _ _) => apply quiet_tty
      | |- preserves (quiet _) (upd_pipe _ _) => apply quiet_pipe; first [by left | by right]
      | |- preserves (quiet _) (in_k (store_user _ _)) => apply quiet_k, procs_regs; done
      | |- preserves (quiet _) (modify _) => by apply quiet_same
      end ].

Lemma quiet_wake_pipe id i : preserves (quiet id) (wake_pipe i).
Proof. unfold wake_pipe. quiet. Qed.

Lemma quiet_wake_tty id i : preserves (quiet id) (wake_tty i).
Proof. unfold wake_tty. quiet. Qed.

Lemma quiet_block id : preserves (quiet id) block.
Proof. unfold block. quiet. apply quiet_k. intros k. apply upd_proc_regs. done. Qed.

Lemma quiet_current id f : (∀ p, preserves (quiet id) (f p)) → preserves (quiet id) (current f).
Proof. intros Hf s. unfold current. destruct (proc_of _ _) as [p|]; [apply Hf|done]. Qed.

Lemma signal_group_regs g sig : keeps_regs (signal_group g sig).
Proof.
  intros k Hk q p. cbn. rewrite lookup_fmap. destruct (k_procs k !! q) as [p0|] eqn:E; [|done]. cbn. intros [= <-].
  specialize (Hk _ _ E). by destruct (_ =? g).
Qed.

Lemma quiet_drop_last id o : preserves (quiet id) (drop_last o).
Proof.
  unfold drop_last. destruct o; quiet.
  - apply quiet_wake_pipe.
  - by apply quiet_k, procs_regs.
Qed.

Lemma quiet_drop id fuel : ∀ l, preserves (quiet id) (drop_loop fuel l).
Proof.
  induction fuel as [|f IH]; intros l; [apply (preserves_ret (quiet id))|]. destruct l as [|o l]; [apply (preserves_ret (quiet id))|].
  cbn [drop_loop]. quiet; [apply quiet_drop_last|apply IH].
Qed.

Lemma release_file_regs file q : keeps_regs (release_file file q).
Proof.
  intros k Hk. unfold release_file. apply (foldl_regs lock_wake); [|by apply procs_regs].
  intros [q' prio] k' Hk'. apply procs_regs; [done|]. apply upd_proc_regs; [|done]. intros p. apply length_insert.
Qed.

Lemma quiet_close id fd : preserves (quiet id) (sys_close fd).
Proof.
  apply quiet_current. intros p. cbv zeta. apply (preserves_bind (quiet id)); [quiet|]. intros me.
  apply (preserves_bind (quiet id)).
  { destruct (get _ _) as [[]|]; quiet. apply quiet_k, release_file_regs. }
  intros _. destruct (remove _ _) as [o t]. apply (preserves_bind (quiet id)).
  { apply quiet_k. intros k. by apply upd_proc_regs. }
  intros _. unfold drop_objects. destruct o; quiet. apply quiet_drop.
Qed.

Lemma interrupt_regs fg sig : keeps_regs (interrupt_group fg sig).
Proof.
  intros k Hk. unfold interrupt_group. apply (foldl_regs (interrupt_one fg sig)); [|done]. clear k Hk.
  intros q k Hk. unfold interrupt_one. destruct (proc_of q k) as [p|]; [|done]. destruct (_ =? fg); [|done].
  set (k1 := upd_proc q _ k). assert (k_regs_ok k1) as Hk1 by (by apply upd_proc_regs).
  unfold wake_if_stopped, make_runnable. destruct (proc_of q k1) as [p1|]; [|done]. destruct (is_stopped p1); [|done].
  apply procs_regs; [done|]. by apply upd_proc_regs.
Qed.

Lemma quiet_uart id i rx : ∀ any, preserves (quiet id) (uart_loop i rx any).
Proof.
  induction rx as [|c rx IH]; intros any; cbn [uart_loop]; [apply (preserves_ret (quiet id))|].
  unfold control_key, put_char, input_byte, echoes, put_char. quiet;
    try apply quiet_wake_tty; try (apply quiet_k, interrupt_regs); try apply IH.
Qed.

Lemma quiet_linedisc id : preserves (quiet id) poll_uart_into_linedisc.
Proof. unfold poll_uart_into_linedisc. quiet; [apply quiet_uart|apply quiet_wake_tty]. Qed.

(** What changes no process and no user memory. *)
Record steady (s s' : sys) : Prop := {
  y_procs : k_procs (s_k s') = k_procs (s_k s);
  y_current : k_current (s_k s') = k_current (s_k s);
  y_stores : k_stores (s_k s') = k_stores (s_k s);
  y_foreground : k_foreground (s_k s') = k_foreground (s_k s);
}.

#[export] Instance steady_preorder : PreOrder steady.
Proof. split; [by split|]. intros s1 s2 s3 [] []. split; congruence. Qed.

Lemma steady_chan {A} (c : M chan_st A) : preserves steady (on_chan c).
Proof.
  intros s. unfold on_chan. destruct (c _) as [r c']. cbn. generalize (drop (length (enqueued (k_chan (s_k s)))) (enqueued c')).
  intros l. assert (∀ k, steady s (set_k k s) → steady s (set_k (foldl (λ k q, enqueue_pid q k) k l) s)) as H.
  { induction l as [|q l IH]; intros k Hk; [done|]. apply IH. destruct Hk. by split. }
  apply H. by split.
Qed.

Lemma steady_wake w : preserves steady (wake w).
Proof. unfold wake. destruct (0 <? w); by intros s. Qed.

Lemma steady_wake_pipe id : preserves steady (wake_pipe id).
Proof.
  unfold wake_pipe. repeat preserves_step.
  - by intros s.
  - apply steady_wake.
  - apply steady_chan.
  - by intros s.
Qed.

(** *** Results *)

Definition a0 (s : sys) : Z := from_option (λ p, reg 10 (trap_frame p)) 0 (proc_of (k_current (s_k s)) (s_k s)).
Definition new_stores (s s' : sys) : list Z := concat ((λ x, x.2) <$> drop (length (k_stores (s_k s))) (k_stores (s_k s'))).

Lemma put_a0 v s : k_regs_ok (s_k s) → is_Some (proc_of (k_current (s_k s)) (s_k s)) → a0 (put v s).2 = v.
Proof.
  intros Hr [p Hp]. unfold a0, proc_of in *. change (put v s).2 with (set_k (set_a0 v (s_k s)) s).
  cbn [s_k set_k set_a0 upd_proc k_current with_procs k_procs]. rewrite lookup_alter_eq, Hp. cbn. unfold reg. cbn.
  rewrite list_lookup_insert_eq; [done|]. rewrite (Hr _ _ Hp). lia.
Qed.

Definition target (right fd : Z) (s : sys) : option kobject :=
  match proc_of (k_current (s_k s)) (s_k s) with
  | Some p => match get_with_rights (fds p) (wrap 32 fd) right with inl o => Some o | inr _ => None end
  | None => None
  end.

Lemma sigpipe_regs : keeps_regs raise_sigpipe.
Proof. intros k. apply upd_proc_regs. intros p. by destruct (_ =? 0). Qed.

Ltac as_preserves := lazymatch goal with |- ?R ?s (?f ?s).2 => apply ((λ H : preserves R f, H s) : preserves R f → R s (f s).2) end.

Lemma write_elsewhere id fd ptr buf s :
  target RIGHT_WRITE fd s ≠ Some (KPipeWrite id) → quiet id s (sys_write fd ptr buf s).2.
Proof.
  intros Ht. unfold sys_write. destruct (negb _); [apply quiet_put|]. unfold current, target in *.
  destruct (proc_of _ _) as [p|]; [|done]. destruct (get_with_rights _ _ _) as [o|e]; [|apply quiet_put].
  destruct o; try apply quiet_put.
  - pose proof (quiet_chan id (write ep (mkMsg buf [])) s) as Hq. destruct (on_chan _ s) as [[]]; cbn in Hq;
      (etrans; [exact Hq|apply quiet_put]).
  - as_preserves. quiet. 1: apply quiet_k, signal_group_regs. unfold print. quiet.
  - as_preserves. unfold pipe_write. quiet.
    + apply quiet_k, sigpipe_regs.
    + apply quiet_pipe. left. congruence.
    + apply quiet_wake_pipe.
Qed.

Lemma read_elsewhere id fd ptr len s :
  target RIGHT_READ fd s ≠ Some (KPipeRead id) → quiet id s (sys_read fd ptr len s).2.
Proof.
  intros Ht. unfold sys_read. destruct (negb _); [apply quiet_put|]. unfold current, target in *.
  destruct (proc_of _ _) as [p|]; [|done]. destruct (get_with_rights _ _ _) as [o|e]; [|apply quiet_put].
  destruct o; try apply quiet_put; as_preserves.
  - unfold channel_read, receive, copy_message, set_ep_waiter. quiet. apply quiet_block.
  - unfold tty_read. quiet; [apply quiet_k, signal_group_regs|apply quiet_block].
  - assert (id0 ≠ id) by congruence. unfold pipe_read. quiet. apply quiet_block.
Qed.

Lemma write_dispatch id fd ptr buf s :
  target RIGHT_WRITE fd s = Some (KPipeWrite id) → is_user_pointer_valid 1 ptr (Z.of_nat (length buf)) = true →
  sys_write fd ptr buf s = pipe_write id buf s.
Proof.
  intros Ht Hv. unfold sys_write. rewrite Hv. cbn [negb]. unfold target, current in *. destruct (proc_of _ _) as [p|]; [|done].
  destruct (get_with_rights _ _ _) as [o|]; [|done]. by injection Ht as ->.
Qed.

Lemma read_dispatch id fd ptr len s :
  target RIGHT_READ fd s = Some (KPipeRead id) → is_user_pointer_valid 1 ptr len = true →
  sys_read fd ptr len s = pipe_read id ptr len s.
Proof.
  intros Ht Hv. unfold sys_read. rewrite Hv. cbn [negb]. unfold target, current in *. destruct (proc_of _ _) as [p|]; [|done].
  destruct (get_with_rights _ _ _) as [o|]; [|done]. by injection Ht as ->.
Qed.

Lemma target_proc right fd s o : target right fd s = Some o → is_Some (proc_of (k_current (s_k s)) (s_k s)).
Proof. unfold target. by destruct (proc_of _ _). Qed.

Lemma wake_pipe_ok id s : ∃ s', wake_pipe id s = (Ok tt, s') ∧ quiet id s s' ∧ steady s s'.
Proof.
  pose proof (quiet_wake_pipe id id s) as Hq. pose proof (steady_wake_pipe id s) as Hs.
  enough ((wake_pipe id s).1 = Ok tt) as E by (exists (wake_pipe id s).2; rewrite <-E; by destruct (wake_pipe id s)).
  clear. unfold wake_pipe, gets, mbind, M_bind. destruct (s_pipes s !! id) as [p|]; [|done].
  cbn. unfold wake. destruct (0 <? _); cbn; unfold on_chan; by destruct (wake_epolls _ _).
Qed.

(** A write to the pipe: refused, or all of it at the end of the data. *)
Lemma write_here id fd ptr buf s :
  target RIGHT_WRITE fd s = Some (KPipeWrite id) → is_Some (s_pipes s !! id) → k_regs_ok (s_k s) →
  let s' := (sys_write fd ptr buf s).2 in
  (quiet id s s' ∧ (a0 s' = EFAULT ∨ a0 s' = EPIPE)) ∨
  (is_user_pointer_valid 1 ptr (Z.of_nat (length buf)) = true ∧ is_Some (s_pipes s' !! id) ∧ k_regs_ok (s_k s') ∧
   pipe_data id s' = pipe_data id s ++ buf ∧ a0 s' = Z.of_nat (length buf)).
Proof.
  intros Ht Hp Hr. pose proof (target_proc _ _ _ _ Ht) as Hc. cbv zeta. destruct (is_user_pointer_valid 1 ptr _) eqn:Hv.
  2: { left. unfold sys_write. rewrite Hv. split; [apply quiet_put|]. left. by apply put_a0. }
  rewrite (write_dispatch id) by done. unfold pipe_write. erewrite bind_ok by reflexivity. cbv beta.
  destruct (alive (KPipeRead id) (s_k s)); cbn [negb].
  - right. split; [done|]. erewrite bind_ok by reflexivity. set (s1 := set_pipes _ s).
    destruct (wake_pipe_ok id s1) as (s2 & E & [D2 S2 R2] & [P2 C2 _ _]). erewrite bind_ok by exact E.
    destruct (quiet_put id (Z.of_nat (length buf)) s2) as [D3 S3 R3].
    assert (is_Some (s_pipes s1 !! id)) as Hp1 by (cbn; by rewrite lookup_alter_is_Some).
    split_and!; [auto..| |].
    + rewrite D3, D2. unfold pipe_data. cbn. rewrite lookup_alter_eq. by destruct Hp as [pp ->].
    + apply put_a0; [by apply R2|]. unfold proc_of. rewrite P2, C2. exact Hc.
  - left. erewrite bind_ok by reflexivity. split.
    + etrans; [|apply quiet_put]. apply (quiet_k id _ sigpipe_regs s).
    + right. apply put_a0; [by apply sigpipe_regs|]. destruct Hc as [p Hc]. unfold proc_of in *. cbn. rewrite lookup_alter_eq, Hc. by eexists.
Qed.

Lemma new_stores_none s s' : k_stores (s_k s') = k_stores (s_k s) → new_stores s s' = [].
Proof. intros E. unfold new_stores. by rewrite E, drop_all. Qed.

Lemma stored_bytes v m ptr b s : new_stores s (put v (set_pipes m (set_k (store_user ptr b (s_k s)) s))).2 = b.
Proof.
  unfold new_stores. change (k_stores (s_k (put v _).2)) with (k_stores (s_k s) ++ [(satp_root (k_satp (s_k s)), ptr, b)]).
  rewrite drop_app_length. cbn. by rewrite app_nil_r.
Qed.

Lemma pipe_read_data id ptr len p s : s_pipes s !! id = Some p → pi_data p ≠ [] →
  let n := Z.to_nat (Z.min len (Z.of_nat (length (pi_data p)))) in
  pipe_read id ptr len s =
    put (Z.of_nat n) (set_pipes (alter (λ p, mkPipe (drop n (pi_data p)) (pi_waiter p) (pi_epoll p)) id (s_pipes s))
                        (set_k (store_user ptr (take n (pi_data p)) (s_k s)) s)).
Proof.
  intros Hp Hd n. unfold pipe_read. erewrite bind_ok by reflexivity. cbv beta. rewrite Hp, bool_decide_false by done. reflexivity.
Qed.

Lemma pipe_read_empty id ptr len p s : s_pipes s !! id = Some p → pi_data p = [] →
  k_stores (s_k (pipe_read id ptr len s).2) = k_stores (s_k s) ∧ quiet id s (pipe_read id ptr len s).2.
Proof.
  intros Hp Hd. split.
  - unfold pipe_read. erewrite bind_ok by reflexivity. cbv beta. rewrite Hp, bool_decide_true by done. cbn [negb].
    erewrite bind_ok by reflexivity. cbv beta. destruct (alive _ _) eqn:E; [|done]. cbn [negb].
    do 3 erewrite bind_ok by reflexivity. cbv beta. by destruct (negb _).
  - unfold pipe_read. erewrite bind_ok by reflexivity. cbv beta. rewrite Hp, bool_decide_true by done. cbn [negb].
    as_preserves. quiet. apply quiet_block.
Qed.

(** A read of the pipe: what it copies out is what it takes from the front of the data. *)
Lemma read_here id fd ptr len s :
  target RIGHT_READ fd s = Some (KPipeRead id) → is_Some (s_pipes s !! id) → k_regs_ok (s_k s) →
  let s' := (sys_read fd ptr len s).2 in
  is_Some (s_pipes s' !! id) ∧ k_regs_ok (s_k s') ∧ new_stores s s' ++ pipe_data id s' = pipe_data id s ∧
  (new_stores s s' ≠ [] → a0 s' = Z.of_nat (length (new_stores s s'))).
Proof.
  intros Ht Hp Hr. pose proof (target_proc _ _ _ _ Ht) as Hc. cbv zeta.
  assert (∀ s', quiet id s s' → k_stores (s_k s') = k_stores (s_k s) →
    is_Some (s_pipes s' !! id) ∧ k_regs_ok (s_k s') ∧ new_stores s s' ++ pipe_data id s' = pipe_data id s ∧
    (new_stores s s' ≠ [] → a0 s' = Z.of_nat (length (new_stores s s')))) as Hquiet.
  { intros s' [D S R] E. rewrite (new_stores_none _ _ E). split_and!; [auto..|done]. }
  destruct (is_user_pointer_valid 1 ptr len) eqn:Hv.
  2: { apply Hquiet; unfold sys_read; rewrite Hv; [apply quiet_put|done]. }
  rewrite (read_dispatch id) by done. destruct Hp as [p Hp].
  destruct (decide (pi_data p = [])) as [Hd|Hd].
  { destruct (pipe_read_empty id ptr len p s Hp Hd). by apply Hquiet. }
  rewrite (pipe_read_data id ptr len p s Hp Hd). cbv zeta. set (n := Z.to_nat _). set (s1 := set_pipes _ _).
  destruct (quiet_put id (Z.of_nat n) s1) as [D S R]. assert (k_regs_ok (s_k s1)) as R1 by done.
  assert (new_stores s (put (Z.of_nat n) s1).2 = take n (pi_data p)) as E.
  { apply stored_bytes. }
  rewrite E. split_and!.
  - apply S. cbn. by rewrite lookup_alter_is_Some, Hp.
  - by apply R.
  - rewrite D. unfold pipe_data. cbn. rewrite lookup_alter_eq, Hp. apply take_drop.
  - intros _. rewrite put_a0 by done. rewrite length_take. unfold n. lia.
Qed.

(** *** Sequences of calls *)

(** What happens to the system: a call of the running process, bytes from the UART, or
    another process running. *)
Inductive call : Type :=
  | CWrite (fd ptr : Z) (buf : list Z)
  | CRead (fd ptr len : Z)
  | CClose (fd : Z)
  | CUart (rx : list Z)
  | CRun (q : Z).

Definition run_call (c : call) : M sys control :=
  match c with
  | CWrite fd ptr buf => sys_write fd ptr buf
  | CRead fd ptr len => sys_read fd ptr len
  | CClose fd => sys_close fd
  | CUart rx => modify (set_rx rx) ;; poll_uart_into_linedisc ;; mret Return
  | CRun q => in_k (dispatch q) ;; mret Return
  end.

(** The bytes a call was told it has written to pipe [id], and those a call on it has stored
    in user memory. *)
Definition written (id : Z) (c : call) (s s' : sys) : list Z :=
  match c with
  | CWrite fd _ buf =>
      if bool_decide (target RIGHT_WRITE fd s = Some (KPipeWrite id)) && (a0 s' <? 2 ^ 63) then buf else []
  | _ => []
  end.
Definition received (id : Z) (c : call) (s s' : sys) : list Z :=
  match c with
  | CRead fd _ _ => if bool_decide (target RIGHT_READ fd s = Some (KPipeRead id)) then new_stores s s' else []
  | _ => []
  end.

Fixpoint run_calls (id : Z) (cs : list call) (s : sys) : list Z * list Z * sys :=
  match cs with
  | [] => ([], [], s)
  | c :: cs' =>
      let s' := (run_call c s).2 in
      let '(w, r, s2) := run_calls id cs' s' in
      (written id c s s' ++ w, received id c s s' ++ r, s2)
  end.

Lemma valid_len ptr n : is_user_pointer_valid 1 ptr n = true → n < 2 ^ 63.
Proof.
  unfold is_user_pointer_valid, sat_add, usize_max. destruct (ptr =? 0); [done|]. intros [H1 H2]%andb_true_iff.
  apply Z.leb_le in H1, H2. lia.
Qed.

Lemma call_fifo id c s : is_Some (s_pipes s !! id) → k_regs_ok (s_k s) →
  let s' := (run_call c s).2 in
  is_Some (s_pipes s' !! id) ∧ k_regs_ok (s_k s') ∧
  received id c s s' ++ pipe_data id s' = pipe_data id s ++ written id c s s'.
Proof.
  intros Hp Hr. cbv zeta.
  assert (∀ s', quiet id s s' → is_Some (s_pipes s' !! id) ∧ k_regs_ok (s_k s') ∧ pipe_data id s' = pipe_data id s ++ []) as Hq.
  { intros s' [D S R]. rewrite app_nil_r. auto. }
  destruct c as [fd ptr buf|fd ptr len|fd|rx|q]; cbn [run_call written received].
  - case_bool_decide as Ht; [|apply Hq; by apply write_elsewhere].
    destruct (write_here id fd ptr buf s Ht Hp Hr) as [[Hqq Ha]|(Hv & S & R & D & Ha)].
    + destruct (Hq _ Hqq) as (S & R & D). split_and!; [done..|]. cbn [andb app].
      replace (_ <? 2 ^ 63) with false; [exact D|]. destruct Ha as [->| ->]; reflexivity.
    + split_and!; [done..|]. cbn [andb app]. rewrite D, Ha. rewrite (proj2 (Z.ltb_lt _ _)); [done|]. by eapply valid_len.
  - case_bool_decide as Ht; [|apply Hq; by apply read_elsewhere].
    destruct (read_here id fd ptr len s Ht Hp Hr) as (S & R & D & _). rewrite app_nil_r. auto.
  - apply Hq, quiet_close.
  - apply Hq. as_preserves. quiet. apply quiet_linedisc.
  - apply Hq. as_preserves. quiet. apply quiet_k. intros k Hk. unfold dispatch. destruct (proc_of q k); [|done].
    apply procs_regs; [done|]. by apply upd_proc_regs.
Qed.

(** C25: a pipe is a queue of bytes.  Over any sequence of reads, writes and closes by any
    processes, what was stored for its readers followed by what it still holds is what it
    held followed by what its writers were told they had written; no byte is lost,
    duplicated or out of order. *)
Theorem pipe_fifo id cs s :
  is_Some (s_pipes s !! id) → k_regs_ok (s_k s) →
  let '(w, r, s') := run_calls id cs s in
  r ++ pipe_data id s' = pipe_data id s ++ w.
Proof.
  revert s. induction cs as [|c cs IH]; intros s Hp Hr; cbn [run_calls]; [by rewrite app_nil_r|].
  destruct (call_fifo id c s Hp Hr) as (Hp' & Hr' & E). specialize (IH _ Hp' Hr').
  destruct (run_calls id cs _) as [[w r] s2]. by rewrite <-app_assoc, IH, !app_assoc, E.
Qed.

(** ** Blocked readers *)

Definition queued (q : Z) (s : sys) : Prop := ∃ x, x ∈ k_runq (s_k s) ∧ q ∈ x.2.

Lemma rq_push_queued prio q rq : ∃ x, x ∈ rq_push prio q rq ∧ q ∈ x.2.
Proof.
  induction rq as [|[p b] rq (x & Hx & Hq)]; cbn; [exists (prio, [q]); set_solver|].
  destruct (prio <? p); [exists (prio, [q]); set_solver|]. destruct (prio =? p); [exists (p, b ++ [q]); set_solver|].
  exists x. set_solver.
Qed.

Lemma rq_push_keeps prio q r rq : (∃ x, x ∈ rq ∧ r ∈ x.2) → ∃ x, x ∈ rq_push prio q rq ∧ r ∈ x.2.
Proof.
  intros (x & Hx & Hr). induction rq as [|[p b] rq IH]; [set_solver|]. cbn.
  destruct (prio <? p); [exists x; set_solver|]. apply elem_of_cons in Hx as [->|Hx].
  - destruct (prio =? p); [exists (p, b ++ [q]); set_solver|exists (p, b); set_solver].
  - destruct (prio =? p); [exists x; set_solver|]. destruct (IH Hx) as (y & Hy & Hry). exists y. set_solver.
Qed.

(** What keeps the descriptors of all processes and the run queue's members. *)
Record calm (s s' : sys) : Prop := {
  c_fds q : fds <$> k_procs (s_k s') !! q = fds <$> k_procs (s_k s) !! q;
  c_queue : endpoints (k_chan (s_k s')) = endpoints (k_chan (s_k s));
  c_runq q : queued q s → queued q s';
}.

#[export] Instance calm_preorder : PreOrder calm.
Proof. split; [by split|]. intros s1 s2 s3 [F1 Q1 R1] [F2 Q2 R2]. split; [intros q; by rewrite F2|congruence|auto]. Qed.

Lemma calm_enqueue q s : calm s (set_k (enqueue_pid q (s_k s)) s).
Proof. split; [done..|]. intros r Hr. by apply rq_push_keeps. Qed.

Lemma calm_wake w : preserves calm (wake w).
Proof. unfold wake. destruct (0 <? w); intros s; [apply calm_enqueue|done]. Qed.

Lemma wake_queued w s : 0 < w → queued w (wake w s).2.
Proof. intros Hw. unfold wake. rewrite (proj2 (Z.ltb_lt _ _)) by done. apply rq_push_queued. Qed.

Lemma calm_epolls l : preserves calm (on_chan (λ c, let '(l, c') := wake_epolls l c in (Ok l, c'))).
Proof.
  intros s. unfold on_chan. pose proof (wake_epolls_endpoints l (k_chan (s_k s))) as He.
  destruct (wake_epolls l _) as [kept c']. cbn in *. generalize (drop (length (enqueued (k_chan (s_k s)))) (enqueued c')). intros ws.
  assert (∀ k, calm s (set_k k s) → calm s (set_k (foldl (λ k q, enqueue_pid q k) k ws) s)) as H; [|apply H; by split].
  induction ws as [|w ws IH]; intros k Hk; [done|]. apply IH. etrans; [exact Hk|]. apply (calm_enqueue w (set_k k s)).
Qed.

Lemma calm_wake_pipe id : preserves calm (wake_pipe id).
Proof. unfold wake_pipe. repeat preserves_step; [by intros s|apply calm_wake|apply calm_epolls|by intros s]. Qed.

Lemma wake_pipe_queued id p s : s_pipes s !! id = Some p → 0 < pi_waiter p → queued (pi_waiter p) (wake_pipe id s).2.
Proof.
  intros Hp Hw. unfold wake_pipe. erewrite bind_ok by reflexivity. cbv beta. rewrite Hp. erewrite bind_ok by reflexivity. cbv beta.
  set (s1 := set_pipes _ s). pose proof (wake_queued (pi_waiter p) s1 Hw) as Hq.
  assert (∀ s, wake (pi_waiter p) s = (Ok tt, (wake (pi_waiter p) s).2)) as E
    by (intros s0; unfold wake; by destruct (0 <? _)).
  erewrite bind_ok by apply E. apply (c_runq (wake (pi_waiter p) s1).2); [|exact Hq].
  as_preserves. repeat preserves_step; [apply calm_epolls|by intros s0].
Qed.

Lemma put_procs v s : k_procs (s_k (put v s).2) = alter (on_tf (set_reg 10 v)) (k_current (s_k s)) (k_procs (s_k s)).
Proof. done. Qed.

Lemma calm_put v : preserves calm (put v).
Proof.
  intros s. split; [|done|done]. intros q. rewrite put_procs.
  destruct (decide (k_current (s_k s) = q)) as [<-|]; [|by rewrite lookup_alter_ne].
  rewrite lookup_alter_eq. by destruct (k_procs (s_k s) !! _).
Qed.

Lemma run_k q s : (run_call (CRun q) s).2 = set_k (dispatch q (s_k s)) s.
Proof. done. Qed.

Lemma calm_run q : preserves calm (run_call (CRun q)).
Proof.
  intros s. rewrite run_k. unfold dispatch. destruct (proc_of q (s_k s)) as [p|]; [|by destruct s].
  split; [|done|done]. intros q'. cbn. destruct (decide (q = q')) as [->|]; [|by rewrite lookup_alter_ne].
  rewrite lookup_alter_eq. by destruct (k_procs (s_k s) !! q').
Qed.

Lemma elem_of_concat {A} (x : A) ls : x ∈ concat ls ↔ ∃ l, l ∈ ls ∧ x ∈ l.
Proof.
  induction ls as [|l ls IH]; cbn; [split; [by intros ?%not_elem_of_nil|by intros (l & ?%not_elem_of_nil & _)]|].
  rewrite elem_of_app, IH. setoid_rewrite elem_of_cons. naive_solver.
Qed.

Lemma elem_concat_map {A} (f : A → list kobject) (m : gmap Z A) o :
  o ∈ concat (f <$> (map_to_list m).*2) ↔ ∃ i a, m !! i = Some a ∧ o ∈ f a.
Proof.
  rewrite elem_of_concat. split.
  - intros (l & (a & -> & ([i a'] & -> & Hi%elem_of_map_to_list)%list_elem_of_fmap)%list_elem_of_fmap & Ho). eauto.
  - intros (i & a & Hi & Ho). exists (f a). split; [|done]. apply list_elem_of_fmap. exists a. split; [done|].
    apply list_elem_of_fmap. exists (i, a). by rewrite elem_of_map_to_list.
Qed.

Lemma alive_iff o k : alive o k = true ↔
  (∃ q t, fds <$> k_procs k !! q = Some t ∧ o ∈ table_objects t) ∨
  (∃ i e, endpoints (k_chan k) !! i = Some e ∧ o ∈ queue_objects e).
Proof.
  unfold alive, references. rewrite bool_decide_eq_true, elem_of_app, (elem_concat_map (λ p, table_objects (fds p))), elem_concat_map.
  setoid_rewrite fmap_Some. naive_solver.
Qed.

Lemma calm_alive o s s' : calm s s' → alive o (s_k s') = alive o (s_k s).
Proof.
  intros [F Q _]. apply eq_true_iff_eq. rewrite !alive_iff, Q. by setoid_rewrite F.
Qed.

(** Process [q] has [o] at [fd] with the right. *)
Definition holds (q right fd : Z) (o : kobject) (s : sys) : Prop :=
  ∃ t, fds <$> k_procs (s_k s) !! q = Some t ∧ get_with_rights t (wrap 32 fd) right = inl o.

Lemma calm_holds q right fd o s s' : calm s s' → holds q right fd o s → holds q right fd o s'.
Proof. intros [F _ _] (t & Ht & Hg). exists t. by rewrite F. Qed.

Lemma target_holds right fd o s : target right fd s = Some o ↔ holds (k_current (s_k s)) right fd o s.
Proof.
  unfold target, holds, proc_of. destruct (k_procs (s_k s) !! _) as [p|]; cbn; [|by split; [|intros (t & ? & _)]].
  split; [destruct (get_with_rights (fds p) _ _) eqn:E; [|done]; intros [= ->]; by exists (fds p)|].
  intros (t & [= <-] & ->). done.
Qed.

Lemma get_entry_in t h e : get_entry t h = Some e → he_object e ∈ table_objects t.
Proof.
  unfold get_entry, table_objects. destruct (decode_handle h) as [i g]. destruct (ht_map t !! i) as [e'|] eqn:E; [|done].
  destruct (_ =? _); [|done]. intros [= ->]. apply list_elem_of_fmap. exists e. split; [done|].
  apply list_elem_of_fmap. exists (i, e). by rewrite elem_of_map_to_list.
Qed.

Lemma holds_alive q right fd o s : holds q right fd o s → alive o (s_k s) = true.
Proof.
  intros (t & Ht & Hg). apply alive_iff. left. exists q, t. split; [done|]. unfold get_with_rights in Hg.
  destruct (get_entry t _) as [e|] eqn:E; [|done]. destruct (negb _); [done|]. injection Hg as <-. by eapply get_entry_in.
Qed.

Lemma read_blocked id ptr len s s1 : pipe_read id ptr len s = (Ok Block, s1) →
  ∃ p, s_pipes s !! id = Some p ∧ pi_data p = [] ∧
    s1 = set_k (upd_proc (k_current (s_k s)) (on_tf (add_sepc (-4))) (s_k s))
           (set_pipes (alter (λ p, mkPipe (pi_data p) (k_current (s_k s)) (pi_epoll p)) id (s_pipes s)) s).
Proof.
  unfold pipe_read. erewrite bind_ok by reflexivity. cbv beta. destruct (s_pipes s !! id) as [p|]; [|done].
  case_bool_decide as Hd; cbn [negb]; [|done]. erewrite bind_ok by reflexivity. cbv beta. destruct (alive _ _); [|done]. cbn [negb].
  do 3 erewrite bind_ok by reflexivity. cbv beta. destruct (negb _); [done|]. intros [= <-]. by exists p.
Qed.

Lemma run_current q s t : fds <$> k_procs (s_k s) !! q = Some t → k_current (s_k (run_call (CRun q) s).2) = q.
Proof. rewrite run_k. unfold dispatch, proc_of. by destruct (k_procs (s_k s) !! q). Qed.

Lemma run_regs q : keeps_regs (dispatch q).
Proof.
  intros k Hk. unfold dispatch. destruct (proc_of q k); [|done]. apply procs_regs; [done|]. by apply upd_proc_regs.
Qed.

(** The reader has blocked: what the other processes see. *)
Lemma reader_waits id fd ptr len s s1 :
  holds (k_current (s_k s)) RIGHT_READ fd (KPipeRead id) s → k_regs_ok (s_k s) → is_user_pointer_valid 1 ptr len = true →
  sys_read fd ptr len s = (Ok Block, s1) →
  calm s s1 ∧ k_regs_ok (s_k s1) ∧ ∃ p, s_pipes s1 !! id = Some p ∧ pi_data p = [] ∧ pi_waiter p = k_current (s_k s).
Proof.
  intros Hh Hr Hv Hread. rewrite (read_dispatch id) in Hread by (done || by apply target_holds).
  apply read_blocked in Hread as (p & Hp & Hd & ->). split; [split; [|done|done]|split].
  - intros q. cbn. destruct (decide (k_current (s_k s) = q)) as [<-|]; [|by rewrite lookup_alter_ne].
    rewrite lookup_alter_eq. by destruct (k_procs (s_k s) !! _).
  - by apply upd_proc_regs.
  - eexists. cbn. rewrite lookup_alter_eq, Hp. split; [reflexivity|done].
Qed.

(** The reader runs again and finds data, or the end. *)
Lemma reader_resumes id r fd ptr len p s : holds r RIGHT_READ fd (KPipeRead id) s → k_regs_ok (s_k s) →
  is_user_pointer_valid 1 ptr len = true → 0 ≤ len → s_pipes s !! id = Some p →
  pi_data p ≠ [] ∨ alive (KPipeWrite id) (s_k s) = false →
  let s3 := (run_call (CRun r) s).2 in
  ∃ s4, sys_read fd ptr len s3 = (Ok Return, s4) ∧ new_stores s3 s4 = take (Z.to_nat len) (pi_data p) ∧
    a0 s4 = Z.min len (Z.of_nat (length (pi_data p))).
Proof.
  intros Hh Hr Hv Hlen Hp Hd. cbv zeta. pose proof (calm_run r s) as Hcalm. destruct Hh as (t & Ht & Hg).
  pose proof (run_current r s t Ht) as Hcur. set (s3 := (run_call (CRun r) s).2) in *.
  assert (holds r RIGHT_READ fd (KPipeRead id) s3) as Hh3 by (eapply calm_holds; [exact Hcalm|by exists t]).
  assert (k_regs_ok (s_k s3)) as Hr3 by (unfold s3; rewrite run_k; by apply run_regs).
  assert (s_pipes s3 !! id = Some p) as Hp3 by done.
  assert (target RIGHT_READ fd s3 = Some (KPipeRead id)) as Ht3 by (apply target_holds; by rewrite Hcur).
  pose proof (target_proc _ _ _ _ Ht3) as Hc3. rewrite (read_dispatch id) by done.
  destruct (decide (pi_data p = [])) as [He|Hne].
  - destruct Hd as [|Hd]; [done|]. rewrite <-(calm_alive _ _ _ Hcalm) in Hd. exists (put 0 s3).2. split.
    { unfold pipe_read. erewrite bind_ok by reflexivity. cbv beta. rewrite Hp3, bool_decide_true by done. cbn [negb].
      erewrite bind_ok by reflexivity. cbv beta. fold s3 in Hd. by rewrite Hd. }
    rewrite new_stores_none, He, take_nil by done. split; [done|]. rewrite put_a0 by done.
    cbn. lia.
  - rewrite (pipe_read_data id ptr len p s3 Hp3 Hne). cbv zeta. set (n := Z.to_nat _). set (s5 := set_pipes _ _).
    exists (put (Z.of_nat n) s5).2. split; [done|].
    unfold s5. rewrite stored_bytes. split.
    + unfold n. destruct (Z.le_ge_cases len (Z.of_nat (length (pi_data p)))); [by rewrite Z.min_l|].
      rewrite Z.min_r, Nat2Z.id, firstn_all, take_ge by lia. done.
    + rewrite put_a0 by done. unfold n. lia.
Qed.

Lemma wake_then_put id v p su s2 : s_pipes su !! id = Some p → 0 < pi_waiter p → k_regs_ok (s_k su) →
  (wake_pipe id ;; put v) su = (Ok Return, s2) →
  queued (pi_waiter p) s2 ∧ calm su s2 ∧ k_regs_ok (s_k s2) ∧ ∃ p2, s_pipes s2 !! id = Some p2 ∧ pi_data p2 = pi_data p.
Proof.
  intros Hp Hw Hr E. destruct (wake_pipe_ok id su) as (sw & Ew & [D S R] & _). pose proof (wake_pipe_queued id p su Hp Hw) as Hq.
  pose proof (calm_wake_pipe id su) as Hc. rewrite Ew in Hq, Hc. cbn in Hq, Hc. erewrite bind_ok in E by exact Ew.
  pose proof (calm_put v sw) as Hc2. destruct (quiet_put id v sw) as [D2 S2 R2]. rewrite E in *. cbn in *.
  split_and!; [by apply (c_runq _ _ Hc2)|by etrans|auto|].
  assert (is_Some (s_pipes s2 !! id)) as [p2 Hp2] by (apply S2, S; by rewrite Hp). exists p2. split; [done|].
  unfold pipe_data in *. by rewrite Hp2, D, Hp in D2.
Qed.

(** a process blocked in a read of an empty pipe continues when another process writes:
    after the write it is in the run queue, and the call it repeats returns the first bytes
    written. *)
Theorem pipe_read_resumes id fd ptr len fd' ptr' buf q s s1 s2 :
  let r := k_current (s_k s) in
  0 < r → 0 ≤ len → buf ≠ [] → k_regs_ok (s_k s) →
  holds r RIGHT_READ fd (KPipeRead id) s → holds q RIGHT_WRITE fd' (KPipeWrite id) s →
  is_user_pointer_valid 1 ptr len = true → is_user_pointer_valid 1 ptr' (Z.of_nat (length buf)) = true →
  sys_read fd ptr len s = (Ok Block, s1) →
  sys_write fd' ptr' buf (run_call (CRun q) s1).2 = (Ok Return, s2) →
  queued r s2 ∧
  let s3 := (run_call (CRun r) s2).2 in
  ∃ s4, sys_read fd ptr len s3 = (Ok Return, s4) ∧ new_stores s3 s4 = take (Z.to_nat len) buf ∧
    a0 s4 = Z.min len (Z.of_nat (length buf)).
Proof.
  intros r Hr0 Hlen Hbuf Hr Hrd Hwr Hv Hv' Hread Hwrite.
  destruct (reader_waits id fd ptr len s s1 Hrd Hr Hv Hread) as (C1 & R1 & p & Hp & Hd & Hw).
  pose proof (calm_run q s1) as Cq. set (sq := (run_call (CRun q) s1).2) in *.
  pose proof (calm_holds _ _ _ _ _ _ C1 Hwr) as Hwr1. destruct Hwr1 as (t & Ht & Hg). pose proof (run_current q s1 t Ht) as Hcur.
  assert (calm s sq) as C2 by (by etrans).
  assert (target RIGHT_WRITE fd' sq = Some (KPipeWrite id)) as Htq.
  { apply target_holds. unfold sq. rewrite Hcur. by eapply calm_holds. }
  rewrite (write_dispatch id) in Hwrite by done. unfold pipe_write in Hwrite. erewrite bind_ok in Hwrite by reflexivity.
  rewrite (calm_alive _ _ _ C2), (holds_alive _ _ _ _ _ Hrd) in Hwrite. cbn [negb] in Hwrite.
  erewrite bind_ok in Hwrite by reflexivity. set (su := set_pipes _ sq) in Hwrite.
  assert (s_pipes su !! id = Some (mkPipe buf r (pi_epoll p))) as Hpu.
  { cbn. rewrite lookup_alter_eq. change (s_pipes sq !! id) with (s_pipes s1 !! id). rewrite Hp. cbn. by rewrite Hd, Hw. }
  assert (k_regs_ok (s_k sq)) as Rq by (unfold sq; rewrite run_k; by apply run_regs).
  destruct (wake_then_put id _ _ su s2 Hpu Hr0 Rq Hwrite) as (Hq & C3 & R2 & p2 & Hp2 & Hd2). split; [exact Hq|].
  assert (calm s s2) as C4 by (etrans; [exact C2|]; etrans; [|exact C3]; by split).
  cbn in Hd2. rewrite <-Hd2. apply (reader_resumes id r fd ptr len p2); [by eapply calm_holds|done..|]. left. by rewrite Hd2.
Qed.

Lemma get_remove {O} (t : handle_table O) h o : get t h = Some o → (remove h t).1 = Some o.
Proof.
  unfold get, get_entry, remove, remove_entry. destruct (decode_handle h) as [i g]. cbn.
  destruct (ht_map t !! i) as [e|]; [|done]. by destruct (_ =? g).
Qed.

Lemma drop_none fuel s : drop_loop fuel [] s = (Ok tt, s).
Proof. by destruct fuel. Qed.

Lemma drop_write_end id s :
  drop_objects [KPipeWrite id] s = if alive (KPipeWrite id) (s_k s) then (Ok tt, s) else wake_pipe id s.
Proof.
  unfold drop_objects. erewrite bind_ok by reflexivity. rewrite Nat.add_1_r. cbn [drop_loop]. erewrite bind_ok by reflexivity.
  rewrite bool_decide_false by apply not_elem_of_nil. cbn [orb]. destruct (alive _ _).
  - erewrite bind_ok by reflexivity. apply drop_none.
  - destruct (wake_pipe_ok id s) as (s' & E & _). erewrite bind_ok; [|cbn [drop_last]; erewrite bind_ok by exact E; reflexivity].
    rewrite drop_none. by rewrite E.
Qed.

(** Closing the last write end wakes the reader. *)
Lemma close_last_end id fd t pq s s2 :
  k_procs (s_k s) !! k_current (s_k s) = Some pq → fds pq = t → get t (wrap 32 fd) = Some (KPipeWrite id) →
  sys_close fd s = (Ok Return, s2) → alive (KPipeWrite id) (s_k s2) = false →
  (wake_pipe id ;; put 0) (set_k (upd_proc (k_current (s_k s)) (with_fds (remove (wrap 32 fd) t).2) (s_k s)) s) = (Ok Return, s2).
Proof.
  intros Hpq Ht Hg Hclose Hdead. unfold sys_close, current, proc_of in Hclose. rewrite Hpq, Ht in Hclose.
  erewrite bind_ok in Hclose by reflexivity. rewrite Hg in Hclose. erewrite bind_ok in Hclose by reflexivity. cbv beta in Hclose.
  pose proof (get_remove _ _ _ Hg) as Hrem. destruct (remove (wrap 32 fd) t) as [o t']. cbn in Hrem |- *. subst o.
  erewrite bind_ok in Hclose by reflexivity. set (su := set_k _ s) in *.
  unfold mbind at 1, M_bind at 1 in Hclose. rewrite drop_write_end in Hclose. destruct (alive (KPipeWrite id) (s_k su)) eqn:Hal.
  - pose proof (calm_put 0 su) as Hc. rewrite Hclose in Hc. rewrite (calm_alive _ _ _ Hc) in Hdead. congruence.
  - unfold mbind, M_bind. exact Hclose.
Qed.

(** a process blocked in a read of an empty pipe continues when the last write end is
    closed: it is in the run queue then, and the call it repeats returns 0, the end of the
    data. *)
Theorem pipe_eof_resumes id fd ptr len fd' q t s s1 s2 :
  let r := k_current (s_k s) in
  0 < r → q ≠ r → 0 ≤ len → k_regs_ok (s_k s) →
  holds r RIGHT_READ fd (KPipeRead id) s →
  fds <$> k_procs (s_k s) !! q = Some t → get t (wrap 32 fd') = Some (KPipeWrite id) →
  is_user_pointer_valid 1 ptr len = true →
  sys_read fd ptr len s = (Ok Block, s1) →
  sys_close fd' (run_call (CRun q) s1).2 = (Ok Return, s2) → alive (KPipeWrite id) (s_k s2) = false →
  queued r s2 ∧
  let s3 := (run_call (CRun r) s2).2 in
  ∃ s4, sys_read fd ptr len s3 = (Ok Return, s4) ∧ new_stores s3 s4 = [] ∧ a0 s4 = 0.
Proof.
  intros r Hr0 Hqr Hlen Hr Hrd Ht Hg Hv Hread Hclose Hdead.
  destruct (reader_waits id fd ptr len s s1 Hrd Hr Hv Hread) as (C1 & R1 & p & Hp & Hd & Hw).
  pose proof (calm_run q s1) as Cq. assert (fds <$> k_procs (s_k s1) !! q = Some t) as Ht1 by (by rewrite (c_fds _ _ C1)).
  pose proof (run_current q s1 t Ht1) as Hcur. set (sq := (run_call (CRun q) s1).2) in *.
  assert (fds <$> k_procs (s_k sq) !! q = Some t) as Htq by (by rewrite (c_fds _ _ Cq)).
  assert (k_regs_ok (s_k sq)) as Rq by (unfold sq; rewrite run_k; by apply run_regs).
  destruct (k_procs (s_k sq) !! q) as [pq|] eqn:Epq; [|done]. injection Htq as Htq. rewrite <-Hcur in Epq.
  pose proof (close_last_end id fd' t pq sq s2 Epq Htq Hg Hclose Hdead) as E. set (su := set_k _ sq) in E.
  assert (s_pipes su !! id = Some p) as Hpu by exact Hp. fold r in Hw. rewrite <-Hw in Hr0.
  assert (k_regs_ok (s_k su)) as Ru by (by apply upd_proc_regs).
  destruct (wake_then_put id _ _ su s2 Hpu Hr0 Ru E) as (Hq & C3 & R2 & p2 & Hp2 & Hd2). rewrite Hw in Hq. split; [exact Hq|].
  assert (holds r RIGHT_READ fd (KPipeRead id) s2) as Hrd2.
  { apply (calm_holds _ _ _ _ _ _ C3). assert (holds r RIGHT_READ fd (KPipeRead id) sq) as (tr & Htr & Hgr)
      by (eapply calm_holds; [exact Cq|]; by eapply calm_holds).
    exists tr. split; [|done]. cbn. rewrite Hcur, lookup_alter_ne by done. exact Htr. }
  destruct (reader_resumes id r fd ptr len p2 s2 Hrd2 R2 Hv Hlen Hp2 (or_intror Hdead)) as (s4 & H1 & H2 & H3).
  rewrite Hd2, Hd in H2, H3. exists s4. split; [exact H1|]. split; [by rewrite H2, take_nil|]. rewrite H3. cbn. lia.
Qed.

(** ** Several HARTs *)

(** One reader of a pipe, any number of writers and closers, at the points where they can
    interleave.  The reader holds the lock of the data from its test to its registration;
    writers push under the lock and wake after it; a closer tests the strong count, wakes
    the reader if it is the last, and only then, when the fields of the half are dropped,
    takes its reference away. *)
Section pipe_race.

Inductive reader_pc : Type :=
  | PStart                    (** about to take the lock *)
  | PSeen                     (** no data, a writer is there; about to register *)
  | PRegistered               (** about to test the writers again *)
  | PBlocked                  (** released the lock and the processor *)
  | PGot (b : list Z)
  | PEof.

(** [pr_writers] is the strong count, which includes the closers under way: [pr_last] saw
    themselves alone and have not woken yet, [pr_done] have, [pr_other] saw others. *)
Record pipe_race : Type := mkPRace {
  pr_data : list Z;
  pr_writers : nat;
  pr_last : nat;
  pr_done : nat;
  pr_other : nat;
  pr_pend : nat;
  pr_waiter : Z;
  pr_enq : bool;
  pr_pc : reader_pc;
}.

Definition locked (pc : reader_pc) : bool := match pc with PSeen | PRegistered => true | _ => false end.

Inductive race_step (pid : Z) : pipe_race → pipe_race → Prop :=
  | ps_push d n l dn o e w q pc b bs : locked pc = false → (l + dn + o < n)%nat →
      race_step pid (mkPRace d n l dn o e w q pc) (mkPRace (d ++ b :: bs) n l dn o (S e) w q pc)
  | ps_wake d n l dn o e w q pc :
      race_step pid (mkPRace d n l dn o (S e) w q pc) (mkPRace d n l dn o e 0 (q || (0 <? w)) pc)
  | ps_clone d n l dn o e w q pc : (l + dn + o < n)%nat →
      race_step pid (mkPRace d n l dn o e w q pc) (mkPRace d (S n) l dn o e w q pc)
  | ps_close_last d e w q pc :
      race_step pid (mkPRace d 1 0 0 0 e w q pc) (mkPRace d 1 1 0 0 e w q pc)
  | ps_close_other d n l dn o e w q pc : (l + dn + o < n)%nat → n ≠ 1%nat →
      race_step pid (mkPRace d n l dn o e w q pc) (mkPRace d n l dn (S o) e w q pc)
  | ps_close_wake d n l dn o e w q pc :
      race_step pid (mkPRace d n (S l) dn o e w q pc) (mkPRace d n l (S dn) o e 0 (q || (0 <? w)) pc)
  | ps_release_done d n l dn o e w q pc :
      race_step pid (mkPRace d (S n) l (S dn) o e w q pc) (mkPRace d n l dn o e w q pc)
  | ps_release_other d n l dn o e w q pc :
      race_step pid (mkPRace d (S n) l dn (S o) e w q pc) (mkPRace d n l dn o e w q pc)
  | ps_take b d1 d2 n l dn o e w q : b ≠ [] → b ++ d2 = d1 →
      race_step pid (mkPRace d1 n l dn o e w q PStart) (mkPRace d2 n l dn o e w q (PGot b))
  | ps_eof l dn o e w q :
      race_step pid (mkPRace [] 0 l dn o e w q PStart) (mkPRace [] 0 l dn o e w q PEof)
  | ps_seen n l dn o e w q :
      race_step pid (mkPRace [] (S n) l dn o e w q PStart) (mkPRace [] (S n) l dn o e w q PSeen)
  | ps_register d n l dn o e w q :
      race_step pid (mkPRace d n l dn o e w q PSeen) (mkPRace d n l dn o e pid q PRegistered)
  | ps_eof2 d l dn o e w q :
      race_step pid (mkPRace d 0 l dn o e w q PRegistered) (mkPRace d 0 l dn o e 0 q PEof)
  | ps_block d n l dn o e w q :
      race_step pid (mkPRace d (S n) l dn o e w q PRegistered) (mkPRace d (S n) l dn o e w q PBlocked)
  | ps_resume d n l dn o e w :
      race_step pid (mkPRace d n l dn o e w true PBlocked) (mkPRace d n l dn o e w false PStart)
  | ps_again b d n l dn o e w q :
      race_step pid (mkPRace d n l dn o e w q (PGot b)) (mkPRace d n l dn o e w q PStart).

Definition race_start (n : nat) : pipe_race := mkPRace [] n 0 0 0 0 0 false PStart.

Definition race_ok (pid : Z) (s : pipe_race) : Prop :=
  match pr_pc s with
  | PSeen => pr_data s = []
  | PRegistered => pr_data s = [] ∧ (pr_enq s = true ∨ pr_waiter s = pid)
  | PBlocked => (pr_enq s = true ∨ pr_waiter s = pid) ∧ (pr_data s ≠ [] → pr_enq s = true ∨ (0 < pr_pend s)%nat)
  | _ => True
  end.

Lemma race_step_ok pid s s' : 0 < pid → race_step pid s s' → race_ok pid s → race_ok pid s'.
Proof.
  intros Hpid Hst. destruct Hst; unfold race_ok; cbn; try done;
    try (destruct pc; cbn in *; try done; try naive_solver lia).
  all: try (destruct (Z.ltb_spec 0 w); rewrite ?orb_true_r, ?orb_false_r; naive_solver lia).
  all: naive_solver.
Qed.

(** no wake-up for data is lost.  Whatever writers and closers do on other HARTs, when the
    reader has given up the processor and no writer is between its push and its wake-up,
    the reader is back in the run queue or the pipe is empty and the reader registered. *)
Theorem pipe_no_lost_wakeup pid n s :
  0 < pid → rtc (race_step pid) (race_start n) s → pr_pc s = PBlocked → pr_pend s = 0%nat →
  pr_enq s = true ∨ (pr_data s = [] ∧ pr_waiter s = pid).
Proof.
  intros Hpid Hr Hpc Hpend. assert (race_ok pid s) as Hok.
  { assert (race_ok pid (race_start n)) as H0 by done. revert H0.
    clear Hpc Hpend. induction Hr as [|s1 s2 s3 Hst _ IH]; [done|]. intros H. apply IH. by eapply race_step_ok. }
  unfold race_ok in Hok. rewrite Hpc in Hok. destruct Hok as [H1 H2]. destruct (pr_enq s); [by left|]. right.
  destruct H1 as [|H1]; [done|]. split; [|done]. destruct (pr_data s); [done|]. destruct H2; [done|done|lia].
Qed.

(** C34: the wake-up at the end of the data can be lost.  A closer that finds itself the last
    wakes before its reference is gone: a reader that starts to wait in between still
    counts it as a writer, and nothing will ever wake it although no writer is left. *)
Theorem pipe_eof_lost pid :
  ∃ s, rtc (race_step pid) (race_start 1) s ∧ pr_pc s = PBlocked ∧ pr_writers s = 0%nat ∧ pr_data s = [] ∧
    ∀ s', ¬ race_step pid s s'.
Proof.
  exists (mkPRace [] 0 0 0 0 0 pid false PBlocked). split_and!; [|done..|].
  - eapply rtc_l; [apply ps_close_last|]. eapply rtc_l; [apply ps_close_wake|].
    eapply rtc_l; [apply ps_seen|]. eapply rtc_l; [apply ps_register|]. eapply rtc_l; [apply ps_block|].
    eapply rtc_l; [apply ps_release_done|]. apply rtc_refl.
  - intros s' Hst. inversion Hst; subst; lia.
Qed.

End pipe_race.

(** ** What a reader of a terminal gets *)

Definition erases (c : Z) : bool := (c =? 8) || (c =? 127).
Definition enters (c : Z) : bool := (c =? 13) || (c =? 10).

Lemma enters_not_erases c : enters c = true → erases c = false.
Proof. unfold enters, erases. destruct (Z.eqb_spec c 13) as [->|]; [done|]. by destruct (Z.eqb_spec c 10) as [->|]. Qed.

(** A byte in the cooked buffer. *)
Definition edit (b : list Z) (c : Z) : list Z :=
  if enters c then b ++ [10] else if erases c then removelast b else b ++ [c].

(** The text of a line typed, unless an erase has nothing to erase. *)
Fixpoint type_line (text keys : list Z) : option (list Z) :=
  match keys with
  | [] => Some text
  | c :: keys' =>
      if enters c || (c =? 3) || (c =? 26) then None
      else if erases c then match text with [] => None | _ => type_line (removelast text) keys' end
      else type_line (text ++ [c]) keys'
  end.

Lemma echoes_ok t b s : ∃ x, echoes t b s = (Ok tt, set_tx x s).
Proof.
  unfold echoes. destruct (t_echo t); [|exists (s_tx s); by destruct s]. revert s. induction b as [|c b IH]; intros s.
  - exists (s_tx s). by destruct s.
  - cbn [for_each]. erewrite bind_ok by reflexivity. destruct (IH (set_tx (s_tx s ++ [c]) s)) as [x ->]. by exists x.
Qed.

Lemma input_byte_ok id t c s : s_ttys s !! id = Some t → t_raw t = false →
  ∃ s', input_byte id t c s = (Ok (negb (erases c)), s') ∧
    s_ttys s' !! id = Some (set_tbuf (edit (t_buf t) c) t) ∧ steady s s'.
Proof.
  intros Ht Hraw. unfold input_byte, edit. rewrite Hraw. fold (enters c). fold (erases c).
  assert (∀ b x, s_ttys (set_ttys (alter (set_tbuf b) id (s_ttys s)) (set_tx x s)) !! id = Some (set_tbuf b t)) as Hset
    by (intros b x; cbn; by rewrite lookup_alter_eq, Ht).
  destruct (enters c) eqn:Hent; [|destruct (erases c); [destruct (t_buf t) as [|b0 b] eqn:Eb|]].
  - rewrite (enters_not_erases c Hent). destruct (echoes_ok t [10] s) as [x E]. erewrite bind_ok by exact E.
    eexists. split; [reflexivity|]. split; [apply Hset|by split].
  - exists s. split; [done|]. split; [|by split]. rewrite Ht. f_equal. destruct t. cbn in *. by subst.
  - erewrite bind_ok by reflexivity. set (s1 := set_ttys _ s). destruct (echoes_ok t [8; 32; 8] s1) as [x E].
    erewrite bind_ok by exact E. eexists. split; [reflexivity|]. split; [|by split]. cbn. by rewrite lookup_alter_eq, Ht.
  - destruct (echoes_ok t [c] s) as [x E]. erewrite bind_ok by exact E.
    eexists. split; [reflexivity|]. split; [apply Hset|by split].
Qed.

Definition plain_input (c : Z) : Prop := c ≠ 3 ∧ c ≠ 26.

Lemma uart_loop_ok id rx : ∀ any t s, s_ttys s !! id = Some t → t_raw t = false → Forall plain_input rx →
  ∃ s', uart_loop id rx any s = (Ok (any || existsb (λ c, negb (erases c)) rx), s') ∧
    s_ttys s' !! id = Some (set_tbuf (foldl edit (t_buf t) rx) t) ∧ steady s s'.
Proof.
  induction rx as [|c rx IH]; intros any t s Ht Hraw Hrx.
  - exists s. cbn. rewrite orb_false_r. split; [done|]. split; [|by split]. rewrite Ht. by destruct t.
  - apply Forall_cons in Hrx as [[H3 H26] Hrx]. cbn [uart_loop]. erewrite bind_ok by reflexivity.
    rewrite (proj2 (Z.eqb_neq _ _) H3), (proj2 (Z.eqb_neq _ _) H26). set (s1 := set_rx rx s). erewrite bind_ok by reflexivity.
    assert (s_ttys s1 !! id = Some t) as Ht1 by done. rewrite Ht1.
    destruct (input_byte_ok id t c s1 Ht1 Hraw) as (s2 & E & Ht2 & Y2). erewrite bind_ok by exact E.
    destruct (IH (any || negb (erases c)) _ s2 Ht2 Hraw Hrx) as (s3 & E3 & Ht3 & Y3). exists s3. split_and!.
    + rewrite E3. cbn. by rewrite orb_assoc.
    + exact Ht3.
    + etrans; [|exact Y3]. etrans; [|exact Y2]. by split.
Qed.

(** Lines typed one after the other. *)
Lemma type_line_edit keys : ∀ text line pre, type_line text keys = Some line → 10 ∉ text →
  foldl edit (pre ++ text) keys = pre ++ line ∧ (10 ∉ line) ∧ Forall plain_input keys.
Proof.
  induction keys as [|c keys IH]; intros text line pre Hl H10; cbn in Hl |- *.
  - injection Hl as <-. auto using Forall_nil_2.
  - destruct (enters c) eqn:He; [done|]. destruct (Z.eqb_spec c 3); [done|]. destruct (Z.eqb_spec c 26); [done|]. cbn [orb] in Hl.
    unfold edit at 2. rewrite He. destruct (erases c).
    + destruct text as [|b text _] using rev_ind; [done|].
      destruct (text ++ [b]) eqn:Et; [by destruct text|]. rewrite <-Et in *. rewrite removelast_last in Hl.
      rewrite app_assoc, removelast_last. destruct (IH _ _ pre Hl) as (E & Hn & Hp); [set_solver|].
      split_and!; [done..|]. by constructor.
    + rewrite <-app_assoc. destruct (IH _ _ pre Hl) as (E & Hn & Hp).
      { apply not_elem_of_app. split; [done|]. unfold enters in He. apply orb_false_iff in He as [_ ?%Z.eqb_neq]. set_solver. }
      split_and!; [done..|]. by constructor.
Qed.

Definition typed (keys : list (list Z)) : list Z := concat ((λ ks, ks ++ [13]) <$> keys).
Definition shown (lines : list (list Z)) : list Z := concat ((λ l, l ++ [10]) <$> lines).

Lemma typed_lines keys lines : Forall2 (λ ks l, type_line [] ks = Some l) keys lines → ∀ pre,
  foldl edit pre (typed keys) = pre ++ shown lines ∧ Forall (λ l, 10 ∉ l) lines ∧ Forall plain_input (typed keys).
Proof.
  induction 1 as [|ks l keys lines Hl _ IH]; intros pre; [cbn; by rewrite app_nil_r|].
  destruct (type_line_edit ks [] l pre Hl) as (E & Hn & Hp); [set_solver|]. rewrite app_nil_r in E.
  destruct (IH (pre ++ l ++ [10])) as (E2 & Hn2 & Hp2). unfold typed, shown in *. cbn [fmap list_fmap concat].
  rewrite !foldl_app, E. cbn [foldl]. change (edit (pre ++ l) 13) with ((pre ++ l) ++ [10]). rewrite <-(app_assoc pre).
  split_and!.
  - rewrite E2. by rewrite <-!app_assoc.
  - by constructor.
  - apply Forall_app. split; [|done]. apply Forall_app. split; [done|]. by repeat constructor.
Qed.

(** A foreground process reads the terminal. *)
Definition reads_tty (fd id : Z) (s : sys) : Prop :=
  ∃ p, proc_of (k_current (s_k s)) (s_k s) = Some p ∧ get_with_rights (fds p) (wrap 32 fd) RIGHT_READ = inl (KTty id) ∧
    background p (s_k s) = false.

Lemma position_line (l rest : list Z) : 10 ∉ l → position (λ b, b =? 10) (l ++ 10 :: rest) = Some (length l).
Proof.
  intros Hl. induction l as [|b l IH]; [done|]. cbn. rewrite (proj2 (Z.eqb_neq b 10)) by set_solver.
  rewrite IH by set_solver. done.
Qed.

Lemma tty_dispatch fd id ptr len s : reads_tty fd id s → is_user_pointer_valid 1 ptr len = true →
  sys_read fd ptr len s = tty_read id ptr len s.
Proof.
  intros (p & Hp & Hg & Hb) Hv. unfold sys_read. rewrite Hv. cbn [negb]. unfold current. rewrite Hp, Hg.
  erewrite bind_ok by reflexivity. by rewrite Hb.
Qed.

(** Copying a line out and returning leaves the process a reader. *)
Lemma reads_tty_put fd id ptr b v m s : reads_tty fd id s →
  reads_tty fd id (put v (set_ttys m (set_k (store_user ptr b (s_k s)) s))).2.
Proof.
  intros (p & Hp & Hg & Hb). unfold reads_tty, proc_of in *. set (s1 := set_ttys _ _). rewrite put_procs.
  change (k_current (s_k (put v s1).2)) with (k_current (s_k s)). change (k_current (s_k s1)) with (k_current (s_k s)).
  change (k_procs (s_k s1)) with (k_procs (s_k s)). rewrite lookup_alter_eq, Hp. eexists. split; [reflexivity|]. by split.
Qed.

Lemma read_line fd id ptr len l rest t s :
  reads_tty fd id s → is_user_pointer_valid 1 ptr len = true → s_ttys s !! id = Some t →
  t_raw t = false → t_ctrlc t = false → t_buf t = l ++ 10 :: rest → 10 ∉ l → Z.of_nat (length l) < len →
  ∃ s', sys_read fd ptr len s = (Ok Return, s') ∧ new_stores s s' = l ++ [10] ∧ reads_tty fd id s' ∧
    s_ttys s' !! id = Some (set_tbuf rest t).
Proof.
  intros Hrd Hv Ht Hraw Hc Hbuf Hl Hlen. rewrite (tty_dispatch fd id) by done. unfold tty_read.
  erewrite bind_ok by reflexivity. rewrite Ht, Hc.
  unfold tty_ready, tty_take. rewrite Hraw, Hbuf, bool_decide_true by set_solver. rewrite position_line by done.
  change (default 0%nat (Some (length l))) with (length l). rewrite Z.min_r by lia.
  replace (Z.to_nat (Z.of_nat (length l) + 1)) with (length (l ++ [10])) by (rewrite length_app; cbn; lia).
  replace (l ++ 10 :: rest) with ((l ++ [10]) ++ rest) in * by (by rewrite <-app_assoc).
  rewrite take_app_length. eexists. split; [reflexivity|]. split_and!.
  - unfold new_stores. change (k_stores _) with (k_stores (s_k s) ++ [(satp_root (k_satp (s_k s)), ptr, l ++ [10])]) at 2.
    rewrite drop_app_length. cbn. by rewrite app_nil_r.
  - by apply reads_tty_put.
  - cbn. rewrite lookup_alter_eq, Ht. cbn. unfold set_tbuf. by rewrite Hbuf, drop_app_length.
Qed.

(** Reading one line after the other. *)
Fixpoint read_lines (n : nat) (fd ptr len : Z) (s : sys) : list (list Z) * sys :=
  match n with
  | O => ([], s)
  | S n' => let s' := (sys_read fd ptr len s).2 in
            let '(ls, s2) := read_lines n' fd ptr len s' in (new_stores s s' :: ls, s2)
  end.

Lemma read_lines_ok fd id ptr len lines : is_user_pointer_valid 1 ptr len = true →
  Forall (λ l, (10 ∉ l) ∧ Z.of_nat (length l) < len) lines → ∀ t rest s,
  reads_tty fd id s → s_ttys s !! id = Some t → t_raw t = false → t_ctrlc t = false → t_buf t = shown lines ++ rest →
  ∃ s', read_lines (length lines) fd ptr len s = ((λ l, l ++ [10]) <$> lines, s') ∧ s_ttys s' !! id = Some (set_tbuf rest t).
Proof.
  intros Hv Hl. induction Hl as [|l lines [H10 Hlen] _ IH]; intros t rest s Hrd Ht Hraw Hc Hbuf.
  - exists s. split; [done|]. rewrite Ht. destruct t. cbn in *. by subst.
  - cbn [length read_lines].
    destruct (read_line fd id ptr len l (shown lines ++ rest) t s) as (s1 & E & En & Hrd1 & Ht1); try done.
    { rewrite Hbuf. unfold shown. cbn. by rewrite <-!app_assoc. }
    rewrite E. cbn [snd]. destruct (IH _ rest s1 Hrd1 Ht1) as (s2 & E2 & Ht2); [done..|]. rewrite E2, En. by exists s2.
Qed.

Lemma wake_tty_ok id t s : s_ttys s !! id = Some t →
  ∃ s' t', wake_tty id s = (Ok tt, s') ∧ s_ttys s' !! id = Some t' ∧ t_buf t' = t_buf t ∧ t_raw t' = t_raw t ∧
    t_ctrlc t' = t_ctrlc t ∧ steady s s' ∧ (0 < t_waiter t → queued (t_waiter t) s').
Proof.
  intros Ht. unfold wake_tty. erewrite bind_ok by reflexivity. rewrite Ht. erewrite bind_ok by reflexivity.
  set (s1 := set_ttys _ s). assert (wake (t_waiter t) s1 = (Ok tt, (wake (t_waiter t) s1).2)) as E
    by (unfold wake; by destruct (0 <? _)).
  pose proof (steady_wake (t_waiter t) s1) as Y2. pose proof (wake_queued (t_waiter t) s1) as Q2.
  assert (s_ttys (wake (t_waiter t) s1).2 = s_ttys s1) as T2 by (unfold wake; by destruct (0 <? _)).
  erewrite bind_ok by exact E. set (s2 := (wake (t_waiter t) s1).2) in *.
  set (c := on_chan _). assert (∃ kept s3, c s2 = (Ok kept, s3) ∧ s_ttys s3 = s_ttys s2) as (kept & s3 & E3 & T3).
  { unfold c, on_chan. destruct (wake_epolls _ _) as [kept c']. by eexists _, _. }
  pose proof (steady_chan (λ c, let '(l, c') := wake_epolls (t_epoll t) c in (Ok l, c')) s2) as Y3. fold c in Y3.
  pose proof (calm_epolls (t_epoll t) s2) as C3. fold c in C3. rewrite E3 in Y3, C3. cbn in Y3, C3.
  erewrite bind_ok by exact E3. eexists _, _. split; [reflexivity|]. cbn. rewrite T3, T2. cbn. rewrite !lookup_alter_eq, Ht.
  split; [reflexivity|]. split_and!; [done..| |].
  - etrans; [|etrans; [exact Y2|etrans; [exact Y3|by split]]]. by split.
  - intros Hw. apply (c_runq _ _ C3), Q2, Hw.
Qed.

Lemma steady_reads fd id s s' : steady s s' → reads_tty fd id s → reads_tty fd id s'.
Proof.
  intros [P C _ G] (p & Hp & Hg & Hb). exists p. unfold proc_of, background in *. by rewrite P, C, G.
Qed.


(** ** Behaviour on concrete states *)

Definition demo_fds (l : list (Z * kobject)) : handle_table kobject :=
  mkTable (list_to_map ((λ x, (x.1, mkEntry x.2 rights_all 0)) <$> l)) ∅.

(** Process 2 has a terminal, the read end of a pipe and a channel with a message; process 3
    the write end of the pipe. *)
Definition demo_sys : sys :=
  mkSys
    (with_ttys 1 (Some 1)
      (with_chan (mkChan (<[10 := mkEp [mkMsg [104; 105] []] None false 11 0 [] [] []]> ∅) ∅ ∅ [] [] 12)
        (demo_kernel 2 []
          [with_fds (demo_fds [(0, KTty 1); (3, KPipeRead 7); (5, KChannel 10)]) (demo_proc 2 1 Running []);
           with_fds (demo_fds [(4, KPipeWrite 7)]) (demo_proc 3 1 Running [])])))
    (<[7 := mkPipe [] 0 []]> ∅) (<[1 := tty_new]> ∅) ∅ [] [] 20.

Definition demo_ptr : Z := 0x200000000.

Lemma demo_regs : k_regs_ok (s_k demo_sys).
Proof.
  intros q p Hp. change (k_procs (s_k demo_sys)) with (k_procs (demo_kernel 2 []
          [with_fds (demo_fds [(0, KTty 1); (3, KPipeRead 7); (5, KChannel 10)]) (demo_proc 2 1 Running []);
           with_fds (demo_fds [(4, KPipeWrite 7)]) (demo_proc 3 1 Running [])])) in Hp.
  cbn in Hp. rewrite !lookup_insert in Hp. repeat case_decide; try done; injection Hp as <-; reflexivity.
Qed.

(** Polling a channel for input takes the message it finds: the call reports the channel
    ready, and a read that follows blocks. *)
Theorem poll_takes_message :
  let s1 := (sys_poll demo_ptr 1 [(5, POLLIN)] demo_sys).2 in
  a0 s1 = 1 ∧ (sys_read 5 demo_ptr 8 s1).1 = Ok Block ∧ (sys_read 5 demo_ptr 8 demo_sys).1 = Ok Return.
Proof. split_and!; vm_compute; reflexivity. Qed.

(** The erase key removes the end of a line that was already entered: the line is not
    available any more. *)
Theorem erase_crosses_lines :
  let s1 := (run_call (CUart [97; 98; 13]) demo_sys).2 in
  let s2 := (run_call (CUart [127]) s1).2 in
  (sys_read 0 demo_ptr 8 s1).1 = Ok Return ∧ (sys_read 0 demo_ptr 8 s2).1 = Ok Block.
Proof. split; vm_compute; reflexivity. Qed.

(** ^C does not reach a foreground process that waits for input: it is marked, but only
    stopped processes are made runnable. *)
Theorem interrupt_leaves_reader :
  let s0 := set_k (with_foreground 2 (s_k demo_sys)) demo_sys in
  let s1 := (sys_read 0 demo_ptr 8 s0).2 in
  let s2 := (run_call (CUart [3]) s1).2 in
  (sys_read 0 demo_ptr 8 s0).1 = Ok Block ∧
  (pending_signals ∘ signals) <$> proc_of 2 (s_k s2) = Some (bit 2) ∧ k_runq (s_k s2) = [] ∧
  t_waiter <$> s_ttys s2 !! 1 = Some 2.
Proof. split_and!; vm_compute; reflexivity. Qed.

(** What a process writes to its terminal is dropped as a whole, and reported as written, when
    it is not UTF-8. *)
Theorem terminal_drops_bytes :
  let s1 := (sys_write 0 demo_ptr [104; 255] demo_sys).2 in a0 s1 = 2 ∧ s_tx s1 = [].
Proof. split; vm_compute; reflexivity. Qed.

(** A process that exits with the last write end of a pipe whose reader waits makes the kernel
    panic. *)
Theorem exit_of_last_writer_panics :
  let s1 := (sys_read 3 demo_ptr 8 demo_sys).2 in
  (sys_read 3 demo_ptr 8 demo_sys).1 = Ok Block ∧
  (close_all_locked 3 s1).1 = Panic "Recursive lock deadlock detected!".
Proof. split; vm_compute; reflexivity. Qed.

(** ** Instances *)

Definition demo_calls : list call :=
  [CRead 3 demo_ptr 8; CRun 3; CWrite 4 demo_ptr [1; 2; 3]; CRun 2; CRead 3 demo_ptr 2].

Lemma pipe_fifo_witness :
  ∃ w r s', run_calls 7 demo_calls demo_sys = (w, r, s') ∧ r ++ pipe_data 7 s' = w ∧ w = [1; 2; 3] ∧ r = [1; 2].
Proof.
  assert ((run_calls 7 demo_calls demo_sys).1 = ([1; 2; 3], [1; 2])) as E1 by (vm_compute; reflexivity).
  pose proof (pipe_fifo 7 demo_calls demo_sys) as H. destruct (run_calls 7 demo_calls demo_sys) as [[w r] s'].
  injection E1 as Hw Hr. exists w, r, s'. split; [reflexivity|]. split; [|split; [exact Hw|exact Hr]].
  apply H; [by eexists|exact demo_regs].
Defined.

Lemma demo_reader : holds 2 RIGHT_READ 3 (KPipeRead 7) demo_sys.
Proof. eexists. split; vm_compute; reflexivity. Qed.

Lemma demo_writer : holds 3 RIGHT_WRITE 4 (KPipeWrite 7) demo_sys.
Proof. eexists. split; vm_compute; reflexivity. Qed.

Lemma pipe_read_resumes_witness :
  let s1 := (sys_read 3 demo_ptr 8 demo_sys).2 in
  let s2 := (sys_write 4 demo_ptr [1; 2; 3] (run_call (CRun 3) s1).2).2 in
  queued 2 s2 ∧ new_stores (run_call (CRun 2) s2).2 (sys_read 3 demo_ptr 8 (run_call (CRun 2) s2).2).2 = [1; 2; 3].
Proof.
  intros s1 s2. destruct (pipe_read_resumes 7 3 demo_ptr 8 4 demo_ptr [1; 2; 3] 3 demo_sys s1 s2) as [H1 (s4 & H2 & H3 & _)].
  - reflexivity.
  - lia.
  - discriminate.
  - exact demo_regs.
  - exact demo_reader.
  - exact demo_writer.
  - vm_compute. reflexivity.
  - vm_compute. reflexivity.
  - vm_compute. reflexivity.
  - vm_compute. reflexivity.
  - change (k_current (s_k demo_sys)) with 2 in *. split; [exact H1|]. rewrite H2. exact H3.
Defined.

Lemma pipe_eof_resumes_witness :
  let s1 := (sys_read 3 demo_ptr 8 demo_sys).2 in
  let s2 := (sys_close 4 (run_call (CRun 3) s1).2).2 in
  queued 2 s2 ∧ (sys_read 3 demo_ptr 8 (run_call (CRun 2) s2).2).1 = Ok Return.
Proof.
  intros s1 s2. destruct (pipe_eof_resumes 7 3 demo_ptr 8 4 3 (demo_fds [(4, KPipeWrite 7)]) demo_sys s1 s2) as [H1 (s4 & H2 & _)].
  - reflexivity.
  - discriminate.
  - lia.
  - exact demo_regs.
  - exact demo_reader.
  - vm_compute. reflexivity.
  - vm_compute. reflexivity.
  - vm_compute. reflexivity.
  - vm_compute. reflexivity.
  - vm_compute. reflexivity.
  - vm_compute. reflexivity.
  - change (k_current (s_k demo_sys)) with 2 in *. split; [exact H1|]. by rewrite H2.
Defined.

Lemma pipe_no_lost_wakeup_witness :
  ∃ s, pr_pc s = PBlocked ∧ (pr_enq s = true ∨ (pr_data s = [] ∧ pr_waiter s = 5)).
Proof.
  exists (mkPRace [] 1 0 0 0 0 5 false PBlocked). split; [reflexivity|]. apply (pipe_no_lost_wakeup 5 1).
  - lia.
  - eapply rtc_l; [apply ps_seen|]. eapply rtc_l; [apply ps_register|]. eapply rtc_l; [apply ps_block|]. apply rtc_refl.
  - reflexivity.
  - reflexivity.
Defined.

Definition demo_keys : list (list Z) := [[104; 105; 120; 127]; [111; 107]].

