(* ===== verification/Epoll.v ===== *)
(** * Event notification (src/syscall/epoll.rs, the registry of src/net/socket.rs)

    Interest lists, readiness, waiting and waking.  The instances are in the state of
    Streams; the sockets a readiness test looks up are the argument [net].

    [epoll_reports] gives the events a scan reports, level- and edge-triggered;
    [epoll_ctl_refines] says that the interest list is a map; [epoll_delivers] that a
    process waiting for a pipe is woken by a write and gets the event.  [epoll_lost_wakeup]
    and [epoll_stale_timeout] are about what goes wrong between the two. *)

From Stdlib Require Import ZArith Lia.
From stdpp Require Import prelude gmap sorting strings.
From S2P Require Import Prelude Pmm Vmm Swap Handle Vmo FileLock Channel Process Lifecycle Signals Streams.

Local Open Scope Z_scope.

Definition EPOLLIN : Z := 1.
Definition EPOLLRDNORM : Z := 64.
Definition EPOLLOUT : Z := 4.
Definition EPOLLWRNORM : Z := 256.
Definition EPOLLHUP : Z := 16.
Definition EPOLLNVAL : Z := 32.
Definition EPOLLET : Z := 2147483648.
Definition EPOLL_CLOEXEC : Z := 524288.

Definition IN_EVENTS : Z := Z.lor EPOLLIN EPOLLRDNORM.
Definition OUT_EVENTS : Z := Z.lor EPOLLOUT EPOLLWRNORM.

(** ** Sockets *)

(** Owners by socket number, in order, and the connections accepted but not fetched. *)
Record sockets : Type := mkSockets { so_owner : list (Z * (Z * Z)); so_accepted : gmap Z (list Z) }.

Definition socket_id_for_fd (net : sockets) (pid fd : Z) : option Z :=
  fst <$> List.find (λ '(_, (opid, ofd)), (opid =? pid) && (ofd =? fd)) (so_owner net).
Definition has_pending_accept (net : sockets) (sid : Z) : bool :=
  negb (bool_decide (default [] (so_accepted net !! sid) = [])).

(** ** The interest list *)

Definition items := list (Z * EpollItem).

Fixpoint item_get (fd : Z) (l : items) : option EpollItem :=
  match l with
  | [] => None
  | (k, x) :: l' => if k =? fd then Some x else item_get fd l'
  end.
Fixpoint item_set (fd : Z) (x : EpollItem) (l : items) : items :=
  match l with
  | [] => [(fd, x)]
  | (k, y) :: l' => if fd <? k then (fd, x) :: l else if k =? fd then (fd, x) :: l' else (k, y) :: item_set fd x l'
  end.
Definition item_remove (fd : Z) (l : items) : items := List.filter (λ x, negb (x.1 =? fd)) l.

Section epoll.
Context (net : sockets).

(** ** Readiness *)

Definition accept_ready (p : Process) (fd : Z) : bool :=
  match socket_id_for_fd net (pid p) (wrap 32 fd) with Some sid => has_pending_accept net sid | None => false end.

Definition object_readiness (p : Process) (o : kobject) (fd interest : Z) (s : sys) : Z :=
  let reads := wants interest IN_EVENTS in
  let writes := wants interest OUT_EVENTS in
  match o with
  | KPipeRead id =>
      Z.lor (when (reads && negb (bool_decide (pipe_data id s = []))) IN_EVENTS)
            (when (negb (alive (KPipeWrite id) (s_k s))) EPOLLHUP)
  | KPipeWrite _ => when writes OUT_EVENTS
  | KChannel ep =>
      let sigs := from_option get_signals 0 (endpoints (k_chan (s_k s)) !! ep) in
      Z.lor (Z.lor (when (reads && wants sigs SIGNAL_READABLE) IN_EVENTS) (when (wants sigs SIGNAL_PEER_CLOSED) EPOLLHUP))
            (Z.lor (when (writes && wants sigs SIGNAL_WRITABLE) OUT_EVENTS) (when (accept_ready p fd) IN_EVENTS))
  | KTty id =>
      let t := default tty_new (s_ttys s !! id) in
      Z.lor (when (reads && (negb (bool_decide (t_buf t = [])) || t_ctrlc t)) IN_EVENTS) (when writes OUT_EVENTS)
  | KVfsFile _ => Z.lor (when reads IN_EVENTS) (when writes OUT_EVENTS)
  | _ => when (wants interest EPOLLNVAL) EPOLLNVAL
  end.

Definition readiness (p : Process) (fd interest : Z) (s : sys) : Z :=
  match get (fds p) (wrap 32 fd) with
  | None => when (wants interest EPOLLNVAL) EPOLLNVAL
  | Some o => object_readiness p o fd interest s
  end.

Definition check_fd_readiness (fd interest : Z) : M sys Z := λ s,
  match proc_of (k_current (s_k s)) (s_k s) with
  | Some p => (Ok (readiness p fd interest s), s)
  | None => (Panic "called `Option::unwrap()` on a `None` value", s)
  end.

(** ** Registration *)

Definition upd_epoll (id : Z) (f : EpollInstance → EpollInstance) : M sys unit :=
  modify (λ s, set_epolls (alter f id (s_epolls s)) s).
Definition set_items (f : items → items) (e : EpollInstance) : EpollInstance := mkEpoll (f (ei_items e)) (ei_saved_sigmask e).
Definition set_saved (m : Z) (e : EpollInstance) : EpollInstance := mkEpoll (ei_items e) m.

Definition set_waiter (id w : Z) : M sys unit := in_k (λ k, let c := k_chan k in
  with_chan (mkChan (endpoints c) (ports c) (alter (λ _, w) id (epolls c)) (enqueued c) (woken c) (next_koid c)) k).
Definition waiter_of (id : Z) (s : sys) : Z := default 0 (epolls (k_chan (s_k s)) !! id).

(** The list of watchers of an object that has one. *)
Definition upd_watchers (o : kobject) (f : list Z → list Z) : M sys unit :=
  match o with
  | KPipeRead id => upd_pipe id (λ p, mkPipe (pi_data p) (pi_waiter p) (f (pi_epoll p)))
  | KChannel ep => on_chan (modify (upd_ep ep (λ e, mkEp (ep_queue e) (ep_waker e) (ep_peer_closed e) (ep_peer e)
                     (ep_waiter e) (ep_observers e) (f (ep_epoll e)) (ep_signal_waiters e))))
  | KTty id => upd_tty id (λ t, mkTty (t_buf t) (t_echo t) (t_raw t) (t_waiter t) (t_ctrlc t) (f (t_epoll t)))
  | _ => mret tt
  end.

Fixpoint remove_one (i : Z) (l : list Z) : list Z :=
  match l with
  | [] => []
  | j :: l' => if j =? i then l' else j :: remove_one i l'
  end.

Definition sys_epoll_create1 (flags : Z) : M sys control := current (λ p, λ s,
  let id := s_next s in
  match insert (KEpoll id) (fds p) with
  | (Ok h, t) =>
      let t' := if negb (Z.land flags EPOLL_CLOEXEC =? 0) then set_cloexec h true t else t in
      (modify (set_next (id + 1)) ;;
       modify (λ s, set_epolls (<[id := mkEpoll [] (-1)]> (s_epolls s)) s) ;;
       in_k (λ k, let c := k_chan k in
         with_chan (mkChan (endpoints c) (ports c) (<[id := 0]> (epolls c)) (enqueued c) (woken c) (next_koid c)) k) ;;
       in_k (upd_proc (k_current (s_k s)) (with_fds t')) ;;
       put h) s
  | (Err e, _) => (Err e, s)
  | (Panic e, _) => (Panic e, s)
  end).

Definition EPOLL_CTL_ADD : Z := 1.
Definition EPOLL_CTL_DEL : Z := 2.
Definition EPOLL_CTL_MOD : Z := 3.

(** The instance behind a descriptor. *)
Definition with_epoll (epfd : Z) (f : Process → Z → EpollInstance → M sys control) : M sys control := current (λ p, λ s,
  match get (fds p) (wrap 32 epfd) with
  | Some (KEpoll id) => match s_epolls s !! id with Some e => f p id e s | None => put EBADF s end
  | _ => put EBADF s
  end).

(** [events] and [data] are what the event at [event_ptr] holds. *)
Definition sys_epoll_ctl (epfd op arg event_ptr events data : Z) : M sys control := with_epoll epfd (λ p id e,
  let fd := to_i32 arg in
  let bad_ptr := (event_ptr =? 0) || negb (is_user_pointer_valid 1 event_ptr 16) in
  if op =? EPOLL_CTL_ADD then
    if bad_ptr then put EFAULT
    else match item_get fd (ei_items e) with
    | Some _ => put EEXIST
    | None =>
        st ← check_fd_readiness fd events;
        upd_epoll id (set_items (item_set fd (mkItem events data st))) ;;
        match get (fds p) (wrap 32 fd) with
        | Some o => upd_watchers o (λ l, l ++ [id])
        | None => mret tt
        end ;;
        put 0
    end
  else if op =? EPOLL_CTL_MOD then
    if bad_ptr then put EFAULT
    else
      st ← check_fd_readiness fd events;
      match item_get fd (ei_items e) with
      | Some _ => upd_epoll id (set_items (item_set fd (mkItem events data st))) ;; put 0
      | None => put ENOENT
      end
  else if op =? EPOLL_CTL_DEL then
    match item_get fd (ei_items e) with
    | Some _ =>
        upd_epoll id (set_items (item_remove fd)) ;;
        match get (fds p) (wrap 32 fd) with
        | Some o => upd_watchers o (remove_one id)
        | None => mret tt
        end ;;
        put 0
    | None => put ENOENT
    end
  else put EINVAL).

(** ** Waiting *)

(** Edge-triggered items report what was not ready at the last scan. *)
Definition edge (x : EpollItem) : bool := wants (it_events x) EPOLLET.
Definition report (x : EpollItem) (revents : Z) : Z :=
  if edge x then Z.ldiff revents (it_last_state x) else revents.
Definition rescan (x : EpollItem) (revents : Z) : EpollItem :=
  if edge x then mkItem (it_events x) (it_data x) revents else x.

(** [n] more events fit. *)
Fixpoint collect (ready : Z → Z → Z) (n : nat) (l : items) : list (Z * Z) * items :=
  match n, l with
  | S n', (fd, x) :: l' =>
      let revents := ready fd (it_events x) in
      let r := report x revents in
      if r =? 0
      then let '(out, l2) := collect ready n l' in (out, (fd, rescan x revents) :: l2)
      else let '(out, l2) := collect ready n' l' in ((r, it_data x) :: out, (fd, rescan x revents) :: l2)
  | _, _ => ([], l)
  end.

Definition collect_ready (id : Z) (maxevents : Z) : M sys (list (Z * Z)) := λ s,
  match proc_of (k_current (s_k s)) (s_k s), s_epolls s !! id with
  | Some p, Some e =>
      let '(out, l) := collect (λ fd interest, readiness p fd interest s) (Z.to_nat maxevents) (ei_items e) in
      (Ok out, set_epolls (alter (set_items (λ _, l)) id (s_epolls s)) s)
  | None, Some (mkEpoll (_ :: _) _) => (Panic "called `Option::unwrap()` on a `None` value", s)
  | _, _ => (Ok [], s)
  end.

Definition restore_sigmask (id : Z) : M sys unit :=
  o ← gets (λ s, s_epolls s !! id);
  let old := from_option ei_saved_sigmask (-1) o in
  upd_epoll id (set_saved (-1)) ;;
  if old =? -1 then mret tt
  else in_k (λ k, upd_proc (k_current k) (set_blocked (wrap 32 old)) k).

(** [new_mask] is what the pointer in a4 points to. *)
Definition apply_sigmask (id new_mask : Z) : M sys bool :=
  ptr ← gets (λ s, from_option (λ p, reg 14 (trap_frame p)) 0 (proc_of (k_current (s_k s)) (s_k s)));
  saved ← gets (λ s, from_option ei_saved_sigmask (-1) (s_epolls s !! id));
  if negb (ptr =? 0) && (saved =? -1) then
    if negb (is_user_pointer_valid 1 ptr 4) then mret false
    else
      old ← gets (λ s, from_option (λ p, blocked_signals (signals p)) 0 (proc_of (k_current (s_k s)) (s_k s)));
      in_k (λ k, upd_proc (k_current k) (set_blocked new_mask) k) ;;
      upd_epoll id (set_saved (to_i32 old)) ;;
      mret true
  else mret true.

Definition event_bytes (e : Z * Z) : list Z := le_bytes 4 e.1 ++ le_bytes 4 0 ++ le_bytes 8 e.2.
Fixpoint store_events (ptr : Z) (l : list (Z * Z)) : M sys unit :=
  match l with
  | [] => mret tt
  | e :: l' => in_k (store_user ptr (event_bytes e)) ;; store_events (ptr + 16) l'
  end.

Definition to_isize (x : Z) : Z := let y := wrap 64 x in if y <? 2 ^ 63 then y else y - 2 ^ 64.

(** Up to the decision to wait: [None] is that decision. *)
Definition epoll_scan (id events_ptr maxevents timeout new_mask : Z) : M sys (option control) :=
  me ← gets (λ s, k_current (s_k s));
  w ← gets (waiter_of id);
  if w =? me then
    set_waiter id 0 ;; restore_sigmask id ;; put 0 ;; mret (Some Return)
  else if (0 <? maxevents) && negb (is_user_pointer_valid 1 events_ptr (wrap 64 (maxevents * 16))) then
    put EFAULT ;; mret (Some Return)
  else
    ok ← apply_sigmask id new_mask;
    if negb ok then put EFAULT ;; mret (Some Return)
    else
      ready ← collect_ready id maxevents;
      if negb (bool_decide (ready = [])) || (to_isize timeout =? 0) then
        restore_sigmask id ;;
        store_events events_ptr ready ;;
        put (Z.of_nat (length ready)) ;;
        mret (Some Return)
      else mret None.

Definition epoll_block (id timeout now : Z) : M sys control :=
  me ← gets (λ s, k_current (s_k s));
  set_waiter id me ;;
  let ticks := if 0 <? to_isize timeout then wrap 64 (to_isize timeout * 10000) else 10000000 * 3600 * 24 * 365 * 10 in
  in_k (λ k, with_sleep (k_sleep k ++ [(me, wrap 64 (now + ticks))]) k) ;;
  in_k (upd_proc me (with_state Stopped)) ;;
  block.

Definition sys_epoll_pwait (epfd events_ptr maxevents timeout new_mask now : Z) : M sys control :=
  with_epoll epfd (λ p id e,
    r ← epoll_scan id events_ptr maxevents timeout new_mask;
    match r with
    | Some c => mret c
    | None => epoll_block id timeout now
    end).

(** ** What a scan reports *)

(** The scan up to the item that fills the buffer. *)
Definition reports (ready : Z → Z → Z) (l : items) : list (Z * Z) :=
  filter (λ e, e.1 ≠ 0) ((λ x, (report x.2 (ready x.1 (it_events x.2)), it_data x.2)) <$> l).

Lemma collect_reports ready l : ∀ n, (collect ready n l).1 = take n (reports ready l).
Proof.
  induction l as [|[fd x] l IH]; intros n; [by destruct n|]. destruct n as [|n]; [done|]. unfold reports in *. cbn [collect fmap list_fmap].
  destruct (Z.eqb_spec (report x (ready fd (it_events x))) 0) as [E|E].
  - rewrite filter_cons_False by (cbn; auto). specialize (IH (S n)). destruct (collect ready (S n) l) as [out l2]. exact IH.
  - rewrite filter_cons_True by done. specialize (IH n). destruct (collect ready n l) as [out l2]. cbn in *. by rewrite IH.
Qed.

Lemma collect_items ready l : ∀ n, (length (reports ready l) < n)%nat →
  (collect ready n l).2 = (λ x, (x.1, rescan x.2 (ready x.1 (it_events x.2)))) <$> l.
Proof.
  induction l as [|[fd x] l IH]; intros n Hn; [by destruct n|]. destruct n as [|n]; [lia|]. unfold reports in *. cbn [collect fmap list_fmap] in *.
  destruct (Z.eqb_spec (report x (ready fd (it_events x))) 0) as [E|E].
  - rewrite filter_cons_False in Hn by (cbn; auto). specialize (IH (S n) Hn). destruct (collect ready (S n) l) as [out l2]. cbn in *. by rewrite IH.
  - rewrite filter_cons_True in Hn by done. specialize (IH n). destruct (collect ready n l) as [out l2]. cbn in *. rewrite IH by lia. done.
Qed.

Fixpoint event_stores (root ptr : Z) (l : list (Z * Z)) : list (Z * Z * list Z) :=
  match l with
  | [] => []
  | e :: l' => (root, ptr, event_bytes e) :: event_stores root (ptr + 16) l'
  end.

Lemma event_stores_bytes root l : ∀ ptr, concat ((λ x, x.2) <$> event_stores root ptr l) = concat (event_bytes <$> l).
Proof. induction l as [|e l IH]; intros ptr; [done|]. cbn. by rewrite IH. Qed.

Lemma store_events_ok l : ∀ ptr s, store_events ptr l s =
  (Ok tt, set_k (with_stores (k_stores (s_k s) ++ event_stores (satp_root (k_satp (s_k s))) ptr l) (s_k s)) s).
Proof.
  induction l as [|e l IH]; intros ptr s; cbn [store_events event_stores].
  - rewrite app_nil_r. destruct s as [[]]. reflexivity.
  - erewrite bind_ok by reflexivity. rewrite IH. cbn. by rewrite <-app_assoc.
Qed.

(** The state a scan leaves that finds something. *)
Definition scanned (id ptr : Z) (out : list (Z * Z)) (l : items) (s : sys) : sys :=
  set_k (with_stores (k_stores (s_k s) ++ event_stores (satp_root (k_satp (s_k s))) ptr out) (s_k s))
    (set_epolls (alter (set_saved (-1)) id (alter (set_items (λ _, l)) id (s_epolls s))) s).

(** The caller waits on the instance [id] with state [e], without a signal mask. *)
Record caller (epfd ptr max id : Z) (e : EpollInstance) (p : Process) (s : sys) : Prop := {
  ca_proc : proc_of (k_current (s_k s)) (s_k s) = Some p;
  ca_fd : get (fds p) (wrap 32 epfd) = Some (KEpoll id);
  ca_epoll : s_epolls s !! id = Some e;
  ca_valid : 0 < max → is_user_pointer_valid 1 ptr (wrap 64 (max * 16)) = true;
  ca_mask : reg 14 (trap_frame p) = 0;
  ca_saved : ei_saved_sigmask e = -1;
}.

Section caller.
Context (epfd ptr max id : Z) (e : EpollInstance) (p : Process) (s : sys).
Hypothesis Hcall : caller epfd ptr max id e p s.
Hypothesis Hw : waiter_of id s ≠ k_current (s_k s).

Let ready := λ fd interest, readiness p fd interest s.
Let out := take (Z.to_nat max) (reports ready (ei_items e)).
Let rescanned := (collect ready (Z.to_nat max) (ei_items e)).2.

Lemma scan_collects : collect_ready id max s =
  (Ok out, set_epolls (alter (set_items (λ _, rescanned)) id (s_epolls s)) s).
Proof.
  destruct Hcall as [Hp _ He _ _ _]. unfold collect_ready. rewrite Hp, He.
  unfold out, rescanned. rewrite <-collect_reports. by destruct (collect _ _ _).
Qed.

Lemma scan_begins timeout new_mask : epoll_scan id ptr max timeout new_mask s =
  (if negb (bool_decide (out = [])) || (to_isize timeout =? 0)
   then restore_sigmask id ;; store_events ptr out ;; put (Z.of_nat (length out)) ;; mret (Some Return)
   else mret None) (set_epolls (alter (set_items (λ _, rescanned)) id (s_epolls s)) s).
Proof.
  destruct Hcall as [Hp Hf He Hv Hm Hs]. unfold epoll_scan. do 2 erewrite bind_ok by reflexivity.
  rewrite (proj2 (Z.eqb_neq _ _) Hw).
  assert ((0 <? max) && negb (is_user_pointer_valid 1 ptr (wrap 64 (max * 16))) = false) as ->.
  { destruct (Z.ltb_spec 0 max); [|done]. by rewrite Hv. }
  assert (apply_sigmask id new_mask s = (Ok true, s)) as Ea.
  { unfold apply_sigmask. do 2 erewrite bind_ok by reflexivity. rewrite Hp. cbn [from_option]. by rewrite Hm. }
  erewrite bind_ok by exact Ea. cbn [negb]. by erewrite bind_ok by exact scan_collects.
Qed.

Lemma scan_returns timeout new_mask : out ≠ [] ∨ to_isize timeout = 0 →
  epoll_scan id ptr max timeout new_mask s =
    (Ok (Some Return), (put (Z.of_nat (length out)) (scanned id ptr out rescanned s)).2).
Proof.
  intros Hout. rewrite scan_begins. destruct Hcall as [Hp Hf He Hv Hm Hs].
  assert (negb (bool_decide (out = [])) || (to_isize timeout =? 0) = true) as ->.
  { destruct Hout as [Hout| ->]; [by rewrite bool_decide_false|by rewrite orb_true_r]. }
  set (s1 := set_epolls _ s). unfold restore_sigmask. erewrite bind_ok.
  2: { erewrite bind_ok by reflexivity. cbn [s_epolls s1 set_epolls]. rewrite lookup_alter_eq, He. cbn [fmap option_fmap option_map from_option].
       erewrite bind_ok by reflexivity. cbn [set_items ei_saved_sigmask]. rewrite Hs. reflexivity. }
  erewrite bind_ok by apply store_events_ok. reflexivity.
Qed.

Lemma scan_waits timeout new_mask : out = [] → to_isize timeout ≠ 0 →
  epoll_scan id ptr max timeout new_mask s =
    (Ok None, set_epolls (alter (set_items (λ _, rescanned)) id (s_epolls s)) s).
Proof. intros Hout Ht. rewrite scan_begins, bool_decide_true by done. by rewrite (proj2 (Z.eqb_neq _ _) Ht). Qed.

Lemma pwait_scan timeout new_mask now : sys_epoll_pwait epfd ptr max timeout new_mask now s =
  (r ← epoll_scan id ptr max timeout new_mask; match r with Some c => mret c | None => epoll_block id timeout now end) s.
Proof. destruct Hcall as [Hp Hf He _ _ _]. unfold sys_epoll_pwait, with_epoll, current. by rewrite Hp, Hf, He. Qed.
End caller.

Lemma pwait_reports epfd ptr max timeout new_mask now id e p s :
  caller epfd ptr max id e p s → waiter_of id s ≠ k_current (s_k s) → k_regs_ok (s_k s) →
  let ready := λ fd interest, readiness p fd interest s in
  let out := take (Z.to_nat max) (reports ready (ei_items e)) in
  out ≠ [] ∨ to_isize timeout = 0 →
  ∃ s', sys_epoll_pwait epfd ptr max timeout new_mask now s = (Ok Return, s') ∧
    a0 s' = Z.of_nat (length out) ∧ new_stores s s' = concat (event_bytes <$> out) ∧
    (Z.of_nat (length (reports ready (ei_items e))) < max →
     ei_items <$> s_epolls s' !! id = Some ((λ x, (x.1, rescan x.2 (ready x.1 (it_events x.2)))) <$> ei_items e)).
Proof.
  intros Hcall Hw Hr ready out Hout. set (l := (collect ready (Z.to_nat max) (ei_items e)).2).
  exists (put (Z.of_nat (length out)) (scanned id ptr out l s)).2. split_and!.
  - rewrite (pwait_scan epfd ptr max id e p s Hcall). erewrite bind_ok by (by apply (scan_returns epfd ptr max id e p s Hcall Hw)). done.
  - apply put_a0; [done|]. exists p. exact (ca_proc _ _ _ _ _ _ _ Hcall).
  - unfold new_stores. change (k_stores (s_k (put _ _).2)) with
      (k_stores (s_k s) ++ event_stores (satp_root (k_satp (s_k s))) ptr out).
    by rewrite drop_app_length, event_stores_bytes.
  - intros Hlen. change (s_epolls (put _ _).2) with (alter (set_saved (-1)) id (alter (set_items (λ _, l)) id (s_epolls s))).
    rewrite !lookup_alter_eq, (ca_epoll _ _ _ _ _ _ _ Hcall). cbn. f_equal. apply collect_items. lia.
Qed.

(** waiting reports exactly the ready descriptors.  With something to report, or a zero
    timeout, the call stores an event for each descriptor of the interest list, in order
    and as many as fit, whose readiness has a bit to report: any bit for level-triggered
    items, one that the last scan did not have for edge-triggered ones.  The latter are
    rescanned, the former unchanged, and the count is returned. *)
Theorem epoll_reports epfd ptr max timeout new_mask now id e p s :
  caller epfd ptr max id e p s → waiter_of id s ≠ k_current (s_k s) → k_regs_ok (s_k s) →
  let ready := λ fd interest, readiness p fd interest s in
  let out := take (Z.to_nat max) (reports ready (ei_items e)) in
  out ≠ [] ∨ to_isize timeout = 0 →
  ∃ s', sys_epoll_pwait epfd ptr max timeout new_mask now s = (Ok Return, s') ∧
    a0 s' = Z.of_nat (length out) ∧ new_stores s s' = concat (event_bytes <$> out) ∧
    (Z.of_nat (length (reports ready (ei_items e))) < max →
     ei_items <$> s_epolls s' !! id = Some ((λ x, (x.1, rescan x.2 (ready x.1 (it_events x.2)))) <$> ei_items e)).
Proof. apply pwait_reports. Qed.

(** ** The interest list is a map *)

Definition interest (l : items) : gmap Z EpollItem := list_to_map l.
Definition ordered (l : items) : Prop := StronglySorted Z.lt l.*1.

Lemma item_get_map fd l : item_get fd l = interest l !! fd.
Proof.
  induction l as [|[k x] l IH]; [done|]. cbn. rewrite lookup_insert. destruct (Z.eqb_spec k fd); case_decide; [done..|apply IH].
Qed.

Lemma ordered_none fd k x l : ordered ((k, x) :: l) → fd < k → interest l !! fd = None.
Proof.
  intros Hs Hk. apply not_elem_of_list_to_map_1. intros Hin. unfold ordered in Hs. cbn in Hs.
  apply StronglySorted_inv in Hs as [_ Hs]. rewrite Forall_forall in Hs. specialize (Hs fd Hin). lia.
Qed.

Lemma item_set_keys fd x l : Forall (λ k, k ∈ fd :: l.*1) (item_set fd x l).*1.
Proof.
  induction l as [|[k y] l IH]; cbn; [repeat constructor|]. destruct (fd <? k); [apply Forall_forall; set_solver|].
  destruct (k =? fd); cbn; [apply Forall_forall; set_solver|]. constructor; [set_solver|].
  eapply Forall_impl; [exact IH|]. set_solver.
Qed.

Lemma item_set_map fd x l : ordered l → interest (item_set fd x l) = <[fd := x]> (interest l) ∧ ordered (item_set fd x l).
Proof.
  unfold ordered. induction l as [|[k y] l IH]; intros Hs; [split; [done|repeat constructor]|]. cbn in Hs |- *.
  apply StronglySorted_inv in Hs as [Hs Hk]. destruct (Z.ltb_spec fd k).
  - split; [done|]. constructor; [by constructor|]. constructor; [done|]. eapply Forall_impl; [exact Hk|]. cbn. lia.
  - destruct (Z.eqb_spec k fd) as [->|Hne].
    + cbn. split; [by rewrite insert_insert_eq|by constructor].
    + destruct (IH Hs) as [E S]. unfold interest in *. cbn. rewrite E. split; [by rewrite insert_insert_ne|]. constructor; [done|].
      pose proof (item_set_keys fd x l) as Hkeys. rewrite Forall_forall in *. intros j Hj%Hkeys. apply elem_of_cons in Hj as [->|Hj]; [lia|auto].
Qed.

Lemma item_remove_map fd l : interest (item_remove fd l) = delete fd (interest l).
Proof.
  unfold interest. induction l as [|[k y] l IH]; cbn; [by rewrite delete_empty|]. destruct (Z.eqb_spec k fd) as [->|]; cbn.
  - rewrite delete_insert_eq. exact IH.
  - rewrite delete_insert_ne by done. f_equal. exact IH.
Qed.

Lemma item_remove_ordered fd l : ordered l → ordered (item_remove fd l).
Proof.
  unfold ordered. induction l as [|[k y] l IH]; cbn; intros Hs; [constructor|]. apply StronglySorted_inv in Hs as [Hs Hk].
  destruct (negb (k =? fd)); cbn; [|auto]. constructor; [auto|]. rewrite Forall_forall in *. intros j Hj. apply Hk.
  apply list_elem_of_fmap in Hj as ([j' y'] & -> & Hj). apply list_elem_of_fmap. exists (j', y'). split; [done|].
  apply list_elem_of_In. apply list_elem_of_In in Hj. by apply filter_In in Hj as [Hj _].
Qed.

(** What [epoll_ctl] does to the map, with its result. *)
Definition ctl_spec (op fd : Z) (x : EpollItem) (m : gmap Z EpollItem) : Z * gmap Z EpollItem :=
  if op =? EPOLL_CTL_ADD then match m !! fd with Some _ => (EEXIST, m) | None => (0, <[fd := x]> m) end
  else if op =? EPOLL_CTL_MOD then match m !! fd with Some _ => (0, <[fd := x]> m) | None => (ENOENT, m) end
  else if op =? EPOLL_CTL_DEL then match m !! fd with Some _ => (0, delete fd m) | None => (ENOENT, m) end
  else (EINVAL, m).

Lemma watchers_ok o f s : ∃ s', upd_watchers o f s = (Ok tt, s') ∧ steady s s' ∧ s_epolls s' = s_epolls s.
Proof.
  destruct o; cbn [upd_watchers]; try (eexists; split; [reflexivity|]; by split; [split|]).
  exists (on_chan (modify (upd_ep ep (λ e, mkEp (ep_queue e) (ep_waker e) (ep_peer_closed e) (ep_peer e)
                     (ep_waiter e) (ep_observers e) (f (ep_epoll e)) (ep_signal_waiters e)))) s).2.
  split; [done|]. split; [apply (steady_chan (modify _))|done].
Qed.

Lemma watch_then_put id e v (o : option kobject) f s : proc_of (k_current (s_k s)) (s_k s) ≠ None → k_regs_ok (s_k s) →
  s_epolls s !! id = Some e →
  ∃ s', (match o with Some o => upd_watchers o f | None => mret tt end ;; put v) s = (Ok Return, s') ∧
    a0 s' = v ∧ s_epolls s' !! id = Some e.
Proof.
  intros Hp Hr He.
  assert (∃ s1, (match o with Some o => upd_watchers o f | None => mret tt end) s = (Ok tt, s1) ∧ steady s s1 ∧
    s_epolls s1 = s_epolls s) as (s1 & E & [P C _ _] & Es).
  { destruct o as [o|]; [apply watchers_ok|]. exists s. split; [done|]. by split; [split|]. }
  exists (put v s1).2. erewrite bind_ok by exact E. split; [done|]. split.
  - apply put_a0; [unfold k_regs_ok; by rewrite P|]. unfold proc_of in *. rewrite P, C. by apply not_eq_None_Some.
  - change (s_epolls (put v s1).2) with (s_epolls s1). by rewrite Es.
Qed.

(** the interest list of an instance is a map from descriptors to events and data.
    [epoll_ctl] adds, changes and removes entries and reports existing and missing ones,
    as [ctl_spec] says, and keeps the list ordered; the readiness recorded with an entry is
    the one at the time of the call. *)
Theorem epoll_ctl_refines epfd op arg event_ptr events data id e p s :
  proc_of (k_current (s_k s)) (s_k s) = Some p → k_regs_ok (s_k s) →
  get (fds p) (wrap 32 epfd) = Some (KEpoll id) → s_epolls s !! id = Some e → ordered (ei_items e) →
  is_user_pointer_valid 1 event_ptr 16 = true →
  let fd := to_i32 arg in
  ∃ s' e', sys_epoll_ctl epfd op arg event_ptr events data s = (Ok Return, s') ∧ s_epolls s' !! id = Some e' ∧
    ordered (ei_items e') ∧
    (a0 s', interest (ei_items e')) =
      ctl_spec op fd (mkItem events data (readiness p fd events s)) (interest (ei_items e)).
Proof.
  intros Hp Hr Hf He Ho Hv fd.
  assert (proc_of (k_current (s_k s)) (s_k s) ≠ None) as Hp' by congruence.
  assert (∀ v, ∃ s', put v s = (Ok Return, s') ∧ a0 s' = v ∧ s_epolls s' !! id = Some e) as Hput.
  { intros v. exists (put v s).2. split; [done|]. split; [|done]. apply put_a0; [done|]. by exists p. }
  set (su f := set_epolls (alter (set_items f) id (s_epolls s)) s).
  assert (∀ f, s_epolls (su f) !! id = Some (set_items f e)) as Hset.
  { intros f. cbn. by rewrite lookup_alter_eq, He. }
  assert (check_fd_readiness fd events s = (Ok (readiness p fd events s), s)) as Hcheck.
  { unfold check_fd_readiness. by rewrite Hp. }
  assert ((event_ptr =? 0) = false) as Hnull by (unfold is_user_pointer_valid in Hv; by destruct (event_ptr =? 0)).
  unfold sys_epoll_ctl, with_epoll, current, ctl_spec. rewrite Hp, Hf, He, Hv, Hnull. cbn [orb negb]. fold fd. rewrite <-item_get_map.
  set (x := mkItem events data (readiness p fd events s)).
  destruct (item_set_map fd x (ei_items e) Ho) as [Es Os]. pose proof (item_remove_map fd (ei_items e)) as Er.
  pose proof (item_remove_ordered fd (ei_items e) Ho) as Or.
  destruct (op =? EPOLL_CTL_ADD); [|destruct (op =? EPOLL_CTL_MOD); [|destruct (op =? EPOLL_CTL_DEL)]].
  - destruct (item_get fd (ei_items e)); [destruct (Hput EEXIST) as (s' & E1 & E2 & E3); exists s', e; by rewrite E2|].
    erewrite bind_ok by exact Hcheck. erewrite bind_ok by reflexivity. fold x.
    destruct (watch_then_put id _ 0 (get (fds p) (wrap 32 fd)) (λ l, l ++ [id]) (su _) Hp' Hr (Hset (item_set fd x))) as (s' & E1 & E2 & E3).
    exists s', (set_items (item_set fd x) e). rewrite E2, <-Es. by split_and!.
  - erewrite bind_ok by exact Hcheck. fold x.
    destruct (item_get fd (ei_items e)); [|destruct (Hput ENOENT) as (s' & E1 & E2 & E3); exists s', e; by rewrite E2].
    erewrite bind_ok by reflexivity.
    destruct (watch_then_put id _ 0 None (λ l, l) (su _) Hp' Hr (Hset (item_set fd x))) as (s' & E1 & E2 & E3).
    exists s', (set_items (item_set fd x) e). rewrite E2, <-Es. by split_and!.
  - destruct (item_get fd (ei_items e)); [|destruct (Hput ENOENT) as (s' & E1 & E2 & E3); exists s', e; by rewrite E2].
    erewrite bind_ok by reflexivity.
    destruct (watch_then_put id _ 0 (get (fds p) (wrap 32 fd)) (remove_one id) (su _) Hp' Hr (Hset (item_remove fd))) as (s' & E1 & E2 & E3).
    exists s', (set_items (item_remove fd) e). rewrite E2, <-Er. by split_and!.
  - destruct (Hput EINVAL) as (s' & E1 & E2 & E3). exists s', e. by rewrite E2.
Qed.

(** ** Waking a waiter *)

(** Waking the watchers only adds to the queue and clears waiters. *)
Lemma wake_epolls_grows l : ∀ c, (∃ new, enqueued (wake_epolls l c).2 = enqueued c ++ new) ∧
  (∀ id, epolls c !! id = Some 0 → epolls (wake_epolls l c).2 !! id = Some 0).
Proof.
  induction l as [|i l IH]; intros c; cbn; [split; [exists []; by rewrite app_nil_r|done]|].
  destruct (epolls c !! i) as [w|] eqn:Ei; [|apply IH]. set (c1 := if 0 <? w then _ else _).
  destruct (IH c1) as [[new Hn] Hz]. destruct (wake_epolls l c1) as [kept c2]. cbn in *. split.
  - rewrite Hn. unfold c1. destruct (0 <? w); cbn; [exists (w :: new); by rewrite <-app_assoc|by exists new].
  - intros id Hid. apply Hz. unfold c1. destruct (0 <? w); cbn; rewrite lookup_insert; by case_decide.
Qed.

Lemma wake_epolls_hit l : ∀ c id w, id ∈ l → epolls c !! id = Some w → 0 < w →
  ∃ new, enqueued (wake_epolls l c).2 = enqueued c ++ new ∧ w ∈ new ∧ epolls (wake_epolls l c).2 !! id = Some 0.
Proof.
  induction l as [|i l IH]; intros c id w Hid Hw Hpos; [set_solver|]. cbn. destruct (decide (i = id)) as [->|Hne].
  - rewrite Hw. rewrite (proj2 (Z.ltb_lt _ _) Hpos). set (c1 := enqueue w _). destruct (wake_epolls_grows l c1) as [[new Hn] Hz].
    specialize (Hz id). destruct (wake_epolls l c1) as [kept c2]. cbn in *. exists (w :: new). rewrite Hn, <-app_assoc.
    split_and!; [done|set_solver|]. apply Hz. by rewrite lookup_insert_eq.
  - apply elem_of_cons in Hid as [|Hid]; [done|]. destruct (epolls c !! i) as [wi|] eqn:Ei; [|by apply IH].
    set (c1 := if 0 <? wi then _ else _).
    assert (epolls c1 !! id = Some w) as Hw1 by (unfold c1; destruct (0 <? wi); cbn; by rewrite lookup_insert_ne).
    destruct (IH c1 id w Hid Hw1 Hpos) as (new & Hn & Hin & Hz). destruct (wake_epolls l c1) as [kept c2]. cbn in *.
    unfold c1 in Hn. destruct (0 <? wi); cbn in Hn; [exists (wi :: new)|exists new]; rewrite Hn, <-?app_assoc; set_solver.
Qed.

(** ** Delivery *)

Lemma enqueue_all_queued l w k s : w ∈ l → queued w (set_k (foldl (λ k q, enqueue_pid q k) k l) s).
Proof.
  revert k. induction l as [|q l IH]; intros k Hin; [set_solver|]. cbn. apply elem_of_cons in Hin as [->|Hin]; [|by apply IH].
  clear IH. assert (queued q (set_k (enqueue_pid q k) s)) as Hq by apply rq_push_queued. revert Hq. generalize (enqueue_pid q k).
  induction l as [|q' l IH]; intros k' Hq; [done|]. cbn. apply IH. by apply (c_runq _ _ (calm_enqueue q' (set_k k' s))).
Qed.

(** Waking a pipe wakes the processes that wait on the instances watching it. *)
Lemma wake_pipe_watcher pd pp id w s : s_pipes s !! pd = Some pp → id ∈ pi_epoll pp →
  epolls (k_chan (s_k s)) !! id = Some w → 0 < w →
  queued w (wake_pipe pd s).2 ∧ waiter_of id (wake_pipe pd s).2 = 0 ∧ s_epolls (wake_pipe pd s).2 = s_epolls s.
Proof.
  intros Hp Hid Hw Hpos. unfold wake_pipe. erewrite bind_ok by reflexivity. rewrite Hp. erewrite bind_ok by reflexivity.
  set (s1 := set_pipes _ s). assert (wake (pi_waiter pp) s1 = (Ok tt, (wake (pi_waiter pp) s1).2)) as E
    by (unfold wake; by destruct (0 <? _)).
  assert (k_chan (s_k (wake (pi_waiter pp) s1).2) = k_chan (s_k s) ∧ s_epolls (wake (pi_waiter pp) s1).2 = s_epolls s) as [Hc Hep]
    by (unfold wake; by destruct (0 <? _)).
  erewrite bind_ok by exact E. set (s2 := (wake (pi_waiter pp) s1).2) in *. clearbody s2.
  unfold on_chan, mbind, M_bind. rewrite Hc. destruct (wake_epolls_hit (pi_epoll pp) _ id w Hid Hw Hpos) as (new & Hn & Hin & Hz).
  destruct (wake_epolls (pi_epoll pp) (k_chan (s_k s))) as [kept c2]. cbn in Hn, Hz. rewrite Hn, drop_app_length.
  cbn [snd upd_pipe modify]. split_and!; [|..|exact Hep].
  - apply (enqueue_all_queued new w (with_chan c2 (s_k s2)) s2 Hin).
  - unfold waiter_of. cbn. assert (∀ k, k_chan k = c2 → k_chan (foldl (λ k q, enqueue_pid q k) k new) = c2) as Hk
      by (clear; induction new as [|q new IH]; intros k Hk; [done|]; by apply IH).
    rewrite Hk by done. by rewrite Hz.
Qed.

Lemma pwait_blocks epfd ptr max timeout new_mask now id e p s s1 :
  caller epfd ptr max id e p s → waiter_of id s ≠ k_current (s_k s) →
  sys_epoll_pwait epfd ptr max timeout new_mask now s = (Ok Block, s1) →
  let ready := λ fd interest, readiness p fd interest s in
  take (Z.to_nat max) (reports ready (ei_items e)) = [] ∧ to_isize timeout ≠ 0 ∧
  epoll_block id timeout now (set_epolls (alter (set_items (λ _, (collect ready (Z.to_nat max) (ei_items e)).2)) id (s_epolls s)) s)
    = (Ok Block, s1).
Proof.
  intros Hcall Hw Hb ready. rewrite (pwait_scan epfd ptr max id e p s Hcall) in Hb.
  destruct (decide (take (Z.to_nat max) (reports ready (ei_items e)) = [])) as [Hout|Hout];
    [destruct (decide (to_isize timeout = 0)) as [Ht|Ht]|].
  - erewrite bind_ok in Hb by (apply (scan_returns epfd ptr max id e p s Hcall Hw); by right). done.
  - erewrite bind_ok in Hb by (by apply (scan_waits epfd ptr max id e p s Hcall Hw)). done.
  - erewrite bind_ok in Hb by (apply (scan_returns epfd ptr max id e p s Hcall Hw); by left). done.
Qed.

(** What blocking changes. *)
Lemma block_effect id timeout now w s s1 : epoll_block id timeout now s = (Ok Block, s1) →
  epolls (k_chan (s_k s)) !! id = Some w →
  calm s s1 ∧ s_pipes s1 = s_pipes s ∧ s_epolls s1 = s_epolls s ∧
  epolls (k_chan (s_k s1)) !! id = Some (k_current (s_k s)) ∧
  (∀ p, proc_of (k_current (s_k s)) (s_k s) = Some p →
   proc_of (k_current (s_k s)) (s_k s1) = Some (on_tf (add_sepc (-4)) (with_state Stopped p))) ∧
  (k_regs_ok (s_k s) → k_regs_ok (s_k s1)).
Proof.
  intros Hb Hw. assert (s1 = (epoll_block id timeout now s).2) as -> by (by rewrite Hb). clear Hb.
  set (r := k_current (s_k s)). set (s1 := (epoll_block id timeout now s).2).
  assert (k_procs (s_k s1) = alter (on_tf (add_sepc (-4))) r (alter (with_state Stopped) r (k_procs (s_k s)))) as Hprocs by done.
  split_and!.
  - split; [|done|done]. intros q. rewrite Hprocs. destruct (decide (r = q)) as [<-|]; [|by rewrite !lookup_alter_ne].
    rewrite !lookup_alter_eq. by destruct (k_procs (s_k s) !! r).
  - done.
  - done.
  - change (epolls (k_chan (s_k s1))) with (alter (λ _, r) id (epolls (k_chan (s_k s)))). by rewrite lookup_alter_eq, Hw.
  - intros p Hp. unfold proc_of in *. rewrite Hprocs, !lookup_alter_eq, Hp. done.
  - intros Hr. assert (k_regs_ok (upd_proc r (on_tf (add_sepc (-4))) (upd_proc r (with_state Stopped) (s_k s)))) as H.
    { apply upd_proc_regs; [done|]. by apply upd_proc_regs. }
    unfold k_regs_ok in *. by rewrite Hprocs.
Qed.

Lemma watched_write pd pp id w fd ptr buf s s2 :
  target RIGHT_WRITE fd s = Some (KPipeWrite pd) → alive (KPipeRead pd) (s_k s) = true → k_regs_ok (s_k s) →
  s_pipes s !! pd = Some pp → id ∈ pi_epoll pp → epolls (k_chan (s_k s)) !! id = Some w → 0 < w →
  is_user_pointer_valid 1 ptr (Z.of_nat (length buf)) = true → sys_write fd ptr buf s = (Ok Return, s2) →
  queued w s2 ∧ waiter_of id s2 = 0 ∧ s_epolls s2 = s_epolls s ∧ pipe_data pd s2 = pi_data pp ++ buf ∧ calm s s2 ∧
  k_regs_ok (s_k s2) ∧ ∀ r, r ≠ k_current (s_k s) → proc_of r (s_k s2) = proc_of r (s_k s).
Proof.
  intros Ht Ha Hr Hp Hid Hw Hpos Hv E. rewrite (write_dispatch pd) in E by done. unfold pipe_write in E.
  erewrite bind_ok in E by reflexivity. rewrite Ha in E. cbn [negb] in E. erewrite bind_ok in E by reflexivity.
  set (su := set_pipes _ s) in E.
  assert (s_pipes su !! pd = Some (mkPipe (pi_data pp ++ buf) (pi_waiter pp) (pi_epoll pp))) as Hpu by (cbn; by rewrite lookup_alter_eq, Hp).
  destruct (wake_pipe_ok pd su) as (sw & Ew & [D _ R] & [P C _ _]). destruct (wake_pipe_watcher pd _ id w su Hpu Hid Hw Hpos) as (Q & W & Ee).
  pose proof (calm_wake_pipe pd su) as Cw. rewrite Ew in Q, W, Ee, Cw. cbn in Q, W, Ee, Cw. erewrite bind_ok in E by exact Ew.
  set (v := Z.of_nat (length buf)) in E. assert (s2 = (put v sw).2) as -> by (by rewrite E).
  destruct (quiet_put pd v sw) as [D2 _ R2]. pose proof (calm_put v sw) as C2. split_and!.
  - by apply (c_runq _ _ C2).
  - exact W.
  - exact Ee.
  - rewrite D2, D. unfold pipe_data. by rewrite Hpu.
  - etrans; [|exact C2]. etrans; [|exact Cw]. by split.
  - by apply R2, R.
  - intros r Hne. unfold proc_of. rewrite put_procs, C, P. by rewrite lookup_alter_ne by done.
Qed.

Lemma in_reports ready fd x l : (fd, x) ∈ l → report x (ready fd (it_events x)) ≠ 0 →
  (report x (ready fd (it_events x)), it_data x) ∈ reports ready l.
Proof.
  intros Hin Hne. apply list_elem_of_filter. split; [done|]. apply list_elem_of_fmap. by exists (fd, x).
Qed.

Lemma pipe_ready p pd fd events s : get (fds p) (wrap 32 fd) = Some (KPipeRead pd) → wants events IN_EVENTS = true →
  pipe_data pd s ≠ [] → alive (KPipeWrite pd) (s_k s) = true → readiness p fd events s = IN_EVENTS.
Proof.
  intros Hg Hw Hd Ha. unfold readiness. rewrite Hg. cbn. rewrite Hw, bool_decide_false, Ha by done. done.
Qed.

Lemma quiet_scan ready max l : take (Z.to_nat max) (reports ready l) = [] → Z.of_nat (length l) ≤ max →
  (collect ready (Z.to_nat max) l).2 = (λ x, (x.1, rescan x.2 (ready x.1 (it_events x.2)))) <$> l.
Proof.
  intros Hout Hlen. destruct l as [|y l]; [by destruct (Z.to_nat max)|]. cbn in Hlen. apply collect_items.
  destruct (Z.to_nat max) eqn:E; [lia|]. destruct (reports ready (y :: l)); [cbn; lia|done].
Qed.

(** The waiting process runs again: it finds the instance as it left it. *)
Lemma caller_again epfd ptr max id e p r s :
  proc_of r (s_k s) = Some (on_tf (add_sepc (-4)) (with_state Stopped p)) →
  get (fds p) (wrap 32 epfd) = Some (KEpoll id) → s_epolls s !! id = Some e →
  (0 < max → is_user_pointer_valid 1 ptr (wrap 64 (max * 16)) = true) → reg 14 (trap_frame p) = 0 → ei_saved_sigmask e = -1 →
  ∃ p3, caller epfd ptr max id e p3 (run_call (CRun r) s).2 ∧ fds p3 = fds p ∧ k_current (s_k (run_call (CRun r) s).2) = r.
Proof.
  intros Hp Hg He Hv Hm Hs. rewrite run_k. unfold dispatch. rewrite Hp.
  exists (on_tf (set_hartid (k_hart (s_k s))) (with_state Running (on_tf (add_sepc (-4)) (with_state Stopped p)))).
  split; [|done]. split; try done. unfold proc_of in *. cbn. by rewrite lookup_alter_eq, Hp.
Qed.

(** The state in which the process waits. *)
Lemma waiting epfd ptr max timeout new_mask now id e p s s1 :
  caller epfd ptr max id e p s → k_regs_ok (s_k s) → 0 < k_current (s_k s) → Z.of_nat (length (ei_items e)) ≤ max →
  epolls (k_chan (s_k s)) !! id = Some 0 →
  sys_epoll_pwait epfd ptr max timeout new_mask now s = (Ok Block, s1) →
  calm s s1 ∧ s_pipes s1 = s_pipes s ∧ k_regs_ok (s_k s1) ∧ epolls (k_chan (s_k s1)) !! id = Some (k_current (s_k s)) ∧
  proc_of (k_current (s_k s)) (s_k s1) = Some (on_tf (add_sepc (-4)) (with_state Stopped p)) ∧
  ∃ e1, s_epolls s1 !! id = Some e1 ∧ ei_saved_sigmask e1 = -1 ∧ length (ei_items e1) = length (ei_items e) ∧
    ∀ fd x, (fd, x) ∈ ei_items e → edge x = false → (fd, x) ∈ ei_items e1.
Proof.
  intros Hcall Hr Hr0 Hmax Hep Hwait.
  assert (waiter_of id s ≠ k_current (s_k s)) as Hw0 by (unfold waiter_of; rewrite Hep; cbn; lia).
  destruct (pwait_blocks epfd ptr max timeout new_mask now id e p s s1 Hcall Hw0 Hwait) as (Hout & Ht & Hb).
  rewrite (quiet_scan _ _ _ Hout Hmax) in Hb. set (l := _ <$> ei_items e) in Hb. destruct Hcall as [Hp Hf He Hv Hm Hs].
  destruct (block_effect id timeout now 0 _ s1 Hb Hep) as (C1 & P1 & E1 & W1 & Pr1 & R1).
  split_and!; [etrans; [|exact C1]; by split|done|auto|done|by apply Pr1|].
  exists (set_items (λ _, l) e). rewrite E1. cbn. rewrite lookup_alter_eq, He. split_and!; [done|done|unfold l; by rewrite length_fmap|].
  intros fd x Hx Hedge. apply list_elem_of_fmap. exists (fd, x). split; [|done]. cbn. unfold rescan. by rewrite Hedge.
Qed.

(** The process runs again with data in the pipe. *)
Lemma event_found epfd ptr max timeout new_mask now id e p r fd x pd s :
  proc_of r (s_k s) = Some (on_tf (add_sepc (-4)) (with_state Stopped p)) → k_regs_ok (s_k s) → 0 < r →
  get (fds p) (wrap 32 epfd) = Some (KEpoll id) → s_epolls s !! id = Some e → waiter_of id s = 0 →
  (0 < max → is_user_pointer_valid 1 ptr (wrap 64 (max * 16)) = true) → reg 14 (trap_frame p) = 0 → ei_saved_sigmask e = -1 →
  Z.of_nat (length (ei_items e)) ≤ max → (fd, x) ∈ ei_items e → edge x = false → wants (it_events x) IN_EVENTS = true →
  get (fds p) (wrap 32 fd) = Some (KPipeRead pd) → pipe_data pd s ≠ [] → alive (KPipeWrite pd) (s_k s) = true →
  let s3 := (run_call (CRun r) s).2 in
  ∃ s4 out, sys_epoll_pwait epfd ptr max timeout new_mask now s3 = (Ok Return, s4) ∧
    a0 s4 = Z.of_nat (length out) ∧ new_stores s3 s4 = concat (event_bytes <$> out) ∧ (IN_EVENTS, it_data x) ∈ out.
Proof.
  intros Hp Hr Hr0 Hf He Hw Hv Hm Hs Hmax Hx Hedge Hwants Hfd Hd Ha s3.
  destruct (caller_again epfd ptr max id e p r s Hp Hf He Hv Hm Hs) as (p3 & Hcall & Hfds & Hcur). fold s3 in Hcall, Hcur.
  assert (waiter_of id s3 = 0) as W3 by (unfold s3; rewrite run_k; unfold dispatch; by destruct (proc_of r (s_k s))).
  assert (k_regs_ok (s_k s3)) as R3 by (unfold s3; rewrite run_k; by apply run_regs).
  set (ready := λ fd interest, readiness p3 fd interest s3). set (out := take (Z.to_nat max) (reports ready (ei_items e))).
  assert ((IN_EVENTS, it_data x) ∈ out) as Hin.
  { unfold out. rewrite take_ge.
    2: { unfold reports. etrans; [apply length_filter|]. rewrite length_fmap. lia. }
    assert (report x (ready fd (it_events x)) = IN_EVENTS) as Erep.
    { unfold report, ready. rewrite Hedge. apply (pipe_ready p3 pd); [by rewrite Hfds|done|exact Hd|].
      by rewrite (calm_alive _ _ _ (calm_run r s)). }
    rewrite <-Erep. apply in_reports; [done|]. by rewrite Erep. }
  destruct (pwait_reports epfd ptr max timeout new_mask now id e p3 s3 Hcall) as (s4 & E4 & A4 & N4 & _).
  - rewrite W3, Hcur. lia.
  - exact R3.
  - left. intros Hnil. change (out = []) in Hnil. rewrite Hnil in Hin. by apply not_elem_of_nil in Hin.
  - exists s4, out. by split_and!.
Qed.

(** C27: a process that waits for input of a pipe gets it.  When it has blocked and another
    process writes to the pipe, it is in the run queue, and the call it repeats returns
    with an event for the pipe that carries the data it was registered with. *)
Theorem epoll_delivers epfd ptr max timeout new_mask now now' id e p fd x pd pp fd' ptr' buf q s s1 s2 :
  let r := k_current (s_k s) in
  caller epfd ptr max id e p s → k_regs_ok (s_k s) → 0 < r → q ≠ r → Z.of_nat (length (ei_items e)) ≤ max →
  epolls (k_chan (s_k s)) !! id = Some 0 →
  (fd, x) ∈ ei_items e → edge x = false → wants (it_events x) IN_EVENTS = true →
  get (fds p) (wrap 32 fd) = Some (KPipeRead pd) → s_pipes s !! pd = Some pp → id ∈ pi_epoll pp →
  holds q RIGHT_WRITE fd' (KPipeWrite pd) s → is_user_pointer_valid 1 ptr' (Z.of_nat (length buf)) = true → buf ≠ [] →
  sys_epoll_pwait epfd ptr max timeout new_mask now s = (Ok Block, s1) →
  sys_write fd' ptr' buf (run_call (CRun q) s1).2 = (Ok Return, s2) →
  queued r s2 ∧
  let s3 := (run_call (CRun r) s2).2 in
  ∃ s4 out, sys_epoll_pwait epfd ptr max timeout new_mask now' s3 = (Ok Return, s4) ∧
    a0 s4 = Z.of_nat (length out) ∧ new_stores s3 s4 = concat (event_bytes <$> out) ∧ (IN_EVENTS, it_data x) ∈ out.
Proof.
  intros r Hcall Hr Hr0 Hq Hmax Hep Hx Hedge Hwants Hfd Hpp Hid Hwr Hv' Hbuf Hwait Hwrite.
  destruct (waiting epfd ptr max timeout new_mask now id e p s s1 Hcall Hr Hr0 Hmax Hep Hwait)
    as (Cs1 & P1 & R1 & W1 & Pr1 & e1 & He1 & Hs1 & Hl1 & Hin1). destruct Hcall as [Hp Hf He Hv Hm Hs]. fold r in Pr1, W1.
  pose proof (calm_run q s1) as Cq. set (sq := (run_call (CRun q) s1).2) in *. assert (calm s sq) as Csq by (by etrans).
  pose proof (calm_holds _ _ _ _ _ _ Cs1 Hwr) as (t & Htq & _). pose proof (run_current q s1 t Htq) as Hcur. fold sq in Hcur.
  assert (target RIGHT_WRITE fd' sq = Some (KPipeWrite pd)) as Htarget
    by (apply target_holds; rewrite Hcur; by eapply calm_holds).
  assert (alive (KPipeRead pd) (s_k sq) = true) as Halive.
  { rewrite (calm_alive _ _ _ Csq). apply alive_iff. left. exists r, (fds p). unfold proc_of in Hp. unfold r. rewrite Hp. split; [done|].
    unfold get in Hfd. destruct (get_entry _ _) as [en|] eqn:Een; [|done]. injection Hfd as <-. by eapply get_entry_in. }
  assert (k_regs_ok (s_k sq)) as Rq by (unfold sq; rewrite run_k; by apply run_regs).
  assert (s_pipes sq !! pd = Some pp) as Hppq by (change (s_pipes sq) with (s_pipes s1); by rewrite P1).
  assert (epolls (k_chan (s_k sq)) !! id = Some r) as Wq.
  { unfold sq. rewrite run_k. unfold dispatch. by destruct (proc_of q (s_k s1)). }
  destruct (watched_write pd pp id r fd' ptr' buf sq s2 Htarget Halive Rq Hppq Hid Wq Hr0 Hv' Hwrite)
    as (Hqueued & W2 & E2 & D2 & C2 & R2 & Pr2). split; [exact Hqueued|]. rewrite Hcur in Pr2.
  apply (event_found epfd ptr max timeout new_mask now' id e1 p r fd x pd); try done.
  - rewrite Pr2 by done. unfold sq. rewrite run_k. unfold dispatch. destruct (proc_of q (s_k s1)); [|done].
    unfold proc_of in *. cbn. by rewrite lookup_alter_ne.
  - rewrite E2. exact He1.
  - by rewrite Hl1.
  - by apply Hin1.
  - rewrite D2. by destruct (pi_data pp).
  - rewrite (calm_alive _ _ _ C2), (calm_alive _ _ _ Csq). by eapply holds_alive.
Qed.
End epoll.

(** ** Behaviour on concrete states *)

Definition no_sockets : sockets := mkSockets [] ∅.

(** Process 2 watches the read end of the pipe through an instance at descriptor 6. *)
Definition demo_watch (events : Z) (data : list Z) : sys :=
  mkSys
    (with_chan (mkChan ∅ ∅ (<[8 := 0]> ∅) [] [] 12)
      (demo_kernel 2 []
        [with_fds (demo_fds [(3, KPipeRead 7); (6, KEpoll 8)]) (demo_proc 2 1 Running []);
         with_fds (demo_fds [(4, KPipeWrite 7)]) (demo_proc 3 1 Running [])]))
    (<[7 := mkPipe data 0 [8]]> ∅) ∅ (<[8 := mkEpoll [(3, mkItem events 99 0)] (-1)]> ∅) [] [] 20.

Lemma demo_watch_regs events data : k_regs_ok (s_k (demo_watch events data)).
Proof.
  intros q p Hp. change (k_procs (s_k (demo_watch events data))) with (k_procs (demo_kernel 2 []
        [with_fds (demo_fds [(3, KPipeRead 7); (6, KEpoll 8)]) (demo_proc 2 1 Running []);
         with_fds (demo_fds [(4, KPipeWrite 7)]) (demo_proc 3 1 Running [])])) in Hp.
  cbn in Hp. rewrite !lookup_insert in Hp. repeat case_decide; try done; injection Hp as <-; reflexivity.
Qed.

Definition demo_waiter : Process := with_fds (demo_fds [(3, KPipeRead 7); (6, KEpoll 8)]) (demo_proc 2 1 Running []).

Lemma demo_caller events data :
  caller 6 demo_ptr 4 8 (mkEpoll [(3, mkItem events 99 0)] (-1)) demo_waiter (demo_watch events data).
Proof. split; intros; reflexivity. Qed.

(** Between the scan and the registration of the waiter a write of another hart is not
    noticed: the waiter sleeps with data in the pipe it watches, and nothing has put it in
    the run queue. *)
Theorem epoll_lost_wakeup :
  let s0 := demo_watch EPOLLIN [] in
  let s1 := (epoll_scan no_sockets 8 demo_ptr 4 (2 ^ 64 - 1) 0 s0).2 in
  let s2 := (sys_write 4 demo_ptr [1] (run_call (CRun 3) s1).2).2 in
  let s3 := (epoll_block 8 (2 ^ 64 - 1) 0 (run_call (CRun 2) s2).2).2 in
  (epoll_scan no_sockets 8 demo_ptr 4 (2 ^ 64 - 1) 0 s0).1 = Ok None ∧
  readiness no_sockets demo_waiter 3 EPOLLIN s3 = IN_EVENTS ∧ waiter_of 8 s3 = 2 ∧
  view state 2 (s_k s3) = Some Stopped ∧ k_runq (s_k s3) = [].
Proof. split_and!; vm_compute; reflexivity. Qed.

(** The entry in the sleep queue outlives the wait that made it: a later wait without
    timeout, with nothing to report, ends with 0 when the first one's time is up. *)
Definition stale_timeout : list (outcome control * Z) :=
  let wait timeout now := sys_epoll_pwait no_sockets 6 demo_ptr 4 timeout 0 now in
  let r1 := wait 5 0 (demo_watch EPOLLIN []) in
  let r2 := sys_write 4 demo_ptr [1] (run_call (CRun 3) r1.2).2 in
  let r3 := wait 5 1000 (run_call (CRun 2) r2.2).2 in
  let r4 := sys_read 3 demo_ptr 1 r3.2 in
  let r5 := wait (2 ^ 64 - 1) 2000 r4.2 in
  let r6 := wait (2 ^ 64 - 1) 60000 (run_call (CRun 2) (set_k (wake_sleepers 60000 (s_k r5.2)) r5.2)).2 in
  [(r3.1, a0 r3.2); (r4.1, a0 r4.2); (r5.1, 0); (r6.1, a0 r6.2)].

Theorem epoll_stale_timeout :
  stale_timeout = [(Ok Return, 1); (Ok Return, 1); (Ok Block, 0); (Ok Return, 0)].
Proof. vm_compute. reflexivity. Qed.

(** An edge-triggered entry added when its descriptor is ready counts as reported: a wait
    finds nothing and blocks, where the level-triggered entry is returned. *)
Theorem epoll_edge_not_reported :
  let s0 := demo_watch EPOLLIN [1] in
  let s1 := (sys_epoll_ctl no_sockets 6 EPOLL_CTL_DEL 3 demo_ptr 0 0 s0).2 in
  let s2 := (sys_epoll_ctl no_sockets 6 EPOLL_CTL_ADD 3 demo_ptr (Z.lor EPOLLIN EPOLLET) 99 s1).2 in
  a0 s2 = 0 ∧ a0 (sys_epoll_pwait no_sockets 6 demo_ptr 4 0 0 0 s2).2 = 0 ∧
  (sys_epoll_pwait no_sockets 6 demo_ptr 4 (2 ^ 64 - 1) 0 0 s2).1 = Ok Block ∧
  a0 (sys_epoll_pwait no_sockets 6 demo_ptr 4 0 0 0 s0).2 = 1.
Proof. split_and!; vm_compute; reflexivity. Qed.

Lemma epoll_reports_witness :
  let s := demo_watch EPOLLIN [1; 2] in
  ∃ s', sys_epoll_pwait no_sockets 6 demo_ptr 4 0 0 0 s = (Ok Return, s') ∧ a0 s' = 1 ∧
    new_stores s s' = event_bytes (IN_EVENTS, 99).
Proof.
  destruct (epoll_reports no_sockets 6 demo_ptr 4 0 0 0 8 (mkEpoll [(3, mkItem EPOLLIN 99 0)] (-1)) demo_waiter
    (demo_watch EPOLLIN [1; 2])) as (s' & E & A & N & _).
  - apply demo_caller.
  - vm_compute. discriminate.
  - apply demo_watch_regs.
  - right. reflexivity.
  - exists s'. split; [exact E|]. split; [exact A|exact N].
Defined.

Lemma epoll_ctl_refines_witness :
  ∃ s' e', sys_epoll_ctl no_sockets 6 EPOLL_CTL_ADD 4 demo_ptr EPOLLOUT 5 (demo_watch EPOLLIN []) = (Ok Return, s') ∧
    s_epolls s' !! 8 = Some e' ∧ a0 s' = 0 ∧ item_get 4 (ei_items e') = Some (mkItem EPOLLOUT 5 0).
Proof.
  destruct (epoll_ctl_refines no_sockets 6 EPOLL_CTL_ADD 4 demo_ptr EPOLLOUT 5 8 (mkEpoll [(3, mkItem EPOLLIN 99 0)] (-1))
    demo_waiter (demo_watch EPOLLIN [])) as (s' & e' & E & He & _ & H).
  - reflexivity.
  - apply demo_watch_regs.
  - reflexivity.
  - reflexivity.
  - repeat constructor.
  - reflexivity.
  - exists s', e'. split; [exact E|]. split; [exact He|]. injection H as H1 H2. split; [exact H1|].
    rewrite item_get_map, H2. reflexivity.
Defined.

Lemma epoll_delivers_witness :
  let s := demo_watch EPOLLIN [] in
  let s1 := (sys_epoll_pwait no_sockets 6 demo_ptr 4 5 0 0 s).2 in
  let s2 := (sys_write 4 demo_ptr [1; 2] (run_call (CRun 3) s1).2).2 in
  let s3 := (run_call (CRun 2) s2).2 in
  queued 2 s2 ∧ ∃ s4 (out : list (Z * Z)), sys_epoll_pwait no_sockets 6 demo_ptr 4 5 0 9 s3 = (Ok Return, s4) ∧
    new_stores s3 s4 = concat (event_bytes <$> out) ∧ (IN_EVENTS, 99) ∈ out.
Proof.
  intros s s1 s2 s3.
  destruct (epoll_delivers no_sockets 6 demo_ptr 4 5 0 0 9 8 (mkEpoll [(3, mkItem EPOLLIN 99 0)] (-1)) demo_waiter
    3 (mkItem EPOLLIN 99 0) 7 (mkPipe [] 0 [8]) 4 demo_ptr [1; 2] 3 s s1 s2) as [Hq (s4 & out & E & _ & N & Hin)].
  - apply demo_caller.
  - apply demo_watch_regs.
  - reflexivity.
  - discriminate.
  - discriminate.
  - reflexivity.
  - left.
  - reflexivity.
  - reflexivity.
  - reflexivity.
  - reflexivity.
  - left.
  - eexists. split; vm_compute; reflexivity.
  - reflexivity.
  - discriminate.
  - vm_compute. reflexivity.
  - vm_compute. reflexivity.
  - split; [exact Hq|]. exists s4, out. split; [exact E|]. split; [exact N|exact Hin].
Defined.
