(* ===== verification/Trace.v ===== *)
(** * Trace points (src/trace.rs)

    The bytecode machine, the table of programs and their attachments, and the ring buffer
    that records go to.

    Section [vm] is the machine, run on a memory in which the context lies at [base]; the
    number of the instruction says which value of the clock a call reads.  A program can
    jump back, so [vm_run] has fuel: [vm_forward_terminates] says when it is enough, and
    [vm_loops_forever] that it need not be.  [vm_confined] says which memory a program
    can see.  [trace_refines] relates the tables and the ring to a list of programs and
    the log of everything recorded. *)

From Stdlib Require Import ZArith Lia.
From stdpp Require Import prelude strings.
From S2P Require Import Prelude Handle FileLock Process Lifecycle.

Local Open Scope Z_scope.

Definition NUM_TP : Z := 5.
Definition MAX_INSNS : Z := 512.
Definition MAX_PROG_ID : Z := 16.
Definition RING_SIZE : Z := 8192.

Record TraceCtx : Type := mkCtx {
  tp_id : Z; c_pid : Z; c_ts : Z; c_arg0 : Z; c_arg1 : Z; c_arg2 : Z; c_arg3 : Z; c_retval : Z;
}.

Definition ctx_words (c : TraceCtx) : list Z :=
  [tp_id c; c_pid c; c_ts c; c_arg0 c; c_arg1 c; c_arg2 c; c_arg3 c; c_retval c].
Definition ctx_bytes (c : TraceCtx) : list Z := concat (le_bytes 8 <$> ctx_words c).
Definition ctx_size : Z := 64.

(** ** Instructions *)

Definition BPF_ALU64_IMM_MOV : Z := 0xb7.
Definition BPF_ALU64_IMM_ADD : Z := 0x07.
Definition BPF_ALU64_IMM_OR : Z := 0x47.
Definition BPF_ALU64_IMM_AND : Z := 0x57.
Definition BPF_ALU64_IMM_XOR : Z := 0xa7.
Definition BPF_ALU64_IMM_LSH : Z := 0x67.
Definition BPF_ALU64_IMM_RSH : Z := 0x77.
Definition BPF_ALU64_REG_MOV : Z := 0xbf.
Definition BPF_ALU64_REG_ADD : Z := 0x0f.
Definition BPF_ALU64_REG_SUB : Z := 0x1f.
Definition BPF_ALU64_REG_AND : Z := 0x5f.
Definition BPF_ALU64_REG_OR : Z := 0x4f.
Definition BPF_ALU64_REG_XOR : Z := 0xaf.
Definition BPF_LDX_DW : Z := 0x79.
Definition BPF_JA : Z := 0x05.
Definition BPF_JEQ_IMM : Z := 0x15.
Definition BPF_JNE_IMM : Z := 0x55.
Definition BPF_JGT_IMM : Z := 0x25.
Definition BPF_JGE_IMM : Z := 0x35.
Definition BPF_JLT_IMM : Z := 0xa5.
Definition BPF_JLE_IMM : Z := 0xb5.
Definition BPF_JEQ_REG : Z := 0x1d.
Definition BPF_JNE_REG : Z := 0x5d.
Definition BPF_JGT_REG : Z := 0x2d.
Definition BPF_JGE_REG : Z := 0x3d.
Definition BPF_CALL : Z := 0x85.
Definition BPF_EXIT : Z := 0x95.

Record insn : Type := mkInsn { i_op : Z; i_dr : nat; i_sr : nat; i_off : Z; i_imm : Z }.

Definition to_i16 (x : Z) : Z := let y := wrap 16 x in if y <? 2 ^ 15 then y else y - 2 ^ 16.

Definition decode (w : Z) : insn :=
  mkInsn (Z.land w 0xFF) (Z.to_nat (Z.land (Z.shiftr w 8) 0xF)) (Z.to_nat (Z.land (Z.shiftr w 12) 0xF))
    (to_i16 (Z.shiftr w 16)) (to_i32 (Z.shiftr w 32)).

(** ** The machine *)

Section vm.
Context (mem : Z → Z) (base pid : Z) (clock : nat → Z).

(** The registers are R0 to R10; an operand beyond R9 names R9. *)
Definition dst (i : insn) (r : list Z) : Z := nth (Nat.min (i_dr i) 9) r 0.
Definition src (i : insn) (r : list Z) : Z := nth (Nat.min (i_sr i) 9) r 0.
Definition set_dst (i : insn) (x : Z) (r : list Z) : list Z := <[Nat.min (i_dr i) 9 := x]> r.
Definition imm64 (i : insn) : Z := wrap 64 (i_imm i).

Definition read_u64 (addr : Z) : Z := of_le ((λ i, mem (wrap 64 (addr + Z.of_nat i))) <$> seq 0 8).

(** The result of an arithmetic instruction. *)
Definition alu (i : insn) (r : list Z) : option Z :=
  let d := dst i r in
  let s := src i r in
  let m := imm64 i in
  let k := Z.land (wrap 32 (i_imm i)) 63 in
  let op := i_op i in
  if op =? BPF_ALU64_IMM_MOV then Some m
  else if op =? BPF_ALU64_IMM_ADD then Some (wrap 64 (d + m))
  else if op =? BPF_ALU64_IMM_OR then Some (Z.lor d m)
  else if op =? BPF_ALU64_IMM_AND then Some (Z.land d m)
  else if op =? BPF_ALU64_IMM_XOR then Some (Z.lxor d m)
  else if op =? BPF_ALU64_IMM_LSH then Some (wrap 64 (Z.shiftl d k))
  else if op =? BPF_ALU64_IMM_RSH then Some (Z.shiftr d k)
  else if op =? BPF_ALU64_REG_MOV then Some s
  else if op =? BPF_ALU64_REG_ADD then Some (wrap 64 (d + s))
  else if op =? BPF_ALU64_REG_SUB then Some (wrap 64 (d - s))
  else if op =? BPF_ALU64_REG_AND then Some (Z.land d s)
  else if op =? BPF_ALU64_REG_OR then Some (Z.lor d s)
  else if op =? BPF_ALU64_REG_XOR then Some (Z.lxor d s)
  else None.

(** Whether a jump is taken. *)
Definition jump (i : insn) (r : list Z) : option bool :=
  let d := dst i r in
  let s := src i r in
  let m := imm64 i in
  let op := i_op i in
  if op =? BPF_JA then Some true
  else if op =? BPF_JEQ_IMM then Some (d =? m)
  else if op =? BPF_JNE_IMM then Some (negb (d =? m))
  else if op =? BPF_JGT_IMM then Some (m <? d)
  else if op =? BPF_JGE_IMM then Some (m <=? d)
  else if op =? BPF_JLT_IMM then Some (d <? m)
  else if op =? BPF_JLE_IMM then Some (d <=? m)
  else if op =? BPF_JEQ_REG then Some (d =? s)
  else if op =? BPF_JNE_REG then Some (negb (d =? s))
  else if op =? BPF_JGT_REG then Some (s <? d)
  else if op =? BPF_JGE_REG then Some (s <=? d)
  else None.

Definition load_addr (i : insn) (r : list Z) : Z := wrap 64 (src i r + wrap 64 (i_off i)).
Definition in_ctx (addr : Z) : bool := (base <=? addr) && (wrap 64 (addr + 8) <=? wrap 64 (base + ctx_size)).

(** The registers after instruction number [n], for those that do not jump. *)
Definition effect (n : nat) (i : insn) (r : list Z) : list Z :=
  match alu i r with
  | Some x => set_dst i x r
  | None =>
      if i_op i =? BPF_LDX_DW then
        if in_ctx (load_addr i r) then set_dst i (read_u64 (load_addr i r)) r else r
      else if i_op i =? BPF_CALL then
        <[0%nat := if i_imm i =? 1 then pid else if i_imm i =? 2 then clock n else 0]> r
      else r
  end.

Definition next_pc (i : insn) (pc : Z) (r : list Z) : Z :=
  match jump i r with
  | Some true => pc + (i_off i + 1)
  | _ => pc + 1
  end.

Fixpoint vm_loop (fuel n : nat) (prog : list Z) (limit pc : Z) (r : list Z) : option Z :=
  if negb ((0 <=? pc) && (pc <? limit)) then Some (nth 0 r 0)
  else match fuel with
  | O => None
  | S f =>
      let i := decode (nth (Z.to_nat pc) prog 0) in
      if i_op i =? BPF_EXIT then Some (nth 0 r 0)
      else vm_loop f (S n) prog limit (next_pc i pc r) (effect n i r)
  end.

Definition start_regs : list Z := <[1%nat := base]> (replicate 11 0).
Definition prog_limit (prog : list Z) : Z := Z.min (Z.of_nat (length prog)) MAX_INSNS.

Definition vm_run (fuel : nat) (prog : list Z) : option Z := vm_loop fuel 0 prog (prog_limit prog) 0 start_regs.

(** ** Termination *)

(** Jumps lead forward. *)
Definition forward (prog : list Z) : bool :=
  forallb (λ w, match jump (decode w) [] with Some _ => 0 <=? i_off (decode w) | None => true end) prog.

Lemma jump_domain i r r' : is_Some (jump i r) → is_Some (jump i r').
Proof. unfold jump. repeat case_match; done. Qed.

Lemma forward_next prog pc r : forward prog = true → 0 ≤ pc < Z.of_nat (length prog) →
  pc < next_pc (decode (nth (Z.to_nat pc) prog 0)) pc r.
Proof.
  intros Hf Hpc. unfold next_pc. destruct (jump _ r) as [b|] eqn:Ej; [|lia]. destruct b; [|lia].
  assert (nth (Z.to_nat pc) prog 0 ∈ prog) as Hin by (apply list_elem_of_In, nth_In; lia).
  unfold forward in Hf. rewrite forallb_forall in Hf. specialize (Hf _ (proj1 (list_elem_of_In _ _) Hin)).
  destruct (jump_domain (decode (nth (Z.to_nat pc) prog 0)) r []) as [b Eb]; [by eexists|]. rewrite Eb in Hf. lia.
Qed.

Lemma vm_loop_ends prog : forward prog = true → ∀ fuel n pc r,
  0 ≤ pc → prog_limit prog - pc ≤ Z.of_nat fuel → is_Some (vm_loop fuel n prog (prog_limit prog) pc r).
Proof.
  intros Hf. assert (prog_limit prog ≤ Z.of_nat (length prog)) as Hl by (unfold prog_limit; lia).
  induction fuel as [|fuel IH]; intros n pc r H0 Hb; cbn [vm_loop];
    (destruct (Z.ltb_spec pc (prog_limit prog)); [|by rewrite andb_false_r]);
    replace (0 <=? pc) with true by lia; cbn [andb negb]; [lia|].
  destruct (_ =? BPF_EXIT); [done|].
  pose proof (forward_next prog pc r Hf ltac:(lia)). apply IH; lia.
Qed.

Lemma vm_loop_fuel prog limit v : ∀ fuel fuel' n pc r, (fuel ≤ fuel')%nat →
  vm_loop fuel n prog limit pc r = Some v → vm_loop fuel' n prog limit pc r = Some v.
Proof.
  induction fuel as [|fuel IH]; intros fuel' n pc r Hle; destruct fuel' as [|fuel']; cbn [vm_loop]; try lia;
    (destruct (negb _); [done|]); try done.
  destruct (_ =? BPF_EXIT); [done|]. apply IH. lia.
Qed.

Lemma vm_forward_ends prog : forward prog = true →
  ∃ v, ∀ fuel, (length prog ≤ fuel)%nat → vm_run fuel prog = Some v.
Proof.
  intros Hf. destruct (vm_loop_ends prog Hf (length prog) 0 0 start_regs) as [v Hv]; [lia|unfold prog_limit; lia|].
  exists v. intros fuel Hle. unfold vm_run. by eapply vm_loop_fuel.
Qed.

(** a program whose jumps lead forward ends, within as many instructions as it has. *)
Theorem vm_forward_terminates prog : forward prog = true →
  ∃ v, ∀ fuel, (length prog ≤ fuel)%nat → vm_run fuel prog = Some v.
Proof. apply vm_forward_ends. Qed.

(** A jump to itself is a program that does not end. *)
Theorem vm_loops_forever fuel : vm_run fuel [0x00000000FFFF0005] = None.
Proof.
  unfold vm_run. generalize 0%nat at 1. generalize start_regs. induction fuel as [|fuel IH]; intros r n; [done|].
  change (vm_loop fuel (S n) [0x00000000FFFF0005] 1 0 r = None). apply IH.
Qed.

End vm.

(** ** What a program sees *)

(** The context, and the bytes around the end of the address space. *)
Definition visible (base a : Z) : Prop := base ≤ a < base + ctx_size ∨ 2 ^ 64 - 8 ≤ a < 2 ^ 64 ∨ 0 ≤ a < 7.

Section confined.
Context (mem mem' : Z → Z) (base pid : Z) (clock : nat → Z).
Hypothesis base_ok : 0 ≤ base < 2 ^ 64 - ctx_size.
Hypothesis agree : ∀ a, visible base a → mem a = mem' a.

Lemma read_agrees addr : 0 ≤ addr < 2 ^ 64 → in_ctx base addr = true → read_u64 mem addr = read_u64 mem' addr.
Proof.
  intros Ha Hin. unfold read_u64. f_equal. apply list_fmap_ext. intros k x Hk. apply lookup_seq in Hk as [-> Hk].
  apply agree. unfold in_ctx in Hin. apply andb_true_iff in Hin as [H1%Z.leb_le H2%Z.leb_le].
  unfold visible, wrap, ctx_size in *. rewrite (Z.mod_small (base + 64)) in H2 by lia.
  destruct (Z.lt_ge_cases (addr + 8) (2 ^ 64)) as [Hlt|Hge].
  - left. rewrite Z.mod_small in H2 by lia. rewrite Z.mod_small by lia. lia.
  - right. destruct (Z.lt_ge_cases (addr + Z.of_nat (0 + k)) (2 ^ 64)).
    + left. rewrite Z.mod_small by lia. lia.
    + right. replace (addr + Z.of_nat (0 + k)) with (addr + Z.of_nat (0 + k) - 2 ^ 64 + 1 * 2 ^ 64) by lia.
      rewrite Z.mod_add, Z.mod_small by lia. lia.
Qed.

Lemma effect_agrees n i r : effect mem base pid clock n i r = effect mem' base pid clock n i r.
Proof.
  unfold effect. destruct (alu i r); [done|]. destruct (_ =? BPF_LDX_DW); [|done].
  destruct (in_ctx base (load_addr i r)) eqn:E; [|done]. f_equal. apply read_agrees; [|done].
  unfold load_addr, wrap. apply Z.mod_pos_bound. lia.
Qed.

Lemma loop_agrees prog limit : ∀ fuel n pc r,
  vm_loop mem base pid clock fuel n prog limit pc r = vm_loop mem' base pid clock fuel n prog limit pc r.
Proof.
  induction fuel as [|fuel IH]; intros n pc r; cbn [vm_loop]; [done|].
  destruct (negb _); [done|]. destruct (_ =? BPF_EXIT); [done|]. rewrite effect_agrees. apply IH.
Qed.

(** C29: a program sees the context, and of the rest of memory at most the bytes around the end
    of the address space, where the bounds check wraps: memories that agree there give
    the same result, or none at all, whatever the program. *)
Theorem vm_confined fuel prog : vm_run mem base pid clock fuel prog = vm_run mem' base pid clock fuel prog.
Proof. apply loop_agrees. Qed.

End confined.

(** The check of the address wraps: a program reads the last word of the address space. *)
Theorem vm_escapes :
  let prog := [0xFFFFFFF8000002b7; 0x0000000000002079; 0x0000000000000095] in
  let mem a := if a =? 2 ^ 64 - 8 then 42 else 0 in
  vm_run mem 0x80200000 7 (λ _, 0) 3 prog = Some 42.
Proof. vm_compute. reflexivity. Qed.

(** A program that records the events in which word [k] of the context is [v]. *)
Definition filter_prog (k v : Z) : list Z :=
  [Z.lor 0x1279 (Z.shiftl (8 * k) 16); 0x00000000000000b7; Z.lor 0x0000000000010255 (Z.shiftl v 32);
   0x00000001000000b7; 0x0000000000000095].

Definition ctx_at (mem : Z → Z) (base : Z) (c : TraceCtx) : Prop :=
  ∀ i b, ctx_bytes c !! i = Some b → mem (base + Z.of_nat i) = b.
Definition ctx_ok (c : TraceCtx) : Prop := Forall (λ x, 0 ≤ x < 2 ^ 64) (ctx_words c).

Lemma ctx_bytes_word c k w : ctx_words c !! k = Some w → slice (ctx_bytes c) (8 * k) 8 = le_bytes 8 w.
Proof.
  intros Hk. unfold ctx_words in Hk.
  do 8 (destruct k as [|k]; [injection Hk as <-; reflexivity|]). done.
Qed.

Lemma read_word mem base c k w : 0 ≤ base < 2 ^ 64 - ctx_size → ctx_at mem base c → ctx_ok c →
  ctx_words c !! k = Some w → read_u64 mem (base + 8 * Z.of_nat k) = w.
Proof.
  intros Hb Hat Hok Hk. unfold read_u64. pose proof (lookup_lt_Some _ _ _ Hk) as Hlt. cbn in Hlt.
  unfold ctx_ok in Hok. pose proof (proj1 (Forall_lookup _ _) Hok _ _ Hk) as Hw. cbn beta in Hw.
  rewrite <-(of_le_bytes 8 w) by exact Hw. rewrite <-(ctx_bytes_word c k w Hk). f_equal.
  apply list_eq. intros i. rewrite list_lookup_fmap. destruct (decide (i < 8)%nat) as [Hi|Hi].
  2: { rewrite !lookup_ge_None_2; [done|unfold slice; rewrite length_take; lia|rewrite length_seq; lia]. }
  rewrite lookup_seq_lt by done. cbn [fmap option_fmap option_map]. unfold slice. rewrite lookup_take_lt, lookup_drop by done.
  assert (8 * k + i < length (ctx_bytes c))%nat as Hlen by (change (length (ctx_bytes c)) with 64%nat; lia).
  apply lookup_lt_is_Some in Hlen as [b Hbi]. rewrite Hbi. f_equal. rewrite <-(Hat _ _ Hbi). f_equal.
  unfold wrap, ctx_size in *. rewrite Z.mod_small; lia.
Qed.

Local Ltac dm := Z.div_mod_to_equations; lia.

Lemma decode_imm a v : 0 ≤ a < 2 ^ 32 → 0 ≤ v < 2 ^ 31 →
  decode (Z.lor a (Z.shiftl v 32)) = mkInsn (i_op (decode a)) (i_dr (decode a)) (i_sr (decode a)) (i_off (decode a)) v.
Proof.
  intros Ha Hv. assert (Z.lor a (Z.shiftl v 32) = a + v * 2 ^ 32) as ->.
  { rewrite Z.shiftl_mul_pow2 by lia. symmetry. rewrite Z.add_nocarry_lxor; [rewrite Z.lxor_lor; [done|]|].
    all: apply Z.bits_inj'; intros n Hn; rewrite Z.land_spec, Z.bits_0, <-Z.shiftl_mul_pow2 by lia;
      destruct (Z.lt_ge_cases n 32); [rewrite Z.shiftl_spec_low by lia; apply andb_false_r|].
    all: replace a with (a mod 2 ^ 32) by (apply Z.mod_small; lia); rewrite Z.mod_pow2_bits_high by lia; done. }
  unfold decode. cbn [i_op i_dr i_sr i_off i_imm]. change 0xFF with (Z.ones 8). change 0xF with (Z.ones 4).
  rewrite !Z.land_ones, !Z.shiftr_div_pow2 by lia. unfold to_i16, to_i32, wrap.
  change (2 ^ 64) with 18446744073709551616. change (2 ^ 32) with 4294967296 in *. change (2 ^ 31) with 2147483648 in *.
  change (2 ^ 16) with 65536. change (2 ^ 12) with 4096. change (2 ^ 8) with 256. change (2 ^ 4) with 16.
  f_equal; [dm|f_equal; dm|f_equal; dm| |].
  - replace (((a + v * 4294967296) / 65536) mod 65536) with ((a / 65536) mod 65536) by dm. done.
  - replace (((a + v * 4294967296) / 4294967296) mod 4294967296) with v by dm.
    destruct (Z.ltb_spec v 2147483648); lia.
Qed.

Lemma decode_load k : (k < 8)%nat →
  decode (Z.lor 0x1279 (Z.shiftl (8 * Z.of_nat k) 16)) = mkInsn BPF_LDX_DW 2 1 (8 * Z.of_nat k) 0.
Proof. intros Hk. do 8 (destruct k as [|k]; [reflexivity|]). lia. Qed.

Lemma vm_loop_step mem base pid clock fuel n prog limit pc r i :
  0 ≤ pc < limit → decode (nth (Z.to_nat pc) prog 0) = i → i_op i ≠ BPF_EXIT →
  vm_loop mem base pid clock (S fuel) n prog limit pc r =
  vm_loop mem base pid clock fuel (S n) prog limit (next_pc i pc r) (effect mem base pid clock n i r).
Proof.
  intros Hpc Hi Hop. cbn [vm_loop]. replace ((0 <=? pc) && (pc <? limit)) with true by lia. cbn [negb]. rewrite Hi.
  destruct (Z.eqb_spec (i_op i) BPF_EXIT); done.
Qed.

(** A program that loads a word of the context and compares it gets the word as it is. *)
Theorem vm_filter mem base pid clock c k w v :
  0 ≤ base < 2 ^ 64 - ctx_size → ctx_at mem base c → ctx_ok c → ctx_words c !! k = Some w → 0 ≤ v < 2 ^ 31 →
  vm_run mem base pid clock 5 (filter_prog (Z.of_nat k) v) = Some (if w =? v then 1 else 0).
Proof.
  intros Hb Hat Hok Hk Hv. pose proof (lookup_lt_Some _ _ _ Hk) as Hlt. cbn in Hlt.
  unfold vm_run. change (prog_limit _) with 5. rewrite (vm_loop_step _ _ _ _ _ _ _ _ _ _ (mkInsn BPF_LDX_DW 2 1 (8 * Z.of_nat k) 0));
    [|lia|by apply decode_load|done].
  replace (effect _ _ _ _ _ _ _) with [0; base; w; 0; 0; 0; 0; 0; 0; 0; 0].
  2: { unfold effect. change (alu _ _) with (@None Z). cbn match. change (_ =? BPF_LDX_DW) with true. cbn match.
    assert (load_addr (mkInsn BPF_LDX_DW 2 1 (8 * Z.of_nat k) 0) (start_regs base) = base + 8 * Z.of_nat k) as ->.
    { unfold load_addr, wrap, ctx_size in *. change (src _ _) with base. cbn [i_off]. rewrite !Z.mod_small; rewrite ?Z.mod_small; lia. }
    unfold in_ctx. unfold wrap at 1 2. unfold ctx_size in *. rewrite !Z.mod_small by lia.
    replace (_ && _) with true by lia. rewrite (read_word mem base c k w); done. }
  change (next_pc _ 0 _) with 1. rewrite (vm_loop_step _ _ _ _ _ _ _ _ _ _ (decode 0xb7)); [|lia|done|done].
  change (next_pc _ 1 _) with 2. change (effect _ _ _ _ _ _ _) with [0; base; w; 0; 0; 0; 0; 0; 0; 0; 0].
  rewrite (vm_loop_step _ _ _ _ _ _ _ _ _ _ (mkInsn BPF_JNE_IMM 2 0 1 v)); [|lia|by apply (decode_imm 0x10255)|done].
  change (effect _ _ _ _ _ _ _) with [0; base; w; 0; 0; 0; 0; 0; 0; 0; 0].
  replace (next_pc _ 2 _) with (if w =? v then 3 else 4).
  2: { unfold next_pc. change (jump _ _) with (Some (negb (w =? wrap 64 v))). unfold wrap. rewrite Z.mod_small by lia. by destruct (w =? v). }
  destruct (w =? v); [|reflexivity]. rewrite (vm_loop_step _ _ _ _ _ _ _ _ _ _ (decode 0x1000000b7)); [|lia|done|done]. reflexivity.
Qed.

(** ** Programs, attachments and the ring *)

Record ring : Type := mkRing { r_buf : list Z; r_pos : Z; r_written : Z }.

Record TraceState : Type := mkTrace {
  ts_programs : list (option (list Z));
  ts_attachments : list (list Z);
  ts_ring : ring;
}.

Definition TRACE : TraceState :=
  mkTrace (replicate (Z.to_nat MAX_PROG_ID) None) (replicate (Z.to_nat NUM_TP) [])
    (mkRing (replicate (Z.to_nat RING_SIZE) 0) 0 0).

Definition put_byte (g : ring) (b : Z) : ring :=
  mkRing (<[Z.to_nat (r_pos g mod RING_SIZE) := b]> (r_buf g)) (wrap 64 (r_pos g + 1)) (r_written g).

Definition record (c : TraceCtx) : list Z := le_bytes 4 ctx_size ++ ctx_bytes c.

Definition ring_push (c : TraceCtx) (g : ring) : ring :=
  let g' := foldl put_byte g (record c) in
  mkRing (r_buf g') (r_pos g') (wrap 64 (r_written g' + (4 + ctx_size))).

Definition set_programs (x : list (option (list Z))) (s : TraceState) : TraceState :=
  mkTrace x (ts_attachments s) (ts_ring s).
Definition set_attachments (x : list (list Z)) (s : TraceState) : TraceState :=
  mkTrace (ts_programs s) x (ts_ring s).
Definition set_ring (x : ring) (s : TraceState) : TraceState :=
  mkTrace (ts_programs s) (ts_attachments s) x.

(** What a program can ask for besides its context. *)
Record world : Type := mkWorld { w_mem : Z → Z; w_base : Z; w_pid : Z; w_clock : nat → Z }.

(** [None] is a program that has not ended. *)
Fixpoint fire_all (fuel : nat) (w : world) (c : TraceCtx) (progs : list (list Z)) (s : TraceState) : option TraceState :=
  match progs with
  | [] => Some s
  | p :: ps =>
      match vm_run (w_mem w) (w_base w) (w_pid w) (w_clock w) fuel p with
      | Some ret => fire_all fuel w c ps (if ret =? 1 then set_ring (ring_push c (ts_ring s)) s else s)
      | None => None
      end
  end.

Definition fire (fuel : nat) (w : world) (tp : Z) (c : TraceCtx) (s : TraceState) : option TraceState :=
  if NUM_TP <=? tp then Some s
  else
    let prog_ids := nth (Z.to_nat tp) (ts_attachments s) [] in
    fire_all fuel w c (omap (λ id, mjoin (ts_programs s !! Z.to_nat id)) prog_ids) s.

(** [prog] is what the memory at the first argument holds. *)
Fixpoint free_slot (id : nat) (l : list (option (list Z))) : option nat :=
  match l with
  | [] => None
  | None :: _ => Some id
  | Some _ :: l' => free_slot (S id) l'
  end.

Definition sys_trace_load (prog : list Z) (s : TraceState) : Z * TraceState :=
  let n := Z.of_nat (length prog) in
  if (n =? 0) || (MAX_INSNS <? n) then (EINVAL, s)
  else match free_slot 0 (ts_programs s) with
  | Some id => (Z.of_nat id, set_programs (<[id := Some prog]> (ts_programs s)) s)
  | None => (ENOMEM, s)
  end.

Definition sys_trace_attach (tp prog_id : Z) (s : TraceState) : Z * TraceState :=
  if (NUM_TP <=? tp) || (MAX_PROG_ID <=? prog_id) then (EINVAL, s)
  else match mjoin (ts_programs s !! Z.to_nat prog_id) with
  | None => (ENOENT, s)
  | Some _ =>
      let att := nth (Z.to_nat tp) (ts_attachments s) [] in
      (0, if bool_decide (prog_id ∈ att) then s
          else set_attachments (<[Z.to_nat tp := att ++ [prog_id]]> (ts_attachments s)) s)
  end.

(** The bytes stored, as many as the result says. *)
Definition sys_trace_read (buf_len : Z) (s : TraceState) : list Z :=
  if buf_len =? 0 then []
  else
    let g := ts_ring s in
    let avail := Z.min buf_len RING_SIZE in
    let src_start := wrap 64 (r_pos g - avail) mod RING_SIZE in
    if src_start + avail <=? RING_SIZE
    then slice (r_buf g) (Z.to_nat src_start) (Z.to_nat avail)
    else
      let first := RING_SIZE - src_start in
      drop (Z.to_nat src_start) (r_buf g) ++ take (Z.to_nat (avail - first)) (r_buf g).

(** ** The ring holds the end of the log *)

Definition cap : nat := Z.to_nat RING_SIZE.

Lemma cap_Z : Z.of_nat cap = 8192.
Proof. reflexivity. Qed.

Lemma cap_pos : cap ≠ 0%nat.
Proof. discriminate. Qed.

#[local] Opaque cap.
Local Ltac ndm := pose proof cap_Z; zify; rewrite ?cap_Z in *; Z.div_mod_to_equations; lia.

(** Everything ever recorded, after the zeros the ring starts with. *)
Definition history (log : list Z) : list Z := replicate cap 0 ++ log.

Record holds_log (log : list Z) (g : ring) : Prop := {
  hl_length : length (r_buf g) = cap;
  hl_pos : r_pos g = wrap 64 (Z.of_nat (length log));
  hl_bytes i : (i < cap)%nat → r_buf g !! ((length log + i) mod cap)%nat = history log !! (length log + i)%nat;
}.

Lemma length_history log : length (history log) = (cap + length log)%nat.
Proof. unfold history. by rewrite length_app, length_replicate. Qed.

Lemma pos_index log g : holds_log log g → Z.to_nat (r_pos g mod RING_SIZE) = (length log mod cap)%nat.
Proof.
  intros [_ -> _]. unfold wrap. rewrite Z.mod_mod_divide by (by exists (2 ^ 51)).
  replace RING_SIZE with (Z.of_nat cap) by apply cap_Z. by rewrite <-Nat2Z.inj_mod, Nat2Z.id.
Qed.

Lemma mod_cap_ne a d : (0 < d < cap)%nat → (a mod cap)%nat ≠ ((a + d) mod cap)%nat.
Proof.
  intros Hd E. apply (f_equal Z.of_nat) in E. rewrite !Nat2Z.inj_mod, Nat2Z.inj_add, cap_Z in E.
  pose proof cap_Z. Z.div_mod_to_equations. lia.
Qed.

Lemma put_byte_log log g b : holds_log log g → holds_log (log ++ [b]) (put_byte g b).
Proof.
  intros H. pose proof (pos_index log g H) as Hi. destruct H as [Hl Hp Hb]. split; cbn [put_byte r_buf r_pos].
  - by rewrite length_insert.
  - rewrite Hp, length_app. cbn [length]. unfold wrap. rewrite Nat2Z.inj_add, Zplus_mod_idemp_l. done.
  - intros i Hlt. rewrite Hi, length_app. cbn [length]. unfold history in *. rewrite app_assoc.
    destruct (decide (i = cap - 1)%nat) as [->|Hne].
    + replace (length log + 1 + (cap - 1))%nat with (length log + 1 * cap)%nat by ndm. rewrite Nat.Div0.mod_add.
      assert (length log mod cap < length (r_buf g))%nat as Hm by (rewrite Hl; apply Nat.mod_upper_bound, cap_pos).
      rewrite (list_lookup_insert_eq (r_buf g) _ b Hm).
      rewrite lookup_app_r by (rewrite length_app, length_replicate; ndm).
      rewrite length_app, length_replicate. by replace (_ - _)%nat with 0%nat by ndm.
    + replace (length log + 1 + i)%nat with (length log + (i + 1))%nat by lia.
      rewrite list_lookup_insert_ne by (apply mod_cap_ne; ndm).
      rewrite lookup_app_l by (rewrite length_app, length_replicate; ndm).
      apply Hb. ndm.
Qed.

Lemma ring_push_log log c g : holds_log log g → holds_log (log ++ record c) (ring_push c g).
Proof.
  intros H. assert (∀ l log g, holds_log log g → holds_log (log ++ l) (foldl put_byte g l)) as Hf.
  { clear. induction l as [|b l IH]; intros log g H; [by rewrite app_nil_r|].
    change (log ++ b :: l) with (log ++ [b] ++ l). rewrite app_assoc. by apply IH, put_byte_log. }
  unfold ring_push. specialize (Hf (record c) log g H). revert Hf. generalize (record c). intros l [H1 H2 H3].
  split; [exact H1|exact H2|exact H3].
Qed.

Lemma mod_cap_add a k : (k < cap)%nat → ((a + k) mod cap)%nat = (if decide (a mod cap + k < cap) then a mod cap + k else a mod cap + k - cap)%nat.
Proof.
  intros Hk. apply Nat2Z.inj. pose proof cap_Z as Hc. rewrite Nat2Z.inj_mod, Nat2Z.inj_add, cap_Z.
  pose proof (Nat.mod_upper_bound a cap cap_pos). pose proof (Nat2Z.inj_mod a cap) as Hm. rewrite cap_Z in Hm.
  case_decide; Z.div_mod_to_equations; lia.
Qed.

(** The byte [k] places into the last [a] of the log. *)
Lemma window_lookup log g a k : holds_log log g → (k < a ≤ cap)%nat →
  let st := ((length log + (cap - a)) mod cap)%nat in
  drop (length (history log) - a) (history log) !! k =
  (if decide (st + k < cap)%nat then r_buf g !! (st + k)%nat else r_buf g !! (st + k - cap)%nat).
Proof.
  intros [_ _ Hb] Hk st. rewrite lookup_drop, length_history.
  replace (cap + length log - a + k)%nat with (length log + (cap - a + k))%nat by lia.
  rewrite <-Hb by lia. rewrite Nat.add_assoc, mod_cap_add by lia. fold st. by case_decide.
Qed.

Lemma window_length log a : (a ≤ cap)%nat → length (drop (length (history log) - a) (history log)) = a.
Proof. intros Ha. rewrite length_drop, length_history. lia. Qed.

Lemma list_eq_length {A} (l l' : list A) : length l = length l' →
  (∀ k, (k < length l)%nat → l !! k = l' !! k) → l = l'.
Proof.
  intros Hl Hk. apply list_eq. intros k. destruct (decide (k < length l)%nat); [auto|].
  rewrite !lookup_ge_None_2 by lia. done.
Qed.

Lemma ring_window log g a : holds_log log g → (a ≤ cap)%nat →
  let st := ((length log + (cap - a)) mod cap)%nat in
  (if decide (st + a ≤ cap)%nat then slice (r_buf g) st a else drop st (r_buf g) ++ take (a - (cap - st)) (r_buf g)) =
  drop (length (history log) - a) (history log).
Proof.
  intros H Ha st. pose proof (hl_length _ _ H) as Hl. pose proof (Nat.mod_upper_bound (length log + (cap - a)) cap cap_pos) as Hst.
  fold st in Hst. apply list_eq_length.
  - rewrite window_length by done. case_decide; [apply length_slice; lia|]. rewrite length_app, length_drop, length_take. lia.
  - intros k Hk. assert (k < a)%nat as Hka.
    { revert Hk. case_decide; [rewrite length_slice; lia|]. rewrite length_app, length_drop, length_take. lia. }
    rewrite (window_lookup log g a k H) by lia. fold st. destruct (decide (st + a ≤ cap)%nat).
    + rewrite decide_True by lia. unfold slice. by rewrite lookup_take_lt, lookup_drop.
    + case_decide as Hd.
      * rewrite lookup_app_l by (rewrite length_drop; lia). by rewrite lookup_drop.
      * rewrite lookup_app_r by (rewrite length_drop; lia). rewrite length_drop, lookup_take_lt by lia. f_equal. lia.
Qed.

Lemma trace_read_log log n s : holds_log log (ts_ring s) → 0 ≤ n →
  sys_trace_read n s = drop (length (history log) - Z.to_nat (Z.min n RING_SIZE)) (history log).
Proof.
  intros H Hn. unfold sys_trace_read. destruct (Z.eqb_spec n 0) as [->|Hn0].
  { rewrite drop_ge; [done|]. change (Z.to_nat _) with 0%nat. lia. }
  set (a := Z.to_nat (Z.min n RING_SIZE)). assert (Z.min n RING_SIZE = Z.of_nat a) as -> by (unfold a, RING_SIZE; lia).
  assert (a ≤ cap)%nat as Ha by (pose proof cap_Z; unfold a, RING_SIZE; lia).
  rewrite <-(ring_window log (ts_ring s) a H Ha). set (st := ((length log + (cap - a)) mod cap)%nat).
  assert (wrap 64 (r_pos (ts_ring s) - Z.of_nat a) mod RING_SIZE = Z.of_nat st) as ->.
  { unfold wrap. rewrite (hl_pos _ _ H). unfold wrap. rewrite Zminus_mod_idemp_l, Z.mod_mod_divide by (by exists (2 ^ 51)).
    unfold st. rewrite Nat2Z.inj_mod. pose proof cap_Z as Hc. rewrite Hc. change RING_SIZE with 8192.
    replace (Z.of_nat (length log + (cap - a))) with (Z.of_nat (length log) - Z.of_nat a + 1 * 8192) by lia. by rewrite Z.mod_add. }
  replace RING_SIZE with (Z.of_nat cap) by apply cap_Z. pose proof (Nat.mod_upper_bound (length log + (cap - a)) cap cap_pos) as Hst. fold st in Hst.
  destruct (Z.leb_spec (Z.of_nat st + Z.of_nat a) (Z.of_nat cap)), (decide (st + a ≤ cap)%nat); try lia; rewrite ?Nat2Z.id; [done|].
  do 2 f_equal. lia.
Qed.

(** ** What the calls promise *)

(** Programs in the order they were loaded, what is attached to each point, everything recorded. *)
Record trace_abs : Type := mkAbs { ta_programs : list (list Z); ta_attached : list (list Z); ta_log : list Z }.

Inductive tcall : Type :=
  | TLoad (prog : list Z)
  | TAttach (tp id : Z)
  | TFire (w : world) (tp : Z) (c : TraceCtx)
  | TRead (n : Z).

Definition tcall_ok (t : tcall) : Prop :=
  match t with
  | TLoad prog => forward prog = true
  | TAttach tp id => 0 ≤ tp ∧ 0 ≤ id
  | TFire _ tp _ => 0 ≤ tp
  | TRead n => 0 ≤ n
  end.

Definition trace_step (fuel : nat) (t : tcall) (s : TraceState) : option (list Z * TraceState) :=
  match t with
  | TLoad prog => let '(z, s') := sys_trace_load prog s in Some ([z], s')
  | TAttach tp id => let '(z, s') := sys_trace_attach tp id s in Some ([z], s')
  | TFire w tp c => match fire fuel w tp c s with Some s' => Some ([], s') | None => None end
  | TRead n => Some (sys_trace_read n s, s)
  end.

(** What a program says of an event. *)
Definition selects (w : world) (p : list Z) : bool :=
  bool_decide (vm_run (w_mem w) (w_base w) (w_pid w) (w_clock w) (length p) p = Some 1).

Definition abs_step (t : tcall) (a : trace_abs) : list Z * trace_abs :=
  match t with
  | TLoad prog =>
      if (length prog =? 0)%nat || (512 <? length prog)%nat then ([EINVAL], a)
      else if (length (ta_programs a) <? 16)%nat
      then ([Z.of_nat (length (ta_programs a))], mkAbs (ta_programs a ++ [prog]) (ta_attached a) (ta_log a))
      else ([ENOMEM], a)
  | TAttach tp id =>
      if (5 <=? tp) || (16 <=? id) then ([EINVAL], a)
      else if (Z.of_nat (length (ta_programs a)) <=? id) then ([ENOENT], a)
      else
        let att := nth (Z.to_nat tp) (ta_attached a) [] in
        ([0], if bool_decide (id ∈ att) then a
              else mkAbs (ta_programs a) (<[Z.to_nat tp := att ++ [id]]> (ta_attached a)) (ta_log a))
  | TFire w tp c =>
      if 5 <=? tp then ([], a)
      else
        let ps := omap (λ id, ta_programs a !! Z.to_nat id) (nth (Z.to_nat tp) (ta_attached a) []) in
        ([], mkAbs (ta_programs a) (ta_attached a)
               (ta_log a ++ concat ((λ p, if selects w p then record c else []) <$> ps)))
  | TRead n => (drop (length (history (ta_log a)) - Z.to_nat (Z.min n 8192)) (history (ta_log a)), a)
  end.

Record trace_rel (s : TraceState) (a : trace_abs) : Prop := {
  tr_programs : ts_programs s = (Some <$> ta_programs a) ++ replicate (16 - length (ta_programs a)) None;
  tr_count : (length (ta_programs a) ≤ 16)%nat;
  tr_forward : Forall (λ p, forward p = true ∧ (length p ≤ 512)%nat) (ta_programs a);
  tr_attached : ts_attachments s = ta_attached a;
  tr_log : holds_log (ta_log a) (ts_ring s);
}.

Lemma slot_lookup {A} (l : list A) n i : mjoin (((Some <$> l) ++ replicate n None) !! i) = l !! i.
Proof.
  destruct (decide (i < length l)%nat) as [Hi|Hi].
  - rewrite lookup_app_l by (by rewrite length_fmap). rewrite list_lookup_fmap. by destruct (l !! i).
  - rewrite (lookup_ge_None_2 l) by lia. rewrite lookup_app_r by (rewrite length_fmap; lia).
    destruct (replicate n None !! _) as [x|] eqn:E; [|done]. by apply lookup_replicate in E as [-> _].
Qed.

Lemma free_slot_app l n id : free_slot id ((Some <$> l) ++ replicate n None) =
  match n with O => None | S _ => Some (id + length l)%nat end.
Proof.
  revert id. induction l as [|p l IH]; intros id; cbn [fmap list_fmap app free_slot length].
  - destruct n; [done|]. cbn. f_equal. lia.
  - rewrite IH. destruct n; [done|]. f_equal. lia.
Qed.

Lemma load_slot {A} (l : list A) n x :
  <[length l := Some x]> ((Some <$> l) ++ replicate (S n) None) = (Some <$> (l ++ [x])) ++ replicate n None.
Proof.
  rewrite <-(length_fmap Some l) at 1. replace (length (Some <$> l)) with (length (Some <$> l) + 0)%nat by lia.
  rewrite insert_app_r. cbn [insert list_insert replicate]. by rewrite fmap_app, <-app_assoc.
Qed.

Lemma selected fuel w p : forward p = true → (length p ≤ fuel)%nat →
  ∃ v, vm_run (w_mem w) (w_base w) (w_pid w) (w_clock w) fuel p = Some v ∧ selects w p = (v =? 1).
Proof.
  intros Hf Hle. destruct (vm_forward_ends (w_mem w) (w_base w) (w_pid w) (w_clock w) p Hf) as [v Hv]. exists v.
  split; [by apply Hv|]. unfold selects. rewrite Hv by done. case_bool_decide as E; [injection E as ->; done|].
  destruct (Z.eqb_spec v 1); [subst; done|done].
Qed.

Lemma fire_all_log fuel w c : (512 ≤ fuel)%nat → ∀ ps s log,
  Forall (λ p, forward p = true ∧ (length p ≤ 512)%nat) ps → holds_log log (ts_ring s) →
  ∃ g, fire_all fuel w c ps s = Some (set_ring g s) ∧
    holds_log (log ++ concat ((λ p, if selects w p then record c else []) <$> ps)) g.
Proof.
  intros Hfuel. induction ps as [|p ps IH]; intros s log Hps Hlog; cbn [fire_all fmap list_fmap concat].
  - exists (ts_ring s). rewrite app_nil_r. by destruct s.
  - apply Forall_cons in Hps as [[Hf Hl] Hps]. destruct (selected fuel w p Hf ltac:(lia)) as (v & -> & ->).
    destruct (v =? 1).
    + destruct (IH (set_ring (ring_push c (ts_ring s)) s) (log ++ record c) Hps) as (g & E & Hg); [by apply ring_push_log|].
      exists g. rewrite E. split; [done|]. by rewrite app_assoc.
    + by apply IH.
Qed.

Lemma load_rel s a prog : trace_rel s a → forward prog = true →
  ∃ s', trace_step 0 (TLoad prog) s = Some ((abs_step (TLoad prog) a).1, s') ∧ trace_rel s' (abs_step (TLoad prog) a).2.
Proof.
  intros [Hp Hc Hf Ha Hl] Hprog. cbn [trace_step abs_step]. unfold sys_trace_load.
  replace ((Z.of_nat (length prog) =? 0) || (MAX_INSNS <? Z.of_nat (length prog)))
    with ((length prog =? 0)%nat || (512 <? length prog)%nat).
  2: { unfold MAX_INSNS. destruct (Nat.eqb_spec (length prog) 0), (Nat.ltb_spec 512 (length prog)),
         (Z.eqb_spec (Z.of_nat (length prog)) 0), (Z.ltb_spec 512 (Z.of_nat (length prog))); try done; lia. }
  destruct ((length prog =? 0)%nat || _) eqn:El; [by exists s|].
  rewrite Hp, free_slot_app. destruct (Nat.ltb_spec (length (ta_programs a)) 16) as [Hlt|Hge].
  - destruct (16 - length (ta_programs a))%nat as [|n] eqn:En; [lia|]. rewrite Nat.add_0_l, load_slot. eexists. split; [done|].
    split; cbn [ts_programs set_programs ta_programs ts_attachments ta_attached ts_ring ta_log fst snd]; [| | |done..].
    + rewrite length_app. cbn [length]. by replace (16 - (length (ta_programs a) + 1))%nat with n by lia.
    + rewrite length_app. cbn [length]. lia.
    + apply Forall_app. split; [done|]. constructor; [|done]. split; [done|].
      apply orb_false_iff in El as [_ El]. by apply Nat.ltb_ge in El.
  - replace (16 - length (ta_programs a))%nat with 0%nat by lia. by exists s.
Qed.

Lemma attach_rel s a tp id : trace_rel s a → 0 ≤ tp ∧ 0 ≤ id →
  ∃ s', trace_step 0 (TAttach tp id) s = Some ((abs_step (TAttach tp id) a).1, s') ∧ trace_rel s' (abs_step (TAttach tp id) a).2.
Proof.
  intros H [Htp Hid]. pose proof H as [Hp Hc Hf Ha Hl]. cbn [trace_step abs_step]. unfold sys_trace_attach.
  change NUM_TP with 5. change MAX_PROG_ID with 16. destruct ((5 <=? tp) || (16 <=? id)); [by exists s|].
  rewrite Hp, slot_lookup, Ha. destruct (Z.leb_spec (Z.of_nat (length (ta_programs a))) id) as [Hle|Hlt].
  - rewrite lookup_ge_None_2 by lia. by exists s.
  - destruct (lookup_lt_is_Some_2 (ta_programs a) (Z.to_nat id)) as [x ->]; [lia|].
    case_bool_decide; [by exists s|]. eexists. split; [done|]. split; [exact Hp|exact Hc|exact Hf|done|exact Hl].
Qed.

Lemma fire_rel fuel s a w tp c : (512 ≤ fuel)%nat → trace_rel s a →
  ∃ s', trace_step fuel (TFire w tp c) s = Some ((abs_step (TFire w tp c) a).1, s') ∧ trace_rel s' (abs_step (TFire w tp c) a).2.
Proof.
  intros Hfuel H. pose proof H as [Hp Hc Hf Ha Hl]. cbn [trace_step abs_step]. unfold fire. change NUM_TP with 5.
  destruct (5 <=? tp); [by exists s|]. rewrite Ha, Hp. set (ids := nth _ (ta_attached a) []).
  replace (omap _ ids) with (omap (λ id, ta_programs a !! Z.to_nat id) ids).
  2: { apply list_omap_ext, Forall_Forall2_diag, Forall_true. intros x. by rewrite slot_lookup. }
  destruct (fire_all_log fuel w c Hfuel (omap (λ id, ta_programs a !! Z.to_nat id) ids) s (ta_log a)) as (g & -> & Hg); [|exact Hl|].
  - apply Forall_forall. intros p Hin. apply list_elem_of_omap in Hin as (id & _ & Hid). exact (Forall_lookup_1 _ _ _ _ Hf Hid).
  - eexists. split; [done|]. split; [exact Hp|exact Hc|exact Hf|exact Ha|exact Hg].
Qed.

Lemma step_rel fuel t s a : (512 ≤ fuel)%nat → trace_rel s a → tcall_ok t →
  ∃ s', trace_step fuel t s = Some ((abs_step t a).1, s') ∧ trace_rel s' (abs_step t a).2.
Proof.
  intros Hfuel H Hok. destruct t.
  - by apply load_rel.
  - by apply attach_rel.
  - by apply fire_rel.
  - exists s. split; [|done]. cbn [trace_step abs_step fst]. rewrite (trace_read_log (ta_log a)); [done|apply H|exact Hok].
Qed.

Fixpoint trace_calls (fuel : nat) (ts : list tcall) (s : TraceState) : option (list (list Z)) :=
  match ts with
  | [] => Some []
  | t :: ts' =>
      match trace_step fuel t s with
      | Some (r, s') => match trace_calls fuel ts' s' with Some rs => Some (r :: rs) | None => None end
      | None => None
      end
  end.
Fixpoint abs_calls (ts : list tcall) (a : trace_abs) : list (list Z) :=
  match ts with
  | [] => []
  | t :: ts' => let '(r, a') := abs_step t a in r :: abs_calls ts' a'
  end.

Definition abs_start : trace_abs := mkAbs [] (replicate 5 []) [].

Lemma start_rel : trace_rel TRACE abs_start.
Proof.
  split; [done|cbn; lia|constructor|done|]. split; [done|done|]. intros i Hi. cbn [length abs_start ta_log Nat.add].
  unfold history. rewrite app_nil_r, Nat.mod_small by done. done.
Qed.

(** C28: tables, machine and ring together.  Over any sequence of calls that load programs
    with forward jumps, attach them, fire trace points and read the ring, every call
    returns, and what it answers is what [abs_step] says of a list of programs and the
    log of everything recorded: programs are numbered in the order of loading, an event is
    recorded once for each attached program that selects it, in the order of attachment,
    and a read gives the end of the log, as far as the ring and the buffer hold it. *)
Theorem trace_refines fuel ts : (512 ≤ fuel)%nat → Forall tcall_ok ts →
  trace_calls fuel ts TRACE = Some (abs_calls ts abs_start).
Proof.
  intros Hfuel Hts. generalize start_rel. generalize TRACE, abs_start.
  induction Hts as [|t ts Ht _ IH]; intros s a H; [done|]. cbn [trace_calls abs_calls].
  destruct (step_rel fuel t s a Hfuel H Ht) as (s' & -> & H'). destruct (abs_step t a) as [r a']. cbn in *. by rewrite (IH _ _ H').
Qed.

(** ** Behaviour on concrete states *)

(** The wrapper of the user library passes the program where the kernel expects the trace
    point: program 0, the only one loaded, is not attached to trace point 3. *)
Definition trace_attach (handle tp : Z) (s : TraceState) : Z * TraceState := sys_trace_attach handle tp s.

Theorem trace_attach_swapped :
  let s := (sys_trace_load [0x95] TRACE).2 in
  (trace_attach 0 3 s).1 = ENOENT ∧ (sys_trace_attach 3 0 s).1 = 0.
Proof. split; vm_compute; reflexivity. Qed.

(** A read of a ring nothing was recorded in returns as many bytes as it was asked for. *)
Theorem trace_read_unwritten : sys_trace_read 4 TRACE = [0; 0; 0; 0].
Proof. vm_compute. reflexivity. Qed.

Definition demo_ctx : TraceCtx := mkCtx 3 7 100 1 2 3 4 0.
Definition demo_world : world :=
  mkWorld (λ a, nth (Z.to_nat (a - 4096)) (ctx_bytes demo_ctx) 0) 4096 7 (λ _, 0).

Lemma vm_forward_terminates_witness :
  ∃ v, ∀ fuel, (5 ≤ fuel)%nat → vm_run (w_mem demo_world) 4096 7 (λ _, 0) fuel (filter_prog 0 3) = Some v.
Proof. apply (vm_forward_terminates (w_mem demo_world) 4096 7 (λ _, 0) (filter_prog 0 3)). reflexivity. Defined.

Lemma vm_confined_witness :
  vm_run (λ a, if a =? 9 then 1 else 0) 4096 7 (λ _, 0) 9 (filter_prog 0 3) = vm_run (λ _, 0) 4096 7 (λ _, 0) 9 (filter_prog 0 3).
Proof.
  apply vm_confined.
  - unfold ctx_size. lia.
  - intros a Ha. unfold visible, ctx_size in Ha. destruct (Z.eqb_spec a 9); [lia|reflexivity].
Defined.

Lemma trace_refines_witness :
  trace_calls 512 [TLoad (filter_prog 0 3); TLoad [0x95]; TAttach 3 1; TAttach 3 0; TFire demo_world 3 demo_ctx; TRead 68] TRACE =
  Some [[0]; [1]; [0]; [0]; []; record demo_ctx].
Proof.
  rewrite (trace_refines 512); [vm_compute; reflexivity|lia|].
  repeat constructor; discriminate.
Defined.
