(* ===== verification/Inflate.v ===== *)
(** * Decompression in the package manager (user/pkg/src/gzip.rs)

    The bit reader, the Huffman trees, the two output sinks behind the trait
    [InflateOut] (a growing vector, and a ring buffer that streams to a file
    descriptor) and the DEFLATE decoder that is generic in the sink.  [None] of the
    source is [Err]; an index out of bounds is [Panic].  Every loop of the decoder
    reads at least one bit per turn, so the number of bits left is enough fuel. *)

From Stdlib Require Import ZArith Lia.
From stdpp Require Import prelude list strings.
From S2P Require Import Prelude.
Local Open Scope Z_scope.

(** ** The bit reader *)

Record BitReader : Type := mkReader { br_data : list Z; br_pos : nat; br_bit : nat }.

Definition new_reader (data : list Z) : BitReader := mkReader data 0 0.

Definition none {S A} : M S A := fail "None".
Definition out_of_bounds {S A} : M S A := panic "index out of bounds".
Definition no_fuel {S A} : M S A := panic "no fuel".

Definition read_bit : M BitReader Z := λ r,
  match br_data r !! br_pos r with
  | None => (Err "None", r)
  | Some b =>
      (Ok (Z.land (Z.shiftr b (Z.of_nat (br_bit r))) 1),
       if (S (br_bit r) =? 8)%nat then mkReader (br_data r) (S (br_pos r)) 0
       else mkReader (br_data r) (br_pos r) (S (br_bit r)))
  end.

Fixpoint read_bits_from (i n : nat) (val : Z) : M BitReader Z :=
  match n with
  | O => mret val
  | S n' => bit ← read_bit; read_bits_from (S i) n' (Z.lor val (Z.shiftl bit (Z.of_nat i)))
  end.
Definition read_bits (n : Z) : M BitReader Z := read_bits_from 0 (Z.to_nat n) 0.

Definition read_byte : M BitReader Z := λ r,
  if (br_bit r =? 0)%nat then
    match br_data r !! br_pos r with
    | None => (Err "None", r)
    | Some b => (Ok b, mkReader (br_data r) (S (br_pos r)) 0)
    end
  else read_bits 8 r.

Definition read_u16_le : M BitReader Z :=
  lo ← read_byte; hi ← read_byte; mret (Z.lor lo (Z.shiftl hi 8)).

Definition byte_align : M BitReader unit := modify (λ r,
  if (br_bit r =? 0)%nat then r else mkReader (br_data r) (S (br_pos r)) 0).

(** What is left to read: the fuel of the decoder's loops. *)
Definition bits_left (r : BitReader) : nat := 8 * (length (br_data r) - br_pos r) - br_bit r.

(** ** Huffman trees *)

Abbreviation nodes := (list (Z * Z)).
Definition max_len : Z := 15.

Definition child (n : Z * Z) (bit : bool) : Z := if bit then n.2 else n.1.
Definition set_child (bit : bool) (v : Z) (n : Z * Z) : Z * Z :=
  if bit then (n.1, v) else (v, n.2).

Definition bl_count (lengths : list Z) : list Z :=
  <[0%nat := 0]> (foldl (λ c l, if l <=? max_len then alter (Z.add 1) (Z.to_nat l) c else c)
                    (replicate 16 0) lengths).

(** The [u16]s wrap, as they do in the release build. *)
Definition next_codes (count : list Z) : list Z :=
  (foldl (λ '(codes, code) bits,
     let code' := wrap 16 (Z.shiftl (wrap 16 (code + default 0 (count !! (bits - 1)%nat))) 1) in
     (<[bits := code']> codes, code')) (replicate 16 0, 0) (seq 1 15)).1.

(** The path of the low [b] bits of [c] from node [idx], made where it is missing;
    a tree has at most [288 * 15 + 1] nodes, which an [i16] holds. *)
Fixpoint insert_path (b : nat) (c : Z) (idx : nat) (t : nodes) : nat * nodes :=
  match b with
  | O => (idx, t)
  | S b' =>
      let bit := Z.testbit c (Z.of_nat b') in
      let ch := child (default (-1, -1) (t !! idx)) bit in
      if ch <? 0
      then insert_path b' c (length t)
             (alter (set_child bit (Z.of_nat (length t))) idx (t ++ [(-1, -1)]))
      else insert_path b' c (Z.to_nat ch) t
  end.

Definition insert_symbol (symbol len c : Z) (t : nodes) : nodes :=
  let '(idx, t') := insert_path (Z.to_nat len) c 0 t in
  <[idx := (- (symbol + 1), - (symbol + 1))]> t'.

(** The loop over the symbols, with the next code of each length. *)
Fixpoint build_from (symbol : Z) (lengths codes : list Z) (t : nodes) : nodes :=
  match lengths with
  | [] => t
  | len :: rest =>
      if (len =? 0) || (max_len <? len) then build_from (symbol + 1) rest codes t
      else
        let c := default 0 (codes !! Z.to_nat len) in
        build_from (symbol + 1) rest (<[Z.to_nat len := wrap 16 (c + 1)]> codes)
          (insert_symbol symbol len c t)
  end.

Definition build (lengths : list Z) : nodes :=
  build_from 0 lengths (next_codes (bl_count lengths)) [(-1, -1)].

Fixpoint decode_from (fuel : nat) (t : nodes) (idx : nat) : M BitReader Z :=
  match fuel with
  | O => no_fuel
  | S fuel' =>
      bit ← read_bit;
      match t !! idx with
      | None => out_of_bounds
      | Some n =>
          let ch := child n (negb (bit =? 0)) in
          if ch <? 0 then mret (- (ch + 1)) else decode_from fuel' t (Z.to_nat ch)
      end
  end.
Definition decode (t : nodes) : M BitReader Z := λ r, decode_from (S (bits_left r)) t 0 r.

(** ** Output sinks *)

Class InflateOut (O : Type) : Type := {
  push_byte : Z → O → O;
  copy_backref : Z → Z → O → bool * O;
}.

#[global] Instance vec_out : InflateOut (list Z) := {|
  push_byte b v := v ++ [b];
  copy_backref dist len v :=
    if (dist =? 0) || (Z.of_nat (length v) <? dist) then (false, v)
    else
      let copy_start := (length v - Z.to_nat dist)%nat in
      (true, foldl (λ v i, v ++ [default 0 (v !! (copy_start + i)%nat)]) v (seq 0 (Z.to_nat len)))
|}.

Definition RING_SIZE : Z := 32768.
Definition OUT_BUF_SIZE : Z := 4096.

(** [written] is what went to the file descriptor, write by write. *)
Record StreamWriter : Type := mkWriter {
  ring : list Z; total : Z; fd : Z; out_buf : list Z; out_pos : nat; written : list Z }.

Definition new_writer (fd : Z) : StreamWriter :=
  mkWriter (replicate (Z.to_nat RING_SIZE) 0) 0 fd (replicate (Z.to_nat OUT_BUF_SIZE) 0) 0 [].

Definition flush (w : StreamWriter) : StreamWriter :=
  if (0 <? out_pos w)%nat
  then mkWriter (ring w) (total w) (fd w) (out_buf w) 0 (written w ++ take (out_pos w) (out_buf w))
  else w.

Definition ring_index (i : Z) : nat := Z.to_nat (Z.land i (RING_SIZE - 1)).

Definition stream_push (b : Z) (w : StreamWriter) : StreamWriter :=
  let w' := mkWriter (<[ring_index (total w) := b]> (ring w)) (total w + 1) (fd w)
              (<[out_pos w := b]> (out_buf w)) (S (out_pos w)) (written w) in
  if Z.of_nat (out_pos w') =? OUT_BUF_SIZE then flush w' else w'.

#[global] Instance stream_out : InflateOut StreamWriter := {|
  push_byte := stream_push;
  copy_backref dist len w :=
    if (dist =? 0) || (total w <? dist) then (false, w)
    else (true, foldl (λ w _, stream_push (default 0 (ring w !! ring_index (total w - dist))) w)
                  w (seq 0 (Z.to_nat len)))
|}.

Definition finish (w : StreamWriter) : Z * StreamWriter := (total w, flush w).

(** ** The decoder *)

Definition LEN_BASE : list Z :=
  [3;4;5;6;7;8;9;10;11;13;15;17;19;23;27;31;35;43;51;59;67;83;99;115;131;163;195;227;258].
Definition LEN_EXTRA : list Z :=
  [0;0;0;0;0;0;0;0;1;1;1;1;2;2;2;2;3;3;3;3;4;4;4;4;5;5;5;5;0].
Definition DIST_BASE : list Z :=
  [1;2;3;4;5;7;9;13;17;25;33;49;65;97;129;193;257;385;513;769;1025;1537;2049;3073;4097;6145;8193;
   12289;16385;24577].
Definition DIST_EXTRA : list Z :=
  [0;0;0;0;1;1;2;2;3;3;4;4;5;5;6;6;7;7;8;8;9;9;10;10;11;11;12;12;13;13].

Definition index {S} (l : list Z) (i : Z) : M S Z :=
  match l !! Z.to_nat i with Some x => mret x | None => out_of_bounds end.

Section decoder.
Context {O : Type} `{InflateOut O}.

Definition on_reader {A} (c : M BitReader A) : M (BitReader * O) A := λ '(r, o),
  let '(x, r') := c r in (x, (r', o)).
Definition on_out (f : O → O) : M (BitReader * O) unit := modify (λ '(r, o), (r, f o)).
Definition backref (dist len : Z) : M (BitReader * O) bool := λ '(r, o),
  let '(b, o') := copy_backref dist len o in (Ok b, (r, o')).

(** The length and the distance of a match, from the symbol of the length. *)
Definition read_match (dist_tree : nodes) (idx : Z) : M (BitReader * O) (Z * Z) :=
  base ← index LEN_BASE idx;
  extra ← index LEN_EXTRA idx;
  ebits ← on_reader (read_bits extra);
  dist_sym ← on_reader (decode dist_tree);
  dbase ← index DIST_BASE dist_sym;
  dextra ← index DIST_EXTRA dist_sym;
  dbits ← on_reader (read_bits dextra);
  mret (base + ebits, dbase + dbits).

Fixpoint decode_block (fuel : nat) (lit_tree dist_tree : nodes) : M (BitReader * O) unit :=
  match fuel with
  | 0%nat => no_fuel
  | S fuel' =>
      sym ← on_reader (decode lit_tree);
      if sym <? 256 then on_out (push_byte (wrap 8 sym)) ;; decode_block fuel' lit_tree dist_tree
      else if sym =? 256 then mret tt
      else if sym <=? 285 then
        ld ← read_match dist_tree (sym - 257);
        ok ← backref ld.2 ld.1;
        if (ok : bool) then decode_block fuel' lit_tree dist_tree else none
      else decode_block fuel' lit_tree dist_tree
  end.

Definition stored_block : M (BitReader * O) unit :=
  on_reader byte_align ;;
  len ← on_reader read_u16_le;
  nlen ← on_reader read_u16_le;
  if negb (len =? 65535 - nlen) then none
  else for_each (seq 0 (Z.to_nat len)) (λ _, b ← on_reader read_byte; on_out (push_byte b)).

Definition fixed_lit_lengths : list Z :=
  replicate 144 8 ++ replicate 112 9 ++ replicate 24 7 ++ replicate 8 8.
Definition fixed_dist_lengths : list Z := replicate 32 5.

Definition cl_order : list nat := [16; 17; 18; 0; 8; 7; 9; 6; 10; 5; 11; 4; 12; 3; 13; 2; 14; 1; 15]%nat.

Fixpoint read_cl_lengths (order : list nat) (cl : list Z) : M (BitReader * O) (list Z) :=
  match order with
  | [] => mret cl
  | i :: order' => l ← on_reader (read_bits 3); read_cl_lengths order' (<[i := l]> cl)
  end.

Fixpoint read_lengths (fuel : nat) (total : nat) (cl_tree : nodes) (lengths : list Z)
    : M (BitReader * O) (list Z) :=
  if (total <=? length lengths)%nat then mret lengths else
  match fuel with
  | 0%nat => no_fuel
  | S fuel' =>
      sym ← on_reader (decode cl_tree);
      if sym <? 16 then read_lengths fuel' total cl_tree (lengths ++ [sym])
      else if sym =? 16 then
        x ← on_reader (read_bits 2);
        read_lengths fuel' total cl_tree
          (lengths ++ replicate (Z.to_nat (x + 3)) (default 0 (last lengths)))
      else if sym =? 17 then
        x ← on_reader (read_bits 3);
        read_lengths fuel' total cl_tree (lengths ++ replicate (Z.to_nat (x + 3)) 0)
      else if sym =? 18 then
        x ← on_reader (read_bits 7);
        read_lengths fuel' total cl_tree (lengths ++ replicate (Z.to_nat (x + 11)) 0)
      else read_lengths fuel' total cl_tree lengths
  end.

(** A zeroed array of length [n] that starts with [l]. *)
Definition padded (n : nat) (l : list Z) : list Z := take n (l ++ replicate n 0).

(** The two code tables in front of a block of type 2. *)
Definition dynamic_tables (fuel : nat) : M (BitReader * O) (nodes * nodes) :=
  hl ← on_reader (read_bits 5);
  hd ← on_reader (read_bits 5);
  hc ← on_reader (read_bits 4);
  let hlit := Z.to_nat (hl + 257) in
  let hdist := Z.to_nat (hd + 1) in
  cl ← read_cl_lengths (take (Z.to_nat (hc + 4)) cl_order) (replicate 19 0);
  lengths ← read_lengths fuel (hlit + hdist) (build cl) [];
  mret (build (padded 288 (take hlit lengths)), build (padded 32 (drop hlit lengths))).

Fixpoint inflate_loop (fuel : nat) : M (BitReader * O) unit :=
  match fuel with
  | 0%nat => no_fuel
  | S fuel' =>
      bfinal ← on_reader read_bit;
      btype ← on_reader (read_bits 2);
      (if btype =? 0 then stored_block
       else if btype =? 1 then
         decode_block fuel' (build fixed_lit_lengths) (build fixed_dist_lengths)
       else if btype =? 2 then
         ts ← dynamic_tables fuel'; decode_block fuel' ts.1 ts.2
       else none) ;;
      if negb (bfinal =? 0) then mret tt else inflate_loop fuel'
  end.

Definition inflate_to (data : list Z) (o : O) : outcome unit * O :=
  let r := new_reader data in
  let '(x, (_, o')) := inflate_loop (S (bits_left r)) (r, o) in (x, o').
End decoder.

(** ** The gzip container *)

Definition byte_at (data : list Z) (i : nat) : outcome Z :=
  match data !! i with Some b => Ok b | None => Panic "index out of bounds" end.

(** [while data[pos] != 0 { pos += 1; } pos += 1]; every turn moves on, so the
    length of the data is enough fuel. *)
Fixpoint skip_string (fuel : nat) (data : list Z) (pos : nat) : outcome nat :=
  match fuel with
  | O => Panic "index out of bounds"
  | S fuel' =>
      match byte_at data pos with
      | Ok b => if b =? 0 then Ok (S pos) else skip_string fuel' data (S pos)
      | Err e => Err e
      | Panic w => Panic w
      end
  end.

Definition then_ {A B} (x : outcome A) (f : A → outcome B) : outcome B :=
  match x with Ok a => f a | Err e => Err e | Panic w => Panic w end.

Definition flag (flg : Z) (n : Z) : bool := Z.testbit flg n.

Definition skip_gzip_header (data : list Z) : outcome nat :=
  let byte i := default 0 (data !! i) in
  let n := length data in
  if (n <? 18)%nat then Err "None"
  else if negb (byte 0%nat =? 0x1f) || negb (byte 1%nat =? 0x8b) || negb (byte 2%nat =? 8)
  then Err "None"
  else
    let flg := byte 3%nat in
    then_ (if flag flg 2 then
             then_ (byte_at data 10) (λ lo, then_ (byte_at data 11) (λ hi,
               Ok (12 + Z.to_nat (lo + 256 * hi))%nat))
           else Ok 10%nat) (λ pos1,
    then_ (if flag flg 3 then skip_string (S n) data pos1 else Ok pos1) (λ pos2,
    then_ (if flag flg 4 then skip_string (S n) data pos2 else Ok pos2) (λ pos3,
    let pos4 := if flag flg 1 then (pos3 + 2)%nat else pos3 in
    if (n <? pos4 + 8)%nat then Err "None" else Ok pos4))).

Definition body (data : list Z) (pos : nat) : list Z := drop pos (take (length data - 8) data).

Definition gunzip (data : list Z) : outcome (list Z) :=
  then_ (skip_gzip_header data) (λ pos,
    let '(x, v) := inflate_to (body data pos) [] in then_ x (λ _, Ok v)).

(** The count of bytes and the final state of the writer. *)
Definition gunzip_to_fd (data : list Z) (fd : Z) : outcome Z * StreamWriter :=
  match skip_gzip_header data with
  | Ok pos =>
      let '(x, w) := inflate_to (body data pos) (new_writer fd) in
      match x with
      | Ok _ => let '(n, w') := finish w in (Ok n, w')
      | Err e => (Err e, w)
      | Panic e => (Panic e, w)
      end
  | Err e => (Err e, new_writer fd)
  | Panic e => (Panic e, new_writer fd)
  end.

(** ** Bits *)

Lemma read_bit_bound (r r' : BitReader) (x : Z) : read_bit r = (Ok x, r') → 0 ≤ x < 2.
Proof.
  unfold read_bit. destruct (br_data r !! br_pos r) as [b|]; [|done]. intros [= <- _].
  change 1 with (Z.ones 1). rewrite Z.land_ones by lia. apply Z.mod_pos_bound. lia.
Qed.

Lemma lor_shiftl_bound (v x : Z) (i : nat) :
  0 ≤ v < 2 ^ Z.of_nat i → 0 ≤ x < 2 → 0 ≤ Z.lor v (Z.shiftl x (Z.of_nat i)) < 2 ^ Z.of_nat (S i).
Proof.
  intros Hv Hx. pose proof (Z.pow_pos_nonneg 2 (Z.of_nat i)).
  apply lor_bound; [| |lia]; rewrite Nat2Z.inj_succ, Z.pow_succ_r by lia; [lia|].
  rewrite Z.shiftl_mul_pow2 by lia. assert (x = 0 ∨ x = 1) as [-> | ->] by lia; lia.
Qed.

Lemma read_bits_from_bound (i n : nat) (v x : Z) (r r' : BitReader) :
  0 ≤ v < 2 ^ Z.of_nat i → read_bits_from i n v r = (Ok x, r') → 0 ≤ x < 2 ^ Z.of_nat (i + n).
Proof.
  revert i v r. induction n as [|n IH]; intros i v r Hv Hrun.
  - injection Hrun as <- <-. by rewrite Nat.add_0_r.
  - apply bind_ok_inv in Hrun as (b & r1 & Hb & Hrun).
    replace (i + S n)%nat with (S i + n)%nat by lia.
    eapply IH; [|exact Hrun]. apply lor_shiftl_bound; [done|]. by eapply read_bit_bound.
Qed.

Lemma read_bits_bound (n x : Z) (r r' : BitReader) :
  0 ≤ n → read_bits n r = (Ok x, r') → 0 ≤ x < 2 ^ n.
Proof.
  intros Hn Hrun. apply (read_bits_from_bound 0) in Hrun; [|simpl; lia].
  by rewrite Nat.add_0_l, Z2Nat.id in Hrun.
Qed.

(** ** The streaming sink refines the vector

    The ring holds the last [RING_SIZE] bytes of the output, and what was written
    followed by the buffer is the output. *)

Record sink_rel (v : list Z) (w : StreamWriter) : Prop := mkSinkRel {
  rel_total : total w = Z.of_nat (length v);
  rel_ring_len : length (ring w) = Z.to_nat RING_SIZE;
  rel_ring i : Z.of_nat (length v) - RING_SIZE ≤ Z.of_nat i → (i < length v)%nat →
    ring w !! ring_index (Z.of_nat i) = v !! i;
  rel_buf_len : length (out_buf w) = Z.to_nat OUT_BUF_SIZE;
  rel_pos : (out_pos w < Z.to_nat OUT_BUF_SIZE)%nat;
  rel_written : written w ++ take (out_pos w) (out_buf w) = v;
}.

Lemma ring_index_mod (i : Z) : ring_index i = Z.to_nat (i mod RING_SIZE).
Proof.
  unfold ring_index, RING_SIZE. change (32768 - 1) with (Z.ones 15).
  by rewrite Z.land_ones by lia.
Qed.

Lemma ring_index_lt (i : Z) : (ring_index i < Z.to_nat RING_SIZE)%nat.
Proof.
  rewrite ring_index_mod. pose proof (Z.mod_pos_bound i RING_SIZE ltac:(done)).
  unfold RING_SIZE in *. lia.
Qed.

Lemma ring_index_ne (i j : Z) : i < j → j < i + RING_SIZE → ring_index j ≠ ring_index i.
Proof.
  rewrite !ring_index_mod. intros H1 H2 Heq.
  pose proof (Z.mod_pos_bound i RING_SIZE ltac:(done)).
  pose proof (Z.mod_pos_bound j RING_SIZE ltac:(done)).
  assert (j mod RING_SIZE = i mod RING_SIZE) as Hm by (unfold RING_SIZE in *; lia).
  pose proof (Z.div_mod i RING_SIZE ltac:(done)). pose proof (Z.div_mod j RING_SIZE ltac:(done)).
  unfold RING_SIZE in *. lia.
Qed.

Lemma new_writer_rel (d : Z) : sink_rel [] (new_writer d).
Proof.
  split; cbn [ring total out_buf out_pos written new_writer length];
    rewrite ?length_replicate; try done; [lia|unfold OUT_BUF_SIZE; lia].
Qed.

Lemma flush_rel (v : list Z) (w : StreamWriter) :
  total w = Z.of_nat (length v) → length (ring w) = Z.to_nat RING_SIZE →
  (∀ i, Z.of_nat (length v) - RING_SIZE ≤ Z.of_nat i → (i < length v)%nat →
    ring w !! ring_index (Z.of_nat i) = v !! i) →
  length (out_buf w) = Z.to_nat OUT_BUF_SIZE → (0 < out_pos w)%nat →
  written w ++ take (out_pos w) (out_buf w) = v → sink_rel v (flush w).
Proof.
  intros Ht Hl Hr Hb Hp Hw. unfold flush. rewrite (proj2 (Nat.ltb_lt _ _) Hp).
  split; simpl; try done; [unfold OUT_BUF_SIZE; lia|]. by rewrite app_nil_r.
Qed.

Lemma push_rel (v : list Z) (w : StreamWriter) (b : Z) :
  sink_rel v w → sink_rel (v ++ [b]) (stream_push b w).
Proof.
  intros [Ht Hl Hr Hb Hp Hw].
  set (w' := mkWriter (<[ring_index (total w) := b]> (ring w)) (total w + 1) (fd w)
              (<[out_pos w := b]> (out_buf w)) (S (out_pos w)) (written w)).
  assert (total w' = Z.of_nat (length (v ++ [b]))) as Ht'.
  { simpl. rewrite Ht, length_app. simpl. lia. }
  assert (length (ring w') = Z.to_nat RING_SIZE) as Hl' by (simpl; by rewrite length_insert).
  assert (∀ i, Z.of_nat (length (v ++ [b])) - RING_SIZE ≤ Z.of_nat i → (i < length (v ++ [b]))%nat →
    ring w' !! ring_index (Z.of_nat i) = (v ++ [b]) !! i) as Hr'.
  { intros i. rewrite length_app. simpl. intros Hi1 Hi2.
    destruct (decide (i = length v)) as [->|Hne].
    - rewrite Ht, list_lookup_insert_eq by (rewrite Hl; apply ring_index_lt).
      by rewrite lookup_app_r, Nat.sub_diag by lia.
    - rewrite list_lookup_insert_ne by (rewrite Ht; apply ring_index_ne; lia).
      rewrite lookup_app_l by lia. apply Hr; lia. }
  assert (length (out_buf w') = Z.to_nat OUT_BUF_SIZE) as Hb' by (simpl; by rewrite length_insert).
  assert (written w' ++ take (out_pos w') (out_buf w') = v ++ [b]) as Hw'.
  { simpl. rewrite (take_S_r _ _ b) by (apply list_lookup_insert_eq; lia).
    rewrite take_insert_ge, app_assoc, Hw by lia. done. }
  unfold stream_push. fold w'. case_match eqn:Hfull.
  - apply flush_rel; try done. simpl. lia.
  - split; try done. apply Z.eqb_neq in Hfull. unfold w' in Hfull |- *. cbn [out_pos] in *.
    unfold OUT_BUF_SIZE in *. lia.
Qed.

Lemma vec_copy_eq (start d n i : nat) (v : list Z) :
  (start + d + i = length v)%nat →
  foldl (λ v j, v ++ [default 0 (v !! (start + j)%nat)]) v (seq i n) =
  foldl (λ v _, v ++ [default 0 (v !! (length v - d)%nat)]) v (seq i n).
Proof.
  revert i v. induction n as [|n IH]; intros i v Hl; [done|]. simpl.
  replace (length v - d)%nat with (start + i)%nat by lia.
  apply IH. rewrite length_app. simpl. lia.
Qed.

Lemma copy_loop_rel (dist : Z) (n i : nat) (v : list Z) (w : StreamWriter) :
  0 < dist ≤ RING_SIZE → dist ≤ Z.of_nat (length v) → sink_rel v w →
  sink_rel (foldl (λ v _, v ++ [default 0 (v !! (length v - Z.to_nat dist)%nat)]) v (seq i n))
    (foldl (λ w _, stream_push (default 0 (ring w !! ring_index (total w - dist))) w) w (seq i n)).
Proof.
  intros Hd. revert i v w. induction n as [|n IH]; intros i v w Hle Hrel; [done|]. simpl.
  apply IH; [rewrite length_app; simpl; lia|].
  replace (ring w !! ring_index (total w - dist)) with (v !! (length v - Z.to_nat dist)%nat).
  - by apply push_rel.
  - rewrite (rel_total _ _ Hrel).
    replace (Z.of_nat (length v) - dist) with (Z.of_nat (length v - Z.to_nat dist)) by lia.
    symmetry. apply (rel_ring _ _ Hrel); lia.
Qed.

Lemma copy_rel (dist len : Z) (v : list Z) (w : StreamWriter) :
  0 ≤ dist ≤ RING_SIZE → sink_rel v w →
  (copy_backref dist len v).1 = (copy_backref dist len w).1 ∧
  sink_rel (copy_backref dist len v).2 (copy_backref dist len w).2.
Proof.
  intros Hd Hrel. simpl. rewrite (rel_total _ _ Hrel).
  destruct (_ || _) eqn:Hg; [done|]. split; [done|]. simpl.
  apply orb_false_iff in Hg as [H0%Z.eqb_neq Hle%Z.ltb_ge].
  rewrite (vec_copy_eq _ (Z.to_nat dist)) by lia. apply copy_loop_rel; [lia|lia|done].
Qed.

(** Two runs of the decoder, one per sink, in step; [P] is what is known of the
    values they return. *)
Definition sim {A} (P : A → Prop) (c1 : M (BitReader * list Z) A)
    (c2 : M (BitReader * StreamWriter) A) : Prop :=
  ∀ r v w, sink_rel v w →
    (c1 (r, v)).1 = (c2 (r, w)).1 ∧ (c1 (r, v)).2.1 = (c2 (r, w)).2.1 ∧
    sink_rel (c1 (r, v)).2.2 (c2 (r, w)).2.2 ∧
    ∀ a, (c1 (r, v)).1 = Ok a → P a.

Create HintDb sim.

Lemma sim_bind {A B} (P : A → Prop) (Q : B → Prop) c1 c2 (f1 : A → M _ B) (f2 : A → M _ B) :
  sim P c1 c2 → (∀ a, P a → sim Q (f1 a) (f2 a)) → sim Q (c1 ≫= f1) (c2 ≫= f2).
Proof.
  intros Hc Hf r v w Hrel. destruct (Hc r v w Hrel) as (H1 & H2 & H3 & H4).
  unfold mbind, M_bind. destruct (c1 (r, v)) as [x [r1 v1]], (c2 (r, w)) as [x' [r1' w1]].
  simpl in *. subst x' r1'. destruct x as [a|e|e]; [by apply Hf; [apply H4|]|by split_and!..].
Qed.

Lemma sim_ret {A} (P : A → Prop) (a : A) : P a → sim P (mret a) (mret a).
Proof. intros Ha r v w Hrel. split_and!; try done. by intros ? [= <-]. Qed.

Lemma sim_fail {A} (P : A → Prop) : sim P none none.
Proof. by intros r v w Hrel. Qed.
Lemma sim_no_fuel {A} (P : A → Prop) : sim P no_fuel no_fuel.
Proof. by intros r v w Hrel. Qed.
Lemma sim_oob {A} (P : A → Prop) : sim P out_of_bounds out_of_bounds.
Proof. by intros r v w Hrel. Qed.

Lemma sim_reader {A} (P : A → Prop) (c : M BitReader A) :
  (∀ r r' a, c r = (Ok a, r') → P a) → sim P (on_reader c) (on_reader c).
Proof.
  intros HP r v w Hrel. simpl. destruct (c r) as [x r'] eqn:Hc. split_and!; try done.
  simpl. intros a ->. by eapply HP.
Qed.

Lemma sim_push (P : unit → Prop) (b : Z) : P tt → sim P (on_out (push_byte b)) (on_out (push_byte b)).
Proof. intros HP r v w Hrel. split_and!; try done; [by apply push_rel|]. by intros []. Qed.

Lemma sim_backref (dist len : Z) :
  0 ≤ dist ≤ RING_SIZE → sim (λ _, True) (backref dist len) (backref dist len).
Proof.
  intros Hd r v w Hrel. unfold backref. destruct (copy_rel dist len v w Hd Hrel) as [H1 H2].
  destruct (copy_backref dist len v), (copy_backref dist len w). simpl in *. subst. done.
Qed.

Lemma sim_index (P : Z → Prop) (l : list Z) (i : Z) :
  (∀ x, l !! Z.to_nat i = Some x → P x) → sim P (index l i) (index l i).
Proof.
  intros HP. unfold index. destruct (l !! Z.to_nat i) as [x|]; [by apply sim_ret, HP|apply sim_oob].
Qed.

Lemma sim_for_each {A} (l : list A) f1 f2 :
  (∀ a, sim (λ _, True) (f1 a) (f2 a)) → sim (λ _, True) (for_each l f1) (for_each l f2).
Proof.
  intros Hf. induction l as [|a l IH]; [by apply sim_ret|]. simpl.
  by eapply sim_bind; [apply Hf|intros].
Qed.

#[export] Hint Resolve sim_ret sim_fail sim_no_fuel sim_oob sim_push I : sim.

(** Step through two copies of the same code. *)
Ltac sim_step :=
  match goal with
  | |- sim _ (if ?b then _ else _) (if ?b then _ else _) => destruct b
  | |- sim _ (_ ≫= _) (_ ≫= _) => apply (sim_bind (λ _, True)); [|intros ? _]
  | |- sim _ (on_reader _) (on_reader _) => apply sim_reader; done
  | |- sim _ (for_each _ _) (for_each _ _) => apply sim_for_each; intros ?
  | |- sim _ _ _ => solve [auto with sim]
  end.

Lemma dist_bound (i : nat) (b e : Z) :
  DIST_BASE !! i = Some b → DIST_EXTRA !! i = Some e → 0 ≤ e ∧ 0 ≤ b ∧ b + 2 ^ e - 1 ≤ RING_SIZE.
Proof.
  intros Hb He. assert (i < 30)%nat as Hi by (apply lookup_lt_Some in Hb; exact Hb).
  do 30 (destruct i as [|i]; [injection Hb as <-; injection He as <-; vm_compute;
    split_and!; discriminate|]). lia.
Qed.

Lemma sim_read_match (t : nodes) (idx : Z) :
  sim (λ ld, 0 ≤ ld.2 ≤ RING_SIZE) (read_match t idx) (read_match t idx).
Proof.
  unfold read_match.
  eapply (sim_bind (λ _, True)); [by apply sim_index|intros ? _].
  eapply (sim_bind (λ _, True)); [by apply sim_index|intros ? _].
  eapply (sim_bind (λ _, True)); [by apply sim_reader|intros ? _].
  eapply (sim_bind (λ _, True)); [by apply sim_reader|intros sym _].
  apply (sim_bind (λ b, DIST_BASE !! Z.to_nat sym = Some b)); [apply sim_index; done|].
  intros b Hb. apply (sim_bind (λ e, DIST_EXTRA !! Z.to_nat sym = Some e)); [apply sim_index; done|].
  intros e He. destruct (dist_bound _ _ _ Hb He) as (H1 & H2 & H3).
  apply (sim_bind (λ x, 0 ≤ x < 2 ^ e)).
  - apply sim_reader. intros r r' x. by apply read_bits_bound.
  - intros x Hx. apply sim_ret. simpl. lia.
Qed.

Lemma sim_decode_block (fuel : nat) (lt dt : nodes) :
  sim (λ _, True) (decode_block fuel lt dt) (decode_block fuel lt dt).
Proof.
  induction fuel as [|fuel IH]; [apply sim_no_fuel|]. cbn [decode_block].
  sim_step; [sim_step|].
  destruct (_ <? 256); [by repeat sim_step|]. destruct (_ =? 256); [sim_step|].
  destruct (_ <=? 285); [|done].
  eapply sim_bind; [apply sim_read_match|]. intros ld Hld.
  apply (sim_bind (λ _, True)); [by apply sim_backref|]. intros [] _; [done|sim_step].
Qed.

Lemma sim_stored : sim (λ _, True) stored_block stored_block.
Proof. unfold stored_block. repeat sim_step. Qed.

Lemma sim_read_cl (order : list nat) (cl : list Z) :
  sim (λ _, True) (read_cl_lengths order cl) (read_cl_lengths order cl).
Proof. revert cl. induction order as [|i order IH]; intros cl; cbn [read_cl_lengths]; repeat sim_step. Qed.

Lemma sim_read_lengths (fuel n : nat) (t : nodes) (l : list Z) :
  sim (λ _, True) (read_lengths fuel n t l) (read_lengths fuel n t l).
Proof.
  revert l. induction fuel as [|fuel IH]; intros l; cbn [read_lengths]; repeat sim_step; apply IH.
Qed.

Lemma sim_dynamic (fuel : nat) : sim (λ _, True) (dynamic_tables fuel) (dynamic_tables fuel).
Proof.
  unfold dynamic_tables. repeat sim_step; [apply sim_read_cl|apply sim_read_lengths].
Qed.

Lemma sim_inflate_loop (fuel : nat) : sim (λ _, True) (inflate_loop fuel) (inflate_loop fuel).
Proof.
  induction fuel as [|fuel IH]; [apply sim_no_fuel|]. cbn [inflate_loop]. repeat sim_step; try done.
  - apply sim_stored.
  - apply sim_decode_block.
  - apply sim_dynamic.
  - apply sim_decode_block.
Qed.

(** C15: decompressing to a file descriptor through the 32 KiB ring and the 4 KiB
    buffer gives what decompressing into memory gives: the same failures, and on
    success the same bytes, all of them written, and their number. *)
Theorem gunzip_to_fd_refines (data : list Z) (d : Z) :
  match gunzip data with
  | Ok v => (gunzip_to_fd data d).1 = Ok (Z.of_nat (length v)) ∧
            written (gunzip_to_fd data d).2 = v
  | Err e => (gunzip_to_fd data d).1 = Err e
  | Panic w => (gunzip_to_fd data d).1 = Panic w
  end.
Proof.
  unfold gunzip, gunzip_to_fd. destruct (skip_gzip_header data) as [pos|e|e]; [|done..]. simpl.
  unfold inflate_to. set (r := new_reader (body data pos)).
  destruct (sim_inflate_loop (S (bits_left r)) r [] (new_writer d) (new_writer_rel d))
    as (H1 & _ & H3 & _).
  destruct (inflate_loop _ (r, [])) as [x [r1 v]], (inflate_loop _ (r, new_writer d)) as [x' [r2 w]].
  cbn [fst snd] in *. subst x'. destruct x as [[]|e|e]; [|done..]. simpl. split.
  - by rewrite (rel_total _ _ H3).
  - pose proof (rel_written _ _ H3) as Hw. unfold flush. case_match eqn:Hp; [done|].
    apply Nat.ltb_ge in Hp. replace (out_pos w) with 0%nat in Hw by lia. simpl in Hw.
    by rewrite app_nil_r in Hw.
Qed.

(** ** Termination *)

Definition reader_ok (r : BitReader) : Prop := (br_bit r < 8)%nat.

(** [c], started with less than [f] bits left, does not run out of fuel and reads at
    least [n] bits when it returns. *)
Definition reads {S A} (rd : S → BitReader) (f n : nat) (c : M S A) : Prop :=
  ∀ s, reader_ok (rd s) → (bits_left (rd s) < f)%nat →
    (c s).1 ≠ Panic "no fuel" ∧
    ∀ a, (c s).1 = Ok a → reader_ok (rd (c s).2) ∧ (bits_left (rd (c s).2) + n ≤ bits_left (rd s))%nat.

Section reads.
Context {S : Type} (rd : S → BitReader).

Lemma reads_bind {A B} (f n m : nat) (c : M S A) (k : A → M S B) :
  reads rd f n c → (∀ a, reads rd (f - n) m (k a)) → reads rd f (n + m) (c ≫= k).
Proof.
  intros Hc Hk s Hok Hf. destruct (Hc s Hok Hf) as [H1 H2]. unfold mbind, M_bind.
  destruct (c s) as [[a|e|e] s']; simpl in *.
  - destruct (H2 a eq_refl) as [H3 H4]. destruct (Hk a s' H3 ltac:(lia)) as [H5 H6].
    split; [done|]. intros b Hb. destruct (H6 b Hb). split; [done|lia].
  - by split.
  - split; [by intros [= ->]|by intros].
Qed.

Lemma reads_weaken {A} (f f' n n' : nat) (c : M S A) :
  (f ≤ f')%nat → (n' ≤ n)%nat → reads rd f' n c → reads rd f n' c.
Proof.
  intros Hf Hn Hc s Hok Hl. destruct (Hc s Hok ltac:(lia)) as [H1 H2]. split; [done|].
  intros a Ha. destruct (H2 a Ha). split; [done|lia].
Qed.

Lemma reads_ret {A} (f : nat) (a : A) : reads rd f 0 (mret a).
Proof. intros s Hok _. split; [done|]. intros a' [= <-]. simpl. split; [done|lia]. Qed.
Lemma reads_none {A} (f n : nat) : reads rd f n (none : M S A).
Proof. intros s _ _. by split. Qed.
Lemma reads_oob {A} (f n : nat) : reads rd f n (out_of_bounds : M S A).
Proof. intros s _ _. by split. Qed.
Lemma reads_no_fuel {A} (n : nat) : reads rd 0 n (no_fuel : M S A).
Proof. intros s _ Hl. lia. Qed.
Lemma reads_index (f : nat) (l : list Z) (i : Z) : reads rd f 0 (index l i).
Proof. unfold index. destruct (l !! Z.to_nat i); [apply reads_ret|apply reads_oob]. Qed.

Lemma reads_skip {A B} (f n m : nat) (c : M S A) (k : A → M S B) :
  reads rd f n c → (∀ a, reads rd f m (k a)) → reads rd f m (c ≫= k).
Proof.
  intros Hc Hk. apply (reads_weaken f f (n + m)); [lia|lia|].
  apply reads_bind; [done|]. intros a. apply (reads_weaken _ f m); [lia|lia|apply Hk].
Qed.

Lemma reads_for_each {A} (f : nat) (l : list A) (g : A → M S unit) :
  (∀ a, reads rd f 0 (g a)) → reads rd f 0 (for_each l g).
Proof.
  intros Hg. induction l as [|a l IH]; [apply reads_ret|].
  simpl. by apply (reads_skip f 0 0).
Qed.
End reads.

Lemma read_bit_reads (f : nat) : reads id f 1 read_bit.
Proof.
  intros r Hok _. unfold read_bit, id, reader_ok, bits_left in *.
  destruct (br_data r !! br_pos r) as [b|] eqn:Hb; [|done]. split; [done|]. intros a _.
  apply lookup_lt_Some in Hb. simpl. case_match eqn:He; simpl.
  - apply Nat.eqb_eq in He. lia.
  - apply Nat.eqb_neq in He. lia.
Qed.

Lemma read_bits_from_reads (f i n : nat) (v : Z) : reads id f n (read_bits_from i n v).
Proof.
  revert f i v. induction n as [|n IH]; intros f i v; [apply reads_ret|].
  apply (reads_bind id f 1 n); [apply read_bit_reads|]. intros a. apply IH.
Qed.

Lemma read_bits_reads (f : nat) (n : Z) : reads id f 0 (read_bits n).
Proof. apply (reads_weaken id f f (Z.to_nat n)); [lia|lia|apply read_bits_from_reads]. Qed.

Lemma read_byte_reads (f : nat) : reads id f 0 read_byte.
Proof.
  intros r Hok Hl. unfold read_byte. case_match eqn:H0.
  - apply Nat.eqb_eq in H0. destruct (br_data r !! br_pos r) as [b|] eqn:Hb; [|done].
    split; [done|]. intros a _. unfold reader_ok, bits_left, id in *. simpl. lia.
  - by apply (read_bits_reads f 8).
Qed.

Lemma read_u16_reads (f : nat) : reads id f 0 read_u16_le.
Proof.
  unfold read_u16_le. eapply reads_skip; [apply read_byte_reads|]. intros lo.
  eapply reads_skip; [apply read_byte_reads|]. intros hi. apply reads_ret.
Qed.

Lemma byte_align_reads (f : nat) : reads id f 0 byte_align.
Proof.
  intros r Hok _. split; [done|]. intros a _. unfold byte_align, modify. simpl.
  unfold reader_ok, bits_left, id in *. case_match; simpl; lia.
Qed.

Lemma decode_from_reads (fuel : nat) (t : nodes) (idx : nat) :
  reads id fuel 1 (decode_from fuel t idx).
Proof.
  revert idx. induction fuel as [|fuel IH]; intros idx; [apply reads_no_fuel|]. simpl.
  apply (reads_bind id (S fuel) 1 0); [apply read_bit_reads|]. intros bit.
  destruct (t !! idx) as [n|]; [|apply reads_oob]. destruct (_ <? 0); [apply reads_ret|].
  replace (S fuel - 1)%nat with fuel by lia.
  apply (reads_weaken id _ fuel 1); [lia|lia|apply IH].
Qed.

Lemma decode_reads (f : nat) (t : nodes) : reads id f 1 (decode t).
Proof. intros r Hok _. apply (decode_from_reads (S (bits_left r)) t 0 r Hok). unfold id. lia. Qed.

Create HintDb reads.

Section decoder_reads.
Context {O : Type} `{InflateOut O}.

Lemma on_reader_reads {A} (f n : nat) (c : M BitReader A) :
  reads id f n c → reads fst f n (on_reader c : M (BitReader * O) A).
Proof.
  intros Hc [r o] Hok Hl. destruct (Hc r Hok Hl) as [H1 H2]. simpl.
  destruct (c r) as [x r']. by split.
Qed.

Lemma on_out_reads (f : nat) (g : O → O) : reads fst f 0 (on_out g).
Proof. intros [r o] Hok _. split; [done|]. intros a _. simpl. split; [done|lia]. Qed.

Lemma backref_reads (f : nat) (d l : Z) : reads fst f 0 (backref d l : M (BitReader * O) bool).
Proof.
  intros [r o] Hok _. unfold backref. destruct (copy_backref d l o). simpl.
  split; [done|]. intros a _. split; [done|lia].
Qed.

Hint Resolve on_reader_reads read_bits_reads read_byte_reads read_u16_reads byte_align_reads
  on_out_reads backref_reads reads_none reads_oob reads_ret reads_index : reads.

(** Step over a computation that may read any number of bits. *)
Ltac reads_step :=
  match goal with
  | |- reads _ _ _ (if ?b then _ else _) => destruct b
  | |- reads _ _ _ (_ ≫= _) => eapply reads_skip; [solve [eauto with reads]|intros ?]
  | |- reads _ _ _ (for_each _ _) => apply reads_for_each; intros ?
  | |- reads _ _ _ _ => solve [eauto with reads]
  end.

(** Step over the decoding of a symbol, which pays for a turn of a loop. *)
Ltac reads_symbol fuel :=
  apply (reads_weaken fst (S fuel) (S fuel) (1 + 0)); [lia|lia|];
  apply (reads_bind fst (S fuel) 1 0); [first [apply on_reader_reads; apply decode_reads
                                             | apply on_reader_reads; apply read_bit_reads]|];
  intros ?; replace (S fuel - 1)%nat with fuel by lia.

Lemma decode_reads0 (f : nat) (t : nodes) : reads id f 0 (decode t).
Proof. apply (reads_weaken id f f 1); [lia|lia|apply decode_reads]. Qed.
Hint Resolve decode_reads0 : reads.

Lemma read_match_reads (f : nat) (t : nodes) (i : Z) :
  reads fst f 0 (read_match t i : M (BitReader * O) (Z * Z)).
Proof. unfold read_match. repeat reads_step. Qed.
Hint Resolve read_match_reads : reads.

Lemma decode_block_reads (fuel : nat) (lt dt : nodes) :
  reads fst fuel 0 (decode_block fuel lt dt : M (BitReader * O) unit).
Proof.
  induction fuel as [|fuel IH]; [apply reads_no_fuel|]. cbn [decode_block].
  reads_symbol fuel. repeat reads_step; done.
Qed.

Lemma stored_block_reads (f : nat) : reads fst f 0 (stored_block : M (BitReader * O) unit).
Proof. unfold stored_block. repeat reads_step. Qed.

Lemma read_cl_reads (f : nat) (order : list nat) (cl : list Z) :
  reads fst f 0 (read_cl_lengths order cl : M (BitReader * O) (list Z)).
Proof. revert cl. induction order as [|i order IH]; intros cl; cbn [read_cl_lengths]; repeat reads_step; done. Qed.

Lemma read_lengths_reads (fuel n : nat) (t : nodes) (l : list Z) :
  reads fst fuel 0 (read_lengths fuel n t l : M (BitReader * O) (list Z)).
Proof.
  revert l. induction fuel as [|fuel IH]; intros l; cbn [read_lengths].
  - destruct (_ <=? _)%nat; [apply reads_ret|apply reads_no_fuel].
  - destruct (_ <=? _)%nat; [apply reads_ret|]. reads_symbol fuel. repeat reads_step; apply IH.
Qed.
Hint Resolve read_cl_reads read_lengths_reads : reads.

Lemma dynamic_reads (fuel : nat) : reads fst fuel 0 (dynamic_tables fuel : M (BitReader * O) _).
Proof. unfold dynamic_tables. repeat reads_step. Qed.
Hint Resolve dynamic_reads stored_block_reads decode_block_reads : reads.

Lemma inflate_loop_reads (fuel : nat) : reads fst fuel 0 (inflate_loop fuel : M (BitReader * O) unit).
Proof.
  induction fuel as [|fuel IH]; [apply reads_no_fuel|]. cbn [inflate_loop].
  reads_symbol fuel. reads_step. eapply (reads_skip fst fuel 0 0).
  - repeat reads_step.
  - intros _. destruct (negb _); [apply reads_ret|done].
Qed.
End decoder_reads.

(** decompression terminates on every input, well-formed or not: each turn of
    each loop of the decoder reads a bit, so the number of bits of the input bounds
    the turns, whatever the sink. *)
Theorem inflate_terminates {O : Type} `{InflateOut O} (data : list Z) (o : O) :
  (inflate_to data o).1 ≠ Panic "no fuel".
Proof.
  unfold inflate_to. set (r := new_reader data).
  destruct (inflate_loop_reads (S (bits_left r)) (r, o)) as [Hp _].
  - unfold reader_ok, r. simpl. lia.
  - simpl. lia.
  - by destruct (inflate_loop _ (r, o)) as [x [r' o']].
Qed.

(** ** Stored blocks *)

(** A block of type 0 (RFC 1951, 3.2.4), and data cut into such blocks. *)
Definition stored (final : bool) (chunk : list Z) : list Z :=
  (if final then 1 else 0) :: le_bytes 2 (Z.of_nat (length chunk)) ++
  le_bytes 2 (65535 - Z.of_nat (length chunk)) ++ chunk.

Fixpoint deflate_stored (chunks : list (list Z)) (last_chunk : list Z) : list Z :=
  match chunks with
  | [] => stored true last_chunk
  | c :: cs => stored false c ++ deflate_stored cs last_chunk
  end.

Lemma drop_cons_inv {A} (p : nat) (d : list A) (b : A) (l : list A) :
  drop p d = b :: l → d !! p = Some b ∧ drop (S p) d = l.
Proof.
  intros Hd. split.
  - rewrite <-(Nat.add_0_r p), <-lookup_drop, Hd. done.
  - replace (S p) with (p + 1)%nat by lia. rewrite <-drop_drop, Hd. done.
Qed.

Lemma read_byte_aligned (d : list Z) (p : nat) (b : Z) (l : list Z) :
  drop p d = b :: l → read_byte (mkReader d p 0) = (Ok b, mkReader d (S p) 0).
Proof. intros [Hb _]%drop_cons_inv. unfold read_byte. simpl. by rewrite Hb. Qed.

Lemma le16_lor (x : Z) :
  0 ≤ x < 65536 → Z.lor (x mod 256) (Z.shiftl ((x / 256) mod 256) 8) = x.
Proof.
  intros Hx. change (x mod 256) with (x mod 2 ^ 8).
  rewrite Z.lor_comm, (lor_low_high 8 (Z.shiftl ((x / 256) mod 256) 8) x); [|lia|].
  - rewrite Z.shiftl_mul_pow2 by lia. change (2 ^ 8) with 256.
    rewrite (Z.mod_small (x / 256)); [pose proof (Z.div_mod x 256); lia|].
    split; [apply Z.div_pos; lia|apply Z.div_lt_upper_bound; lia].
  - rewrite Z.shiftl_mul_pow2 by lia. apply Z.mod_mul. lia.
Qed.

Lemma read_u16_aligned (d : list Z) (p : nat) (x : Z) (l : list Z) :
  0 ≤ x < 65536 → drop p d = le_bytes 2 x ++ l →
  read_u16_le (mkReader d p 0) = (Ok x, mkReader d (S (S p)) 0) ∧ drop (S (S p)) d = l.
Proof.
  intros Hx Hd. pose proof (drop_cons_inv _ _ _ _ Hd) as [_ Hd1].
  pose proof (drop_cons_inv _ _ _ _ Hd1) as [_ Hd2]. split; [|exact Hd2].
  unfold read_u16_le. erewrite bind_ok by exact (read_byte_aligned _ _ _ _ Hd).
  erewrite bind_ok by exact (read_byte_aligned _ _ _ _ Hd1).
  unfold mret, M_ret. by rewrite le16_lor.
Qed.

Lemma read_chunk (d : list Z) (p i : nat) (chunk l v : list Z) :
  drop p d = chunk ++ l →
  for_each (seq i (length chunk)) (λ _, b ← on_reader read_byte; on_out (push_byte b))
    (mkReader d p 0, v) = (Ok tt, (mkReader d (p + length chunk) 0, v ++ chunk)).
Proof.
  revert p i v. induction chunk as [|b chunk IH]; intros p i v Hd.
  { simpl. by rewrite Nat.add_0_r, app_nil_r. }
  cbn [length seq for_each].
  erewrite bind_ok; [|erewrite bind_ok; [reflexivity|]].
  2:{ unfold on_reader. by rewrite (read_byte_aligned _ _ _ _ Hd). }
  apply drop_cons_inv in Hd as [_ Hd]. unfold push_byte, vec_out.
  rewrite IH by done. rewrite <-app_assoc.
  by replace (p + S (length chunk))%nat with (S p + length chunk)%nat by lia.
Qed.

Lemma on_reader_ok {A} (c : M BitReader A) (r r' : BitReader) (a : A) (v : list Z) :
  c r = (Ok a, r') → on_reader c (r, v) = (Ok a, (r', v)).
Proof. intros Hc. unfold on_reader. by rewrite Hc. Qed.

Lemma stored_block_ok (d : list Z) (p : nat) (chunk l v : list Z) :
  Z.of_nat (length chunk) < 65536 →
  drop (S p) d = le_bytes 2 (Z.of_nat (length chunk)) ++
    le_bytes 2 (65535 - Z.of_nat (length chunk)) ++ chunk ++ l →
  ∃ p', stored_block (mkReader d p 3, v) = (Ok tt, (mkReader d p' 0, v ++ chunk)) ∧ drop p' d = l.
Proof.
  intros Hlen Hd.
  destruct (read_u16_aligned d _ _ _ (conj (Nat2Z.is_nonneg _) Hlen) Hd) as [H1 Hd1].
  assert (0 ≤ 65535 - Z.of_nat (length chunk) < 65536) as Hn by lia.
  destruct (read_u16_aligned d _ _ _ Hn Hd1) as [H2 Hd2].
  eexists. split.
  - unfold stored_block. erewrite bind_ok by exact (on_reader_ok byte_align _ _ _ _ eq_refl).
    simpl. erewrite bind_ok by exact (on_reader_ok _ _ _ _ _ H1).
    erewrite bind_ok by exact (on_reader_ok _ _ _ _ _ H2).
    rewrite (proj2 (Z.eqb_eq _ _)) by lia. cbn [negb].
    rewrite Nat2Z.id. exact (read_chunk d _ 0 chunk l v Hd2).
  - rewrite <-drop_drop, Hd2. apply drop_app_length.
Qed.

Lemma read_type_stored (d : list Z) (p : nat) (final : bool) :
  d !! p = Some (if final then 1 else 0) → read_bits 2 (mkReader d p 1) = (Ok 0, mkReader d p 3).
Proof.
  intros Hb. change (read_bits 2) with (b0 ← read_bit; b1 ← read_bit;
    mret (Z.lor (Z.lor 0 (Z.shiftl b0 0)) (Z.shiftl b1 1)) : M BitReader Z).
  rewrite (bind_ok _ _ _ 0 (mkReader d p 2)), (bind_ok _ _ _ 0 (mkReader d p 3)); [done|..];
    (unfold read_bit; cbn [br_data br_pos br_bit]; rewrite Hb; by destruct final).
Qed.

(** One stored block, from a byte boundary to the next. *)
Lemma inflate_one (d : list Z) (p fuel : nat) (final : bool) (chunk l v : list Z) :
  Z.of_nat (length chunk) < 65536 → drop p d = stored final chunk ++ l →
  ∃ p', drop p' d = l ∧ inflate_loop (S fuel) (mkReader d p 0, v) =
    (if final then mret tt else inflate_loop fuel) (mkReader d p' 0, v ++ chunk).
Proof.
  intros Hlen Hd. unfold stored in Hd. rewrite <-app_comm_cons, <-!app_assoc in Hd.
  apply drop_cons_inv in Hd as [Hb Hd].
  destruct (stored_block_ok d p chunk l v Hlen Hd) as (p' & Hs & Hd').
  exists p'. split; [done|]. cbn [inflate_loop].
  erewrite bind_ok.
  2:{ apply on_reader_ok. unfold read_bit. cbn [br_data br_pos]. by rewrite Hb. }
  erewrite bind_ok.
  2:{ apply on_reader_ok. cbn [br_bit Nat.eqb]. exact (read_type_stored d p final Hb). }
  destruct final; cbn; erewrite bind_ok by exact Hs; reflexivity.
Qed.

Lemma inflate_stored (d : list Z) (chunks : list (list Z)) (final v : list Z) (fuel p : nat) :
  Forall (λ c, Z.of_nat (length c) < 65536) (final :: chunks) →
  drop p d = deflate_stored chunks final → (length chunks < fuel)%nat →
  ∃ r, inflate_loop fuel (mkReader d p 0, v) = (Ok tt, (r, v ++ concat chunks ++ final)).
Proof.
  intros Hall. apply Forall_cons in Hall as [Hfin Hall]. revert fuel p v.
  induction Hall as [|c cs Hc Hcs IH]; intros fuel p v Hd Hf;
    (destruct fuel as [|fuel]; [simpl in Hf; lia|]); simpl in Hd.
  - rewrite <-(app_nil_r (stored true final)) in Hd.
    destruct (inflate_one d p fuel true final [] v Hfin Hd) as (p' & _ & ->). by eexists.
  - destruct (inflate_one d p fuel false c _ v Hc Hd) as (p' & Hd' & ->).
    destruct (IH fuel p' (v ++ c) Hd') as [r ->]; [simpl in Hf; lia|].
    exists r. simpl. by rewrite <-!app_assoc.
Qed.

Lemma length_deflate_stored (chunks : list (list Z)) (final : list Z) :
  (length chunks < length (deflate_stored chunks final))%nat.
Proof.
  induction chunks as [|c cs IH]; simpl; [lia|]. rewrite !length_app. simpl. lia.
Qed.

(** data of any length stored in blocks of at most 65535 bytes, in a gzip member
    with a plain header, is returned byte for byte; the time, flags and system bytes
    of the header and the eight bytes of the trailer are of no account. *)
Theorem gunzip_stored (hdr trailer final : list Z) (chunks : list (list Z)) :
  length hdr = 6%nat → length trailer = 8%nat →
  Forall (λ c, Z.of_nat (length c) < 65536) (final :: chunks) →
  gunzip ([0x1f; 0x8b; 8; 0] ++ hdr ++ deflate_stored chunks final ++ trailer)
    = Ok (concat chunks ++ final).
Proof.
  intros Hh Ht Hall. set (z := deflate_stored chunks final).
  set (data := [0x1f; 0x8b; 8; 0] ++ hdr ++ z ++ trailer).
  pose proof (length_deflate_stored chunks final) as Hz. fold z in Hz.
  assert (length data = 18 + length z)%nat as Hlen by (unfold data; rewrite !length_app; simpl; lia).
  assert (skip_gzip_header data = Ok 10%nat) as Hskip.
  { unfold skip_gzip_header. rewrite (proj2 (Nat.ltb_ge _ _)) by lia. cbn -[Nat.ltb].
    rewrite (proj2 (Nat.ltb_ge _ _)); [done|]. rewrite !length_app; lia. }
  unfold gunzip. rewrite Hskip. cbn [then_].
  assert (body data 10 = z) as ->.
  { unfold body. replace (length data - 8)%nat with (length ([0x1f; 0x8b; 8; 0] ++ hdr ++ z))
      by (rewrite Hlen, !length_app; simpl; lia).
    unfold data. rewrite !app_assoc, take_app_length, <-!app_assoc, app_assoc.
    rewrite drop_app_length'; [done|]. rewrite length_app. simpl. lia. }
  unfold inflate_to. destruct (inflate_stored z chunks final [] (S (bits_left (new_reader z))) 0)
    as [r Hr]; [done..| |].
  - unfold bits_left. simpl. lia.
  - unfold new_reader in *. rewrite Hr. done.
Qed.

Lemma gunzip_stored_witness :
  gunzip ([0x1f; 0x8b; 8; 0] ++ replicate 6 0 ++ deflate_stored [[104; 101]] [121] ++ replicate 8 7)
    = Ok [104; 101; 121].
Proof.
  apply (gunzip_stored (replicate 6 0) (replicate 8 7) [121] [[104; 101]]); [reflexivity..|].
  repeat constructor.
Defined.

(** ** Huffman codes

    The code the tables give to each symbol, most significant bit first. *)

Fixpoint msb (n : nat) (c : Z) : list bool :=
  match n with O => [] | S n' => Z.testbit c (Z.of_nat n') :: msb n' c end.

Fixpoint assign_from (symbol : Z) (lengths codes : list Z) : list (Z * list bool) :=
  match lengths with
  | [] => []
  | len :: rest =>
      if (len =? 0) || (max_len <? len) then assign_from (symbol + 1) rest codes
      else
        let c := default 0 (codes !! Z.to_nat len) in
        (symbol, msb (Z.to_nat len) c) ::
        assign_from (symbol + 1) rest (<[Z.to_nat len := wrap 16 (c + 1)]> codes)
  end.
Definition assigned (lengths : list Z) : list (Z * list bool) :=
  assign_from 0 lengths (next_codes (bl_count lengths)).

(** No code is a prefix of another's. *)
Definition incomparable (c1 c2 : list bool) : Prop := ¬ c1 `prefix_of` c2 ∧ ¬ c2 `prefix_of` c1.
Fixpoint prefix_free (l : list (Z * list bool)) : Prop :=
  match l with
  | [] => True
  | (_, c) :: l' => Forall (λ x, incomparable c x.2) l' ∧ prefix_free l'
  end.

#[global] Instance prefix_free_dec l : Decision (prefix_free l).
Proof. induction l as [|[s c] l IH]; simpl; apply _. Defined.

(** ** The trie *)

Definition get (t : nodes) (i : nat) (b : bool) : Z := child (default (-1, -1) (t !! i)) b.

Fixpoint follow (t : nodes) (i : nat) (bs : list bool) : option nat :=
  match bs with
  | [] => Some i
  | b :: bs' => if get t i b <? 0 then None else follow t (Z.to_nat (get t i b)) bs'
  end.

Definition in_range (t : nodes) : Prop := ∀ i b, get t i b < Z.of_nat (length t).
Definition inj (t : nodes) : Prop :=
  ∀ p q i, follow t 0 p = Some i → follow t 0 q = Some i → p = q.

Lemma follow_snoc (t : nodes) (i : nat) (p : list bool) (b : bool) :
  follow t i (p ++ [b]) =
    k ← follow t i p; if get t k b <? 0 then None else Some (Z.to_nat (get t k b)).
Proof.
  revert i. induction p as [|x p IH]; intros i; simpl; [by destruct (_ <? 0)|].
  destruct (get t i x <? 0); [done|]. apply IH.
Qed.

Lemma follow_lt (t : nodes) (p : list bool) (i k : nat) :
  in_range t → (i < length t)%nat → follow t i p = Some k → (k < length t)%nat.
Proof.
  intros Hr. revert i. induction p as [|b p IH]; intros i Hi; simpl; [by intros [= <-]|].
  case_match eqn:Hg; [done|]. apply IH. specialize (Hr i b). lia.
Qed.

Lemma child_set (b b' : bool) (v : Z) (n : Z * Z) :
  child (set_child b v n) b' = if decide (b' = b) then v else child n b'.
Proof. by destruct b, b'. Qed.

(** A new node below [i], which has no child at [b]. *)
Definition grow (t : nodes) (i : nat) (b : bool) : nodes :=
  alter (set_child b (Z.of_nat (length t))) i (t ++ [(-1, -1)]).

Section grow.
Context (t : nodes) (i : nat) (b : bool) (p0 : list bool).

Lemma length_grow : length (grow t i b) = S (length t).
Proof. unfold grow. rewrite length_alter, length_app. simpl. lia. Qed.

Context (Hr : in_range t) (Hinj : inj t) (Hi : (i < length t)%nat) (Hneg : get t i b < 0)
  (Hp0 : follow t 0 p0 = Some i).

Lemma get_grow (k : nat) (x : bool) :
  get (grow t i b) k x =
    if decide (k = i ∧ x = b) then Z.of_nat (length t) else get t k x.
Proof.
  unfold get, grow. destruct (decide (k = i)) as [->|Hk].
  - rewrite list_lookup_alter_eq, lookup_app_l by done.
    destruct (lookup_lt_is_Some_2 t i Hi) as [n Hn]. rewrite Hn. simpl. rewrite child_set.
    destruct (decide (x = b)) as [->|]; [by rewrite decide_True|by rewrite decide_False by naive_solver].
  - rewrite list_lookup_alter_ne by done. rewrite decide_False by naive_solver.
    destruct (decide (k < length t)%nat); [by rewrite lookup_app_l|].
    rewrite lookup_app_r, (lookup_ge_None_2 t k) by lia.
    by destruct (k - length t)%nat, x.
Qed.

Lemma grow_range : in_range (grow t i b).
Proof.
  intros k x. rewrite get_grow, length_grow. case_decide; [lia|]. specialize (Hr k x). lia.
Qed.

Lemma follow_grow (p : list bool) (k : nat) :
  follow (grow t i b) 0 p = Some k →
  follow t 0 p = Some k ∨ (p = p0 ++ [b] ∧ k = length t).
Proof.
  revert k. induction p as [|x p IH] using rev_ind; intros k Hk; [left; exact Hk|].
  rewrite follow_snoc in Hk. destruct (follow (grow t i b) 0 p) as [j|] eqn:Hj; [|done]. simpl in Hk.
  rewrite get_grow in Hk. destruct (IH j eq_refl) as [Hj'|[-> ->]].
  - case_decide as Hd.
    + destruct Hd as [-> ->]. right. rewrite (Hinj p p0 i Hj' Hp0).
      rewrite (proj2 (Z.ltb_ge _ _)) in Hk by lia. injection Hk as <-. split; [done|lia].
    + left. by rewrite follow_snoc, Hj'.
  - rewrite decide_False in Hk by lia. unfold get in Hk.
    rewrite (lookup_ge_None_2 t) in Hk by lia. by destruct x.
Qed.

Lemma follow_kept (p : list bool) (k : nat) :
  follow t 0 p = Some k → follow (grow t i b) 0 p = Some k.
Proof.
  revert k. induction p as [|x p IH] using rev_ind; intros k; [done|].
  rewrite !follow_snoc. destruct (follow t 0 p) as [j|]; [|done]. rewrite (IH j eq_refl). simpl.
  rewrite get_grow. case_decide as Hd; [|done]. destruct Hd as [-> ->].
  by rewrite (proj2 (Z.ltb_lt _ _) Hneg).
Qed.

Lemma follow_new : follow (grow t i b) 0 (p0 ++ [b]) = Some (length t).
Proof.
  rewrite follow_snoc, (follow_kept p0 i Hp0). simpl. rewrite get_grow, decide_True by done.
  rewrite (proj2 (Z.ltb_ge _ _)) by lia. f_equal. lia.
Qed.

Lemma grow_inj : inj (grow t i b).
Proof.
  intros p q k Hp Hq.
  destruct (follow_grow p k Hp) as [Hp'|[-> ->]], (follow_grow q _ Hq) as [Hq'|[-> Hk]]; [by eapply Hinj| | |done].
  - subst k. apply (follow_lt t p 0) in Hp'; [lia|done|lia].
  - apply (follow_lt t q 0) in Hq'; [lia|done|lia].
Qed.

Lemma lookup_grow (k : nat) : k ≠ i → (k < length t)%nat → grow t i b !! k = t !! k.
Proof. intros Hk Hl. unfold grow. by rewrite list_lookup_alter_ne, lookup_app_l. Qed.
End grow.

(** What inserting a path does: the old paths stay, the new one is there, and a node
    changes only if its path is a prefix of the new one. *)
Lemma insert_path_spec (n : nat) (c : Z) (i : nat) (t : nodes) (p0 : list bool) :
  in_range t → inj t → (i < length t)%nat → follow t 0 p0 = Some i →
  let '(j, t') := insert_path n c i t in
  in_range t' ∧ inj t' ∧ (j < length t')%nat ∧ (0 < length t')%nat ∧
  follow t' 0 (p0 ++ msb n c) = Some j ∧
  (∀ p k, follow t 0 p = Some k → follow t' 0 p = Some k) ∧
  (∀ p k, follow t 0 p = Some k → ¬ p `prefix_of` (p0 ++ msb n c) → t' !! k = t !! k).
Proof.
  revert i t p0. induction n as [|n IH]; intros i t p0 Hr Hinj Hi Hp0.
  { simpl. rewrite app_nil_r. split_and!; try done. lia. }
  cbn [insert_path msb]. set (b := Z.testbit c (Z.of_nat n)).
  change (child (default (-1, -1) (t !! i)) b) with (get t i b).
  replace (p0 ++ b :: msb n c) with ((p0 ++ [b]) ++ msb n c) by by rewrite <-app_assoc.
  destruct (get t i b <? 0) eqn:Hg.
  - apply Z.ltb_lt in Hg. change (alter _ i _) with (grow t i b).
    specialize (IH (length t) (grow t i b) (p0 ++ [b])).
    destruct (insert_path n c (length t) (grow t i b)) as [j t'].
    destruct IH as (H1 & H2 & H3 & H4 & H5 & H6 & H7);
      [by apply grow_range|by apply (grow_inj t i b p0)|rewrite length_grow; lia|by apply follow_new|].
    split_and!; try done.
    + intros p k Hk. by apply H6, follow_kept.
    + intros p k Hk Hnp. rewrite (H7 p k); [|by apply follow_kept|done].
      apply lookup_grow; [|by apply (follow_lt t p 0); [| |]; try done; lia].
      intros ->. apply Hnp. rewrite (Hinj p p0 i Hk Hp0), <-app_assoc. by eexists.
  - specialize (IH (Z.to_nat (get t i b)) t (p0 ++ [b]) Hr Hinj).
    apply IH.
    + specialize (Hr i b). lia.
    + rewrite follow_snoc, Hp0. simpl. by rewrite Hg.
Qed.

(** The symbol [s] stands at the end of the path [c]. *)
Definition leaf (t : nodes) (s : Z) (c : list bool) : Prop :=
  ∃ k, follow t 0 c = Some k ∧ t !! k = Some (- (s + 1), - (s + 1)).

Section set_leaf.
Context (t : nodes) (j : nat) (s : Z) (c : list bool).
Context (Hs : 0 ≤ s) (Hr : in_range t) (Hinj : inj t) (Hj : follow t 0 c = Some j)
  (Hlt : (j < length t)%nat).
Let t' := <[j := (- (s + 1), - (s + 1))]> t.

Lemma get_leaf (k : nat) (x : bool) : get t' k x = if decide (k = j) then - (s + 1) else get t k x.
Proof.
  unfold get, t'. case_decide as Hk.
  - subst k. rewrite list_lookup_insert_eq by done. by destruct x.
  - by rewrite list_lookup_insert_ne.
Qed.

Lemma follow_leaf_old (p : list bool) (k : nat) : follow t' 0 p = Some k → follow t 0 p = Some k.
Proof.
  revert k. induction p as [|x p IH] using rev_ind; intros k; [done|].
  rewrite !follow_snoc. destruct (follow t' 0 p) as [i|]; [|done]. rewrite (IH i eq_refl). simpl.
  rewrite get_leaf. case_decide; [|done]. by rewrite (proj2 (Z.ltb_lt _ _)) by lia.
Qed.

Lemma follow_leaf_kept (p : list bool) (k : nat) :
  follow t 0 p = Some k → (p = c ∨ ¬ c `prefix_of` p) → follow t' 0 p = Some k.
Proof.
  revert k. induction p as [|x p IH] using rev_ind; intros k; [done|].
  rewrite !follow_snoc. intros Hk Hc. destruct (follow t 0 p) as [i|] eqn:Hi; [|done]. simpl in Hk.
  assert (p ≠ c ∧ ¬ c `prefix_of` p) as [Hne Hnp].
  { destruct Hc as [<- | Hc].
    - split; [intros He; apply (f_equal length) in He; rewrite length_app in He; simpl in He; lia|].
      intros Hpre%prefix_length. rewrite length_app in Hpre. simpl in Hpre. lia.
    - split; [intros ->; apply Hc; by eexists|]. intros [q ->]. apply Hc.
      exists (q ++ [x]). by rewrite app_assoc. }
  rewrite (IH i eq_refl) by by right. simpl. rewrite get_leaf, decide_False; [done|].
  intros ->. by destruct (Hne (Hinj p c j Hi Hj)).
Qed.

Lemma set_leaf_range : in_range t'.
Proof.
  intros k x. rewrite get_leaf. unfold t'. rewrite length_insert. case_decide; [lia|apply Hr].
Qed.
Lemma set_leaf_inj : inj t'.
Proof. intros p q k Hp%follow_leaf_old Hq%follow_leaf_old. by eapply Hinj. Qed.
Lemma set_leaf_new : leaf t' s c.
Proof.
  exists j. split; [apply follow_leaf_kept; [done|by left]|]. unfold t'.
  by rewrite list_lookup_insert_eq.
Qed.
End set_leaf.

Lemma insert_symbol_spec (t : nodes) (s len c : Z) (cs : list (Z * list bool)) :
  in_range t → inj t → (0 < length t)%nat → 0 ≤ s →
  (∀ s' c', (s', c') ∈ cs → leaf t s' c' ∧ incomparable c' (msb (Z.to_nat len) c)) →
  let t' := insert_symbol s len c t in
  in_range t' ∧ inj t' ∧ (0 < length t')%nat ∧ leaf t' s (msb (Z.to_nat len) c) ∧
  (∀ s' c', (s', c') ∈ cs → leaf t' s' c').
Proof.
  intros Hr Hinj Hl Hs Hcs. unfold insert_symbol.
  pose proof (insert_path_spec (Z.to_nat len) c 0 t [] Hr Hinj Hl eq_refl) as Hsp.
  destruct (insert_path (Z.to_nat len) c 0 t) as [j t1]. set (code := msb (Z.to_nat len) c) in *.
  destruct Hsp as (H1 & H2 & H3 & H4 & H5 & H6 & H7). rewrite app_nil_l in *. simpl.
  split_and!.
  - by apply set_leaf_range.
  - by apply set_leaf_inj.
  - by rewrite length_insert.
  - by apply set_leaf_new.
  - intros s' c' Hin. destruct (Hcs s' c' Hin) as [(k & Hk & Hn) [Hi1 Hi2]].
    exists k. split.
    + apply (follow_leaf_kept t1 j s code); try done; [by apply H6|by right].
    + rewrite list_lookup_insert_ne; [by rewrite (H7 c' k Hk)|].
      intros ->. rewrite (H2 c' code k (H6 _ _ Hk) H5) in Hi1. by apply Hi1.
Qed.

Lemma build_from_spec (lengths codes : list Z) (s : Z) (t : nodes) (cs : list (Z * list bool)) :
  in_range t → inj t → (0 < length t)%nat → 0 ≤ s →
  (∀ s' c', (s', c') ∈ cs → leaf t s' c' ∧
     ∀ x, x ∈ assign_from s lengths codes → incomparable c' x.2) →
  prefix_free (assign_from s lengths codes) →
  ∀ s' c', (s', c') ∈ cs ++ assign_from s lengths codes → leaf (build_from s lengths codes t) s' c'.
Proof.
  revert codes s t cs. induction lengths as [|len rest IH]; intros codes s t cs Hr Hinj Hl Hs Hcs Hpf.
  { intros s' c'. simpl. rewrite app_nil_r. intros Hin. by destruct (Hcs s' c' Hin). }
  cbn [build_from assign_from] in *. destruct ((len =? 0) || (max_len <? len)).
  { apply IH; try done; lia. }
  set (c := default 0 (codes !! Z.to_nat len)) in *. destruct Hpf as [Hf Hpf].
  destruct (insert_symbol_spec t s len c cs Hr Hinj Hl Hs) as (H1 & H2 & H3 & H4 & H5).
  { intros s' c' Hin. destruct (Hcs s' c' Hin) as [Hlf Hi]. split; [done|].
    apply (Hi (s, msb (Z.to_nat len) c)). set_solver. }
  intros s' c' Hin.
  apply (IH _ (s + 1) _ (cs ++ [(s, msb (Z.to_nat len) c)])); try done; [lia| |].
  - intros s1 c1. rewrite elem_of_app, list_elem_of_singleton. intros [Hin1|[= -> ->]].
    + split; [by apply H5|]. intros x Hx. destruct (Hcs s1 c1 Hin1) as [_ Hi]. apply Hi. set_solver.
    + split; [done|]. rewrite Forall_forall in Hf. apply Hf.
  - by rewrite <-app_assoc.
Qed.

Lemma build_leaf (lengths : list Z) (s : Z) (c : list bool) :
  prefix_free (assigned lengths) → (s, c) ∈ assigned lengths → leaf (build lengths) s c.
Proof.
  intros Hpf Hin. apply (build_from_spec lengths _ 0 [(-1, -1)] []); try done.
  - intros [|i] x; [by destruct x|]. unfold get. simpl. by destruct x.
  - intros p q i. assert (∀ p, is_Some (follow [(-1, -1)] 0 p) → p = []) as Hnil.
    { intros [|[] p'] [x Hx]; [done|discriminate Hx..]. }
    intros Hp Hq. rewrite (Hnil p), (Hnil q); [done|by eexists..].
  - simpl. lia.
  - intros s' c' Hn. set_solver.
Qed.

(** ** What decoding a symbol reads *)

Definition byte_bits (b : Z) : list bool := (λ i, Z.testbit b (Z.of_nat i)) <$> seq 0 8.
(** The bits still to be read. *)
Definition bits_of (r : BitReader) : list bool :=
  drop (br_bit r) (concat (byte_bits <$> drop (br_pos r) (br_data r))).

Lemma land_shiftr_1 (b : Z) (i : nat) :
  Z.land (Z.shiftr b (Z.of_nat i)) 1 = Z.b2z (Z.testbit b (Z.of_nat i)).
Proof.
  change 1 with (Z.ones 1). rewrite Z.land_ones by lia. change (2 ^ 1) with 2.
  rewrite <-Z.bit0_mod, Z.shiftr_spec, Z.add_0_l by lia. done.
Qed.

Lemma read_bit_bits (r : BitReader) (x : bool) (bs : list bool) :
  reader_ok r → bits_of r = x :: bs →
  ∃ r', read_bit r = (Ok (Z.b2z x), r') ∧ bits_of r' = bs ∧ reader_ok r'.
Proof.
  destruct r as [d p i]. unfold bits_of, reader_ok, read_bit. cbn [br_data br_pos br_bit].
  intros Hi Hb.
  destruct (drop p d) as [|b l] eqn:Hd.
  { by destruct i. }
  apply drop_cons_inv in Hd as [Hp Hd]. rewrite Hp, land_shiftr_1.
  cbn [fmap list_fmap concat] in Hb. fold (fmap byte_bits l) in Hb.
  assert (length (byte_bits b) = 8%nat) as Hlen by done.
  assert (drop i (byte_bits b) = Z.testbit b (Z.of_nat i) :: drop (S i) (byte_bits b)) as Hdr.
  { apply drop_S. unfold byte_bits. rewrite list_lookup_fmap, lookup_seq_lt by lia. done. }
  rewrite drop_app_le, Hdr, <-app_comm_cons in Hb by lia.
  assert (x = Z.testbit b (Z.of_nat i) ∧ bs = drop (S i) (byte_bits b) ++ concat (byte_bits <$> l))
    as [-> ->] by (split; congruence).
  eexists. split; [reflexivity|].
  destruct (S i =? 8)%nat eqn:He; cbn [br_pos br_bit br_data].
  - apply Nat.eqb_eq in He. rewrite Hd, drop_0. split; [|lia].
    rewrite (drop_ge (byte_bits b)) by lia. done.
  - apply Nat.eqb_neq in He. split; [|lia]. rewrite (drop_S d b p Hp), Hd, fmap_cons.
    cbn [concat]. by rewrite drop_app_le by lia.
Qed.

Lemma decode_walk (t : nodes) (s : Z) (b : bool) (rest : list bool) (c : list bool) (fuel i k : nat)
    (r : BitReader) :
  follow t i c = Some k → t !! k = Some (- (s + 1), - (s + 1)) → 0 ≤ s → reader_ok r → bits_of r = c ++ b :: rest → (length c < fuel)%nat →
  ∃ r', decode_from fuel t i r = (Ok s, r') ∧ bits_of r' = rest ∧ reader_ok r'.
Proof.
  intros Hf Hk Hs. revert fuel i r Hf. induction c as [|x c IH]; intros fuel i r Hf Hok Hb Hfu;
    (destruct fuel as [|fuel]; [simpl in Hfu; lia|]); cbn [app] in Hb;
    destruct (read_bit_bits r _ _ Hok Hb) as (r1 & Hrd & Hb1 & Hok1); cbn [decode_from];
    rewrite (bind_ok _ _ _ _ _ Hrd).
  - injection Hf as ->. rewrite Hk. replace (child _ _) with (- (s + 1)) by by destruct b.
    rewrite (proj2 (Z.ltb_lt _ _)) by lia. exists r1. split; [|done]. unfold mret, M_ret.
    do 2 f_equal. lia.
  - simpl in Hf. unfold get in Hf. destruct (t !! i) as [n|]; [|by destruct x].
    simpl in Hf. replace (negb (Z.b2z x =? 0)) with x by by destruct x.
    destruct (child n x <? 0); [done|]. apply IH; try done. simpl in Hfu. lia.
Qed.

Lemma bits_of_left (r : BitReader) : length (bits_of r) = bits_left r.
Proof.
  unfold bits_of, bits_left. rewrite length_drop.
  assert (∀ l, length (concat (byte_bits <$> l)) = 8 * length l)%nat as Hc.
  { induction l as [|b l IH]; [done|]. rewrite fmap_cons. cbn [concat].
    rewrite length_app, IH. unfold byte_bits. rewrite length_fmap, length_seq. simpl. lia. }
  rewrite Hc, length_drop. done.
Qed.

Lemma assign_from_nonneg (lengths codes : list Z) (s s' : Z) (c : list bool) :
  (s', c) ∈ assign_from s lengths codes → s ≤ s'.
Proof.
  revert s codes. induction lengths as [|len rest IH]; intros s codes; simpl; [set_solver|].
  destruct (_ || _); [intros Hin%IH; lia|].
  rewrite elem_of_cons. intros [[= -> _]|Hin%IH]; lia.
Qed.

Lemma read_bit_end (r : BitReader) : reader_ok r → bits_of r = [] → read_bit r = (Err "None", r).
Proof.
  intros Hok Hb. apply (f_equal length) in Hb. rewrite bits_of_left in Hb.
  unfold reader_ok, bits_left in *. unfold read_bit. rewrite lookup_ge_None_2; [done|]. simpl in Hb. lia.
Qed.

Lemma decode_starves (t : nodes) (c : list bool) (fuel i k : nat) (r : BitReader) :
  follow t i c = Some k → reader_ok r → bits_of r = c → (length c < fuel)%nat →
  (decode_from fuel t i r).1 = Err "None".
Proof.
  revert fuel i r. induction c as [|x c IH]; intros fuel i r Hf Hok Hb Hfu;
    (destruct fuel as [|fuel]; [simpl in Hfu; lia|]); cbn [decode_from].
  - unfold mbind, M_bind. by rewrite (read_bit_end r Hok Hb).
  - destruct (read_bit_bits r _ _ Hok Hb) as (r1 & Hrd & Hb1 & Hok1).
    rewrite (bind_ok _ _ _ _ _ Hrd). simpl in Hf. unfold get in Hf.
    destruct (t !! i) as [n|]; [|by destruct x].
    simpl in Hf. replace (negb (Z.b2z x =? 0)) with x by by destruct x.
    destruct (child n x <? 0); [done|]. apply IH; try done. simpl in Hfu. lia.
Qed.

(** the decoder reads one bit too many per symbol.  In every table whose codes
    are prefix-free, decoding the code of a symbol needs and consumes the bit [b]
    that follows it: the leaf is a node of its own, and its symbol is looked up with
    one more bit.  If the input ends with the code, decoding fails. *)
Theorem decode_overreads (lengths : list Z) (s : Z) (c rest : list bool) (r : BitReader) :
  prefix_free (assigned lengths) → (s, c) ∈ assigned lengths → reader_ok r →
  bits_of r = c ++ rest →
  match rest with
  | b :: rest' => ∃ r', decode (build lengths) r = (Ok s, r') ∧ bits_of r' = rest'
  | [] => (decode (build lengths) r).1 = Err "None"
  end.
Proof.
  intros Hpf Hin Hok Hb. pose proof (assign_from_nonneg _ _ _ _ _ Hin) as Hs.
  destruct (build_leaf lengths s c Hpf Hin) as (k & Hk & Hl).
  assert (length c ≤ bits_left r)%nat as Hle by (rewrite <-bits_of_left, Hb, length_app; lia).
  destruct rest as [|b rest].
  - rewrite app_nil_r in Hb. by apply (decode_starves _ c _ _ k); [| | |lia].
  - destruct (decode_walk (build lengths) s b rest c (S (bits_left r)) 0 k r) as (r' & H1 & H2 & _);
      try done; [lia|]. by exists r'.
Qed.

(** The code of the letter [a] in the fixed table, and the bit after it. *)
Lemma decode_overreads_witness :
  ∃ r', decode (build fixed_lit_lengths) (mkReader [0x89; 1] 0 0) = (Ok 97, r') ∧
    length (bits_of r') = 7%nat.
Proof.
  destruct (decode_overreads fixed_lit_lengths 97 [true; false; false; true; false; false; false; true]
    (true :: replicate 7 false) (mkReader [0x89; 1] 0 0)) as (r' & H1 & H2).
  - apply (bool_decide_unpack _). vm_compute. exact I.
  - apply (bool_decide_unpack _). vm_compute. exact I.
  - unfold reader_ok. simpl. lia.
  - vm_compute. reflexivity.
  - exists r'. split; [exact H1|]. rewrite H2. reflexivity.
Defined.

(** The bytes any DEFLATE encoder gives for the text [abc] in a block with the fixed
    code: the decoder gives up after the first letter. *)
Lemma inflate_loses_text : inflate_to [0x4b; 0x4c; 0x4a; 0x06; 0x00] [] = (Err "None", [97]).
Proof. vm_compute. reflexivity. Qed.

(** A distance symbol of 30 or 31, which the fixed table has codes for, indexes the
    table of distances out of bounds. *)
Lemma bad_distance_panics :
  (inflate_to [0x03; 0x7a; 0x00] []).1 = Panic "index out of bounds".
Proof. vm_compute. reflexivity. Qed.

(** A header that announces a file name without an end runs off the data. *)
Lemma unterminated_name_panics :
  gunzip ([0x1f; 0x8b; 8; 8] ++ replicate 20 1) = Panic "index out of bounds".
Proof. vm_compute. reflexivity. Qed.
