(* ===== verification/PkgFormats.v ===== *)
(** * The formats the package manager reads (user/pkg/src/dns.rs and deb.rs)

    Names and replies of the domain name system, and the control files and indices
    of Debian packages.  Byte strings are lists of [Z]; [None] of the source is
    [Err].  The parser of names follows compression pointers recursively, without
    a bound of its own: it takes fuel, and running out of it is [Panic "no fuel"]. *)

From Stdlib Require Import ZArith Lia.
From stdpp Require Import prelude list strings.
From S2P Require Import Prelude.
Local Open Scope Z_scope.

Module Dns.

Definition DOT : Z := 46.
Definition DNS_SERVER : list Z := [10; 0; 2; 3].

Definition sockaddr_in (ip : list Z) (port : Z) : list Z :=
  [2; 0; Z.shiftr port 8; Z.land port 0xff] ++ ip ++ replicate 8 0.

Definition encode_dns_name (name : list Z) : list Z :=
  (split_on DOT name ≫= λ label, wrap 8 (Z.of_nat (length label)) :: label) ++ [0].

Definition build_dns_query (name : list Z) : list Z :=
  [0; 1; 1; 0; 0; 1; 0; 0; 0; 0; 0; 0] ++ encode_dns_name name ++ [0; 1; 0; 1].

Definition append_label (name label : list Z) : list Z :=
  match name with [] => label | _ => name ++ [DOT] ++ label end.

(** The loop of [parse_dns_name]: the name so far, and the position. *)
Fixpoint parse_from (fuel : nat) (data : list Z) (pos : nat) (name : list Z) : outcome (list Z * nat) :=
  match fuel with
  | O => Panic "no fuel"
  | S fuel' =>
      match data !! pos with
      | None => Err "None"
      | Some len =>
          if len =? 0 then Ok (name, S pos)
          else if Z.land len 0xc0 =? 0xc0 then
            match data !! S pos with
            | None => Err "None"
            | Some lo =>
                match parse_from fuel' data
                        (Z.to_nat (Z.lor (Z.shiftl (Z.land len 0x3f) 8) lo)) [] with
                | Ok (suffix, _) => Ok (append_label name suffix, S (S pos))
                | Err e => Err e
                | Panic w => Panic w
                end
            end
          else
            let n := Z.to_nat len in
            if (length data <? pos + 1 + n)%nat then Err "None"
            else parse_from fuel' data (pos + 1 + n)
                   (append_label name (take n (drop (S pos) data)))
      end
  end.
Definition parse_dns_name (fuel : nat) (data : list Z) (pos : nat) : outcome (list Z * nat) :=
  parse_from fuel data pos [].

Definition then_ {A B} (x : outcome A) (f : A → outcome B) : outcome B :=
  match x with Ok a => f a | Err e => Err e | Panic w => Panic w end.

Definition byte_of (data : list Z) (i : nat) : Z := default 0 (data !! i).
Definition be16 (data : list Z) (i : nat) : Z :=
  Z.lor (Z.shiftl (byte_of data i) 8) (byte_of data (S i)).

(** [None], with the position left alone, when the record is not four bytes. *)
Definition parse_ip (data : list Z) (pos : nat) (rdlength : Z) : option (list Z) :=
  if negb (rdlength =? 4) || (length data <? pos + 4)%nat then None
  else Some (take 4 (drop pos data)).

Fixpoint skip_questions (fuel : nat) (pkt : list Z) (qdcount : nat) (pos : nat) : outcome nat :=
  match qdcount with
  | O => Ok pos
  | S n => then_ (parse_dns_name fuel pkt pos) (λ x, skip_questions fuel pkt n (x.2 + 4)%nat)
  end.

Fixpoint find_answer (fuel : nat) (pkt : list Z) (ancount : nat) (pos : nat) : outcome (list Z) :=
  match ancount with
  | O => Err "None"
  | S n =>
      then_ (parse_dns_name fuel pkt pos) (λ x,
        let pos := x.2 in
        if (length pkt <? pos + 10)%nat then Err "None"
        else
          let atype := be16 pkt pos in
          let rdlength := be16 pkt (pos + 8) in
          if atype =? 1 then
            match parse_ip pkt (pos + 10) rdlength with
            | Some ip => Ok ip
            | None => find_answer fuel pkt n (pos + 10)
            end
          else find_answer fuel pkt n (pos + 10 + Z.to_nat rdlength))
  end.

(** What [resolve_hostname] does with the bytes the server sent. *)
Definition parse_response (fuel : nat) (response : list Z) : outcome (list Z) :=
  if (length response <? 2)%nat then Err "None"
  else
    let pkt_len := Z.to_nat (be16 response 0) in
    if (length response <? pkt_len + 2)%nat then Err "None"
    else
      let pkt := take pkt_len (drop 2 response) in
      if (length pkt <? 12)%nat then Err "None"
      else if negb (Z.land (byte_of pkt 3) 0x0f =? 0) then Err "None"
      else
        let qdcount := Z.to_nat (be16 pkt 4) in
        let ancount := Z.to_nat (be16 pkt 6) in
        if (ancount =? 0)%nat then Err "None"
        else then_ (skip_questions fuel pkt qdcount 12) (find_answer fuel pkt ancount).

(** The query with its length in front, as it goes over the connection. *)
Definition tcp_query (name : list Z) : list Z :=
  let query := build_dns_query name in
  let len := wrap 16 (Z.of_nat (length query)) in
  [Z.shiftr len 8; Z.land len 0xff] ++ query.

(** The results of the system calls are arguments: the socket, the result of
    [connect], the count [send] accepts and the chunks [recv_timeout] returns. *)
Definition resolve_hostname (fuel : nat) (fd connected : Z) (sent : list Z → Z)
    (chunks : list (list Z)) (name : list Z) : outcome (list Z) :=
  if fd <? 0 then Err "None"
  else if connected <? 0 then Err "None"
  else if negb (sent (tcp_query name) =? Z.of_nat (length (tcp_query name))) then Err "None"
  else parse_response fuel (concat chunks).

(** ** Names *)

(** A label that can be encoded: not empty, no dots, and short enough not to look
    like a pointer. *)
Definition label_ok (l : list Z) : Prop :=
  l ≠ [] ∧ Z.of_nat (length l) < 192 ∧ Forall (λ b, b ≠ DOT) l.

Lemma label_not_pointer (n : Z) : 0 ≤ n < 192 → (Z.land n 0xc0 =? 0xc0) = false.
Proof.
  intros Hn. apply Z.eqb_neq. intros He.
  assert (Z.testbit (Z.land n 0xc0) 7 = true) as H7 by by rewrite He.
  assert (Z.testbit (Z.land n 0xc0) 6 = true) as H6 by by rewrite He.
  rewrite Z.land_spec in H6, H7. apply andb_prop in H6 as [H6 _]. apply andb_prop in H7 as [H7 _].
  rewrite Z.testbit_true in H6, H7 by lia. change (2 ^ 6) with 64 in H6. change (2 ^ 7) with 128 in H7.
  Z.to_euclidean_division_equations. lia.
Qed.

Definition encode_labels (labels : list (list Z)) : list Z :=
  labels ≫= λ label, wrap 8 (Z.of_nat (length label)) :: label.

Lemma parse_label (fuel : nat) (data : list Z) (pos : nat) (name label rest : list Z) :
  label_ok label → drop pos data = wrap 8 (Z.of_nat (length label)) :: label ++ rest →
  parse_from (S fuel) data pos name =
    parse_from fuel data (pos + 1 + length label) (append_label name label) ∧
  drop (pos + 1 + length label) data = rest.
Proof.
  intros (Hne & Hlen & _) Hd. unfold wrap in Hd. rewrite Z.mod_small in Hd by lia.
  assert (data !! pos = Some (Z.of_nat (length label))) as Hp.
  { rewrite <-(Nat.add_0_r pos), <-lookup_drop, Hd. done. }
  assert (drop (S pos) data = label ++ rest) as Hd1.
  { replace (S pos) with (pos + 1)%nat by lia. by rewrite <-drop_drop, Hd. }
  assert (0 < length label)%nat as Hpos by (destruct label; [done|simpl; lia]).
  cbn [parse_from]. rewrite Hp, (proj2 (Z.eqb_neq _ _)), label_not_pointer by lia.
  rewrite Nat2Z.id, Hd1, take_app_length.
  assert (length data = pos + 1 + length label + length rest)%nat as Hl.
  { apply (f_equal length) in Hd. rewrite length_drop in Hd. simpl in Hd. rewrite length_app in Hd. lia. }
  rewrite (proj2 (Nat.ltb_ge _ _)) by lia. split; [done|].
  replace (pos + 1 + length label)%nat with (S pos + length label)%nat by lia.
  by rewrite <-drop_drop, Hd1, drop_app_length.
Qed.

Lemma parse_labels (labels : list (list Z)) (fuel : nat) (data : list Z) (pos : nat) (name rest : list Z) :
  Forall label_ok labels → (length labels < fuel)%nat →
  drop pos data = encode_labels labels ++ 0 :: rest →
  parse_from fuel data pos name =
    Ok (foldl append_label name labels, (pos + length (encode_labels labels) + 1)%nat).
Proof.
  intros Hok. revert fuel pos name. induction Hok as [|l ls Hl Hls IH]; intros fuel pos name Hf Hd;
    (destruct fuel as [|fuel]; [simpl in Hf; lia|]).
  - assert (data !! pos = Some 0) as Hp by (rewrite <-(Nat.add_0_r pos), <-lookup_drop, Hd; done).
    cbn [parse_from]. rewrite Hp. simpl. do 2 f_equal. lia.
  - unfold encode_labels in Hd |- *. rewrite bind_cons in Hd |- *.
    rewrite <-app_assoc in Hd. cbn [app] in Hd.
    destruct (parse_label fuel data pos name l _ Hl Hd) as [-> Hd'].
    rewrite (IH fuel _ _ ltac:(simpl in Hf; lia) Hd'). simpl. do 2 f_equal.
    rewrite length_app. unfold encode_labels. lia.
Qed.

Lemma foldl_append (labels : list (list Z)) (name : list Z) :
  name ≠ [] → Forall label_ok labels → foldl append_label name labels = join [DOT] (name :: labels).
Proof.
  revert name. induction labels as [|l ls IH]; intros name Hn Hok; [done|].
  apply Forall_cons in Hok as [Hl Hok]. simpl foldl. rewrite IH; [|by destruct name|done].
  destruct name as [|b name]; [done|]. destruct ls as [|l2 ls]; [done|]. simpl. by rewrite <-!app_assoc.
Qed.

Lemma foldl_append_nil (labels : list (list Z)) :
  Forall label_ok labels → foldl append_label [] labels = join [DOT] labels.
Proof.
  destruct labels as [|l ls]; [done|]. intros [Hl Hok]%Forall_cons. simpl foldl.
  apply foldl_append; [apply Hl|done].
Qed.

(** The wire form of a name with these labels. *)
Lemma encode_join (labels : list (list Z)) :
  labels ≠ [] → Forall label_ok labels →
  encode_dns_name (join [DOT] labels) = encode_labels labels ++ [0].
Proof.
  intros Hne Hok. unfold encode_dns_name. rewrite split_on_join; [done|done|].
  eapply Forall_impl; [exact Hok|]. intros l Hl. apply Hl.
Qed.

(** a host name with labels of 1 to 191 bytes, encoded anywhere in a packet, is
    parsed back to itself, and the position stops right behind it. *)
Theorem dns_name_roundtrip (labels : list (list Z)) (pre post : list Z) (fuel : nat) :
  labels ≠ [] → Forall label_ok labels → (length labels < fuel)%nat →
  let name := join [DOT] labels in
  parse_dns_name fuel (pre ++ encode_dns_name name ++ post) (length pre) =
    Ok (name, (length pre + length (encode_dns_name name))%nat).
Proof.
  intros Hne Hok Hf name. unfold name, parse_dns_name. rewrite encode_join by done.
  rewrite (parse_labels labels _ _ _ _ post); [|done|done|].
  - rewrite foldl_append_nil by done. do 2 f_equal. rewrite length_app. simpl. lia.
  - rewrite drop_app_length, <-app_assoc. done.
Qed.

Lemma dns_name_roundtrip_witness :
  parse_dns_name 3 ([7; 7] ++ encode_dns_name [97; 46; 98; 99] ++ [5]) 2 = Ok ([97; 46; 98; 99], 8%nat).
Proof.
  apply (dns_name_roundtrip [[97]; [98; 99]] [7; 7] [5] 3); [discriminate| |simpl; lia].
  repeat constructor; discriminate.
Defined.

(** ** Replies *)

(** The reply of a server (RFC 1035, 4.1): one question, and one address record
    whose name is a pointer to it; and the framing of a reply over a connection. *)
Definition reply (name ttl ip : list Z) : list Z :=
  [0; 1; 0x81; 0x80; 0; 1; 0; 1; 0; 0; 0; 0] ++ (encode_dns_name name ++ [0; 1; 0; 1]) ++
  [0xc0; 12; 0; 1; 0; 1] ++ ttl ++ [0; 4] ++ ip.
Definition framed (pkt : list Z) : list Z :=
  let n := Z.of_nat (length pkt) in [Z.shiftr n 8; Z.land n 0xff] ++ pkt.

Lemma be16_join (n : Z) : Z.lor (Z.shiftl (Z.shiftr n 8) 8) (Z.land n 0xff) = n.
Proof.
  change 0xff with (Z.ones 8). rewrite <-Z.ldiff_ones_r by lia. apply Z.lor_ldiff_and.
Qed.

Lemma byte_of_drop (data tail : list Z) (pos i : nat) :
  drop pos data = tail → byte_of data (pos + i) = byte_of tail i.
Proof. intros <-. unfold byte_of. by rewrite lookup_drop. Qed.

Lemma parse_pointer (fuel : nat) (data : list Z) (pos q : nat) (suffix : list Z) :
  data !! pos = Some 0xc0 → data !! S pos = Some 12 →
  parse_from fuel data 12 [] = Ok (suffix, q) →
  parse_from (S fuel) data pos [] = Ok (suffix, S (S pos)).
Proof.
  intros H0 H1 Hs. cbn [parse_from]. rewrite H0, H1.
  change (0xc0 =? 0) with false. change (Z.land 0xc0 0xc0 =? 0xc0) with true. cbv iota.
  change (Z.to_nat (Z.lor (Z.shiftl (Z.land 0xc0 0x3f) 8) 12)) with 12%nat. by rewrite Hs.
Qed.

(** The answer section, at its position in the reply. *)
Lemma find_answer_reply (labels : list (list Z)) (pkt ttl ip rest : list Z) (pos fuel : nat) :
  Forall label_ok labels → (S (length labels) < fuel)%nat → length ttl = 4%nat → length ip = 4%nat →
  drop 12 pkt = encode_labels labels ++ 0 :: rest →
  drop pos pkt = [0xc0; 12; 0; 1; 0; 1] ++ ttl ++ [0; 4] ++ ip →
  find_answer fuel pkt 1 pos = Ok ip.
Proof.
  intros Hok Hf Httl Hip Hq Ha. destruct fuel as [|fuel]; [lia|].
  destruct ttl as [|t0 [|t1 [|t2 [|t3 [|]]]]]; try discriminate Httl. cbn [app] in Ha.
  assert (pkt !! pos = Some 0xc0) as H0 by (rewrite <-(Nat.add_0_r pos), <-lookup_drop, Ha; done).
  assert (pkt !! S pos = Some 12) as H1.
  { replace (S pos) with (pos + 1)%nat by lia. by rewrite <-lookup_drop, Ha. }
  assert (length pkt = pos + 16)%nat as Hlen.
  { apply (f_equal length) in Ha. rewrite length_drop in Ha. simpl in Ha. lia. }
  cbn [find_answer]. unfold parse_dns_name.
  rewrite (parse_pointer fuel pkt pos _ _ H0 H1
    (parse_labels labels fuel pkt 12 [] rest Hok ltac:(lia) Hq)). cbn [then_ snd].
  rewrite (proj2 (Nat.ltb_ge _ _)) by lia. unfold be16.
  replace (S (S (S pos))) with (pos + 3)%nat by lia.
  replace (S (S (S pos) + 8)) with (pos + 11)%nat by lia.
  replace (S (S pos) + 8)%nat with (pos + 10)%nat by lia.
  replace (S (S pos) + 10)%nat with (pos + 12)%nat by lia.
  replace (S (S pos)) with (pos + 2)%nat by lia.
  rewrite !(byte_of_drop _ _ _ _ Ha). cbn [byte_of lookup list_lookup default].
  unfold parse_ip. rewrite (proj2 (Nat.ltb_ge (length pkt) (pos + 12 + 4))) by lia.
  rewrite <-drop_drop, Ha. cbn [drop]. rewrite drop_0, firstn_all2 by lia. done.
Qed.

(** a lookup returns the address the server put in its reply: for every host
    name, time to live and address, when the calls succeed and the reply arrives in
    whatever chunks, [resolve_hostname] skips the question, follows the pointer of
    the answer and returns the four bytes. *)
Theorem resolve_answer (labels chunks : list (list Z)) (ttl ip : list Z) (fuel : nat)
    (fd connected : Z) (sent : list Z → Z) :
  let name := join [DOT] labels in
  labels ≠ [] → Forall label_ok labels → (S (length labels) < fuel)%nat →
  length ttl = 4%nat → length ip = 4%nat → 0 ≤ fd → 0 ≤ connected →
  (∀ q, sent q = Z.of_nat (length q)) →
  Z.of_nat (length (reply name ttl ip)) < 65536 →
  concat chunks = framed (reply name ttl ip) →
  resolve_hostname fuel fd connected sent chunks name = Ok ip.
Proof.
  intros name Hne Hok Hf Httl Hip Hfd Hc Hsent Hlen Hch. unfold resolve_hostname.
  rewrite (proj2 (Z.ltb_ge _ _)), (proj2 (Z.ltb_ge _ _)) by done.
  rewrite Hsent, Z.eqb_refl, Hch. cbn [negb]. set (pkt := reply name ttl ip) in *.
  assert (12 ≤ length pkt)%nat as H12 by (unfold pkt, reply; rewrite length_app; simpl; lia).
  assert (be16 (framed pkt) 0 = Z.of_nat (length pkt)) as Hbe by apply be16_join.
  unfold parse_response. rewrite Hbe, Nat2Z.id.
  assert (length (framed pkt) = length pkt + 2)%nat as Hfl by (unfold framed; simpl; lia).
  rewrite Hfl, (proj2 (Nat.ltb_ge _ _)), (proj2 (Nat.ltb_ge _ _)) by lia.
  assert (take (length pkt) (drop 2 (framed pkt)) = pkt) as ->
    by (change (drop 2 (framed pkt)) with pkt; apply firstn_all).
  rewrite (proj2 (Nat.ltb_ge _ _)) by lia.
  set (tail := [0xc0; 12; 0; 1; 0; 1] ++ ttl ++ [0; 4] ++ ip) in *.
  assert (drop 12 pkt = encode_labels labels ++ 0 :: ([0; 1; 0; 1] ++ tail)) as Hq.
  { unfold pkt, reply, name. rewrite encode_join by done. simpl. by rewrite <-!app_assoc. }
  change (Z.land (byte_of pkt 3) 0x0f =? 0) with true. cbn [negb].
  change (Z.to_nat (be16 pkt 4)) with 1%nat. change (Z.to_nat (be16 pkt 6)) with 1%nat.
  cbn [Nat.eqb skip_questions]. unfold parse_dns_name.
  rewrite (parse_labels labels fuel pkt 12 [] _ Hok ltac:(lia) Hq). cbn [then_ snd].
  apply (find_answer_reply labels pkt ttl ip ([0; 1; 0; 1] ++ tail)); try done.
  replace (12 + length (encode_labels labels) + 1 + 4)%nat
    with (12 + (length (encode_labels labels ++ [0; 0; 1; 0; 1]%Z)))%nat
    by (rewrite length_app; simpl; lia).
  rewrite <-drop_drop, Hq. change (0 :: [0; 1; 0; 1] ++ tail) with ([0; 0; 1; 0; 1] ++ tail).
  by rewrite app_assoc, drop_app_length.
Qed.

Lemma resolve_answer_witness :
  resolve_hostname 4 3 0 (λ q, Z.of_nat (length q))
    [framed (reply [97; 46; 98] [0; 0; 1; 0] [10; 0; 2; 15])] [97; 46; 98] = Ok [10; 0; 2; 15].
Proof.
  apply (resolve_answer [[97]; [98]] [framed (reply [97; 46; 98] [0; 0; 1; 0] [10; 0; 2; 15])]
           [0; 0; 1; 0] [10; 0; 2; 15] 4 3 0); try reflexivity; try lia.
  - discriminate.
  - repeat constructor; discriminate.
  - simpl. lia.
Defined.

(** a reply whose name is a pointer to itself keeps the parser in its recursion
    for ever: no depth is enough. *)
Theorem dns_pointer_loop (fuel : nat) (rest : list Z) :
  parse_dns_name fuel ([0xc0; 0] ++ rest) 0 = Panic "no fuel".
Proof.
  unfold parse_dns_name. induction fuel as [|fuel IH]; [done|]. cbn [parse_from].
  change (([0xc0; 0] ++ rest) !! 0%nat) with (Some 0xc0).
  change (([0xc0; 0] ++ rest) !! 1%nat) with (Some 0). cbv iota.
  change (0xc0 =? 0) with false. change (Z.land 0xc0 0xc0 =? 0xc0) with true. cbv iota.
  change (Z.to_nat (Z.lor (Z.shiftl (Z.land 0xc0 0x3f) 8) 0)) with 0%nat. by rewrite IH.
Qed.
End Dns.

Module Deb.

Definition NL : Z := 10.
Definition CR : Z := 13.
Definition TAB : Z := 9.
Definition SPACE : Z := 32.
Definition COLON : Z := 58.
Definition COMMA : Z := 44.
Definition PIPE : Z := 124.
Definition PAREN : Z := 40.

Record DebPackage : Type := mkDeb {
  package : list Z; version : list Z; depends : list (list Z); filename : list Z;
  description : list Z }.

Definition field_get (fields : list (list Z * list Z)) (key : list Z) : option (list Z) :=
  snd <$> List.find (λ f, bool_decide (f.1 = key)) fields.

Fixpoint drop_while (p : Z → bool) (l : list Z) : list Z :=
  match l with
  | [] => []
  | b :: l' => if p b then drop_while p l' else l
  end.
Definition blank (b : Z) : bool := (b =? SPACE) || (b =? TAB).
Definition space (b : Z) : bool := blank b || (b =? NL) || (b =? CR).

Definition trim_ascii_start (s : list Z) : list Z := drop_while blank s.
Definition trim_ascii (s : list Z) : list Z :=
  reverse (drop_while space (reverse (drop_while space s))).

Definition to_ascii_lowercase (b : Z) : Z := if (65 <=? b) && (b <=? 90) then b + 32 else b.

(** The slice before the first [c], or all of it. *)
Fixpoint before (c : Z) (l : list Z) : list Z :=
  match l with
  | [] => []
  | b :: l' => if b =? c then [] else b :: before c l'
  end.
Fixpoint position (c : Z) (l : list Z) : option nat :=
  match l with
  | [] => None
  | b :: l' => if b =? c then Some 0%nat else S <$> position c l'
  end.

(** The value behind the colon: one leading space is dropped. *)
Definition field_value (line : list Z) (colon : nat) : list Z :=
  match drop (S colon) line with
  | b :: v => if b =? SPACE then v else b :: v
  | [] => []
  end.

Definition close_field (fields : list (list Z * list Z)) (key : option (list Z)) (val : list Z)
    : list (list Z * list Z) :=
  match key with Some k => fields ++ [(k, val)] | None => fields end.

(** The loop over the lines: the fields so far and the one being read. *)
Fixpoint parse_lines (lines : list (list Z)) (fields : list (list Z * list Z))
    (key : option (list Z)) (val : list Z) : option (list (list Z * list Z)) :=
  match lines with
  | [] => Some (close_field fields key val)
  | [] :: lines' => parse_lines lines' fields key val
  | (b :: line') :: lines' =>
      let line := b :: line' in
      if blank b then
        parse_lines lines' fields key
          ((match val with [] => [] | _ => val ++ [NL] end) ++ trim_ascii_start line)
      else
        colon ← position COLON line;
        parse_lines lines' (close_field fields key val)
          (Some (to_ascii_lowercase <$> take colon line)) (field_value line colon)
  end.
Definition parse_fields (data : list Z) : option (list (list Z * list Z)) :=
  parse_lines (split_on NL data) [] None [].

(** The name of one dependency: the first alternative, without its version. *)
Definition dep_name (dep : list Z) : list Z :=
  let primary := trim_ascii (before PIPE (trim_ascii dep)) in
  trim_ascii (before PAREN primary).
Definition parse_depends (s : list Z) : list (list Z) :=
  omap (λ dep, match dep_name dep with [] => None | n => Some n end) (split_on COMMA s).

Definition key_package : list Z := [112; 97; 99; 107; 97; 103; 101].
Definition key_version : list Z := [118; 101; 114; 115; 105; 111; 110].
Definition key_depends : list Z := [100; 101; 112; 101; 110; 100; 115].
Definition key_description : list Z := [100; 101; 115; 99; 114; 105; 112; 116; 105; 111; 110].
Definition key_filename : list Z := [102; 105; 108; 101; 110; 97; 109; 101].

Definition package_of (fields : list (list Z * list Z)) : option DebPackage :=
  pkg ← field_get fields key_package;
  ver ← field_get fields key_version;
  let get k := default [] (field_get fields k) in
  Some (mkDeb pkg ver (parse_depends (get key_depends)) (get key_filename) (get key_description)).
Definition parse_control (data : list Z) : option DebPackage := parse_fields data ≫= package_of.

(** [data[start..].windows(2).position(|w| w == b"\n\n")]. *)
Fixpoint find_gap (l : list Z) : option nat :=
  match l with
  | b :: ((b' :: _) as l') =>
      if (b =? NL) && (b' =? NL) then Some 0%nat else S <$> find_gap l'
  | _ => None
  end.

(** The data from [start]; each turn drops at least two bytes. *)
Fixpoint split_from (fuel : nat) (rest : list Z) : list (list Z) :=
  match fuel with
  | O => []
  | S fuel' =>
      match find_gap rest with
      | None => match trim_ascii rest with [] => [] | s => [s] end
      | Some n =>
          let stanza := drop_while (λ b, b =? NL) (take n rest) in
          let rest' := drop (n + 2) rest in
          match stanza with [] => [] | _ => [stanza] end ++
          match rest' with [] => [] | _ => split_from fuel' rest' end
      end
  end.
Definition split_stanzas (data : list Z) : list (list Z) := split_from (S (length data)) data.

Definition parse_index (data : list Z) : list DebPackage := omap parse_control (split_stanzas data).

(** ** Printing and parsing *)

Definition print_field (f : list Z * list Z) : list Z := f.1 ++ [COLON; SPACE] ++ f.2.
Definition print_fields (fs : list (list Z * list Z)) : list Z := join [NL] (print_field <$> fs).

(** A key in lower case that does not start with a blank, and a value of one line
    that does not end with white space. *)
Record field_ok (f : list Z * list Z) : Prop := mkFieldOk {
  key_head : ∃ b k, f.1 = b :: k ∧ space b = false;
  key_chars : Forall (λ b, to_ascii_lowercase b = b ∧ b ≠ COLON ∧ b ≠ NL) f.1;
  val_chars : Forall (λ b, b ≠ NL) f.2;
  val_last : ∃ v b, f.2 = v ++ [b] ∧ space b = false;
}.

Lemma position_app (c : Z) (p l : list Z) :
  Forall (λ b, b ≠ c) p → position c (p ++ c :: l) = Some (length p).
Proof.
  induction 1 as [|b p Hb Hp IH]; simpl; [by rewrite Z.eqb_refl|].
  by rewrite (proj2 (Z.eqb_neq _ _) Hb), IH.
Qed.

Lemma parse_printed_line (f : list Z * list Z) (lines : list (list Z)) fields key val :
  field_ok f →
  parse_lines (print_field f :: lines) fields key val =
    parse_lines lines (close_field fields key val) (Some f.1) f.2.
Proof.
  intros [(b & k & Hk & Hb) Hkey Hval _]. destruct f as [k' v]. simpl in *. subst k'.
  assert (position COLON ((b :: k) ++ COLON :: SPACE :: v) = Some (length (b :: k))) as Hpos.
  { apply position_app. eapply Forall_impl; [exact Hkey|]. by intros x (_ & H & _). }
  assert (to_ascii_lowercase <$> (b :: k) = b :: k) as Hlow.
  { rewrite <-(list_fmap_id (b :: k)) at 2. apply list_fmap_ext. intros i x Hx.
    rewrite Forall_lookup in Hkey. by apply Hkey in Hx as [? _]. }
  unfold print_field. cbn [fst snd parse_lines app].
  assert (blank b = false) as ->.
  { unfold space in Hb. apply orb_false_iff in Hb as [Hb _]. by apply orb_false_iff in Hb as [Hb _]. }
  change (b :: k ++ COLON :: SPACE :: v) with ((b :: k) ++ COLON :: SPACE :: v).
  change (if b =? COLON then Some 0%nat else S <$> position COLON (k ++ COLON :: SPACE :: v))
    with (position COLON ((b :: k) ++ COLON :: SPACE :: v)).
  rewrite Hpos. cbn [mbind option_bind]. rewrite take_app_length, Hlow. f_equal.
  unfold field_value. replace (S (length (b :: k))) with (length ((b :: k) ++ [COLON]))
    by (rewrite length_app; simpl; lia).
  change ((b :: k) ++ COLON :: SPACE :: v) with ((b :: k) ++ [COLON] ++ SPACE :: v).
  by rewrite app_assoc, drop_app_length.
Qed.

Lemma parse_printed_lines (fs : list (list Z * list Z)) fields key val :
  Forall field_ok fs →
  parse_lines (print_field <$> fs) fields key val = Some (close_field fields key val ++ fs).
Proof.
  intros Hok. revert fields key val. induction Hok as [|f fs Hf Hfs IH]; intros fields key val.
  { simpl. by rewrite app_nil_r. }
  rewrite fmap_cons, parse_printed_line, IH by done. destruct f. simpl. by rewrite <-app_assoc.
Qed.

Lemma printed_no_nl (f : list Z * list Z) : field_ok f → Forall (λ b, b ≠ NL) (print_field f).
Proof.
  intros [_ Hk Hv _]. unfold print_field. apply Forall_app. split.
  - eapply Forall_impl; [exact Hk|]. by intros x (_ & _ & H).
  - by repeat (constructor; [done|]).
Qed.

Lemma fields_roundtrip (fs : list (list Z * list Z)) :
  Forall field_ok fs → parse_fields (print_fields fs) = Some fs.
Proof.
  intros Hok. unfold parse_fields, print_fields. destruct fs as [|f fs]; [done|].
  rewrite split_on_join; [by apply parse_printed_lines|done|].
  apply Forall_fmap. eapply Forall_impl; [exact Hok|]. intros g. apply printed_no_nl.
Qed.

(** ** Stanzas *)

(** A stanza that the splitter returns as it is. *)
Record stanza_ok (s : list Z) : Prop := mkStanzaOk {
  stanza_head : ∃ b l, s = b :: l ∧ space b = false;
  stanza_last : ∃ l b, s = l ++ [b] ∧ space b = false;
  stanza_gap : find_gap s = None;
}.

Lemma drop_while_head (p : Z → bool) (b : Z) (l : list Z) :
  p b = false → drop_while p (b :: l) = b :: l.
Proof. intros Hb. simpl. by rewrite Hb. Qed.

Lemma trim_stanza (s : list Z) : stanza_ok s → trim_ascii s = s.
Proof.
  intros [(b & l & Hs & Hb) (l' & b' & Hs' & Hb') _]. unfold trim_ascii.
  rewrite Hs, (drop_while_head space b l Hb), <-Hs, Hs', reverse_snoc, drop_while_head by done.
  rewrite <-reverse_snoc. apply reverse_involutive.
Qed.

Lemma space_nl (b : Z) : space b = false → b ≠ NL.
Proof. intros Hb ->. discriminate. Qed.

Lemma find_gap_app (l rest : list Z) (b : Z) :
  b ≠ NL → find_gap (l ++ [b]) = None →
  find_gap (l ++ b :: NL :: NL :: rest) = Some (length (l ++ [b])).
Proof.
  intros Hb. induction l as [|x l IH].
  - intros _. simpl. by rewrite (proj2 (Z.eqb_neq _ _) Hb).
  - destruct l as [|y l].
    + simpl. destruct (x =? NL) eqn:Hx, (b =? NL) eqn:Hb'; try done; by apply Z.eqb_eq in Hb'.
    + change (find_gap ((x :: y :: l) ++ [b])) with
        (if (x =? NL) && (y =? NL) then Some 0%nat else S <$> find_gap ((y :: l) ++ [b])).
      change (find_gap ((x :: y :: l) ++ b :: NL :: NL :: rest)) with
        (if (x =? NL) && (y =? NL) then Some 0%nat else S <$> find_gap ((y :: l) ++ b :: NL :: NL :: rest)).
      destruct (_ && _); [done|]. intros Hn. rewrite IH; [done|]. by destruct (find_gap _).
Qed.

Lemma split_stanza (fuel : nat) (s rest : list Z) :
  stanza_ok s → rest ≠ [] →
  split_from (S fuel) (s ++ NL :: NL :: rest) = s :: split_from fuel rest.
Proof.
  intros [(b & l & Hs & Hb) (l' & b' & Hs' & Hb') Hg] Hr. cbn [split_from].
  assert (find_gap (s ++ NL :: NL :: rest) = Some (length s)) as ->.
  { rewrite Hs', <-app_assoc. apply find_gap_app; [by apply space_nl|by rewrite <-Hs']. }
  rewrite take_app_length.
  assert (drop_while (λ b, b =? NL) s = s) as ->.
  { rewrite Hs. apply drop_while_head. apply Z.eqb_neq. by apply space_nl. }
  change (NL :: NL :: rest) with ([NL; NL] ++ rest). rewrite app_assoc.
  replace (length s + 2)%nat with (length (s ++ [NL; NL])) by (rewrite length_app; simpl; lia).
  rewrite drop_app_length. rewrite Hs. by destruct rest.
Qed.

Lemma split_join (ss : list (list Z)) (fuel : nat) :
  Forall stanza_ok ss → (length ss < fuel)%nat → split_from fuel (join [NL; NL] ss) = ss.
Proof.
  intros Hok. revert fuel. induction Hok as [|s ss Hs Hss IH]; intros fuel Hf;
    (destruct fuel as [|fuel]; [simpl in Hf; lia|]); [done|].
  destruct ss as [|s2 ss].
  - cbn [join split_from]. rewrite (stanza_gap _ Hs), trim_stanza by done.
    destruct Hs as [(b & l & -> & _) _ _]. done.
  - change (join [NL; NL] (s :: s2 :: ss)) with (s ++ NL :: NL :: join [NL; NL] (s2 :: ss)).
    rewrite split_stanza, IH; [done|simpl in *; lia|done|].
    apply Forall_cons in Hss as [[(b & l & -> & _) _ _] _]. by destruct ss.
Qed.

Lemma length_join (ss : list (list Z)) : Forall stanza_ok ss → (length ss ≤ length (join [NL; NL] ss))%nat.
Proof.
  induction 1 as [|s ss Hs Hss IH]; [done|]. destruct Hs as [(b & l & -> & _) _ _].
  destruct ss as [|s2 ss]; [simpl; lia|].
  change (join [NL; NL] ((b :: l) :: s2 :: ss)) with ((b :: l) ++ [NL; NL] ++ join [NL; NL] (s2 :: ss)).
  rewrite !length_app. simpl in *. lia.
Qed.

(** ** Printed fields are stanzas *)

Lemma find_gap_line (l rest : list Z) (b : Z) :
  Forall (λ b, b ≠ NL) l → b ≠ NL → find_gap (b :: rest) = None →
  find_gap (l ++ NL :: b :: rest) = None ∧ find_gap (l ++ b :: rest) = None.
Proof.
  intros Hl Hb Hr. induction Hl as [|x l Hx Hl [IH1 IH2]].
  - split; [|exact Hr]. change (find_gap ([] ++ NL :: b :: rest)) with
      (if (NL =? NL) && (b =? NL) then Some 0%nat else S <$> find_gap (b :: rest)).
    by rewrite (proj2 (Z.eqb_neq _ _) Hb), andb_false_r, Hr.
  - split.
    + destruct l as [|y l]; simpl; rewrite (proj2 (Z.eqb_neq _ _) Hx); simpl in *; by rewrite IH1.
    + destruct l as [|y l]; simpl; rewrite (proj2 (Z.eqb_neq _ _) Hx); simpl in *; by rewrite IH2.
Qed.

Lemma find_gap_no_nl (l : list Z) : Forall (λ b, b ≠ NL) l → find_gap l = None.
Proof.
  induction 1 as [|x l Hx Hl IH]; [done|]. destruct l as [|y l]; [done|].
  change (find_gap (x :: y :: l)) with
    (if (x =? NL) && (y =? NL) then Some 0%nat else S <$> find_gap (y :: l)).
  by rewrite (proj2 (Z.eqb_neq _ _) Hx), IH.
Qed.

Lemma printed_stanza (fs : list (list Z * list Z)) :
  fs ≠ [] → Forall field_ok fs → stanza_ok (print_fields fs).
Proof.
  intros Hne Hok. induction Hok as [|f fs Hf Hfs IH]; [done|].
  pose proof (printed_no_nl f Hf) as Hnl. destruct Hf as [(b & k & Hk & Hb) _ _ (v & b' & Hv & Hb')].
  assert (print_field f = b :: k ++ [COLON; SPACE] ++ f.2) as Hp by (unfold print_field; by rewrite Hk).
  destruct fs as [|g fs].
  - unfold print_fields. simpl. split; [eauto| |by apply find_gap_no_nl].
    exists (f.1 ++ [COLON; SPACE] ++ v), b'. unfold print_field. rewrite Hv, <-!app_assoc. done.
  - destruct IH as [(b2 & l2 & Hs2 & Hb2) (l3 & b3 & Hs3 & Hb3) Hg]; [done|].
    change (print_fields (f :: g :: fs)) with (print_field f ++ [NL] ++ print_fields (g :: fs)).
    split.
    + rewrite Hp. eauto.
    + exists (print_field f ++ [NL] ++ l3), b3. rewrite Hs3, <-!app_assoc. done.
    + rewrite Hs2. apply (find_gap_line (print_field f) l2 b2);
        [done|by apply space_nl|by rewrite <-Hs2].
Qed.

(** an index of packages is read back: stanzas of one-line fields, printed one
    field per line with an empty line between stanzas, give the packages of their
    fields, in order, and nothing else. *)
Theorem index_roundtrip (fss : list (list (list Z * list Z))) :
  Forall (λ fs, fs ≠ [] ∧ Forall field_ok fs) fss →
  parse_index (join [NL; NL] (print_fields <$> fss)) = omap package_of fss.
Proof.
  intros Hok. assert (Forall stanza_ok (print_fields <$> fss)) as Hst.
  { apply Forall_fmap. eapply Forall_impl; [exact Hok|]. intros fs [? ?]. by apply printed_stanza. }
  unfold parse_index, split_stanzas. rewrite split_join; [|done|].
  - clear Hst. induction Hok as [|fs fss [_ Hfs] _ IH]; [done|]. rewrite fmap_cons. simpl.
    unfold parse_control at 1. rewrite fields_roundtrip by done. cbn [mbind option_bind].
    destruct (package_of fs); [f_equal|]; exact IH.
  - pose proof (length_join _ Hst). lia.
Qed.

Lemma index_roundtrip_witness :
  parse_index (join [NL; NL] [print_fields [(key_package, [97]); (key_version, [49])];
                              print_fields [(key_package, [98]); (key_version, [50]);
                                            (key_depends, [97; 32; 40; 49; 41])]])
    = [mkDeb [97] [49] [] [] []; mkDeb [98] [50] [[97]] [] []].
Proof.
  apply (index_roundtrip [[(key_package, [97]); (key_version, [49])];
    [(key_package, [98]); (key_version, [50]); (key_depends, [97; 32; 40; 49; 41])]]).
  assert (∀ k v b, List.In k [key_package; key_version; key_depends] →
    Forall (λ b, b ≠ NL) v → space b = false → b ≠ NL → field_ok (k, v ++ [b])) as Hf.
  { intros k v b Hk Hv Hb Hn. split; cbn [fst snd].
    - destruct Hk as [<- | [<- | [<- | []]]]; do 2 eexists; split; reflexivity.
    - destruct Hk as [<- | [<- | [<- | []]]]; repeat constructor; discriminate.
    - apply Forall_app. split; [exact Hv|]. repeat constructor. exact Hn.
    - exists v, b. split; [reflexivity|exact Hb]. }
  repeat constructor; try discriminate; first
    [ apply (Hf _ []) | apply (Hf _ [97; 32; 40; 49]) ];
    try (simpl; tauto); try reflexivity; try discriminate; repeat constructor; discriminate.
Defined.
End Deb.
