(* ===== verification/PkgArchive.v ===== *)
(** * Archives and downloads of the package manager (user/pkg/src/main.rs, ar.rs, http.rs)

    A Debian package is an [ar] archive of compressed [tar] archives that comes in an HTTP
    response.  Modules [Tar], [Ar] and [Http] are the three parsers, each with a printer
    and the theorem that it reads back what the printer wrote: [tar_roundtrip],
    [ar_roundtrip], [http_body]. *)

From Stdlib Require Import ZArith Lia.
From stdpp Require Import prelude strings.
From S2P Require Import Prelude PkgFormats.

Local Open Scope Z_scope.

Lemma before_app c l l' : c ∉ l → Deb.before c (l ++ c :: l') = l.
Proof.
  induction l as [|b l IH]; cbn; intros H; [by rewrite Z.eqb_refl|]. apply not_elem_of_cons in H as [H1 H2].
  destruct (Z.eqb_spec b c); [congruence|]. by rewrite IH.
Qed.

Lemma before_all c l : c ∉ l → Deb.before c l = l.
Proof.
  induction l as [|b l IH]; cbn; intros H; [done|]. apply not_elem_of_cons in H as [H1 H2].
  destruct (Z.eqb_spec b c); [congruence|]. by rewrite IH.
Qed.

(** ** Numbers in text *)

(** The characters [str::trim] removes, in UTF-8. *)
Definition white : list (list Z) :=
  [[9]; [10]; [11]; [12]; [13]; [32]; [0xC2; 0x85]; [0xC2; 0xA0]; [0xE1; 0x9A; 0x80];
   [0xE2; 0x80; 0x80]; [0xE2; 0x80; 0x81]; [0xE2; 0x80; 0x82]; [0xE2; 0x80; 0x83]; [0xE2; 0x80; 0x84]; [0xE2; 0x80; 0x85];
   [0xE2; 0x80; 0x86]; [0xE2; 0x80; 0x87]; [0xE2; 0x80; 0x88]; [0xE2; 0x80; 0x89]; [0xE2; 0x80; 0x8A];
   [0xE2; 0x80; 0xA8]; [0xE2; 0x80; 0xA9]; [0xE2; 0x80; 0xAF]; [0xE2; 0x81; 0x9F]; [0xE3; 0x80; 0x80]].

Definition starts (w s : list Z) : bool := bool_decide (take (length w) s = w).
Fixpoint strip (fuel : nat) (ws : list (list Z)) (s : list Z) : list Z :=
  match fuel with
  | O => s
  | S f => match List.find (λ w, starts w s) ws with Some w => strip f ws (drop (length w) s) | None => s end
  end.
Definition trim (s : list Z) : list Z :=
  let s' := strip (length s) white s in
  reverse (strip (length s') (reverse <$> white) (reverse s')).

Definition digit (b : Z) : bool := (48 <=? b) && (b <=? 57).
Fixpoint digits_from (max acc : Z) (s : list Z) : option Z :=
  match s with
  | [] => Some acc
  | b :: s' =>
      if digit b then let acc' := acc * 10 + (b - 48) in if acc' <=? max then digits_from max acc' s' else None
      else None
  end.
(** [str::parse] of an unsigned type with values up to [max]. *)
Definition parse_uint (max : Z) (s : list Z) : option Z :=
  match s with
  | [] => None
  | b :: s' => if b =? 43 then match s' with [] => None | _ => digits_from max 0 s' end else digits_from max 0 s
  end.

Definition dec_val (s : list Z) : Z := foldl (λ acc b, acc * 10 + (b - 48)) 0 s.
Definition decimal (s : list Z) (x : Z) : Prop := s ≠ [] ∧ Forall (λ b, digit b = true) s ∧ dec_val s = x.

Lemma digit_range b : digit b = true → 48 ≤ b ≤ 57.
Proof. unfold digit. intros [?%Z.leb_le ?%Z.leb_le]%andb_true_iff. lia. Qed.

Lemma dec_val_grows s : ∀ acc, 0 ≤ acc → Forall (λ b, digit b = true) s → acc ≤ foldl (λ acc b, acc * 10 + (b - 48)) acc s.
Proof.
  induction s as [|b s IH]; intros acc Ha Hs; cbn [foldl]; [lia|]. apply Forall_cons in Hs as [Hb%digit_range Hs].
  specialize (IH (acc * 10 + (b - 48)) ltac:(lia) Hs). lia.
Qed.

Lemma parse_decimal max s x : decimal s x → x ≤ max → parse_uint max s = Some x.
Proof.
  intros (Hne & Hd & <-) Hx. assert (∀ s acc, 0 ≤ acc → Forall (λ b, digit b = true) s →
    foldl (λ acc b, acc * 10 + (b - 48)) acc s ≤ max → digits_from max acc s = Some (foldl (λ acc b, acc * 10 + (b - 48)) acc s)) as H.
  { clear. induction s as [|b s IH]; intros acc Ha Hs Hm; [done|]. apply Forall_cons in Hs as [Hb Hs].
    cbn [digits_from foldl] in *. rewrite Hb. apply digit_range in Hb.
    pose proof (dec_val_grows s (acc * 10 + (b - 48)) ltac:(lia) Hs). rewrite (proj2 (Z.leb_le _ _)) by lia. apply IH; [lia|done|done]. }
  destruct s as [|b s]; [done|]. unfold parse_uint. apply Forall_cons in Hd as [Hb Hd]. pose proof (digit_range b Hb).
  destruct (Z.eqb_spec b 43); [lia|]. apply H; [lia|by constructor|done].
Qed.

(** Nothing white begins with a digit. *)
Lemma strip_digit fuel ws b s : digit b = true → Forall (λ w, match w with [] => False | c :: _ => digit c = false end) ws →
  strip fuel ws (b :: s) = b :: s.
Proof.
  intros Hb Hws. destruct fuel; [done|]. cbn [strip]. destruct (List.find _ ws) as [w|] eqn:E; [|done].
  apply find_some in E as [Hin Hst]. rewrite Forall_forall in Hws. specialize (Hws w (proj2 (list_elem_of_In _ _) Hin)).
  destruct w as [|c w]; [done|]. unfold starts in Hst. apply bool_decide_eq_true in Hst. injection Hst as -> _. congruence.
Qed.

Lemma strip_spaces ws b s : ∀ k fuel, [32] ∈ ws → Forall (λ w, w = [32] ∨ match w with [] => False | c :: _ => c ≠ 32 end) ws → digit b = true →
  Forall (λ w, match w with [] => False | c :: _ => digit c = false end) ws → (k ≤ fuel)%nat →
  strip fuel ws (replicate k 32 ++ b :: s) = b :: s.
Proof.
  intros k fuel Hin H32 Hb Hws. revert fuel. induction k as [|k IH]; intros fuel Hf; [by apply strip_digit|].
  destruct fuel as [|fuel]; [lia|]. cbn [replicate app strip].
  destruct (List.find _ ws) as [w|] eqn:E.
  - apply find_some in E as [Hw Hst]. rewrite Forall_forall in H32.
    destruct (H32 w (proj2 (list_elem_of_In _ _) Hw)) as [->|Hc]; [apply IH; lia|].
    destruct w as [|c w]; [done|]. unfold starts in Hst. apply bool_decide_eq_true in Hst. by injection Hst as <- _.
  - apply list_elem_of_In in Hin. pose proof (find_none _ _ E _ Hin) as Hno. by unfold starts in Hno; rewrite bool_decide_true in Hno.
Qed.

Lemma white_ok : let P := Forall (λ w : list Z, match w with [] => False | c :: _ => digit c = false end) in
  let Q := Forall (λ w : list Z, w = [32] ∨ match w with [] => False | c :: _ => c ≠ 32 end) in
  P white ∧ P (reverse <$> white) ∧ Q (reverse <$> white) ∧ [32] ∈ (reverse <$> white).
Proof. split_and!; cbn; [repeat constructor..|repeat (constructor; [first [by left|by right]|]); constructor|set_solver]. Qed.

Lemma trim_field d x k : decimal d x → trim (d ++ replicate k 32) = d.
Proof.
  intros (Hne & Hd & _). destruct white_ok as (W1 & W2 & W3 & W4). unfold trim.
  assert (∃ b d', d = b :: d' ∧ digit b = true) as (b & d' & Eb & Hb).
  { destruct d as [|b d']; [done|]. apply Forall_cons in Hd as [Hb _]. by exists b, d'. }
  assert (∀ n, strip n white (d ++ replicate k 32) = d ++ replicate k 32) as -> by (intros n; rewrite Eb; by apply strip_digit).
  cbv zeta. clear Eb.
  destruct d as [|c d0 _] using rev_ind; [done|]. apply Forall_app in Hd as [_ Hc]. apply Forall_cons in Hc as [Hc _].
  rewrite reverse_app, reverse_replicate, reverse_snoc. rewrite strip_spaces; [|done..|rewrite !length_app, length_replicate; lia].
  by rewrite <-reverse_snoc, reverse_involutive.
Qed.

Module Tar.

Fixpoint octal_from (v : Z) (bytes : list Z) : Z :=
  match bytes with
  | [] => v
  | b :: bs =>
      if (b =? 0) || (b =? 32) then v
      else octal_from (if (48 <=? b) && (b <? 56) then v * 8 + (b - 48) else v) bs
  end.
Definition octal_val (bytes : list Z) : Z := octal_from 0 bytes.

Record TarEntry : Type := mkTar { te_name : list Z; te_data : list Z }.

Definition entry_name (header : list Z) : list Z := Deb.before 0 (take 100 header).
Definition entry_size (header : list Z) : Z := octal_val (slice header 124 12).
Definition type_flag (header : list Z) : Z := default 0 (header !! 156%nat).
Definition div_ceil (a b : nat) : nat := (a / b + (if (a mod b =? 0)%nat then 0 else 1))%nat.

(** Every turn moves on by a block, so the length of the archive is enough fuel. *)
Fixpoint extract_from (fuel : nat) (data : list Z) (pos : nat) (consecutive_zero : nat) : list TarEntry :=
  match fuel with
  | O => []
  | S f =>
      if (length data <? pos + 512)%nat then []
      else
        let header := slice data pos 512 in
        if forallb (λ b, b =? 0) header then
          if (2 <=? S consecutive_zero)%nat then [] else extract_from f data (pos + 512) (S consecutive_zero)
        else
          let data_start := (pos + 512)%nat in
          if Z.of_nat (length data) <? Z.of_nat data_start + entry_size header then []
          else
            let size := Z.to_nat (entry_size header) in
            let rest := extract_from f data (data_start + div_ceil size 512 * 512) 0 in
            if (type_flag header =? 0) || (type_flag header =? 48)
            then mkTar (entry_name header) (slice data data_start size) :: rest
            else rest
  end.
Definition extract_tar (data : list Z) : list TarEntry := extract_from (length data) data 0 0.

Definition tar_entry (entries : list TarEntry) (name : list Z) : option TarEntry :=
  List.find (λ e, bool_decide (te_name e = name)) entries.

(** ** An archive of files *)

Fixpoint to_octal (n : nat) (x : Z) : list Z :=
  match n with
  | O => []
  | S n' => to_octal n' (x / 8) ++ [48 + x mod 8]
  end.

Definition pad_to (n : nat) (l : list Z) : list Z := l ++ replicate (n - length l) 0.
Definition print_header (name : list Z) (size : Z) : list Z :=
  pad_to 100 name ++ replicate 24 0 ++ (to_octal 11 size ++ [0]) ++ replicate 20 0 ++ [48] ++ replicate 355 0.
Definition print_entry (e : TarEntry) : list Z :=
  print_header (te_name e) (Z.of_nat (length (te_data e))) ++
  pad_to (div_ceil (length (te_data e)) 512 * 512) (te_data e).
Definition print_tar (es : list TarEntry) : list Z := concat (print_entry <$> es) ++ replicate 1024 0.

Definition entry_ok (e : TarEntry) : Prop :=
  (0 ∉ te_name e) ∧ (length (te_name e) ≤ 100)%nat ∧ Z.of_nat (length (te_data e)) < 8 ^ 11.

Lemma length_to_octal n x : length (to_octal n x) = n.
Proof. revert x. induction n as [|n IH]; intros x; [done|]. cbn. rewrite length_app, IH. cbn. lia. Qed.

Lemma octal_digits n x v bs : 0 ≤ x < 8 ^ Z.of_nat n →
  octal_from v (to_octal n x ++ bs) = octal_from (v * 8 ^ Z.of_nat n + x) bs.
Proof.
  revert x bs v. induction n as [|n IH]; intros x bs v Hx; cbn [to_octal].
  - cbn in Hx. replace x with 0 by lia. cbn [app Z.of_nat]. f_equal. lia.
  - rewrite Nat2Z.inj_succ, Z.pow_succ_r in * by lia. rewrite <-app_assoc, IH.
    2: { split; [apply Z.div_pos; lia|]. apply Z.div_lt_upper_bound; lia. }
    pose proof (Z.mod_pos_bound x 8). cbn [app octal_from]. destruct (Z.eqb_spec (48 + x mod 8) 0); [lia|].
    destruct (Z.eqb_spec (48 + x mod 8) 32); [lia|]. cbn [orb].
    destruct (Z.leb_spec 48 (48 + x mod 8)), (Z.ltb_spec (48 + x mod 8) 56); try lia. cbn [andb]. f_equal.
    pose proof (Z.div_mod x 8). lia.
Qed.

Lemma length_pad_to n l : (length l ≤ n)%nat → length (pad_to n l) = n.
Proof. intros H. unfold pad_to. rewrite length_app, length_replicate. lia. Qed.

Lemma length_header name size : (length name ≤ 100)%nat → length (print_header name size) = 512%nat.
Proof.
  intros H. unfold print_header. rewrite !length_app, !length_replicate, length_pad_to, length_to_octal by done. reflexivity.
Qed.

Lemma header_fields e rest : entry_ok e → let header := print_header (te_name e) (Z.of_nat (length (te_data e))) in
  slice (header ++ rest) 0 512 = header ∧ entry_name header = te_name e ∧ entry_size header = Z.of_nat (length (te_data e)) ∧
  type_flag header = 48 ∧ forallb (λ b, b =? 0) header = false.
Proof.
  intros (Hn & Hl & Hs) header. pose proof (length_header (te_name e) (Z.of_nat (length (te_data e))) Hl) as Hlen. fold header in Hlen.
  assert (header !! 156%nat = Some 48) as Hflag.
  { unfold header, print_header. rewrite !app_assoc. rewrite lookup_app_l.
    - rewrite list_lookup_middle; [done|]. rewrite !length_app, !length_replicate, length_pad_to, length_to_octal by done. done.
    - rewrite !length_app, !length_replicate, length_pad_to, length_to_octal by done. cbn. lia. }
  split_and!.
  - unfold slice. rewrite drop_0, <-Hlen. by rewrite take_app_length.
  - unfold entry_name, header, print_header. rewrite take_app_le by (by rewrite length_pad_to).
    rewrite take_ge by (by rewrite length_pad_to). unfold pad_to. destruct (100 - length (te_name e))%nat; cbn [replicate].
    + rewrite app_nil_r. by apply before_all.
    + by apply before_app.
  - unfold entry_size, header, print_header, slice. rewrite drop_app_ge by (rewrite length_pad_to by done; lia).
    rewrite length_pad_to by done. rewrite drop_app_ge by (rewrite length_replicate; lia). rewrite length_replicate, drop_0.
    rewrite take_app_le by (rewrite length_app, length_to_octal; cbn; lia). rewrite take_ge by (rewrite length_app, length_to_octal; cbn; lia).
    unfold octal_val. rewrite octal_digits by (change (Z.of_nat 11) with 11; lia). cbn [octal_from Z.eqb orb]. lia.
  - unfold type_flag. by rewrite Hflag.
  - apply not_true_is_false. intros Ha. rewrite forallb_forall in Ha. specialize (Ha 48). cbn in Ha.
    apply list_elem_of_lookup_2 in Hflag. apply list_elem_of_In in Hflag. by apply Ha in Hflag.
Qed.

Lemma slice_app_len {A} (pre l : list A) n : slice (pre ++ l) (length pre) n = slice l 0 n.
Proof. unfold slice. by rewrite drop_app_length, drop_0. Qed.

Lemma blocks_enough n : (n ≤ div_ceil n 512 * 512)%nat.
Proof.
  unfold div_ceil. pose proof (Nat.div_mod_eq n 512). pose proof (Nat.mod_upper_bound n 512).
  destruct (Nat.eqb_spec (n mod 512) 0); lia.
Qed.

Lemma length_entry e : entry_ok e → length (print_entry e) = (512 + div_ceil (length (te_data e)) 512 * 512)%nat.
Proof. intros (_ & Hl & _). unfold print_entry. rewrite length_app, length_header, length_pad_to by (done || apply blocks_enough). done. Qed.

Lemma extract_entry fuel pre e post z : entry_ok e →
  extract_from (S fuel) (pre ++ print_entry e ++ post) (length pre) z =
  e :: extract_from fuel (pre ++ print_entry e ++ post) (length (pre ++ print_entry e)) 0.
Proof.
  intros He. pose proof (length_entry e He) as Hlen. pose proof (blocks_enough (length (te_data e))) as Hb.
  set (data := pre ++ print_entry e ++ post).
  assert (length data = length pre + length (print_entry e) + length post)%nat as Hd by (unfold data; rewrite !length_app; lia).
  destruct (header_fields e (pad_to (div_ceil (length (te_data e)) 512 * 512) (te_data e) ++ post) He) as (H0 & H1 & H2 & H3 & H4).
  set (header := print_header _ _) in *.
  assert (slice data (length pre) 512 = header) as Hh.
  { unfold data. rewrite slice_app_len. unfold print_entry. fold header. rewrite <-app_assoc. exact H0. }
  cbn [extract_from]. rewrite (proj2 (Nat.ltb_ge _ _)) by lia. rewrite Hh, H4, H2, H3, H1, Nat2Z.id.
  rewrite (proj2 (Z.ltb_ge _ _)) by lia. change ((48 =? 0) || (48 =? 48)) with true. cbn match. f_equal.
  - assert (slice data (length pre + 512) (length (te_data e)) = te_data e) as ->; [|by destruct e].
    destruct He as (_ & Hl & _). pose proof (length_header (te_name e) (Z.of_nat (length (te_data e))) Hl) as Hhl. fold header in Hhl.
    unfold data, print_entry. fold header. rewrite <-Hhl, <-length_app, <-!app_assoc, app_assoc, slice_app_len.
    unfold slice, pad_to. rewrite drop_0, <-app_assoc. by rewrite take_app_length.
  - f_equal. rewrite length_app, Hlen. lia.
Qed.

Lemma extract_zeros fuel pre : (2 ≤ fuel)%nat → extract_from fuel (pre ++ replicate 1024 0) (length pre) 0 = [].
Proof.
  intros Hf. destruct fuel as [|[|fuel]]; [lia..|].
  assert (∀ n l, slice (replicate n 0 ++ l) 0 n = replicate n 0) as Hz.
  { intros n l. unfold slice. rewrite drop_0. rewrite <-(length_replicate n 0) at 1. by rewrite take_app_length. }
  cbn [extract_from]. rewrite length_app, length_replicate. rewrite (proj2 (Nat.ltb_ge _ _)) by lia.
  rewrite slice_app_len. change (replicate 1024 0) with (replicate 512 0 ++ replicate 512 0). rewrite Hz.
  change (forallb _ (replicate 512 0)) with true. cbn match. change (2 <=? 1)%nat with false. cbn match.
  rewrite (proj2 (Nat.ltb_ge _ _)) by lia. replace (length pre + 512)%nat with (length (pre ++ replicate 512 0)) by (by rewrite length_app, length_replicate).
  rewrite (app_assoc pre), slice_app_len. change (slice (replicate 512 0) 0 512) with (replicate 512 0).
  change (forallb _ (replicate 512 0)) with true. reflexivity.
Qed.

Lemma extract_entries es : ∀ fuel pre z, Forall entry_ok es → (length es + 2 ≤ fuel)%nat → (es = [] → z = 0%nat) →
  extract_from fuel (pre ++ print_tar es) (length pre) z = es.
Proof.
  induction es as [|e es IH]; intros fuel pre z Hes Hf Hz.
  - rewrite Hz by done. apply extract_zeros. cbn in Hf. lia.
  - apply Forall_cons in Hes as [He Hes]. destruct fuel as [|fuel]; [cbn in Hf; lia|].
    replace (pre ++ print_tar (e :: es)) with (pre ++ print_entry e ++ print_tar es) 
      by (unfold print_tar; cbn [fmap list_fmap concat]; by rewrite <-!app_assoc).
    rewrite extract_entry by done. f_equal. rewrite app_assoc. apply IH; [done|cbn in Hf; lia|done].
Qed.

Lemma tar_unpacks es : Forall entry_ok es → extract_tar (print_tar es) = es.
Proof.
  intros Hes. apply (extract_entries es (length (print_tar es)) [] 0); [done| |done].
  unfold print_tar. rewrite length_app, length_replicate.
  assert (length es ≤ length (concat (print_entry <$> es)))%nat; [|lia].
  induction Hes as [|e es He _ IH]; [done|]. cbn. rewrite length_app, length_entry by done. lia.
Qed.

(** files packed into a tar archive come out of it, in order, with their names and bytes. *)
Theorem tar_roundtrip es : Forall entry_ok es → extract_tar (print_tar es) = es.
Proof. apply tar_unpacks. Qed.

Lemma tar_roundtrip_witness :
  extract_tar (print_tar [mkTar [46; 47; 97] [1; 2; 3]; mkTar [98] []]) = [mkTar [46; 47; 97] [1; 2; 3]; mkTar [98] []].
Proof.
  apply tar_roundtrip. repeat constructor; unfold entry_ok; cbn; try lia; intros H; repeat (apply elem_of_cons in H as [H|H]; [discriminate|]); by apply not_elem_of_nil in H.
Defined.

End Tar.

Module Ar.

Record ArEntry : Type := mkAr { ae_name : list Z; ae_data : list Z }.

Definition SLASH : Z := 47.
Definition magic : list Z := [33; 60; 97; 114; 99; 104; 62; 10].
Definition parse_name (data : list Z) : list Z := Deb.before SLASH data.

Definition parse_size (size_raw : list Z) : option Z :=
  if utf8_valid size_raw then parse_uint usize_max (trim size_raw) else None.

(** Every turn moves on by a header, so the length of the archive is enough fuel. *)
Fixpoint parse_from (fuel : nat) (input : list Z) (pos : nat) : option (list ArEntry) :=
  match fuel with
  | O => Some []
  | S f =>
      if (length input <? pos + 60)%nat then Some []
      else
        size ← parse_size (slice input (pos + 48) 10);
        let name := parse_name (slice input pos 16) in
        if Z.of_nat (length input) <? Z.of_nat (pos + 60) + size then None
        else
          let n := Z.to_nat size in
          rest ← parse_from f input (pos + 60 + n + n mod 2);
          Some (mkAr name (slice input (pos + 60) n) :: rest)
  end.
Definition parse_ar (input : list Z) : option (list ArEntry) :=
  if (length input <? 8)%nat || negb (bool_decide (take 8 input = magic)) then None
  else parse_from (length input) input 8.

(** ** An archive of members *)

(** A member with the fields of its header the parser skips and the digits of its size. *)
Record member : Type := mkMember { m_entry : ArEntry; m_meta : list Z; m_digits : list Z }.

Definition spaces (n : nat) (l : list Z) : list Z := l ++ replicate (n - length l) 32.
Definition print_head (m : member) : list Z :=
  spaces 16 (ae_name (m_entry m) ++ [SLASH]) ++ m_meta m ++ spaces 10 (m_digits m) ++ [96; 10].
Definition print_member (m : member) : list Z :=
  print_head m ++ ae_data (m_entry m) ++ replicate (length (ae_data (m_entry m)) mod 2) 10.
Definition print_ar (ms : list member) : list Z := magic ++ concat (print_member <$> ms).

Record member_ok (m : member) : Prop := {
  mk_name : SLASH ∉ ae_name (m_entry m);
  mk_name_length : (length (ae_name (m_entry m)) ≤ 15)%nat;
  mk_meta : length (m_meta m) = 32%nat;
  mk_digits : decimal (m_digits m) (Z.of_nat (length (ae_data (m_entry m))));
  mk_digits_length : (length (m_digits m) ≤ 10)%nat;
  mk_size : Z.of_nat (length (ae_data (m_entry m))) ≤ usize_max;
}.

Lemma length_spaces n l : (length l ≤ n)%nat → length (spaces n l) = n.
Proof. intros H. unfold spaces. rewrite length_app, length_replicate. lia. Qed.

Lemma length_head m : member_ok m → length (print_head m) = 60%nat.
Proof.
  intros Hm. unfold print_head. rewrite !length_app, !length_spaces, (mk_meta m Hm);
    [done|apply Hm|rewrite length_app; pose proof (mk_name_length m Hm); cbn; lia].
Qed.

Lemma ascii_utf8 l : Forall (λ b, b < 128) l → utf8_valid l = true.
Proof.
  induction 1 as [|b l Hb _ IH]; [done|]. cbn [utf8_valid]. by rewrite (proj2 (Z.ltb_lt _ _) Hb).
Qed.

Lemma head_fields m rest : member_ok m →
  parse_name (slice (print_head m ++ rest) 0 16) = ae_name (m_entry m) ∧
  parse_size (slice (print_head m ++ rest) 48 10) = Some (Z.of_nat (length (ae_data (m_entry m)))).
Proof.
  intros Hm. pose proof (mk_name_length m Hm) as Hnl. pose proof (mk_digits_length m Hm) as Hdl. unfold print_head, slice. split.
  - rewrite drop_0, <-!app_assoc, take_app_length' by (rewrite length_spaces; [done|rewrite length_app; cbn; lia]).
    unfold parse_name, spaces. rewrite <-app_assoc. apply before_app, Hm.
  - rewrite <-!app_assoc, (app_assoc (spaces 16 _)), drop_app_length'.
    2: { rewrite length_app, length_spaces, (mk_meta m Hm); [done|rewrite length_app; cbn; lia]. }
    rewrite take_app_length' by (by rewrite length_spaces). unfold parse_size, spaces.
    rewrite (trim_field _ _ _ (mk_digits m Hm)), ascii_utf8, (parse_decimal _ _ _ (mk_digits m Hm)); [done|apply Hm|].
    destruct (mk_digits m Hm) as (_ & Hd & _). apply Forall_app. split; [|apply Forall_replicate; lia].
    eapply Forall_impl; [exact Hd|]. intros b Hb%digit_range. lia.
Qed.

Lemma parse_member fuel pre m post : member_ok m →
  parse_from (S fuel) (pre ++ print_member m ++ post) (length pre) =
  (rest ← parse_from fuel (pre ++ print_member m ++ post) (length (pre ++ print_member m)); Some (m_entry m :: rest)).
Proof.
  intros Hm. pose proof (length_head m Hm) as Hh. set (data := ae_data (m_entry m)). set (input := pre ++ print_member m ++ post).
  assert (length (print_member m) = 60 + length data + length data mod 2)%nat as Hl.
  { unfold print_member. rewrite !length_app, length_replicate, Hh. fold data. lia. }
  assert (length input = length pre + length (print_member m) + length post)%nat as Hi by (unfold input; rewrite !length_app; lia).
  destruct (head_fields m (data ++ replicate (length data mod 2) 10 ++ post) Hm) as [H1 H2].
  assert (∀ o n, slice input (length pre + o) n = slice (print_head m ++ data ++ replicate (length data mod 2) 10 ++ post) o n) as Hs.
  { intros o n. unfold input, print_member, slice. fold data. rewrite <-!app_assoc. by rewrite <-drop_drop, drop_app_length. }
  cbn [parse_from]. rewrite (proj2 (Nat.ltb_ge _ _)) by lia.
  pose proof (Hs 0%nat 16%nat) as Hs0. rewrite Nat.add_0_r in Hs0.
  rewrite Hs, H2, Hs0, H1. cbn [mbind option_bind]. fold data.
  rewrite (proj2 (Z.ltb_ge _ _)) by lia. rewrite Nat2Z.id, Hs.
  replace (length (pre ++ print_member m)) with (length pre + 60 + length data + length data mod 2)%nat by (rewrite length_app; lia).
  destruct (parse_from fuel input _); [|done]. cbn. do 2 f_equal.
  unfold slice. rewrite <-Hh, drop_app_length, take_app_length. unfold data. by destruct (m_entry m).
Qed.

Lemma parse_members ms : ∀ fuel pre, Forall member_ok ms → (length ms < fuel)%nat →
  parse_from fuel (pre ++ concat (print_member <$> ms)) (length pre) = Some (m_entry <$> ms).
Proof.
  induction ms as [|m ms IH]; intros fuel pre Hms Hf; (destruct fuel as [|fuel]; [cbn in Hf; lia|]).
  - cbn [fmap list_fmap concat]. rewrite app_nil_r. cbn [parse_from]. by rewrite (proj2 (Nat.ltb_lt _ _)) by lia.
  - apply Forall_cons in Hms as [Hm Hms]. cbn [fmap list_fmap concat]. rewrite parse_member by done.
    rewrite app_assoc, IH; [done|done|cbn in Hf; lia].
Qed.

Lemma ar_unpacks ms : Forall member_ok ms → parse_ar (print_ar ms) = Some (m_entry <$> ms).
Proof.
  intros Hms. unfold parse_ar, print_ar. rewrite length_app. change (length magic) with 8%nat. rewrite (proj2 (Nat.ltb_ge _ _)) by lia.
  rewrite take_app_length' by done. rewrite bool_decide_true by done. cbn [negb orb].
  change 8%nat with (length magic) at 2. apply parse_members; [done|].
  assert (length ms ≤ length (concat (print_member <$> ms)))%nat; [|lia].
  clear -Hms. induction Hms as [|m ms Hm _ IH]; [done|]. cbn [fmap list_fmap concat length]. unfold print_member at 1.
  rewrite !length_app, length_head by done. lia.
Qed.

(** members packed into an [ar] archive come out of it, in order, with their names and
    bytes, whatever the other fields of their headers are. *)
Theorem ar_roundtrip ms : Forall member_ok ms → parse_ar (print_ar ms) = Some (m_entry <$> ms).
Proof. apply ar_unpacks. Qed.

Definition demo_member : member := mkMember (mkAr [99] [1; 2; 3]) (replicate 32 32) [51].

Lemma ar_roundtrip_witness : parse_ar (print_ar [demo_member; demo_member]) = Some [mkAr [99] [1; 2; 3]; mkAr [99] [1; 2; 3]].
Proof.
  assert (member_ok demo_member) as H.
  { split; [|cbn; lia|reflexivity|split_and!; [discriminate|repeat constructor|reflexivity]|cbn; lia|vm_compute; discriminate].
    cbn. intros H. apply elem_of_cons in H as [H|H]; [discriminate|]. by apply not_elem_of_nil in H. }
  apply (ar_roundtrip [demo_member; demo_member]). constructor; [exact H|constructor; [exact H|constructor]].
Defined.

End Ar.

Module Http.

Definition CRLF : list Z := [13; 10].
Definition content_length_1 : list Z := [67; 111; 110; 116; 101; 110; 116; 45; 76; 101; 110; 103; 116; 104; 58].
Definition content_length_2 : list Z := [99; 111; 110; 116; 101; 110; 116; 45; 108; 101; 110; 103; 116; 104; 58].

(** The first place of [pat]: [windows(n).position(|w| w == pat)]. *)
Fixpoint find_sub (pat l : list Z) : option nat :=
  if starts pat l then Some 0%nat
  else match l with
  | [] => None
  | _ :: l' => S <$> find_sub pat l'
  end.

Definition strip_cr (line : list Z) : list Z :=
  if bool_decide (last line = Some 13) then removelast line else line.
Definition strip_prefix (pat l : list Z) : option (list Z) := if starts pat l then Some (drop (length pat) l) else None.

Definition parse_str (max : Z) (s : list Z) : option Z := if utf8_valid s then parse_uint max s else None.

(** A later line that has a number replaces an earlier one. *)
Definition header_line (content_length : option Z) (line0 : list Z) : option Z :=
  let line := strip_cr line0 in
  let value rest := match parse_str usize_max (Deb.trim_ascii_start rest) with Some n => Some n | None => content_length end in
  match strip_prefix content_length_1 line with
  | Some rest => value rest
  | None => match strip_prefix content_length_2 line with Some rest => value rest | None => content_length end
  end.

Definition parse_response (response : list Z) : outcome (Z * list Z) :=
  match response with
  | [] => Err "None"
  | _ =>
      let n := length response in
      let status_end := default n (Deb.position 13 response) in
      if (status_end <? 12)%nat then Err "None"
      else match parse_str 65535 (slice response 9 3), find_sub (CRLF ++ CRLF) response with
      | Some status, Some header_end =>
          let body_start := (header_end + 4)%nat in
          let headers_start := Nat.min (status_end + 2) header_end in
          let headers := slice response headers_start (header_end - headers_start) in
          match foldl header_line None (split_on 10 headers) with
          | None => Ok (status, drop body_start response)
          | Some len =>
              let body_end := wrap 64 (Z.of_nat body_start + len) in
              if Z.of_nat n <? body_end then Err "None"
              else if body_end <? Z.of_nat body_start then Panic "slice index starts after its end"
              else Ok (status, slice response body_start (Z.to_nat (body_end - Z.of_nat body_start)))
          end
      | _, _ => Err "None"
      end
  end.

Definition request (host path : list Z) : list Z :=
  str "GET " ++ path ++ str " HTTP/1.0" ++ CRLF ++ str "Host: " ++ host ++ CRLF ++ str "Connection: close" ++ CRLF ++
  str "User-Agent: openv-pkg/0.1" ++ CRLF ++ CRLF.

(** The answers of the system: the socket, the connection, the bytes sent and what arrives,
    up to the first time nothing does.  The progress messages are left out. *)
Definition http_get (fd connected : Z) (sent : list Z → Z) (chunks : list (list Z)) (host path : list Z) : outcome (Z * list Z) :=
  if fd <? 0 then Err "None"
  else if connected <? 0 then Err "None"
  else
    let req := request host path in
    if negb (sent req =? Z.of_nat (length req)) then Err "None"
    else parse_response (concat chunks).

(** ** A response *)

Definition print_response (digits reason : list Z) (lines : list (list Z)) (body : list Z) : list Z :=
  join CRLF ((str "HTTP/1.1 " ++ digits ++ reason) :: lines) ++ CRLF ++ CRLF ++ body.

Lemma find_cons pat b l : find_sub pat (b :: l) = if starts pat (b :: l) then Some 0%nat else S <$> find_sub pat l.
Proof. done. Qed.

Lemma starts_cr_ne pat b l : b ≠ 13 → starts (13 :: pat) (b :: l) = false.
Proof. intros H. unfold starts. apply bool_decide_eq_false. cbn. intros [=]. done. Qed.

Lemma find_skip pat l rest : 13 ∉ l → find_sub (13 :: pat) (l ++ rest) = (λ n, (length l + n)%nat) <$> find_sub (13 :: pat) rest.
Proof.
  induction l as [|b l IH]; cbn [app length]; intros H.
  - by destruct (find_sub _ rest).
  - apply not_elem_of_cons in H as [H1 H2]. cbn [find_sub]. rewrite starts_cr_ne by done. rewrite IH by done. by destruct (find_sub _ rest).
Qed.

Definition line_ok (l : list Z) : Prop := l ≠ [] ∧ (13 ∉ l) ∧ (10 ∉ l).

Lemma find_lines ls body : ∀ l, 13 ∉ l → Forall line_ok ls →
  find_sub (CRLF ++ CRLF) (join CRLF (l :: ls) ++ CRLF ++ CRLF ++ body) = Some (length (join CRLF (l :: ls))).
Proof.
  induction ls as [|l' ls IH]; intros l Hl Hls; change (CRLF ++ CRLF) with (13 :: [10; 13; 10]).
  - cbn [join]. rewrite find_skip by done. assert (find_sub [13; 10; 13; 10] (CRLF ++ CRLF ++ body) = Some 0%nat) as ->.
    { unfold CRLF. cbn [app find_sub]. unfold starts. by rewrite bool_decide_true. }
    cbn. f_equal. lia.
  - apply Forall_cons in Hls as [(Hne & H13 & H10) Hls].
    change (join CRLF (l :: l' :: ls)) with (l ++ CRLF ++ join CRLF (l' :: ls)).
    rewrite <-!app_assoc, find_skip by done. specialize (IH l' H13 Hls). change (CRLF ++ CRLF) with (13 :: [10; 13; 10]) in IH.
    assert (∃ b r, join CRLF (l' :: ls) ++ CRLF ++ CRLF ++ body = b :: r ∧ b ≠ 13) as (b & r & Eb & Hb).
    { destruct l' as [|b l']; [done|]. apply not_elem_of_cons in H13 as [H13 _]. destruct ls; eexists b, _; (split; [reflexivity|congruence]). }
    rewrite Eb in *. change (CRLF ++ b :: r) with (13 :: 10 :: b :: r). rewrite (find_cons _ 13), (find_cons _ 10).
    assert (starts [13; 10; 13; 10] (13 :: 10 :: b :: r) = false) as ->.
    { unfold starts. apply bool_decide_eq_false. cbn. intros [= ? _]. done. }
    rewrite (starts_cr_ne _ 10) by done. rewrite IH. cbn [fmap option_fmap option_map]. f_equal. rewrite !length_app. cbn. lia.
Qed.

(** The lines as [split] gives them: all but the last end in a carriage return. *)
Fixpoint mark (ls : list (list Z)) : list (list Z) :=
  match ls with
  | [] => []
  | [l] => [l]
  | l :: ls' => (l ++ [13]) :: mark ls'
  end.

Lemma join_mark ls : join CRLF ls = join [10] (mark ls).
Proof.
  induction ls as [|l [|l' ls] IH]; [done..|]. change (join CRLF (l :: l' :: ls)) with (l ++ CRLF ++ join CRLF (l' :: ls)).
  rewrite IH. change (mark (l :: l' :: ls)) with ((l ++ [13]) :: mark (l' :: ls)). destruct (mark (l' :: ls)) as [|m ms] eqn:E; [by destruct ls|].
  change (join [10] ((l ++ [13]) :: m :: ms)) with ((l ++ [13]) ++ [10] ++ join [10] (m :: ms)). by rewrite <-app_assoc.
Qed.

Lemma strip_cr_mark l : 13 ∉ l → strip_cr (l ++ [13]) = l ∧ strip_cr l = l.
Proof.
  intros H. unfold strip_cr. rewrite last_snoc, bool_decide_true, removelast_last by done. split; [done|].
  rewrite bool_decide_false; [done|]. intros E. apply H. apply last_Some in E as [l' ->]. apply elem_of_app. right. by apply list_elem_of_singleton.
Qed.

Lemma header_mark ls : ∀ acc, Forall line_ok ls → foldl header_line acc (mark ls) = foldl header_line acc ls.
Proof.
  induction ls as [|l [|l' ls] IH]; intros acc Hls; [done..|]. apply Forall_cons in Hls as [(_ & Hl & _) Hls].
  change (mark (l :: l' :: ls)) with ((l ++ [13]) :: mark (l' :: ls)). assert (header_line acc (l ++ [13]) = header_line acc l) as Hsame.
  { unfold header_line. destruct (strip_cr_mark l Hl) as [-> ->]. done. }
  change (foldl header_line (header_line acc (l ++ [13])) (mark (l' :: ls)) = foldl header_line (header_line acc l) (l' :: ls)).
  rewrite Hsame. by apply IH.
Qed.

Lemma mark_no_nl ls : Forall line_ok ls → Forall (Forall (λ b, b ≠ 10)) (mark ls).
Proof.
  assert (∀ l, line_ok l → Forall (λ b, b ≠ 10) l) as Hl.
  { intros l (_ & _ & H). apply Forall_forall. intros b Hb ->. done. }
  induction ls as [|l [|l' ls] IH]; intros Hls; [constructor| |].
  - apply Forall_cons in Hls as [H _]. constructor; [by apply Hl|constructor].
  - apply Forall_cons in Hls as [H Hls]. constructor; [|by apply IH]. apply Forall_app. split; [by apply Hl|]. by repeat constructor.
Qed.

(** The headers, as the loop over the lines sees them. *)
Lemma header_lines ls : Forall line_ok ls → foldl header_line None (split_on 10 (join CRLF ls)) = foldl header_line None ls.
Proof.
  intros Hls. destruct ls as [|l ls]; [done|]. rewrite join_mark, split_on_join; [by apply header_mark|by destruct ls|by apply mark_no_nl].
Qed.

Definition plain (l : list Z) : Prop := starts content_length_1 l = false ∧ starts content_length_2 l = false.

Lemma plain_lines ls : ∀ acc, Forall line_ok ls → Forall plain ls → foldl header_line acc ls = acc.
Proof.
  induction ls as [|l ls IH]; intros acc Hls Hp; [done|]. apply Forall_cons in Hls as [(_ & Hl & _) Hls]. apply Forall_cons in Hp as [[H1 H2] Hp].
  cbn [foldl]. replace (header_line acc l) with acc; [by apply IH|].
  unfold header_line. destruct (strip_cr_mark l Hl) as [_ ->]. unfold strip_prefix. by rewrite H1, H2.
Qed.

Lemma length_line_ok dg n : decimal dg n → line_ok (content_length_1 ++ [32] ++ dg).
Proof.
  intros (_ & Hdig & _). assert (∀ c, c < 32 → c ∉ content_length_1 ++ [32] ++ dg) as H.
  { intros c Hc Hin. assert (Forall (λ b, 32 ≤ b) (content_length_1 ++ [32] ++ dg)) as Hall.
    - apply Forall_app. split; [by repeat constructor|]. constructor; [done|]. eapply Forall_impl; [exact Hdig|]. intros b Hb%digit_range. lia.
    - rewrite Forall_forall in Hall. apply Hall in Hin. lia. }
  split_and!; [done|apply H; lia..].
Qed.

Lemma length_line acc dg n : decimal dg n → n ≤ usize_max → header_line acc (content_length_1 ++ [32] ++ dg) = Some n.
Proof.
  intros Hd Hn. pose proof Hd as (Hne & Hdig & _). destruct (length_line_ok _ _ Hd) as (_ & H13 & _).
  unfold header_line. destruct (strip_cr_mark _ H13) as [_ ->]. unfold strip_prefix, starts.
  rewrite take_app_length, bool_decide_true, drop_app_length by done.
  assert (Deb.trim_ascii_start ([32] ++ dg) = dg) as ->.
  { destruct dg as [|b dg]; [done|]. apply Forall_cons in Hdig as [Hb%digit_range _]. unfold Deb.trim_ascii_start. cbn [app Deb.drop_while].
    change (Deb.blank 32) with true. cbn match. assert (Deb.blank b = false) as ->; [|done].
    unfold Deb.blank, Deb.SPACE, Deb.TAB. destruct (Z.eqb_spec b 32), (Z.eqb_spec b 9); try lia; done. }
  unfold parse_str. rewrite Ar.ascii_utf8, (parse_decimal _ _ _ Hd Hn); [done|].
  eapply Forall_impl; [exact Hdig|]. intros b Hb%digit_range. lia.
Qed.

Lemma join_longer p l1 l2 x : (length (join CRLF (p :: l1 ++ l2)) ≤ length (join CRLF (p :: l1 ++ [x] ++ l2)))%nat.
Proof.
  revert p. induction l1 as [|l l1 IH]; intros p.
  - cbn [app]. destruct l2 as [|l l2]; cbn [join]; rewrite !length_app; lia.
  - change (join CRLF (p :: (l :: l1) ++ l2)) with (p ++ CRLF ++ join CRLF (l :: l1 ++ l2)).
    change (join CRLF (p :: (l :: l1) ++ [x] ++ l2)) with (p ++ CRLF ++ join CRLF (l :: l1 ++ [x] ++ l2)).
    rewrite !length_app. specialize (IH l). lia.
Qed.

(** The parts a response is cut into. *)
Lemma response_parts dg reason ls body status : decimal dg status → length dg = 3%nat → status ≤ 65535 → (13 ∉ reason) → Forall line_ok ls →
  let r := print_response dg reason ls body in
  let e := length (join CRLF ((str "HTTP/1.1 " ++ dg ++ reason) :: ls)) in
  let st := length (str "HTTP/1.1 " ++ dg ++ reason) in
  Deb.position 13 r = Some st ∧ (12 ≤ st)%nat ∧ parse_str 65535 (slice r 9 3) = Some status ∧
  find_sub (CRLF ++ CRLF) r = Some e ∧ drop (e + 4) r = body ∧ length r = (e + 4 + length body)%nat ∧
  slice r (Nat.min (st + 2) e) (e - Nat.min (st + 2) e) = join CRLF ls.
Proof.
  intros Hd H3 Hst Hr Hls r e st. pose proof Hd as (_ & Hdig & _). set (line := str "HTTP/1.1 " ++ dg ++ reason) in *.
  assert (Forall (λ b, b ≠ 13) line) as Hline.
  { unfold line. apply Forall_app. split; [by repeat constructor|]. apply Forall_app. split.
    - eapply Forall_impl; [exact Hdig|]. intros b Hb%digit_range. lia.
    - apply Forall_forall. intros b Hb ->. done. }
  assert (r = line ++ 13 :: drop 1 (drop st r)) as Hcr.
  { unfold r, print_response, st. fold line. destruct ls as [|l ls]; cbn [join]; rewrite <-?app_assoc, drop_app_length; done. }
  split_and!.
  - rewrite Hcr. by rewrite Deb.position_app.
  - unfold st, line. rewrite !length_app, H3. cbn. lia.
  - unfold r, print_response, slice. fold line. assert (∃ x, join CRLF (line :: ls) = line ++ x) as [x ->] by (destruct ls; eexists; [by rewrite app_nil_r|done]).
    unfold line. rewrite <-!app_assoc, drop_app_length', <-H3, take_app_length by done. unfold parse_str.
    rewrite Ar.ascii_utf8, (parse_decimal _ _ _ Hd Hst); [done|]. eapply Forall_impl; [exact Hdig|]. intros b Hb%digit_range. lia.
  - unfold r, print_response. fold line. apply find_lines; [|done]. intros Hin. rewrite Forall_forall in Hline. by apply Hline in Hin.
  - unfold r, print_response. fold line. rewrite <-drop_drop. fold e. unfold e. by rewrite drop_app_length.
  - unfold r, print_response. fold line. rewrite !length_app. fold e. cbn. unfold e. lia.
  - unfold r, print_response. fold line. destruct ls as [|l ls].
    + unfold e, st. cbn [join]. rewrite Nat.min_r by lia. by rewrite Nat.sub_diag.
    + assert (e = st + 2 + length (join CRLF (l :: ls)))%nat as He.
      { unfold e. change (join CRLF (line :: l :: ls)) with (line ++ CRLF ++ join CRLF (l :: ls)). rewrite !length_app. fold st. cbn. lia. }
      rewrite Nat.min_l by lia. change (join CRLF (line :: l :: ls)) with (line ++ CRLF ++ join CRLF (l :: ls)).
      unfold slice. rewrite <-drop_drop, <-!app_assoc. unfold st. rewrite drop_app_length. change (drop 2 (CRLF ++ ?x)) with x.
      replace (e - _)%nat with (length (join CRLF (l :: ls))) by (fold st; lia). by rewrite take_app_length.
Qed.

Lemma parse_printed dg reason ls body status : decimal dg status → length dg = 3%nat → status ≤ 65535 → (13 ∉ reason) → Forall line_ok ls →
  let r := print_response dg reason ls body in
  Z.of_nat (length r) < 2 ^ 64 →
  (foldl header_line None ls = None → parse_response r = Ok (status, body)) ∧
  (∀ n, foldl header_line None ls = Some (Z.of_nat n) → (n ≤ length body)%nat → parse_response r = Ok (status, take n body)).
Proof.
  intros Hd H3 Hst Hr Hls r Hlen. destruct (response_parts dg reason ls body status Hd H3 Hst Hr Hls) as (P1 & P2 & P3 & P4 & P5 & P6 & P7).
  fold r in P1, P3, P4, P5, P6, P7. set (e := length (join CRLF _)) in *. set (st := length (str "HTTP/1.1 " ++ dg ++ reason)) in *.
  unfold parse_response. destruct r as [|b r'] eqn:Er; [cbn in P6; lia|]. rewrite <-Er in *.
  rewrite P1, P3, P4. cbn [default from_option id]. rewrite (proj2 (Nat.ltb_ge _ _)) by lia. rewrite P7, header_lines by done. split.
  - intros ->. by rewrite P5.
  - intros n -> Hn. unfold wrap. rewrite Z.mod_small by lia. rewrite (proj2 (Z.ltb_ge _ _)) by lia. rewrite (proj2 (Z.ltb_ge _ _)) by lia.
    unfold slice. rewrite P5. do 3 f_equal. lia.
Qed.

(** the body of a response is what its Content-Length says, in whatever headers and chunks
    it comes, and everything after the headers when no header says it. *)
Theorem http_body fd connected sent chunks host path dg reason l1 l2 n body extra status :
  0 ≤ fd → 0 ≤ connected → sent (request host path) = Z.of_nat (length (request host path)) →
  decimal dg status → length dg = 3%nat → status ≤ 65535 → (13 ∉ reason) →
  Forall line_ok (l1 ++ l2) → Forall plain (l1 ++ l2) → decimal n (Z.of_nat (length body)) →
  let with_length := print_response dg reason (l1 ++ [content_length_1 ++ [32] ++ n] ++ l2) (body ++ extra) in
  Z.of_nat (length with_length) < 2 ^ 64 →
  (concat chunks = with_length → http_get fd connected sent chunks host path = Ok (status, body)) ∧
  (concat chunks = print_response dg reason (l1 ++ l2) body → http_get fd connected sent chunks host path = Ok (status, body)).
Proof.
  intros Hfd Hc Hs Hd H3 Hst Hr Hl Hp Hn r Hlen. pose proof Hl as [Hl1 Hl2]%Forall_app. pose proof Hp as [Hp1 Hp2]%Forall_app.
  assert (∀ x, http_get fd connected sent chunks host path = x ↔ parse_response (concat chunks) = x) as Hget.
  { intros x. unfold http_get. rewrite (proj2 (Z.ltb_ge _ _)), (proj2 (Z.ltb_ge _ _)), Hs, Z.eqb_refl by lia. done. }
  split; intros E; apply Hget; rewrite E.
  - destruct (parse_printed dg reason (l1 ++ [content_length_1 ++ [32] ++ n] ++ l2) (body ++ extra) status Hd H3 Hst Hr) as [_ H]; [|exact Hlen|].
    + apply Forall_app. split; [done|]. constructor; [by eapply length_line_ok|done].
    + unfold r. rewrite (H (length body)); [by rewrite take_app_length| |rewrite length_app; lia].
      rewrite !foldl_app, plain_lines by done. cbn [foldl]. rewrite (length_line _ _ _ Hn); [done|].
      unfold r, print_response in Hlen. rewrite !length_app in Hlen. unfold usize_max. lia.
  - destruct (parse_printed dg reason (l1 ++ l2) body status Hd H3 Hst Hr Hl) as [H _]; [|apply H; by apply plain_lines].
    revert Hlen. unfold r, print_response. intros Hlen. eapply Z.le_lt_trans; [|exact Hlen]. apply Nat2Z.inj_le. rewrite !length_app.
    pose proof (join_longer (str "HTTP/1.1 " ++ dg ++ reason) l1 l2 (content_length_1 ++ [32] ++ n)). lia.
Qed.

Lemma http_body_witness :
  http_get 3 0 (λ r, Z.of_nat (length r)) [print_response [50; 48; 48] [32; 79; 75] [content_length_1 ++ [32; 50]] [1; 2]] [104] [47] = Ok (200, [1; 2]).
Proof.
  destruct (http_body 3 0 (λ r, Z.of_nat (length r)) [print_response [50; 48; 48] [32; 79; 75] [content_length_1 ++ [32; 50]] [1; 2]]
    [104] [47] [50; 48; 48] [32; 79; 75] [] [] [50] [1; 2] [] 200) as [Hbody _].
  - lia.
  - lia.
  - reflexivity.
  - split_and!; [discriminate|repeat constructor|reflexivity].
  - reflexivity.
  - lia.
  - intros H. repeat (apply elem_of_cons in H as [H|H]; [discriminate|]). by apply not_elem_of_nil in H.
  - constructor.
  - constructor.
  - split_and!; [discriminate|repeat constructor|reflexivity].
  - vm_compute. reflexivity.
  - apply Hbody. reflexivity.
Defined.

(** A server that announces the largest length makes the program panic: the end of the body
    wraps around to before its start. *)
Theorem http_length_panics :
  parse_response (print_response [50; 48; 48] [] [content_length_1 ++ str "18446744073709551615"] [1]) =
  Panic "slice index starts after its end".
Proof. vm_compute. reflexivity. Qed.

End Http.
