(* ===== verification/Vfs.v ===== *)
(** * The file-system server's tree (user/vfs-server/src/main.rs)

    Paths and their normalization, the in-memory tree [Vfs] with its operations, and
    the block file system behind [/mnt] as an interface, [BlockFs], which the
    development of blockfs.rs implements.  Paths are byte strings.  A method works on
    the tree and the block file system, if one is mounted; what it gets from the
    kernel (the archive in the initial RAM disk, the process list) is a record of
    arguments. *)

From Stdlib Require Import ZArith Lia Ascii String.
From stdpp Require Import prelude gmap list strings.
From S2P Require Import Prelude Journal Ofs.
Local Open Scope Z_scope.

(** ** Byte strings *)

Definition SLASH : Z := 47.

Fixpoint strip_prefix (pre l : list Z) : option (list Z) :=
  match pre, l with
  | [], _ => Some l
  | x :: pre', y :: l' => if x =? y then strip_prefix pre' l' else None
  | _ :: _, [] => None
  end.
Definition starts_with (pre l : list Z) : bool := bool_decide (is_Some (strip_prefix pre l)).

Fixpoint trim_start_slash (l : list Z) : list Z :=
  match l with
  | [] => []
  | b :: l' => if b =? SLASH then trim_start_slash l' else l
  end.
Definition trim_end_slash (l : list Z) : list Z := reverse (trim_start_slash (reverse l)).

(** [l.rfind('/')] and [l.split_once('/')]. *)
Fixpoint rfind_slash (l : list Z) : option nat :=
  match l with
  | [] => None
  | b :: l' => match rfind_slash l' with
               | Some i => Some (S i)
               | None => if b =? SLASH then Some 0%nat else None
               end
  end.
Definition split_once_slash (l : list Z) : option (list Z * list Z) :=
  (λ i, (take i l, drop (S i) l)) <$> position (λ b, b =? SLASH) l.

(** [s.parse::<i32>()]. *)
Definition digit (b : Z) : option Z := if (48 <=? b) && (b <=? 57) then Some (b - 48) else None.
Fixpoint parse_digits (neg : bool) (l : list Z) (acc : Z) : option Z :=
  match l with
  | [] => Some acc
  | b :: l' =>
      d ← digit b;
      let acc' := if neg then acc * 10 - d else acc * 10 + d in
      if (- 2 ^ 31 <=? acc') && (acc' <? 2 ^ 31) then parse_digits neg l' acc' else None
  end.
Definition parse_i32 (l : list Z) : option Z :=
  match l with
  | [] => None
  | 43 :: [] | 45 :: [] => None
  | 43 :: l' => parse_digits false l' 0
  | 45 :: l' => parse_digits true l' 0
  | _ => parse_digits false l 0
  end.

(** [format!("{}", n)] of a [u32]: at most ten digits. *)
Fixpoint decimal_from (fuel : nat) (n : Z) (acc : list Z) : list Z :=
  match fuel with
  | O => acc
  | S fuel' =>
      let acc' := 48 + n mod 10 :: acc in
      if n / 10 =? 0 then acc' else decimal_from fuel' (n / 10) acc'
  end.
Definition decimal (n : Z) : list Z := decimal_from 10 n [].

(** ** Paths *)

Definition push_component (comps : list (list Z)) (c : list Z) : list (list Z) :=
  if bool_decide (c = []) || bool_decide (c = str ".") then comps
  else if bool_decide (c = str "..") then removelast comps
  else comps ++ [c].
Definition components (path : list Z) : list (list Z) := foldl push_component [] (split_on SLASH path).

Definition is_absolute (path : list Z) : bool := starts_with [SLASH] path.
Definition normalize_path (path : list Z) : list Z :=
  (if is_absolute path || bool_decide (components path = []) then [SLASH] else []) ++
  join [SLASH] (components path).

Definition parent_and_name (path0 : list Z) : option (list Z * list Z) :=
  let path := trim_end_slash path0 in
  slash ← rfind_slash path;
  let parent := if (slash =? 0)%nat then [SLASH] else take slash path in
  let name := drop (S slash) path in
  if bool_decide (name = []) then None else Some (parent, name).

Definition is_virtual_path (path : list Z) : bool :=
  bool_decide (path ∈ [str "/dev"; str "/dev/null"; str "/dev/zero"; str "/dev/tty"; str "/proc"]) ||
  starts_with (str "/proc/") path.

(** What is left behind [/mnt], with the empty string standing for the root. *)
Definition mnt_path (path : list Z) : option (list Z) :=
  (λ s, match s with [] => [SLASH] | _ => s end) <$> strip_prefix (str "/mnt") path.

(** ** The block file system *)

Definition ITYPE_FILE_ENTRY : Z := 1.
Definition ITYPE_SYMLINK_ENTRY : Z := 3.

Class BlockFs (B : Type) : Type := {
  root_inode_number : Z;
  bf_lookup : Z → list Z → M B (option (Z * Z));
  bf_info : Z → M B (option (Z * Z * Z));
  bf_create : Z → M B (option Z);
  bf_free : Z → M B unit;
  bf_add_entry : Z → list Z → Z → Z → M B bool;
  bf_link_entry : Z → list Z → Z → Z → M B bool;
  bf_unlink : Z → list Z → M B bool;
  bf_read : Z → Z → nat → M B (list Z + fs_error);
  bf_write : Z → Z → list Z → M B (nat + fs_error);
  bf_truncate : Z → M B unit;
  bf_readall : Z → M B (list (list Z * Z * Z));
  bf_init_dir : Z → Z → M B bool;
  bf_fsync : M B bool;
}.

#[global] Instance ofs_blockfs : BlockFs ofs := {|
  root_inode_number := ROOT_INODE;
  bf_lookup := dir_lookup_inode;
  bf_info := inode_info;
  bf_create := create_inode;
  bf_free := free_inode;
  bf_add_entry := dir_add_entry;
  bf_link_entry := dir_link_entry;
  bf_unlink := dir_unlink;
  bf_read := file_read;
  bf_write := file_write;
  bf_truncate := file_truncate;
  bf_readall := dir_readall;
  bf_init_dir := init_dir;
  bf_fsync := commit;
|}.

Section lookup.
Context {B : Type} `{BlockFs B}.

(** The path to look up instead, when component [i] is a symbolic link: what stands
    before it if the target is relative, the target, and the components after it. *)
Definition retarget (done : list (list Z)) (target : list Z) (rest : list (list Z)) : list Z :=
  foldl (λ p c, (if bool_decide (last p = Some SLASH) then p else p ++ [SLASH]) ++ c)
    (if starts_with [SLASH] target then target
     else (done ≫= λ c, SLASH :: c) ++ [SLASH] ++ target) rest.

(** The loop over the components; [again] looks the new path up with one link less,
    and is [None] when no link may be followed any more. *)
Fixpoint walk (again : option (list Z → M B (option (Z * Z)))) (follow_last : bool)
    (done rest : list (list Z)) (cur_ino cur_type : Z) : M B (option (Z * Z)) :=
  match rest with
  | [] => mret (Some (cur_ino, cur_type))
  | comp :: rest' =>
      if negb (cur_type =? ITYPE_DIR_ENTRY) then mret None else
      o ← bf_lookup cur_ino comp;
      match o with
      | None => mret None
      | Some (next_ino, next_type) =>
          if (next_type =? ITYPE_SYMLINK_ENTRY) && (follow_last || negb (bool_decide (rest' = []))) then
            match again with
            | None => mret None
            | Some look =>
                info ← bf_info next_ino;
                match info with
                | None => mret None
                | Some (_, size, _) =>
                    r ← bf_read next_ino 0 (Z.to_nat size);
                    match r with
                    | inr _ => mret None
                    | inl got =>
                        let target := got ++ replicate (Z.to_nat size - length got) 0 in
                        if utf8_valid target then look (retarget done target rest')
                        else mret None
                    end
                end
            end
          else walk again follow_last (done ++ [comp]) rest' next_ino next_type
      end
  end.

Definition nonempty_components (path : list Z) : list (list Z) :=
  List.filter (λ c, negb (bool_decide (c = []))) (split_on SLASH path).

Fixpoint lookup_path_depth (depth : nat) (follow_last : bool) (path : list Z) : M B (option (Z * Z)) :=
  walk (match depth with O => None | S d => Some (lookup_path_depth d follow_last) end)
    follow_last [] (nonempty_components path) root_inode_number ITYPE_DIR_ENTRY.

(** The lookup of the server, which follows up to eight links. *)
Definition bf_lookup_path (path : list Z) : M B (option (Z * Z)) := lookup_path_depth 8 true path.

Definition bf_rename (old_dir old_name new_dir new_name : list Z) : M B bool :=
  o ← bf_lookup_path old_dir;
  match o with
  | None => mret false
  | Some (dir_ino, _) =>
      n ← bf_lookup_path new_dir;
      match n with
      | None => mret false
      | Some (new_dir_ino, _) =>
          c ← bf_lookup dir_ino old_name;
          match c with
          | None => mret false
          | Some (child_ino, etype) =>
              t ← bf_lookup new_dir_ino new_name;
              let move :=
                linked ← bf_link_entry new_dir_ino new_name child_ino etype;
                if (linked : bool) then bf_unlink dir_ino old_name else mret false in
              match t with
              | Some (target_ino, _) =>
                  if target_ino =? child_ino then mret true
                  else
                    gone ← bf_unlink new_dir_ino new_name;
                    if (gone : bool) then move else mret false
              | None => move
              end
          end
      end
  end.
End lookup.

(** ** The tree *)

Inductive FsNode : Type :=
  | TarFile (tar_offset size : Z)
  | MemFile (data : list Z)
  | Dir (children : list (list Z))
  | Symlink (target : list Z).

Record NodeMeta : Type := mkMeta { mode : Z; uid : Z; gid : Z; atime : Z; mtime : Z }.
Definition default_dir : NodeMeta := mkMeta 16877 0 0 0 0.
Definition default_file : NodeMeta := mkMeta 33188 0 0 0 0.
Definition default_symlink : NodeMeta := mkMeta 41471 0 0 0 0.

Record Vfs : Type := mkVfs { nodes : gmap (list Z) FsNode; meta : gmap (list Z) NodeMeta }.
Definition vfs_new : Vfs := mkVfs {[ [SLASH] := Dir [] ]} {[ [SLASH] := default_dir ]}.

(** What the server asks the kernel for: the archive (system call 65), the pids
    (110) and the status of a process (111). *)
Record kernel_env : Type := mkEnv {
  initrd : list Z; proc_pids : list Z; proc_status : Z → option (list Z) }.

Definition initrd_read (env : kernel_env) (len : nat) (offset : Z) : list Z :=
  take len (drop (Z.to_nat offset) (initrd env)).
Definition virtual_proc_list (env : kernel_env) : list (list Z) := decimal <$> take 512 (proc_pids env).
Definition virtual_proc_read_status (env : kernel_env) (pid offset : Z) (len : nat) : option (list Z) :=
  (λ s, take len (drop (Z.to_nat offset) (take 512 s))) <$> proc_status env pid.

(** [meta.entry(path).or_insert(d)]. *)
Definition or_insert (path : list Z) (d : NodeMeta) (m : gmap (list Z) NodeMeta) : gmap (list Z) NodeMeta :=
  match m !! path with Some _ => m | None => <[path := d]> m end.
Definition set_nodes (n : gmap (list Z) FsNode) (v : Vfs) : Vfs := mkVfs n (meta v).

(** [Vec::resize] with zeros, and a copy into [start..]. *)
Definition resize (n : nat) (l : list Z) : list Z := take n l ++ replicate (n - length l) 0.
Definition copy_at (start : nat) (data l : list Z) : list Z :=
  let l' := if (length l <? start + length data)%nat then resize (start + length data) l else l in
  take start l' ++ data ++ drop (start + length data) l'.

Section methods.
Context {B : Type} `{BlockFs B} (env : kernel_env).

Definition world : Type := Vfs * option B.

(** Run on the block file system, or give [d] when none is mounted. *)
Definition on_blk {A} (d : A) (c : M B A) : M world A := λ '(v, b),
  match b with
  | None => (Ok d, (v, None))
  | Some s => let '(x, s') := c s in (x, (v, Some s'))
  end.
Definition has_blk : M world bool := gets (λ w, bool_decide (is_Some w.2)).
Definition the_vfs : M world Vfs := gets fst.
Definition put_vfs (v : Vfs) : M world unit := modify (λ w, (v, w.2)).

Definition exists_ (path : list Z) : M world bool :=
  if is_virtual_path path then mret true else
  blk ← has_blk;
  v ← the_vfs;
  match mnt_path path with
  | Some p =>
      if (blk : bool) then on_blk false (o ← bf_lookup_path p; mret (bool_decide (is_Some o)))
      else mret (bool_decide (is_Some (nodes v !! normalize_path path)))
  | None => mret (bool_decide (is_Some (nodes v !! normalize_path path)))
  end.

(** The parent directory on the block file system, when it is one. *)
Definition mnt_parent (p : list Z) : M B (option (Z * list Z)) :=
  match parent_and_name p with
  | None => mret None
  | Some (parent, name) =>
      o ← bf_lookup_path parent;
      match o with
      | Some (dir_ino, etype) =>
          mret (if etype =? ITYPE_DIR_ENTRY then Some (dir_ino, name) else None)
      | None => mret None
      end
  end.

Definition mnt_mkdir (p : list Z) : M B bool :=
  o ← mnt_parent p;
  match o with
  | None => mret false
  | Some (dir_ino, name) =>
      c ← bf_create ITYPE_DIR_ENTRY;
      match c with
      | None => mret false
      | Some child_ino =>
          ok ← bf_init_dir child_ino dir_ino;
          if negb ok then bf_free child_ino ;; mret false else
          added ← bf_add_entry dir_ino name child_ino ITYPE_DIR_ENTRY;
          if negb added then bf_truncate child_ino ;; bf_free child_ino ;; mret false
          else mret true
      end
  end.

(** Put [node] at [path] under the directory [parent], whose children are [ch]. *)
Definition add_child (parent name path : list Z) (ch : list (list Z)) (listed : bool) (node : FsNode)
    (d : NodeMeta) (v : Vfs) : Vfs :=
  mkVfs (<[path := node]> (<[parent := Dir (if listed then ch else ch ++ [name])]> (nodes v)))
    (or_insert path d (meta v)).

Definition mkdir (path0 : list Z) : M world bool :=
  match mnt_path path0 with
  | Some p => on_blk false (mnt_mkdir p)
  | None =>
      let path := normalize_path path0 in
      there ← exists_ path;
      if (there : bool) then mret false else
      v ← the_vfs;
      match parent_and_name path with
      | Some (parent, name) =>
          match nodes v !! parent with
          | Some (Dir ch) =>
              put_vfs (add_child parent name path ch false (Dir []) default_dir v) ;; mret true
          | _ => mret false
          end
      | None => mret false
      end
  end.

(** Each turn cuts the path at a slash, so its length is enough fuel. *)
Fixpoint mkdir_all (fuel : nat) (path : list Z) : M world unit :=
  match fuel with
  | O => mret tt
  | S fuel' =>
      there ← exists_ path;
      if bool_decide (path = [SLASH]) || there then mret tt else
      (match rfind_slash path with
       | Some slash => if (0 <? slash)%nat then mkdir_all fuel' (take slash path) else mret tt
       | None => mret tt
       end) ;;
      there' ← exists_ path;
      if (there' : bool) then mret tt else mkdir path ;; mret tt
  end.

Definition insert_tar_file (path0 : list Z) (tar_offset size : Z) : M world unit :=
  let path := normalize_path path0 in
  v ← the_vfs;
  match parent_and_name path with
  | Some (parent, name) =>
      match nodes v !! parent with
      | Some (Dir ch) =>
          put_vfs (add_child parent name path ch (bool_decide (is_Some (nodes v !! path)))
                     (TarFile tar_offset size) default_file v)
      | _ => mret tt
      end
  | None => mret tt
  end.

Definition mnt_create (p : list Z) : M B bool :=
  o ← mnt_parent p;
  match o with
  | None => mret false
  | Some (dir_ino, name) =>
      e ← bf_lookup_path p;
      match e with
      | Some (child_ino, ctype) =>
          if ctype =? ITYPE_FILE_ENTRY then bf_truncate child_ino ;; mret true else mret false
      | None =>
          c ← bf_create ITYPE_FILE_ENTRY;
          match c with
          | None => mret false
          | Some child_ino =>
              added ← bf_add_entry dir_ino name child_ino ITYPE_FILE_ENTRY;
              if negb added then bf_free child_ino ;; mret false else mret true
          end
      end
  end.

Definition create (path0 : list Z) : M world bool :=
  match mnt_path path0 with
  | Some p => on_blk false (mnt_create p)
  | None =>
      let path := normalize_path path0 in
      v ← the_vfs;
      match parent_and_name path with
      | Some (parent, name) =>
          match nodes v !! parent with
          | Some (Dir ch) =>
              put_vfs (add_child parent name path ch (bool_decide (is_Some (nodes v !! path)))
                         (MemFile []) default_file v) ;; mret true
          | _ => mret false
          end
      | None => mret false
      end
  end.

Definition mnt_unlink (p : list Z) : M B bool :=
  o ← mnt_parent p;
  match o with
  | None => mret false
  | Some (dir_ino, name) => bf_unlink dir_ino name
  end.

Definition remove_name (name : list Z) (ch : list (list Z)) : list (list Z) :=
  List.filter (λ c, negb (bool_decide (c = name))) ch.

Definition unlink (path0 : list Z) : M world bool :=
  match mnt_path path0 with
  | Some p => on_blk false (mnt_unlink p)
  | None =>
      let path := normalize_path path0 in
      v ← the_vfs;
      match nodes v !! path, parent_and_name path with
      | Some _, Some (parent, name) =>
          match nodes v !! parent with
          | Some (Dir ch) =>
              put_vfs (mkVfs (delete path (<[parent := Dir (remove_name name ch)]> (nodes v)))
                         (delete path (meta v))) ;; mret true
          | _ => mret false
          end
      | _, _ => mret false
      end
  end.

(** A file of the block file system, when the path leads to one. *)
Definition mnt_file (p : list Z) : M B (option Z) :=
  o ← bf_lookup_path p;
  mret (match o with
        | Some (ino, etype) => if etype =? ITYPE_FILE_ENTRY then Some ino else None
        | None => None
        end).

(** The bytes read into the front of a buffer of length [len]. *)
Definition read (path0 : list Z) (offset : Z) (len : nat) : M world (option (list Z)) :=
  if bool_decide (path0 = str "/dev/null") then mret (Some [])
  else if bool_decide (path0 = str "/dev/zero") then mret (Some (replicate len 0))
  else if bool_decide (path0 = str "/dev/tty") then mret (Some [])
  else
    match strip_prefix (str "/proc/") path0 with
    | Some rest =>
        mret (match split_once_slash rest with
              | Some (pid_str, sub) =>
                  if bool_decide (sub = str "status") then
                    pid ← parse_i32 pid_str; virtual_proc_read_status env pid offset len
                  else None
              | None => None
              end)
    | None =>
        match mnt_path path0 with
        | Some p =>
            on_blk None (o ← mnt_file p;
              match o with
              | Some ino => r ← bf_read ino offset len;
                            mret (match r with inl got => Some got | inr _ => None end)
              | None => mret None
              end)
        | None =>
            v ← the_vfs;
            mret (match nodes v !! normalize_path path0 with
                  | Some (TarFile tar_offset size) =>
                      if size <=? offset then Some []
                      else Some (initrd_read env (Nat.min len (Z.to_nat (size - offset))) (tar_offset + offset))
                  | Some (MemFile data) => Some (take len (drop (Z.to_nat offset) data))
                  | _ => None
                  end)
        end
    end.

(** The contents of an archived file, in memory. *)
Definition promote (tar_offset size : Z) : list Z :=
  let got := initrd_read env (Z.to_nat size) tar_offset in
  got ++ replicate (Z.to_nat size - length got) 0.

Definition write (path0 : list Z) (offset : Z) (data : list Z) : M world (option nat) :=
  match mnt_path path0 with
  | Some p =>
      on_blk None (o ← mnt_file p;
        match o with
        | Some ino => r ← bf_write ino offset data;
                      mret (match r with inl n => Some n | inr _ => None end)
        | None => mret None
        end)
  | None =>
      let path := normalize_path path0 in
      v ← the_vfs;
      let store old := put_vfs (set_nodes (<[path := MemFile (copy_at (Z.to_nat offset) data old)]>
                                  (nodes v)) v) ;; mret (Some (length data)) in
      match nodes v !! path with
      | Some (MemFile buf) => store buf
      | Some (TarFile tar_offset size) => store (promote tar_offset size)
      | _ => mret None
      end
  end.

Definition readdir (path0 : list Z) : M world (option (list (list Z))) :=
  if bool_decide (path0 = str "/dev") then mret (Some [str "null"; str "zero"; str "tty"])
  else if bool_decide (path0 = str "/proc") then mret (Some (virtual_proc_list env))
  else if bool_decide (is_Some (strip_prefix (str "/proc/") path0 ≫= parse_i32))
  then mret (Some [str "status"])
  else
    match mnt_path path0 with
    | Some p =>
        on_blk None (o ← bf_lookup_path p;
          match o with
          | Some (dir_ino, etype) =>
              if etype =? ITYPE_DIR_ENTRY then
                es ← bf_readall dir_ino; mret (Some ((λ e, e.1.1) <$> es))
              else mret None
          | None => mret None
          end)
    | None =>
        v ← the_vfs;
        mret (match nodes v !! normalize_path path0 with Some (Dir ch) => Some ch | _ => None end)
    end.

Definition stat (path0 : list Z) : M world (option (bool * Z)) :=
  if bool_decide (path0 ∈ [str "/dev"; str "/proc"]) then mret (Some (true, 0))
  else if bool_decide (path0 ∈ [str "/dev/null"; str "/dev/zero"; str "/dev/tty"])
  then mret (Some (false, 0))
  else
    match strip_prefix (str "/proc/") path0 with
    | Some rest =>
        let '(pid_part, sub) := default (rest, []) (split_once_slash rest) in
        mret (match parse_i32 pid_part with
              | Some _ => if bool_decide (sub = []) then Some (true, 0)
                          else if bool_decide (sub = str "status") then Some (false, 256) else None
              | None => None
              end)
    | None =>
        match mnt_path path0 with
        | Some p =>
            on_blk None (o ← bf_lookup_path p;
              match o with
              | Some (ino, etype) =>
                  if etype =? ITYPE_DIR_ENTRY then mret (Some (true, 0))
                  else info ← bf_info ino; mret ((λ i, (false, i.1.2)) <$> info)
              | None => mret None
              end)
        | None =>
            v ← the_vfs;
            mret (match nodes v !! normalize_path path0 with
                  | Some (TarFile _ size) => Some (false, size)
                  | Some (MemFile data) => Some (false, Z.of_nat (length data))
                  | Some (Dir _) => Some (true, 0)
                  | Some (Symlink target) => Some (false, Z.of_nat (length target))
                  | None => None
                  end)
        end
    end.

(** [chmod], [chown] and [utimens]: change the metadata of a path, which is made up
    from the kind of the node when there is none. *)
Definition node_default (n : FsNode) : NodeMeta :=
  match n with Dir _ => default_dir | Symlink _ => default_symlink | _ => default_file end.
Definition change_meta (path0 : list Z) (f : NodeMeta → NodeMeta) : M world bool :=
  match mnt_path path0 with
  | Some p => on_blk false (o ← bf_lookup_path p; mret (bool_decide (is_Some o)))
  | None =>
      let path := normalize_path path0 in
      v ← the_vfs;
      match nodes v !! path with
      | None => mret false
      | Some n =>
          put_vfs (mkVfs (nodes v) (<[path := f (default (node_default n) (meta v !! path))]> (meta v))) ;;
          mret true
      end
  end.
Definition chmod (path : list Z) (m : Z) : M world bool :=
  change_meta path (λ d, mkMeta m (uid d) (gid d) (atime d) (mtime d)).
Definition chown (path : list Z) (u g : Z) : M world bool :=
  change_meta path (λ d, mkMeta (mode d) u g (atime d) (mtime d)).
Definition utimens (path : list Z) (a m : Z) : M world bool :=
  change_meta path (λ d, mkMeta (mode d) (uid d) (gid d) a m).

Definition readlink (path0 : list Z) : M world (option (list Z)) :=
  v ← the_vfs;
  mret (match nodes v !! normalize_path path0 with Some (Symlink t) => Some t | _ => None end).

Definition symlink (link_path0 target : list Z) : M world bool :=
  let path := normalize_path link_path0 in
  there ← exists_ path;
  if (there : bool) then mret false else
  v ← the_vfs;
  match parent_and_name path with
  | Some (parent, name) =>
      match nodes v !! parent with
      | Some (Dir ch) =>
          put_vfs (add_child parent name path ch false (Symlink target) default_symlink v) ;; mret true
      | _ => mret false
      end
  | None => mret false
  end.

Definition link (old_path0 new_path0 : list Z) : M world bool :=
  let new_path := normalize_path new_path0 in
  v ← the_vfs;
  match nodes v !! normalize_path old_path0 with
  | None | Some (Dir _) => mret false
  | Some cloned =>
      match parent_and_name new_path with
      | None => mret false
      | Some (parent, name) =>
          match nodes v !! new_path, nodes v !! parent with
          | None, Some (Dir ch) =>
              put_vfs (set_nodes (<[new_path := cloned]> (<[parent := Dir (ch ++ [name])]> (nodes v))) v) ;;
              mret true
          | _, _ => mret false
          end
      end
  end.

Definition truncate (path0 : list Z) (length : Z) : M world bool :=
  let path := normalize_path path0 in
  v ← the_vfs;
  match nodes v !! path with
  | Some (MemFile data) =>
      put_vfs (set_nodes (<[path := MemFile (resize (Z.to_nat length) data)]> (nodes v)) v) ;; mret true
  | Some (TarFile _ _) =>
      put_vfs (set_nodes (<[path := MemFile (resize (Z.to_nat length) [])]> (nodes v)) v) ;; mret true
  | _ => mret false
  end.
End methods.

(** ** The archive of the initial RAM disk *)

Fixpoint octal_to_usize (bytes : list Z) (v : Z) : Z :=
  match bytes with
  | [] => v
  | b :: bytes' =>
      if (b =? 0) || (b =? 32) then v
      else octal_to_usize bytes' (if (48 <=? b) && (b <=? 55) then wrap 64 (v * 8 + (b - 48)) else v)
  end.

Definition tar_name_to_path (name0 : list Z) : list Z :=
  let name1 := trim_end_slash name0 in
  let name2 := default name1 (strip_prefix (str "./") name1) in
  let name := if bool_decide (name2 = str ".") then [] else name2 in
  match name with
  | [] => [SLASH]
  | b :: _ => if b =? SLASH then name else SLASH :: name
  end.

(** The last component of a name. *)
Definition base_name (name : list Z) : list Z :=
  let p := trim_end_slash name in
  match rfind_slash p with Some i => drop (S i) p | None => p end.

Definition under (dir path : list Z) : bool :=
  bool_decide (path = dir) || starts_with (dir ++ [SLASH]) path.

Section tar.
Context {B : Type} `{BlockFs B} (env : kernel_env).

(** One header: what it adds to the tree, and where the next one is. *)
Definition scan_entry (header : list Z) (offset : Z) : M (@world B) Z :=
  let name := take (default 100%nat (position (λ b, b =? 0) (take 100 header))) header in
  let size := octal_to_usize (take 12 (drop 124 header)) 0 in
  let next := offset + 512 + (size + 511) / 512 * 512 in
  if negb (utf8_valid name) || bool_decide (name = []) then mret (offset + 512)
  else if starts_with (str "._") (base_name name) then mret next
  else
    let path := tar_name_to_path name in
    if bool_decide (path = [SLASH]) then mret (offset + 512)
    else if under (str "/proc") path || under (str "/dev") path then mret next
    else
      let type_flag := default 0 (header !! 156%nat) in
      let plain := (type_flag =? 0) || (type_flag =? 48) in
      let slashed := bool_decide (last name = Some SLASH) in
      (if (type_flag =? 53) || (plain && (size =? 0) && slashed) then mkdir_all (length path) path
       else if plain && negb slashed then
         (match rfind_slash path with
          | Some slash =>
              let parent := if (slash =? 0)%nat then [SLASH] else take slash path in
              mkdir_all (length parent) parent
          | None => mret tt
          end) ;;
         insert_tar_file path (offset + 512) size
       else mret tt) ;;
      mret next.

(** Each turn moves on by a block, so the number of blocks is enough fuel. *)
Fixpoint scan_loop (fuel : nat) (offset : Z) (consecutive_empty : nat) : M world unit :=
  match fuel with
  | O => mret tt
  | S fuel' =>
      let header := initrd_read env 512 offset in
      if (length header <? 512)%nat then mret tt
      else if forallb (λ b, b =? 0) header then
        if (2 <=? S consecutive_empty)%nat then mret tt
        else scan_loop fuel' (offset + 512) (S consecutive_empty)
      else next ← scan_entry header offset; scan_loop fuel' next 0
  end.
Definition scan_initrd : M world unit := scan_loop (S (length (initrd env) / 512)) 0 0.

(** What [main] does before it serves requests: the archive, two directories, and the
    names of the directories that other servers provide. *)
Definition push_missing (name : list Z) (ch : list (list Z)) : list (list Z) :=
  if existsb (λ c, bool_decide (c = name)) ch then ch else ch ++ [name].
Definition list_virtual : M (@world B) unit :=
  v ← the_vfs;
  match nodes v !! [SLASH] with
  | Some (Dir ch) =>
      put_vfs (set_nodes (<[[SLASH] := Dir (push_missing (str "dev") (push_missing (str "proc") ch))]>
                 (nodes v)) v)
  | _ => mret tt
  end.
Definition start : M world unit :=
  scan_initrd ;;
  mkdir_all (length (str "/tmp")) (str "/tmp") ;;
  mkdir_all (length (str "/home/guest")) (str "/home/guest") ;;
  list_virtual.
End tar.

(** ** Normalized paths *)

(** A component as it stands in a normalized path. *)
Definition valid (c : list Z) : Prop :=
  c ≠ [] ∧ c ≠ str "." ∧ c ≠ str ".." ∧ Forall (λ b, b ≠ SLASH) c.
(** The absolute path with these components. *)
Definition abs (cs : list (list Z)) : list Z := SLASH :: join [SLASH] cs.

Lemma split_on_pieces (c : Z) (l : list Z) : Forall (Forall (λ b, b ≠ c)) (split_on c l).
Proof.
  induction l as [|b l IH]; simpl; [by repeat constructor|].
  destruct (b =? c) eqn:Hb; [by constructor|]. apply Z.eqb_neq in Hb.
  destruct (split_on c l) as [|p ps]; [by repeat constructor|].
  apply Forall_cons in IH as [Hp Hps]. by repeat constructor.
Qed.

Lemma Forall_removelast {A} (P : A → Prop) (l : list A) : Forall P l → Forall P (removelast l).
Proof.
  induction 1 as [|x l Hx Hl IH]; [done|]. simpl. destruct l; [done|]. by constructor.
Qed.

Lemma push_component_valid (comps : list (list Z)) (c : list Z) :
  Forall valid comps → Forall (λ b, b ≠ SLASH) c → Forall valid (push_component comps c).
Proof.
  intros Hc Hb. unfold push_component.
  destruct (bool_decide (c = []) || bool_decide (c = str ".")) eqn:H1; [done|].
  apply orb_false_iff in H1 as [H1%bool_decide_eq_false H2%bool_decide_eq_false].
  case_bool_decide; [by apply Forall_removelast|]. apply Forall_app. split; [done|].
  by repeat constructor.
Qed.

Lemma components_valid (path : list Z) : Forall valid (components path).
Proof.
  unfold components. pose proof (split_on_pieces SLASH path) as Hp. revert Hp.
  generalize (@nil (list Z)) (Forall_nil_2 valid). induction (split_on SLASH path) as [|c cs IH]; [done|].
  intros comps Hc [Hb Hcs]%Forall_cons. simpl. apply IH; [|done]. by apply push_component_valid.
Qed.

Lemma push_valid (comps : list (list Z)) (c : list Z) : valid c → push_component comps c = comps ++ [c].
Proof.
  intros (H1 & H2 & H3 & _). unfold push_component. by rewrite !bool_decide_false by done.
Qed.

Lemma foldl_push_valid (cs comps : list (list Z)) :
  Forall valid cs → foldl push_component comps cs = comps ++ cs.
Proof.
  intros Hv. revert comps. induction Hv as [|c cs Hc Hcs IH]; intros comps; simpl; [by rewrite app_nil_r|].
  by rewrite IH, push_valid, <-app_assoc by done.
Qed.

Lemma components_abs (cs : list (list Z)) : Forall valid cs → components (abs cs) = cs.
Proof.
  intros Hv. unfold components, abs. change (SLASH :: join [SLASH] cs) with ([] ++ SLASH :: join [SLASH] cs).
  rewrite split_on_app by constructor. cbn [foldl]. change (push_component [] []) with (@nil (list Z)).
  destruct cs as [|c cs]; [done|]. rewrite split_on_join, foldl_push_valid; [done|done|done|].
  eapply Forall_impl; [exact Hv|]. intros x Hx. apply Hx.
Qed.

Lemma abs_inj (cs cs' : list (list Z)) : Forall valid cs → Forall valid cs' → abs cs = abs cs' → cs = cs'.
Proof. intros H1 H2 He. by rewrite <-(components_abs cs), He, components_abs. Qed.

Lemma is_absolute_cons (b : Z) (l : list Z) : is_absolute (b :: l) = (SLASH =? b).
Proof. unfold is_absolute, starts_with. cbn [strip_prefix]. by destruct (SLASH =? b). Qed.

(** A normalized path is absolute, or it has a first component. *)
Lemma normalize_cases (path : list Z) :
  normalize_path path = abs (components path) ∨
  (components path ≠ [] ∧ normalize_path path = join [SLASH] (components path)).
Proof.
  unfold normalize_path. destruct (is_absolute path); [by left|]. simpl.
  case_bool_decide as He; [left|right]; [by rewrite He|done].
Qed.

Lemma join_not_absolute (cs : list (list Z)) :
  Forall valid cs → cs ≠ [] → ∃ b l, join [SLASH] cs = b :: l ∧ b ≠ SLASH.
Proof.
  intros [|c cs' (Hc & _ & _ & Hs) _] Hne; [done|]. destruct c as [|b c]; [done|].
  apply Forall_cons in Hs as [Hb _]. destruct cs' as [|c' cs']; simpl; eauto.
Qed.

Lemma normalize_abs (cs : list (list Z)) : Forall valid cs → normalize_path (abs cs) = abs cs.
Proof.
  intros Hv. unfold normalize_path. unfold abs at 1. rewrite is_absolute_cons.
  by rewrite components_abs.
Qed.

Lemma normalize_twice (p : list Z) : normalize_path (normalize_path p) = normalize_path p.
Proof.
  pose proof (components_valid p) as Hv.
  destruct (normalize_cases p) as [Hn | [Hne Hn]]; [by rewrite Hn, normalize_abs|].
  destruct (join_not_absolute _ Hv Hne) as (b & l & Hj & Hb).
  assert (components (join [SLASH] (components p)) = components p) as Hc.
  { unfold components at 1. rewrite split_on_join; [by rewrite foldl_push_valid|done|].
    eapply Forall_impl; [exact Hv|]. intros x Hx. apply Hx. }
  rewrite Hn. unfold normalize_path. rewrite Hc, Hj, is_absolute_cons, (proj2 (Z.eqb_neq _ _)) by done.
  by rewrite bool_decide_false.
Qed.

(** normalizing a path is idempotent, and the result is [/] or components joined
    by single slashes, none of them empty, [.] or [..], so that no normalized path
    leads out of the root. *)
Theorem normalize_canonical (path : list Z) :
  normalize_path (normalize_path path) = normalize_path path ∧
  Forall valid (components path) ∧
  normalize_path path =
    (if is_absolute path then abs (components path)
     else if bool_decide (components path = []) then [SLASH]
     else join [SLASH] (components path)).
Proof.
  split_and!; [apply normalize_twice|apply components_valid|].
  unfold normalize_path. destruct (is_absolute path); [done|]. simpl.
  case_bool_decide as He; [by rewrite He|done].
Qed.

(** ** Parents *)

Lemma trim_start_id (b : Z) (l : list Z) : b ≠ SLASH → trim_start_slash (b :: l) = b :: l.
Proof. intros Hb. simpl. by rewrite (proj2 (Z.eqb_neq _ _) Hb). Qed.

Lemma trim_end_id (l : list Z) (b : Z) : b ≠ SLASH → trim_end_slash (l ++ [b]) = l ++ [b].
Proof.
  intros Hb. unfold trim_end_slash. rewrite reverse_snoc, trim_start_id by done.
  by rewrite <-reverse_snoc, reverse_involutive.
Qed.

Lemma rfind_none (l : list Z) : Forall (λ b, b ≠ SLASH) l → rfind_slash l = None.
Proof.
  induction 1 as [|b l Hb Hl IH]; [done|]. simpl. by rewrite IH, (proj2 (Z.eqb_neq _ _) Hb).
Qed.

Lemma rfind_app (l c : list Z) :
  Forall (λ b, b ≠ SLASH) c → rfind_slash (l ++ SLASH :: c) = Some (length l).
Proof.
  intros Hc. induction l as [|b l IH]; simpl; [by rewrite rfind_none|by rewrite IH].
Qed.

Lemma join_snoc (sep : list Z) (cs : list (list Z)) (c : list Z) :
  cs ≠ [] → join sep (cs ++ [c]) = join sep cs ++ sep ++ c.
Proof.
  induction cs as [|a cs IH]; [done|]. intros _. destruct cs as [|a' cs]; [done|].
  change (join sep ((a :: a' :: cs) ++ [c])) with (a ++ sep ++ join sep ((a' :: cs) ++ [c])).
  rewrite IH by done. simpl. by rewrite <-!app_assoc.
Qed.

Lemma valid_last (c : list Z) : valid c → ∃ l b, c = l ++ [b] ∧ b ≠ SLASH.
Proof.
  intros (Hne & _ & _ & Hs). destruct (exists_last Hne) as (l & b & ->). exists l, b.
  split; [done|]. apply Forall_app in Hs as [_ Hb]. by apply Forall_cons in Hb as [? _].
Qed.

Lemma parent_abs (cs : list (list Z)) (c : list Z) :
  valid c → parent_and_name (abs (cs ++ [c])) = Some (abs cs, c).
Proof.
  intros Hc. destruct (valid_last c Hc) as (l & b & Hl & Hb). pose proof Hc as (Hne & _ & _ & Hs).
  assert (∃ pre, abs (cs ++ [c]) = pre ++ SLASH :: c ∧
    (pre = [] ∧ cs = [] ∨ pre = abs cs)) as (pre & Hpre & Hcase).
  { destruct cs as [|a cs]; [by exists []; eauto|]. exists (abs (a :: cs)). split; [|by right].
    unfold abs. by rewrite join_snoc. }
  unfold parent_and_name. rewrite Hpre.
  replace (trim_end_slash (pre ++ SLASH :: c)) with (pre ++ SLASH :: c).
  2:{ rewrite Hl. change (SLASH :: l ++ [b]) with ((SLASH :: l) ++ [b]). by rewrite app_assoc, trim_end_id. }
  rewrite rfind_app by done. simpl.
  replace (drop (S (length pre)) (pre ++ SLASH :: c)) with c.
  2:{ change (SLASH :: c) with ([SLASH] ++ c). rewrite app_assoc.
      replace (S (length pre)) with (length (pre ++ [SLASH])) by (rewrite length_app; simpl; lia).
      by rewrite drop_app_length. }
  rewrite bool_decide_false by done. destruct Hcase as [[-> ->] | ->]; [done|].
  by rewrite take_app_length.
Qed.

(** The parent of a relative path is relative. *)
Lemma parent_relative (b : Z) (l parent name : list Z) :
  b ≠ SLASH → parent_and_name (b :: l) = Some (parent, name) → is_absolute parent = false.
Proof.
  intros Hb. unfold parent_and_name.
  assert (∃ l', trim_end_slash (b :: l) = b :: l') as [l' ->].
  { unfold trim_end_slash. rewrite reverse_cons.
    assert (∀ x, ∃ y, trim_start_slash (x ++ [b]) = y ++ [b]) as Ht.
    { induction x as [|a x IH]; simpl; [rewrite (proj2 (Z.eqb_neq _ _) Hb); by exists []|].
      destruct (a =? SLASH); [done|]. by exists (a :: x). }
    destruct (Ht (reverse l)) as [y ->]. exists (reverse y). by rewrite reverse_snoc. }
  simpl. destruct (rfind_slash l') as [i|]; simpl.
  - case_bool_decide; [done|]. intros [= <- _]. by rewrite is_absolute_cons, (proj2 (Z.eqb_neq _ _)).
  - by rewrite (proj2 (Z.eqb_neq _ _) Hb).
Qed.

(** ** The shape of the tree *)

(** The directories that the server lists in the root but keeps no node for. *)
Definition served (cs : list (list Z)) : Prop := cs = [str "proc"] ∨ cs = [str "dev"].

Record tree_wf (n : gmap (list Z) FsNode) : Prop := mkTreeWf {
  tw_keys k x : n !! k = Some x → ∃ cs, Forall valid cs ∧ k = abs cs;
  tw_root : ∃ ch, n !! abs [] = Some (Dir ch);
  tw_child cs c : Forall valid cs → valid c → ¬ served (cs ++ [c]) →
    is_Some (n !! abs (cs ++ [c])) ↔ ∃ ch, n !! abs cs = Some (Dir ch) ∧ c ∈ ch;
  tw_served cs : served cs → n !! abs cs = None;
  tw_dir k ch : n !! k = Some (Dir ch) → NoDup ch ∧ Forall valid ch;
}.

Lemma served_valid (cs : list (list Z)) : served cs → Forall valid cs.
Proof. intros [-> | ->]; (repeat constructor); done. Qed.
Lemma node_not_served (n : gmap (list Z) FsNode) (cs : list (list Z)) (x : FsNode) :
  tree_wf n → n !! abs cs = Some x → ¬ served cs.
Proof. intros Hwf Hx Hs. apply (tw_served n Hwf) in Hs. congruence. Qed.
Lemma virtual_not_served (cs : list (list Z)) : is_virtual_path (abs cs) = false → ¬ served cs.
Proof. by intros Hv [-> | ->]; vm_compute in Hv. Qed.

(** A node without anything below it. *)
Definition childless (x : FsNode) : Prop := match x with Dir ch => ch = [] | _ => True end.
Definition is_dir (x : FsNode) : bool := match x with Dir _ => true | _ => false end.

Lemma abs_ne (cs cs' : list (list Z)) :
  Forall valid cs → Forall valid cs' → cs ≠ cs' → abs cs ≠ abs cs'.
Proof. intros H1 H2 Hne He. by apply Hne, abs_inj. Qed.

Lemma snoc_valid (cs : list (list Z)) (c : list Z) : Forall valid cs → valid c → Forall valid (cs ++ [c]).
Proof. intros. apply Forall_app. by split; [|constructor]. Qed.

Lemma snoc_ne (cs : list (list Z)) (c : list Z) : cs ++ [c] ≠ cs.
Proof. intros He. apply (f_equal length) in He. rewrite length_app in He. simpl in He. lia. Qed.

(** Keys are told apart by their components. *)
Lemma insert_abs {A} (m : gmap (list Z) A) (cs cs' : list (list Z)) (x : A) :
  Forall valid cs → Forall valid cs' →
  <[abs cs := x]> m !! abs cs' = if decide (cs = cs') then Some x else m !! abs cs'.
Proof.
  intros H1 H2. case_decide as Hd; [subst; apply lookup_insert_eq|].
  by apply lookup_insert_ne, abs_ne.
Qed.
Lemma delete_abs {A} (m : gmap (list Z) A) (cs cs' : list (list Z)) :
  Forall valid cs → Forall valid cs' →
  delete (abs cs) m !! abs cs' = if decide (cs = cs') then None else m !! abs cs'.
Proof.
  intros H1 H2. case_decide as Hd; [subst; apply lookup_delete_eq|].
  by apply lookup_delete_ne, abs_ne.
Qed.

Lemma tree_wf_new : tree_wf (nodes vfs_new).
Proof.
  assert (∀ k x, nodes vfs_new !! k = Some x → k = abs [] ∧ x = Dir []) as Hl.
  { intros k x Hk. unfold vfs_new in Hk. cbn [nodes] in Hk.
    by apply lookup_singleton_Some in Hk as [<- <-]. }
  split.
  - intros k x [-> _]%Hl. by exists [].
  - by exists [].
  - intros cs c Hcs Hc _. split.
    + intros [x [He _]%Hl]. apply abs_inj in He; [by destruct cs|by apply snoc_valid|done].
    + intros (ch & [_ [= ->]]%Hl & Hin). by apply not_elem_of_nil in Hin.
  - by intros cs [-> | ->].
  - intros k ch [_ [= ->]]%Hl. split; constructor.
Qed.

Lemma listed_in (l : list (list Z)) (c : list Z) :
  (∃ ch, Some (Dir l) = Some (Dir ch) ∧ c ∈ ch) ↔ c ∈ l.
Proof. split; [by intros (ch & [= <-] & Hin)|eauto]. Qed.

Section tree.
Context (n : gmap (list Z) FsNode) (Hwf : tree_wf n).
Context (cs : list (list Z)) (c : list Z) (ch : list (list Z)).
Context (Hcs : Forall valid cs) (Hc : valid c) (Hpar : n !! abs cs = Some (Dir ch)).

(** A new node under a directory. *)
Lemma tree_add (x : FsNode) :
  childless x → n !! abs (cs ++ [c]) = None → ¬ served (cs ++ [c]) →
  tree_wf (<[abs (cs ++ [c]) := x]> (<[abs cs := Dir (ch ++ [c])]> n)).
Proof.
  intros Hx Hnew Hns. pose proof (snoc_valid cs c Hcs Hc) as Hv. pose proof (snoc_ne cs c) as Hne.
  assert (c ∉ ch) as Hnin.
  { intros Hin. assert (is_Some (n !! abs (cs ++ [c]))) as [y Hy] by (apply (tw_child n Hwf); eauto).
    congruence. }
  split.
  - intros k y. rewrite !lookup_insert_Some.
    intros [[<- _]|[_ [[<- _]|[_ Hk]]]]; [eauto|eauto|by apply (tw_keys n Hwf) in Hk].
  - destruct (tw_root n Hwf) as [ch0 H0]. rewrite !insert_abs by done.
    repeat case_decide; [by destruct cs|eauto|eauto].
  - intros cs' c' Hcs' Hc' Hns'. pose proof (snoc_valid cs' c' Hcs' Hc') as Hv'.
    pose proof (tw_child n Hwf cs' c' Hcs' Hc' Hns') as Hch. rewrite !insert_abs by done.
    destruct (decide (cs = cs')) as [<-|Hd].
    { rewrite (decide_False (P := cs ++ [c] = cs)) by done.
      rewrite (decide_False (P := cs = cs ++ [c'])) by (by intros ?%eq_sym%snoc_ne).
      rewrite Hpar, listed_in in Hch. rewrite listed_in. case_decide as Hd'.
      - apply app_inj_tail in Hd' as [_ <-]. split; [set_solver|by eexists].
      - rewrite Hch. assert (c' ≠ c) by (by intros ->). set_solver. }
    rewrite (decide_False (P := cs ++ [c] = cs' ++ [c'])) by (intros [? _]%app_inj_tail; done).
    assert (is_Some (if decide (cs = cs' ++ [c']) then Some (Dir (ch ++ [c])) else n !! abs (cs' ++ [c'])) ↔
            is_Some (n !! abs (cs' ++ [c']))) as ->.
    { case_decide as He; [|done]. rewrite <-He, Hpar. split; by eexists. }
    rewrite Hch. case_decide as He; [|done]. subst cs'. rewrite Hnew.
    split; [by intros (? & ? & _)|]. intros (ch' & [= ->] & Hin). simpl in Hx. subst ch'. set_solver.
  - intros cs' Hs. pose proof (served_valid _ Hs). rewrite !insert_abs by done.
    pose proof (node_not_served _ _ _ Hwf Hpar).
    rewrite !decide_False by (intros <-; done). by apply tw_served.
  - intros k ch'. rewrite !lookup_insert_Some. intros [[_ ->]|[_ [[_ [= <-]]|[_ Hk]]]].
    + simpl in Hx. subst ch'. split; constructor.
    + destruct (tw_dir n Hwf _ _ Hpar) as [Hnd Hval]. split; [|by apply snoc_valid].
      apply NoDup_app. split_and!; [done|set_solver|by apply NoDup_singleton].
    + by apply (tw_dir n Hwf) in Hk.
Qed.

(** A childless node that is taken away. *)
Lemma tree_remove (x : FsNode) :
  n !! abs (cs ++ [c]) = Some x → childless x →
  tree_wf (delete (abs (cs ++ [c])) (<[abs cs := Dir (remove_name c ch)]> n)).
Proof.
  intros Hx Hless. pose proof (snoc_valid cs c Hcs Hc) as Hv. pose proof (snoc_ne cs c) as Hne.
  assert (∀ y, y ∈ remove_name c ch ↔ y ∈ ch ∧ y ≠ c) as Hrem.
  { intros y. unfold remove_name. rewrite list_elem_of_In, filter_In, <-list_elem_of_In.
    rewrite negb_true_iff, bool_decide_eq_false. done. }
  split.
  - intros k y. rewrite lookup_delete_Some, lookup_insert_Some.
    intros (_ & [[<- _]|[_ Hk]]); [eauto|by apply (tw_keys n Hwf) in Hk].
  - destruct (tw_root n Hwf) as [ch0 H0]. rewrite delete_abs, insert_abs by done.
    repeat case_decide; [by destruct cs|eauto|eauto].
  - intros cs' c' Hcs' Hc' Hns'. pose proof (snoc_valid cs' c' Hcs' Hc') as Hv'.
    pose proof (tw_child n Hwf cs' c' Hcs' Hc' Hns') as Hch. rewrite !delete_abs, !insert_abs by done.
    destruct (decide (cs = cs')) as [<-|Hd].
    { rewrite (decide_False (P := cs ++ [c] = cs)) by done.
      rewrite (decide_False (P := cs = cs ++ [c'])) by (by intros ?%eq_sym%snoc_ne).
      rewrite Hpar, listed_in in Hch. rewrite listed_in, Hrem. case_decide as Hd'.
      - apply app_inj_tail in Hd' as [_ <-]. split; [by intros [? ?]|naive_solver].
      - assert (c' ≠ c) by (by intros ->). rewrite Hch. naive_solver. }
    rewrite (decide_False (P := cs ++ [c] = cs' ++ [c'])) by (intros [? _]%app_inj_tail; done).
    assert (is_Some (if decide (cs = cs' ++ [c']) then Some (Dir (remove_name c ch))
                     else n !! abs (cs' ++ [c'])) ↔ is_Some (n !! abs (cs' ++ [c']))) as ->.
    { case_decide as He; [|done]. rewrite <-He, Hpar. split; by eexists. }
    rewrite Hch. case_decide as He; [|done]. subst cs'. rewrite Hx.
    split; [|by intros (? & ? & _)]. intros (ch' & [= ->] & Hin). simpl in Hless. subst ch'. set_solver.
  - intros cs' Hs. pose proof (served_valid _ Hs). rewrite delete_abs, insert_abs by done.
    case_decide; [done|]. pose proof (node_not_served _ _ _ Hwf Hpar).
    rewrite decide_False by (intros <-; done). by apply tw_served.
  - intros k ch'. rewrite lookup_delete_Some, lookup_insert_Some. intros (_ & [[_ [= <-]]|[_ Hk]]).
    + destruct (tw_dir n Hwf _ _ Hpar) as [Hnd Hval]. split; [by apply NoDup_ListNoDup, List.NoDup_filter, NoDup_ListNoDup|].
      rewrite Forall_forall in *. intros y Hy%Hrem. naive_solver.
    + by apply (tw_dir n Hwf) in Hk.
Qed.
End tree.

(** A node that is no directory takes the place of one that is none. *)
Lemma tree_replace (n : gmap (list Z) FsNode) (k : list Z) (x y : FsNode) :
  tree_wf n → n !! k = Some x → is_dir x = false → is_dir y = false → tree_wf (<[k := y]> n).
Proof.
  intros Hwf Hk Hx Hy.
  assert (∀ k' ch, <[k := y]> n !! k' = Some (Dir ch) ↔ n !! k' = Some (Dir ch)) as Hdir.
  { intros k' ch. rewrite lookup_insert_Some. destruct x, y; naive_solver. }
  assert (∀ k', is_Some (<[k := y]> n !! k') ↔ is_Some (n !! k')) as Hsome.
  { intros k'. destruct (decide (k' = k)) as [->|]; [|by rewrite lookup_insert_ne].
    rewrite lookup_insert_eq, Hk. split; by eexists. }
  split.
  - intros k' z Hz. assert (is_Some (n !! k')) as [z' Hz'] by (apply Hsome; eauto).
    by apply (tw_keys n Hwf) in Hz'.
  - destruct (tw_root n Hwf) as [ch H0]. exists ch. by apply Hdir.
  - intros cs c Hcs Hc Hns. rewrite Hsome, (tw_child n Hwf) by done. by setoid_rewrite Hdir.
  - intros cs Hs%(tw_served n Hwf). apply eq_None_not_Some. rewrite Hsome, Hs. by intros [].
  - intros k' ch Hd%Hdir. by apply (tw_dir n Hwf) in Hd.
Qed.

Lemma parent_resolves (n : gmap (list Z) FsNode) (p parent name : list Z) (x : FsNode) :
  tree_wf n → parent_and_name (normalize_path p) = Some (parent, name) → n !! parent = Some x →
  ∃ cs, Forall valid cs ∧ valid name ∧ normalize_path p = abs (cs ++ [name]) ∧ parent = abs cs.
Proof.
  intros Hwf Hp Hx. pose proof (components_valid p) as Hv.
  destruct (normalize_cases p) as [Hn | [Hne Hn]]; rewrite Hn in *.
  - destruct (components p) as [|c cs _] using rev_ind; [discriminate Hp|].
    apply Forall_app in Hv as [Hcs [Hc _]%Forall_cons]. rewrite parent_abs in Hp by done.
    injection Hp as <- <-. eauto.
  - destruct (join_not_absolute _ Hv Hne) as (b & l & Hj & Hb). rewrite Hj in Hp.
    apply parent_relative in Hp; [|done]. apply (tw_keys n Hwf) in Hx as (cs & _ & ->). discriminate Hp.
Qed.

Section invariant.
Context {B : Type} `{BlockFs B} (env : kernel_env).
Implicit Types (w : @world B) (p : list Z).

Lemma exists_outside p w :
  mnt_path p = None →
  exists_ p w = (Ok (is_virtual_path p || bool_decide (is_Some (nodes w.1 !! normalize_path p))), w).
Proof.
  intros Hm. destruct w as [v b]. unfold exists_. destruct (is_virtual_path p); [done|].
  rewrite Hm. done.
Qed.

Lemma on_blk_vfs {A} (d : A) (c : M B A) w : (on_blk d c w).2.1 = w.1.
Proof. destruct w as [v [s|]]; simpl; [|done]. by destruct (c s). Qed.

(** The path is none of the block file system's. *)
Definition outside p : Prop := mnt_path (normalize_path p) = None.

(** [mkdir] and [symlink]: a node where there is none. *)
Lemma new_node_wf (mk : FsNode) (d : NodeMeta) p w :
  tree_wf (nodes w.1) → outside p → childless mk →
  tree_wf (nodes (((there ← exists_ (normalize_path p);
    if (there : bool) then mret false else
    v ← the_vfs;
    match parent_and_name (normalize_path p) with
    | Some (parent, name) =>
        match nodes v !! parent with
        | Some (Dir ch) => put_vfs (add_child parent name (normalize_path p) ch false mk d v) ;; mret true
        | _ => mret false
        end
    | None => mret false
    end) : M world bool) w).2.1).
Proof.
  intros Hwf Hout Hmk. rewrite (bind_ok _ _ _ _ _ (exists_outside _ w Hout)), normalize_twice.
  destruct (is_virtual_path _) eqn:Hvirt; [done|]. simpl. case_bool_decide as Hex; [done|].
  apply eq_None_not_Some in Hex. unfold mbind, M_bind. simpl.
  destruct (parent_and_name (normalize_path p)) as [[parent name]|] eqn:Hp; [|done].
  destruct (nodes w.1 !! parent) as [[]|] eqn:Hpar; try done. simpl.
  destruct (parent_resolves _ _ _ _ _ Hwf Hp Hpar) as (cs & Hcs & Hc & Hn & ->).
  rewrite Hn in *. apply tree_add; try done. by apply virtual_not_served.
Qed.

Lemma mkdir_wf p w : tree_wf (nodes w.1) → outside p → tree_wf (nodes (mkdir p w).2.1).
Proof.
  intros Hwf Hout. unfold mkdir. destruct (mnt_path p); [by rewrite on_blk_vfs|].
  by apply new_node_wf.
Qed.
Lemma symlink_wf p t w : tree_wf (nodes w.1) → outside p → tree_wf (nodes (symlink p t w).2.1).
Proof. intros Hwf Hout. by apply new_node_wf. Qed.

(** [create] and [insert_tar_file]: a file, new or in place of one. *)
Lemma put_file_wf (x : FsNode) (d : NodeMeta) p (v : Vfs) (parent name : list Z) (ch : list (list Z)) :
  tree_wf (nodes v) → parent_and_name (normalize_path p) = Some (parent, name) →
  nodes v !! parent = Some (Dir ch) →
  (∀ y, nodes v !! normalize_path p = Some y → is_dir y = false) → is_dir x = false →
  is_virtual_path (normalize_path p) = false →
  tree_wf (nodes (add_child parent name (normalize_path p) ch
    (bool_decide (is_Some (nodes v !! normalize_path p))) x d v)).
Proof.
  intros Hwf Hp Hpar Hnd Hx Hvirt. unfold add_child. simpl.
  destruct (parent_resolves _ _ _ _ _ Hwf Hp Hpar) as (cs & Hcs & Hc & Hn & ->). rewrite Hn in *.
  case_bool_decide as Hex.
  - destruct Hex as [y Hy]. rewrite (insert_id (nodes v) (abs cs)) by done.
    exact (tree_replace _ _ y x Hwf Hy (Hnd y Hy) Hx).
  - apply (tree_add _ Hwf cs name ch Hcs Hc Hpar x); [by destruct x|by apply eq_None_not_Some|].
    by apply virtual_not_served.
Qed.

(** A file may be put at the path: it is neither served by others nor a directory. *)
Definition file_place p w : Prop :=
  is_virtual_path (normalize_path p) = false ∧
  ∀ y, nodes w.1 !! normalize_path p = Some y → is_dir y = false.

Lemma create_wf p w : tree_wf (nodes w.1) → file_place p w → tree_wf (nodes (create p w).2.1).
Proof.
  intros Hwf [Hv Hnd]. unfold create. destruct (mnt_path p); [by rewrite on_blk_vfs|].
  unfold mbind, M_bind. simpl.
  destruct (parent_and_name (normalize_path p)) as [[parent name]|] eqn:Hp; [|done].
  destruct (nodes w.1 !! parent) as [[]|] eqn:Hpar; try done. by apply put_file_wf.
Qed.

Lemma insert_tar_file_wf p o n w :
  tree_wf (nodes w.1) → file_place p w → tree_wf (nodes (insert_tar_file p o n w).2.1).
Proof.
  intros Hwf [Hv Hnd]. unfold insert_tar_file, mbind, M_bind. simpl.
  destruct (parent_and_name (normalize_path p)) as [[parent name]|] eqn:Hp; [|done].
  destruct (nodes w.1 !! parent) as [[]|] eqn:Hpar; try done. by apply put_file_wf.
Qed.

Lemma link_wf p q w :
  tree_wf (nodes w.1) → is_virtual_path (normalize_path q) = false → tree_wf (nodes (link p q w).2.1).
Proof.
  intros Hwf Hvirt. unfold link, mbind, M_bind. simpl.
  destruct (nodes w.1 !! normalize_path p) as [x|] eqn:Hx; [|done].
  destruct (is_dir x) eqn:Hd; [by destruct x|].
  assert (tree_wf (nodes ((match parent_and_name (normalize_path q) with
    | None => mret false
    | Some (parent, name) =>
        match nodes w.1 !! normalize_path q, nodes w.1 !! parent with
        | None, Some (Dir ch) =>
            put_vfs (set_nodes (<[normalize_path q := x]> (<[parent := Dir (ch ++ [name])]> (nodes w.1))) w.1) ;;
            mret true
        | _, _ => mret false
        end
    end : M world bool) w).2.1)); [|by destruct x].
  destruct (parent_and_name (normalize_path q)) as [[parent name]|] eqn:Hp; [|done].
  destruct (nodes w.1 !! normalize_path q) eqn:Hq; [done|].
  destruct (nodes w.1 !! parent) as [[]|] eqn:Hpar; try done. simpl.
  destruct (parent_resolves _ _ _ _ _ Hwf Hp Hpar) as (cs & Hcs & Hc & Hn & ->). rewrite Hn in *.
  apply tree_add; try done; [by destruct x|by apply virtual_not_served].
Qed.

Lemma unlink_wf p w :
  tree_wf (nodes w.1) → (∀ y, nodes w.1 !! normalize_path p = Some y → childless y) →
  tree_wf (nodes (unlink p w).2.1).
Proof.
  intros Hwf Hless. unfold unlink. destruct (mnt_path p); [by rewrite on_blk_vfs|].
  unfold mbind, M_bind. simpl.
  destruct (nodes w.1 !! normalize_path p) as [x|] eqn:Hx; [|done].
  destruct (parent_and_name (normalize_path p)) as [[parent name]|] eqn:Hp; [|done].
  destruct (nodes w.1 !! parent) as [[]|] eqn:Hpar; try done. simpl.
  destruct (parent_resolves _ _ _ _ _ Hwf Hp Hpar) as (cs & Hcs & Hc & Hn & ->). rewrite Hn in *.
  by apply (tree_remove _ Hwf _ _ _ Hcs Hc Hpar x); [|apply Hless].
Qed.

Lemma write_wf p o data w : tree_wf (nodes w.1) → tree_wf (nodes (write env p o data w).2.1).
Proof.
  intros Hwf. unfold write. destruct (mnt_path p); [by rewrite on_blk_vfs|].
  unfold mbind, M_bind. simpl.
  destruct (nodes w.1 !! normalize_path p) as [[]|] eqn:Hx; try done; by eapply tree_replace.
Qed.

Lemma truncate_wf p n w : tree_wf (nodes w.1) → tree_wf (nodes (truncate p n w).2.1).
Proof.
  intros Hwf. unfold truncate, mbind, M_bind. simpl.
  destruct (nodes w.1 !! normalize_path p) as [[]|] eqn:Hx; try done; by eapply tree_replace.
Qed.

Lemma push_missing_spec (name : list Z) (ch : list (list Z)) :
  valid name → NoDup ch → Forall valid ch →
  NoDup (push_missing name ch) ∧ Forall valid (push_missing name ch) ∧
  ∀ c, c ∈ push_missing name ch ↔ c ∈ ch ∨ c = name.
Proof.
  intros Hv Hnd Hall. unfold push_missing. destruct (existsb _ ch) eqn:He.
  - apply existsb_exists in He as (x & Hx%list_elem_of_In & ->%bool_decide_eq_true). set_solver.
  - assert (name ∉ ch) as Hno.
    { intros Hin%list_elem_of_In. apply not_true_iff_false in He. apply He, existsb_exists.
      exists name. split; [done|]. by apply bool_decide_eq_true. }
    split_and!; [|by apply snoc_valid|set_solver].
    apply NoDup_app. split_and!; [done|set_solver|by apply NoDup_singleton].
Qed.

Lemma list_virtual_wf w : tree_wf (nodes w.1) → tree_wf (nodes (list_virtual w).2.1).
Proof.
  intros Hwf. unfold list_virtual, mbind, M_bind. simpl. change [SLASH] with (abs []).
  destruct (nodes w.1 !! abs []) as [[| |ch|]|] eqn:Hr; try done. simpl.
  destruct (tw_dir _ Hwf _ _ Hr) as [Hnd Hval].
  assert (valid (str "proc") ∧ valid (str "dev")) as [Hvp Hvd] by (split; repeat constructor; done).
  destruct (push_missing_spec (str "proc") ch Hvp Hnd Hval) as (Hnd1 & Hval1 & Hin1).
  destruct (push_missing_spec (str "dev") _ Hvd Hnd1 Hval1) as (Hnd2 & Hval2 & Hin2).
  set (ch2 := push_missing (str "dev") _) in *. split.
  - intros k x. rewrite lookup_insert_Some. intros [[<- _]|[_ Hk]]; [by exists []|by apply (tw_keys _ Hwf) in Hk].
  - exists ch2. by rewrite lookup_insert_eq.
  - intros cs c Hcs Hc Hns. pose proof (tw_child _ Hwf cs c Hcs Hc Hns) as Hch.
    rewrite !insert_abs by (try done; by apply snoc_valid).
    rewrite (decide_False (P := [] = cs ++ [c])) by (by destruct cs). rewrite Hch.
    case_decide as He; [|done]. subst cs. rewrite Hr, !listed_in, Hin2, Hin1.
    split; [tauto|]. intros [[?| ->]| ->]; [done| |]; destruct Hns; [by left|by right].
  - intros cs Hs. rewrite insert_abs by (try done; by apply served_valid).
    rewrite decide_False by (by destruct Hs as [-> | ->]). by apply tw_served.
  - intros k ch'. rewrite lookup_insert_Some. intros [[_ [= <-]]|[_ Hk]]; [done|by apply (tw_dir _ Hwf) in Hk].
Qed.

Lemma change_meta_nodes p f w : nodes (change_meta p f w).2.1 = nodes w.1.
Proof.
  unfold change_meta. destruct (mnt_path p); [by rewrite on_blk_vfs|].
  unfold mbind, M_bind. simpl. by destruct (nodes w.1 !! normalize_path p).
Qed.

(** What a client can make the server do to the tree.  The server checks neither that
    [create] leaves directories alone nor that [unlink] removes no directory with
    children: these are the callers' part. *)
Inductive vfs_step : world → world → Prop :=
  | do_mkdir p w : outside p → vfs_step w (mkdir p w).2
  | do_symlink p t w : outside p → vfs_step w (symlink p t w).2
  | do_create p w : file_place p w → vfs_step w (create p w).2
  | do_insert_tar_file p o n w : file_place p w → vfs_step w (insert_tar_file p o n w).2
  | do_unlink p w :
      (∀ y, nodes w.1 !! normalize_path p = Some y → childless y) → vfs_step w (unlink p w).2
  | do_write p o data w : vfs_step w (write env p o data w).2
  | do_truncate p n w : vfs_step w (truncate p n w).2
  | do_link p q w : is_virtual_path (normalize_path q) = false → vfs_step w (link p q w).2
  | do_chmod p m w : vfs_step w (chmod p m w).2
  | do_chown p u g w : vfs_step w (chown p u g w).2
  | do_utimens p a m w : vfs_step w (utimens p a m w).2
  | do_list_virtual w : vfs_step w (list_virtual w).2.

Lemma vfs_step_wf w w' : vfs_step w w' → tree_wf (nodes w.1) → tree_wf (nodes w'.1).
Proof.
  destruct 1; intros Hwf;
    eauto using mkdir_wf, symlink_wf, create_wf, insert_tar_file_wf, unlink_wf, write_wf, truncate_wf, link_wf,
      list_virtual_wf;
    unfold chmod, chown, utimens; by rewrite change_meta_nodes.
Qed.

End invariant.

(** ** Contents *)

(** A buffer with [data] written at [start]: zeros fill a gap before it. *)
Lemma copy_at_lookup (start : nat) (data l : list Z) (i : nat) :
  copy_at start data l !! i =
    (if (start <=? i)%nat && (i <? start + length data)%nat then data !! (i - start)%nat
     else if (i <? length l)%nat then l !! i
     else if (i <? start + length data)%nat then Some 0 else None).
Proof.
  unfold copy_at, resize.
  set (l' := if (length l <? start + length data)%nat then _ else _).
  assert (∀ j, l' !! j = if (j <? length l)%nat then l !! j
                         else if (j <? start + length data)%nat then Some 0 else None) as Hl'.
  { intros j. subst l'. destruct (length l <? start + length data)%nat eqn:Hlt; bool_to_prop.
    - rewrite take_ge by lia. repeat case_match; bool_to_prop.
      + by rewrite lookup_app_l by lia.
      + rewrite lookup_app_r, lookup_replicate_2 by lia. done.
      + apply lookup_ge_None_2. rewrite length_app, length_replicate. lia.
    - repeat case_match; bool_to_prop; [done|lia|]. apply lookup_ge_None_2. lia. }
  assert (start + length data ≤ length l')%nat.
  { subst l'. destruct (length l <? start + length data)%nat eqn:Hlt; bool_to_prop; [|lia].
    rewrite length_app, length_take, length_replicate. lia. }
  destruct (decide (i < start)%nat) as [Hi|Hi].
  - rewrite lookup_app_l by (rewrite length_take; lia). rewrite lookup_take_lt, Hl' by lia.
    by rewrite (proj2 (Nat.leb_gt _ _)) by lia.
  - rewrite lookup_app_r, length_take by (rewrite length_take; lia).
    rewrite Nat.min_l by lia. rewrite (proj2 (Nat.leb_le _ _)) by lia. simpl.
    destruct (decide (i < start + length data)%nat) as [Hd|Hd].
    + rewrite (proj2 (Nat.ltb_lt i (start + _))) by done. by rewrite lookup_app_l by lia.
    + rewrite (proj2 (Nat.ltb_ge i (start + _))) by lia.
      rewrite lookup_app_r, lookup_drop by lia.
      replace (start + length data + (i - start - length data))%nat with i by lia.
      rewrite Hl'. by rewrite (proj2 (Nat.ltb_ge i (start + _))) by lia.
Qed.

Section contents.
Context {B : Type} `{BlockFs B} (env : kernel_env).
Implicit Types (w : @world B) (p q : list Z).

(** A path that is neither a device, nor below [/proc], nor on the block file system. *)
Definition ordinary p : Prop :=
  (p ∉ [str "/dev/null"; str "/dev/zero"; str "/dev/tty"]) ∧
  strip_prefix (str "/proc/") p = None ∧ mnt_path p = None.
#[global] Instance ordinary_dec p : Decision (ordinary p).
Proof. apply _. Defined.

(** The bytes of the file at a path. *)
Definition node_bytes (x : FsNode) : option (list Z) :=
  match x with
  | TarFile o n => Some (promote env o n)
  | MemFile d => Some d
  | _ => None
  end.
Definition file_bytes w p : option (list Z) := nodes w.1 !! normalize_path p ≫= node_bytes.

(** Every archived file lies in the archive. *)
Definition in_archive (x : FsNode) : Prop :=
  match x with TarFile o n => 0 ≤ o ∧ 0 ≤ n ∧ o + n ≤ Z.of_nat (length (initrd env)) | _ => True end.
#[global] Instance in_archive_dec (x : FsNode) : Decision (in_archive x).
Proof. destruct x; apply _. Defined.
Definition archived w : Prop := map_Forall (λ _, in_archive) (nodes w.1).
#[global] Instance archived_dec w : Decision (archived w).
Proof. apply _. Defined.

Lemma promote_in_archive (o n : Z) :
  in_archive (TarFile o n) → promote env o n = take (Z.to_nat n) (drop (Z.to_nat o) (initrd env)).
Proof.
  intros (Ho & Hn & Hfit). unfold promote, initrd_read.
  rewrite length_take, length_drop, Nat.min_l by lia. by rewrite Nat.sub_diag, app_nil_r.
Qed.

(** Reading gives the bytes of the file from the offset on. *)
Lemma read_bytes p w (off : Z) (len : nat) :
  archived w → ordinary p → 0 ≤ off →
  read env p off len w = (Ok ((λ l, slice l (Z.to_nat off) len) <$> file_bytes w p), w).
Proof.
  intros Harch (Hdev & Hproc & Hmnt) Hoff. unfold read.
  rewrite 3!bool_decide_false, Hproc, Hmnt by set_solver.
  unfold mbind, M_bind, file_bytes. simpl. do 2 f_equal.
  destruct (nodes w.1 !! normalize_path p) as [[o n|d|ch|t]|] eqn:Hx; simpl; try done.
  apply Harch in Hx. rewrite (promote_in_archive o n Hx). simpl in Hx. unfold slice, initrd_read.
  destruct (n <=? off) eqn:Hn; bool_to_prop.
  - rewrite drop_ge by (rewrite length_take; lia). by rewrite take_nil.
  - rewrite skipn_firstn_comm, take_take, drop_drop. by rewrite Z2Nat.inj_sub, Z2Nat.inj_add by lia.
Qed.

Lemma write_ordinary p w (off : Z) (data : list Z) (n : nat) w' :
  mnt_path p = None → write env p off data w = (Ok (Some n), w') →
  n = length data ∧ ∃ old, file_bytes w p = Some old ∧
    nodes w'.1 = <[normalize_path p := MemFile (copy_at (Z.to_nat off) data old)]> (nodes w.1) ∧
    meta w'.1 = meta w.1 ∧ w'.2 = w.2.
Proof.
  intros Hmnt. unfold write. rewrite Hmnt. unfold mbind, M_bind, file_bytes. simpl.
  destruct (nodes w.1 !! normalize_path p) as [[o m|d|ch|t]|] eqn:Hx; simpl;
    unfold mret, M_ret; try done; intros [= <- <-]; eauto 10.
Qed.

Lemma write_archived p w (off : Z) (data old : list Z) w' :
  archived w → nodes w'.1 = <[normalize_path p := MemFile (copy_at (Z.to_nat off) data old)]> (nodes w.1) →
  archived w'.
Proof. intros Harch Hn. unfold archived. rewrite Hn. by apply map_Forall_insert_2. Qed.

(** C22: a write that succeeds takes all the bytes, and from then on every spelling of
    the path reads the old contents with the bytes laid over them, the gap before the
    offset filled with zeros, and every other path reads what it read before; the
    first write to a file of the archive brings the archived contents along. *)
Theorem vfs_write_read p w (off : Z) (data : list Z) (n : nat) w' :
  archived w → ordinary p → 0 ≤ off → write env p off data w = (Ok (Some n), w') →
  n = length data ∧ archived w' ∧
  ∃ old new, file_bytes w p = Some old ∧
    (∀ i, new !! i =
       if decide (Z.to_nat off ≤ i < Z.to_nat off + length data)%nat then data !! (i - Z.to_nat off)%nat
       else if decide (length old ≤ i < Z.to_nat off)%nat then Some 0 else old !! i) ∧
    ∀ q off' len, ordinary q → 0 ≤ off' →
      read env q off' len w' =
        (Ok ((λ l, slice l (Z.to_nat off') len) <$>
               (if decide (normalize_path q = normalize_path p) then Some new else file_bytes w q)), w').
Proof.
  intros Harch Hord Hoff Hw. pose proof Hord as (_ & _ & Hmnt).
  destruct (write_ordinary _ _ _ _ _ _ Hmnt Hw) as (-> & old & Hold & Hn & _ & _).
  pose proof (write_archived _ _ _ _ _ _ Harch Hn) as Harch'. split_and!; [done..|].
  exists old, (copy_at (Z.to_nat off) data old). split_and!; [done| |].
  - intros i. rewrite copy_at_lookup. repeat case_match; bool_to_prop; try lia; try done.
    symmetry. apply lookup_ge_None_2. lia.
  - intros q off' len Hq Hoff'. rewrite read_bytes by done. unfold file_bytes at 1. rewrite Hn.
    case_decide as He; [by rewrite He, lookup_insert_eq|by rewrite lookup_insert_ne].
Qed.
End contents.

(** ** Examples *)

Definition env0 : kernel_env := mkEnv [7; 8; 9; 10] [] (λ _, None).
Definition w0 : @world ofs := (vfs_new, None).
Definition w1 : world := (insert_tar_file (str "/t") 1 2 (mkdir (str "/a") w0).2).2.
Definition w2 : world := (create (str "/a/f") w1).2.


Lemma vfs_write_read_witness :
  ∃ w', read env0 (str "/t") 0 9 w1 = (Ok (Some [8; 9]), w1) ∧
        write env0 (str "/a/../t") 4 [1; 2] w1 = (Ok (Some 2%nat), w') ∧ archived env0 w' ∧
        read env0 (str "//t") 0 9 w' = (Ok (Some [8; 9; 0; 0; 1; 2]), w').
Proof.
  eexists. split; [by vm_compute|]. split; [vm_compute; reflexivity|]. split; [|by vm_compute].
  apply (vfs_write_read env0 (str "/a/../t") w1 4 [1; 2] 2); [| |lia|vm_compute; reflexivity].
  - apply (bool_decide_unpack (archived env0 w1)). by vm_compute.
  - apply (bool_decide_unpack (ordinary (str "/a/../t"))). by vm_compute.
Defined.

(** the server removes a directory with what is below it still in the tree: after
    [unlink] of [/a] the file [/a/f] can be read but is listed nowhere, and [create] of
    [/a] turns the directory into a file with a file below it. *)
Theorem unlink_orphans_children :
  (unlink (str "/a") w2).1 = Ok true ∧ (create (str "/a") w2).1 = Ok true ∧
  ∀ w, w = (unlink (str "/a") w2).2 ∨ w = (create (str "/a") w2).2 →
    read env0 (str "/a/f") 0 1 w = (Ok (Some []), w) ∧ (readdir env0 (str "/a") w).1 = Ok None ∧
    ¬ tree_wf (nodes w.1).
Proof.
  split_and!; [by vm_compute..|]. intros w Hw.
  assert (is_Some (nodes w.1 !! abs [str "a"; str "f"]) ∧ ∀ ch, nodes w.1 !! abs [str "a"] ≠ Some (Dir ch))
    as [Hf Hno].
  { by destruct Hw as [-> | ->]; (split; [eexists; by vm_compute|by vm_compute]). }
  split_and!; [by destruct Hw as [-> | ->]; vm_compute..|].
  intros Hwf. apply (tw_child _ Hwf [str "a"] (str "f")) in Hf as (ch & Hch & _).
  - by apply Hno in Hch.
  - repeat constructor; by vm_compute.
  - repeat constructor; by vm_compute.
  - by intros [|].
Qed.
