(* ===== verification/VfsProto.v ===== *)
(** * The file-system protocol and the /proc and /dev servers

    The messages of user/vfs-proto/src/lib.rs: fields put into and taken from the 56
    bytes of a message, and the two servers that the file-system server forwards to,
    user/procfs-server/src/main.rs and user/devfs-server/src/main.rs.  What the servers
    get from the kernel is in [kernel_env]; whether a copy to another process succeeds
    is an argument. *)

From Stdlib Require Import ZArith Lia String.
From stdpp Require Import prelude gmap list strings.
From S2P Require Import Prelude Journal Ofs Vfs.
Local Open Scope Z_scope.

Record ipc_message : Type := mkIpc { sender : Z; opcode : Z; payload : list Z }.
Definition ipc_new : ipc_message := mkIpc 0 0 (replicate 56 0).

Definition OP_OPEN : Z := 1.
Definition OP_READ : Z := 2.
Definition OP_WRITE : Z := 3.
Definition OP_CLOSE : Z := 4.
Definition OP_GETDENTS : Z := 5.
Definition OP_MKDIR : Z := 6.
Definition OP_UNLINK : Z := 7.
Definition OP_STAT : Z := 8.
Definition OP_CREATE : Z := 9.
Definition OP_RENAME : Z := 10.
Definition OP_FSYNC : Z := 11.
Definition OP_DUP : Z := 12.
Definition OP_READLINK : Z := 13.
Definition OP_SYMLINK : Z := 14.
Definition OP_LINK : Z := 15.
Definition OP_CHMOD : Z := 16.
Definition OP_CHOWN : Z := 17.
Definition OP_FTRUNCATE : Z := 18.
Definition OP_LSEEK : Z := 19.
Definition OP_FPATH : Z := 20.
Definition OP_FUTIMENS : Z := 21.
Definition OP_FALLOCATE : Z := 22.
Definition OP_FSTAT : Z := 23.
Definition REPLY_OK : Z := 0.
Definition REPLY_ERR : Z := -1.

(** ** Fields *)

(** A buffer with the offset of the next field. *)
Definition put_u32 (v : Z) (b : list Z * nat) : list Z * nat :=
  (splice b.1 b.2 (le_bytes 4 v), b.2 + 4)%nat.
Definition put_u64 (v : Z) (b : list Z * nat) : list Z * nat :=
  (splice b.1 b.2 (le_bytes 8 v), b.2 + 8)%nat.
Definition get_u32 (buf : list Z) (off : nat) : Z * nat := (of_le (slice buf off 4), off + 4)%nat.
Definition get_u64 (buf : list Z) (off : nat) : Z * nat := (of_le (slice buf off 8), off + 8)%nat.

(** [x as i64] of a [u64]. *)
Definition as_i64 (x : Z) : Z := if x <? 2 ^ 63 then x else x - 2 ^ 64.

(** ** Requests *)

Definition pack_path_req (d : list Z) (flags path_ptr path_len ns_id : Z) : list Z :=
  (put_u32 ns_id (put_u32 (wrap 32 path_len) (put_u64 path_ptr (put_u32 flags (d, 0%nat))))).1.
Definition unpack_path_req (d : list Z) : Z * Z * Z * Z :=
  let '(flags, o) := get_u32 d 0 in
  let '(path_ptr, o) := get_u64 d o in
  let '(path_len, o) := get_u32 d o in
  let '(ns_id, o) := get_u32 d o in
  (flags, path_ptr, path_len, ns_id).

Definition pack_rw_req (d : list Z) (fd offset buf_ptr len : Z) : list Z :=
  (put_u32 (wrap 32 len) (put_u64 buf_ptr (put_u64 offset (put_u32 fd (d, 0%nat))))).1.
Definition unpack_rw_req (d : list Z) : Z * Z * Z * Z :=
  let '(fd, o) := get_u32 d 0 in
  let '(offset, o) := get_u64 d o in
  let '(buf_ptr, o) := get_u64 d o in
  let '(len, o) := get_u32 d o in
  (fd, offset, buf_ptr, len).

Definition pack_getdents_req (d : list Z) (path_ptr path_len buf_ptr buf_len : Z) : list Z :=
  (put_u32 (wrap 32 buf_len) (put_u64 buf_ptr (put_u32 (wrap 32 path_len) (put_u64 path_ptr (d, 0%nat))))).1.
Definition unpack_getdents_req (d : list Z) : Z * Z * Z * Z :=
  let '(path_ptr, o) := get_u64 d 0 in
  let '(path_len, o) := get_u32 d o in
  let '(buf_ptr, o) := get_u64 d o in
  let '(buf_len, o) := get_u32 d o in
  (path_ptr, path_len, buf_ptr, buf_len).

Definition pack_rename_req (d : list Z) (old_ptr old_len new_ptr new_len : Z) : list Z :=
  (put_u32 (wrap 32 new_len) (put_u64 new_ptr (put_u32 (wrap 32 old_len) (put_u64 old_ptr (d, 0%nat))))).1.
Definition unpack_rename_req (d : list Z) : Z * Z * Z * Z :=
  let '(old_ptr, o) := get_u64 d 0 in
  let '(old_len, o) := get_u32 d o in
  let '(new_ptr, o) := get_u64 d o in
  let '(new_len, o) := get_u32 d o in
  (old_ptr, old_len, new_ptr, new_len).

Definition pack_two_paths_req (d : list Z) (p1_ptr p1_len p2_ptr p2_len : Z) : list Z :=
  (put_u32 (wrap 32 p2_len) (put_u64 p2_ptr (put_u32 (wrap 32 p1_len) (put_u64 p1_ptr (d, 0%nat))))).1.
Definition unpack_two_paths_req (d : list Z) : Z * Z * Z * Z :=
  let '(p1_ptr, o) := get_u64 d 0 in
  let '(p1_len, o) := get_u32 d o in
  let '(p2_ptr, o) := get_u64 d o in
  let '(p2_len, o) := get_u32 d o in
  (p1_ptr, p1_len, p2_ptr, p2_len).

Definition pack_close_req (d : list Z) (fd : Z) : list Z := (put_u32 fd (d, 0%nat)).1.
Definition unpack_close_req (d : list Z) : Z := (get_u32 d 0).1.
Definition pack_fstat_req (d : list Z) (fd : Z) : list Z := (put_u32 fd (d, 0%nat)).1.
Definition unpack_fstat_req (d : list Z) : Z := (get_u32 d 0).1.

Definition pack_ftruncate_req (d : list Z) (fd length : Z) : list Z :=
  (put_u64 length (put_u32 fd (d, 0%nat))).1.
Definition unpack_ftruncate_req (d : list Z) : Z * Z :=
  let '(fd, o) := get_u32 d 0 in
  let '(length, o) := get_u64 d o in
  (fd, length).

Definition pack_lseek_req (d : list Z) (fd offset whence : Z) : list Z :=
  (put_u32 whence (put_u64 (wrap 64 offset) (put_u32 fd (d, 0%nat)))).1.
Definition unpack_lseek_req (d : list Z) : Z * Z * Z :=
  let '(fd, o) := get_u32 d 0 in
  let '(offset, o) := get_u64 d o in
  let '(whence, o) := get_u32 d o in
  (fd, as_i64 offset, whence).

Definition pack_fpath_req (d : list Z) (fd buf_ptr buf_len : Z) : list Z :=
  (put_u32 (wrap 32 buf_len) (put_u64 buf_ptr (put_u32 fd (d, 0%nat)))).1.
Definition unpack_fpath_req (d : list Z) : Z * Z * Z :=
  let '(fd, o) := get_u32 d 0 in
  let '(buf_ptr, o) := get_u64 d o in
  let '(buf_len, o) := get_u32 d o in
  (fd, buf_ptr, buf_len).

Definition pack_futimens_req (d : list Z) (fd ats atns mts mtns : Z) : list Z :=
  (put_u64 (wrap 64 mtns) (put_u64 (wrap 64 mts) (put_u64 (wrap 64 atns)
    (put_u64 (wrap 64 ats) (put_u32 fd (d, 0%nat)))))).1.
Definition unpack_futimens_req (d : list Z) : Z * Z * Z * Z * Z :=
  let '(fd, o) := get_u32 d 0 in
  let '(ats, o) := get_u64 d o in
  let '(atns, o) := get_u64 d o in
  let '(mts, o) := get_u64 d o in
  let '(mtns, o) := get_u64 d o in
  (fd, as_i64 ats, as_i64 atns, as_i64 mts, as_i64 mtns).

Definition pack_fallocate_req (d : list Z) (fd offset length : Z) : list Z :=
  (put_u64 length (put_u64 offset (put_u32 fd (d, 0%nat)))).1.
Definition unpack_fallocate_req (d : list Z) : Z * Z * Z :=
  let '(fd, o) := get_u32 d 0 in
  let '(offset, o) := get_u64 d o in
  let '(length, o) := get_u64 d o in
  (fd, offset, length).

(** ** Replies *)

Definition pack_u32_reply (d : list Z) (val : Z) : list Z := (put_u32 val (d, 0%nat)).1.
Definition unpack_u32_reply (d : list Z) : Z := (get_u32 d 0).1.
Definition pack_u64_reply (d : list Z) (val : Z) : list Z := (put_u64 val (d, 0%nat)).1.
Definition unpack_u64_reply (d : list Z) : Z := (get_u64 d 0).1.
Definition pack_stat_reply (d : list Z) (is_dir : bool) (size : Z) : list Z :=
  (put_u64 size (<[0%nat := if is_dir then 1 else 0]> d, 1%nat)).1.
Definition unpack_stat_reply (d : list Z) : bool * Z :=
  (negb (default 0 (d !! 0%nat) =? 0), (get_u64 d 1).1).

(** ** The /proc server *)

Definition OP_PROC_LIST : Z := 1.
Definition OP_PROC_READ : Z := 2.
Definition OP_PROC_STAT : Z := 3.
Definition PROC_REPLY_OK : Z := 100.
Definition PROC_REPLY_ERR : Z := 101.

(** Names with a zero behind each, as many from the front as fit into [cap] bytes. *)
Fixpoint nul_names (cap : nat) (names : list (list Z)) : list Z :=
  match names with
  | [] => []
  | b :: names' =>
      if (cap <? length b + 1)%nat then [] else b ++ [0] ++ nul_names (cap - (length b + 1)) names'
  end.

Section servers.
Context (env : kernel_env).
(** Whether the copy of a number of bytes to an address of the sender succeeds. *)
Context (copy_ok : Z → nat → bool).

Definition proc_list (cap : nat) : list Z := nul_names cap (decimal <$> take (cap / 4) (proc_pids env)).
Definition server_proc_status (pid offset : Z) (cap : nat) : list Z :=
  match proc_status env pid with
  | None => []
  | Some s => slice (take 512 s) (Z.to_nat offset) cap
  end.
Definition proc_stat_exists (pid : Z) : bool :=
  match proc_status env pid with Some s => negb (bool_decide (take 16 s = [])) | None => false end.

(** The answer to a request, with the bytes copied to the sender and where to: the
    result of a copy, and the reply that carries its length. *)
Definition answer_bytes (buf_ptr : Z) (bs : list Z) : ipc_message * option (Z * list Z) :=
  let reply n := mkIpc 0 PROC_REPLY_OK (splice (replicate 56 0) 0 (le_bytes 4 n)) in
  if negb (buf_ptr =? 0) && (0 <? length bs)%nat then
    if copy_ok buf_ptr (length bs) then (reply (Z.of_nat (length bs)), Some (buf_ptr, bs))
    else (mkIpc 0 PROC_REPLY_ERR (replicate 56 0), None)
  else (reply (Z.of_nat (length bs)), None).

Definition answer_stat (is_dir : bool) (size : Z) : ipc_message * option (Z * list Z) :=
  (mkIpc 0 PROC_REPLY_OK
     (splice (<[0%nat := if is_dir then 1 else 0]> (replicate 56 0)) 4 (le_bytes 4 size)), None).
Definition answer_err : ipc_message * option (Z * list Z) :=
  (mkIpc 0 PROC_REPLY_ERR (replicate 56 0), None).

Definition le32 (d : list Z) (off : nat) : Z := of_le (slice d off 4).
Definition le64 (d : list Z) (off : nat) : Z := of_le (slice d off 8).
Definition as_i32 (x : Z) : Z := if x <? 2 ^ 31 then x else x - 2 ^ 32.

Definition procfs_handle (msg : ipc_message) : ipc_message * option (Z * list Z) :=
  let d := payload msg in
  if opcode msg =? OP_PROC_LIST then
    answer_bytes (le64 d 0) (proc_list (Nat.min (Z.to_nat (le32 d 8)) 2048))
  else if opcode msg =? OP_PROC_READ then
    answer_bytes (le64 d 12)
      (server_proc_status (as_i32 (le32 d 0)) (le32 d 4) (Nat.min (Z.to_nat (le32 d 8)) 512))
  else if opcode msg =? OP_PROC_STAT then
    let pid := as_i32 (le32 d 0) in
    if pid =? 0 then answer_stat true 0
    else if negb (default 0 (d !! 4%nat) =? 0) then
      if proc_stat_exists pid then answer_stat true 0 else answer_err
    else if proc_stat_exists pid then answer_stat false 256 else answer_err
  else answer_err.

(** ** The /dev server *)

Definition OP_DEV_LIST : Z := 1.
Definition OP_DEV_READ : Z := 2.
Definition OP_DEV_WRITE : Z := 3.
Definition OP_DEV_STAT : Z := 4.

Definition dev_listing : list Z := str "null" ++ [0] ++ str "zero" ++ [0] ++ str "tty" ++ [0].

(** A copy whose length is not checked to be positive. *)
Definition answer_copy (buf_ptr : Z) (bs : list Z) : ipc_message * option (Z * list Z) :=
  if copy_ok buf_ptr (length bs) then
    (mkIpc 0 PROC_REPLY_OK (splice (replicate 56 0) 0 (le_bytes 4 (Z.of_nat (length bs)))),
     Some (buf_ptr, bs))
  else answer_err.
Definition answer_len (n : Z) : ipc_message * option (Z * list Z) :=
  (mkIpc 0 PROC_REPLY_OK (splice (replicate 56 0) 0 (le_bytes 4 n)), None).

Definition devfs_handle (msg : ipc_message) : ipc_message * option (Z * list Z) :=
  let d := payload msg in
  if opcode msg =? OP_DEV_LIST then
    let listing := take (Z.to_nat (le32 d 8)) dev_listing in
    if negb (le64 d 0 =? 0) then answer_copy (le64 d 0) listing
    else answer_len (Z.of_nat (length listing))
  else if opcode msg =? OP_DEV_READ then
    let dev := default 0 (d !! 0%nat) in
    if dev =? 0 then answer_len 0
    else if dev =? 1 then answer_copy (le64 d 12) (replicate (Nat.min (Z.to_nat (le32 d 8)) 4096) 0)
    else if dev =? 2 then answer_len 0
    else answer_err
  else if opcode msg =? OP_DEV_WRITE then answer_len (le32 d 4)
  else if opcode msg =? OP_DEV_STAT then
    let dev := default 0 (d !! 0%nat) in
    if dev =? 255 then answer_stat true 0
    else if dev <=? 2 then answer_stat false 0
    else answer_err
  else answer_err.
End servers.

(** ** Round trips *)

(** A message carries fields of the widths [ws]. *)
Fixpoint put_fields (d : list Z) (off : nat) (fs : list (nat * Z)) : list Z :=
  match fs with
  | [] => d
  | (w, v) :: fs' => put_fields (splice d off (le_bytes w v)) (off + w) fs'
  end.
Fixpoint width (fs : list (nat * Z)) : nat :=
  match fs with [] => 0%nat | (w, _) :: fs' => (w + width fs')%nat end.
Definition fits (f : nat * Z) : Prop := 0 ≤ f.2 < 256 ^ Z.of_nat f.1.

Lemma length_put (d : list Z) (off w : nat) (v : Z) :
  (off + w ≤ length d)%nat → length (splice d off (le_bytes w v)) = length d.
Proof. intros. apply length_splice. rewrite length_le_bytes. lia. Qed.

Lemma put_fields_length (fs : list (nat * Z)) (d : list Z) (off : nat) :
  (off + width fs ≤ length d)%nat → length (put_fields d off fs) = length d.
Proof.
  revert d off. induction fs as [|[w v] fs IH]; intros d off Hl; [done|]. simpl in *.
  rewrite IH; rewrite length_put; lia.
Qed.

Lemma put_fields_before (fs : list (nat * Z)) (d : list Z) (off i n : nat) :
  (off + width fs ≤ length d)%nat → (i + n ≤ off)%nat →
  slice (put_fields d off fs) i n = slice d i n.
Proof.
  revert d off. induction fs as [|[w v] fs IH]; intros d off Hl Hi; [done|]. simpl in *.
  rewrite IH by (rewrite ?length_put; lia).
  apply slice_splice_ne; rewrite length_le_bytes; lia.
Qed.

(** The field that starts at an offset. *)
Fixpoint field_at (fs : list (nat * Z)) (o : nat) : option (nat * Z) :=
  match fs with
  | [] => None
  | (w, v) :: fs' => if (o =? 0)%nat then Some (w, v) else if (o <? w)%nat then None else field_at fs' (o - w)
  end.

Lemma put_fields_roundtrip (fs : list (nat * Z)) (d : list Z) (off o w : nat) (v : Z) :
  (off + width fs ≤ length d)%nat → Forall fits fs → field_at fs o = Some (w, v) →
  of_le (slice (put_fields d off fs) (off + o) w) = v.
Proof.
  intros Hl Hf. revert d off o Hl. induction Hf as [|[w' v'] fs Hv Hf IH]; intros d off o Hl Ho; [done|].
  simpl in *. destruct (o =? 0)%nat eqn:H0; bool_to_prop.
  - injection Ho as -> ->. subst o. rewrite Nat.add_0_r.
    rewrite put_fields_before by (rewrite ?length_put; lia).
    pose proof (slice_splice_eq d off (le_bytes w v)) as Hs. rewrite length_le_bytes in Hs.
    rewrite Hs by lia. by apply of_le_bytes.
  - destruct (o <? w')%nat eqn:Hw; bool_to_prop; [done|].
    replace (off + o)%nat with (off + w' + (o - w'))%nat by lia.
    apply IH; [rewrite length_put; lia|done].
Qed.

Lemma message_field (fs : list (nat * Z)) (d : list Z) (o w : nat) (v : Z) :
  (width fs ≤ length d)%nat → Forall fits fs → field_at fs o = Some (w, v) →
  of_le (slice (put_fields d 0 fs) o w) = v.
Proof. apply (put_fields_roundtrip fs d 0 o w v). Qed.

Definition is_u32 (x : Z) : Prop := 0 ≤ x < 2 ^ 32.
Definition is_u64 (x : Z) : Prop := 0 ≤ x < 2 ^ 64.
Definition is_i64 (x : Z) : Prop := - 2 ^ 63 ≤ x < 2 ^ 63.

Lemma fits_u32 (x : Z) : is_u32 x → fits (4%nat, x).
Proof. done. Qed.
Lemma fits_u64 (x : Z) : is_u64 x → fits (8%nat, x).
Proof. done. Qed.
Lemma fits_wrap32 (x : Z) : fits (4%nat, wrap 32 x).
Proof. unfold fits, wrap. simpl. apply Z.mod_pos_bound. lia. Qed.
Lemma fits_wrap64 (x : Z) : fits (8%nat, wrap 64 x).
Proof. unfold fits, wrap. simpl. apply Z.mod_pos_bound. lia. Qed.
Lemma wrap32_id (x : Z) : is_u32 x → wrap 32 x = x.
Proof. intros. by apply Z.mod_small. Qed.
Lemma as_i64_wrap (x : Z) : is_i64 x → as_i64 (wrap 64 x) = x.
Proof.
  unfold is_i64, as_i64, wrap. intros Hx. destruct (decide (0 ≤ x)).
  - rewrite Z.mod_small by lia. by rewrite (proj2 (Z.ltb_lt _ _)) by lia.
  - replace (x mod 2 ^ 64) with (x + 2 ^ 64) by (apply (Z.mod_unique _ _ (-1)); lia).
    rewrite (proj2 (Z.ltb_ge _ _)) by lia. lia.
Qed.
Create HintDb proto.
#[local] Hint Resolve fits_u32 fits_u64 fits_wrap32 fits_wrap64 : proto.

(** The fields of a packed message [m] are those put there. *)
Ltac unpacks m d fs :=
  change m with (put_fields d 0 fs);
  repeat match goal with |- context [of_le (slice (put_fields d 0 fs) ?o ?w)] =>
    erewrite (message_field fs d o w); [|simpl; lia|repeat (apply Forall_cons_2; [by auto with proto|]); apply Forall_nil_2|reflexivity]
  end;
  rewrite ?wrap32_id, ?as_i64_wrap by done.

Section requests.
Context (d : list Z) (Hd : length d = 56%nat).
Lemma path_roundtrip flags p n ns : is_u32 flags → is_u64 p → is_u32 n → is_u32 ns →
  unpack_path_req (pack_path_req d flags p n ns) = (flags, p, n, ns).
Proof using Hd.
  intros. cbv beta iota zeta delta [unpack_path_req get_u32 get_u64].
  by unpacks (pack_path_req d flags p n ns) d [(4%nat, flags); (8%nat, p); (4%nat, wrap 32 n); (4%nat, ns)].
Qed.
Lemma rw_roundtrip fd off p n : is_u32 fd → is_u64 off → is_u64 p → is_u32 n →
  unpack_rw_req (pack_rw_req d fd off p n) = (fd, off, p, n).
Proof using Hd.
  intros. cbv beta iota zeta delta [unpack_rw_req get_u32 get_u64].
  by unpacks (pack_rw_req d fd off p n) d [(4%nat, fd); (8%nat, off); (8%nat, p); (4%nat, wrap 32 n)].
Qed.
Lemma lseek_roundtrip fd off wh : is_u32 fd → is_i64 off → is_u32 wh →
  unpack_lseek_req (pack_lseek_req d fd off wh) = (fd, off, wh).
Proof using Hd.
  intros. cbv beta iota zeta delta [unpack_lseek_req get_u32 get_u64].
  by unpacks (pack_lseek_req d fd off wh) d [(4%nat, fd); (8%nat, wrap 64 off); (4%nat, wh)].
Qed.
End requests.

Lemma stat_roundtrip (d : list Z) (b : bool) (n : Z) :
  (9 ≤ length d)%nat → is_u64 n → unpack_stat_reply (pack_stat_reply d b n) = (b, n).
Proof.
  intros Hd Hn. unfold unpack_stat_reply, pack_stat_reply, put_u64, get_u64. cbn [fst snd].
  set (d' := <[0%nat := _]> d). assert (length d' = length d) as Hl by apply length_insert.
  assert (length (le_bytes 8 n) = 8%nat) as H8 by apply length_le_bytes.
  f_equal.
  - rewrite lookup_splice by lia. rewrite decide_False by lia. subst d'.
    rewrite list_lookup_insert_eq by lia. by destruct b.
  - rewrite <-H8 at 2. rewrite slice_splice_eq by lia. by apply of_le_bytes.
Qed.

(** a client and the file-system server agree on every message: what one packs into
    the 56 bytes the other unpacks, whatever was in them before, for all values of the
    fields' types (lengths below 2^32, offsets and times signed). *)
Theorem proto_roundtrip (d : list Z) :
  length d = 56%nat →
  (∀ flags p n ns, is_u32 flags → is_u64 p → is_u32 n → is_u32 ns →
     unpack_path_req (pack_path_req d flags p n ns) = (flags, p, n, ns)) ∧
  (∀ fd off p n, is_u32 fd → is_u64 off → is_u64 p → is_u32 n →
     unpack_rw_req (pack_rw_req d fd off p n) = (fd, off, p, n)) ∧
  (∀ p n q m, is_u64 p → is_u32 n → is_u64 q → is_u32 m →
     unpack_getdents_req (pack_getdents_req d p n q m) = (p, n, q, m) ∧
     unpack_rename_req (pack_rename_req d p n q m) = (p, n, q, m) ∧
     unpack_two_paths_req (pack_two_paths_req d p n q m) = (p, n, q, m)) ∧
  (∀ fd, is_u32 fd →
     unpack_close_req (pack_close_req d fd) = fd ∧ unpack_fstat_req (pack_fstat_req d fd) = fd ∧
     unpack_u32_reply (pack_u32_reply d fd) = fd) ∧
  (∀ fd n, is_u32 fd → is_u64 n → unpack_ftruncate_req (pack_ftruncate_req d fd n) = (fd, n)) ∧
  (∀ fd off wh, is_u32 fd → is_i64 off → is_u32 wh →
     unpack_lseek_req (pack_lseek_req d fd off wh) = (fd, off, wh)) ∧
  (∀ fd p n, is_u32 fd → is_u64 p → is_u32 n →
     unpack_fpath_req (pack_fpath_req d fd p n) = (fd, p, n)) ∧
  (∀ fd a b c e, is_u32 fd → is_i64 a → is_i64 b → is_i64 c → is_i64 e →
     unpack_futimens_req (pack_futimens_req d fd a b c e) = (fd, a, b, c, e)) ∧
  (∀ fd off n, is_u32 fd → is_u64 off → is_u64 n →
     unpack_fallocate_req (pack_fallocate_req d fd off n) = (fd, off, n)) ∧
  (∀ n, is_u64 n → unpack_u64_reply (pack_u64_reply d n) = n) ∧
  (∀ b n, is_u64 n → unpack_stat_reply (pack_stat_reply d b n) = (b, n)).
Proof.
  intros Hd. split_and!; [by apply path_roundtrip|by apply rw_roundtrip| | | |by apply lseek_roundtrip|..];
    intros; split_and?;
    cbv beta iota zeta delta [unpack_getdents_req unpack_rename_req unpack_two_paths_req unpack_close_req
      unpack_fstat_req unpack_u32_reply unpack_ftruncate_req unpack_fpath_req unpack_futimens_req
      unpack_fallocate_req unpack_u64_reply get_u32 get_u64].
  - by unpacks (pack_getdents_req d p n q m) d
      [(8%nat, p); (4%nat, wrap 32 n); (8%nat, q); (4%nat, wrap 32 m)].
  - by unpacks (pack_rename_req d p n q m) d
      [(8%nat, p); (4%nat, wrap 32 n); (8%nat, q); (4%nat, wrap 32 m)].
  - by unpacks (pack_two_paths_req d p n q m) d
      [(8%nat, p); (4%nat, wrap 32 n); (8%nat, q); (4%nat, wrap 32 m)].
  - by unpacks (pack_close_req d fd) d [(4%nat, fd)].
  - by unpacks (pack_fstat_req d fd) d [(4%nat, fd)].
  - by unpacks (pack_u32_reply d fd) d [(4%nat, fd)].
  - by unpacks (pack_ftruncate_req d fd n) d [(4%nat, fd); (8%nat, n)].
  - by unpacks (pack_fpath_req d fd p n) d [(4%nat, fd); (8%nat, p); (4%nat, wrap 32 n)].
  - by unpacks (pack_futimens_req d fd a b c e) d
      [(4%nat, fd); (8%nat, wrap 64 a); (8%nat, wrap 64 b); (8%nat, wrap 64 c); (8%nat, wrap 64 e)].
  - by unpacks (pack_fallocate_req d fd off n) d [(4%nat, fd); (8%nat, off); (8%nat, n)].
  - by unpacks (pack_u64_reply d n) d [(8%nat, n)].
  - apply stat_roundtrip; [lia|done].
Qed.

Lemma proto_roundtrip_witness :
  unpack_rw_req (pack_rw_req (replicate 56 7) 3 (2 ^ 64 - 1) 4096 10) = (3, 2 ^ 64 - 1, 4096, 10).
Proof.
  destruct (proto_roundtrip (replicate 56 7) eq_refl) as (_ & Hrw & _). apply Hrw; split; by vm_compute.
Defined.
