(* ===== verification/VfsServer.v ===== *)
(** * The file-system server's requests (user/vfs-server/src/main.rs)

    The table of open files, the forwarding to the /proc and /dev servers, and the
    handler of every request.  The state holds the mount namespaces, the table, the
    block file system, and what the server did to its clients: the bytes it copied to
    them and the messages it sent.  What a request needs from its surroundings (the
    memory of the client, the answers of the kernel and of the other servers) is the
    argument [os]. *)

From Stdlib Require Import ZArith Lia String.
From stdpp Require Import prelude gmap list strings.
From S2P Require Import Prelude Journal Ofs Vfs VfsProto.
Local Open Scope Z_scope.

(** ** Open files *)

Record OpenFile : Type := mkOpen { of_path : list Z; of_offset : Z; of_ns : Z }.
Record OpenTable : Type := mkTable { files : gmap Z OpenFile; next_fd : Z }.
Definition table_new : OpenTable := mkTable ∅ 1.

Definition table_open (path : list Z) (ns_id : Z) (t : OpenTable) : Z * OpenTable :=
  (next_fd t, mkTable (<[next_fd t := mkOpen path 0 ns_id]> (files t)) (wrap 32 (next_fd t + 1))).
Definition table_close (fd : Z) (t : OpenTable) : OpenTable := mkTable (delete fd (files t)) (next_fd t).
Definition table_dup (fd : Z) (t : OpenTable) : option (Z * OpenTable) :=
  file ← files t !! fd;
  Some (next_fd t, mkTable (<[next_fd t := file]> (files t)) (wrap 32 (next_fd t + 1))).
Definition set_offset (fd off : Z) (t : OpenTable) : OpenTable :=
  mkTable (alter (λ f, mkOpen (of_path f) off (of_ns f)) fd (files t)) (next_fd t).

(** ** The surroundings and the state *)

Record os : Type := mkOs {
  os_env : kernel_env;
  (** [datacopy] from a client: the bytes at an address, when they can be read. *)
  pull : Z → Z → nat → option (list Z);
  (** Whether [datacopy] to a client succeeds. *)
  writable : Z → Z → nat → bool;
  (** The servers for /proc and /dev, when they are registered. *)
  proc_server_pid : Z;
  dev_server_pid : Z;
  proc_server : ipc_message → ipc_message * option (Z * list Z);
  dev_server : ipc_message → ipc_message * option (Z * list Z);
  (** The address of the server's own buffer. *)
  local_ptr : Z;
}.

Record server {B : Type} : Type := mkServer {
  namespaces : gmap Z Vfs;
  open_table : OpenTable;
  blk : option B;
  copied : list (Z * Z * list Z);
  sent : list (Z * ipc_message);
}.
Arguments server : clear implicits.
Arguments mkServer {B} _ _ _ _ _.

Section server.
Context {B : Type} `{BlockFs B} (o : os).
Abbreviation Srv := (M (server B)).

(** The methods of the tree of a namespace, made when it is missing. *)
Definition with_ns {A} (ns_id : Z) (c : M (@world B) A) : Srv A := λ s,
  let '(r, (v, b)) := c (default vfs_new (namespaces s !! ns_id), blk s) in
  (r, mkServer (<[ns_id := v]> (namespaces s)) (open_table s) b (copied s) (sent s)).

(** The block file system, or [d] when there is none. *)
Definition with_blk {A} (d : A) (c : M B A) : Srv A := λ s,
  match blk s with
  | None => (Ok d, s)
  | Some b => let '(r, b') := c b in
              (r, mkServer (namespaces s) (open_table s) (Some b') (copied s) (sent s))
  end.

Definition on_table (f : OpenTable → OpenTable) : Srv unit :=
  modify (λ s, mkServer (namespaces s) (f (open_table s)) (blk s) (copied s) (sent s)).
Definition open_file (fd : Z) : Srv (option OpenFile) := gets (λ s, files (open_table s) !! fd).
Definition new_file (path : list Z) (ns_id : Z) : Srv Z := λ s,
  let '(fd, t) := table_open path ns_id (open_table s) in
  (Ok fd, mkServer (namespaces s) t (blk s) (copied s) (sent s)).

Definition copy_out (client ptr : Z) (bs : list Z) : Srv bool := λ s,
  if writable o client ptr (length bs)
  then (Ok true, mkServer (namespaces s) (open_table s) (blk s) (copied s ++ [(client, ptr, bs)]) (sent s))
  else (Ok false, s).

Definition reply (t : Z) (msg : ipc_message) (d : list Z) : Srv unit :=
  modify (λ s, mkServer (namespaces s) (open_table s) (blk s) (copied s)
                 (sent s ++ [(sender msg, mkIpc (sender msg) t d)])).
Definition reply_ok (msg : ipc_message) (d : list Z) : Srv unit := reply REPLY_OK msg d.
Definition reply_err (msg : ipc_message) : Srv unit := reply REPLY_ERR msg (payload msg).
Definition reply_bool (msg : ipc_message) (ok : bool) : Srv unit :=
  if ok then reply_ok msg (payload msg) else reply_err msg.

(** The path a client passed, when it can be read and is a string. *)
Definition client_path (client ptr len : Z) : option (list Z) :=
  p ← pull o client ptr (Z.to_nat len);
  if utf8_valid p then Some p else None.
Definition bad_len (len : Z) : bool := (len =? 0) || (1024 <? len).

(** ** Forwarding *)

Definition u32_at (off : nat) (x : Z) (d : list Z) : list Z := splice d off (le_bytes 4 x).
Definition u64_at (off : nat) (x : Z) (d : list Z) : list Z := splice d off (le_bytes 8 x).

(** The pid and what follows it in a path below /proc. *)
Definition proc_parts (path : list Z) : option (Z * list Z) :=
  rest ← strip_prefix (str "/proc/") path;
  let '(pid_str, sub) := default (rest, []) (split_once_slash rest) in
  pid ← parse_i32 pid_str;
  Some (pid, sub).

(** Ask a server for bytes: they come into a buffer of [cap] zeros, and the reply says
    how many there are; they are passed on to the client. *)
Definition pass_bytes (answer : ipc_message * option (Z * list Z)) (client buf_ptr : Z) (cap : nat) :
    Srv (option Z) :=
  let '(rep, wrote) := answer in
  let local := match wrote with Some (_, bs) => resize cap bs | None => replicate cap 0 end in
  if negb (opcode rep =? PROC_REPLY_OK) then mret None else
  let n := le32 (payload rep) 0 in
  if n =? 0 then mret (Some 0) else
  ok ← copy_out client buf_ptr (resize (Z.to_nat n) local);
  mret (if (ok : bool) then Some n else None).

Definition forward_proc_read (path : list Z) (offset client buf_ptr len : Z) : Srv (option Z) :=
  match proc_parts path with
  | None => mret None
  | Some (pid, sub) =>
      if negb (bool_decide (sub = str "status")) && negb (bool_decide (sub = [])) then mret None else
      let cap := Z.min len 512 in
      let req := mkIpc 0 OP_PROC_READ
        (u64_at 12 (local_ptr o) (u32_at 8 cap (u32_at 4 (wrap 32 offset) (u32_at 0 pid (replicate 56 0))))) in
      pass_bytes (proc_server o req) client buf_ptr (Z.to_nat cap)
  end.

Definition forward_proc_list (client buf_ptr max_len : Z) : Srv (option Z) :=
  let cap := Z.min max_len 2048 in
  let req := mkIpc 0 OP_PROC_LIST (u32_at 8 cap (u64_at 0 (local_ptr o) (replicate 56 0))) in
  pass_bytes (proc_server o req) client buf_ptr (Z.to_nat cap).

Definition stat_reply (rep : ipc_message) : option (bool * Z) :=
  if negb (opcode rep =? PROC_REPLY_OK) then None
  else Some (negb (default 0 (payload rep !! 0%nat) =? 0), le32 (payload rep) 4).

Definition forward_proc_stat (path : list Z) : option (bool * Z) :=
  d ← (if bool_decide (path = str "/proc") then Some (<[4%nat := 1]> (u32_at 0 0 (replicate 56 0)))
       else '(pid, sub) ← proc_parts path;
            Some (<[4%nat := if bool_decide (sub = []) then 1 else 0]> (u32_at 0 pid (replicate 56 0))));
  stat_reply (proc_server o (mkIpc 0 OP_PROC_STAT d)).1.

Definition dev_name_to_id (name : list Z) : option Z :=
  if bool_decide (name = str "null") then Some 0
  else if bool_decide (name = str "zero") then Some 1
  else if bool_decide (name = str "tty") then Some 2
  else None.

Definition forward_dev_read (path : list Z) (offset client buf_ptr len : Z) : Srv (option Z) :=
  match strip_prefix (str "/dev/") path ≫= dev_name_to_id with
  | None => mret None
  | Some dev_id =>
      let cap := Z.min len 4096 in
      let req := mkIpc 0 OP_DEV_READ
        (u64_at 12 (local_ptr o) (u32_at 8 cap (u32_at 4 (wrap 32 offset)
           (<[0%nat := dev_id]> (replicate 56 0))))) in
      pass_bytes (dev_server o req) client buf_ptr (Z.to_nat cap)
  end.

Definition forward_dev_stat (path : list Z) : option (bool * Z) :=
  id ← (if bool_decide (path = str "/dev") then Some 255
        else strip_prefix (str "/dev/") path ≫= dev_name_to_id);
  stat_reply (dev_server o (mkIpc 0 OP_DEV_STAT (<[0%nat := id]> (replicate 56 0)))).1.

Definition forward_dev_list (client buf_ptr max_len : Z) : Srv (option Z) :=
  let cap := Z.min max_len 256 in
  let req := mkIpc 0 OP_DEV_LIST (u32_at 8 cap (u64_at 0 (local_ptr o) (replicate 56 0))) in
  pass_bytes (dev_server o req) client buf_ptr (Z.to_nat cap).

(** ** Requests *)

Definition op_open (msg : ipc_message) : Srv unit :=
  let '(_, path_ptr, path_len, ns_id) := unpack_path_req (payload msg) in
  if bad_len path_len then reply_err msg else
  match client_path (sender msg) path_ptr path_len with
  | None => reply_err msg
  | Some path =>
      there ← with_ns ns_id (exists_ path);
      if (there : bool) then
        fd ← new_file path ns_id;
        reply_ok msg (pack_u32_reply (payload msg) fd)
      else reply_err msg
  end.

Definition op_dup (msg : ipc_message) : Srv unit :=
  t ← gets open_table;
  match table_dup (unpack_u32_reply (payload msg)) t with
  | Some (new_fd, t') => on_table (λ _, t') ;; reply_ok msg (pack_u32_reply (payload msg) new_fd)
  | None => reply_err msg
  end.

(** The reply to a transfer of [n] bytes from [off] on, which moves the file's offset. *)
Definition transferred (msg : ipc_message) (fd off n : Z) : Srv unit :=
  on_table (set_offset fd (wrap 64 (off + n))) ;; reply_ok msg (pack_u32_reply (payload msg) (wrap 32 n)).
Definition at_offset (f : OpenFile) (offset : Z) : Z :=
  if offset =? 2 ^ 64 - 1 then of_offset f else offset.
Definition MAX_CHUNK : Z := 1048576.

Definition op_read (msg : ipc_message) : Srv unit :=
  let '(fd, offset, buf_ptr, len_req) := unpack_rw_req (payload msg) in
  file ← open_file fd;
  match file with
  | None => reply_err msg
  | Some f =>
      let read_off := at_offset f offset in
      let finish r := match r with Some n => transferred msg fd read_off n | None => reply_err msg end in
      if starts_with (str "/proc/") (of_path f) && (0 <? proc_server_pid o) then
        r ← forward_proc_read (of_path f) read_off (sender msg) buf_ptr len_req; finish r
      else if starts_with (str "/dev/") (of_path f) && (0 <? dev_server_pid o) then
        r ← forward_dev_read (of_path f) read_off (sender msg) buf_ptr len_req; finish r
      else
        r ← with_ns (of_ns f) (read (os_env o) (of_path f) read_off (Z.to_nat (Z.min len_req MAX_CHUNK)));
        match r with
        | None => reply_err msg
        | Some bs =>
            ok ← copy_out (sender msg) buf_ptr bs;
            if (ok : bool) then transferred msg fd read_off (Z.of_nat (length bs)) else reply_err msg
        end
  end.

Definition op_write (msg : ipc_message) : Srv unit :=
  let '(fd, offset, buf_ptr, len_req) := unpack_rw_req (payload msg) in
  file ← open_file fd;
  match file with
  | None => reply_err msg
  | Some f =>
      let write_off := at_offset f offset in
      match pull o (sender msg) buf_ptr (Z.to_nat (Z.min len_req MAX_CHUNK)) with
      | None => reply_err msg
      | Some bs =>
          r ← with_ns (of_ns f) (write (os_env o) (of_path f) write_off bs);
          match r with
          | Some written => transferred msg fd write_off (Z.of_nat written)
          | None => reply_err msg
          end
      end
  end.

Definition op_close (msg : ipc_message) : Srv unit :=
  on_table (table_close (unpack_close_req (payload msg))) ;; reply_ok msg (payload msg).

Definition op_getdents (msg : ipc_message) : Srv unit :=
  let '(path_ptr, path_len, buf_ptr, buf_len) := unpack_getdents_req (payload msg) in
  let finish r := match r with Some n => reply_ok msg (pack_u32_reply (payload msg) n) | None => reply_err msg end in
  if bad_len path_len then reply_err msg else
  match client_path (sender msg) path_ptr path_len with
  | None => reply_err msg
  | Some path =>
      if (bool_decide (path = str "/proc") || starts_with (str "/proc/") path) && (0 <? proc_server_pid o) then
        r ← forward_proc_list (sender msg) buf_ptr buf_len; finish r
      else if bool_decide (path = str "/dev") && (0 <? dev_server_pid o) then
        r ← forward_dev_list (sender msg) buf_ptr buf_len; finish r
      else
        r ← with_ns 1 (readdir (os_env o) path);
        match r with
        | None => reply_err msg
        | Some children =>
            let bs := nul_names (Z.to_nat buf_len) children in
            ok ← copy_out (sender msg) buf_ptr bs;
            if (ok : bool) then reply_ok msg (pack_u32_reply (payload msg) (Z.of_nat (length bs)))
            else reply_err msg
        end
  end.

(** The requests with one path that answer yes or no; only some bound the length. *)
Definition path_request (bounded : bool) (msg : ipc_message) (f : Z → list Z → M (@world B) bool)
    (done : list Z → Z → Srv unit) : Srv unit :=
  let '(flags, path_ptr, path_len, ns_id) := unpack_path_req (payload msg) in
  if bounded && bad_len path_len then reply_err msg else
  match client_path (sender msg) path_ptr path_len with
  | None => reply_err msg
  | Some path =>
      ok ← with_ns ns_id (f flags path);
      if (ok : bool) then done path ns_id else reply_err msg
  end.
Definition op_mkdir (msg : ipc_message) : Srv unit :=
  path_request false msg (λ _, mkdir) (λ _ _, reply_ok msg (payload msg)).
Definition op_create (msg : ipc_message) : Srv unit :=
  path_request false msg (λ _, create) (λ path ns_id,
    fd ← new_file path ns_id; reply_ok msg (pack_u32_reply (payload msg) fd)).
Definition op_unlink (msg : ipc_message) : Srv unit :=
  path_request false msg (λ _, unlink) (λ _ _, reply_ok msg (payload msg)).
Definition op_chmod (msg : ipc_message) : Srv unit :=
  path_request true msg (λ mode path, chmod path mode) (λ _ _, reply_ok msg (payload msg)).
Definition op_chown (msg : ipc_message) : Srv unit :=
  path_request true msg (λ owner path, chown path owner (2 ^ 32 - 1)) (λ _ _, reply_ok msg (payload msg)).

Definition op_stat (msg : ipc_message) : Srv unit :=
  let '(_, path_ptr, path_len, ns_id) := unpack_path_req (payload msg) in
  let finish r := match r with
                  | Some (is_dir, size) => reply_ok msg (pack_stat_reply (payload msg) is_dir size)
                  | None => reply_err msg
                  end in
  match client_path (sender msg) path_ptr path_len with
  | None => reply_err msg
  | Some path =>
      if (bool_decide (path = str "/proc") || starts_with (str "/proc/") path) && (0 <? proc_server_pid o)
      then finish (forward_proc_stat path)
      else if (bool_decide (path = str "/dev") || starts_with (str "/dev/") path) && (0 <? dev_server_pid o)
      then finish (forward_dev_stat path)
      else r ← with_ns ns_id (stat path); finish r
  end.

(** Renaming in the tree: the paths are taken as they are. *)
Definition rename_node (old new : list Z) (v : Vfs) : bool * Vfs :=
  match nodes v !! old with
  | None => (false, v)
  | Some node =>
      let in_parent path f n :=
        match parent_and_name path with
        | Some (parent, name) =>
            match n !! parent with Some (Dir c) => <[parent := Dir (f name c)]> n | _ => n end
        | None => n
        end in
      let n1 := in_parent old remove_name (delete old (nodes v)) in
      let n2 := in_parent new (λ name c, c ++ [name]) n1 in
      (true, mkVfs (<[new := node]> n2)
               (match meta v !! old with
                | Some m => <[new := m]> (delete old (meta v))
                | None => meta v
                end))
  end.

Definition op_rename (msg : ipc_message) : Srv unit :=
  let '(old_ptr, old_len, new_ptr, new_len) := unpack_rename_req (payload msg) in
  match client_path (sender msg) old_ptr old_len, client_path (sender msg) new_ptr new_len with
  | Some old, Some new =>
      if starts_with (str "/mnt") old || starts_with (str "/mnt") new then
        match mnt_path old, mnt_path new with
        | Some old_p, Some new_p =>
            match parent_and_name old_p, parent_and_name new_p with
            | Some (old_parent, old_name), Some (new_parent, new_name) =>
                ok ← with_blk false (bf_rename old_parent old_name new_parent new_name); reply_bool msg ok
            | _, _ => reply_err msg
            end
        | _, _ => reply_err msg
        end
      else
        ok ← with_ns 1 (v ← the_vfs; let '(ok, v') := rename_node old new v in put_vfs v' ;; mret ok);
        reply_bool msg ok
  | _, _ => reply_err msg
  end.

Definition op_fsync (msg : ipc_message) : Srv unit :=
  file ← open_file (unpack_close_req (payload msg));
  match file with
  | Some f => if starts_with (str "/mnt") (of_path f)
              then ok ← with_blk false bf_fsync; reply_bool msg ok
              else reply_ok msg (payload msg)
  | None => reply_ok msg (payload msg)
  end.

Definition mnt_readlink (p : list Z) : M B (option (list Z)) :=
  e ← bf_lookup_path p;
  match e with
  | Some (ino, etype) =>
      if negb (etype =? ITYPE_SYMLINK_ENTRY) then mret None else
      info ← bf_info ino;
      match info with
      | None => mret None
      | Some (_, size, _) =>
          r ← bf_read ino 0 (Z.to_nat size);
          mret (match r with inl got => Some (resize (Z.to_nat size) got) | inr _ => None end)
      end
  | None => mret None
  end.

Definition op_readlink (msg : ipc_message) : Srv unit :=
  let '(path_ptr, path_len, buf_ptr, buf_len) := unpack_getdents_req (payload msg) in
  if bad_len path_len || (buf_len =? 0) then reply_err msg else
  match client_path (sender msg) path_ptr path_len with
  | None => reply_err msg
  | Some path =>
      target ← (match mnt_path path with
                | Some p => with_blk None (mnt_readlink p)
                | None => with_ns 1 (readlink path)
                end);
      match target with
      | None => reply_err msg
      | Some t =>
          let bs := take (Z.to_nat buf_len) t in
          ok ← copy_out (sender msg) buf_ptr bs;
          if (ok : bool) then reply_ok msg (pack_u32_reply (payload msg) (Z.of_nat (length bs)))
          else reply_err msg
      end
  end.

Definition mnt_symlink (p target : list Z) : M B bool :=
  dir ← mnt_parent p;
  match dir with
  | None => mret false
  | Some (dir_ino, name) =>
      c ← bf_create ITYPE_SYMLINK_ENTRY;
      match c with
      | None => mret false
      | Some child_ino =>
          w ← bf_write child_ino 0 target;
          match w with
          | inr _ => bf_free child_ino ;; mret false
          | inl _ =>
              added ← bf_add_entry dir_ino name child_ino ITYPE_SYMLINK_ENTRY;
              if (added : bool) then mret true else bf_free child_ino ;; mret false
          end
      end
  end.

(** The two paths of a request, both of them short. *)
Definition two_paths (msg : ipc_message) : option (list Z * list Z) :=
  let '(p1_ptr, p1_len, p2_ptr, p2_len) := unpack_two_paths_req (payload msg) in
  if bad_len p1_len || bad_len p2_len then None else
  a ← client_path (sender msg) p1_ptr p1_len;
  b ← client_path (sender msg) p2_ptr p2_len;
  Some (a, b).

Definition op_symlink (msg : ipc_message) : Srv unit :=
  match two_paths msg with
  | None => reply_err msg
  | Some (link_path, target) =>
      ok ← (match mnt_path link_path with
            | Some p => with_blk false (mnt_symlink p target)
            | None => with_ns 1 (symlink link_path target)
            end);
      reply_bool msg ok
  end.

Definition mnt_link (old_p new_p : list Z) : M B bool :=
  e ← bf_lookup_path old_p;
  match e, parent_and_name new_p with
  | Some (old_ino, etype), Some (parent, name) =>
      d ← bf_lookup_path parent;
      match d with
      | Some (dir_ino, _) => bf_link_entry dir_ino name old_ino etype
      | None => mret false
      end
  | _, _ => mret false
  end.

Definition op_link (msg : ipc_message) : Srv unit :=
  match two_paths msg with
  | None => reply_err msg
  | Some (old, new) =>
      if starts_with (str "/mnt") old || starts_with (str "/mnt") new then
        match mnt_path old, mnt_path new with
        | Some old_p, Some new_p => ok ← with_blk false (mnt_link old_p new_p); reply_bool msg ok
        | _, _ => reply_err msg
        end
      else ok ← with_ns 1 (link old new); reply_bool msg ok
  end.

(** The requests about an open file. *)
Definition on_file (msg : ipc_message) (fd : Z) (k : OpenFile → Srv unit) : Srv unit :=
  file ← open_file fd;
  match file with Some f => k f | None => reply_err msg end.

Definition mnt_truncate (p : list Z) : M B bool :=
  e ← bf_lookup_path p;
  match e with
  | Some (ino, etype) =>
      if etype =? ITYPE_FILE_ENTRY then bf_truncate ino ;; mret true else mret false
  | None => mret false
  end.

Definition op_ftruncate (msg : ipc_message) : Srv unit :=
  let '(fd, length) := unpack_ftruncate_req (payload msg) in
  on_file msg fd (λ f,
    ok ← (match mnt_path (of_path f) with
          | Some p => with_blk false (mnt_truncate p)
          | None => with_ns (of_ns f) (truncate (of_path f) length)
          end);
    reply_bool msg ok).

Definition op_lseek (msg : ipc_message) : Srv unit :=
  let '(fd, offset, whence) := unpack_lseek_req (payload msg) in
  on_file msg fd (λ f,
    st ← with_ns (of_ns f) (stat (of_path f));
    let file_size := match st with Some (_, size) => size | None => 0 end in
    let seek new_offset :=
      if new_offset <? 0 then reply_err msg else
      on_table (set_offset fd new_offset) ;; reply_ok msg (pack_u64_reply (payload msg) new_offset) in
    if whence =? 0 then seek offset
    else if whence =? 1 then seek (as_i64 (wrap 64 (of_offset f + offset)))
    else if whence =? 2 then seek (as_i64 (wrap 64 (file_size + offset)))
    else reply_err msg).

Definition op_fpath (msg : ipc_message) : Srv unit :=
  let '(fd, buf_ptr, buf_len) := unpack_fpath_req (payload msg) in
  on_file msg fd (λ f,
    let bs := take (Z.to_nat buf_len) (of_path f) in
    ok ← copy_out (sender msg) buf_ptr bs;
    if (ok : bool) then reply_ok msg (pack_u32_reply (payload msg) (Z.of_nat (length bs)))
    else reply_err msg).

Definition op_futimens (msg : ipc_message) : Srv unit :=
  let '(fd, ats, _, mts, _) := unpack_futimens_req (payload msg) in
  on_file msg fd (λ f,
    ok ← with_ns (of_ns f) (utimens (of_path f) (Z.max ats 0) (Z.max mts 0));
    reply_bool msg ok).

Definition op_fallocate (msg : ipc_message) : Srv unit :=
  let '(fd, _, _) := unpack_fallocate_req (payload msg) in
  on_file msg fd (λ f, ok ← with_ns (of_ns f) (exists_ (of_path f)); reply_bool msg ok).

Definition op_fstat (msg : ipc_message) : Srv unit :=
  on_file msg (unpack_fstat_req (payload msg)) (λ f,
    st ← with_ns (of_ns f) (stat (of_path f));
    match st with
    | Some (is_dir, size) => reply_ok msg (pack_stat_reply (payload msg) is_dir size)
    | None => reply_err msg
    end).

Definition dispatch (msg : ipc_message) : Srv unit :=
  let op := opcode msg in
  if op =? OP_OPEN then op_open msg
  else if op =? OP_DUP then op_dup msg
  else if op =? OP_READ then op_read msg
  else if op =? OP_WRITE then op_write msg
  else if op =? OP_CLOSE then op_close msg
  else if op =? OP_GETDENTS then op_getdents msg
  else if op =? OP_MKDIR then op_mkdir msg
  else if op =? OP_CREATE then op_create msg
  else if op =? OP_UNLINK then op_unlink msg
  else if op =? OP_STAT then op_stat msg
  else if op =? OP_RENAME then op_rename msg
  else if op =? OP_FSYNC then op_fsync msg
  else if op =? OP_READLINK then op_readlink msg
  else if op =? OP_SYMLINK then op_symlink msg
  else if op =? OP_LINK then op_link msg
  else if op =? OP_CHMOD then op_chmod msg
  else if op =? OP_CHOWN then op_chown msg
  else if op =? OP_FTRUNCATE then op_ftruncate msg
  else if op =? OP_LSEEK then op_lseek msg
  else if op =? OP_FPATH then op_fpath msg
  else if op =? OP_FUTIMENS then op_futimens msg
  else if op =? OP_FALLOCATE then op_fallocate msg
  else if op =? OP_FSTAT then op_fstat msg
  else reply_err msg.
End server.

Section main.
Context {B : Type} `{BlockFs B}.

(** The server before its first request, and a run of it: each request comes with the
    surroundings it meets. *)
Definition server_start (env : kernel_env) (b : option B) : outcome unit * server B :=
  let '(r, (v, b')) := start env (vfs_new, b) in (r, mkServer {[ 1 := v ]} table_new b' [] []).
Fixpoint serve (reqs : list (os * ipc_message)) : M (server B) unit :=
  match reqs with
  | [] => mret tt
  | (o, msg) :: reqs' => dispatch o msg ;; serve reqs'
  end.
End main.

(** ** Every request is answered *)

(** A method of the tree that can fail only in the block file system. *)
Definition tame {B A} (c : M (@world B) A) : Prop :=
  ∀ v, ∃ a v', c (v, None) = (Ok a, (v', None)).

Section tame.
Context {B : Type} `{BlockFs B} (env : kernel_env).

Lemma tame_ret {A} (a : A) : tame (mret a : M (@world B) A).
Proof. intros v. by exists a, v. Qed.
Lemma tame_bind {A C} (c : M (@world B) A) (k : A → M world C) :
  tame c → (∀ a, tame (k a)) → tame (c ≫= k).
Proof.
  intros Hc Hk v. destruct (Hc v) as (a & v' & Ha). destruct (Hk a v') as (d & v'' & Hd).
  exists d, v''. by rewrite (bind_ok _ _ _ _ _ Ha).
Qed.
Lemma tame_on_blk {A} (d : A) (c : M B A) : tame (on_blk d c).
Proof. intros v. by exists d, v. Qed.
Lemma tame_the_vfs : tame (the_vfs : M (@world B) Vfs).
Proof. intros v. by exists v, v. Qed.
Lemma tame_has_blk : tame (has_blk : M (@world B) bool).
Proof. intros v. by exists false, v. Qed.
Lemma tame_put_vfs (v' : Vfs) : tame (put_vfs v' : M (@world B) unit).
Proof. intros v. by exists tt, v'. Qed.
End tame.
Create HintDb tame.
#[export] Hint Resolve tame_ret tame_on_blk tame_the_vfs tame_has_blk tame_put_vfs : tame.

(** Methods are made of these steps, with case distinctions between them. *)
Ltac tame := repeat first
  [ progress intros | apply tame_bind | solve [auto with tame] | case_match ].

Section tame_methods.
Context {B : Type} `{BlockFs B} (env : kernel_env).

Lemma tame_exists p : tame (exists_ p : M (@world B) bool).
Proof. unfold exists_. tame. Qed.
Lemma tame_mkdir p : tame (mkdir p : M (@world B) bool).
Proof. unfold mkdir. pose proof tame_exists. tame. Qed.
Lemma tame_create p : tame (create p : M (@world B) bool).
Proof. unfold create. tame. Qed.
Lemma tame_unlink p : tame (unlink p : M (@world B) bool).
Proof. unfold unlink. tame. Qed.
Lemma tame_read p off len : tame (read env p off len : M (@world B) _).
Proof. unfold read. tame. Qed.
Lemma tame_write p off bs : tame (write env p off bs : M (@world B) _).
Proof. unfold write. tame. Qed.
Lemma tame_readdir p : tame (readdir env p : M (@world B) _).
Proof. unfold readdir. tame. Qed.
Lemma tame_stat p : tame (stat p : M (@world B) _).
Proof. unfold stat. tame. Qed.
Lemma tame_change_meta p f : tame (change_meta p f : M (@world B) bool).
Proof. unfold change_meta. tame. Qed.
Lemma tame_chmod p m : tame (chmod p m : M (@world B) bool).
Proof. apply tame_change_meta. Qed.
Lemma tame_chown p u g : tame (chown p u g : M (@world B) bool).
Proof. apply tame_change_meta. Qed.
Lemma tame_utimens p a m : tame (utimens p a m : M (@world B) bool).
Proof. apply tame_change_meta. Qed.
Lemma tame_readlink p : tame (readlink p : M (@world B) _).
Proof. unfold readlink. tame. Qed.
Lemma tame_symlink p t : tame (symlink p t : M (@world B) bool).
Proof. unfold symlink. pose proof tame_exists. tame. Qed.
Lemma tame_link p q : tame (link p q : M (@world B) bool).
Proof. unfold link. tame. Qed.
Lemma tame_truncate p n : tame (truncate p n : M (@world B) bool).
Proof. unfold truncate. tame. Qed.
Lemma tame_rename old new :
  tame ((v ← the_vfs; let '(ok, v') := rename_node old new v in put_vfs v' ;; mret ok) : M (@world B) bool).
Proof. tame. Qed.
End tame_methods.
#[export] Hint Resolve tame_exists tame_mkdir tame_create tame_unlink tame_read tame_write tame_readdir
  tame_stat tame_chmod tame_chown tame_utimens tame_readlink tame_symlink tame_link tame_truncate tame_rename : tame.

Section answers.
Context {B : Type} `{BlockFs B} (o : os).
Implicit Types s : server B.

(** A part of a handler that sends nothing; without a block file system it succeeds. *)
Definition quiet {A} (c : M (server B) A) : Prop := ∀ s,
  match c s with
  | (Ok _, s') => sent s' = sent s ∧ (blk s = None → blk s' = None)
  | _ => is_Some (blk s)
  end.

(** A handler that sends one message, the answer to the sender of [msg]. *)
Definition answered (msg : ipc_message) s s' : Prop :=
  ∃ t d, sent s' = sent s ++ [(sender msg, mkIpc (sender msg) t d)] ∧
    (t = REPLY_OK ∨ t = REPLY_ERR ∧ d = payload msg) ∧ length d = length (payload msg).
Definition answers (msg : ipc_message) (c : M (server B) unit) : Prop := ∀ s,
  match c s with
  | (Ok _, s') => answered msg s s' ∧ (blk s = None → blk s' = None)
  | _ => is_Some (blk s)
  end.

Lemma quiet_ret {A} (a : A) : quiet (mret a).
Proof. by intros s. Qed.
Lemma quiet_gets {A} (f : server B → A) : quiet (gets f).
Proof. by intros s. Qed.
Lemma quiet_on_table f : quiet (on_table f).
Proof. by intros s. Qed.
Lemma quiet_new_file p n : quiet (new_file p n).
Proof. by intros s. Qed.
Lemma quiet_copy_out c p bs : quiet (copy_out o c p bs).
Proof. intros s. unfold copy_out. by destruct (writable o c p _). Qed.
Lemma quiet_with_ns {A} ns (c : M (@world B) A) : tame c → quiet (with_ns ns c).
Proof.
  intros Hc s. unfold with_ns. destruct (blk s) as [b|] eqn:Hb.
  - destruct (c _) as [[] [v b']]; simpl; try by eexists.
  - destruct (Hc (default vfs_new (namespaces s !! ns))) as (a & v' & ->). done.
Qed.
Lemma quiet_with_blk {A} (d : A) (c : M B A) : quiet (with_blk d c).
Proof.
  intros s. unfold with_blk. destruct (blk s) as [b|] eqn:Hb; [|done].
  destruct (c b) as [[] b']; simpl; try by eexists.
Qed.
Lemma quiet_bind {A C} (c : M (server B) A) (k : A → M (server B) C) :
  quiet c → (∀ a, quiet (k a)) → quiet (c ≫= k).
Proof.
  intros Hc Hk s. unfold mbind, M_bind. specialize (Hc s).
  destruct (c s) as [[a|e|w] s1]; [|done..]. specialize (Hk a s1). destruct Hc as [Hs Hb].
  destruct (k a s1) as [[d|e|w] s2].
  - destruct Hk as [Hs' Hb']. split; [congruence|auto].
  - destruct (blk s); [by eexists|]. rewrite Hb in Hk by done. by destruct Hk.
  - destruct (blk s); [by eexists|]. rewrite Hb in Hk by done. by destruct Hk.
Qed.

Lemma answers_bind {A} msg (c : M (server B) A) (k : A → M (server B) unit) :
  quiet c → (∀ a, answers msg (k a)) → answers msg (c ≫= k).
Proof.
  intros Hc Hk s. unfold mbind, M_bind. specialize (Hc s).
  destruct (c s) as [[a|e|w] s1]; [|done..]. specialize (Hk a s1). destruct Hc as [Hs Hb].
  destruct (k a s1) as [[[]|e|w] s2].
  - destruct Hk as [Hk Hb']. split; [unfold answered; by rewrite <-Hs|auto].
  - destruct (blk s); [by eexists|]. rewrite Hb in Hk by done. by destruct Hk.
  - destruct (blk s); [by eexists|]. rewrite Hb in Hk by done. by destruct Hk.
Qed.
Lemma answers_err msg : answers msg (reply_err msg).
Proof. intros s. split; [|done]. exists REPLY_ERR, (payload msg). eauto. Qed.
Lemma answers_ok msg d : length d = length (payload msg) → answers msg (reply_ok msg d).
Proof. intros Hd s. split; [|done]. exists REPLY_OK, d. eauto. Qed.
Lemma answers_bool msg b : answers msg (reply_bool msg b).
Proof. destruct b; [by apply answers_ok|apply answers_err]. Qed.
End answers.
#[export] Hint Resolve quiet_ret quiet_gets quiet_on_table quiet_new_file quiet_copy_out quiet_with_ns
  quiet_with_blk answers_err answers_bool : tame.

Lemma length_pack_u32 d v : length d = 56%nat → length (pack_u32_reply d v) = 56%nat.
Proof. intros Hd. unfold pack_u32_reply, put_u32. cbn [fst snd]. rewrite length_put; lia. Qed.
Lemma length_pack_u64 d v : length d = 56%nat → length (pack_u64_reply d v) = 56%nat.
Proof. intros Hd. unfold pack_u64_reply, put_u64. cbn [fst snd]. rewrite length_put; lia. Qed.
Lemma length_pack_stat d b v : length d = 56%nat → length (pack_stat_reply d b v) = 56%nat.
Proof.
  intros Hd. unfold pack_stat_reply, put_u64. cbn [fst snd]. rewrite length_put; rewrite length_insert; lia.
Qed.

Section answered.
Context {B : Type} `{BlockFs B} (o : os) (msg : ipc_message) (Hlen : length (payload msg) = 56%nat).

Lemma answers_payload : answers msg (reply_ok msg (payload msg) : M (server B) unit).
Proof. by apply answers_ok. Qed.
Lemma answers_u32 v : answers msg (reply_ok msg (pack_u32_reply (payload msg) v) : M (server B) unit).
Proof. apply answers_ok. rewrite Hlen. by apply length_pack_u32. Qed.
Lemma answers_u64 v : answers msg (reply_ok msg (pack_u64_reply (payload msg) v) : M (server B) unit).
Proof. apply answers_ok. rewrite Hlen. by apply length_pack_u64. Qed.
Lemma answers_stat b v : answers msg (reply_ok msg (pack_stat_reply (payload msg) b v) : M (server B) unit).
Proof. apply answers_ok. rewrite Hlen. by apply length_pack_stat. Qed.
#[local] Hint Resolve answers_payload answers_u32 answers_u64 answers_stat : tame.

Ltac answer := repeat first
  [ progress intros | apply answers_bind | apply quiet_bind | solve [auto with tame] | case_match ].

Lemma quiet_pass_bytes ans c p n : quiet (pass_bytes o ans c p n : M (server B) _).
Proof. unfold pass_bytes. answer. Qed.
#[local] Hint Resolve quiet_pass_bytes : tame.

Lemma dispatch_answers : answers msg (dispatch o msg : M (server B) unit).
Proof.
  unfold dispatch, op_open, op_dup, op_read, op_write, op_close, op_getdents, op_mkdir, op_create,
    op_unlink, op_stat, op_rename, op_fsync, op_readlink, op_symlink, op_link, op_chmod, op_chown,
    op_ftruncate, op_lseek, op_fpath, op_futimens, op_fallocate, op_fstat, path_request, on_file,
    transferred, forward_proc_read, forward_proc_list, forward_dev_read, forward_dev_list, open_file.
  answer.
Qed.
End answered.

(** What a client sees of a request: the answer, to it, with a status. *)
Definition is_reply (req : os * ipc_message) (m : Z * ipc_message) : Prop :=
  m.1 = sender req.2 ∧ length (payload m.2) = 56%nat ∧
  (opcode m.2 = REPLY_OK ∨ opcode m.2 = REPLY_ERR ∧ payload m.2 = payload req.2).


Lemma stat_outside {B} `{BlockFs B} (p : list Z) (w : @world B) :
  mnt_path p = None → ∃ r, stat p w = (Ok r, w).
Proof.
  intros Hm. unfold stat. rewrite Hm.
  repeat case_match; try (by eexists); unfold mbind, M_bind; simpl; by eexists.
Qed.

(** ** A session: create, write, seek back, read *)

Definition ask (client op : Z) (d : list Z) : ipc_message := mkIpc client op d.
Definition blank : list Z := replicate 56 0.

Section session.
Context {B : Type} `{BlockFs B} (o : os).
Context (client ns : Z) (path : list Z) (pp wp rp : Z) (bs : list Z).
Implicit Types s : server B.

(** The path is the client's, short, and leads to the tree. *)
Context (Hpull : pull o client pp (length path) = Some path) (Hutf : utf8_valid path = true).
Context (Hlen : is_u32 (Z.of_nat (length path))) (Hpp : is_u64 pp) (Hns : is_u32 ns).
Context (Hord : ordinary path) (Hdev : starts_with (str "/dev/") path = false).
(** The bytes are the client's, and the buffer for reading them back can be written. *)
Context (Hdata : pull o client wp (length bs) = Some bs) (Hwr : writable o client rp (length bs) = true).
Context (Hbs : Z.of_nat (length bs) ≤ MAX_CHUNK) (Hwp : is_u64 wp) (Hrp : is_u64 rp).

Definition replied s s' : Prop := ∃ d, sent s' = sent s ++ [(client, mkIpc client REPLY_OK d)].

Lemma session_create s v parent name ch :
  namespaces s !! ns = Some v → parent_and_name (normalize_path path) = Some (parent, name) →
  nodes v !! parent = Some (Dir ch) →
  ∃ v' s', dispatch o (ask client OP_CREATE (pack_path_req blank 0 pp (Z.of_nat (length path)) ns)) s = (Ok tt, s') ∧
    nodes v' !! normalize_path path = Some (MemFile []) ∧ namespaces s' !! ns = Some v' ∧
    files (open_table s') !! next_fd (open_table s) = Some (mkOpen path 0 ns) ∧
    copied s' = copied s ∧ replied s s'.
Proof.
  intros Hv Hp Hpar. unfold dispatch. cbn [opcode ask OP_CREATE]. simpl.
  unfold op_create, path_request. cbn [payload sender ask].
  rewrite path_roundtrip by (done || by split; vm_compute). unfold client_path. rewrite Nat2Z.id, Hpull. simpl.
  rewrite Hutf. unfold with_ns, mbind, M_bind. rewrite Hv. simpl.
  pose proof Hord as (_ & _ & Hm). unfold create, mbind, M_bind. rewrite Hm. simpl. rewrite Hp, Hpar. simpl.
  eexists (add_child _ _ _ _ _ _ _ v), _. split; [done|]. simpl.
  split_and!; [apply lookup_insert_eq..|done|by eexists].
Qed.

(** A transfer at the offset of the file: the request carries the largest offset. *)
Definition HERE : Z := 2 ^ 64 - 1.

Lemma session_write s v fd :
  is_u32 fd → namespaces s !! ns = Some v → files (open_table s) !! fd = Some (mkOpen path 0 ns) →
  nodes v !! normalize_path path = Some (MemFile []) →
  ∃ v' s', dispatch o (ask client OP_WRITE (pack_rw_req blank fd HERE wp (Z.of_nat (length bs)))) s = (Ok tt, s') ∧
    nodes v' !! normalize_path path = Some (MemFile bs) ∧ namespaces s' !! ns = Some v' ∧
    (∃ off, files (open_table s') !! fd = Some (mkOpen path off ns)) ∧
    copied s' = copied s ∧ replied s s'.
Proof.
  intros Hfd Hv Hf Hn. unfold dispatch. cbn [opcode ask]. simpl. unfold op_write. cbn [payload sender ask].
  rewrite rw_roundtrip; [|done..|by split; vm_compute|done|unfold is_u32, MAX_CHUNK in *; lia].
  unfold open_file, mbind, M_bind. simpl. rewrite Hf. simpl. rewrite Z.min_l, Nat2Z.id, Hdata by done.
  unfold with_ns. rewrite Hv. simpl. pose proof Hord as (_ & _ & Hm).
  unfold write, mbind, M_bind. rewrite Hm. simpl. rewrite Hn. simpl.
  eexists (set_nodes (<[normalize_path path := MemFile (copy_at 0 bs [])]> (nodes v)) v), _. split; [done|]. simpl. split_and!.
  - rewrite lookup_insert_eq. do 2 f_equal. unfold copy_at. simpl.
    destruct bs as [|b l]; [done|]. unfold resize. simpl. by rewrite drop_ge, app_nil_r by (rewrite length_replicate; lia).
  - apply lookup_insert_eq.
  - eexists. by rewrite lookup_alter_eq, Hf.
  - done.
  - by eexists.
Qed.

Lemma session_lseek s v fd off :
  is_u32 fd → namespaces s !! ns = Some v → files (open_table s) !! fd = Some (mkOpen path off ns) →
  ∃ s', dispatch o (ask client OP_LSEEK (pack_lseek_req blank fd 0 0)) s = (Ok tt, s') ∧
    namespaces s' !! ns = Some v ∧ files (open_table s') !! fd = Some (mkOpen path 0 ns) ∧
    copied s' = copied s ∧ replied s s'.
Proof.
  intros Hfd Hv Hf. unfold dispatch. cbn [opcode ask]. simpl. unfold op_lseek. cbn [payload sender ask].
  rewrite lseek_roundtrip by (done || by split; vm_compute).
  unfold on_file, open_file, mbind, M_bind. simpl. rewrite Hf. simpl. unfold with_ns. rewrite Hv. simpl.
  pose proof Hord as (_ & _ & Hm). destruct (stat_outside path (v, blk s) Hm) as [st ->].
  eexists. split; [done|]. simpl. split_and!; [apply lookup_insert_eq| |done|by eexists].
  by rewrite lookup_alter_eq, Hf.
Qed.

Lemma session_read s v fd :
  is_u32 fd → namespaces s !! ns = Some v → files (open_table s) !! fd = Some (mkOpen path 0 ns) →
  nodes v !! normalize_path path = Some (MemFile bs) →
  ∃ s', dispatch o (ask client OP_READ (pack_rw_req blank fd HERE rp (Z.of_nat (length bs)))) s = (Ok tt, s') ∧
    copied s' = copied s ++ [(client, rp, bs)] ∧ replied s s'.
Proof.
  intros Hfd Hv Hf Hn. unfold dispatch. cbn [opcode ask]. simpl. unfold op_read. cbn [payload sender ask].
  rewrite rw_roundtrip; [|done..|by split; vm_compute|done|unfold is_u32, MAX_CHUNK in *; lia].
  unfold open_file, mbind, M_bind. simpl. rewrite Hf. simpl. rewrite Hdev.
  pose proof Hord as (Hdv & Hproc & Hm).
  assert (starts_with (str "/proc/") path = false) as ->.
  { unfold starts_with. by rewrite Hproc, bool_decide_false by (by intros []). }
  simpl. rewrite Z.min_l, Nat2Z.id by done. unfold with_ns. rewrite Hv. simpl.
  unfold read. rewrite 3!bool_decide_false, Hproc, Hm by set_solver.
  unfold mbind, M_bind. simpl. rewrite Hn. simpl. rewrite drop_0, firstn_all.
  unfold copy_out. rewrite Hwr. simpl. eexists. split; [done|]. by split; [|eexists].
Qed.

(** The four requests of the session. *)
Definition session (fd : Z) : list (os * ipc_message) := pair o <$>
  [ask client OP_CREATE (pack_path_req blank 0 pp (Z.of_nat (length path)) ns);
   ask client OP_WRITE (pack_rw_req blank fd HERE wp (Z.of_nat (length bs)));
   ask client OP_LSEEK (pack_lseek_req blank fd 0 0);
   ask client OP_READ (pack_rw_req blank fd HERE rp (Z.of_nat (length bs)))].

(** C10: a client that creates a file in a directory of its namespace, writes bytes to it
    (up to 1 MB), seeks back and reads gets the bytes back into its buffer, and nothing
    else is copied to anyone; all four requests are answered with success. *)
Theorem session_reads_back s v parent name ch :
  is_u32 (next_fd (open_table s)) →
  namespaces s !! ns = Some v → parent_and_name (normalize_path path) = Some (parent, name) →
  nodes v !! parent = Some (Dir ch) →
  ∃ s' rs, serve (session (next_fd (open_table s))) s = (Ok tt, s') ∧
    copied s' = copied s ++ [(client, rp, bs)] ∧
    sent s' = sent s ++ rs ∧ length rs = 4%nat ∧
    Forall (λ m, m.1 = client ∧ opcode m.2 = REPLY_OK) rs.
Proof.
  intros Hfd Hv Hp Hpar. set (fd := next_fd (open_table s)) in *.
  destruct (session_create s v parent name ch Hv Hp Hpar) as (v1 & s1 & H1 & Hn1 & Hv1 & Hf1 & Hc1 & d1 & Hs1).
  destruct (session_write s1 v1 fd Hfd Hv1 Hf1 Hn1) as (v2 & s2 & H2 & Hn2 & Hv2 & [off Hf2] & Hc2 & d2 & Hs2).
  destruct (session_lseek s2 v2 fd off Hfd Hv2 Hf2) as (s3 & H3 & Hv3 & Hf3 & Hc3 & d3 & Hs3).
  destruct (session_read s3 v2 fd Hfd Hv3 Hf3 Hn2) as (s4 & H4 & Hc4 & d4 & Hs4).
  exists s4, [(client, mkIpc client REPLY_OK d1); (client, mkIpc client REPLY_OK d2);
              (client, mkIpc client REPLY_OK d3); (client, mkIpc client REPLY_OK d4)].
  unfold session. cbn [serve fmap list_fmap].
  rewrite (bind_ok _ _ _ _ _ H1), (bind_ok _ _ _ _ _ H2), (bind_ok _ _ _ _ _ H3), (bind_ok _ _ _ _ _ H4).
  split_and!; [done|congruence| |done|by repeat constructor].
  by rewrite Hs4, Hs3, Hs2, Hs1, <-!app_assoc.
Qed.
End session.

(** ** Namespaces *)

(** The namespace a request is about: that of the request, or of the open file. *)
Definition path_op (op : Z) : bool :=
  existsb (Z.eqb op) [OP_OPEN; OP_MKDIR; OP_CREATE; OP_UNLINK; OP_STAT; OP_CHMOD; OP_CHOWN].
Definition rootns_op (op : Z) : bool :=
  existsb (Z.eqb op) [OP_GETDENTS; OP_RENAME; OP_READLINK; OP_SYMLINK; OP_LINK].
Definition request_ns {B} (msg : ipc_message) (s : server B) : option Z :=
  if path_op (opcode msg) then Some (unpack_path_req (payload msg)).2
  else if rootns_op (opcode msg) then Some 1
  else of_ns <$> files (open_table s) !! unpack_u32_reply (payload msg).

Section isolation.
Context {B : Type} `{BlockFs B} (o : os).
Implicit Types s : server B.

(** Only the trees of [N] are changed. *)
Definition keeps {A} (N : Z → Prop) (c : M (server B) A) : Prop :=
  ∀ s n, ¬ N n → namespaces (c s).2 !! n = namespaces s !! n.

Lemma keeps_bind {A C} N (c : M (server B) A) (k : A → M (server B) C) :
  keeps N c → (∀ a, keeps N (k a)) → keeps N (c ≫= k).
Proof.
  intros Hc Hk s n Hn. unfold mbind, M_bind. specialize (Hc s n Hn).
  destruct (c s) as [[a|e|w] s1]; simpl in *; [|done..]. by rewrite (Hk a s1 n Hn).
Qed.
Lemma keeps_ret {A} N (a : A) : keeps N (mret a).
Proof. by intros s n. Qed.
Lemma keeps_gets {A} N (f : server B → A) : keeps N (gets f).
Proof. by intros s n. Qed.
Lemma keeps_on_table N f : keeps N (on_table f).
Proof. by intros s n. Qed.
Lemma keeps_new_file N p ns : keeps N (new_file p ns).
Proof. by intros s n. Qed.
Lemma keeps_reply N t msg d : keeps N (reply t msg d).
Proof. by intros s n. Qed.
Lemma keeps_reply_bool N msg b : keeps N (reply_bool msg b).
Proof. by destruct b; intros s n. Qed.
Lemma keeps_copy_out N c p bs : keeps N (copy_out o c p bs).
Proof. intros s n _. unfold copy_out. by destruct (writable o c p _). Qed.
Lemma keeps_with_blk {A} N (d : A) (c : M B A) : keeps N (with_blk d c).
Proof. intros s n _. unfold with_blk. destruct (blk s); [|done]. by destruct (c _). Qed.
Lemma keeps_with_ns {A} (N : Z → Prop) ns (c : M (@world B) A) : N ns → keeps N (with_ns ns c).
Proof.
  intros Hns s n Hn. unfold with_ns. destruct (c _) as [r [v b]]. simpl.
  apply lookup_insert_ne. by intros ->.
Qed.
End isolation.
Create HintDb keeps.
#[export] Hint Resolve keeps_ret keeps_gets keeps_on_table keeps_new_file keeps_reply keeps_reply_bool
  keeps_copy_out keeps_with_blk keeps_with_ns : keeps.
#[export] Hint Unfold reply_ok reply_err transferred open_file pass_bytes : keeps.

Ltac keep := repeat first
  [ progress intros | apply keeps_bind | solve [auto with keeps] | progress autounfold with keeps | case_match ].

Section requests.
Context {B : Type} `{BlockFs B} (o : os) (msg : ipc_message).
Implicit Types s : server B.

(** A request about an open file works in its namespace. *)
Lemma keeps_file {A} s n (fd : Z) (k : option OpenFile → M (server B) A) :
  (∀ f, files (open_table s) !! fd = Some f → keeps (eq (of_ns f)) (k (Some f))) →
  keeps (λ _, False) (k None) →
  Some n ≠ of_ns <$> files (open_table s) !! fd →
  namespaces ((open_file fd ≫= k) s).2 !! n = namespaces s !! n.
Proof.
  intros Hk Hnone Hn. unfold open_file, mbind, M_bind. simpl.
  destruct (files (open_table s) !! fd) as [f|]; [|apply Hnone; tauto].
  apply (Hk f eq_refl). intros <-. by apply Hn.
Qed.
Lemma keeps_path_request N bounded f done :
  N (unpack_path_req (payload msg)).2 → (∀ p n, keeps N (done p n)) →
  keeps N (path_request o bounded msg f done : M (server B) unit).
Proof.
  intros Hns Hdone. unfold path_request. destruct (unpack_path_req (payload msg)) as [[[fl p] l] ns]. keep.
Qed.

Abbreviation req_ns := (unpack_path_req (payload msg)).2.
Lemma keeps_op_open : keeps (eq req_ns) (op_open o msg : M (server B) unit).
Proof. unfold op_open. destruct (unpack_path_req (payload msg)) as [[[fl p] l] ns]. keep. Qed.
Lemma keeps_op_stat : keeps (eq req_ns) (op_stat o msg : M (server B) unit).
Proof. unfold op_stat. destruct (unpack_path_req (payload msg)) as [[[fl p] l] ns]. keep. Qed.
Lemma keeps_path_ops :
  keeps (eq req_ns) (op_mkdir o msg : M (server B) unit) ∧ keeps (eq req_ns) (op_create o msg : M (server B) unit) ∧
  keeps (eq req_ns) (op_unlink o msg : M (server B) unit) ∧ keeps (eq req_ns) (op_chmod o msg : M (server B) unit) ∧
  keeps (eq req_ns) (op_chown o msg : M (server B) unit).
Proof. split_and!; apply keeps_path_request; keep. Qed.
Lemma keeps_root_ops :
  keeps (eq 1) (op_getdents o msg : M (server B) unit) ∧ keeps (eq 1) (op_rename o msg : M (server B) unit) ∧
  keeps (eq 1) (op_readlink o msg : M (server B) unit) ∧ keeps (eq 1) (op_symlink o msg : M (server B) unit) ∧
  keeps (eq 1) (op_link o msg : M (server B) unit).
Proof.
  unfold op_getdents, op_rename, op_readlink, op_symlink, op_link, forward_proc_list, forward_dev_list.
  split_and!; keep.
Qed.
Lemma keeps_table_ops N : keeps N (op_dup msg : M (server B) unit) ∧ keeps N (op_close msg : M (server B) unit).
Proof. unfold op_dup, op_close. split; keep. Qed.

Lemma keeps_file_ops s n (op : M (server B) unit) :
  op ∈ [op_read o msg; op_write o msg; op_fsync msg; op_ftruncate msg; op_lseek msg; op_fpath o msg;
        op_futimens msg; op_fallocate msg; op_fstat msg] →
  Some n ≠ of_ns <$> files (open_table s) !! unpack_u32_reply (payload msg) →
  namespaces (op s).2 !! n = namespaces s !! n.
Proof.
  intros Hop Hn. repeat (apply elem_of_cons in Hop as [->|Hop]); [..|by apply elem_of_nil in Hop].
  all: apply keeps_file; [intros f _; unfold forward_proc_read, forward_dev_read| |exact Hn]; keep.
Qed.

(** Decide the kind of a request from its number. *)
Ltac eval_ops_in H :=
  repeat match type of H with
  | context [path_op ?x] => let b := eval vm_compute in (path_op x) in change (path_op x) with b in H; cbv iota in H
  | context [rootns_op ?x] => let b := eval vm_compute in (rootns_op x) in change (rootns_op x) with b in H; cbv iota in H
  end.

(** C37: a request changes the tree of no mount namespace but its own: the one it names,
    the one of the open file, or the root namespace for the requests that carry none. *)
Theorem namespaces_isolated s n :
  request_ns msg s ≠ Some n → namespaces (dispatch o msg s).2 !! n = namespaces s !! n.
Proof.
  intros Hn. unfold dispatch, request_ns in *. set (op := opcode msg) in *. clearbody op.
  destruct keeps_path_ops as (? & ? & ? & ? & ?), keeps_root_ops as (? & ? & ? & ? & ?).
  destruct (keeps_table_ops (λ _, False)) as [? ?].
  pose proof keeps_op_open. pose proof keeps_op_stat.
  repeat (destruct (op =? _) eqn:Hop; [apply Z.eqb_eq in Hop; subst op; eval_ops_in Hn|clear Hop]);
    try (apply keeps_file_ops; [set_solver|congruence]);
    match goal with Hk : keeps _ ?c |- namespaces (?c _).2 !! _ = _ => apply Hk; congruence | _ => done end.
Qed.
End requests.

Definition o_ex : os := mkOs (mkEnv [] [] (λ _, None))
  (λ _ ptr n, Some (take n (if ptr =? 4096 then str "/tmp/../tmp/x" else [1; 2; 3])))
  (λ _ _ _, true) 0 0 (λ m, (m, None)) (λ m, (m, None)) 0.
Definition s_ex : server ofs := (server_start (os_env o_ex) None).2.

Lemma session_reads_back_witness :
  ∃ s' rs, serve (session o_ex 7 1 (str "/tmp/../tmp/x") 4096 8192 12288 [1; 2; 3] 1) s_ex = (Ok tt, s') ∧
    copied s' = [(7, 12288, [1; 2; 3])] ∧
    sent s' = rs ∧ length rs = 4%nat ∧ Forall (λ m, m.1 = 7 ∧ opcode m.2 = REPLY_OK) rs.
Proof.
  refine (session_reads_back o_ex 7 1 (str "/tmp/../tmp/x") 4096 8192 12288 [1; 2; 3]
    _ _ _ _ _ _ _ _ _ _ _ _ s_ex _ (str "/tmp") (str "x") [] _ _ _ _);
    try (by vm_compute); try (by split; vm_compute).
  - apply (bool_decide_unpack (ordinary _)). by vm_compute.
Defined.


Lemma namespaces_isolated_witness :
  let msg := ask 7 OP_MKDIR (pack_path_req blank 0 4096 13 5) in
  request_ns msg s_ex ≠ Some 1 ∧ namespaces (dispatch o_ex msg s_ex).2 !! 1 = namespaces s_ex !! 1.
Proof.
  split; [by vm_compute|]. apply (namespaces_isolated o_ex). by vm_compute.
Defined.

(** ** Forwarding and answering are the same *)

Lemma parse_digits_range neg l acc x :
  (if neg : bool then - 2 ^ 31 ≤ acc ≤ 0 else 0 ≤ acc < 2 ^ 31) → parse_digits neg l acc = Some x →
  - 2 ^ 31 ≤ x < 2 ^ 31.
Proof.
  revert acc. induction l as [|b l IH]; intros acc Hacc; simpl.
  { intros [= <-]. destruct neg; lia. }
  unfold digit. destruct ((48 <=? b) && (b <=? 57)) eqn:Hd; [|done]. simpl. bool_to_prop.
  destruct ((- 2 ^ 31 <=? _) && _) eqn:Hr; [|done]. bool_to_prop. apply IH. destruct neg; lia.
Qed.
Lemma parse_i32_range l x : parse_i32 l = Some x → - 2 ^ 31 ≤ x < 2 ^ 31.
Proof.
  unfold parse_i32. intros Hp.
  repeat case_match; try discriminate; eapply parse_digits_range; try exact Hp; simpl; lia.
Qed.

Lemma strip_prefix_app (pre l rest : list Z) : strip_prefix pre l = Some rest → l = pre ++ rest.
Proof.
  revert l. induction pre as [|x pre IH]; intros [|y l]; simpl; [naive_solver..|].
  destruct (x =? y) eqn:Hxy; [|done]. apply Z.eqb_eq in Hxy as ->. intros Hl. by rewrite (IH l Hl).
Qed.

Section forwarding.
Context {B : Type} `{BlockFs B} (o : os).
(** The /proc server is the one of procfs-server, and its copies succeed. *)
Context (Hserver : proc_server o = procfs_handle (os_env o) (λ _ _, true)).
Context (Hlocal : is_u64 (local_ptr o)) (Hptr : local_ptr o ≠ 0).
Implicit Types s : server B.

Lemma procfs_read (pid off cap : Z) (st : list Z) :
  0 ≤ pid < 2 ^ 31 → is_u32 off → 0 ≤ cap ≤ 512 → proc_status (os_env o) pid = Some st →
  let bs := slice (take 512 st) (Z.to_nat off) (Z.to_nat cap) in bs ≠ [] →
  proc_server o (mkIpc 0 OP_PROC_READ (u64_at 12 (local_ptr o) (u32_at 8 cap (u32_at 4 off
    (u32_at 0 pid (replicate 56 0)))))) =
  (mkIpc 0 PROC_REPLY_OK (splice (replicate 56 0) 0 (le_bytes 4 (Z.of_nat (length bs)))),
   Some (local_ptr o, bs)).
Proof.
  intros Hpid Hoff Hcap Hst bs Hbs. rewrite Hserver. unfold procfs_handle. cbn [opcode payload].
  set (d := u64_at 12 _ _). assert (d = put_fields (replicate 56 0) 0
    [(4%nat, pid); (4%nat, off); (4%nat, cap); (8%nat, local_ptr o)]) as Hd by done.
  assert (Forall fits [(4%nat, pid); (4%nat, off); (4%nat, cap); (8%nat, local_ptr o)]) as Hf.
  { repeat (apply Forall_cons_2; [unfold fits, is_u32, is_u64 in *; simpl; lia|]). apply Forall_nil_2. }
  assert (le32 d 0 = pid ∧ le32 d 4 = off ∧ le32 d 8 = cap ∧ le64 d 12 = local_ptr o) as (-> & -> & -> & ->).
  { unfold le32, le64. rewrite Hd. split_and!; (eapply message_field; [simpl; lia|exact Hf|done]). }
  simpl. unfold as_i32. rewrite (proj2 (Z.ltb_lt _ _)) by lia.
  unfold server_proc_status. rewrite Hst, Nat.min_l by lia. fold bs. unfold answer_bytes.
  rewrite (proj2 (Z.eqb_neq _ _) Hptr). simpl. destruct bs; [done|]. by simpl.
Qed.

Definition without_proc (o : os) : os :=
  mkOs (os_env o) (pull o) (writable o) 0 (dev_server_pid o) (proc_server o) (dev_server o) (local_ptr o).

(** A path below /proc that names the status of a process. *)
Lemma proc_parts_status path pid :
  proc_parts path = Some (pid, str "status") →
  ∃ rest pid_str, path = str "/proc/" ++ rest ∧ strip_prefix (str "/proc/") path = Some rest ∧
    split_once_slash rest = Some (pid_str, str "status") ∧ parse_i32 pid_str = Some pid.
Proof.
  unfold proc_parts. destruct (strip_prefix (str "/proc/") path) as [rest|] eqn:Hs; [|done]. simpl.
  destruct (split_once_slash rest) as [[ps sub]|] eqn:Hsp; simpl.
  - destruct (parse_i32 ps) as [x|] eqn:Hp; [|done]. simpl. intros [= <- <-].
    exists rest, ps. split_and!; try done. by apply strip_prefix_app in Hs.
  - by destruct (parse_i32 rest).
Qed.

Lemma own_proc_read path pid st off len (w : @world B) :
  proc_parts path = Some (pid, str "status") → proc_status (os_env o) pid = Some st →
  read (os_env o) path off len w = (Ok (Some (slice (take 512 st) (Z.to_nat off) len)), w).
Proof.
  intros Hp Hst. destruct (proc_parts_status _ _ Hp) as (rest & ps & Hpath & Hs & Hsp & Hpi).
  unfold read. rewrite 3!bool_decide_false by (by rewrite Hpath). rewrite Hs, Hsp.
  rewrite bool_decide_true by done. unfold mbind, option_bind. rewrite Hpi.
  unfold virtual_proc_read_status. by rewrite Hst.
Qed.

Lemma forwarded_proc_read path pid st off client ptr len s :
  proc_parts path = Some (pid, str "status") → 0 ≤ pid → proc_status (os_env o) pid = Some st →
  is_u32 off → 0 ≤ len ≤ 512 →
  let bs := slice (take 512 st) (Z.to_nat off) (Z.to_nat len) in bs ≠ [] →
  forward_proc_read o path off client ptr len s =
    ((ok ← copy_out o client ptr bs; mret (if (ok : bool) then Some (Z.of_nat (length bs)) else None))
     : M (server B) _) s.
Proof.
  intros Hp Hpid Hst Hoff Hlen bs Hne.
  destruct (proc_parts_status _ _ Hp) as (rest & ps & _ & _ & _ & Hpi).
  pose proof (parse_i32_range _ _ Hpi) as Hrange.
  assert (length bs ≤ Z.to_nat len)%nat as Hbl by (unfold bs, slice; rewrite length_take; lia).
  assert (0 < length bs)%nat as Hbp by (destruct bs; [done|simpl; lia]).
  unfold forward_proc_read. rewrite Hp, bool_decide_true by done. cbn [negb andb].
  unfold wrap. rewrite Z.mod_small by (unfold is_u32 in Hoff; lia). rewrite Z.min_l by lia.
  rewrite (procfs_read pid off len st) by (done || lia). fold bs. unfold pass_bytes. cbn [opcode payload].
  assert (le32 (splice (replicate 56 0) 0 (le_bytes 4 (Z.of_nat (length bs)))) 0 = Z.of_nat (length bs)) as ->.
  { apply (message_field [(4%nat, Z.of_nat (length bs))] (replicate 56 0) 0 4); [simpl; lia| |done].
    apply Forall_cons_2; [|apply Forall_nil_2]. unfold fits. simpl. lia. }
  cbn [negb Z.eqb PROC_REPLY_OK Pos.eqb]. rewrite (proj2 (Z.eqb_neq _ _)), Nat2Z.id by lia.
  assert (resize (length bs) (resize (Z.to_nat len) bs) = bs) as ->; [|done].
  unfold resize at 2. rewrite take_ge by lia. unfold resize.
  rewrite take_app_length, length_app, length_replicate.
  replace (length bs - _)%nat with 0%nat by lia. by rewrite app_nil_r.
Qed.

(** a read of [/proc/<pid>/status] of up to 512 bytes gives a client the same bytes
    and the same reply, and moves the file's offset the same way, whether the server
    forwards it to procfs-server or answers it itself. *)
Theorem proc_read_equivalent msg s f fd off ptr len pid st :
  unpack_rw_req (payload msg) = (fd, off, ptr, len) → files (open_table s) !! fd = Some f →
  proc_parts (of_path f) = Some (pid, str "status") → 0 ≤ pid → proc_status (os_env o) pid = Some st →
  0 < proc_server_pid o → is_u32 (at_offset f off) → 0 ≤ len ≤ 512 →
  slice (take 512 st) (Z.to_nat (at_offset f off)) (Z.to_nat len) ≠ [] →
  let '(r1, s1) := op_read o msg s in
  let '(r0, s0) := op_read (without_proc o) msg s in
  r1 = r0 ∧ copied s1 = copied s0 ∧ sent s1 = sent s0 ∧ open_table s1 = open_table s0.
Proof.
  intros Hu Hf Hp Hpid Hst Hpos Hoff Hlen Hne.
  destruct (proc_parts_status _ _ Hp) as (rest & ps & Hpath & Hs & Hsp & Hpi).
  set (bs := slice _ _ _) in Hne.
  assert (starts_with (str "/proc/") (of_path f) = true) as Hsw
    by (unfold starts_with; rewrite Hs; by apply bool_decide_true).
  assert (starts_with (str "/dev/") (of_path f) = false) as Hdev by (by rewrite Hpath).
  unfold op_read. rewrite Hu. unfold open_file, mbind, M_bind. cbn [gets]. rewrite Hf, Hsw, Hdev.
  cbn [andb proc_server_pid without_proc]. rewrite (proj2 (Z.ltb_lt 0 (proc_server_pid o))) by lia.
  rewrite (forwarded_proc_read (of_path f) pid st) by done. fold bs.
  cbn [Z.ltb Z.compare]. unfold with_ns. change (os_env (without_proc o)) with (os_env o).
  rewrite (own_proc_read (of_path f) pid st) by done. rewrite Z.min_l by (unfold MAX_CHUNK; lia). fold bs.
  cbv beta iota. unfold copy_out, mbind, M_bind. change (writable (without_proc o)) with (writable o).
  by destruct (writable o (sender msg) ptr (length bs)).
Qed.
End forwarding.

Definition o_proc : os := mkOs (mkEnv [] [5] (λ p, if p =? 5 then Some (str "Name: sh") else None))
  (λ _ _ n, Some (take n (str "/proc/5"))) (λ _ _ _, true) 9 0
  (procfs_handle (mkEnv [] [5] (λ p, if p =? 5 then Some (str "Name: sh") else None)) (λ _ _, true))
  (λ m, (m, None)) 65536.
Definition s_proc : server ofs :=
  mkServer {[ 1 := vfs_new ]} (mkTable {[ 3 := mkOpen (str "/proc/5/status") 2 1 ]} 4) None [] [].

Lemma proc_read_equivalent_witness :
  let msg := ask 7 OP_READ (pack_rw_req blank 3 HERE 4096 100) in
  let '(r1, s1) := op_read o_proc msg s_proc in
  let '(r0, s0) := op_read (without_proc o_proc) msg s_proc in
  r1 = r0 ∧ copied s1 = copied s0 ∧ sent s1 = sent s0 ∧ open_table s1 = open_table s0.
Proof.
  apply (proc_read_equivalent o_proc eq_refl ltac:(by split; vm_compute) ltac:(by vm_compute)
    (ask 7 OP_READ (pack_rw_req blank 3 HERE 4096 100)) s_proc (mkOpen (str "/proc/5/status") 2 1)
    3 HERE 4096 100 5 (str "Name: sh")); first [by vm_compute | by split; vm_compute].
Defined.

(** for a process that does not exist the two differ: the server itself answers a
    read of the status with an error, and forwarding it gives an empty file; and the
    names below [/proc/<pid>] that procfs-server is asked for are the pids. *)
Theorem proc_forwarding_differs :
  let rd := ask 7 OP_READ (pack_rw_req blank 3 HERE 4096 100) in
  let ls := ask 7 OP_GETDENTS (pack_getdents_req blank 4096 7 8192 64) in
  let s := mkServer {[ 1 := vfs_new ]} (mkTable {[ 3 := mkOpen (str "/proc/6/status") 0 1 ]} 4) None [] [] in
  (opcode ∘ snd <$> sent (op_read o_proc rd (s : server ofs)).2) = [REPLY_OK] ∧
  (opcode ∘ snd <$> sent (op_read (without_proc o_proc) rd s).2) = [REPLY_ERR] ∧
  copied (op_getdents o_proc ls s).2 = [(7, 8192, str "5" ++ [0])] ∧
  copied (op_getdents (without_proc o_proc) ls s).2 = [(7, 8192, str "status" ++ [0])].
Proof. split_and!; by vm_compute. Qed.
