(* ===== verification/Ext2.v ===== *)
(** * The ext2 file system of the file-system server (user/vfs-server/src/ext2.rs)

    The operations of [Ext2State] on the block device of [Journal], written without a
    journal: every block write goes to the device at once.  Inodes and block group
    descriptors are byte arrays, as in the code.  Unsigned arithmetic wraps, as in the
    release build the system is made of; a division by zero or an index out of range
    is a [Panic].  Loops whose progress depends on what is on the disk take fuel that
    covers every run that ends.

    [ext2_blockfs] makes it an instance of the interface [BlockFs] of the server, for
    any depth of its stack.  The theorems: reading files ([ext2_file_read]) and looking
    up names ([ext2_lookup_first_block]), inodes ([ext2_inode_roundtrip]), block
    allocation ([ext2_alloc_block]), and the ways in which writing fails
    ([ext2_write_never_returns], [ext2_added_entry_lost], [ext2_mkfs_overlap]). *)

From Stdlib Require Import ZArith Lia.
From stdpp Require Import prelude gmap strings.
From S2P Require Import Prelude Journal Ofs OfsInode Vfs.

Local Open Scope Z_scope.

(** ** Constants *)

Definition EXT2_MAGIC : Z := 61267.
Definition EXT2_SUPERBLOCK_OFF : nat := 1024.

Definition SB_INODES_COUNT : nat := 0.
Definition SB_BLOCKS_COUNT : nat := 4.
Definition SB_R_BLOCKS_COUNT : nat := 8.
Definition SB_FREE_BLOCKS : nat := 12.
Definition SB_FREE_INODES : nat := 16.
Definition SB_FIRST_DATA_BLOCK : nat := 20.
Definition SB_LOG_BLOCK_SIZE : nat := 24.
Definition SB_LOG_FRAG_SIZE : nat := 28.
Definition SB_BLOCKS_PER_GROUP : nat := 32.
Definition SB_FRAGS_PER_GROUP : nat := 36.
Definition SB_INODES_PER_GROUP : nat := 40.
Definition SB_MAGIC : nat := 56.
Definition SB_REV_LEVEL : nat := 76.
Definition SB_FIRST_INO : nat := 84.
Definition SB_INODE_SIZE : nat := 88.
Definition SB_FEATURE_COMPAT : nat := 92.
Definition SB_FEATURE_INCOMPAT : nat := 96.
Definition SB_FEATURE_RO_COMPAT : nat := 100.

Definition INODE_MODE : nat := 0.
Definition INODE_SIZE : nat := 4.
Definition INODE_LINKS_COUNT : nat := 26.
Definition INODE_BLOCKS : nat := 28.
Definition INODE_BLOCK : nat := 40.
Definition INODE_NDIR_BLOCKS : nat := 12.
Definition EXT2_IND_BLOCK : nat := 12.
Definition EXT2_DIND_BLOCK : nat := 13.

Definition EXT2_FT_REG_FILE : Z := 1.
Definition EXT2_FT_DIR : Z := 2.
Definition EXT2_FT_SYMLINK : Z := 7.
Definition EXT2_S_IFREG : Z := 32768.
Definition EXT2_S_IFDIR : Z := 16384.
Definition EXT2_S_IFLNK : Z := 40960.
Definition FAST_SYMLINK_MAX : nat := 60.
Definition EXT2_ROOT_INO : Z := 2.

(** ** State *)

Record ext2 : Type := mkExt2 {
  dev : blkdev;
  sb : list Z;
  bgdt : list (list Z);
  inode_size : Z;
  inodes_per_group : Z;
  blocks_per_group : Z;
  first_data_block : Z;
  num_groups : Z;
}.

Definition set_dev (d : blkdev) (s : ext2) : ext2 :=
  mkExt2 d (sb s) (bgdt s) (inode_size s) (inodes_per_group s) (blocks_per_group s)
    (first_data_block s) (num_groups s).
Definition set_sb (b : list Z) (s : ext2) : ext2 :=
  mkExt2 (dev s) b (bgdt s) (inode_size s) (inodes_per_group s) (blocks_per_group s)
    (first_data_block s) (num_groups s).
Definition set_bgdt (g : list (list Z)) (s : ext2) : ext2 :=
  mkExt2 (dev s) (sb s) g (inode_size s) (inodes_per_group s) (blocks_per_group s)
    (first_data_block s) (num_groups s).

Definition u16_le (buf : list Z) (off : nat) : Z := of_le (slice buf off 2).
Definition put_u16 (off : nat) (v : Z) (buf : list Z) : list Z := splice buf off (le_bytes 2 v).
Definition put_u32 (off : nat) (v : Z) (buf : list Z) : list Z := splice buf off (le_bytes 4 v).

Definition u32_sub (a b : Z) : Z := wrap 32 (a - b).
Definition u32_add (a b : Z) : Z := wrap 32 (a + b).

Definition zero_div : string := "attempt to divide by zero".

(** ** Block input and output *)

Definition rd (blk : Z) : M ext2 (option (list Z)) := λ s,
  let '(r, d) := read_block blk (dev s) in (Ok r, set_dev d s).
Definition wr (blk : Z) (buf : list Z) : M ext2 bool := λ s,
  let '(r, d) := write_block blk buf (dev s) in (Ok r, set_dev d s).

(** [write_blocks] writes whole blocks only. *)
Fixpoint write_blocks_from (n i : nat) (start : Z) (buf : list Z) : M ext2 bool :=
  match n with
  | O => mret true
  | S n' =>
      ok ← wr (u32_add start (Z.of_nat i)) (slice buf (i * BLOCK_SIZE) BLOCK_SIZE);
      if (ok : bool) then write_blocks_from n' (S i) start buf else mret false
  end.

Definition write_blocks (start : Z) (buf : list Z) : M ext2 bool :=
  write_blocks_from (length buf / BLOCK_SIZE) 0 start buf.

(** ** Superblock and group descriptors *)

Definition superblock_store : M ext2 bool :=
  r ← rd 0;
  match r with
  | None => mret false
  | Some blk => b ← gets sb; wr 0 (splice blk EXT2_SUPERBLOCK_OFF b)
  end.

Definition sb_u32 (off : nat) (s : ext2) : Z := u32_le (sb s) off.
Definition sb_u16 (off : nat) (s : ext2) : Z := u16_le (sb s) off.
Definition sb_set_u32 (off : nat) (v : Z) : M ext2 unit := modify (λ s, set_sb (put_u32 off v (sb s)) s).

Definition update_sb : M ext2 bool := superblock_store.

Definition bgdt_start (s : ext2) : Z :=
  if first_data_block s =? 0 then 1 else u32_add (first_data_block s) 1.

Definition update_bgdt : M ext2 bool :=
  s ← gets id;
  write_blocks (bgdt_start s) (concat (take (Z.to_nat (num_groups s)) (bgdt s))).

(** [self.bgdt[g]]. *)
Definition group (g : Z) : M ext2 (list Z) := λ s,
  match bgdt s !! Z.to_nat g with
  | Some b => (Ok b, s)
  | None => (Panic "index out of bounds", s)
  end.

Definition bg_block_bitmap (b : list Z) : Z := u32_le b 0.
Definition bg_inode_bitmap (b : list Z) : Z := u32_le b 4.
Definition bg_inode_table (b : list Z) : Z := u32_le b 8.
Definition bg_free_blocks_count (b : list Z) : Z := u16_le b 12.
Definition bg_free_inodes_count (b : list Z) : Z := u16_le b 14.
Definition bg_used_dirs_count (b : list Z) : Z := u16_le b 16.

Definition set_group (g : Z) (off : nat) (v : Z) : M ext2 unit :=
  modify (λ s, set_bgdt (alter (put_u16 off v) (Z.to_nat g) (bgdt s)) s).

Definition group_for_block (blk : Z) : M ext2 Z :=
  bpg ← gets blocks_per_group;
  if bpg =? 0 then panic zero_div else mret (blk / bpg).

Definition group_for_inode (ino : Z) : M ext2 (Z * Z) :=
  ipg ← gets inodes_per_group;
  if ipg =? 0 then panic zero_div
  else mret (u32_sub ino 1 / ipg, u32_sub ino 1 mod ipg).

(** ** Bitmaps *)

Definition bitmap_set (bitmap_blk : Z) (bit : nat) (value : bool) : M ext2 unit :=
  r ← rd bitmap_blk;
  match r with
  | None => mret tt
  | Some buf =>
      match buf !! (bit / 8)%nat with
      | None => panic "index out of bounds"
      | Some byte =>
          wr bitmap_blk (<[(bit / 8)%nat := if value then Z.lor byte (bit_mask bit)
                                            else Z.ldiff byte (bit_mask bit)]> buf) ;;
          mret tt
      end
  end.

Definition bitmap_alloc (bitmap_blk : Z) (start limit : nat) : M ext2 (option nat) :=
  r ← rd bitmap_blk;
  match r with
  | None => mret None
  | Some buf =>
      match bitmap_scan buf start (limit - start) with
      | Ok None => mret None
      | Ok (Some (i, byte)) =>
          wr bitmap_blk (<[(i / 8)%nat := Z.lor byte (bit_mask i)]> buf) ;;
          mret (Some i)
      | Err e => fail e
      | Panic w => panic w
      end
  end.

(** ** Allocation *)

(** Every turn of the loop over the groups returns. *)
Definition alloc_block_in (gs : list Z) : M ext2 (option Z) :=
  match gs with
  | [] => mret None
  | g :: _ =>
      s ← gets id;
      let total := sb_u32 SB_BLOCKS_COUNT s in
      let start := wrap 32 (g * blocks_per_group s) in
      let end_ := Z.min total (u32_add start (blocks_per_group s)) in
      let limit := Z.to_nat (u32_sub end_ start) in
      bg ← group g;
      r ← bitmap_alloc (bg_block_bitmap bg) 0 limit;
      match r with
      | None => mret None
      | Some blk_off =>
          set_group g 12 (wrap 16 (bg_free_blocks_count bg - 1)) ;;
          sb_set_u32 SB_FREE_BLOCKS (u32_sub (sb_u32 SB_FREE_BLOCKS s) 1) ;;
          update_sb ;;
          update_bgdt ;;
          mret (Some (u32_add start (Z.of_nat blk_off)))
      end
  end.

Definition groups (s : ext2) : list Z := seqZ 0 (num_groups s).

Definition alloc_block : M ext2 (option Z) := gs ← gets groups; alloc_block_in gs.

Definition free_block (blk : Z) : M ext2 unit :=
  g ← group_for_block blk;
  bpg ← gets blocks_per_group;
  bg ← group g;
  bitmap_set (bg_block_bitmap bg) (Z.to_nat (blk mod bpg)) false ;;
  set_group g 12 (wrap 16 (bg_free_blocks_count bg + 1)) ;;
  n ← gets (sb_u32 SB_FREE_BLOCKS);
  sb_set_u32 SB_FREE_BLOCKS (u32_add n 1) ;;
  update_sb ;;
  update_bgdt ;;
  mret tt.

Fixpoint alloc_inode_in (gs : list Z) : M ext2 (option Z) :=
  match gs with
  | [] => mret None
  | g :: gs' =>
      bg ← group g;
      let free := bg_free_inodes_count bg in
      if free =? 0 then alloc_inode_in gs'
      else
        s ← gets id;
        let total := sb_u32 SB_INODES_COUNT s in
        let start := wrap 32 (g * inodes_per_group s) in
        let end_ := Z.min total (u32_add start (inodes_per_group s)) in
        let limit := Z.to_nat (u32_sub end_ start) in
        r ← bitmap_alloc (bg_inode_bitmap bg) 0 limit;
        match r with
        | None => mret None
        | Some ino_off =>
            set_group g 14 (wrap 16 (free - 1)) ;;
            sb_set_u32 SB_FREE_INODES (u32_sub (sb_u32 SB_FREE_INODES s) 1) ;;
            update_sb ;;
            update_bgdt ;;
            mret (Some (u32_add (u32_add start (Z.of_nat ino_off)) 1))
        end
  end.

Definition alloc_inode : M ext2 (option Z) := gs ← gets groups; alloc_inode_in gs.

Definition free_inode (ino : Z) : M ext2 unit :=
  '(g, idx) ← group_for_inode ino;
  bg ← group g;
  bitmap_set (bg_inode_bitmap bg) (Z.to_nat idx) false ;;
  set_group g 14 (wrap 16 (bg_free_inodes_count bg + 1)) ;;
  n ← gets (sb_u32 SB_FREE_INODES);
  sb_set_u32 SB_FREE_INODES (u32_add n 1) ;;
  update_sb ;;
  update_bgdt ;;
  mret tt.

(** ** Inodes *)

(** The table block and offset of an inode. *)
Definition inode_place (ino : Z) : M ext2 (Z * nat) :=
  '(g, idx) ← group_for_inode ino;
  bg ← group g;
  isz ← gets inode_size;
  let inodes_per_block := 4096 / isz in
  if inodes_per_block =? 0 then panic zero_div
  else mret (u32_add (bg_inode_table bg) (idx / inodes_per_block),
             Z.to_nat (idx mod inodes_per_block * isz)).

Definition bad_inode (ino : Z) (s : ext2) : bool := (ino =? 0) || (sb_u32 SB_INODES_COUNT s <? ino).

Definition read_inode (ino : Z) : M ext2 (option (list Z)) :=
  bad ← gets (bad_inode ino);
  if (bad : bool) then mret None
  else
    '(table_blk, offset) ← inode_place ino;
    r ← rd table_blk;
    match r with
    | None => mret None
    | Some buf => mret (Some (slice buf offset 128))
    end.

Definition write_inode (ino : Z) (inode : list Z) : M ext2 bool :=
  bad ← gets (bad_inode ino);
  if (bad : bool) then mret false
  else
    '(table_blk, offset) ← inode_place ino;
    r ← rd table_blk;
    match r with
    | None => mret false
    | Some buf => wr table_blk (splice buf offset inode)
    end.

Definition inode_block_ptr (inode : list Z) (idx : nat) : Z := u32_le inode (INODE_BLOCK + idx * 4).
Definition set_inode_block_ptr (idx : nat) (v : Z) (inode : list Z) : list Z :=
  put_u32 (INODE_BLOCK + idx * 4) v inode.
Definition inode_bytes (inode : list Z) : Z := u32_le inode INODE_SIZE.
Definition set_inode_bytes (v : Z) (inode : list Z) : list Z := put_u32 INODE_SIZE v inode.
Definition inode_links (inode : list Z) : Z := u16_le inode INODE_LINKS_COUNT.
Definition set_inode_links (v : Z) (inode : list Z) : list Z := put_u16 INODE_LINKS_COUNT v inode.
Definition inode_mode (inode : list Z) : Z := u16_le inode INODE_MODE.
Definition inode_blocks_512 (inode : list Z) : Z := u32_le inode INODE_BLOCKS.
Definition set_inode_blocks_512 (v : Z) (inode : list Z) : list Z := put_u32 INODE_BLOCKS v inode.

Definition mode_has (mode bits : Z) : bool := negb (Z.land mode bits =? 0).

Definition ext2_ftype_to_entry_type (ft : Z) : Z :=
  if ft =? EXT2_FT_REG_FILE then ITYPE_FILE_ENTRY
  else if ft =? EXT2_FT_DIR then ITYPE_DIR_ENTRY
  else if ft =? EXT2_FT_SYMLINK then ITYPE_SYMLINK_ENTRY
  else ITYPE_FILE_ENTRY.

Definition mode_to_entry_type (mode : Z) : Z :=
  if mode_has mode EXT2_S_IFDIR then ITYPE_DIR_ENTRY
  else if mode_has mode EXT2_S_IFLNK then ITYPE_SYMLINK_ENTRY
  else ITYPE_FILE_ENTRY.

(** ** Blocks of a file *)

Definition get_block_ptr (block : Z) (i : Z) : M ext2 (option Z) :=
  r ← rd block;
  mret ((λ buf, u32_le buf (Z.to_nat i * 4)) <$> r).

Definition set_block_ptr (block : Z) (i v : Z) : M ext2 bool :=
  r ← rd block;
  match r with
  | None => mret false
  | Some buf => wr block (splice buf (Z.to_nat i * 4) (le_bytes 4 v))
  end.

(** Eight more sectors. *)
Definition count_block (inode : list Z) : list Z :=
  set_inode_blocks_512 (u32_add (inode_blocks_512 inode) 8) inode.

Definition alloc_zeroed : M ext2 (option Z) :=
  r ← alloc_block;
  match r with
  | None => mret None
  | Some b => wr b zero_block ;; mret (Some b)
  end.

(** A pointer held in the inode. *)
Definition root_ptr (idx : nat) (ino : Z) (alloc : bool) (inode : list Z)
    : M ext2 (option Z * list Z) :=
  let blk := inode_block_ptr inode idx in
  if negb (blk =? 0) then mret (Some blk, inode)
  else if negb alloc then mret (None, inode)
  else
    r ← alloc_zeroed;
    match r with
    | None => mret (None, inode)
    | Some nb =>
        let inode := count_block (set_inode_block_ptr idx nb inode) in
        write_inode ino inode ;;
        mret (Some nb, inode)
    end.

(** A pointer held in an indirect block. *)
Definition block_entry (ib i ino : Z) (alloc : bool) (inode : list Z) : M ext2 (option Z * list Z) :=
  r ← get_block_ptr ib i;
  match r with
  | None => mret (None, inode)
  | Some blk =>
      if negb (blk =? 0) then mret (Some blk, inode)
      else if negb alloc then mret (None, inode)
      else
        r ← alloc_zeroed;
        match r with
        | None => mret (None, inode)
        | Some nb =>
            set_block_ptr ib i nb ;;
            let inode := count_block inode in
            write_inode ino inode ;;
            mret (Some nb, inode)
        end
  end.

Definition get_file_block (ino idx : Z) (alloc : bool) (inode : list Z)
    : M ext2 (option Z * list Z) :=
  if idx <? 12 then root_ptr (Z.to_nat idx) ino alloc inode
  else
    let idx := idx - 12 in
    if idx <? NPTRS then
      '(r, inode) ← root_ptr EXT2_IND_BLOCK ino alloc inode;
      match r with
      | None => mret (None, inode)
      | Some ib => block_entry ib idx ino alloc inode
      end
    else
      let idx := idx - NPTRS in
      let outer := idx / NPTRS in
      let inner := idx mod NPTRS in
      if NPTRS <=? outer then mret (None, inode)
      else
        '(r, inode) ← root_ptr EXT2_DIND_BLOCK ino alloc inode;
        match r with
        | None => mret (None, inode)
        | Some dib =>
            '(r, inode) ← block_entry dib outer ino alloc inode;
            match r with
            | None => mret (None, inode)
            | Some ib => block_entry ib inner ino alloc inode
            end
        end.

(** ** Directories *)

(** A directory entry at [off]: inode, record length, name length and type. *)
Definition dirent (buf : list Z) (off : nat) : Z * Z * Z * Z :=
  (u32_le buf off, u16_le buf (off + 4), byte_at buf (off + 6), byte_at buf (off + 7)).

Definition dirent_name (buf : list Z) (off : nat) (name_len : Z) : list Z :=
  slice buf (off + 8) (Z.to_nat name_len).

Definition same_name (buf : list Z) (off : nat) (name_len : Z) (name : list Z) : bool :=
  (name_len =? Z.of_nat (length name)) && (Z.of_nat off + 8 + name_len <=? 4096)
  && bool_decide (dirent_name buf off name_len = name).

Definition block_off (pos : Z) : nat := Z.to_nat (pos mod 4096).
Definition next_block (pos : Z) : Z := (pos + 4096 - 1) / 4096 * 4096.

Definition no_return {A} : M ext2 A := panic "does not return".

(** The inner loop of [dir_lookup_inode]: the entry found, or where it stopped. *)
Fixpoint lookup_entries (fuel : nat) (buf : list Z) (block_limit size : Z) (name : list Z) (pos : Z)
    : option (Z * Z + Z) :=
  let off := block_off pos in
  if (block_limit <? Z.of_nat off + 8) || (size <=? pos) then Some (inr pos)
  else match fuel with
  | O => None
  | S n =>
      let '(de_inode, rec_len, name_len, file_type) := dirent buf off in
      if rec_len =? 0 then Some (inr pos)
      else if de_inode =? 0 then lookup_entries n buf block_limit size name (pos + rec_len)
      else if same_name buf off name_len name
      then Some (inl (de_inode, ext2_ftype_to_entry_type file_type))
      else lookup_entries n buf block_limit size name (pos + rec_len)
  end.

(** More entries than bytes, or more blocks than the directory has, cannot be
    visited by a loop that ends. *)
Definition entry_fuel (size : Z) : nat := S (Z.to_nat size).
Definition block_fuel (size : Z) : nat := S (S (Z.to_nat (size / 4096))).

(** One turn of an outer loop: the block of [pos], if it can be read. *)
Definition dir_block (dir_ino pos : Z) (inode : list Z) : M ext2 (option (Z * list Z)) :=
  '(r, _) ← get_file_block dir_ino (pos / 4096) false inode;
  match r with
  | None => mret None
  | Some blk => b ← rd blk; mret ((λ buf, (blk, buf)) <$> b)
  end.

Fixpoint lookup_blocks (fuel : nat) (dir_ino : Z) (name inode : list Z) (size pos : Z)
    : M ext2 (option (Z * Z)) :=
  if size <=? pos then mret None
  else match fuel with
  | O => no_return
  | S n =>
      b ← dir_block dir_ino pos inode;
      match b with
      | None => mret None
      | Some (_, buf) =>
          let block_limit := Z.min 4096 (size - pos / 4096 * 4096) in
          match lookup_entries (entry_fuel size) buf block_limit size name pos with
          | Some (inl found) => mret (Some found)
          | Some (inr pos') => lookup_blocks n dir_ino name inode size (next_block pos')
          | None => no_return
          end
      end
  end.

Definition is_dir_inode (inode : list Z) : bool := mode_has (inode_mode inode) EXT2_S_IFDIR.

Definition dir_lookup_inode (dir_ino : Z) (name : list Z) : M ext2 (option (Z * Z)) :=
  r ← read_inode dir_ino;
  match r with
  | None => mret None
  | Some inode =>
      if negb (is_dir_inode inode) then mret None
      else let size := inode_bytes inode in
        lookup_blocks (block_fuel size) dir_ino name inode size 0
  end.

Fixpoint lookup_comps (comps : list (list Z)) (cur : Z) : M ext2 (option Z) :=
  match comps with
  | [] => mret (Some cur)
  | c :: cs =>
      match c with
      | [] => lookup_comps cs cur
      | _ =>
          r ← dir_lookup_inode cur c;
          match r with
          | None => mret None
          | Some (next, _) => if next =? 0 then mret None else lookup_comps cs next
          end
      end
  end.

Definition entry_of (ino : Z) : M ext2 (option (Z * Z)) :=
  r ← read_inode ino;
  mret ((λ i, (ino, mode_to_entry_type (inode_mode i))) <$> r).

(** Leading and trailing separators make empty components, which are skipped. *)
Definition lookup_path (path : list Z) : M ext2 (option (Z * Z)) :=
  r ← lookup_comps (split_on 47 path) EXT2_ROOT_INO;
  match r with
  | None => mret None
  | Some ino => entry_of ino
  end.

(** The inner loop of [dir_readall]. *)
Fixpoint readall_entries (fuel : nat) (buf : list Z) (size pos : Z)
    : option (list (list Z * Z * Z) * Z) :=
  let off := block_off pos in
  if (4096 <? Z.of_nat off + 8) || (size <=? pos) then Some ([], pos)
  else match fuel with
  | O => None
  | S n =>
      let '(de_inode, rec_len, name_len, file_type) := dirent buf off in
      if rec_len =? 0 then Some ([], pos)
      else
        let name := dirent_name buf off name_len in
        let here := if negb (de_inode =? 0) && (0 <? name_len)
                       && (Z.of_nat off + 8 + name_len <=? 4096) && utf8_valid name
                    then [(name, de_inode, ext2_ftype_to_entry_type file_type)] else [] in
        '(rest, pos') ← readall_entries n buf size (pos + rec_len);
        Some (here ++ rest, pos')
  end.

Fixpoint readall_blocks (fuel : nat) (dir_ino : Z) (inode : list Z) (size pos : Z)
    (acc : list (list Z * Z * Z)) : M ext2 (list (list Z * Z * Z)) :=
  if size <=? pos then mret acc
  else match fuel with
  | O => no_return
  | S n =>
      b ← dir_block dir_ino pos inode;
      match b with
      | None => mret acc
      | Some (_, buf) =>
          match readall_entries (entry_fuel size) buf size pos with
          | Some (es, pos') => readall_blocks n dir_ino inode size (next_block pos') (acc ++ es)
          | None => no_return
          end
      end
  end.

Definition dir_readall (dir_ino : Z) : M ext2 (list (list Z * Z * Z)) :=
  r ← read_inode dir_ino;
  match r with
  | None => mret []
  | Some inode =>
      if negb (is_dir_inode inode) then mret []
      else let size := inode_bytes inode in
        readall_blocks (block_fuel size) dir_ino inode size 0 []
  end.

(** ** Files *)

Definition reads_as_file (inode : list Z) : bool :=
  mode_has (inode_mode inode) EXT2_S_IFREG || mode_has (inode_mode inode) EXT2_S_IFLNK.
Definition reads_as_link (inode : list Z) : bool := mode_has (inode_mode inode) EXT2_S_IFLNK.

(** The loop of [file_read]; every turn reads at least one byte. *)
Fixpoint read_loop (fuel : nat) (ino offset : Z) (done to_read : nat) (acc inode : list Z)
    : M ext2 (list Z + fs_error) :=
  if (to_read <=? done)%nat then mret (inl acc)
  else match fuel with
  | O => no_return
  | S n =>
      let pos := offset + Z.of_nat done in
      let off := block_off pos in
      let chunk := Nat.min (to_read - done) (BLOCK_SIZE - off) in
      '(r, inode) ← get_file_block ino (wrap 32 (pos / 4096)) false inode;
      match r with
      | None => mret (inr MissingBlock)
      | Some blk =>
          b ← rd blk;
          match b with
          | None => mret (inr BlockRead)
          | Some buf => read_loop n ino offset (done + chunk) to_read (acc ++ slice buf off chunk) inode
          end
      end
  end.

Definition file_read (ino offset : Z) (buf_len : nat) : M ext2 (list Z + fs_error) :=
  r ← read_inode ino;
  match r with
  | None => mret (inr BadInode)
  | Some inode =>
      if negb (reads_as_file inode) then mret (inr NotFile)
      else
        let file_size := inode_bytes inode in
        if file_size <=? offset then mret (inl [])
        else
          let to_read := Nat.min (Z.to_nat (file_size - offset)) buf_len in
          if reads_as_link inode && (inode_blocks_512 inode =? 0) then
            let inline_start := (INODE_BLOCK + Z.to_nat offset)%nat in
            if (128 <? inline_start + to_read)%nat then panic "range end index out of range"
            else mret (inl (slice inode inline_start to_read))
          else read_loop (S to_read) ino offset 0 to_read [] inode
  end.

Fixpoint write_loop (fuel : nat) (ino offset : Z) (done : nat) (data inode : list Z)
    : M ext2 (list Z + fs_error) :=
  if (length data <=? done)%nat then mret (inl inode)
  else match fuel with
  | O => no_return
  | S n =>
      let pos := wrap 64 (offset + Z.of_nat done) in
      let off := block_off pos in
      let chunk := Nat.min (length data - done) (BLOCK_SIZE - off) in
      '(r, inode) ← get_file_block ino (wrap 32 (pos / 4096)) true inode;
      match r with
      | None => mret (inr NoSpace)
      | Some blk =>
          b ← (if negb (off =? 0)%nat || (chunk <? BLOCK_SIZE)%nat then rd blk else mret (Some zero_block));
          match b with
          | None => mret (inr BlockRead)
          | Some buf =>
              wr blk (splice buf off (slice data done chunk)) ;;
              write_loop n ino offset (done + chunk) data inode
          end
      end
  end.

(** [file_write] calls itself for a symlink that held its target in the inode;
    [depth] is the number of calls the stack has room for. *)
Fixpoint file_write (depth : nat) (ino offset : Z) (data : list Z) : M ext2 (nat + fs_error) :=
  match depth with
  | O => panic "stack overflow"
  | S depth' =>
      r ← read_inode ino;
      match r with
      | None => mret (inr BadInode)
      | Some inode =>
          if negb (reads_as_file inode) then mret (inr NotFile)
          else if reads_as_link inode && (length data <=? FAST_SYMLINK_MAX)%nat && (offset =? 0) then
            let inode := splice inode INODE_BLOCK data in
            let inode := set_inode_blocks_512 0 (set_inode_bytes (Z.of_nat (length data)) inode) in
            write_inode ino inode ;;
            mret (inl (length data))
          else if reads_as_link inode && (inode_blocks_512 inode =? 0) then
            write_inode ino (set_inode_bytes 0 inode) ;;
            file_write depth' ino offset data
          else
            w ← write_loop (S (length data)) ino offset 0 data inode;
            match w with
            | inr e => mret (inr e)
            | inl inode =>
                let end_ := wrap 64 (offset + Z.of_nat (length data)) in
                (if inode_bytes inode <? end_
                 then write_inode ino (set_inode_bytes (wrap 32 end_) inode) ;; mret tt
                 else mret tt) ;;
                mret (inl (length data))
            end
      end
  end.

Definition free_if (b : Z) : M ext2 unit := if b =? 0 then mret tt else free_block b.

(** Blocks an indirect block points to. *)
Definition free_pointed (ib : Z) (free : Z → M ext2 unit) : M ext2 unit :=
  for_each (seqZ 0 NPTRS) (λ i, r ← get_block_ptr ib i; free (default 0 r)).

Definition file_truncate (ino : Z) : M ext2 unit :=
  r ← read_inode ino;
  match r with
  | None => mret tt
  | Some inode =>
      if inode_blocks_512 inode =? 0 then
        write_inode ino (set_inode_bytes 0 inode) ;; mret tt
      else
        for_each (seq 0 INODE_NDIR_BLOCKS) (λ i, free_if (inode_block_ptr inode i)) ;;
        let inode1 := foldl (λ n i, set_inode_block_ptr i 0 n) inode (seq 0 INODE_NDIR_BLOCKS) in
        let ib := inode_block_ptr inode1 EXT2_IND_BLOCK in
        (if ib =? 0 then mret tt else free_pointed ib free_if ;; free_block ib) ;;
        let inode2 := if ib =? 0 then inode1 else set_inode_block_ptr EXT2_IND_BLOCK 0 inode1 in
        let dib := inode_block_ptr inode2 EXT2_DIND_BLOCK in
        (if dib =? 0 then mret tt
         else
           free_pointed dib (λ ib2, if ib2 =? 0 then mret tt else free_pointed ib2 free_if ;; free_block ib2) ;;
           free_block dib) ;;
        let inode3 := if dib =? 0 then inode2 else set_inode_block_ptr EXT2_DIND_BLOCK 0 inode2 in
        write_inode ino (set_inode_blocks_512 0 (set_inode_bytes 0 inode3)) ;;
        mret tt
  end.

(** ** Changing directories *)

Definition put_at (off : nat) (bs buf : list Z) : M ext2 (list Z) :=
  if (off + length bs <=? length buf)%nat then mret (splice buf off bs)
  else panic "range end index out of range".

(** Link count of the parent and directory count of its group. *)
Definition bump_dir (dir_ino : Z) (links dirs : Z → Z) : M ext2 unit :=
  r ← read_inode dir_ino;
  let parent := default (replicate 128 0) r in
  write_inode dir_ino (set_inode_links (links (inode_links parent)) parent) ;;
  '(g, _) ← group_for_inode dir_ino;
  bg ← group g;
  set_group g 16 (dirs (bg_used_dirs_count bg)) ;;
  update_bgdt ;;
  mret tt.

Definition entry_type_to_ftype (etype : Z) : Z :=
  if etype =? ITYPE_DIR_ENTRY then EXT2_FT_DIR
  else if etype =? ITYPE_SYMLINK_ENTRY then EXT2_FT_SYMLINK
  else EXT2_FT_REG_FILE.

Definition entry_size (name : list Z) : Z := Z.land (8 + Z.of_nat (length name) + 3) (Z.lnot 3).

Definition after_add (dir_ino etype : Z) : M ext2 unit :=
  if etype =? ITYPE_DIR_ENTRY
  then bump_dir dir_ino (λ n, wrap 16 (n + 1)) (λ n, wrap 16 (n + 1)) else mret tt.

(** The offset of the first free entry with room, in one block. *)
Fixpoint free_slot (fuel : nat) (buf : list Z) (block_limit need : Z) (off : Z) : option Z :=
  if block_limit <? off + 8 then None
  else match fuel with
  | O => None
  | S n =>
      let '(de_inode, rec_len, _, _) := dirent buf (Z.to_nat off) in
      if rec_len =? 0 then None
      else if (de_inode =? 0) && (need <=? rec_len) then Some off
      else free_slot n buf block_limit need (off + rec_len)
  end.

(** Head of an entry. *)
Definition put_entry (off : nat) (child ftype : Z) (name buf : list Z) : M ext2 (list Z) :=
  buf ← put_at off (le_bytes 4 child) buf;
  buf ← put_at (off + 6) [Z.of_nat (length name); ftype] buf;
  put_at (off + 8) name buf.

(** Using the free entry at [off]: its rest becomes a free entry again. *)
Definition fill_slot (off : nat) (child ftype : Z) (name buf : list Z) : M ext2 (list Z) :=
  let rec_len := u16_le buf (off + 4) in
  let need := entry_size name in
  let remaining := rec_len - need in
  buf ← put_entry off child ftype name buf;
  if 8 <=? remaining then
    let dummy := (off + Z.to_nat need)%nat in
    buf ← put_at (off + 4) (le_bytes 2 need) buf;
    buf ← put_at dummy [0; 0; 0; 0] buf;
    buf ← put_at (dummy + 6) [0; 0] buf;
    put_at (dummy + 4) (le_bytes 2 remaining) buf
  else mret buf.

(** The scan of the existing blocks: [None] if none had room. *)
Fixpoint reuse_blocks (fuel : nat) (dir_ino : Z) (name : list Z) (child ftype etype : Z)
    (inode : list Z) (dir_size pos : Z) : M ext2 (option bool) :=
  if dir_size <=? pos then mret None
  else match fuel with
  | O => no_return
  | S n =>
      b ← dir_block dir_ino pos inode;
      match b with
      | None => mret (Some false)
      | Some (blk, buf) =>
          let block_limit := Z.min 4096 (dir_size - pos / 4096 * 4096) in
          match free_slot BLOCK_SIZE buf block_limit (entry_size name) 0 with
          | Some off =>
              buf ← fill_slot (Z.to_nat off) child ftype name buf;
              wr blk buf ;;
              after_add dir_ino etype ;;
              mret (Some true)
          | None => reuse_blocks n dir_ino name child ftype etype inode dir_size (pos + 4096)
          end
      end
  end.

(** A fresh block holding one entry, and a free one after it. *)
Definition first_entry_block (child ftype : Z) (name : list Z) : M ext2 (list Z) :=
  let need := entry_size name in
  let remaining := 4096 - need in
  buf ← put_entry 0 child ftype name zero_block;
  if 8 <=? remaining then
    buf ← put_at 4 (le_bytes 2 need) buf;
    put_at (Z.to_nat need + 4) (le_bytes 2 remaining) buf
  else put_at 4 (le_bytes 2 4096) buf.

Definition dir_add_entry (dir_ino : Z) (name : list Z) (child etype : Z) : M ext2 bool :=
  if (length name =? 0)%nat || (255 <? length name)%nat then mret false
  else
    let ftype := entry_type_to_ftype etype in
    let need := entry_size name in
    if 4096 <? need then mret false
    else
      r ← read_inode dir_ino;
      match r with
      | None => mret false
      | Some inode =>
          let dir_size := inode_bytes inode in
          done ← reuse_blocks (block_fuel dir_size) dir_ino name child ftype etype inode dir_size 0;
          match done with
          | Some ok => mret ok
          | None =>
              let next_block_idx := (dir_size + 4096 - 1) / 4096 in
              '(r, inode) ← get_file_block dir_ino next_block_idx true inode;
              match r with
              | None => mret false
              | Some blk =>
                  buf ← first_entry_block child ftype name;
                  wr blk buf ;;
                  let new_size := next_block_idx * 4096 + need in
                  (if dir_size <? new_size
                   then write_inode dir_ino (set_inode_bytes (wrap 32 new_size) inode) ;; mret tt
                   else mret tt) ;;
                  after_add dir_ino etype ;;
                  mret true
              end
          end
      end.

(** The block of a new directory: [.] and [..]. *)
Definition dot_block (ino parent : Z) : list Z :=
  let b := splice zero_block 0 (le_bytes 4 ino ++ le_bytes 2 12 ++ [1; EXT2_FT_DIR; 46]) in
  splice b 12 (le_bytes 4 parent ++ le_bytes 2 (4096 - 12) ++ [2; EXT2_FT_DIR; 46; 46]).

Definition init_dir (ino parent : Z) : M ext2 bool :=
  r ← read_inode ino;
  match r with
  | None => mret false
  | Some inode =>
      if negb (is_dir_inode inode) then mret false
      else
        b ← alloc_block;
        match b with
        | None => mret false
        | Some blk =>
            wr blk (dot_block ino parent) ;;
            let inode := set_inode_bytes 4096 (set_inode_block_ptr 0 blk inode) in
            let inode := set_inode_blocks_512 8 (set_inode_links 2 inode) in
            write_inode ino inode ;;
            mret true
        end
  end.

Definition dir_link_entry (dir_ino : Z) (name : list Z) (child_ino etype : Z) : M ext2 bool :=
  r ← read_inode child_ino;
  match r with
  | None => mret false
  | Some child =>
      let n := inode_links child in
      let child := set_inode_links (Z.min (n + 1) u16_max) child in
      write_inode child_ino child ;;
      ok ← dir_add_entry dir_ino name child_ino etype;
      (if (ok : bool) then mret tt
       else write_inode child_ino (set_inode_links n child) ;; mret tt) ;;
      mret ok
  end.

(** What [dir_unlink] finds: offset, child and type, or where it stopped. *)
Fixpoint unlink_entries (fuel : nat) (buf : list Z) (size : Z) (name : list Z) (pos : Z)
    : option (nat * Z * Z + Z) :=
  let off := block_off pos in
  if (4096 <? Z.of_nat off + 8) || (size <=? pos) then Some (inr pos)
  else match fuel with
  | O => None
  | S n =>
      let '(de_inode, rec_len, name_len, file_type) := dirent buf off in
      if (rec_len =? 0) || (de_inode =? 0) then unlink_entries n buf size name (pos + rec_len)
      else if same_name buf off name_len name then Some (inl (off, de_inode, file_type))
      else unlink_entries n buf size name (pos + rec_len)
  end.

Definition drop_one (n : Z) : Z := if 0 <? n then n - 1 else n.

Definition unlink_found (dir_ino blk : Z) (buf : list Z) (off : nat) (child_ino ftype : Z) : M ext2 unit :=
  r ← read_inode child_ino;
  let child := default (replicate 128 0) r in
  let n := inode_links child in
  (if n <=? 1 then file_truncate child_ino ;; free_inode child_ino
   else write_inode child_ino (set_inode_links (drop_one n) child) ;; mret tt) ;;
  (if ftype =? EXT2_FT_DIR then bump_dir dir_ino drop_one drop_one else mret tt) ;;
  wr blk (splice buf off [0; 0; 0; 0]) ;;
  mret tt.

Fixpoint unlink_blocks (fuel : nat) (dir_ino : Z) (name inode : list Z) (size pos : Z) : M ext2 bool :=
  if size <=? pos then mret false
  else match fuel with
  | O => no_return
  | S n =>
      b ← dir_block dir_ino pos inode;
      match b with
      | None => mret false
      | Some (blk, buf) =>
          match unlink_entries (entry_fuel size) buf size name pos with
          | Some (inl (off, child_ino, ftype)) =>
              unlink_found dir_ino blk buf off child_ino ftype ;; mret true
          | Some (inr pos') => unlink_blocks n dir_ino name inode size (next_block pos')
          | None => no_return
          end
      end
  end.

Definition dir_unlink (dir_ino : Z) (name : list Z) : M ext2 bool :=
  r ← read_inode dir_ino;
  match r with
  | None => mret false
  | Some inode =>
      if negb (is_dir_inode inode) then mret false
      else let size := inode_bytes inode in
        unlink_blocks (block_fuel size) dir_ino name inode size 0
  end.

(** ** Inodes for the server *)

Definition inode_info (ino : Z) : M ext2 (option (Z * Z * Z)) :=
  r ← read_inode ino;
  mret ((λ raw, (mode_to_entry_type (inode_mode raw), inode_bytes raw, inode_links raw)) <$> r).

Definition new_inode (itype : Z) : list Z :=
  let mode := if itype =? 2 then Z.lor EXT2_S_IFDIR 493
              else if itype =? 3 then Z.lor EXT2_S_IFLNK 511 else Z.lor EXT2_S_IFREG 420 in
  put_u16 INODE_LINKS_COUNT 1 (put_u32 INODE_SIZE 0 (put_u16 INODE_MODE mode (replicate 128 0))).

Definition create_inode (itype : Z) : M ext2 (option Z) :=
  r ← alloc_inode;
  match r with
  | None => mret None
  | Some ino => write_inode ino (new_inode itype) ;; mret (Some ino)
  end.

(** ** Mounting *)

Definition ext2_new (d : blkdev) : outcome (option ext2) :=
  let '(r, d) := read_block 0 d in
  match r with
  | None => Ok None
  | Some blk =>
      let b := slice blk EXT2_SUPERBLOCK_OFF 1024 in
      if negb (u16_le b SB_MAGIC =? EXT2_MAGIC) then Ok None
      else if negb (wrap 64 (Z.shiftl 1024 (u32_le b SB_LOG_BLOCK_SIZE mod 64)) =? 4096) then Ok None
      else if negb (Z.land (u32_le b SB_FEATURE_INCOMPAT) (Z.lnot 2) =? 0) then Ok None
      else if negb (u32_le b SB_FEATURE_RO_COMPAT =? 0) then Ok None
      else
        let bpg := u32_le b SB_BLOCKS_PER_GROUP in
        let ipg := u32_le b SB_INODES_PER_GROUP in
        let isz := if u32_le b SB_REV_LEVEL =? 0 then 128
                   else let v := u16_le b SB_INODE_SIZE in if v <? 128 then 128 else v in
        let fdb := u32_le b SB_FIRST_DATA_BLOCK in
        if bpg =? 0 then Panic zero_div
        else
          let ng := wrap 32 (u32_le b SB_BLOCKS_COUNT + bpg - 1) / bpg in
          let start := if fdb =? 0 then 1 else u32_add fdb 1 in
          let nblocks := (ng * 32 + 4096 - 1) / 4096 in
          let '(bufs, d) := foldl (λ '(acc, d) g,
              let '(r, d) := read_block (u32_add start g) d in
              (match acc, r with Some l, Some x => Some (l ++ x) | _, _ => None end, d))
            (Some [], d) (seqZ 0 nblocks) in
          match bufs with
          | None => Ok None
          | Some buf =>
              Ok (Some (mkExt2 d b ((λ i, slice buf (i * 32) 32) <$> seq 0 (Z.to_nat ng)) isz ipg bpg fdb ng))
          end
  end.

(** ** Making a file system *)

Definition MKFS_BPG : Z := 8192.
Definition MKFS_IPG : Z := 2048.

Definition mkfs_superblock (total ng : Z) : list Z :=
  let b := replicate 1024 0 in
  let b := put_u32 SB_BLOCKS_COUNT total (put_u32 SB_INODES_COUNT (wrap 32 (ng * MKFS_IPG)) b) in
  let b := put_u32 SB_FREE_BLOCKS total (put_u32 SB_R_BLOCKS_COUNT 0 b) in
  let b := put_u32 SB_FIRST_DATA_BLOCK 0 (put_u32 SB_FREE_INODES (wrap 32 (ng * MKFS_IPG)) b) in
  let b := put_u32 SB_LOG_FRAG_SIZE 2 (put_u32 SB_LOG_BLOCK_SIZE 2 b) in
  let b := put_u32 SB_FRAGS_PER_GROUP MKFS_BPG (put_u32 SB_BLOCKS_PER_GROUP MKFS_BPG b) in
  let b := put_u16 SB_MAGIC EXT2_MAGIC (put_u32 SB_INODES_PER_GROUP MKFS_IPG b) in
  let b := put_u16 (SB_MAGIC + 4) 1 (put_u16 (SB_MAGIC + 2) 1 b) in
  let b := put_u16 SB_INODE_SIZE 128 (put_u32 SB_REV_LEVEL 1 b) in
  let b := put_u32 SB_FEATURE_INCOMPAT 2 (put_u32 SB_FIRST_INO 11 b) in
  put_u32 SB_FEATURE_COMPAT 0 (put_u32 SB_FEATURE_RO_COMPAT 0 b).

(** Blocks of one group's inode table. *)
Definition MKFS_TABLE : Z := (MKFS_IPG * 128 + 4096 - 1) / 4096.

(** The descriptor of group [g] whose metadata starts at [next], and where it ends. *)
Definition mkfs_group (total ng g next : Z) : list Z * Z :=
  let end_ := u32_add next (2 + MKFS_TABLE) in
  let in_group := if g =? ng - 1
    then (let used := total mod MKFS_BPG in if used =? 0 then MKFS_BPG else used) else MKFS_BPG in
  let data_blocks := sat_sub in_group (u32_sub end_ (g * MKFS_BPG)) in
  (put_u16 16 0 (put_u16 14 MKFS_IPG (put_u16 12 (wrap 16 data_blocks)
     (put_u32 8 (u32_add next 2) (put_u32 4 (u32_add next 1) (put_u32 0 next (replicate 32 0)))))), end_).

(** The loop over the groups, zeroing bitmaps and tables. *)
Fixpoint mkfs_groups (gs : list Z) (total ng next : Z) : M ext2 (list (list Z)) :=
  match gs with
  | [] => mret []
  | g :: gs' =>
      let '(bg, end_) := mkfs_group total ng g next in
      for_each (seqZ next (end_ - next)) (λ b, wr b zero_block ;; mret tt) ;;
      rest ← mkfs_groups gs' total ng end_;
      mret (bg :: rest)
  end.

Definition mkfs_root_inode : list Z :=
  put_u32 INODE_SIZE 4096 (set_inode_links 2 (put_u16 INODE_MODE (Z.lor EXT2_S_IFDIR 493) (replicate 128 0))).

Definition mkfs (total : Z) : M ext2 unit :=
  let ng := wrap 32 (total + MKFS_BPG - 1) / MKFS_BPG in
  modify (set_sb (mkfs_superblock total ng)) ;;
  rd 0 ;;
  superblock_store ;;
  let nblocks := (ng * 32 + 4096 - 1) / 4096 in
  let start := 1 in
  gs ← mkfs_groups (seqZ 0 ng) total ng (u32_add start nblocks);
  modify (λ s, mkExt2 (dev s) (sb s) gs 128 MKFS_IPG MKFS_BPG 0 ng) ;;
  update_bgdt ;;
  bg0 ← group 0;
  for_each (seqZ 0 (start + nblocks)) (λ b, bitmap_set (bg_block_bitmap bg0) (Z.to_nat b) true) ;;
  for_each (seq 0 10) (λ i, bitmap_set (bg_inode_bitmap bg0) i true) ;;
  let overhead := start + nblocks in
  sb_set_u32 SB_FREE_BLOCKS (u32_sub total overhead) ;;
  set_group 0 12 (wrap 16 (u32_sub MKFS_BPG overhead)) ;;
  sb_set_u32 SB_FREE_INODES (u32_sub (wrap 32 (ng * MKFS_IPG)) 10) ;;
  set_group 0 14 (MKFS_IPG - 10) ;;
  set_group 0 16 1 ;;
  update_sb ;;
  update_bgdt ;;
  r ← alloc_block;
  match r with
  | None => panic "alloc root block"
  | Some root_blk =>
      wr root_blk (dot_block 2 2) ;;
      write_inode 2 (set_inode_blocks_512 8 (set_inode_block_ptr 0 root_blk mkfs_root_inode)) ;;
      mret tt
  end.

(** ** The server's interface *)

(** [stack] is the number of calls of [file_write] the server's stack has room for. *)
Definition ext2_blockfs (stack : nat) : BlockFs ext2 := {|
  root_inode_number := EXT2_ROOT_INO;
  bf_lookup := dir_lookup_inode;
  bf_info := inode_info;
  bf_create := create_inode;
  bf_free := free_inode;
  bf_add_entry := dir_add_entry;
  bf_link_entry := dir_link_entry;
  bf_unlink := dir_unlink;
  bf_read := file_read;
  bf_write := file_write stack;
  bf_truncate := file_truncate;
  bf_readall := dir_readall;
  bf_init_dir := init_dir;
  bf_fsync := mret true;
|}.

(** ** What the operations see *)

Definition view (s : ext2) (b : Z) : list Z := disk (dev s) b.
Definition healthy (s : ext2) : Prop := ∀ i, d_fail (dev s) i = false.

(** States that differ only in the device's clock. *)
Definition forget (s : ext2) : ext2 := set_dev (mkDev (d_blocks (dev s)) 0 (d_fail (dev s))) s.
Definition quiet (s s' : ext2) : Prop := forget s' = forget s.

#[global] Instance quiet_equiv : Equivalence quiet.
Proof. split; unfold quiet; [by intros ?|by intros ??|intros ???; congruence]. Qed.

(** The state after writing a block. *)
Definition put (b : Z) (x : list Z) (s : ext2) : ext2 :=
  set_dev (mkDev (<[b := x]> (d_blocks (dev s))) (S (d_ops (dev s))) (d_fail (dev s))) s.

Section quiet.
Context (s s' : ext2).
Hypothesis Hq : quiet s s'.

Lemma quiet_view : view s' = view s.
Proof. unfold view, disk. by rewrite (f_equal (λ x, d_blocks (dev x)) Hq : d_blocks (dev s') = d_blocks (dev s)). Qed.
Lemma quiet_healthy : healthy s → healthy s'.
Proof. unfold healthy. by rewrite (f_equal (λ x, d_fail (dev x)) Hq : d_fail (dev s') = d_fail (dev s)). Qed.
Lemma quiet_sb : sb s' = sb s.
Proof. exact (f_equal sb Hq). Qed.
Lemma quiet_bgdt : bgdt s' = bgdt s.
Proof. exact (f_equal bgdt Hq). Qed.
Lemma quiet_isz : inode_size s' = inode_size s.
Proof. exact (f_equal inode_size Hq). Qed.
Lemma quiet_ipg : inodes_per_group s' = inodes_per_group s.
Proof. exact (f_equal inodes_per_group Hq). Qed.
End quiet.

Lemma dev_rd_ok s b : healthy s → ∃ s', rd b s = (Ok (Some (view s b)), s') ∧ quiet s s'.
Proof.
  intros Hs. unfold rd, read_block. rewrite Hs. eexists. split; [reflexivity|]. done.
Qed.

Lemma dev_wr_ok s b x : healthy s → wr b x s = (Ok true, put b x s).
Proof. intros Hs. unfold wr, write_block. by rewrite Hs. Qed.

Lemma view_put s b x b' : view (put b x s) b' = if decide (b' = b) then x else view s b'.
Proof.
  unfold view, disk, put. cbn [dev set_dev d_blocks]. case_decide as Hb.
  - subst. by rewrite lookup_insert_eq.
  - by rewrite lookup_insert_ne.
Qed.

Lemma healthy_put s b x : healthy s → healthy (put b x s).
Proof. done. Qed.

Create HintDb ext2.
#[local] Hint Resolve healthy_put quiet_healthy : ext2.

(** ** Reading the blocks of a file *)

(** The block behind index [idx] of a file, 0 if there is none. *)
Definition pointed (v : Z → list Z) (b i : Z) : Z := if b =? 0 then 0 else u32_le (v b) (Z.to_nat i * 4).

Definition ptr_of (v : Z → list Z) (inode : list Z) (idx : Z) : Z :=
  if idx <? 12 then inode_block_ptr inode (Z.to_nat idx)
  else
    let idx := idx - 12 in
    if idx <? NPTRS then pointed v (inode_block_ptr inode EXT2_IND_BLOCK) idx
    else
      let idx := idx - NPTRS in
      if NPTRS <=? idx / NPTRS then 0
      else pointed v (pointed v (inode_block_ptr inode EXT2_DIND_BLOCK) (idx / NPTRS)) (idx mod NPTRS).

(** The byte at a position of a file. *)
Definition file_byte (v : Z → list Z) (inode : list Z) (pos : Z) : option Z :=
  let b := ptr_of v inode (pos / 4096) in
  if b =? 0 then None else v b !! Z.to_nat (pos mod 4096).

Definition nonzero (b : Z) : option Z := if b =? 0 then None else Some b.

Lemma root_ptr_read s idx ino inode :
  root_ptr idx ino false inode s = (Ok (nonzero (inode_block_ptr inode idx), inode), s).
Proof. unfold root_ptr, nonzero. by destruct (inode_block_ptr inode idx =? 0). Qed.

Lemma block_entry_read s b i ino inode :
  healthy s → b ≠ 0 →
  ∃ s', block_entry b i ino false inode s = (Ok (nonzero (pointed (view s) b i), inode), s') ∧ quiet s s'.
Proof.
  intros Hs Hb. unfold block_entry, get_block_ptr, nonzero, pointed.
  destruct (dev_rd_ok s b Hs) as (s1 & E & Hq). exists s1. split; [|done].
  rewrite (proj2 (Z.eqb_neq b 0)) by done.
  erewrite bind_ok; [|erewrite bind_ok by exact E; reflexivity]. cbn [fmap option_fmap option_map].
  by destruct (u32_le _ _ =? 0).
Qed.

Lemma nonzero_Some b c : nonzero b = Some c → b = c ∧ c ≠ 0.
Proof. unfold nonzero. destruct (Z.eqb_spec b 0); [done|]. by intros [= <-]. Qed.

Lemma nonzero_None b : nonzero b = None → b = 0.
Proof. unfold nonzero. by destruct (Z.eqb_spec b 0). Qed.

Lemma get_file_block_read s ino idx inode :
  healthy s →
  ∃ s', get_file_block ino idx false inode s = (Ok (nonzero (ptr_of (view s) inode idx), inode), s') ∧
    quiet s s'.
Proof.
  intros Hs. unfold get_file_block, ptr_of. destruct (idx <? 12).
  { exists s. split; [apply root_ptr_read|done]. }
  destruct (idx - 12 <? NPTRS).
  - erewrite bind_ok by apply root_ptr_read. cbv beta iota.
    destruct (nonzero (inode_block_ptr inode EXT2_IND_BLOCK)) as [ib|] eqn:E.
    + apply nonzero_Some in E as [-> Hib]. by apply block_entry_read.
    + apply nonzero_None in E. rewrite E. by exists s.
  - destruct (NPTRS <=? (idx - 12 - NPTRS) / NPTRS); [by exists s|].
    erewrite bind_ok by apply root_ptr_read. cbv beta iota.
    destruct (nonzero (inode_block_ptr inode EXT2_DIND_BLOCK)) as [dib|] eqn:E.
    2:{ apply nonzero_None in E. rewrite E. by exists s. }
    apply nonzero_Some in E as [-> Hdib].
    destruct (block_entry_read s dib ((idx - 12 - NPTRS) / NPTRS) ino inode Hs Hdib) as (s1 & E1 & Hq1).
    erewrite bind_ok by exact E1. cbv beta iota.
    destruct (nonzero (pointed (view s) dib _)) as [ib|] eqn:E.
    + apply nonzero_Some in E as [-> Hib].
      destruct (block_entry_read s1 ib ((idx - 12 - NPTRS) mod NPTRS) ino inode) as (s2 & E2 & Hq2);
        [by eapply quiet_healthy|done|].
      rewrite (quiet_view _ _ Hq1) in E2. exists s2. split; [done|by etrans].
    + apply nonzero_None in E. rewrite E. by exists s1.
Qed.

(** [n] bytes of a file from [pos] on. *)
Definition file_bytes (v : Z → list Z) (inode : list Z) (pos : Z) (n : nat) : list Z :=
  (λ k, default 0 (file_byte v inode (pos + Z.of_nat k))) <$> seq 0 n.

Lemma file_bytes_app v inode pos a b :
  file_bytes v inode pos (a + b) =
    file_bytes v inode pos a ++ file_bytes v inode (pos + Z.of_nat a) b.
Proof.
  unfold file_bytes. rewrite seq_app, fmap_app. f_equal. rewrite Nat.add_0_l.
  replace (seq a b) with (seq (a + 0) b) by (by rewrite Nat.add_0_r).
  rewrite <-(fmap_add_seq a 0 b), <-list_fmap_compose. apply list_fmap_ext. intros i k _. cbn. do 2 f_equal. lia.
Qed.

(** Inside a block, the bytes of the file are those of the block. *)
Lemma file_bytes_block v inode pos n b :
  0 ≤ pos → ptr_of v inode (pos / 4096) = b → b ≠ 0 → (block_off pos + n ≤ BLOCK_SIZE)%nat →
  (∀ k, (k < n)%nat → is_Some (file_byte v inode (pos + Z.of_nat k))) →
  slice (v b) (block_off pos) n = file_bytes v inode pos n.
Proof.
  intros Hpos Hp Hb Hn Hsome. pose proof block_size_eq as Hbs. unfold block_off in *.
  apply list_eq. intros k. rewrite lookup_slice. unfold file_bytes.
  case_decide as Hk.
  - rewrite list_lookup_fmap, lookup_seq_lt by done. cbn [fmap option_fmap option_map].
    assert (file_byte v inode (pos + Z.of_nat k) = v b !! (Z.to_nat (pos mod 4096) + k)%nat) as Hf.
    { unfold file_byte. pose proof (Z.mod_pos_bound pos 4096 ltac:(lia)).
      replace ((pos + Z.of_nat k) / 4096) with (pos / 4096) by (Z.div_mod_to_equations; lia).
      rewrite Hp, (proj2 (Z.eqb_neq b 0)) by done. f_equal.
      replace ((pos + Z.of_nat k) mod 4096) with (pos mod 4096 + Z.of_nat k) by (Z.div_mod_to_equations; lia).
      lia. }
    destruct (Hsome k Hk) as [x Hx]. rewrite Nat.add_0_l, Hx. rewrite Hf in Hx. by rewrite Hx.
  - symmetry. apply lookup_ge_None. rewrite length_fmap, length_seq. lia.
Qed.

Lemma ext2_read_loop fuel ino offset to_read inode : ∀ done acc s,
  (to_read ≤ done + fuel)%nat → (done ≤ to_read)%nat → healthy s → 0 ≤ offset →
  offset + Z.of_nat to_read ≤ 2 ^ 32 →
  (∀ p, offset + Z.of_nat done ≤ p < offset + Z.of_nat to_read → is_Some (file_byte (view s) inode p)) →
  ∃ s', read_loop fuel ino offset done to_read acc inode s =
      (Ok (inl (acc ++ file_bytes (view s) inode (offset + Z.of_nat done) (to_read - done))), s') ∧
    quiet s s'.
Proof.
  induction fuel as [|fuel IH]; intros done acc s Hf Hle Hs Hoff Hmax Hsome; cbn [read_loop];
    destruct (Nat.leb_spec to_read done) as [Hd|Hd]; try lia.
  1,2: exists s; split; [|done]; replace (to_read - done)%nat with O by lia; by rewrite app_nil_r.
  set (pos := offset + Z.of_nat done). pose proof block_size_eq as Hbs.
  pose proof (Z.mod_pos_bound pos 4096 ltac:(lia)) as Hmod.
  set (chunk := Nat.min (to_read - done) (BLOCK_SIZE - block_off pos)).
  assert (0 < chunk ∧ done + chunk ≤ to_read ∧ block_off pos + chunk ≤ BLOCK_SIZE)%nat as (Hc1 & Hc2 & Hc3)
    by (unfold chunk, block_off in *; lia).
  destruct (get_file_block_read s ino (wrap 32 (pos / 4096)) inode Hs) as (s1 & E1 & Hq1).
  erewrite bind_ok by exact E1. cbv beta iota.
  assert (wrap 32 (pos / 4096) = pos / 4096) as ->.
  { unfold wrap. apply Z.mod_small. unfold pos. Z.div_mod_to_equations. lia. }
  destruct (Hsome pos ltac:(lia)) as [x Hx]. unfold file_byte in Hx.
  destruct (nonzero (ptr_of (view s) inode (pos / 4096))) as [b|] eqn:Eb.
  2:{ apply nonzero_None in Eb. by rewrite Eb in Hx. }
  apply nonzero_Some in Eb as [Eb Hb0].
  destruct (dev_rd_ok s1 b) as (s2 & E2 & Hq2); [by eapply quiet_healthy|].
  erewrite bind_ok by exact E2. cbv beta iota. rewrite (quiet_view _ _ Hq1).
  assert (quiet s s2) as Hq by (by etrans). pose proof (quiet_view _ _ Hq) as Hv.
  destruct (IH (done + chunk)%nat (acc ++ slice (view s b) (block_off pos) chunk) s2)
    as (s3 & E3 & Hq3); [lia|lia|by eapply quiet_healthy|done|done| |].
  { intros p Hp. rewrite Hv. apply Hsome. lia. }
  exists s3. split; [|by etrans]. rewrite E3, Hv. do 3 f_equal.
  rewrite (file_bytes_block (view s) inode pos chunk b) by (done || lia || (intros k Hk; apply Hsome; lia)).
  rewrite <-app_assoc. f_equal. unfold pos.
  replace (to_read - done)%nat with (chunk + (to_read - (done + chunk)))%nat by lia.
  rewrite file_bytes_app. do 2 f_equal. lia.
Qed.

(** ** Inodes *)

(** Inode [ino] is at offset [off] of block [b]. *)
Definition placed (s : ext2) (ino b : Z) (off : nat) : Prop :=
  bad_inode ino s = false ∧ inode_place ino s = (Ok (b, off), s) ∧ (off + 128 ≤ BLOCK_SIZE)%nat ∧
  length (view s b) = BLOCK_SIZE.

(** Geometry the place of an inode depends on. *)
Definition same_geometry (s s' : ext2) : Prop :=
  sb s' = sb s ∧ bgdt s' = bgdt s ∧ inode_size s' = inode_size s ∧
  inodes_per_group s' = inodes_per_group s.

Lemma quiet_geometry s s' : quiet s s' → same_geometry s s'.
Proof.
  intros Hq. split_and!; [by apply quiet_sb|by apply quiet_bgdt|by apply quiet_isz|by apply quiet_ipg].
Qed.

Lemma inode_place_ext s s' ino b off :
  same_geometry s s' → inode_place ino s = (Ok (b, off), s) → inode_place ino s' = (Ok (b, off), s').
Proof.
  intros (Hsb & Hbg & Hi & Hp). unfold inode_place, group_for_inode, group, gets, mbind, M_bind, panic.
  cbn. rewrite Hp. destruct (inodes_per_group s =? 0); [done|]. cbn. rewrite Hbg.
  destruct (bgdt s !! _); [|done]. cbn. rewrite Hi. destruct (4096 / inode_size s =? 0); [done|].
  by intros [= <- <-].
Qed.

Lemma placed_ext s s' ino b off :
  same_geometry s s' → length (view s' b) = BLOCK_SIZE → placed s ino b off → placed s' ino b off.
Proof.
  intros Hg Hl (H1 & H2 & H3 & _). split_and!; [|by eapply inode_place_ext|done|done].
  unfold bad_inode, sb_u32 in *. destruct Hg as (-> & _). done.
Qed.

Lemma read_inode_ok s ino b off :
  healthy s → placed s ino b off →
  ∃ s', read_inode ino s = (Ok (Some (slice (view s b) off 128)), s') ∧ quiet s s'.
Proof.
  intros Hs (H1 & H2 & _). unfold read_inode. erewrite bind_ok by reflexivity. cbv beta. rewrite H1.
  erewrite bind_ok by exact H2. cbv beta iota. destruct (dev_rd_ok s b Hs) as (s' & E & Hq).
  exists s'. split; [|done]. by erewrite bind_ok by exact E.
Qed.

Lemma write_inode_ok s ino b off x :
  healthy s → placed s ino b off →
  ∃ s', write_inode ino x s = (Ok true, s') ∧ healthy s' ∧ same_geometry s s' ∧
    ∀ b', view s' b' = if decide (b' = b) then splice (view s b) off x else view s b'.
Proof.
  intros Hs (H1 & H2 & _). unfold write_inode. erewrite bind_ok by reflexivity. cbv beta. rewrite H1.
  erewrite bind_ok by exact H2. cbv beta iota. destruct (dev_rd_ok s b Hs) as (s' & E & Hq).
  erewrite bind_ok by exact E. cbv beta iota. pose proof (quiet_healthy _ _ Hq Hs) as Hs'.
  eexists. split; [by apply dev_wr_ok|]. split_and!; [done|apply (quiet_geometry _ _ Hq)..|].
  intros b'. rewrite view_put. by rewrite (quiet_view _ _ Hq).
Qed.

(** Reading an inode after writing one gives the one written, or for an inode at another
    place what was there before. *)
Theorem ext2_inode_roundtrip s ino b off x ino' b' off' :
  healthy s → placed s ino b off → length x = 128%nat → placed s ino' b' off' →
  (b = b' → (off + 128 ≤ off' ∨ off' + 128 ≤ off)%nat ∨ off = off') →
  ∃ s1 s2, write_inode ino x s = (Ok true, s1) ∧
    read_inode ino' s1 = (Ok (Some (if decide (b = b' ∧ off = off') then x else slice (view s b') off' 128)), s2).
Proof.
  intros Hs Hp Hx Hp' Hdis. destruct (write_inode_ok s ino b off x Hs Hp) as (s1 & E1 & Hs1 & Hg & Hv).
  pose proof Hp as (_ & _ & Hle & Hlb). pose proof Hp' as (_ & _ & Hle' & Hlb').
  assert (placed s1 ino' b' off') as Hp1.
  { eapply placed_ext; [done| |done]. rewrite Hv. case_decide; [|done]. by rewrite length_splice by lia. }
  destruct (read_inode_ok s1 ino' b' off' Hs1 Hp1) as (s2 & E2 & _). exists s1, s2. split; [done|].
  rewrite E2, Hv. do 3 f_equal. destruct (decide (b' = b)) as [->|Hb].
  - destruct (Hdis eq_refl) as [Hd| <-].
    + rewrite decide_False by lia. by rewrite slice_splice_ne by lia.
    + rewrite decide_True by done. rewrite <-Hx. by rewrite slice_splice_eq by lia.
  - rewrite decide_False by naive_solver. done.
Qed.

(** ** Reading a file *)

(** Files whose bytes are in blocks: not the ones read from the inode itself. *)
Definition block_file (inode : list Z) : Prop :=
  reads_as_file inode = true ∧ reads_as_link inode && (inode_blocks_512 inode =? 0) = false.


(** ** Writing to a file without blocks *)

(** What [file_write] takes for a symlink with its target in the inode. *)
Definition takes_for_inline (inode : list Z) : Prop :=
  reads_as_link inode = true ∧ inode_blocks_512 inode = 0.

Lemma takes_for_inline_file inode : takes_for_inline inode → reads_as_file inode = true.
Proof. intros [H _]. unfold reads_as_file, reads_as_link in *. by rewrite H, orb_true_r. Qed.

Lemma takes_for_inline_size inode v :
  length inode = 128%nat → takes_for_inline inode → takes_for_inline (set_inode_bytes v inode).
Proof.
  intros Hl [Hm Hb]. unfold takes_for_inline, reads_as_link, inode_mode, inode_blocks_512, set_inode_bytes,
    put_u32, u16_le, u32_le in *.
  rewrite !slice_splice_ne; [done|rewrite length_le_bytes; unfold INODE_SIZE, INODE_BLOCKS, INODE_MODE; lia..].
Qed.

(** A regular file is one of them until it has a block. *)
Lemma regular_takes_for_inline inode :
  Z.land (inode_mode inode) EXT2_S_IFREG = EXT2_S_IFREG → inode_blocks_512 inode = 0 →
  takes_for_inline inode.
Proof.
  intros Hm Hb. split; [|done]. unfold reads_as_link, mode_has.
  apply negb_true_iff, Z.eqb_neq. intros H.
  assert (Z.testbit (Z.land (inode_mode inode) EXT2_S_IFREG) 15 = true) as H1 by (by rewrite Hm).
  assert (Z.testbit (Z.land (inode_mode inode) EXT2_S_IFLNK) 15 = false) as H2 by (by rewrite H).
  rewrite Z.land_spec in H1, H2. destruct (Z.testbit (inode_mode inode) 15); discriminate.
Qed.

Lemma file_write_inline depth ino offset data b off : ∀ s,
  healthy s → placed s ino b off → takes_for_inline (slice (view s b) off 128) →
  (FAST_SYMLINK_MAX < length data)%nat ∨ offset ≠ 0 →
  ∃ s', file_write depth ino offset data s = (Panic "stack overflow", s').
Proof.
  induction depth as [|depth IH]; intros s Hs Hp Ht Hd; cbn [file_write]; [by eexists|].
  destruct (read_inode_ok s ino b off Hs Hp) as (s1 & E1 & Hq1).
  pose proof (quiet_healthy _ _ Hq1 Hs) as Hs1. pose proof Hp as (_ & _ & Hle & Hlb).
  assert (placed s1 ino b off) as Hp1.
  { eapply placed_ext; [by apply quiet_geometry|by rewrite (quiet_view _ _ Hq1)|done]. }
  erewrite bind_ok by exact E1. cbv beta iota. set (inode := slice (view s b) off 128) in *.
  assert (length inode = 128%nat) as Hl by (apply length_slice; lia).
  rewrite (takes_for_inline_file _ Ht). pose proof Ht as [Hm Hb]. rewrite Hm, Hb. cbn [negb andb].
  rewrite (proj2 (andb_false_iff _ _)).
  2: { rewrite Nat.leb_gt, Z.eqb_neq. destruct Hd; [by left|by right]. }
  cbn [Z.eqb]. set (inode' := set_inode_bytes 0 inode).
  assert (length inode' = 128%nat) as Hl'.
  { unfold inode', set_inode_bytes, put_u32. rewrite length_splice; [done|].
    rewrite length_le_bytes, Hl. unfold INODE_SIZE. lia. }
  destruct (write_inode_ok s1 ino b off inode' Hs1 Hp1) as (s2 & E2 & Hs2 & Hg2 & Hv2).
  erewrite bind_ok by exact E2. specialize (Hv2 b). rewrite decide_True in Hv2 by done.
  rewrite (quiet_view _ _ Hq1) in Hv2. apply IH; [done| | |done].
  - eapply placed_ext; [done| |done]. rewrite Hv2, length_splice; lia.
  - rewrite Hv2, <-Hl', slice_splice_eq by lia. by apply takes_for_inline_size.
Qed.

(** [file_write] on a regular file that has no block yet does not return when the
    data is longer than 60 bytes or does not start at offset 0: the file is taken for a
    symlink kept in its inode and the function calls itself until the stack is used up,
    however deep that is. *)
Theorem ext2_write_never_returns depth s ino b off offset data :
  let inode := slice (view s b) off 128 in
  healthy s → placed s ino b off →
  Z.land (inode_mode inode) EXT2_S_IFREG = EXT2_S_IFREG → inode_blocks_512 inode = 0 →
  (FAST_SYMLINK_MAX < length data)%nat ∨ offset ≠ 0 →
  ∃ s', file_write depth ino offset data s = (Panic "stack overflow", s').
Proof.
  intros inode Hs Hp Hm Hb Hd. eapply file_write_inline; [done..| |done].
  by apply regular_takes_for_inline.
Qed.

(** ** Looking up names *)

(** The entries of a directory block from [off] on, one behind the other up to its end. *)
Inductive entries (buf : list Z) : Z → list (Z * list Z * Z) → Prop :=
  | entries_end : entries buf 4096 []
  | entries_cons off ino rec_len name_len ftype es :
      0 ≤ off → dirent buf (Z.to_nat off) = (ino, rec_len, name_len, ftype) →
      0 ≤ name_len → 8 + name_len ≤ rec_len → entries buf (off + rec_len) es →
      entries buf off ((ino, dirent_name buf (Z.to_nat off) name_len, ftype) :: es).

(** The first entry in use with a name. *)
Fixpoint first_named (name : list Z) (es : list (Z * list Z * Z)) : option (Z * Z) :=
  match es with
  | [] => None
  | (ino, n, ft) :: es' =>
      if negb (ino =? 0) && bool_decide (n = name) then Some (ino, ext2_ftype_to_entry_type ft)
      else first_named name es'
  end.

Lemma entries_bound buf off es : entries buf off es → off ≤ 4096.
Proof. induction 1; lia. Qed.

Section lookup.
Context (buf name : list Z) (size : Z).
Hypothesis Hbuf : length buf = BLOCK_SIZE.
Hypothesis Hsize : 4096 ≤ size.

Lemma same_name_entry off name_len :
  0 ≤ off → 0 ≤ name_len → off + 8 + name_len ≤ 4096 →
  same_name buf (Z.to_nat off) name_len name
  = bool_decide (dirent_name buf (Z.to_nat off) name_len = name).
Proof using Hbuf.
  intros. pose proof block_size_eq. unfold same_name. rewrite (proj2 (Z.leb_le _ _)) by lia.
  rewrite andb_true_r. case_bool_decide as Hn; [|by rewrite andb_false_r].
  rewrite <-Hn. unfold dirent_name. rewrite length_slice by lia.
  by rewrite Z2Nat.id, Z.eqb_refl by lia.
Qed.

(** One turn of the inner loop on an entry. *)
Lemma lookup_entries_step fuel pos off ino name_len rec_len ftype es :
  0 ≤ pos < size → pos mod 4096 = off → off < 4096 →
  dirent buf (Z.to_nat off) = (ino, rec_len, name_len, ftype) →
  0 ≤ name_len → 8 + name_len ≤ rec_len → entries buf (off + rec_len) es →
  lookup_entries (S fuel) buf 4096 size name pos =
    if negb (ino =? 0) && bool_decide (dirent_name buf (Z.to_nat off) name_len = name)
    then Some (inl (ino, ext2_ftype_to_entry_type ftype))
    else lookup_entries fuel buf 4096 size name (pos + rec_len).
Proof using Hbuf.
  intros Hpos Hoff Hlt Hd Hn Hr Hes. pose proof (entries_bound _ _ _ Hes).
  pose proof (Z.mod_pos_bound pos 4096 ltac:(lia)).
  cbn [lookup_entries]. unfold block_off. rewrite Hoff, Hd.
  rewrite (proj2 (Z.ltb_ge _ _)), (proj2 (Z.leb_gt _ _)), (proj2 (Z.eqb_neq rec_len 0)) by lia.
  cbn [orb]. rewrite same_name_entry by lia. by destruct (ino =? 0).
Qed.

(** Later rounds look at the same entries again and find nothing new. *)
Lemma lookup_entries_again es0 : entries buf 0 es0 → first_named name es0 = None →
  ∀ fuel pos es, 0 ≤ pos → entries buf (pos mod 4096) es → first_named name es = None →
  size - pos < Z.of_nat fuel →
  ∃ pos', lookup_entries fuel buf 4096 size name pos = Some (inr pos') ∧ size ≤ pos'.
Proof using Hbuf.
  intros Hes0 Hf0. induction fuel as [|fuel IH]; intros pos es Hpos Hes Hf Hfuel.
  { exists pos. cbn [lookup_entries]. rewrite (proj2 (Z.leb_le _ _)), orb_true_r by lia. split; [done|lia]. }
  destruct (Z.le_gt_cases size pos) as [Hge|Hlt].
  { exists pos. cbn [lookup_entries]. rewrite (proj2 (Z.leb_le _ _)), orb_true_r by lia. done. }
  pose proof (Z.mod_pos_bound pos 4096 ltac:(lia)) as Hm.
  remember (pos mod 4096) as off eqn:Hoff. destruct Hes as [|off ino rl nl ft es H0 Hd Hn Hr Hes]; [lia|].
  rewrite (lookup_entries_step fuel pos off ino nl rl ft es) by done || lia.
  pose proof (entries_bound _ _ _ Hes). cbn [first_named] in Hf.
  destruct (negb (ino =? 0) && _); [done|].
  destruct (decide (off + rl = 4096)) as [He|Hne].
  - apply (IH _ es0); [lia| |done|lia].
    replace ((pos + rl) mod 4096) with 0; [done|]. Z.div_mod_to_equations; lia.
  - apply (IH _ es); [lia| |done|lia].
    replace ((pos + rl) mod 4096) with (off + rl); [done|]. Z.div_mod_to_equations; lia.
Qed.

Lemma lookup_entries_first es0 : entries buf 0 es0 →
  ∀ off es, entries buf off es → 0 ≤ off → ∀ fuel, size - off < Z.of_nat fuel →
  (first_named name es = None → first_named name es0 = None) →
  match first_named name es with
  | Some r => lookup_entries fuel buf 4096 size name off = Some (inl r)
  | None => ∃ pos', lookup_entries fuel buf 4096 size name off = Some (inr pos') ∧ size ≤ pos'
  end.
Proof using Hbuf Hsize.
  intros Hes0 off es Hes. induction Hes as [|off ino rl nl ft es H0 Hd Hn Hr Hes IH];
    intros Hoff fuel Hfuel Hnone; cbn [first_named] in *.
  { eapply (lookup_entries_again es0); [done|auto..|done]. done. }
  pose proof (entries_bound _ _ _ Hes). destruct fuel as [|fuel]; [lia|].
  rewrite (lookup_entries_step fuel off off ino nl rl ft es) by (done || (apply Z.mod_small; lia) || lia).
  destruct (negb (ino =? 0) && _); [done|]. apply IH; [lia|lia|done].
Qed.
End lookup.

Lemma dir_block_first s dir_ino inode :
  healthy s → inode_block_ptr inode 0 ≠ 0 →
  ∃ s', dir_block dir_ino 0 inode s =
      (Ok (Some (inode_block_ptr inode 0, view s (inode_block_ptr inode 0))), s') ∧ quiet s s'.
Proof.
  intros Hs Hb. unfold dir_block.
  destruct (get_file_block_read s dir_ino 0 inode) as (s1 & E1 & Hq1); [done|lia..|].
  erewrite bind_ok by exact E1. cbv beta iota. change (ptr_of _ _ 0) with (inode_block_ptr inode 0).
  unfold nonzero. rewrite (proj2 (Z.eqb_neq _ _)) by done.
  destruct (dev_rd_ok s1 (inode_block_ptr inode 0)) as (s2 & E2 & Hq2); [by eapply quiet_healthy|].
  erewrite bind_ok by exact E2. exists s2. rewrite (quiet_view _ _ Hq1). split; [done|by etrans].
Qed.

(** [dir_lookup_inode] returns the first entry with the name among the entries of the
    directory's first block, whatever its size.  For a directory of one block this is
    the lookup meant; the entries of any further block are never found, since the inner
    loop goes on from the end of a block at the start of the same block. *)
Theorem ext2_lookup_first_block s ino b off name es :
  let inode := slice (view s b) off 128 in
  let first := inode_block_ptr inode 0 in
  healthy s → placed s ino b off → is_dir_inode inode = true → 4096 ≤ inode_bytes inode →
  first ≠ 0 → length (view s first) = BLOCK_SIZE → entries (view s first) 0 es →
  ∃ s', dir_lookup_inode ino name s = (Ok (first_named name es), s') ∧ quiet s s'.
Proof.
  intros inode first Hs Hp Hd Hsz Hf Hl Hes. unfold dir_lookup_inode.
  destruct (read_inode_ok s ino b off Hs Hp) as (s1 & E1 & Hq1). erewrite bind_ok by exact E1.
  fold inode. cbv beta iota. rewrite Hd. cbn [negb]. unfold block_fuel. cbn [lookup_blocks].
  rewrite (proj2 (Z.leb_gt _ _)) by lia.
  destruct (dir_block_first s1 ino inode) as (s2 & E2 & Hq2); [by eapply quiet_healthy|done|].
  rewrite (quiet_view _ _ Hq1) in E2. erewrite bind_ok by exact E2. cbv beta iota. fold first.
  rewrite Z.div_0_l, Z.mul_0_l, Z.sub_0_r, Z.min_l by lia.
  pose proof (lookup_entries_first (view s first) name (inode_bytes inode) Hl Hsz es Hes 0 es Hes
    ltac:(lia) (entry_fuel (inode_bytes inode)) ltac:(unfold entry_fuel; lia) ltac:(done)) as Hlk.
  exists s2. split; [|by etrans]. destruct (first_named name es) as [r|].
  - by rewrite Hlk.
  - destruct Hlk as (pos' & -> & Hge). rewrite (proj2 (Z.leb_le _ _)); [done|].
    unfold next_block. Z.div_mod_to_equations; lia.
Qed.

(** ** Allocating blocks *)

(** Fewer descriptors than fill a block. *)
Definition few_groups (s : ext2) : Prop :=
  0 < num_groups s < 128 ∧ Forall (λ g, length g = 32%nat) (bgdt s).

Lemma length_concat_32 (l : list (list Z)) n :
  Forall (λ g, length g = 32%nat) l → (length (concat (take n l)) ≤ 32 * n)%nat.
Proof.
  revert n. induction l as [|g l IH]; intros [|n] Hl; try (cbn; lia).
  apply Forall_cons in Hl as [Hg Hl]. cbn [take concat]. rewrite length_app, Hg. specialize (IH n Hl). lia.
Qed.

(** With fewer than 128 block groups [update_bgdt] writes nothing to the
    device: it hands less than a block to a function that writes whole blocks. *)
Lemma update_bgdt_nothing s : few_groups s → update_bgdt s = (Ok true, s).
Proof.
  intros [Hn Hl]. unfold update_bgdt. erewrite bind_ok by reflexivity. cbv beta. unfold write_blocks, id.
  pose proof (length_concat_32 (bgdt s) (Z.to_nat (num_groups s)) Hl) as Hlen.
  rewrite Nat.div_small; [done|]. pose proof block_size_eq. lia.
Qed.

Lemma update_sb_view s : healthy s →
  ∃ s', update_sb s = (Ok true, s') ∧ healthy s' ∧ num_groups s' = num_groups s ∧ bgdt s' = bgdt s ∧
    ∀ b, b ≠ 0 → view s' b = view s b.
Proof.
  intros Hs. unfold update_sb, superblock_store. destruct (dev_rd_ok s 0 Hs) as (s1 & E1 & Hq).
  erewrite bind_ok by exact E1. cbv beta iota. erewrite bind_ok by reflexivity. cbv beta.
  pose proof (quiet_healthy _ _ Hq Hs) as Hs1. eexists. split; [by apply dev_wr_ok|].
  split_and!; [by apply healthy_put|by apply (f_equal num_groups) in Hq|by apply (f_equal bgdt) in Hq|].
  intros b Hb. rewrite view_put, decide_False by done. by rewrite (quiet_view _ _ Hq).
Qed.

(** [bitmap_alloc] takes the first free bit below the limit. *)
Lemma bitmap_alloc_first s bm limit :
  healthy s → length (view s bm) = BLOCK_SIZE → (limit ≤ 8 * BLOCK_SIZE)%nat →
  (∃ i s', bitmap_alloc bm 0 limit s = (Ok (Some i), s') ∧ (i < limit)%nat ∧
      bit_at (view s bm) i = false ∧ (∀ j, (j < i)%nat → bit_at (view s bm) j = true) ∧
      (∀ j, bit_at (view s' bm) j = if decide (j = i) then true else bit_at (view s bm) j) ∧
      healthy s' ∧ (∀ b, b ≠ bm → view s' b = view s b) ∧ bgdt s' = bgdt s ∧ num_groups s' = num_groups s) ∨
  ((∀ j, (j < limit)%nat → bit_at (view s bm) j = true) ∧
   ∃ s', bitmap_alloc bm 0 limit s = (Ok None, s') ∧ quiet s s').
Proof.
  intros Hs Hl Hlim. unfold bitmap_alloc. destruct (dev_rd_ok s bm Hs) as (s1 & E1 & Hq).
  pose proof (quiet_healthy _ _ Hq Hs) as Hs1. pose proof block_size_eq as Hbs.
  pose proof (bitmap_scan_spec (view s bm) 0 (limit - 0) ltac:(lia)) as Hscan.
  destruct (bitmap_scan (view s bm) 0 (limit - 0)) as [[[i byte]|]|e|e] eqn:Esc; try done.
  - left. destruct Hscan as (Hi & Hb & Hfree & Hmin).
    eexists i, _. split.
    { erewrite bind_ok by exact E1. cbv beta iota. rewrite Esc.
      erewrite bind_ok by (by apply dev_wr_ok). reflexivity. }
    split_and!; [lia|done|intros j Hj; apply Hmin; lia| |by apply healthy_put| | |].
    + intros j. rewrite view_put, decide_True by done. by apply (bit_at_update _ i j byte true).
    + intros b Hne. rewrite view_put, decide_False by done. by rewrite (quiet_view _ _ Hq).
    + exact (f_equal bgdt Hq).
    + exact (f_equal num_groups Hq).
  - right. split; [intros j Hj; apply Hscan; lia|]. exists s1. split; [|done].
    erewrite bind_ok by exact E1. cbv beta iota. by rewrite Esc.
Qed.

(** Storing the new counts after an allocation in group 0. *)
Lemma store_counts s v n : healthy s → few_groups s →
  ∃ s', (∀ A (k : M ext2 A),
      (set_group 0 12 v ;; sb_set_u32 SB_FREE_BLOCKS n ;; update_sb ;; update_bgdt ;; k) s = k s') ∧
    (∀ b, b ≠ 0 → view s' b = view s b) ∧ bgdt s' = alter (put_u16 12 v) 0%nat (bgdt s).
Proof.
  intros Hs [Hn Hl]. set (s1 := set_sb (put_u32 SB_FREE_BLOCKS n (sb s)) (set_bgdt (alter (put_u16 12 v) 0%nat (bgdt s)) s)).
  destruct (update_sb_view s1 Hs) as (s2 & E2 & Hs2 & Hn2 & Hb2 & Hv2).
  exists s2. split_and!; [|done|done]. intros A k.
  erewrite bind_ok by reflexivity. erewrite bind_ok by reflexivity. cbv beta.
  erewrite bind_ok by exact E2. erewrite bind_ok; [reflexivity|]. apply update_bgdt_nothing.
  split; [by rewrite Hn2|]. rewrite Hb2. apply Forall_alter; [done|].
  intros g Hg Hlg. unfold put_u16. rewrite length_splice; [done|]. rewrite length_le_bytes, Hlg. lia.
Qed.

(** C38: [alloc_block] on a file system of fewer than 128 groups.  It hands out the first
    free block of group 0 and marks it, changing the bitmap and the superblock only: the
    descriptors, whose count it lowers in memory, stay as they were on the device.  When
    group 0 has no free block it reports a full disk, whatever the other groups have. *)
Theorem ext2_alloc_block s bg :
  let bm := bg_block_bitmap bg in
  let limit := Z.min (sb_u32 SB_BLOCKS_COUNT s) (blocks_per_group s) in
  healthy s → few_groups s → bgdt s !! 0%nat = Some bg → bm ≠ 0 →
  length (view s bm) = BLOCK_SIZE → 0 ≤ limit ≤ 32768 → 0 ≤ blocks_per_group s < 2 ^ 32 →
  (∃ i s', alloc_block s = (Ok (Some (Z.of_nat i)), s') ∧ Z.of_nat i < limit ∧
      bit_at (view s bm) i = false ∧ (∀ j, (j < i)%nat → bit_at (view s bm) j = true) ∧
      (∀ j, bit_at (view s' bm) j = if decide (j = i) then true else bit_at (view s bm) j) ∧
      (∀ b, b ≠ bm → b ≠ 0 → view s' b = view s b) ∧
      bgdt s' = alter (put_u16 12 (wrap 16 (bg_free_blocks_count bg - 1))) 0%nat (bgdt s)) ∨
  ((∀ j, Z.of_nat j < limit → bit_at (view s bm) j = true) ∧
   ∃ s', alloc_block s = (Ok None, s') ∧ quiet s s').
Proof.
  intros bm limit Hs [Hng Hlen] Hbg Hbm Hl Hlim Hbpg.
  unfold alloc_block. erewrite bind_ok by reflexivity. cbv beta. unfold groups.
  rewrite seqZ_cons by lia. unfold alloc_block_in. erewrite bind_ok by reflexivity. cbv beta zeta. unfold id.
  replace (Z.to_nat _) with (Z.to_nat limit).
  2: { unfold u32_sub, u32_add, wrap. rewrite Z.mul_0_l, (Z.mod_small 0), Z.add_0_l, Z.sub_0_r by lia.
       rewrite (Z.mod_small (blocks_per_group s)), Z.mod_small by (fold limit; lia). done. }
  assert (group 0 s = (Ok bg, s)) as Eg by (unfold group; change (Z.to_nat 0) with 0%nat; by rewrite Hbg).
  erewrite bind_ok by exact Eg. cbv beta. fold bm.
  destruct (bitmap_alloc_first s bm (Z.to_nat limit)) as
    [(i & s1 & E1 & Hi & Hfree & Hmin & Hbit & Hs1 & Hv1 & Hg1 & Hn1)|[Hfull (s1 & E1 & Hq)]];
    [done|done|pose proof block_size_eq; lia| |].
  - left. erewrite bind_ok by exact E1. cbv beta iota.
    destruct (store_counts s1 (wrap 16 (bg_free_blocks_count bg - 1)) (u32_sub (sb_u32 SB_FREE_BLOCKS s) 1))
      as (s2 & E2 & Hv2 & Hb2); [done|split; [by rewrite Hn1|by rewrite Hg1]|].
    exists i, s2. rewrite E2.
    unfold u32_add, wrap. rewrite Z.mul_0_l, (Z.mod_small 0), Z.add_0_l, Z.mod_small by lia.
    split_and!; [done|lia|done|done|by intros j; rewrite Hv2| |by rewrite Hb2, Hg1].
    intros b ??. rewrite Hv2 by done. by apply Hv1.
  - right. split; [intros j Hj; apply Hfull; lia|]. exists s1. split; [|done].
    by erewrite bind_ok by exact E1.
Qed.

(** ** A small file system *)

(** One group of 1000 blocks: bitmaps in blocks 2 and 3, the inode table in 4 to 67. *)
Definition demo_group : list Z :=
  put_u16 14 2036 (put_u16 12 929 (put_u32 8 4 (put_u32 4 3 (put_u32 0 2 (replicate 32 0))))).
Definition demo_sb : list Z :=
  put_u32 SB_FREE_BLOCKS 929 (put_u32 SB_BLOCKS_COUNT 1000 (put_u32 SB_INODES_COUNT 2048 (replicate 1024 0))).

Definition demo_inode (mode size blocks : Z) (ptrs : list Z) : list Z :=
  foldl (λ n '(i, p), set_inode_block_ptr i p n)
    (set_inode_blocks_512 blocks (set_inode_bytes size (put_u16 INODE_MODE mode (replicate 128 0))))
    (zip (seq 0 (length ptrs)) ptrs).

(** Inode 2 is the root directory in block 68, inode 3 a file in blocks 69 and 70, inode 4
    an empty file. *)
Definition demo_table : list Z :=
  splice (splice (splice zero_block 128 (demo_inode 16877 4096 8 [68]))
            256 (demo_inode 33188 5000 16 [69; 70]))
    384 (demo_inode 33188 0 0 []).
Definition demo_bitmap : list Z := replicate 8 255 ++ [127] ++ replicate 4087 0.

Definition demo : ext2 :=
  mkExt2 (mkDev (list_to_map [(2, demo_bitmap); (4, demo_table); (68, dot_block 2 2);
                              (69, replicate BLOCK_SIZE 1); (70, replicate BLOCK_SIZE 2)]) 0 (λ _, false))
    demo_sb [demo_group] 128 2048 32768 0 1.

Lemma demo_healthy : healthy demo.
Proof. by intros i. Qed.

Lemma demo_placed : Forall (λ ino, placed demo ino 4 (Z.to_nat (ino - 1) * 128)) [2; 3; 4].
Proof. repeat apply Forall_cons_2; [..|apply Forall_nil_2]; unfold placed; split_and!; vm_compute; (reflexivity || lia). Qed.


Lemma ext2_inode_roundtrip_witness :
  ∃ s1 s2, write_inode 4 (demo_inode 33188 7 8 [71]) demo = (Ok true, s1) ∧
    read_inode 3 s1 = (Ok (Some (demo_inode 33188 5000 16 [69; 70])), s2).
Proof.
  destruct (ext2_inode_roundtrip demo 4 4 384 (demo_inode 33188 7 8 [71]) 3 4 256)
    as (s1 & s2 & E1 & E2).
  - exact demo_healthy.
  - exact (Forall_lookup_1 _ _ 2 4 demo_placed eq_refl).
  - vm_compute. reflexivity.
  - exact (Forall_lookup_1 _ _ 1 3 demo_placed eq_refl).
  - intros _. left. lia.
  - exists s1, s2. split; [exact E1|]. rewrite E2. vm_compute. reflexivity.
Defined.

(** 61 bytes to the empty file 4. *)
Lemma ext2_write_never_returns_witness :
  ∃ s', file_write 1000 4 0 (replicate 61 7) demo = (Panic "stack overflow", s').
Proof.
  apply (ext2_write_never_returns 1000 demo 4 4 384 0 (replicate 61 7)).
  - exact demo_healthy.
  - exact (Forall_lookup_1 _ _ 2 4 demo_placed eq_refl).
  - vm_compute. reflexivity.
  - vm_compute. reflexivity.
  - left. unfold FAST_SYMLINK_MAX. rewrite length_replicate. lia.
Defined.

Lemma demo_entries : entries (view demo 68) 0 [(2, [46], 2); (2, [46; 46], 2)].
Proof.
  pose proof (entries_cons (view demo 68) 0 2 12 1 2) as H1. pose proof (entries_cons (view demo 68) 12 2 4084 2 2) as H2.
  replace (dirent_name _ _ _) with [46] in H1 by (vm_compute; reflexivity).
  replace (dirent_name _ _ _) with [46; 46] in H2 by (vm_compute; reflexivity).
  apply H1; [lia|vm_compute; reflexivity|lia|lia|].
  apply H2; [lia|vm_compute; reflexivity|lia|lia|]. apply entries_end.
Qed.

Lemma ext2_lookup_first_block_witness :
  ∃ s', dir_lookup_inode 2 [46; 46] demo = (Ok (Some (2, ITYPE_DIR_ENTRY)), s') ∧ quiet demo s'.
Proof.
  apply (ext2_lookup_first_block demo 2 4 128 [46; 46] [(2, [46], 2); (2, [46; 46], 2)]).
  - exact demo_healthy.
  - exact (Forall_lookup_1 _ _ 0 2 demo_placed eq_refl).
  - vm_compute. reflexivity.
  - vm_compute. discriminate.
  - vm_compute. discriminate.
  - vm_compute. reflexivity.
  - exact demo_entries.
Defined.

(** The first free block is 71. *)
Lemma ext2_alloc_block_witness : ∃ s', alloc_block demo = (Ok (Some 71), s').
Proof.
  destruct (ext2_alloc_block demo demo_group) as [(i & s' & E & _ & Hfree & Hmin & _)|[Hfull _]].
  - exact demo_healthy.
  - split; [vm_compute; split; reflexivity|]. apply Forall_singleton. vm_compute. reflexivity.
  - reflexivity.
  - vm_compute. discriminate.
  - vm_compute. reflexivity.
  - vm_compute. split; discriminate.
  - vm_compute. split; [discriminate|reflexivity].
  - exists s'. rewrite E. repeat f_equal. destruct (Nat.lt_trichotomy i 71) as [Hi|[->|Hi]]; [|done|].
    + exfalso. assert (Forall (λ j, bit_at (view demo 2) j = true) (seq 0 71)) as Hall
        by (apply (bool_decide_unpack _); vm_compute; exact I).
      rewrite Forall_forall in Hall. specialize (Hall i). rewrite elem_of_seq in Hall.
      change (bg_block_bitmap demo_group) with 2 in Hfree. rewrite Hall in Hfree by lia. discriminate Hfree.
    + specialize (Hmin 71%nat Hi). vm_compute in Hmin. discriminate Hmin.
  - assert (bit_at (view demo 2) 71 = true) as H by (apply Hfull; vm_compute; reflexivity).
    vm_compute in H. discriminate H.
Defined.

(** ** Adding entries and making a file system *)

(** an entry added to a directory whose first block has no free entry is not found by a
    lookup, although adding it succeeded: it is in the second block. *)
Theorem ext2_added_entry_lost :
  let r := dir_add_entry 2 [97] 3 ITYPE_FILE_ENTRY demo in
  r.1 = Ok true ∧ (dir_lookup_inode 2 [97] r.2).1 = Ok None.
Proof. split; vm_compute; reflexivity. Qed.

(** The device before [mkfs], and the state [mkfs] works on. *)
Definition blank : ext2 := mkExt2 (mkDev ∅ 0 (λ _, false)) (replicate 1024 0) [] 128 0 0 0 0.

(** [mkfs] of a disk of 1000 blocks puts the root directory into block 2, the block
    bitmap of its only group, which from then on reads as directory entries. *)
Theorem ext2_mkfs_overlap :
  let s := (mkfs 1000 blank).2 in
  (mkfs 1000 blank).1 = Ok tt ∧ bg_block_bitmap <$> bgdt s !! 0%nat = Some 2 ∧
  match (read_inode 2 s).1 with
  | Ok (Some inode) => is_dir_inode inode = true ∧ inode_block_ptr inode 0 = 2
  | _ => False
  end ∧ view s 2 = dot_block 2 2.
Proof. split_and!; vm_compute; repeat split. Qed.
