(* ===== verification/VirtQueue.v ===== *)
(** * Virtqueues (src/net/virtqueue.rs, user/virtio-blk-driver/src/virtqueue.rs,
      and the packet path of src/net/virtio_mmio.rs)

    The driver's half of a split virtqueue: descriptor table, available and used
    rings in a page shared with the device, and the driver's free list.  The two
    source files contain the same functions.  The device is not code of the system;
    it appears as the steps the VirtIO standard lets it take: take the next available
    head, and put a head it holds into the used ring.

    [virtqueue_simulates] is a forward simulation: whatever driver and device do, in
    any interleaving and across any number of index wrap-arounds, the queue behaves
    as an abstract queue of buffer chains in which no chain is lost, duplicated or
    seen by the device with other buffers than the driver gave it. *)

From Stdlib Require Import ZArith Lia.
From stdpp Require Import prelude gmap fin_maps strings.
From S2P Require Import Prelude.

Local Open Scope Z_scope.

(** ** Data *)

Definition VIRTQ_DESC_F_NEXT : Z := 1.
Definition VIRTQ_DESC_F_WRITE : Z := 2.

Record descriptor : Type := mkDesc { d_addr : Z; d_len : Z; d_flags : Z; d_next : nat }.

(** [(physical address, length, device-writable)]. *)
Definition buffer : Type := Z * Z * bool.

(** The free list is a vector used as a stack; its top comes first here. *)
Record vq : Type := mkVq {
  vq_size : nat;
  desc : list descriptor;
  avail_idx : Z;
  avail_ring : list nat;
  used_idx : Z;
  used_ring : list (Z * Z);
  free_list : list nat;
  last_used_idx : Z;
}.

Definition set_desc (d : list descriptor) (q : vq) : vq :=
  mkVq (vq_size q) d (avail_idx q) (avail_ring q) (used_idx q) (used_ring q) (free_list q) (last_used_idx q).
Definition set_avail (i : Z) (r : list nat) (q : vq) : vq :=
  mkVq (vq_size q) (desc q) i r (used_idx q) (used_ring q) (free_list q) (last_used_idx q).
Definition set_used (i : Z) (r : list (Z * Z)) (q : vq) : vq :=
  mkVq (vq_size q) (desc q) (avail_idx q) (avail_ring q) i r (free_list q) (last_used_idx q).
Definition set_free (f : list nat) (q : vq) : vq :=
  mkVq (vq_size q) (desc q) (avail_idx q) (avail_ring q) (used_idx q) (used_ring q) f (last_used_idx q).
Definition set_last (i : Z) (q : vq) : vq :=
  mkVq (vq_size q) (desc q) (avail_idx q) (avail_ring q) (used_idx q) (used_ring q) (free_list q) i.

(** ** Layout in the page *)

(** Offsets of the available ring's header, of the used ring's header, and of the end
    of the used ring's elements. *)
Definition vq_layout (n : Z) : Z * Z * Z :=
  let avail_offset := Z.land (n * 16 + 1) (Z.lnot 1) in
  let used_offset := Z.land (avail_offset + 2 * 2 + n * 2 + 3) (Z.lnot 3) in
  (avail_offset, used_offset, used_offset + 4 + 8 * n).

(** [VirtQueue::new] on a zeroed page. *)
Definition vq_new (n : nat) : vq :=
  mkVq n (replicate n (mkDesc 0 0 0 0)) 0 (replicate n O) 0 (replicate n (0, 0)) (rev (seq 0 n)) 0.

(** ** Driver operations *)

Definition ring_pos (q : vq) (i : Z) : nat := Z.to_nat (i mod Z.of_nat (vq_size q)).

Definition desc_addr (q : vq) (id : nat) : Z := default 0 (d_addr <$> desc q !! id).

(** [free.pop().unwrap_or(0)], [n] times. *)
Fixpoint pop_ids (n : nat) (free : list nat) : list nat * list nat :=
  match n with
  | O => ([], free)
  | S n' =>
      let '(id, free') := match free with x :: f => (x, f) | [] => (O, []) end in
      let '(ids, rest) := pop_ids n' free' in (id :: ids, rest)
  end.

Definition buffer_flags (write : bool) : Z := if write then VIRTQ_DESC_F_WRITE else 0.

Fixpoint populate (d : list descriptor) (buffers : list buffer) (ids : list nat) : list descriptor :=
  match buffers, ids with
  | (pa, len, write) :: buffers', id :: ids' =>
      let e := match buffers', ids' with
        | _ :: _, next :: _ => mkDesc pa len (Z.lor (buffer_flags write) VIRTQ_DESC_F_NEXT) next
        | _, _ => mkDesc pa len (buffer_flags write) 0
        end in
      populate (<[id := e]> d) buffers' ids'
  | _, _ => d
  end.

Definition enqueue_chain (buffers : list buffer) : M vq nat := λ q,
  if (length (free_list q) <? length buffers)%nat then (Err "()", q)
  else
    let '(ids, free) := pop_ids (length buffers) (free_list q) in
    let q := set_desc (populate (desc q) buffers ids) (set_free free q) in
    match ids with
    | [] => (Panic "index out of bounds", q)
    | head :: _ =>
        let avail_i := avail_idx q in
        (Ok head, set_avail (wrap 16 (avail_i + 1)) (<[ring_pos q avail_i := head]> (avail_ring q)) q)
    end.

Definition enqueue (buf_pa len : Z) (write : bool) : M vq nat :=
  enqueue_chain [(buf_pa, len, write)].

Definition used_entry (q : vq) : nat * Z :=
  let '(id, len) := default (0, 0) (used_ring q !! ring_pos q (last_used_idx q)) in
  (Z.to_nat (wrap 16 id), len).

Definition advance (q : vq) : vq := set_last (wrap 32 (last_used_idx q + 1)) q.

(** The loop of [pop_used]: [last_used_idx] is counted up, modulo 2^16, to the
    index read, so the fuel given below is what the loop takes. *)
Fixpoint pop_loop (fuel : nat) (used_i : Z) (q : vq) : list (nat * Z) * vq :=
  match fuel with
  | O => ([], q)
  | S n =>
      if wrap 16 (last_used_idx q) =? used_i then ([], q)
      else
        let '(out, q') := pop_loop n used_i (advance q) in
        (used_entry q :: out, q')
  end.

Definition pop_used : M vq (list (nat * Z)) := λ q,
  let used_i := used_idx q in
  let turns := Z.to_nat (wrap 16 (used_i - last_used_idx q)) in
  let '(out, q') := pop_loop (S turns) used_i q in (Ok out, q').

Definition pop_one_used : M vq (option (nat * Z)) := λ q,
  if wrap 16 (last_used_idx q) =? used_idx q then (Ok None, q)
  else (Ok (Some (used_entry q)), advance q).

(** Following a chain: the indices visited.  A walk of more than [size] descriptors
    has come back to one it visited and never ends; that and an index outside the
    table are [None]. *)
Fixpoint walk_chain (fuel : nat) (d : list descriptor) (cur : nat) : option (list nat) :=
  match fuel with
  | O => None
  | S n =>
      e ← d !! cur;
      if Z.land (d_flags e) VIRTQ_DESC_F_NEXT =? 0 then Some [cur]
      else rest ← walk_chain n d (d_next e); Some (cur :: rest)
  end.

Definition read_chain (q : vq) (start : nat) : option (list (Z * Z)) :=
  ids ← walk_chain (vq_size q) (desc q) start;
  mapM (λ id, e ← desc q !! id; Some (d_addr e, d_len e)) ids.

Definition free_chain (start : nat) : M vq (list nat) := λ q,
  match walk_chain (vq_size q) (desc q) start with
  | Some freed => (Ok freed, set_free (rev freed ++ free_list q) q)
  | None => (Panic "endless chain", q)
  end.

(** ** The device, by the VirtIO standard *)

(** How far it has read the available ring, and the heads it is working on. *)
Record device : Type := mkDev { seen : Z; flight : list nat }.

(** It takes the next available head ... *)
Definition dev_take (q : vq) (d : device) : option (nat * device) :=
  if seen d =? avail_idx q then None
  else h ← avail_ring q !! ring_pos q (seen d);
    Some (h, mkDev (wrap 16 (seen d + 1)) (flight d ++ [h])).

(** ... and returns a head it holds, in any order. *)
Definition dev_complete (h : nat) (len : Z) (q : vq) (d : device) : option (vq * device) :=
  if bool_decide (h ∈ flight d) then
    Some (set_used (wrap 16 (used_idx q + 1))
            (<[ring_pos q (used_idx q) := (Z.of_nat h, len)]> (used_ring q)) q,
          mkDev (seen d) (filter (λ x, x ≠ h) (flight d)))
  else None.

(** ** Driver and device together *)

(** [held] are the heads the driver has popped and not yet freed. *)
Record sys : Type := mkSys { sq : vq; sd : device; held : list nat }.

Inductive event : Type :=
  | Enqueue (buffers : list buffer) (r : outcome nat)
  | PopUsed (out : list (nat * Z))
  | PopOne (o : option (nat * Z))
  | FreeChain (h : nat) (parts : option (list (Z * Z))) (r : outcome (list nat))
  | Take (h : nat) (parts : option (list (Z * Z)))
  | Complete (h : nat) (len : Z).

(** The driver frees only chains it has popped; [parts] are the buffers whoever
    follows the chain finds. *)
Inductive step : sys → event → sys → Prop :=
  | step_enqueue q d hs b r q' : b ≠ [] → enqueue_chain b q = (r, q') →
      step (mkSys q d hs) (Enqueue b r) (mkSys q' d hs)
  | step_pop q d hs out q' : pop_used q = (Ok out, q') →
      step (mkSys q d hs) (PopUsed out) (mkSys q' d (hs ++ out.*1))
  | step_pop_one q d hs o q' : pop_one_used q = (Ok o, q') →
      step (mkSys q d hs) (PopOne o)
        (mkSys q' d (hs ++ match o with Some e => [e.1] | None => [] end))
  | step_free q d hs h r q' : h ∈ hs → free_chain h q = (r, q') →
      step (mkSys q d hs) (FreeChain h (read_chain q h) r)
        (mkSys q' d (filter (λ x, x ≠ h) hs))
  | step_take q d hs h d' : dev_take q d = Some (h, d') →
      step (mkSys q d hs) (Take h (read_chain q h)) (mkSys q d' hs)
  | step_complete q d hs h len q' d' : dev_complete h len q d = Some (q', d') →
      step (mkSys q d hs) (Complete h len) (mkSys q' d' hs).

(** ** The abstract queue *)

(** Chains of buffers, by head: waiting for the device in order, with the device,
    completed in order, and back with the driver. *)
Record aqueue : Type := mkAq {
  a_free : nat;
  a_chains : gmap nat (list buffer);
  a_waiting : list nat;
  a_flight : list nat;
  a_done : list (nat * Z);
  a_held : list nat;
}.

Definition parts_of (b : list buffer) : list (Z * Z) := (λ '(pa, len, _), (pa, len)) <$> b.

Inductive astep : aqueue → event → aqueue → Prop :=
  | astep_enqueue a b h : b ≠ [] → (length b ≤ a_free a)%nat → a_chains a !! h = None →
      astep a (Enqueue b (Ok h))
        (mkAq (a_free a - length b) (<[h := b]> (a_chains a)) (a_waiting a ++ [h]) (a_flight a)
           (a_done a) (a_held a))
  | astep_full a b : (a_free a < length b)%nat → astep a (Enqueue b (Err "()")) a
  | astep_pop a :
      astep a (PopUsed (a_done a))
        (mkAq (a_free a) (a_chains a) (a_waiting a) (a_flight a) [] (a_held a ++ (a_done a).*1))
  | astep_pop_none a : a_done a = [] → astep a (PopOne None) a
  | astep_pop_one a e l : a_done a = e :: l →
      astep a (PopOne (Some e))
        (mkAq (a_free a) (a_chains a) (a_waiting a) (a_flight a) l (a_held a ++ [e.1]))
  | astep_free a h b ids : h ∈ a_held a → a_chains a !! h = Some b → length ids = length b →
      astep a (FreeChain h (Some (parts_of b)) (Ok ids))
        (mkAq (a_free a + length b) (delete h (a_chains a)) (a_waiting a) (a_flight a) (a_done a)
           (filter (λ x, x ≠ h) (a_held a)))
  | astep_take a h l b : a_waiting a = h :: l → a_chains a !! h = Some b →
      astep a (Take h (Some (parts_of b)))
        (mkAq (a_free a) (a_chains a) l (a_flight a ++ [h]) (a_done a) (a_held a))
  | astep_complete a h len : h ∈ a_flight a →
      astep a (Complete h len)
        (mkAq (a_free a) (a_chains a) (a_waiting a) (filter (λ x, x ≠ h) (a_flight a))
           (a_done a ++ [(h, len)]) (a_held a)).

Definition aq_new (n : nat) : aqueue := mkAq n ∅ [] [] [] [].

(** ** The simulation relation *)

(** Chain [ids] in the table holds [b]. *)
Fixpoint encodes (d : list descriptor) (ids : list nat) (b : list buffer) : Prop :=
  match ids, b with
  | [id], [(pa, len, w)] => d !! id = Some (mkDesc pa len (buffer_flags w) 0)
  | id :: (next :: _) as ids', (pa, len, w) :: b' =>
      d !! id = Some (mkDesc pa len (Z.lor (buffer_flags w) VIRTQ_DESC_F_NEXT) next) ∧
      encodes d ids' b'
  | _, _ => False
  end.

(** All descriptors in use. *)
Definition all_ids (m : gmap nat (list nat)) : list nat := map_to_list m ≫= snd.

(** Sizes the code admits: a power of two, at most 32768. *)
Definition good_size (n : nat) : Prop := 0 < Z.of_nat n ≤ 32768 ∧ (Z.of_nat n | 65536).

(** Entries [l] stand in ring [r] from index [i] on. *)
Definition in_ring {A} (n : nat) (r : list A) (i : Z) (l : list A) : Prop :=
  ∀ k x, l !! k = Some x → r !! Z.to_nat ((i + Z.of_nat k) mod Z.of_nat n) = Some x.

Record rel (s : sys) (a : aqueue) (m : gmap nat (list nat)) : Prop := {
  r_size : good_size (vq_size (sq s));
  r_desc : length (desc (sq s)) = vq_size (sq s);
  r_aring : length (avail_ring (sq s)) = vq_size (sq s);
  r_uring : length (used_ring (sq s)) = vq_size (sq s);
  r_ids : free_list (sq s) ++ all_ids m ≡ₚ seq 0 (vq_size (sq s));
  r_free : a_free a = length (free_list (sq s));
  r_chain h b : a_chains a !! h = Some b →
    ∃ ids, m !! h = Some ids ∧ head ids = Some h ∧ encodes (desc (sq s)) ids b;
  r_dom h : is_Some (m !! h) → is_Some (a_chains a !! h);
  r_heads : a_waiting a ++ a_flight a ++ (a_done a).*1 ++ a_held a ≡ₚ (map_to_list m).*1;
  r_flight : a_flight a = flight (sd s);
  r_held : a_held a = held s;
  r_seen : avail_idx (sq s) = wrap 16 (seen (sd s) + Z.of_nat (length (a_waiting a)));
  r_seen_range : 0 ≤ seen (sd s) < 65536;
  r_waiting : in_ring (vq_size (sq s)) (avail_ring (sq s)) (seen (sd s)) (a_waiting a);
  r_used : used_idx (sq s) = wrap 16 (last_used_idx (sq s) + Z.of_nat (length (a_done a)));
  r_done : in_ring (vq_size (sq s)) (used_ring (sq s)) (last_used_idx (sq s))
    ((λ e, (Z.of_nat e.1, e.2)) <$> a_done a);
}.

(** ** Index arithmetic *)

Lemma wrap_mod n w x : good_size n → 16 ≤ w → wrap w x mod Z.of_nat n = x mod Z.of_nat n.
Proof.
  intros [Hn Hd] Hw. unfold wrap. apply Z.mod_mod_divide.
  etrans; [exact Hd|]. exists (2 ^ (w - 16)). change 65536 with (2 ^ 16). rewrite <-(Z.pow_add_r 2 (w - 16) 16) by lia.
  f_equal. lia.
Qed.

Lemma wrap16_wrap32 x : wrap 16 (wrap 32 x) = wrap 16 x.
Proof. unfold wrap. apply Z.mod_mod_divide. by exists (2 ^ 16). Qed.

Lemma wrap16_add x y : wrap 16 (wrap 16 x + y) = wrap 16 (x + y).
Proof. unfold wrap. apply Zplus_mod_idemp_l. Qed.

(** Fewer than 65536 steps apart, wrapped indices agree only if equal. *)
Lemma wrap16_eq x k : 0 ≤ k < 65536 → wrap 16 (x + k) = wrap 16 x → k = 0.
Proof.
  unfold wrap. change (2 ^ 16) with 65536. intros Hk He. Z.div_mod_to_equations. lia.
Qed.

Lemma mod_pos n x : good_size n → 0 ≤ x mod Z.of_nat n < Z.of_nat n.
Proof. intros [Hn _]. apply Z.mod_pos_bound. lia. Qed.

Lemma mod_ne n x j k :
  0 < Z.of_nat n → 0 ≤ j < k → k < Z.of_nat n → (x + j) mod Z.of_nat n ≠ (x + k) mod Z.of_nat n.
Proof.
  intros Hn Hj Hk He. assert ((k - j) mod Z.of_nat n = 0) as H0.
  { replace (k - j) with (x + k - (x + j)) by lia. rewrite Zminus_mod, <-He, Z.sub_diag.
    apply Z.mod_0_l. lia. }
  rewrite Z.mod_small in H0 by lia. lia.
Qed.

Section ring.
Context {A : Type} (n : nat).
Hypothesis Hn : good_size n.
Implicit Types (r l : list A).

Lemma in_ring_mod r i j l :
  i mod Z.of_nat n = j mod Z.of_nat n → in_ring n r i l → in_ring n r j l.
Proof.
  intros He H k x Hk. rewrite <-Zplus_mod_idemp_l, <-He, Zplus_mod_idemp_l. by apply H.
Qed.

Lemma in_ring_tail r i x l : in_ring n r i (x :: l) → in_ring n r (i + 1) l.
Proof.
  intros H k y Hk. replace (i + 1 + Z.of_nat k) with (i + Z.of_nat (S k)) by lia. by apply H.
Qed.

Lemma in_ring_head r i x l :
  in_ring n r i (x :: l) → r !! Z.to_nat (i mod Z.of_nat n) = Some x.
Proof. intros H. specialize (H O x eq_refl). by rewrite Z.add_0_r in H. Qed.

Lemma in_ring_snoc r i l x :
  length r = n → (length l < n)%nat → in_ring n r i l →
  in_ring n (<[Z.to_nat ((i + Z.of_nat (length l)) mod Z.of_nat n) := x]> r) i (l ++ [x]).
Proof.
  intros Hr Hl H k y Hk. pose proof Hn as [Hn0 _].
  pose proof (mod_pos n (i + Z.of_nat (length l)) Hn) as Hp.
  apply lookup_app_Some in Hk as [Hk|[Hge Hk]].
  - pose proof (lookup_lt_Some _ _ _ Hk) as Hlt. pose proof (mod_pos n (i + Z.of_nat k) Hn).
    rewrite list_lookup_insert_ne; [by apply H|].
    intros He. apply (mod_ne n i (Z.of_nat k) (Z.of_nat (length l))); lia.
  - apply list_lookup_singleton_Some in Hk as [Hk <-]. replace k with (length l) by lia.
    apply list_lookup_insert_eq. lia.
Qed.
End ring.

(** ** Chains in the descriptor table *)

Lemma encodes_length d ids b : encodes d ids b → length ids = length b ∧ ids ≠ [].
Proof.
  revert b. induction ids as [|id [|next ids] IH]; intros [|[[pa len] w] b]; try done.
  - by destruct b.
  - intros [_ H]. destruct (IH b H) as [E _]. cbn [length] in *. split; [congruence|done].
Qed.

(** A chain depends only on its own descriptors. *)
Lemma encodes_ext d d' ids b :
  (∀ id, id ∈ ids → d' !! id = d !! id) → encodes d ids b → encodes d' ids b.
Proof.
  revert b. induction ids as [|id [|next ids] IH]; intros [|[[pa len] w] b] Hd; try done.
  - destruct b; [|done]. cbn [encodes]. by rewrite Hd by set_solver.
  - intros [H1 H2]. split; [by rewrite Hd by set_solver|]. apply IH; [set_solver|done].
Qed.

Lemma populate_other d b ids j : j ∉ ids → populate d b ids !! j = d !! j.
Proof.
  revert d ids. induction b as [|[[pa len] w] b IH]; intros d [|id ids] Hj; try done.
  cbn [populate]. rewrite IH by set_solver. apply list_lookup_insert_ne. set_solver.
Qed.

Lemma length_populate d b ids : length (populate d b ids) = length d.
Proof.
  revert d ids. induction b as [|[[pa len] w] b IH]; intros d [|id ids]; try done.
  cbn [populate]. by rewrite IH, length_insert.
Qed.

Lemma populate_encodes d b ids :
  length ids = length b → ids ≠ [] → NoDup ids → Forall (λ id, id < length d)%nat ids →
  encodes (populate d b ids) ids b.
Proof.
  revert d b. induction ids as [|id ids IH]; [done|]; intros d [|[[pa len] w] b] Hl _ Hnd Hlt; [done|].
  apply NoDup_cons in Hnd as [Hni Hnd]. apply Forall_cons in Hlt as [Hid Hlt].
  injection Hl as Hl. cbn [populate].
  destruct ids as [|next ids], b as [|x b]; [|done|done|].
  - by apply list_lookup_insert_eq.
  - split.
    + rewrite populate_other by done. by apply list_lookup_insert_eq.
    + apply IH; [done|done|done|]. by rewrite length_insert.
Qed.

Lemma flag_next w : Z.land (Z.lor (buffer_flags w) VIRTQ_DESC_F_NEXT) VIRTQ_DESC_F_NEXT = 1.
Proof. by destruct w. Qed.

Lemma flag_last w : Z.land (buffer_flags w) VIRTQ_DESC_F_NEXT = 0.
Proof. by destruct w. Qed.

Lemma walk_encodes d ids b h fuel :
  encodes d ids b → head ids = Some h → (length ids ≤ fuel)%nat → walk_chain fuel d h = Some ids.
Proof.
  revert b h fuel. induction ids as [|id [|next ids] IH]; intros [|[[pa len] w] b] h [|fuel]; try done.
  - cbn. lia.
  - destruct b; [|done]. cbn. intros Hd [= <-] _. rewrite Hd. cbn. by rewrite flag_last.
  - intros _ _. cbn. lia.
  - intros [Hd He] [= <-] Hf. cbn [walk_chain]. rewrite Hd. cbn [mbind option_bind d_flags d_next].
    rewrite flag_next. cbn [Z.eqb]. erewrite IH; [done|done|done|]. cbn [length] in *. lia.
Qed.

Lemma read_encodes d ids b :
  encodes d ids b → mapM (λ id, e ← d !! id; Some (d_addr e, d_len e)) ids = Some (parts_of b).
Proof.
  intros He. apply mapM_Some. revert b He.
  induction ids as [|id [|next ids] IH]; intros [|[[pa len] w] b]; try done.
  - destruct b; [|done]. cbn [encodes]. intros Hd. apply Forall2_cons. split; [by rewrite Hd|constructor].
  - intros [Hd He]. apply Forall2_cons. split; [by rewrite Hd|]. by apply IH.
Qed.

Lemma pop_ids_spec n free :
  (n ≤ length free)%nat → pop_ids n free = (take n free, drop n free).
Proof.
  revert free. induction n as [|n IH]; intros free Hn; [done|].
  destruct free as [|x free]; [simpl in Hn; lia|]. simpl in Hn.
  cbn [pop_ids]. rewrite IH by lia. done.
Qed.

(** ** Counting *)

Lemma all_ids_insert m h ids : m !! h = None → all_ids (<[h := ids]> m) ≡ₚ ids ++ all_ids m.
Proof. intros Hm. unfold all_ids. by rewrite (map_to_list_insert m h ids Hm). Qed.

Lemma all_ids_delete m h ids : m !! h = Some ids → all_ids m ≡ₚ ids ++ all_ids (delete h m).
Proof.
  intros Hm. rewrite <-(insert_delete_id m h ids Hm) at 1. apply all_ids_insert, lookup_delete_eq.
Qed.

Lemma elem_of_all_ids m h ids x : m !! h = Some ids → x ∈ ids → x ∈ all_ids m.
Proof.
  intros Hm Hx. apply list_elem_of_bind. exists (h, ids). split; [done|]. by apply elem_of_map_to_list.
Qed.

Lemma heads_le_ids m :
  (∀ h ids, m !! h = Some ids → ids ≠ []) → (size m ≤ length (all_ids m))%nat.
Proof.
  induction m as [|h ids m Hm IH] using map_ind; intros Hne; [by rewrite map_size_empty; lia|].
  rewrite all_ids_insert, length_app, map_size_insert_None by done.
  assert (ids ≠ []) by (eapply Hne, lookup_insert_eq).
  assert (size m ≤ length (all_ids m))%nat.
  { apply IH. intros h' ids' Hm'. eapply (Hne h'). rewrite lookup_insert_ne; [done|]. congruence. }
  destruct ids; [done|]. simpl. lia.
Qed.

(** ** The simulation *)

Section facts.
Context (s : sys) (a : aqueue) (m : gmap nat (list nat)).
Hypothesis R : rel s a m.

Lemma rel_nodup : NoDup (free_list (sq s) ++ all_ids m).
Proof. rewrite (r_ids _ _ _ R). apply NoDup_seq. Qed.

Lemma rel_ids h ids : m !! h = Some ids →
  ∃ b, a_chains a !! h = Some b ∧ head ids = Some h ∧ encodes (desc (sq s)) ids b.
Proof.
  intros Hm. destruct (r_dom _ _ _ R h) as [b Hb]; [by eexists|].
  destruct (r_chain _ _ _ R h b Hb) as (ids' & Hm' & H1 & H2). naive_solver.
Qed.

(** Every chain in the queue uses a descriptor of its own. *)
Lemma rel_count :
  (length (a_waiting a) + length (a_flight a) + length (a_done a) + length (a_held a)
     + length (free_list (sq s)) ≤ vq_size (sq s))%nat.
Proof.
  assert (size m ≤ length (all_ids m))%nat as H1.
  { apply heads_le_ids. intros h ids Hm. destruct (rel_ids h ids Hm) as (b & _ & Hh & _). by destruct ids. }
  pose proof (Permutation_length (r_heads _ _ _ R)) as H2.
  pose proof (Permutation_length (r_ids _ _ _ R)) as H3.
  rewrite !length_app, !length_fmap, length_map_to_list in H2. rewrite length_app, length_seq in H3. lia.
Qed.

Lemma rel_heads_nodup : NoDup (a_waiting a ++ a_flight a ++ (a_done a).*1 ++ a_held a).
Proof. rewrite (r_heads _ _ _ R). apply NoDup_fst_map_to_list. Qed.

Lemma rel_chain_of h :
  h ∈ a_waiting a ++ a_flight a ++ (a_done a).*1 ++ a_held a →
  ∃ ids b, m !! h = Some ids ∧ a_chains a !! h = Some b ∧ head ids = Some h ∧
    encodes (desc (sq s)) ids b ∧ (length ids ≤ vq_size (sq s))%nat.
Proof.
  rewrite (r_heads _ _ _ R). intros Hin. apply list_elem_of_fmap in Hin as ([h' ids] & -> & Hin).
  apply elem_of_map_to_list in Hin. destruct (rel_ids h' ids Hin) as (b & Hb & Hh & He).
  exists ids, b. split_and!; [done..|].
  pose proof (Permutation_length (r_ids _ _ _ R)) as H3.
  rewrite (all_ids_delete m h' ids Hin), !length_app, length_seq in H3. lia.
Qed.

Lemma rel_id_lt h ids id : m !! h = Some ids → id ∈ ids → (id < vq_size (sq s))%nat.
Proof.
  intros Hm Hid. assert (id ∈ seq 0 (vq_size (sq s))) as Hin.
  { rewrite <-(r_ids _ _ _ R). apply elem_of_app. right. by eapply elem_of_all_ids. }
  apply elem_of_seq in Hin. lia.
Qed.
End facts.

(** Descriptors popped from the free list belong to no chain. *)
Lemma free_ids_fresh s a m ids rest h :
  rel s a m → free_list (sq s) = ids ++ rest → head ids = Some h →
  (∀ h' l x, m !! h' = Some l → x ∈ l → x ∉ ids) ∧ m !! h = None ∧ a_chains a !! h = None ∧
  NoDup ids ∧ Forall (λ id, id < vq_size (sq s))%nat ids.
Proof.
  intros R Hfree Hh. pose proof (rel_nodup _ _ _ R) as Hnd. rewrite Hfree, <-app_assoc in Hnd.
  apply NoDup_app in Hnd as (Hnd1 & Hnd & _).
  assert (∀ h' l x, m !! h' = Some l → x ∈ l → x ∉ ids) as Hfresh.
  { intros h' l x Hm Hx Hin. apply (Hnd x Hin), elem_of_app. right. by eapply elem_of_all_ids. }
  assert (h ∈ ids) as Hin by (destruct ids; [done|injection Hh as ->; set_solver]).
  assert (m !! h = None) as Hmh.
  { destruct (m !! h) as [l|] eqn:Hm; [|done]. destruct (rel_ids _ _ _ R h l Hm) as (_ & _ & Hl & _).
    destruct l as [|? l]; [done|]. injection Hl as ->. exfalso.
    eapply (Hfresh h _ h); [done|set_solver|done]. }
  split_and!; [done|done| |done|].
  - destruct (a_chains a !! h) as [b'|] eqn:Ha; [|done].
    destruct (r_chain _ _ _ R h b' Ha) as (l & Hl & _). congruence.
  - apply Forall_forall. intros x Hx. assert (x ∈ seq 0 (vq_size (sq s))) as Hx'.
    { rewrite <-(r_ids _ _ _ R), Hfree. set_solver. }
    apply elem_of_seq in Hx'. lia.
Qed.

Lemma sim_enqueue q d hs a m b r q' :
  rel (mkSys q d hs) a m → b ≠ [] → enqueue_chain b q = (r, q') →
  ∃ a' m', astep a (Enqueue b r) a' ∧ rel (mkSys q' d hs) a' m'.
Proof.
  intros R Hb E. pose proof R as [Hsz Hd Har Hur Hids Hfr Hch Hdom Hh Hfl Hhe Hse Hsr Hw Hu Hdn].
  cbn [sq sd held] in *. unfold enqueue_chain in E.
  destruct (Nat.ltb_spec (length (free_list q)) (length b)) as [Hlt|Hge].
  { injection E as <- <-. exists a, m. split; [|done]. apply astep_full. lia. }
  rewrite pop_ids_spec in E by done.
  destruct (take (length b) (free_list q)) as [|h ids] eqn:Et.
  { apply (f_equal length) in Et. rewrite length_take in Et. destruct b; [done|]. cbn [length] in *. lia. }
  injection E as <- <-. set (ids0 := h :: ids) in *.
  assert (free_list q = ids0 ++ drop (length b) (free_list q)) as Hfree
    by (rewrite <-Et; by rewrite take_drop).
  assert (length ids0 = length b) as Hlen by (rewrite <-Et; rewrite length_take; lia).
  destruct (free_ids_fresh _ _ _ ids0 _ h R Hfree eq_refl) as (Hfresh & Hmh & Hah & Hnd & Hlt).
  eexists _, (<[h := ids0]> m). split; [apply astep_enqueue; [done|lia|done]|].
  split; cbn [sq sd held set_avail set_desc set_free vq_size desc avail_idx avail_ring used_idx used_ring
    free_list last_used_idx a_free a_chains a_waiting a_flight a_done a_held]; try done.
  - by rewrite length_populate.
  - by rewrite length_insert.
  - rewrite all_ids_insert by done. rewrite <-Hids. rewrite Hfree at 2.
    by rewrite <-app_assoc, (Permutation_app_comm (drop _ _)), <-app_assoc, (Permutation_app_comm (all_ids m)).
  - rewrite length_drop. lia.
  - intros h' b'. destruct (decide (h' = h)) as [->|Hne].
    + rewrite !lookup_insert_eq. intros [= <-]. exists ids0. split_and!; [done|done|].
      apply populate_encodes; [done|done|done|]. by rewrite Hd.
    + rewrite !lookup_insert_ne by done. intros Hb'. destruct (Hch h' b' Hb') as (l & Hl & Hhd & He).
      exists l. split_and!; [done|done|]. eapply encodes_ext, He. intros id Hid.
      apply populate_other. by eapply Hfresh.
  - intros h'. destruct (decide (h' = h)) as [->|Hne]; [by rewrite !lookup_insert_eq|].
    rewrite !lookup_insert_ne by done. apply Hdom.
  - rewrite (map_to_list_insert m h ids0 Hmh), fmap_cons, <-Hh. rewrite <-app_assoc. symmetry. apply Permutation_middle.
  - rewrite Hse, wrap16_add, length_app. f_equal. simpl. lia.
  - unfold ring_pos. cbn [vq_size]. rewrite Hse, wrap_mod by (done || lia).
    apply in_ring_snoc; [done|done| |done].
    pose proof (rel_count _ _ _ R). cbn [sq vq_size set_desc set_free] in *.
    destruct b; [done|]. cbn [length] in *. lia.
Qed.

(** Reading an entry of the used ring. *)
Lemma used_entry_eq q h n l :
  good_size (vq_size q) → (h < vq_size q)%nat →
  in_ring (vq_size q) (used_ring q) (last_used_idx q)
    ((λ e : nat * Z, (Z.of_nat e.1, e.2)) <$> (h, n) :: l) →
  used_entry q = (h, n).
Proof.
  intros [Hsz _] Hh Hr. rewrite fmap_cons in Hr. apply in_ring_head in Hr. unfold used_entry, ring_pos.
  rewrite Hr. cbn [default from_option id fst snd]. f_equal. unfold wrap. rewrite Z.mod_small by lia. lia.
Qed.

(** Popping one entry: the relation is kept. *)
Lemma rel_advance q d hs a m h n l :
  rel (mkSys q d hs) a m → a_done a = (h, n) :: l →
  used_entry q = (h, n) ∧ (wrap 16 (last_used_idx q) =? used_idx q) = false ∧
  rel (mkSys (advance q) d (hs ++ [h]))
    (mkAq (a_free a) (a_chains a) (a_waiting a) (a_flight a) l (a_held a ++ [h])) m.
Proof.
  intros R Ed. pose proof (rel_count _ _ _ R) as Hcnt.
  pose proof R as [Hsz Hd Har Hur Hids Hfr Hch Hdom Hh Hfl Hhe Hse Hsr Hw Hu Hdn].
  cbn [sq sd held] in *. rewrite Ed in *. cbn [length] in *.
  destruct (rel_chain_of _ _ _ R h) as (ids & b & Hm & _ & Hhd & _ & _).
  { rewrite Ed. cbn [fmap list_fmap fst]. set_solver. }
  split_and!.
  - eapply used_entry_eq; [done| |done]. eapply (rel_id_lt _ _ _ R); [done|].
    destruct ids; [done|]. injection Hhd as ->. set_solver.
  - apply Z.eqb_neq. rewrite Hu. intros He. symmetry in He. apply wrap16_eq in He; [lia|].
    destruct Hsz. lia.
  - split; cbn [sq sd held advance set_last vq_size desc avail_idx avail_ring used_idx used_ring
      free_list last_used_idx a_free a_chains a_waiting a_flight a_done a_held]; try done.
    + rewrite <-Hh. cbn [fmap list_fmap fst]. do 2 f_equiv. rewrite (app_assoc _ (a_held a)). symmetry.
      apply Permutation_cons_append.
    + by rewrite Hhe.
    + rewrite Hu, <-(wrap16_add (wrap 32 _)), wrap16_wrap32, wrap16_add. f_equal. lia.
    + eapply in_ring_mod; [|eapply in_ring_tail; rewrite fmap_cons in Hdn; exact Hdn].
      by rewrite wrap_mod by (done || lia).
Qed.

Lemma sim_pop_one q d hs a m o q' :
  rel (mkSys q d hs) a m → pop_one_used q = (Ok o, q') →
  ∃ a' m', astep a (PopOne o) a' ∧
    rel (mkSys q' d (hs ++ match o with Some e => [e.1] | None => [] end)) a' m'.
Proof.
  intros R E. unfold pop_one_used in E. destruct (a_done a) as [|[h n] l] eqn:Ed.
  - pose proof (r_used _ _ _ R) as Hu. cbn [sq] in Hu. rewrite Ed, Z.add_0_r in Hu.
    rewrite Hu, Z.eqb_refl in E. injection E as <- <-. exists a, m.
    rewrite app_nil_r. split; [by apply astep_pop_none|done].
  - destruct (rel_advance _ _ _ _ _ _ _ _ R Ed) as (He & Hne & R'). rewrite Hne, He in E.
    injection E as <- <-. eexists _, m. split; [by apply astep_pop_one|done].
Qed.

Lemma pop_loop_spec l : ∀ fuel q d hs a m,
  rel (mkSys q d hs) a m → a_done a = l → (length l < fuel)%nat →
  ∃ q', pop_loop fuel (used_idx q) q = (l, q') ∧
    rel (mkSys q' d (hs ++ l.*1))
      (mkAq (a_free a) (a_chains a) (a_waiting a) (a_flight a) [] (a_held a ++ l.*1)) m.
Proof.
  induction l as [|[h n] l IH]; intros [|fuel] q d hs a m R Ed Hf; cbn [length] in Hf; [lia| |lia|];
    cbn [pop_loop].
  - pose proof (r_used _ _ _ R) as Hu. cbn [sq] in Hu. rewrite Ed, Z.add_0_r in Hu.
    rewrite Hu, Z.eqb_refl. exists q. split; [done|]. cbn [fmap list_fmap]. rewrite !app_nil_r, <-Ed.
    by destruct a.
  - destruct (rel_advance _ _ _ _ _ _ _ _ R Ed) as (He & Hne & R'). rewrite Hne, He.
    destruct (IH fuel _ _ _ _ _ R' eq_refl) as (q' & E & R2); [lia|].
    change (used_idx (advance q)) with (used_idx q) in E. rewrite E. exists q'. split; [done|].
    cbn [a_free a_chains a_waiting a_flight a_held] in R2. rewrite <-!app_assoc in R2. exact R2.
Qed.

Lemma sim_pop q d hs a m out q' :
  rel (mkSys q d hs) a m → pop_used q = (Ok out, q') →
  ∃ a' m', astep a (PopUsed out) a' ∧ rel (mkSys q' d (hs ++ out.*1)) a' m'.
Proof.
  intros R E. pose proof (rel_count _ _ _ R) as Hc. pose proof (r_size _ _ _ R) as [Hs _].
  pose proof (r_used _ _ _ R) as Hu. cbn [sq] in *. unfold pop_used in E.
  assert (wrap 16 (used_idx q - last_used_idx q) = Z.of_nat (length (a_done a))) as Ht.
  { rewrite Hu. unfold wrap. rewrite Zminus_mod_idemp_l.
    replace (last_used_idx q + Z.of_nat (length (a_done a)) - last_used_idx q)
      with (Z.of_nat (length (a_done a))) by lia. apply Z.mod_small. lia. }
  rewrite Ht, Nat2Z.id in E.
  destruct (pop_loop_spec (a_done a) (S (length (a_done a))) q d hs a m R eq_refl) as (q1 & E1 & R1); [lia|].
  rewrite E1 in E. injection E as <- <-.
  eexists _, m. split; [apply astep_pop|done].
Qed.

Lemma filter_ne_id (h : nat) (l : list nat) : h ∉ l → filter (λ x, x ≠ h) l = l.
Proof.
  induction l as [|x l IH]; [done|]. rewrite not_elem_of_cons. intros [Hx Hl].
  rewrite filter_cons_True by congruence. by rewrite IH.
Qed.

Lemma filter_ne_perm (h : nat) (l : list nat) :
  NoDup l → h ∈ l → l ≡ₚ h :: filter (λ x, x ≠ h) l.
Proof.
  induction 1 as [|x l Hx Hnd IH]; [set_solver|]. rewrite elem_of_cons. intros [->|Hin].
  - rewrite filter_cons_False by naive_solver. by rewrite filter_ne_id.
  - rewrite filter_cons_True by (by intros ->). rewrite (IH Hin) at 1. apply Permutation_swap.
Qed.

Lemma sim_free q d hs a m h r q' :
  rel (mkSys q d hs) a m → h ∈ hs → free_chain h q = (r, q') →
  ∃ a' m', astep a (FreeChain h (read_chain q h) r) a' ∧
    rel (mkSys q' d (filter (λ x, x ≠ h) hs)) a' m'.
Proof.
  intros R Hin E. pose proof (rel_heads_nodup _ _ _ R) as Hhn.
  destruct (rel_chain_of _ _ _ R h) as (ids & b & Hm & Hb & Hhd & He & Hl).
  { rewrite (r_held _ _ _ R). cbn [held]. set_solver. }
  pose proof R as [Hsz Hd Har Hur Hids Hfr Hch Hdom Hh Hfl Hhe Hse Hsr Hw Hu Hdn].
  cbn [sq sd held] in *. unfold free_chain in E.
  pose proof (walk_encodes _ _ _ _ _ He Hhd Hl) as Hwalk. rewrite Hwalk in E. injection E as <- <-.
  unfold read_chain. rewrite Hwalk. cbn [mbind option_bind]. rewrite (read_encodes _ _ _ He).
  destruct (encodes_length _ _ _ He) as [Hlen _].
  eexists _, (delete h m). split; [by apply astep_free; [rewrite Hhe|..]|].
  split; cbn [sq sd held set_free vq_size desc avail_idx avail_ring used_idx used_ring
    free_list last_used_idx a_free a_chains a_waiting a_flight a_done a_held]; try done.
  - rewrite <-Hids, (all_ids_delete m h ids Hm), <-(Permutation_rev ids).
    by rewrite (Permutation_app_comm ids), <-app_assoc.
  - rewrite length_app, length_rev. lia.
  - intros h' b'. destruct (decide (h' = h)) as [->|Hne]; [by rewrite lookup_delete_eq|].
    rewrite !lookup_delete_ne by done. apply Hch.
  - intros h'. destruct (decide (h' = h)) as [->|Hne]; [by rewrite !lookup_delete_eq|].
    rewrite !lookup_delete_ne by done. apply Hdom.
  - apply (Permutation_cons_inv (a := h)).
    rewrite <-(fmap_cons fst (h, ids)), <-map_to_list_insert, insert_delete_id by (done || apply lookup_delete_eq).
    rewrite <-Hh. rewrite !app_assoc in *. rewrite (Permutation_middle _ _ h).
    f_equiv. symmetry. apply filter_ne_perm; [|by rewrite Hhe].
    by apply NoDup_app in Hhn as (_ & _ & ?).
  - by rewrite Hhe.
Qed.

Lemma sim_take q d hs a m h d' :
  rel (mkSys q d hs) a m → dev_take q d = Some (h, d') →
  ∃ a' m', astep a (Take h (read_chain q h)) a' ∧ rel (mkSys q d' hs) a' m'.
Proof.
  intros R E. pose proof R as [Hsz Hd Har Hur Hids Hfr Hch Hdom Hh Hfl Hhe Hse Hsr Hw Hu Hdn].
  cbn [sq sd held] in *. unfold dev_take in E.
  destruct (Z.eqb_spec (seen d) (avail_idx q)) as [|Hne]; [done|].
  destruct (a_waiting a) as [|x l] eqn:Ew.
  { destruct Hne. rewrite Hse. unfold wrap. cbn [length]. rewrite Z.add_0_r, Z.mod_small by lia. done. }
  unfold ring_pos in E. rewrite (in_ring_head _ _ _ _ _ Hw) in E. injection E as <- <-.
  destruct (rel_chain_of _ _ _ R x) as (ids & b & Hm & Hb & Hhd & He & Hl).
  { rewrite Ew. set_solver. }
  cbn [sq] in *. unfold read_chain. rewrite (walk_encodes _ _ _ _ _ He Hhd Hl).
  cbn [mbind option_bind]. rewrite (read_encodes _ _ _ He).
  eexists _, m. split; [by eapply astep_take|].
  split; cbn [sq sd held seen flight a_free a_chains a_waiting a_flight a_done a_held]; try done.
  - rewrite <-Hh. rewrite <-!app_assoc. cbn [app]. symmetry.
    rewrite (app_assoc l), (app_assoc l). apply Permutation_middle.
  - by rewrite Hfl.
  - rewrite Hse, wrap16_add. f_equal. cbn [length]. lia.
  - unfold wrap. apply Z.mod_pos_bound. lia.
  - eapply in_ring_mod; [|by eapply in_ring_tail]. by rewrite wrap_mod by (done || lia).
Qed.

Lemma sim_complete q d hs a m h len q' d' :
  rel (mkSys q d hs) a m → dev_complete h len q d = Some (q', d') →
  ∃ a' m', astep a (Complete h len) a' ∧ rel (mkSys q' d' hs) a' m'.
Proof.
  intros R E. pose proof (rel_count _ _ _ R) as Hcnt. pose proof (rel_heads_nodup _ _ _ R) as Hhn.
  pose proof R as [Hsz Hd Har Hur Hids Hfr Hch Hdom Hh Hfl Hhe Hse Hsr Hw Hu Hdn].
  cbn [sq sd held] in *. unfold dev_complete in E. case_bool_decide as Hin; [|done].
  injection E as <- <-. rewrite <-Hfl in Hin.
  assert (0 < length (a_flight a))%nat as Hpos by (destruct (a_flight a); [set_solver|simpl; lia]).
  eexists _, m. split; [by apply astep_complete|].
  split; cbn [sq sd held seen flight set_used vq_size desc avail_idx avail_ring used_idx used_ring
    free_list last_used_idx a_free a_chains a_waiting a_flight a_done a_held]; try done.
  - by rewrite length_insert.
  - rewrite <-Hh. f_equiv. rewrite fmap_app. cbn [fmap list_fmap fst].
    assert (NoDup (a_flight a)) as Hnf by (apply NoDup_app in Hhn as (_ & _ & [? _]%NoDup_app); done).
    rewrite (filter_ne_perm h (a_flight a) Hnf Hin) at 2. cbn [app]. rewrite <-app_assoc. cbn [app].
    rewrite !app_assoc. symmetry. apply Permutation_middle.
  - by rewrite Hfl.
  - rewrite Hu, wrap16_add, length_app. f_equal. simpl. lia.
  - rewrite fmap_app. cbn [fmap list_fmap fst snd]. unfold ring_pos. rewrite Hu, wrap_mod by (done || lia).
    rewrite <-(length_fmap (λ e : nat * Z, (Z.of_nat e.1, e.2)) (a_done a)).
    apply in_ring_snoc; [done|done|rewrite length_fmap; lia|done].
Qed.

Lemma sim_step s a m ev s' :
  rel s a m → step s ev s' → ∃ a' m', astep a ev a' ∧ rel s' a' m'.
Proof.
  intros R Hstep.
  destruct Hstep; eauto using sim_enqueue, sim_pop, sim_pop_one, sim_free, sim_take, sim_complete.
Qed.

(** ** Properties of the queue *)

(** The virtqueue simulates a queue of buffer chains.  From related states, every
    step of driver or device is a step of the abstract queue with the same result:
    enqueueing fails only when descriptors are short and otherwise appends the chain
    at a head not in use; the device takes the waiting chains in order and finds
    exactly the buffers the driver enqueued; popping returns exactly the completions
    not yet popped, in the order the device made them; freeing returns all
    descriptors of the chain; and the relation, in which every descriptor is free or
    in one chain and every chain in one place, is kept. *)
Theorem virtqueue_simulates s a m ev s' :
  rel s a m → step s ev s' → ∃ a' m', astep a ev a' ∧ rel s' a' m'.
Proof. apply sim_step. Qed.

(** A new queue with an idle device is the empty abstract queue. *)
Lemma new_rel n : good_size n → rel (mkSys (vq_new n) (mkDev 0 []) []) (aq_new n) ∅.
Proof.
  intros Hn. split; cbn; try done; rewrite ?length_replicate; try done.
  - rewrite app_nil_r. symmetry. apply Permutation_rev.
  - by rewrite length_rev, length_seq.
  - by intros h [? ?].
Qed.

(** Runs, and what they show: chains enqueued and taken by the device, completions
    made by the device and popped by the driver. *)
Inductive run : sys → list event → sys → Prop :=
  | run_nil s : run s [] s
  | run_snoc s tr s1 ev s2 : run s tr s1 → step s1 ev s2 → run s (tr ++ [ev]) s2.

Definition enqueued (ev : event) : list (nat * list (Z * Z)) :=
  match ev with Enqueue b (Ok h) => [(h, parts_of b)] | _ => [] end.
Definition taken (ev : event) : list (nat * list (Z * Z)) :=
  match ev with Take h (Some p) => [(h, p)] | _ => [] end.
Definition completed (ev : event) : list (nat * Z) :=
  match ev with Complete h len => [(h, len)] | _ => [] end.
Definition popped (ev : event) : list (nat * Z) :=
  match ev with PopUsed out => out | PopOne (Some e) => [e] | _ => [] end.

(** The waiting chains with their buffers. *)
Definition waiting_parts (a : aqueue) : list (nat * list (Z * Z)) :=
  (λ h, (h, parts_of (default [] (a_chains a !! h)))) <$> a_waiting a.

(** Nothing is lost or reordered between the two sides. *)
Definition accounts (tr : list event) (a : aqueue) : Prop :=
  (tr ≫= enqueued) = (tr ≫= taken) ++ waiting_parts a ∧
  (tr ≫= completed) = (tr ≫= popped) ++ a_done a.

Lemma waiting_parts_ext a a' :
  a_waiting a' = a_waiting a → (∀ h, h ∈ a_waiting a → a_chains a' !! h = a_chains a !! h) →
  waiting_parts a' = waiting_parts a.
Proof.
  intros Hw Hc. unfold waiting_parts. rewrite Hw. apply list_fmap_ext. intros i h Hh.
  rewrite Hc; [done|]. by eapply list_elem_of_lookup_2.
Qed.

(** A chain waiting for the device is not with the driver, nor being enqueued. *)
Lemma accounts_step s a m tr ev a' :
  rel s a m → accounts tr a → astep a ev a' → accounts (tr ++ [ev]) a'.
Proof.
  intros R [H1 H2] Hs. pose proof (rel_heads_nodup _ _ _ R) as Hnd. unfold accounts.
  rewrite !bind_app, H1, H2.
  assert (∀ h, h ∈ a_waiting a → is_Some (a_chains a !! h)) as Hsome.
  { intros h Hh. destruct (rel_chain_of _ _ _ R h) as (? & b & _ & Hb & _); [set_solver|]. by exists b. }
  destruct Hs as [a b h Hb Hl Hf|a b Hl|a|a Hd|a e l Hd|a h b ids Hh Hc Hl|a h l b Hw Hc|a h len Hh];
    cbn [mbind list_bind enqueued taken completed popped a_done]; rewrite ?app_nil_r, <-?app_assoc;
    split; try done.
  - do 1 f_equal. unfold waiting_parts. cbn [a_waiting a_chains]. rewrite fmap_app. cbn [fmap list_fmap].
    rewrite lookup_insert_eq. f_equal. apply list_fmap_ext. intros i x Hx.
    rewrite lookup_insert_ne; [done|]. intros <-. apply list_elem_of_lookup_2 in Hx.
    destruct (Hsome h Hx). congruence.
  - by rewrite Hd.
  - f_equal. symmetry. apply waiting_parts_ext; [done|]. intros x Hx. cbn [a_chains].
    apply lookup_delete_ne. intros <-. apply NoDup_app in Hnd as (_ & Hnd & _). apply (Hnd h Hx). set_solver.
  - unfold waiting_parts at 1. rewrite Hw. cbn [fmap list_fmap]. by rewrite Hc.
Qed.

(** C16: Nothing is lost, duplicated or reordered.  In every run of driver and device
    from a new queue, the chains the device has taken, with the buffers it found, are
    a prefix of the chains the driver enqueued, with the buffers it gave; and the
    completions the driver has popped are a prefix of those the device made.  What is
    missing from the prefixes is still in the queue. *)
Theorem virtqueue_fifo n tr s' :
  good_size n → run (mkSys (vq_new n) (mkDev 0 []) []) tr s' →
  ∃ a m, rel s' a m ∧
    (tr ≫= enqueued) = (tr ≫= taken) ++ waiting_parts a ∧
    (tr ≫= completed) = (tr ≫= popped) ++ a_done a.
Proof.
  intros Hn Hrun. remember (mkSys (vq_new n) (mkDev 0 []) []) as s0 eqn:Es.
  induction Hrun as [s|s tr s1 ev s2 Hrun IH Hstep].
  - subst. exists (aq_new n), ∅. split; [by apply new_rel|done].
  - destruct (IH Es) as (a & m & R & Ha).
    destruct (sim_step _ _ _ _ _ R Hstep) as (a' & m' & Has & R').
    exists a', m'. split; [done|]. exact (accounts_step _ _ _ _ _ _ R Ha Has).
Qed.

(** The queue page of the drivers' sizes: the three parts are aligned as the device
    expects, do not overlap and end inside the page. *)
Theorem layout_fits n :
  0 < n ≤ 128 →
  let '(avail, used, end_) := vq_layout n in
  avail = 16 * n ∧ used mod 4 = 0 ∧ avail + 4 + 2 * n ≤ used < avail + 4 + 2 * n + 4 ∧ end_ ≤ 4096.
Proof.
  intros Hn. unfold vq_layout. cbv zeta.
  assert (∀ x k, 0 ≤ k → Z.land x (Z.lnot (Z.ones k)) = x / 2 ^ k * 2 ^ k) as Hal.
  { intros x k Hk. rewrite <-Z.ldiff_land, Z.ldiff_ones_r by lia.
    by rewrite Z.shiftl_mul_pow2, Z.shiftr_div_pow2 by lia. }
  assert (Z.land (n * 16 + 1) (Z.lnot 1) = 16 * n) as ->.
  { etrans; [apply (Hal _ 1); lia|]. change (2 ^ 1) with 2. Z.div_mod_to_equations. lia. }
  set (x := 16 * n + 2 * 2 + n * 2 + 3).
  assert (Z.land x (Z.lnot 3) = x / 4 * 4) as -> by (apply (Hal _ 2); lia).
  pose proof (Z.div_mod x 4 ltac:(lia)) as Hx. pose proof (Z.mod_pos_bound x 4 ltac:(lia)).
  split_and!; [done|apply Z.mod_mul; lia|unfold x in *; lia..].
Qed.

(** ** Receiving packets (src/net/virtio_mmio.rs) *)

Definition VNET_HDR_LEN : Z := 10.
Definition RX_BUF_COUNT : nat := 8.
Definition QUEUE_SIZE : nat := 64.

(** The receive queue and the buffer pages, by physical address. *)
Record rx : Type := mkRx { rx_vq : vq; rx_dev : device; pages : gmap Z (list Z) }.

(** The pre-fill of [init_device]; [pas] are the pages the allocator gives. *)
Fixpoint prefill (pas : list Z) (q : vq) : vq :=
  match pas with
  | [] => q
  | pa :: pas' => prefill pas' (enqueue_chain [(pa, 4096, true)] q).2
  end.

(** The part of [recv] under the queue's lock. *)
Definition recv_dequeue : M vq (option (Z * Z)) :=
  o ← pop_one_used;
  match o with
  | None => mret None
  | Some (id, pkt_len) =>
      pa ← gets (λ q, desc_addr q id);
      free_chain id ;;
      match_result (enqueue_chain [(pa, 4096, true)]) (λ _, mret tt) (λ _, mret tt) ;;
      mret (Some (pa, pkt_len))
  end.

(** The copy that follows it. *)
Definition recv_copy (ps : gmap Z (list Z)) (rx_pa rx_len buf_len : Z) : list Z :=
  let data_len := sat_sub rx_len VNET_HDR_LEN in
  let to_copy := Z.min data_len buf_len in
  slice (default [] (ps !! rx_pa)) (Z.to_nat VNET_HDR_LEN) (Z.to_nat to_copy).

(** [recv] with [between] happening after the queue is unlocked. *)
Definition recv (buf_len : Z) (between : rx → rx) (r : rx) : list Z * rx :=
  match recv_dequeue (rx_vq r) with
  | (Ok (Some (pa, len)), q) =>
      let r' := between (mkRx q (rx_dev r) (pages r)) in
      (recv_copy (pages r') pa len buf_len, r')
  | (_, q) => ([], mkRx q (rx_dev r) (pages r))
  end.

(** A packet arrives: the device takes a buffer, writes header and packet into it and
    returns it. *)
Definition packet_arrives (pkt : list Z) (r : rx) : rx :=
  match dev_take (rx_vq r) (rx_dev r) with
  | Some (h, d) =>
      let pa := desc_addr (rx_vq r) h in
      let page := replicate (Z.to_nat VNET_HDR_LEN) 0 ++ pkt in
      let len := Z.of_nat (length page) in
      match dev_complete h len (rx_vq r) d with
      | Some (q', d') =>
          mkRx q' d' (<[pa := splice (default [] (pages r !! pa)) 0 page]> (pages r))
      | None => r
      end
  | None => r
  end.

(** The receive queue is in order and [pkt] is the oldest packet in it, alone in the
    page of its buffer. *)
Definition oldest_packet (r : rx) (a : aqueue) (m : gmap nat (list nat)) (h : nat) (pa : Z)
    (pkt : list Z) : Prop :=
  rel (mkSys (rx_vq r) (rx_dev r) []) a m ∧
  (∃ l, a_done a = (h, VNET_HDR_LEN + Z.of_nat (length pkt)) :: l) ∧
  a_chains a !! h = Some [(pa, 4096, true)] ∧
  ∃ tail, pages r !! pa = Some (replicate (Z.to_nat VNET_HDR_LEN) 0 ++ pkt ++ tail).

Lemma recv_dequeue_spec r a m h pa pkt :
  oldest_packet r a m h pa pkt →
  ∃ h' q' a' m', recv_dequeue (rx_vq r) = (Ok (Some (pa, VNET_HDR_LEN + Z.of_nat (length pkt))), q') ∧
    rel (mkSys q' (rx_dev r) []) a' m' ∧ a_chains a' !! h' = Some [(pa, 4096, true)] ∧
    a_waiting a' = a_waiting a ++ [h'] ∧ a_done a' = tail (a_done a).
Proof.
  intros (R & (l & Hd) & Hc & _).
  destruct (rel_advance _ _ _ _ _ _ _ _ R Hd) as (He & Hne & R1).
  set (n := VNET_HDR_LEN + Z.of_nat (length pkt)) in *. set (a1 := mkAq _ _ _ _ _ _) in R1.
  unfold recv_dequeue. assert (pop_one_used (rx_vq r) = (Ok (Some (h, n)), advance (rx_vq r))) as E1.
  { unfold pop_one_used. by rewrite Hne, He. }
  erewrite bind_ok by exact E1. cbv beta iota. erewrite bind_ok by reflexivity.
  destruct (free_chain h (advance (rx_vq r))) as [fr q2] eqn:E2.
  destruct (sim_free _ _ _ _ _ h _ _ R1 ltac:(set_solver) E2) as (a2 & m2 & Hs2 & R2).
  destruct (r_chain _ _ _ R h _ Hc) as (ids & Hm & Hhd & Henc). cbn [sq] in Henc.
  inversion Hs2 as [| | | | |? ? b ids' Hin Hcb Hl Heq1 Heq2 Heq3| |]; subst; clear Hs2.
  erewrite bind_ok by exact E2.
  assert (desc_addr (advance (rx_vq r)) h = pa) as Hpa.
  { destruct (encodes_length _ _ _ Henc) as [Hlen _]. destruct ids as [|i [|]]; [done| |done].
    injection Hhd as ->. cbn in Henc. unfold desc_addr. cbn. by rewrite Henc. }
  rewrite Hpa. destruct (enqueue_chain [(pa, 4096, true)] q2) as [er q3] eqn:E3.
  assert ([(pa, 4096, true)] ≠ []) as Hne3 by done.
  destruct (sim_enqueue _ _ _ _ _ _ _ _ R2 Hne3 E3) as (a3 & m3 & Hs3 & R3).
  assert (b = [(pa, 4096, true)]) as -> by (apply (inj Some); rewrite <-Hcb; exact Hc).
  inversion Hs3 as [? ? h' Hb Hle Hno Heq4 Heq5 Heq6|? ? Hlt| | | | | |]; subst; clear Hs3.
  2:{ cbn in Hlt. lia. }
  assert (filter (λ x, x ≠ h) ([] ++ [h]) = []) as Hflt
    by (cbn [app]; by rewrite filter_cons_False by naive_solver).
  eexists h', q3, _, m3. split.
  { erewrite bind_ok; [reflexivity|]. unfold match_result. by rewrite E3. }
  rewrite Hflt in R3. split; [exact R3|]. cbn [a_chains a_waiting a_done]. rewrite Hd.
  split_and!; [apply lookup_insert_eq|done|done].
Qed.

(** Receiving, when no packet arrives meanwhile: [recv] returns the oldest packet,
    cut to the caller's buffer, takes exactly it off the queue, and puts its page back
    at the end of the buffers waiting for the device. *)
Theorem recv_delivers r a m h pa pkt buf_len :
  oldest_packet r a m h pa pkt → 0 ≤ buf_len →
  ∃ r' h' a' m', recv buf_len id r = (take (Z.to_nat buf_len) pkt, r') ∧
    rel (mkSys (rx_vq r') (rx_dev r') []) a' m' ∧ a_done a' = tail (a_done a) ∧
    a_waiting a' = a_waiting a ++ [h'] ∧ a_chains a' !! h' = Some [(pa, 4096, true)] ∧
    pages r' = pages r.
Proof.
  intros Ho Hb. destruct (recv_dequeue_spec r a m h pa pkt Ho) as (h' & q' & a' & m' & E & R & Hc & Hw & Hd).
  destruct Ho as (_ & _ & _ & tail & Hp). unfold recv. rewrite E. cbn [id].
  exists (mkRx q' (rx_dev r) (pages r)), h', a', m'. split_and!; try done. f_equal.
  unfold recv_copy, slice. cbn [pages]. rewrite Hp. cbn [default from_option].
  unfold from_option, id. rewrite drop_app_length' by (by rewrite length_replicate).
  unfold sat_sub. rewrite Z.max_r by (unfold VNET_HDR_LEN; lia).
  replace (VNET_HDR_LEN + Z.of_nat (length pkt) - VNET_HDR_LEN) with (Z.of_nat (length pkt)) by lia.
  destruct (decide (Z.of_nat (length pkt) ≤ buf_len)).
  - rewrite Z.min_l, Nat2Z.id, take_app_length by done. rewrite take_ge by lia. done.
  - rewrite Z.min_r by lia. by rewrite take_app_le by lia.
Qed.

(** Eight buffers, as [init_device] provides, and eight packets received. *)
Definition demo_rx : rx :=
  mkRx (prefill ((λ i, 2147500032 + 4096 * i) <$> seqZ 0 8) (vq_new QUEUE_SIZE)) (mkDev 0 []) ∅.
Definition demo_burst : rx := fold_left (λ r i, packet_arrives [i; i; i] r) (seqZ 1 8) demo_rx.

(** Receiving, when packets keep arriving: [recv] gives the buffer back to the
    device before it has copied the packet out.  With the eight buffers the driver
    has, a ninth packet arriving in that window overwrites the first: the caller gets
    the ninth packet instead of the first, which is lost, and later the ninth again. *)
Theorem recv_races :
  (recv 1514 id demo_burst).1 = [1; 1; 1] ∧
  (recv 1514 (packet_arrives [9; 9; 9]) demo_burst).1 = [9; 9; 9] ∧
  (let all := fold_left (λ '(got, r) _, let '(p, r') := recv 1514 id r in (got ++ [p], r'))
     (seq 0 8) ([], (recv 1514 (packet_arrives [9; 9; 9]) demo_burst).2) in
   all.1 = (λ i, [i; i; i]) <$> seqZ 2 8).
Proof. vm_compute. split_and!; reflexivity. Qed.

(** ** Concrete runs *)

Definition demo_chain : list buffer := [(4096, 16, false); (8192, 512, true)].

Lemma demo_run :
  run (mkSys (vq_new 4) (mkDev 0 []) []) [Enqueue demo_chain (Ok 3%nat)]
    (mkSys (enqueue_chain demo_chain (vq_new 4)).2 (mkDev 0 []) []).
Proof. apply (run_snoc _ [] _ _ _ (run_nil _)). constructor; [done|]. vm_compute. reflexivity. Qed.

Lemma good_size_4 : good_size 4.
Proof. split; [lia|]. by exists 16384. Qed.

Lemma virtqueue_simulates_witness :
  ∃ a' m', astep (aq_new 4) (Enqueue demo_chain (Ok 3%nat)) a' ∧
    rel (mkSys (enqueue_chain demo_chain (vq_new 4)).2 (mkDev 0 []) []) a' m'.
Proof.
  refine (virtqueue_simulates _ _ _ _ _ (new_rel 4 good_size_4) _).
  constructor; [done|]. vm_compute. reflexivity.
Defined.

Lemma virtqueue_fifo_witness :
  ∃ s' a m, rel s' a m ∧ waiting_parts a = [(3%nat, [(4096, 16); (8192, 512)])].
Proof.
  destruct (virtqueue_fifo 4 _ _ good_size_4 demo_run) as (a & m & R & H1 & _).
  eexists _, a, m. split; [exact R|]. exact (eq_sym H1).
Defined.

(** One buffer, and one packet received in it. *)
Definition demo_one : rx :=
  packet_arrives [7; 7; 7] (mkRx (enqueue_chain [(4096, 4096, true)] (vq_new 4)).2 (mkDev 0 []) ∅).
Definition demo_one_aq : aqueue := mkAq 3 {[3%nat := [(4096, 4096, true)]]} [] [] [(3%nat, 13)] [].

Lemma demo_oldest : oldest_packet demo_one demo_one_aq {[3%nat := [3%nat]]} 3 4096 [7; 7; 7].
Proof.
  split; [|split; [by eexists|split; [done|exists []; vm_compute; reflexivity]]].
  split; try (vm_compute; reflexivity); try (vm_compute; intuition congruence).
  - apply good_size_4.
  - change (free_list (sq _)) with [2; 1; 0]%nat. unfold all_ids. rewrite map_to_list_singleton.
    cbn. solve_Permutation.
  - cbn [a_chains demo_one_aq]. intros h b [<- <-]%lookup_singleton_Some. exists [3%nat]. split_and!; [done|done|vm_compute; reflexivity].
  - intros h [ids [<- _]%lookup_singleton_Some]. by eexists.
  - intros [|k] x; [intros [= <-]; vm_compute; reflexivity|done].
Qed.

Lemma recv_delivers_witness :
  ∃ r', recv 2 id demo_one = ([7; 7], r') ∧ pages r' = pages demo_one.
Proof.
  destruct (recv_delivers demo_one _ _ _ _ _ 2 demo_oldest ltac:(lia))
    as (r' & h' & a' & m' & E & _ & _ & _ & _ & Hp).
  exists r'. split; [exact E|exact Hp].
Defined.
