(* ===== verification/Term.v ===== *)
(** * Console output of the shell (user/sh/src/main.rs)

    The functions that write text, numbers and cursor movements, and a terminal that
    understands what they write.  The terminal is not part of the repository: [term_byte]
    states the documented behaviour of an ANSI terminal for the sequences the shell uses,
    on one line of unbounded width. *)

From Stdlib Require Import ZArith Lia Ascii.
From stdpp Require Import prelude strings.
From S2P Require Import Prelude.

Local Open Scope Z_scope.

(** A byte string literal. *)
Definition bs (s : string) : list Z := (λ a, Z.of_N (N_of_ascii a)) <$> String.list_ascii_of_string s.

(** ** Input and output of a program *)

Record io : Type := mkIo { inp : list Z; out : list Z }.

Definition wrt (s : list Z) : M io unit := modify (λ w, mkIo (inp w) (out w ++ s)).

(** [read_raw_byte] yields until a byte has been typed; at the end of the input it
    waits. *)
Definition waits : string := "waits for input".
Definition read_raw_byte : M io Z := λ w,
  match inp w with
  | [] => (Err waits, w)
  | c :: cs => (Ok c, mkIo cs (out w))
  end.

(** ** Numbers *)

(** The digits of [n], the last one first; a [usize] has at most 20. *)
Fixpoint digits_rev (fuel : nat) (n : Z) : list Z :=
  match fuel with
  | O => []
  | S f => if n =? 0 then [] else 48 + n mod 10 :: digits_rev f (n / 10)
  end.

Definition dec_digits (n : Z) : list Z := if n =? 0 then [48] else rev (digits_rev 20 n).

Definition wrt_num (n : Z) : M io unit := wrt (dec_digits n).

Definition out_of_range : string := "index out of bounds".

(** [fmt_decimal] into a slice with room for [room] bytes. *)
Definition fmt_decimal (room : nat) (n : Z) : M io (list Z) :=
  let d := dec_digits n in if (room <? length d)%nat then panic out_of_range else mret d.

(** The sequence is built in an array of eight bytes. *)
Definition move_left (n : nat) : M io unit :=
  if (n =? 0)%nat then mret tt
  else
    d ← fmt_decimal 6 (Z.of_nat n);
    if (2 + length d <? 8)%nat then wrt ([27; 91] ++ d ++ [68]) else panic out_of_range.

(** In an array of sixteen bytes. *)
Definition move_cursor (row col : Z) : M io unit :=
  r ← fmt_decimal 14 row;
  if negb (2 + length r <? 16)%nat then panic out_of_range
  else
    c ← fmt_decimal (13 - length r) col;
    if (3 + length r + length c <? 16)%nat then wrt ([27; 91] ++ r ++ [59] ++ c ++ [72])
    else panic out_of_range.

Definition RESET : list Z := [27; 91; 48; 109].
Definition BOLD : list Z := [27; 91; 49; 109].
Definition REV : list Z := [27; 91; 55; 109].
Definition GREEN : list Z := [27; 91; 51; 50; 109].
Definition CYAN : list Z := [27; 91; 51; 54; 109].
Definition YELLOW : list Z := [27; 91; 51; 51; 109].
Definition CLR : list Z := [27; 91; 48; 109; 27; 91; 51; 74; 27; 91; 50; 74; 27; 91; 72].

(** ** A terminal *)

Inductive parse_state : Type := Ground | Escape | Csi (n : Z).

(** The line of the cursor, and the cursor's column. *)
Record term : Type := mkTerm { cells : list Z; tcol : nat; mode : parse_state }.

Definition blank_term : term := mkTerm [] 0 Ground.

Definition printable (b : Z) : Prop := 32 ≤ b < 127.
#[global] Instance printable_dec b : Decision (printable b).
Proof. unfold printable. apply _. Defined.

Definition put_cell (t : term) (b : Z) : term :=
  let l := cells t ++ replicate (tcol t - length (cells t)) 32 in
  mkTerm (take (tcol t) l ++ b :: drop (S (tcol t)) l) (S (tcol t)) Ground.

Definition term_byte (t : term) (b : Z) : term :=
  match mode t with
  | Ground =>
      if b =? 27 then mkTerm (cells t) (tcol t) Escape
      else if b =? 13 then mkTerm (cells t) 0 Ground
      else if b =? 10 then mkTerm [] (tcol t) Ground
      else if decide (printable b) then put_cell t b
      else t
  | Escape => mkTerm (cells t) (tcol t) (if b =? 91 then Csi 0 else Ground)
  | Csi n =>
      if (48 <=? b) && (b <=? 57) then mkTerm (cells t) (tcol t) (Csi (10 * n + (b - 48)))
      else if b =? 68 then mkTerm (cells t) (tcol t - Z.to_nat (Z.max 1 n)) Ground
      else mkTerm (cells t) (tcol t) Ground
  end.

Definition feed (t : term) (s : list Z) : term := foldl term_byte t s.

(** ** Lemmas *)

Lemma feed_app t a b : feed t (a ++ b) = feed (feed t a) b.
Proof. apply foldl_app. Qed.

(** Text overwrites what is under it. *)
Lemma feed_text s : ∀ a r, Forall printable s →
  feed (mkTerm (a ++ r) (length a) Ground) s = mkTerm (a ++ s ++ drop (length s) r) (length a + length s) Ground.
Proof.
  induction s as [|b s IH]; intros a r Hs; cbn [feed foldl].
  { rewrite drop_0. f_equal. cbn. lia. }
  apply Forall_cons in Hs as [Hb Hs].
  assert (term_byte (mkTerm (a ++ r) (length a) Ground) b = mkTerm ((a ++ [b]) ++ drop 1 r) (length (a ++ [b])) Ground) as ->.
  { unfold term_byte. cbn [mode cells tcol]. unfold printable in Hb.
    rewrite !(proj2 (Z.eqb_neq _ _)) by lia. rewrite decide_True by done. unfold put_cell. cbn [cells tcol].
    rewrite length_app. replace (length a - _)%nat with O by lia. cbn [replicate].
    rewrite app_nil_r, take_app_length, <-(Nat.add_1_r (length a)), drop_app_add, <-app_assoc. cbn. f_equal.
    rewrite length_app. cbn. lia. }
  change (foldl term_byte ?t s) with (feed t s). rewrite IH by done. rewrite length_app, drop_drop, <-!app_assoc. cbn.
  f_equal. lia.
Qed.

Lemma feed_digits c col f : ∀ n, 0 ≤ n < 10 ^ Z.of_nat f →
  feed (mkTerm c col (Csi 0)) (rev (digits_rev f n)) = mkTerm c col (Csi n).
Proof.
  induction f as [|f IH]; intros n Hn; cbn [digits_rev].
  { cbn in Hn. cbn. do 2 f_equal. lia. }
  destruct (Z.eqb_spec n 0) as [->|Hne]; [done|]. cbn [rev]. rewrite feed_app, IH.
  - pose proof (Z.mod_pos_bound n 10 ltac:(lia)). cbn [feed foldl]. unfold term_byte. cbn [mode cells tcol].
    rewrite !(proj2 (Z.leb_le _ _)) by lia. cbn [andb]. do 2 f_equal. Z.div_mod_to_equations; lia.
  - rewrite Nat2Z.inj_succ, Z.pow_succ_r in Hn by lia. Z.div_mod_to_equations; lia.
Qed.

Lemma length_digits_rev m : ∀ f n, 0 ≤ n < 10 ^ Z.of_nat m → (length (digits_rev f n) ≤ m)%nat.
Proof.
  induction m as [|m IH]; intros [|f] n Hn; cbn [digits_rev length]; try lia.
  { cbn in Hn. replace n with 0 by lia. cbn. lia. }
  destruct (Z.eqb_spec n 0); [cbn; lia|]. cbn [length]. apply le_n_S, IH.
  rewrite Nat2Z.inj_succ, Z.pow_succ_r in Hn by lia. Z.div_mod_to_equations; lia.
Qed.

Lemma length_dec m n : (0 < m)%nat → 0 ≤ n < 10 ^ Z.of_nat m → (length (dec_digits n) ≤ m)%nat.
Proof.
  intros Hm Hn. unfold dec_digits. destruct (n =? 0); [cbn; lia|]. rewrite length_rev. by apply length_digits_rev.
Qed.

(** Longest cursor movement whose sequence fits. *)
Definition MAX_MOVE : nat := Z.to_nat 100000.

Lemma max_move_eq : Z.of_nat MAX_MOVE = 100000.
Proof. unfold MAX_MOVE. rewrite Z2Nat.id; lia. Qed.

#[global] Opaque MAX_MOVE.

(** The bytes of a cursor movement. *)
Definition left_seq (n : nat) : list Z :=
  if (n =? 0)%nat then [] else [27; 91] ++ dec_digits (Z.of_nat n) ++ [68].

Lemma move_left_ok n w : (n < MAX_MOVE)%nat → move_left n w = wrt (left_seq n) w.
Proof.
  intros Hn. pose proof max_move_eq. unfold move_left, left_seq. destruct (Nat.eqb_spec n 0).
  { unfold wrt, modify, mret, M_ret. rewrite app_nil_r. by destruct w. }
  pose proof (length_dec 5 (Z.of_nat n) ltac:(lia) ltac:(lia)) as Hl. unfold fmt_decimal.
  cbv zeta. rewrite (proj2 (Nat.ltb_ge _ _)) by lia. unfold mbind, M_bind, mret, M_ret. cbv beta iota.
  rewrite (proj2 (Nat.ltb_lt _ _)) by lia. done.
Qed.

Lemma feed_left c col n : (n < MAX_MOVE)%nat →
  feed (mkTerm c col Ground) (left_seq n) = mkTerm c (col - n) Ground.
Proof.
  intros Hn. pose proof max_move_eq. unfold left_seq. destruct (Nat.eqb_spec n 0) as [->|Hne].
  { cbn. f_equal. lia. }
  rewrite feed_app. change (feed _ [27; 91]) with (mkTerm c col (Csi 0)). rewrite feed_app.
  unfold dec_digits. rewrite (proj2 (Z.eqb_neq _ _)) by lia. rewrite feed_digits by lia.
  cbn [feed foldl]. unfold term_byte. cbn. f_equal. lia.
Qed.

(** Colours change nothing that is shown. *)
Lemma feed_colours c col :
  Forall (λ s, feed (mkTerm c col Ground) s = mkTerm c col Ground) [RESET; BOLD; REV; GREEN; CYAN; YELLOW].
Proof. repeat (apply Forall_cons_2; [done|]). apply Forall_nil_2. Qed.
