(* ===== verification/Nano.v ===== *)
(** * The text editor of the shell (user/sh/src/main.rs, [NanoEditor])

    The editor's operations, with [Vec] accesses out of range as panics, what it draws,
    and how it loads and saves files.  The other parts of the system it calls are
    arguments: the bytes typed, the contents read from the file and the descriptor
    [create] returns.

    [nano_refines] relates the editor to a text with a cursor between two characters;
    [nano_save_load] says that loading a saved file gives the same lines;
    [nano_run_safe] and [nano_kill_line_panics] say when it can panic. *)

From Stdlib Require Import ZArith Lia.
From stdpp Require Import prelude strings.
From S2P Require Import Prelude Term.

Local Open Scope Z_scope.

Definition TERM_ROWS : nat := 24.
Definition TERM_COLS : nat := 80.
Definition CONTENT_ROWS : nat := 21.

Inductive NanoKey : Type :=
  | Char (c : Z) | Enter | Backspace | Delete | Up | Down | Left | Right | Home | End
  | PageUp | PageDown | CtrlO | CtrlX | CtrlK | Other.

(** What follows an escape byte; three sequences have one byte more. *)
Definition read_escape : M io NanoKey :=
  b1 ← read_raw_byte;
  if negb (b1 =? 91) then mret Other
  else
    b2 ← read_raw_byte;
    if b2 =? 65 then mret Up
    else if b2 =? 66 then mret Down
    else if b2 =? 67 then mret Right
    else if b2 =? 68 then mret Left
    else if b2 =? 72 then mret Home
    else if b2 =? 70 then mret End
    else if b2 =? 51 then read_raw_byte ;; mret Delete
    else if b2 =? 53 then read_raw_byte ;; mret PageUp
    else if b2 =? 54 then read_raw_byte ;; mret PageDown
    else mret Other.

Definition read_key : M io NanoKey :=
  c ← read_raw_byte;
  if c =? 27 then read_escape
  else if c =? 15 then mret CtrlO
  else if c =? 24 then mret CtrlX
  else if c =? 11 then mret CtrlK
  else if (c =? 127) || (c =? 8) then mret Backspace
  else if (c =? 13) || (c =? 10) then mret Enter
  else if 32 <=? c then mret (Char c)
  else mret Other.

(** ** The editor *)

Record nano : Type := mkNano {
  filename : list Z;
  lines : list (list Z);
  row : nat;
  col : nat;
  scroll : nat;
  modified : bool;
  msg : list Z;
}.

Definition set_lines (ls : list (list Z)) (n : nano) : nano :=
  mkNano (filename n) ls (row n) (col n) (scroll n) (modified n) (msg n).
Definition set_pos (r c : nat) (n : nano) : nano :=
  mkNano (filename n) (lines n) r c (scroll n) (modified n) (msg n).
Definition set_col (c : nat) (n : nano) : nano := set_pos (row n) c n.
Definition set_scroll (s : nat) (n : nano) : nano :=
  mkNano (filename n) (lines n) (row n) (col n) s (modified n) (msg n).
Definition set_modified (b : bool) (n : nano) : nano :=
  mkNano (filename n) (lines n) (row n) (col n) (scroll n) b (msg n).
Definition set_msg (m : list Z) (n : nano) : nano :=
  mkNano (filename n) (lines n) (row n) (col n) (scroll n) (modified n) m.

(** The loop over the bytes of a file: the lines ended, and the one begun. *)
Fixpoint split_lines (content cur : list Z) : list (list Z) :=
  match content with
  | [] => if bool_decide (cur = []) then [] else [cur]
  | b :: rest => if b =? 10 then cur :: split_lines rest [] else split_lines rest (cur ++ [b])
  end.

(** [content] is what reading the file gives, [None] if it cannot be opened. *)
Definition nano_new (name : list Z) (content : option (list Z)) : nano :=
  let ls := match content with Some c => split_lines c [] | None => [] end in
  mkNano name (if bool_decide (ls = []) then [[]] else ls) 0 0 0 false [].

(** The editor, and what it wrote to which descriptor. *)
Record session : Type := mkSession { ed : nano; written : list (Z * list Z) }.

Definition upd (f : nano → nano) : M session unit := modify (λ s, mkSession (f (ed s)) (written s)).
Definition write (fd : Z) (b : list Z) : M session unit :=
  modify (λ s, mkSession (ed s) (written s ++ [(fd, b)])).

(** ** [Vec] accesses *)

Definition line_at (i : nat) : M session (list Z) :=
  l ← gets (λ s, lines (ed s) !! i);
  match l with Some x => mret x | None => panic out_of_range end.

Definition set_line (i : nat) (l : list Z) : M session unit :=
  upd (λ n, set_lines (<[i := l]> (lines n)) n).

Definition vec_remove {A} (i : nat) (l : list A) : M session (A * list A) :=
  match l !! i with
  | Some x => mret (x, delete i l)
  | None => panic "removal index should be < len"
  end.

Definition vec_insert {A} (i : nat) (x : A) (l : list A) : M session (list A) :=
  if (i <=? length l)%nat then mret (take i l ++ x :: drop i l)
  else panic "insertion index should be <= len".

Definition split_off {A} (i : nat) (l : list A) : M session (list A * list A) :=
  if (i <=? length l)%nat then mret (take i l, drop i l)
  else panic "at split index should be <= len".

(** [self.lines.remove(i)]. *)
Definition remove_line (i : nat) : M session (list Z) :=
  ls ← gets (λ s, lines (ed s));
  '(x, ls') ← vec_remove i ls;
  upd (set_lines ls') ;;
  mret x.

(** ** Operations *)

Definition adjust_scroll (n : nano) : nano :=
  if (row n <? scroll n)%nat then set_scroll (row n) n
  else if (scroll n + CONTENT_ROWS <=? row n)%nat then set_scroll (row n + 1 - CONTENT_ROWS) n
  else n.

Definition clamp_col : M session unit :=
  n ← gets ed;
  l ← line_at (row n);
  if (length l <? col n)%nat then upd (set_col (length l)) else mret tt.

(** The lines one by one, each but the last followed by a newline of its own. *)
Fixpoint write_lines (fd : Z) (ls : list (list Z)) : M session unit :=
  match ls with
  | [] => mret tt
  | l :: ls' =>
      write fd l ;;
      (if bool_decide (ls' = []) then mret tt else write fd [10]) ;;
      write_lines fd ls'
  end.

Definition save (create : list Z → Z) : M session unit :=
  n ← gets ed;
  let fd := create (filename n) in
  if fd <? 0 then upd (set_msg (bs "Error: cannot write file!"))
  else
    write_lines fd (lines n) ;;
    write fd [10] ;;
    upd (λ n, set_msg (bs "File written.") (set_modified false n)).

Definition kill_line : M session unit :=
  n ← gets ed;
  remove_line (row n) ;;
  upd (λ n, if bool_decide (lines n = []) then set_lines [[]] n else n) ;;
  upd (λ n, if (length (lines n) <=? row n)%nat then set_pos (length (lines n) - 1) (col n) n else n) ;;
  clamp_col ;;
  upd (set_modified true).

(** Moving to another row: [f] gives the row. *)
Definition to_row (f : nano → nat) : M session unit :=
  upd (λ n, set_pos (f n) (col n) n) ;;
  clamp_col ;;
  upd adjust_scroll.

Definition go_left : M session unit :=
  n ← gets ed;
  if (0 <? col n)%nat then upd (set_col (col n - 1))
  else if (0 <? row n)%nat then
    l ← line_at (row n - 1);
    upd (λ n, adjust_scroll (set_pos (row n - 1) (length l) n))
  else mret tt.

Definition go_right : M session unit :=
  n ← gets ed;
  l ← line_at (row n);
  if (col n <? length l)%nat then upd (set_col (col n + 1))
  else if (row n + 1 <? length (lines n))%nat then upd (λ n, adjust_scroll (set_pos (row n + 1) 0 n))
  else mret tt.

Definition end_of_line : M session unit :=
  n ← gets ed; l ← line_at (row n); upd (set_col (length l)).

Definition enter : M session unit :=
  n ← gets ed;
  l ← line_at (row n);
  '(l', rest) ← split_off (col n) l;
  set_line (row n) l' ;;
  ls ← gets (λ s, lines (ed s));
  ls' ← vec_insert (row n + 1) rest ls;
  upd (λ n, set_modified true (adjust_scroll (set_pos (row n + 1) 0 (set_lines ls' n)))).

Definition backspace : M session unit :=
  n ← gets ed;
  if (0 <? col n)%nat then
    upd (set_col (col n - 1)) ;;
    l ← line_at (row n);
    '(_, l') ← vec_remove (col n - 1) l;
    set_line (row n) l' ;;
    upd (set_modified true)
  else if (0 <? row n)%nat then
    cur ← remove_line (row n);
    l ← line_at (row n - 1);
    upd (set_pos (row n - 1) (length l)) ;;
    set_line (row n - 1) (l ++ cur) ;;
    upd adjust_scroll ;;
    upd (set_modified true)
  else mret tt.

Definition delete_char : M session unit :=
  n ← gets ed;
  l ← line_at (row n);
  if (col n <? length l)%nat then
    '(_, l') ← vec_remove (col n) l;
    set_line (row n) l' ;;
    upd (set_modified true)
  else if (row n + 1 <? length (lines n))%nat then
    next ← remove_line (row n + 1);
    l ← line_at (row n);
    set_line (row n) (l ++ next) ;;
    upd (set_modified true)
  else mret tt.

Definition insert_char (c : Z) : M session unit :=
  n ← gets ed;
  l ← line_at (row n);
  l' ← vec_insert (col n) c l;
  set_line (row n) l' ;;
  upd (λ n, set_modified true (set_col (col n + 1) n)).

(** [handle] returns false when the editor is left. *)
Definition handle (create : list Z → Z) (key : NanoKey) : M session bool :=
  upd (set_msg []) ;;
  match key with
  | CtrlX => mret false
  | CtrlO => save create ;; mret true
  | CtrlK => kill_line ;; mret true
  | Up => n ← gets ed; (if (0 <? row n)%nat then to_row (λ n, (row n - 1)%nat) else mret tt) ;; mret true
  | Down => n ← gets ed; (if (row n + 1 <? length (lines n))%nat then to_row (λ n, (row n + 1)%nat) else mret tt) ;; mret true
  | Left => go_left ;; mret true
  | Right => go_right ;; mret true
  | Home => upd (set_col 0) ;; mret true
  | End => end_of_line ;; mret true
  | PageUp => to_row (λ n, (row n - CONTENT_ROWS)%nat) ;; mret true
  | PageDown => to_row (λ n, Nat.min (row n + CONTENT_ROWS) (length (lines n) - 1)) ;; mret true
  | Enter => enter ;; mret true
  | Backspace => backspace ;; mret true
  | Delete => delete_char ;; mret true
  | Char c => insert_char c ;; mret true
  | Other => mret true
  end.

(** ** Drawing *)

Definition pad_line (used : nat) : M io unit :=
  for_each (replicate (TERM_COLS - used) tt) (λ _, wrt [32]) ;; wrt RESET.

Definition draw_row (n : nano) (i : nat) : M io unit :=
  move_cursor (Z.of_nat i + 2) 1 ;;
  wrt [27; 91; 75] ;;
  match lines n !! (scroll n + i)%nat with
  | Some l => wrt (take (Nat.min (length l) TERM_COLS) l)
  | None => mret tt
  end.

(** The row of the cursor is computed with wrap-around. *)
Definition render (n : nano) : M io unit :=
  wrt (27 :: bs "[?25l") ;;
  wrt CLR ;;
  move_cursor 1 1 ;;
  wrt REV ;;
  wrt BOLD ;;
  wrt (bs "  openv nano 0.1   ") ;;
  wrt (filename n) ;;
  (if modified n then wrt (bs "  [Modified]") else mret tt) ;;
  pad_line (19 + length (filename n) + if modified n then 12 else 0) ;;
  for_each (seq 0 CONTENT_ROWS) (draw_row n) ;;
  move_cursor (Z.of_nat TERM_ROWS - 1) 1 ;;
  wrt [27; 91; 75] ;;
  (if bool_decide (msg n = []) then
     wrt (bs "Ln ") ;; wrt_num (Z.of_nat (row n + 1)) ;; wrt (bs ", Col ") ;; wrt_num (Z.of_nat (col n + 1))
   else wrt YELLOW ;; wrt (msg n) ;; wrt RESET) ;;
  move_cursor (Z.of_nat TERM_ROWS) 1 ;;
  wrt REV ;;
  wrt (bs "  ^O Write   ^X Exit   ^K Del Line   Arrows: move   Home/End") ;;
  pad_line 61 ;;
  move_cursor (wrap 64 (Z.of_nat (row n) - Z.of_nat (scroll n) + 2)) (Z.of_nat (col n + 1)) ;;
  wrt (27 :: bs "[?25h").

(** A computation on a part of the state. *)
Definition on_ed {A} (c : M session A) : M (session * io) A := λ '(s, w),
  let '(r, s') := c s in (r, (s', w)).
Definition on_io {A} (c : M io A) : M (session * io) A := λ '(s, w),
  let '(r, w') := c w in (r, (s, w')).

(** [run]: every turn reads a byte, so more turns than bytes end in waiting. *)
Fixpoint run_loop (create : list Z → Z) (fuel : nat) : M (session * io) unit :=
  match fuel with
  | O => fail waits
  | S f =>
      n ← gets (λ '(s, _), ed s);
      on_io (render n) ;;
      key ← on_io read_key;
      go ← on_ed (handle create key);
      if (go : bool) then run_loop create f else mret tt
  end.

Definition run (create : list Z → Z) : M (session * io) unit :=
  w ← gets snd;
  run_loop create (S (length (inp w))) ;;
  on_io (wrt CLR).

(** ** The text and the cursor *)

(** The cursor is between [x] and [y], in a line after [pre] and before [post]. *)
Definition at_cursor (n : nano) (pre : list (list Z)) (x y : list Z) (post : list (list Z)) : Prop :=
  lines n = pre ++ (x ++ y) :: post ∧ row n = length pre ∧ col n = length x.

Definition one_line (l : list Z) : Prop := 10 ∉ l.

(** The editor's invariant: the cursor is in a line, no line contains a newline. *)
Definition nano_ok (n : nano) : Prop :=
  (∃ l, lines n !! row n = Some l ∧ (col n ≤ length l)%nat) ∧ Forall one_line (lines n).

Definition ended (ls : list (list Z)) : list Z := concat ((λ l, l ++ [10]) <$> ls).
Definition begun (ls : list (list Z)) : list Z := concat ((λ l, 10 :: l) <$> ls).

(** The text before and after the cursor. *)
Definition before (n : nano) : list Z :=
  ended (take (row n) (lines n)) ++ take (col n) (default [] (lines n !! row n)).
Definition after (n : nano) : list Z :=
  drop (col n) (default [] (lines n !! row n)) ++ begun (drop (S (row n)) (lines n)).

(** What a key does to the text before ([b]) and after ([a]) the cursor. *)
Definition edits (k : NanoKey) (b a b' a' : list Z) : Prop :=
  match k with
  | Char c => b' = b ++ [c] ∧ a' = a
  | Enter => b' = b ++ [10] ∧ a' = a
  | Backspace => b' = take (length b - 1) b ∧ a' = a
  | Delete => b' = b ∧ a' = tail a
  | Left => b' = take (length b - 1) b ∧ b' ++ a' = b ++ a
  | Right => a' = tail a ∧ b' ++ a' = b ++ a
  | Home => ∃ x, b = b' ++ x ∧ a' = x ++ a ∧ one_line x ∧ (b' = [] ∨ last b' = Some 10)
  | End => ∃ y, a = y ++ a' ∧ b' = b ++ y ∧ one_line y ∧ (a' = [] ∨ head a' = Some 10)
  | Up | Down | PageUp | PageDown => b' ++ a' = b ++ a
  | CtrlK => ∃ u x y v, b = u ++ x ∧ a = y ++ v ∧ one_line (x ++ y) ∧
      (u = [] ∨ last u = Some 10) ∧ (v = [] ∨ head v = Some 10) ∧
      b' ++ a' = if bool_decide (v = []) then take (length u - 1) u else u ++ tail v
  | CtrlO | CtrlX | Other => b' = b ∧ a' = a
  end.

Lemma nano_ok_at n : nano_ok n →
  ∃ pre x y post, at_cursor n pre x y post ∧ Forall one_line pre ∧ one_line (x ++ y) ∧ Forall one_line post.
Proof.
  intros [(l & Hl & Hc) Hf]. exists (take (row n) (lines n)), (take (col n) l), (drop (col n) l), (drop (S (row n)) (lines n)).
  rewrite take_drop. split_and!; [split_and!| | |].
  - by rewrite take_drop, take_drop_middle.
  - rewrite length_take. apply lookup_lt_Some in Hl. lia.
  - rewrite length_take. lia.
  - by apply Forall_take.
  - exact (Forall_lookup_1 _ _ _ _ Hf Hl).
  - by apply Forall_drop.
Qed.

Lemma at_nano_ok n pre x y post :
  at_cursor n pre x y post → Forall one_line pre → one_line (x ++ y) → Forall one_line post → nano_ok n.
Proof.
  intros (Hl & Hr & Hc) H1 H2 H3. split.
  - exists (x ++ y). rewrite Hl, Hr, list_lookup_middle, Hc, length_app by done. split; [done|lia].
  - rewrite Hl, Forall_app, Forall_cons. done.
Qed.

Lemma at_text n pre x y post : at_cursor n pre x y post → before n = ended pre ++ x ∧ after n = y ++ begun post.
Proof.
  intros (Hl & Hr & Hc). unfold before, after. rewrite Hl, Hr, Hc, list_lookup_middle by done. cbn [default from_option id].
  rewrite take_app_length, take_app_length, drop_app_length, <-Nat.add_1_r, drop_app_add. done.
Qed.

(** ** The operations on the text *)

Lemma adjust_same n : lines (adjust_scroll n) = lines n ∧ row (adjust_scroll n) = row n ∧ col (adjust_scroll n) = col n.
Proof. unfold adjust_scroll. destruct (_ <? _)%nat; [done|]. by destruct (_ <=? _)%nat. Qed.

Lemma at_adjust n pre x y post : at_cursor n pre x y post → at_cursor (adjust_scroll n) pre x y post.
Proof. unfold at_cursor. destruct (adjust_same n) as (-> & -> & ->). done. Qed.

Lemma line_at_ok s i l : lines (ed s) !! i = Some l → line_at i s = (Ok l, s).
Proof. intros H. unfold line_at. erewrite bind_ok by reflexivity. cbv beta. by rewrite H. Qed.

Lemma at_line s pre x y post : at_cursor (ed s) pre x y post → line_at (row (ed s)) s = (Ok (x ++ y), s).
Proof. intros (Hl & Hr & _). apply line_at_ok. by rewrite Hl, Hr, list_lookup_middle. Qed.

Lemma delete_mid {A} (l1 l2 : list A) x : delete (length l1) (l1 ++ x :: l2) = l1 ++ l2.
Proof. by apply delete_middle. Qed.

Lemma vec_remove_mid {A} (a b : list A) c s : vec_remove (length a) (a ++ c :: b) s = (Ok (c, a ++ b), s).
Proof. unfold vec_remove. by rewrite list_lookup_middle, delete_mid by done. Qed.

Lemma vec_insert_mid {A} (a b : list A) c s : vec_insert (length a) c (a ++ b) s = (Ok (a ++ c :: b), s).
Proof.
  unfold vec_insert. rewrite (proj2 (Nat.leb_le _ _)) by (rewrite length_app; lia).
  by rewrite take_app_length, drop_app_length.
Qed.

Lemma remove_line_mid s (a b : list (list Z)) l :
  lines (ed s) = a ++ l :: b → remove_line (length a) s = (Ok l, mkSession (set_lines (a ++ b) (ed s)) (written s)).
Proof.
  intros H. unfold remove_line. erewrite bind_ok by reflexivity. cbv beta. rewrite H.
  by erewrite bind_ok by apply vec_remove_mid.
Qed.

(** An operation leads from one cursor to another. *)
Definition leads (c : M session unit) (s : session) (pre : list (list Z)) (x y : list Z) (post : list (list Z)) : Prop :=
  ∃ n', c s = (Ok tt, mkSession n' (written s)) ∧ at_cursor n' pre x y post.

Section ops.
Context (s : session) (pre : list (list Z)) (x y : list Z) (post : list (list Z)).
Hypothesis Hat : at_cursor (ed s) pre x y post.

Lemma at_row : row (ed s) = length pre.
Proof. apply Hat. Qed.
Lemma at_col : col (ed s) = length x.
Proof. apply Hat. Qed.
Lemma at_lines : lines (ed s) = pre ++ (x ++ y) :: post.
Proof. apply Hat. Qed.
Lemma at_set_line l : <[row (ed s) := l]> (lines (ed s)) = pre ++ l :: post.
Proof. rewrite at_row, at_lines. by rewrite insert_app_r_alt, Nat.sub_diag by lia. Qed.

Lemma insert_char_at c : leads (insert_char c) s pre (x ++ [c]) y post.
Proof.
  unfold leads, insert_char. erewrite bind_ok by reflexivity. cbv beta.
  erewrite bind_ok by (eapply at_line; exact Hat). cbv beta. rewrite at_col.
  erewrite bind_ok by apply vec_insert_mid. cbv beta. erewrite bind_ok by reflexivity.
  eexists. split; [reflexivity|]. unfold at_cursor. cbn. rewrite at_set_line, at_row, at_col, length_app, <-app_assoc. done.
Qed.

Lemma enter_at : leads enter s (pre ++ [x]) [] y post.
Proof.
  unfold leads, enter. erewrite bind_ok by reflexivity. cbv beta.
  erewrite bind_ok by (eapply at_line; exact Hat). cbv beta. unfold split_off. rewrite at_col.
  rewrite (proj2 (Nat.leb_le _ _)) by (rewrite length_app; lia). rewrite take_app_length, drop_app_length.
  erewrite bind_ok by reflexivity. cbv beta iota. erewrite bind_ok by reflexivity. erewrite bind_ok by reflexivity.
  cbv beta. cbn [ed lines set_lines]. rewrite at_set_line, at_row.
  replace (length pre + 1)%nat with (length (pre ++ [x])) by (rewrite length_app; cbn; lia).
  replace (pre ++ x :: post) with ((pre ++ [x]) ++ post) by (by rewrite <-app_assoc).
  erewrite bind_ok by apply vec_insert_mid. eexists. split; [reflexivity|].
  match goal with |- at_cursor (set_modified true ?n) _ _ _ _ => change (at_cursor n (pre ++ [x]) [] y post) end.
  apply at_adjust. unfold at_cursor. cbn. rewrite at_row, length_app. done.
Qed.

Lemma home_at : leads (upd (set_col 0)) s pre [] (x ++ y) post.
Proof. eexists. split; [reflexivity|]. unfold at_cursor. cbn. by rewrite at_row, at_lines. Qed.

Lemma end_at : leads end_of_line s pre (x ++ y) [] post.
Proof.
  unfold leads, end_of_line. erewrite bind_ok by reflexivity. cbv beta. erewrite bind_ok by (eapply at_line; exact Hat).
  eexists. split; [reflexivity|]. unfold at_cursor. cbn. by rewrite at_row, at_lines, app_nil_r.
Qed.
End ops.

Lemma middle_set {A} (a b : list A) x x' : <[length a := x']> (a ++ x :: b) = a ++ x' :: b.
Proof. by rewrite insert_app_r_alt, Nat.sub_diag by lia. Qed.

Ltac gets_step := erewrite bind_ok by reflexivity; cbv beta.

(** Before the first column: inside the line, at its start, at the start of the text. *)
Lemma backspace_char s pre x c y post :
  at_cursor (ed s) pre (x ++ [c]) y post → leads backspace s pre x y post.
Proof.
  intros (Hl & Hr & Hc). unfold leads, backspace. gets_step. rewrite Hc, length_app. cbn [length].
  rewrite (proj2 (Nat.ltb_lt _ _)) by lia. gets_step. replace (length x + 1 - 1)%nat with (length x) by lia.
  erewrite bind_ok by (apply line_at_ok; cbn; rewrite Hl, Hr, list_lookup_middle by done; reflexivity).
  cbv beta. rewrite <-app_assoc. erewrite bind_ok by apply vec_remove_mid. cbv beta iota. gets_step.
  eexists. split; [reflexivity|]. unfold at_cursor. cbn. by rewrite Hl, Hr, middle_set.
Qed.

Lemma backspace_join s pre l y post :
  at_cursor (ed s) (pre ++ [l]) [] y post → leads backspace s pre l y post.
Proof.
  intros (Hl & Hr & Hc). unfold leads, backspace. gets_step. rewrite Hc, Hr, length_app. cbn [length].
  change (0 <? 0)%nat with false. cbv iota. rewrite (proj2 (Nat.ltb_lt _ _)) by lia.
  erewrite bind_ok. 2: { replace (length pre + 1)%nat with (length (pre ++ [l])) by (rewrite length_app; cbn; lia).
    by apply remove_line_mid. }
  cbv beta. replace (length pre + 1 - 1)%nat with (length pre) by lia.
  erewrite bind_ok by (apply line_at_ok; cbn; rewrite <-app_assoc; by apply list_lookup_middle). cbv beta.
  gets_step. gets_step. gets_step. eexists. split; [reflexivity|].
  match goal with |- at_cursor (set_modified true ?n) _ _ _ _ => change (at_cursor n pre l y post) end.
  apply at_adjust. unfold at_cursor. cbn. rewrite <-app_assoc. cbn. by rewrite middle_set.
Qed.

Lemma delete_char_at s pre x c y post :
  at_cursor (ed s) pre x (c :: y) post → leads delete_char s pre x y post.
Proof.
  intros Hat. pose proof Hat as (Hl & Hr & Hc). unfold leads, delete_char. gets_step.
  erewrite bind_ok by (eapply at_line; exact Hat). cbv beta. rewrite Hc.
  rewrite (proj2 (Nat.ltb_lt _ _)) by (rewrite length_app; cbn; lia).
  erewrite bind_ok by apply vec_remove_mid. cbv beta iota. gets_step. eexists. split; [reflexivity|].
  unfold at_cursor. cbn. by rewrite Hl, Hr, middle_set.
Qed.

Lemma delete_join s pre x l post :
  at_cursor (ed s) pre x [] (l :: post) → leads delete_char s pre x l post.
Proof.
  intros Hat. pose proof Hat as (Hl & Hr & Hc). rewrite app_nil_r in Hl. unfold leads, delete_char. gets_step.
  erewrite bind_ok by (eapply at_line; exact Hat). cbv beta. rewrite app_nil_r, Hc, Nat.ltb_irrefl.
  rewrite (proj2 (Nat.ltb_lt _ _)) by (rewrite Hl, Hr, length_app; cbn; lia). rewrite Hr.
  erewrite bind_ok. 2: { replace (length pre + 1)%nat with (length (pre ++ [x])) by (rewrite length_app; cbn; lia).
    apply remove_line_mid. rewrite Hl, <-app_assoc. done. }
  cbv beta. rewrite <-app_assoc. erewrite bind_ok by (apply line_at_ok; by apply list_lookup_middle). cbv beta.
  gets_step. eexists. split; [reflexivity|]. unfold at_cursor. cbn. by rewrite middle_set.
Qed.

Lemma go_left_char s pre x c y post :
  at_cursor (ed s) pre (x ++ [c]) y post → leads go_left s pre x (c :: y) post.
Proof.
  intros (Hl & Hr & Hc). unfold leads, go_left. gets_step. rewrite Hc, length_app. cbn [length].
  rewrite (proj2 (Nat.ltb_lt _ _)) by lia. eexists. split; [reflexivity|]. unfold at_cursor. cbn.
  rewrite Hl, Hr, <-app_assoc. split_and!; [done..|lia].
Qed.

Lemma go_left_line s pre l y post :
  at_cursor (ed s) (pre ++ [l]) [] y post → leads go_left s pre l [] (y :: post).
Proof.
  intros (Hl & Hr & Hc). unfold leads, go_left. gets_step. rewrite Hc, Hr, length_app. cbn [length].
  change (0 <? 0)%nat with false. cbv iota. rewrite (proj2 (Nat.ltb_lt _ _)) by lia.
  replace (length pre + 1 - 1)%nat with (length pre) by lia.
  erewrite bind_ok by (apply line_at_ok; rewrite Hl, <-app_assoc; by apply list_lookup_middle). cbv beta.
  eexists. split; [reflexivity|]. apply at_adjust. unfold at_cursor. cbn.
  rewrite Hl, Hr, length_app, app_nil_r, <-app_assoc. cbn. split_and!; [done|lia|done].
Qed.

Lemma go_right_char s pre x c y post :
  at_cursor (ed s) pre x (c :: y) post → leads go_right s pre (x ++ [c]) y post.
Proof.
  intros Hat. pose proof Hat as (Hl & Hr & Hc). unfold leads, go_right. gets_step.
  erewrite bind_ok by (eapply at_line; exact Hat). cbv beta. rewrite Hc.
  rewrite (proj2 (Nat.ltb_lt _ _)) by (rewrite length_app; cbn; lia). eexists. split; [reflexivity|].
  unfold at_cursor. cbn. rewrite Hl, Hr, length_app, <-app_assoc. done.
Qed.

Lemma go_right_line s pre x l post :
  at_cursor (ed s) pre x [] (l :: post) → leads go_right s (pre ++ [x]) [] l post.
Proof.
  intros Hat. pose proof Hat as (Hl & Hr & Hc). rewrite app_nil_r in Hl. unfold leads, go_right. gets_step.
  erewrite bind_ok by (eapply at_line; exact Hat). cbv beta. rewrite app_nil_r, Hc, Nat.ltb_irrefl.
  rewrite (proj2 (Nat.ltb_lt _ _)) by (rewrite Hl, Hr, length_app; cbn; lia). eexists. split; [reflexivity|].
  apply at_adjust. unfold at_cursor. cbn. rewrite Hl, Hr, length_app, <-app_assoc. done.
Qed.

Lemma ended_snoc ls l : ended (ls ++ [l]) = ended ls ++ l ++ [10].
Proof. unfold ended. rewrite fmap_app, concat_app. cbn. by rewrite app_nil_r. Qed.

Lemma ended_last ls : ended ls = [] ∨ last (ended ls) = Some 10.
Proof.
  destruct ls as [|l ls _] using rev_ind; [by left|right]. rewrite ended_snoc, app_assoc. apply last_snoc.
Qed.

Lemma begun_head ls : begun ls = [] ∨ head (begun ls) = Some 10.
Proof. destruct ls; [by left|by right]. Qed.

Lemma begun_nil ls : bool_decide (begun ls = []) = bool_decide (ls = []).
Proof. by destruct ls. Qed.

Lemma begun_app l ls : l ++ begun ls = join [10] (l :: ls).
Proof.
  revert l. induction ls as [|l' ls IH]; intros l; [by rewrite app_nil_r|].
  change (begun (l' :: ls)) with (10 :: l' ++ begun ls). rewrite IH. done.
Qed.

(** The whole text is the lines joined by newlines. *)
Lemma text_join pre l post : ended pre ++ l ++ begun post = join [10] (pre ++ l :: post).
Proof.
  induction pre as [|p pre IH]; [apply begun_app|].
  change (ended (p :: pre)) with ((p ++ [10]) ++ ended pre). rewrite <-!app_assoc, IH.
  cbn. by destruct pre.
Qed.

Lemma nano_text n : nano_ok n → before n ++ after n = join [10] (lines n).
Proof.
  intros H. destruct (nano_ok_at n H) as (pre & x & y & post & Hat & _).
  destruct (at_text _ _ _ _ _ Hat) as [-> ->]. destruct Hat as (-> & _).
  rewrite <-text_join, <-!app_assoc. done.
Qed.

Lemma clamp_col_ok s l : lines (ed s) !! row (ed s) = Some l →
  clamp_col s = (Ok tt, mkSession (set_col (Nat.min (col (ed s)) (length l)) (ed s)) (written s)).
Proof.
  intros Hl. unfold clamp_col. gets_step. erewrite bind_ok by (by apply line_at_ok). cbv beta.
  destruct (Nat.ltb_spec (length l) (col (ed s))) as [H|H].
  - rewrite Nat.min_r by lia. done.
  - rewrite Nat.min_l by lia. destruct s as [[] ?]. done.
Qed.

(** Moving to a row keeps the lines. *)
Lemma to_row_ok s f : Forall one_line (lines (ed s)) → (f (ed s) < length (lines (ed s)))%nat →
  ∃ n', to_row f s = (Ok tt, mkSession n' (written s)) ∧ lines n' = lines (ed s) ∧ nano_ok n'.
Proof.
  intros Hf Hr. apply lookup_lt_is_Some in Hr as [l Hl]. unfold to_row. gets_step.
  erewrite bind_ok by (apply (clamp_col_ok _ l); exact Hl). eexists. split; [reflexivity|].
  cbn [ed row col lines set_pos]. match goal with |- lines (adjust_scroll ?n) = _ ∧ _ => set (n' := n) end.
  unfold nano_ok. destruct (adjust_same n') as (-> & -> & ->). cbn. split; [done|]. split; [|done].
  exists l. split; [done|lia].
Qed.

Lemma kill_line_ok s pre x y post : at_cursor (ed s) pre x y post → Forall one_line pre → Forall one_line post →
  ∃ n', kill_line s = (Ok tt, mkSession n' (written s)) ∧ nano_ok n' ∧
    lines n' = if bool_decide (pre ++ post = []) then [[]] else pre ++ post.
Proof.
  intros (Hl & Hr & Hc) Hpre Hpost. unfold kill_line. gets_step. rewrite Hr.
  erewrite bind_ok by (by apply remove_line_mid). gets_step. gets_step. cbn [ed written].
  set (ls := if bool_decide (pre ++ post = []) then [[]] else pre ++ post).
  assert (ls ≠ []) as Hne by (unfold ls; by case_bool_decide).
  assert (length pre ≤ length ls)%nat as Hle.
  { unfold ls. case_bool_decide as H; [apply app_eq_nil in H as [-> _]; cbn; lia|rewrite length_app; lia]. }
  assert (Forall one_line ls) as Hls.
  { unfold ls. case_bool_decide; [|by apply Forall_app]. apply Forall_singleton. intros Hin. by apply elem_of_nil in Hin. }
  set (n1 := set_lines ls (ed s)).
  replace (if bool_decide (lines (set_lines (pre ++ post) (ed s)) = []) then _ else _) with n1.
  2: { unfold n1, ls. cbn [lines set_lines]. by destruct (bool_decide (pre ++ post = [])). }
  set (n2 := if (length (lines n1) <=? row n1)%nat then _ else _).
  assert (lines n2 = ls ∧ (row n2 < length ls)%nat) as [Hl2 Hr2].
  { unfold n2. cbn [lines n1 row set_lines]. rewrite Hr. destruct ls; [done|].
    destruct (Nat.leb_spec (length (l :: ls)) (length pre)); cbn [lines row set_pos set_lines n1]; split; try done; cbn [length] in *; lia. }
  apply lookup_lt_is_Some in Hr2 as [l Hlook].
  erewrite bind_ok by (apply (clamp_col_ok _ l); cbn [ed]; by rewrite Hl2). eexists. split; [reflexivity|].
  unfold nano_ok. cbn. rewrite Hl2. split; [|done]. split; [|done]. exists l. split; [done|lia].
Qed.

(** Nothing before the cursor, or nothing after it. *)
Lemma backspace_none s y post : at_cursor (ed s) [] [] y post → backspace s = (Ok tt, s).
Proof. intros (_ & Hr & Hc). unfold backspace. gets_step. by rewrite Hc, Hr. Qed.

Lemma go_left_none s y post : at_cursor (ed s) [] [] y post → go_left s = (Ok tt, s).
Proof. intros (_ & Hr & Hc). unfold go_left. gets_step. by rewrite Hc, Hr. Qed.

Lemma at_last s pre x : at_cursor (ed s) pre x [] [] →
  (col (ed s) <? length (x ++ []))%nat = false ∧ (row (ed s) + 1 <? length (lines (ed s)))%nat = false.
Proof.
  intros (Hl & Hr & Hc). rewrite Hc, Hl, Hr, app_nil_r, Nat.ltb_irrefl, length_app.
  split; [done|]. apply Nat.ltb_ge. cbn. lia.
Qed.

Lemma delete_none s pre x : at_cursor (ed s) pre x [] [] → delete_char s = (Ok tt, s).
Proof.
  intros Hat. unfold delete_char. gets_step. erewrite bind_ok by (eapply at_line; exact Hat). cbv beta.
  by destruct (at_last _ _ _ Hat) as [-> ->].
Qed.

Lemma go_right_none s pre x : at_cursor (ed s) pre x [] [] → go_right s = (Ok tt, s).
Proof.
  intros Hat. unfold go_right. gets_step. erewrite bind_ok by (eapply at_line; exact Hat). cbv beta.
  by destruct (at_last _ _ _ Hat) as [-> ->].
Qed.

(** What is claimed of a key. *)
Definition handles (create : list Z → Z) (k : NanoKey) (s : session) : Prop :=
  ∃ s', handle create k s = (Ok (if k is CtrlX then false else true), s') ∧ nano_ok (ed s') ∧
    edits k (before (ed s)) (after (ed s)) (before (ed s')) (after (ed s')).

Definition quietly (s : session) : session := mkSession (set_msg [] (ed s)) (written s).

Lemma by_leads create k (c : M session unit) s pre x y post :
  handle create k s = (c ;; mret (if k is CtrlX then false else true)) (quietly s) →
  leads c (quietly s) pre x y post → Forall one_line pre → one_line (x ++ y) → Forall one_line post →
  edits k (before (ed s)) (after (ed s)) (ended pre ++ x) (y ++ begun post) → handles create k s.
Proof.
  intros Hh (n' & E & Hat) H1 H2 H3 He. eexists. rewrite Hh. erewrite bind_ok by exact E.
  split; [reflexivity|]. split; [by eapply at_nano_ok|]. cbn [ed].
  destruct (at_text _ _ _ _ _ Hat) as [-> ->]. exact He.
Qed.

Lemma by_row create k f s :
  handle create k s = (to_row f ;; mret (if k is CtrlX then false else true)) (quietly s) →
  nano_ok (ed s) → (f (ed (quietly s)) < length (lines (ed s)))%nat →
  (∀ b a b' a', b' ++ a' = b ++ a → edits k b a b' a') → handles create k s.
Proof.
  intros Hh Hok Hf He. destruct (to_row_ok (quietly s) f) as (n' & E & Hl & Hok'); [apply Hok|done|].
  eexists. rewrite Hh. erewrite bind_ok by exact E. split; [reflexivity|]. split; [done|]. cbn [ed].
  apply He. rewrite !nano_text by done. by rewrite Hl.
Qed.

(** Keys that leave the text and the cursor. *)
Lemma by_same create k s s' :
  handle create k s = (Ok (if k is CtrlX then false else true), s') → nano_ok (ed s) →
  lines (ed s') = lines (ed s) → row (ed s') = row (ed s) → col (ed s') = col (ed s) →
  edits k (before (ed s)) (after (ed s)) (before (ed s)) (after (ed s)) → handles create k s.
Proof.
  intros Hh Hok Hl Hr Hc He. exists s'. split; [done|]. unfold nano_ok, before, after. rewrite Hl, Hr, Hc. done.
Qed.

Lemma one_line_app a b : one_line (a ++ b) ↔ one_line a ∧ one_line b.
Proof. unfold one_line. rewrite elem_of_app. naive_solver. Qed.

Lemma take_all_but_last {A} (l : list A) x : take (length (l ++ [x]) - 1) (l ++ [x]) = l.
Proof. rewrite length_app. cbn. rewrite Nat.add_sub. apply take_app_length. Qed.

(** Nothing before, or after, the cursor. *)
Lemma at_start s y post : at_cursor (ed s) [] [] y post → before (ed s) = [].
Proof. intros H. by destruct (at_text _ _ _ _ _ H) as [-> _]. Qed.

Lemma handles_backspace create s : nano_ok (ed s) → handles create Backspace s.
Proof.
  intros Hok. destruct (nano_ok_at _ Hok) as (pre & x & y & post & Hat & H1 & H2 & H3).
  destruct (at_text _ _ _ _ _ Hat) as [Hb Ha]. apply one_line_app in H2 as [Hx Hy].
  destruct x as [|c x _] using rev_ind; [destruct pre as [|l pre _] using rev_ind|].
  - eapply (by_same _ _ _ (quietly s)); [|done..|].
    + unfold handle. gets_step. by erewrite bind_ok by (eapply (backspace_none (quietly s)); exact Hat).
    + rewrite (at_start _ _ _ Hat). done.
  - apply Forall_app in H1 as [H1 Hl]. rewrite Forall_singleton in Hl.
    eapply by_leads; [reflexivity|by apply backspace_join|done|by apply one_line_app; split|done|].
    rewrite Hb, Ha, ended_snoc, app_nil_r. split; [|done].
    by rewrite (app_assoc (ended pre)), take_all_but_last.
  - apply one_line_app in Hx as [Hx _].
    eapply by_leads; [reflexivity|by eapply backspace_char|done|by apply one_line_app; split|done|].
    rewrite Hb, Ha. split; [|done]. by rewrite (app_assoc (ended pre)), take_all_but_last.
Qed.

Lemma handles_left create s : nano_ok (ed s) → handles create Left s.
Proof.
  intros Hok. destruct (nano_ok_at _ Hok) as (pre & x & y & post & Hat & H1 & H2 & H3).
  destruct (at_text _ _ _ _ _ Hat) as [Hb Ha]. apply one_line_app in H2 as [Hx Hy].
  destruct x as [|c x _] using rev_ind; [destruct pre as [|l pre _] using rev_ind|].
  - eapply (by_same _ _ _ (quietly s)); [|done..|].
    + unfold handle. gets_step. by erewrite bind_ok by (eapply (go_left_none (quietly s)); exact Hat).
    + rewrite (at_start _ _ _ Hat). done.
  - apply Forall_app in H1 as [H1 Hl]. rewrite Forall_singleton in Hl.
    eapply by_leads; [reflexivity|by apply go_left_line|done|by rewrite app_nil_r|by constructor|].
    rewrite Hb, Ha, ended_snoc, app_nil_r. split.
    + by rewrite (app_assoc (ended pre)), take_all_but_last.
    + rewrite <-!app_assoc. done.
  - eapply by_leads; [reflexivity|by eapply go_left_char|done| |done|].
    + rewrite one_line_app in *. change (c :: y) with ([c] ++ y). rewrite one_line_app. tauto.
    + rewrite Hb, Ha. split; [|by rewrite <-!app_assoc].
      by rewrite (app_assoc (ended pre)), take_all_but_last.
Qed.

Lemma handles_delete create s : nano_ok (ed s) → handles create Delete s.
Proof.
  intros Hok. destruct (nano_ok_at _ Hok) as (pre & x & y & post & Hat & H1 & H2 & H3).
  destruct (at_text _ _ _ _ _ Hat) as [Hb Ha]. apply one_line_app in H2 as [Hx Hy].
  destruct y as [|c y]; [destruct post as [|l post]|].
  - eapply (by_same _ _ _ (quietly s)); [|done..|].
    + unfold handle. gets_step. by erewrite bind_ok by (eapply (delete_none (quietly s)); exact Hat).
    + rewrite Ha. done.
  - apply Forall_cons in H3 as [Hl H3].
    eapply by_leads; [reflexivity|by apply delete_join|done|by apply one_line_app; split|done|].
    rewrite Hb, Ha. done.
  - eapply by_leads; [reflexivity|by eapply delete_char_at|done| |done|by rewrite Hb, Ha].
    change (c :: y) with ([c] ++ y) in Hy. rewrite one_line_app in *. tauto.
Qed.

Lemma handles_right create s : nano_ok (ed s) → handles create Right s.
Proof.
  intros Hok. destruct (nano_ok_at _ Hok) as (pre & x & y & post & Hat & H1 & H2 & H3).
  destruct (at_text _ _ _ _ _ Hat) as [Hb Ha]. pose proof H2 as Hxy. apply one_line_app in H2 as [Hx Hy].
  destruct y as [|c y]; [destruct post as [|l post]|].
  - eapply (by_same _ _ _ (quietly s)); [|done..|].
    + unfold handle. gets_step. by erewrite bind_ok by (eapply (go_right_none (quietly s)); exact Hat).
    + rewrite Ha. done.
  - apply Forall_cons in H3 as [Hl H3].
    eapply by_leads; [reflexivity|by apply go_right_line|by apply Forall_app; split; [|apply Forall_singleton]|done|done|].
    rewrite Hb, Ha, ended_snoc, app_nil_r. split; [done|]. rewrite <-!app_assoc. done.
  - eapply by_leads; [reflexivity|by eapply go_right_char|done|by rewrite <-app_assoc|done|].
    rewrite Hb, Ha. split; [done|]. rewrite <-!app_assoc. done.
Qed.

Lemma write_lines_ok fd ls : ∀ s, ∃ ws, write_lines fd ls s = (Ok tt, mkSession (ed s) (written s ++ ((fd,.) <$> ws))) ∧
  concat ws = join [10] ls.
Proof.
  induction ls as [|l ls IH]; intros s; cbn [write_lines].
  { exists []. rewrite app_nil_r. by destruct s. }
  gets_step. destruct ls as [|l' ls].
  - exists [l]. rewrite bool_decide_true by done. cbn. by rewrite app_nil_r.
  - rewrite bool_decide_false by done. gets_step. edestruct IH as (ws & E & Hw). exists (l :: [10] :: ws).
    rewrite E. cbn [ed written]. rewrite fmap_cons, fmap_cons, <-!app_assoc. split; [done|]. cbn [concat]. rewrite Hw. done.
Qed.

(** Saving writes the lines, each with a newline, and leaves the text. *)
Lemma save_ok create s : ∃ n' ws, save create s = (Ok tt, mkSession n' (written s ++ ((create (filename (ed s)),.) <$> ws))) ∧
  lines n' = lines (ed s) ∧ row n' = row (ed s) ∧ col n' = col (ed s) ∧
  concat ws = if create (filename (ed s)) <? 0 then [] else join [10] (lines (ed s)) ++ [10].
Proof.
  unfold save. gets_step. destruct (create (filename (ed s)) <? 0).
  { eexists _, []. rewrite app_nil_r. split; [reflexivity|]. done. }
  destruct (write_lines_ok (create (filename (ed s))) (lines (ed s)) s) as (ws & E & Hw).
  erewrite bind_ok by exact E. gets_step. eexists _, (ws ++ [[10]]). split.
  { unfold upd, modify. cbn [ed written]. rewrite fmap_app, app_assoc. reflexivity. }
  split_and!; try done. rewrite concat_app, Hw. cbn. done.
Qed.

Lemma handles_kill create s : nano_ok (ed s) → handles create CtrlK s.
Proof.
  intros Hok. destruct (nano_ok_at _ Hok) as (pre & x & y & post & Hat & H1 & H2 & H3).
  destruct (kill_line_ok (quietly s) pre x y post Hat H1 H3) as (n' & E & Hok' & Hl).
  eexists. unfold handle. gets_step. erewrite bind_ok by exact E. split; [reflexivity|]. split; [done|].
  destruct (at_text _ _ _ _ _ Hat) as [-> ->]. exists (ended pre), x, y, (begun post).
  split_and!; [done..|apply ended_last|apply begun_head|]. cbn [ed]. rewrite nano_text, Hl, begun_nil by done.
  destruct post as [|l post].
  - rewrite app_nil_r. destruct pre as [|l pre _] using rev_ind; [done|]. rewrite !bool_decide_false by (by destruct pre).
    rewrite ended_snoc, (app_assoc (ended pre)), take_all_but_last, <-text_join. cbn. by rewrite app_nil_r.
  - rewrite !bool_decide_false by (done || by destruct pre). rewrite <-text_join. done.
Qed.

(** In a state that satisfies the invariant a key does to the text what it should. *)
Lemma handle_edits create k s :
  nano_ok (ed s) → (∀ c, k = Char c → c ≠ 10) → handles create k s.
Proof.
  intros Hok Hk. destruct (nano_ok_at _ Hok) as (pre & x & y & post & Hat & H1 & H2 & H3).
  destruct (at_text _ _ _ _ _ Hat) as [Hb Ha]. pose proof H2 as Hxy. apply one_line_app in H2 as [Hx Hy].
  assert (row (ed s) < length (lines (ed s)))%nat as Hr.
  { destruct Hok as [(l & Hl & _) _]. by eapply lookup_lt_Some. }
  destruct k; try (by (apply handles_backspace || apply handles_delete || apply handles_left || apply handles_right || apply handles_kill)).
  - eapply by_leads; [reflexivity|by apply insert_char_at|done| |done|rewrite Hb, Ha; split; [by rewrite <-app_assoc|done]].
    rewrite !one_line_app. split_and!; try done. specialize (Hk c eq_refl). intros Hin%list_elem_of_singleton. done.
  - eapply by_leads; [reflexivity|by apply enter_at|by apply Forall_app; split; [|apply Forall_singleton]|done|done|].
    rewrite Hb, Ha, ended_snoc, app_nil_r. split; [by rewrite <-!app_assoc|done].
  - destruct (0 <? row (ed s))%nat eqn:E.
    + eapply (by_row _ _ (λ n, (row n - 1)%nat)); [unfold handle; gets_step; gets_step; cbn [ed row set_msg]; by rewrite E|done|cbn; lia|done].
    + eapply (by_same _ _ _ (quietly s)); [unfold handle; gets_step; gets_step; cbn [ed row set_msg]; by rewrite E|done..].
  - destruct (row (ed s) + 1 <? length (lines (ed s)))%nat eqn:E.
    + eapply (by_row _ _ (λ n, (row n + 1)%nat)); [unfold handle; gets_step; gets_step; cbn [ed row lines set_msg]; by rewrite E|done| |done].
      apply Nat.ltb_lt in E. cbn. lia.
    + eapply (by_same _ _ _ (quietly s)); [unfold handle; gets_step; gets_step; cbn [ed row lines set_msg]; by rewrite E|done..].
  - eapply by_leads; [reflexivity|by apply home_at|done|done|done|]. rewrite Hb, Ha, app_nil_r.
    exists x. split_and!; [done|by rewrite app_assoc|done|apply ended_last].
  - eapply by_leads; [reflexivity|by apply end_at|done|by rewrite app_nil_r|done|].
    rewrite Hb, Ha. exists y. split_and!; [done|by rewrite app_assoc|done|apply begun_head].
  - eapply by_row; [reflexivity|done|cbn; lia|done].
  - eapply by_row; [reflexivity|done|cbn; lia|done].
  - destruct (save_ok create (quietly s)) as (n' & ws & E & Hl & Hr' & Hc & _).
    eapply by_same; [unfold handle; gets_step; erewrite bind_ok by exact E; reflexivity|done..].
  - eapply (by_same _ _ _ (quietly s)); [reflexivity|done..].
  - eapply (by_same _ _ _ (quietly s)); [reflexivity|done..].
Qed.

(** Keys one after the other. *)
Inductive edited : list NanoKey → list Z → list Z → list Z → list Z → Prop :=
  | edited_nil b a : edited [] b a b a
  | edited_cons k ks b a b1 a1 b' a' : edits k b a b1 a1 → edited ks b1 a1 b' a' → edited (k :: ks) b a b' a'.

(** C30: every sequence of keys does to the text what it should.  From a state that satisfies
    the invariant it runs without a panic and keeps the invariant, and each key changes
    the text before and after the cursor as [edits] says: characters and newlines are
    inserted and deleted at the cursor, movements keep the text, ^K deletes the line of
    the cursor. *)
Theorem nano_refines create ks s :
  nano_ok (ed s) → (∀ c, Char c ∈ ks → c ≠ 10) →
  ∃ s', for_each ks (λ k, handle create k ;; mret tt) s = (Ok tt, s') ∧ nano_ok (ed s') ∧
    edited ks (before (ed s)) (after (ed s)) (before (ed s')) (after (ed s')).
Proof.
  revert s. induction ks as [|k ks IH]; intros s Hok Hks; cbn [for_each].
  { exists s. split_and!; [done..|apply edited_nil]. }
  destruct (handle_edits create k s Hok) as (s1 & E1 & Hok1 & He).
  { intros c ->. apply Hks. by left. }
  destruct (IH s1 Hok1) as (s' & E2 & Hok' & He'); [intros c Hc; apply Hks; by right|].
  exists s'. split_and!; [|done|by eapply edited_cons].
  erewrite bind_ok; [exact E2|]. by erewrite bind_ok by exact E1.
Qed.

(** ** Saving and loading *)

Lemma split_lines_line l rest : ∀ cur, one_line l → split_lines (l ++ 10 :: rest) cur = (cur ++ l) :: split_lines rest [].
Proof.
  induction l as [|b l IH]; intros cur Hl; cbn [split_lines app].
  { by rewrite Z.eqb_refl, app_nil_r. }
  unfold one_line in Hl. rewrite not_elem_of_cons in Hl. destruct Hl as [Hb Hl].
  rewrite (proj2 (Z.eqb_neq _ _)) by congruence. rewrite IH by done. by rewrite <-app_assoc.
Qed.

Lemma split_lines_ended ls : Forall one_line ls → split_lines (ended ls) [] = ls.
Proof.
  induction 1 as [|l ls Hl Hls IH]; [done|].
  change (ended (l :: ls)) with ((l ++ [10]) ++ ended ls). rewrite <-app_assoc. cbn [app].
  rewrite split_lines_line, IH by done. done.
Qed.

Lemma ended_join ls : ls ≠ [] → join [10] ls ++ [10] = ended ls.
Proof.
  induction ls as [|l ls IH]; [done|]. intros _. destruct ls as [|l' ls]; [unfold ended; cbn; by rewrite app_nil_r|].
  change (join [10] (l :: l' :: ls)) with (l ++ [10] ++ join [10] (l' :: ls)).
  rewrite <-!app_assoc, IH by done. unfold ended. cbn. by rewrite <-!app_assoc.
Qed.

(** the bytes ^O writes, loaded again, give the lines that were saved. *)
Theorem nano_save_load create s :
  nano_ok (ed s) → 0 ≤ create (filename (ed s)) →
  ∃ s' ws, handle create CtrlO s = (Ok true, s') ∧
    written s' = written s ++ ((create (filename (ed s)),.) <$> ws) ∧
    lines (nano_new (filename (ed s)) (Some (concat ws))) = lines (ed s).
Proof.
  intros [(l & Hl & _) Hf] Hfd. destruct (save_ok create (quietly s)) as (n' & ws & E & _ & _ & _ & Hw).
  unfold handle. gets_step. erewrite bind_ok by exact E. eexists _, ws. split; [reflexivity|]. split; [done|].
  cbn [ed quietly filename lines set_msg] in Hw. rewrite (proj2 (Z.ltb_ge _ _)) in Hw by done.
  assert (lines (ed s) ≠ []) as Hne by (intros Hn; by rewrite Hn in Hl).
  rewrite ended_join in Hw by done. unfold nano_new. cbn [lines]. rewrite Hw, split_lines_ended by done.
  by rewrite bool_decide_false.
Qed.

(** ** Staying in view *)

(** The row of the cursor is among the rows shown. *)
Definition in_view (n : nano) : Prop := (scroll n ≤ row n < scroll n + CONTENT_ROWS)%nat.

Lemma adjust_in_view n : in_view (adjust_scroll n).
Proof.
  unfold adjust_scroll, in_view, CONTENT_ROWS. destruct (Nat.ltb_spec (row n) (scroll n)); [cbn; lia|].
  destruct (Nat.leb_spec (scroll n + 21) (row n)); cbn; lia.
Qed.

(** Computations that keep the cursor in view, and those that bring it there. *)
Definition keeps {A} (c : M session A) : Prop :=
  ∀ s a s', c s = (Ok a, s') → in_view (ed s) → in_view (ed s').
Definition reveals {A} (c : M session A) : Prop := ∀ s a s', c s = (Ok a, s') → in_view (ed s').

Lemma keys_keep_bind {A B} (c : M session A) (k : A → M session B) : keeps c → (∀ a, keeps (k a)) → keeps (c ≫= k).
Proof. intros Hc Hk s b s' H Hv. apply bind_ok_inv in H as (a & s1 & E1 & E2). eapply Hk; [done|]. by eapply Hc. Qed.

Lemma reveals_bind {A B} (c : M session A) (k : A → M session B) : (∀ a, reveals (k a)) → reveals (c ≫= k).
Proof. intros Hk s b s' H. apply bind_ok_inv in H as (a & s1 & E1 & E2). by eapply Hk. Qed.

Lemma reveals_then {A B} (c : M session A) (k : A → M session B) : reveals c → (∀ a, keeps (k a)) → reveals (c ≫= k).
Proof. intros Hc Hk s b s' H. apply bind_ok_inv in H as (a & s1 & E1 & E2). eapply Hk; [done|]. by eapply Hc. Qed.

Lemma reveals_keeps {A} (c : M session A) : reveals c → keeps c.
Proof. intros H s a s' E _. by eapply H. Qed.

Lemma keeps_upd f : (∀ n, row (f n) = row n ∧ scroll (f n) = scroll n) → keeps (upd f).
Proof. intros Hf s a s' [= _ <-]. unfold in_view. cbn. by destruct (Hf (ed s)) as [-> ->]. Qed.

Lemma reveals_upd f : (∀ n, in_view (f n)) → reveals (upd f).
Proof. intros Hf s a s' [= _ <-]. apply Hf. Qed.

Lemma keeps_pure {A} (c : M session A) : (∀ s, (c s).2 = s) → keeps c.
Proof. intros Hc s a s' E. specialize (Hc s). rewrite E in Hc. by cbn in Hc; subst. Qed.

Lemma line_at_keeps i : keeps (line_at i).
Proof. apply keeps_pure. intros s. unfold line_at. gets_step. by destruct (lines (ed s) !! i). Qed.

Lemma vec_remove_keeps {A} i (l : list A) : keeps (vec_remove i l).
Proof. apply keeps_pure. intros s. unfold vec_remove. by destruct (l !! i). Qed.

Lemma vec_insert_keeps {A} i (x : A) l : keeps (vec_insert i x l).
Proof. apply keeps_pure. intros s. unfold vec_insert. by destruct (_ <=? _)%nat. Qed.

(** Walks through a computation, ending at the primitive ones. *)
Ltac keep :=
  repeat match goal with
  | |- keeps (_ ≫= _) => apply keys_keep_bind; [|intros ?]
  | |- keeps (if ?b then _ else _) => destruct b
  | |- keeps (match ?p with (_, _) => _ end) => destruct p
  | |- keeps (upd _) => first [apply keeps_upd; done | apply reveals_keeps, reveals_upd; intros ?; exact (adjust_in_view _)]
  | |- keeps (line_at _) => apply line_at_keeps
  | |- keeps (vec_remove _ _) => apply vec_remove_keeps
  | |- keeps (vec_insert _ _ _) => apply vec_insert_keeps
  | |- keeps (set_line _ _) => by apply keeps_upd
  | |- keeps (write _ _) => intros ??? [= _ <-]; done
  | |- keeps _ => apply keeps_pure; done
  end.

Lemma remove_line_keeps i : keeps (remove_line i).
Proof. unfold remove_line. keep. Qed.

Lemma to_row_reveals f : reveals (to_row f).
Proof. unfold to_row. do 2 (apply reveals_bind; intros ?). apply reveals_upd. intros n. apply adjust_in_view. Qed.

Lemma write_lines_keeps fd ls : keeps (write_lines fd ls).
Proof. induction ls; cbn [write_lines]; keep. done. Qed.

Lemma backspace_keeps : keeps backspace.
Proof.
  unfold backspace. apply keys_keep_bind; [keep|intros n]. destruct (0 <? col n)%nat; [keep|].
  destruct (0 <? row n)%nat; [|keep]. apply reveals_keeps. do 4 (apply reveals_bind; intros ?).
  apply reveals_then; [|intros; keep]. apply reveals_upd. apply adjust_in_view.
Qed.

Lemma split_off_keeps {A} i (l : list A) : keeps (split_off i l).
Proof. apply keeps_pure. intros s. unfold split_off. by destruct (_ <=? _)%nat. Qed.

(** Every key but ^K keeps the cursor in view. *)
Lemma handle_keeps create k : k ≠ CtrlK → keeps (handle create k).
Proof.
  intros Hk. unfold handle. apply keys_keep_bind; [keep|intros _].
  destruct k; try done; try (apply keys_keep_bind; [|intros _; keep]).
  - unfold insert_char. keep.
  - unfold enter. keep. apply split_off_keeps.
  - apply backspace_keeps.
  - unfold delete_char. keep; apply remove_line_keeps.
  - keep. apply reveals_keeps, to_row_reveals.
  - keep. apply reveals_keeps, to_row_reveals.
  - unfold go_left. keep.
  - unfold go_right. keep.
  - keep.
  - unfold end_of_line. keep.
  - apply reveals_keeps, to_row_reveals.
  - apply reveals_keeps, to_row_reveals.
  - unfold save. keep. apply write_lines_keeps.
  - keep.
  - keep.
Qed.

(** ** Drawing does not fail *)

(** Output that succeeds and reads nothing. *)
Definition shows_up {A} (c : M io A) : Prop := ∀ w, ∃ a w', c w = (Ok a, w') ∧ inp w' = inp w.

Lemma shows_bind {A B} (c : M io A) (k : A → M io B) : shows_up c → (∀ a, shows_up (k a)) → shows_up (c ≫= k).
Proof.
  intros Hc Hk w. destruct (Hc w) as (a & w1 & E1 & H1). destruct (Hk a w1) as (b & w2 & E2 & H2).
  exists b, w2. erewrite bind_ok by exact E1. split; [done|congruence].
Qed.

Lemma shows_ret {A} (a : A) : shows_up (mret a).
Proof. intros w. by exists a, w. Qed.

Lemma shows_wrt b : shows_up (wrt b).
Proof. intros w. eexists tt, _. split; [reflexivity|]. done. Qed.

Lemma shows_each {A} (l : list A) f : (∀ x, x ∈ l → shows_up (f x)) → shows_up (for_each l f).
Proof.
  induction l as [|x l IH]; intros Hf; cbn [for_each]; [apply shows_ret|].
  apply shows_bind; [apply Hf; by left|]. intros _. apply IH. intros y Hy. apply Hf. by right.
Qed.

Lemma shows_move r c : 0 ≤ r < 100 → 0 ≤ c < 10 ^ 10 → shows_up (move_cursor r c).
Proof.
  intros Hr Hc. pose proof (length_dec 2 r ltac:(lia) ltac:(cbn; lia)) as Hr2.
  pose proof (length_dec 10 c ltac:(lia) ltac:(change (Z.of_nat 10) with 10; lia)) as Hc2.
  intros w. unfold move_cursor, fmt_decimal. cbv zeta. rewrite (proj2 (Nat.ltb_ge 14 _)) by lia.
  gets_step. rewrite (proj2 (Nat.ltb_lt (2 + _) _)) by lia. cbn [negb].
  rewrite (proj2 (Nat.ltb_ge (13 - _) _)) by lia. gets_step. rewrite (proj2 (Nat.ltb_lt _ _)) by lia.
  apply shows_wrt.
Qed.

Ltac show :=
  repeat match goal with
  | |- shows_up (_ ≫= _) => apply shows_bind; [|intros _]
  | |- shows_up (wrt _) => apply shows_wrt
  | |- shows_up (mret _) => apply shows_ret
  | |- shows_up (if ?b then _ else _) => destruct b
  | |- shows_up (match ?o with Some _ => _ | None => _ end) => destruct o
  | |- shows_up (for_each _ _) => apply shows_each; intros ? ?
  end.

Lemma render_shows n : in_view n → Z.of_nat (col n) + 1 < 10 ^ 10 → shows_up (render n).
Proof.
  intros Hv Hc. unfold in_view, CONTENT_ROWS in Hv.
  assert (∀ u, shows_up (pad_line u)) as Hpad.
  { intros u. unfold pad_line. show. }
  unfold render, wrt_num. show; try apply Hpad.
  - apply shows_move; lia.
  - match goal with H : _ ∈ seq _ _ |- _ => apply elem_of_seq in H; unfold CONTENT_ROWS in H end.
    unfold draw_row. show. apply shows_move; lia.
  - apply shows_move; unfold TERM_ROWS; lia.
  - apply shows_move; unfold TERM_ROWS; lia.
  - rewrite Nat2Z.inj_add. apply shows_move; [|lia]. unfold wrap. rewrite Z.mod_small; lia.
Qed.

(** ** Running the editor *)

Lemma edits_length k b a b' a' : edits k b a b' a' → (length (b' ++ a') ≤ length (b ++ a) + 1)%nat.
Proof.
  destruct k; cbn [edits].
  1,2: intros [-> ->]; rewrite !length_app; cbn; lia.
  1: intros [-> ->]; rewrite !length_app, length_take; lia.
  1: intros [-> ->]; rewrite !length_app; destruct a; cbn; lia.
  1,2,7,8: intros ->; lia.
  1,2: intros [_ ->]; lia.
  1: intros (x & -> & -> & _); rewrite !length_app; lia.
  1: intros (y & -> & -> & _); rewrite !length_app; lia.
  1,2,4: intros [-> ->]; lia.
  intros (u & x & y & v & -> & -> & _ & _ & _ & ->).
  case_bool_decide; rewrite !length_app, ?length_take; destruct v; cbn; lia.
Qed.

(** Reading input all of whose bytes satisfy [I] gives a result in [P] or waits. *)
Definition reads {A} (I : Z → Prop) (P : A → Prop) (c : M io A) : Prop :=
  ∀ w, Forall I (inp w) →
    match c w with
    | (Ok a, w') => P a ∧ Forall I (inp w') ∧ (length (inp w') ≤ length (inp w))%nat
    | (Err e, _) => e = waits
    | (Panic _, _) => False
    end.

Lemma key_reads_bind {A B} I (Q : A → Prop) (P : B → Prop) c k :
  reads I Q c → (∀ a, Q a → reads I P (k a)) → reads I P (c ≫= k).
Proof.
  intros Hc Hk w Hw. specialize (Hc w Hw). unfold mbind, M_bind. destruct (c w) as [[a|e|e] w1]; [|done..].
  destruct Hc as (Ha & Hw1 & Hl). specialize (Hk a Ha w1 Hw1). destruct (k a w1) as [[b|e|e] w2]; [|done..].
  destruct Hk as (? & ? & ?). split_and!; [done..|lia].
Qed.

Lemma key_reads_ret {A} I (P : A → Prop) a : P a → reads I P (mret a).
Proof. intros Ha w Hw. done. Qed.

Lemma reads_byte I : reads I I read_raw_byte.
Proof.
  intros [i o] Hi. unfold read_raw_byte. cbn in *. destruct i as [|c i]; [done|]. cbn.
  apply Forall_cons in Hi as [? ?]. split_and!; [done..|lia].
Qed.

Definition no_kill (k : NanoKey) : Prop := k ≠ CtrlK ∧ ∀ c, k = Char c → c ≠ 10.

Lemma read_escape_reads : reads (λ b, b ≠ 11) no_kill read_escape.
Proof.
  unfold read_escape. eapply key_reads_bind; [apply reads_byte|]. intros b1 _.
  destruct (negb _); [by apply key_reads_ret|]. eapply key_reads_bind; [apply reads_byte|]. intros b2 _.
  repeat match goal with |- reads _ _ (if ?b then _ else _) => destruct b end;
    try (by apply key_reads_ret); (eapply key_reads_bind; [apply reads_byte|intros ? _; by apply key_reads_ret]).
Qed.

Lemma read_key_reads w : Forall (λ b, b ≠ 11) (inp w) →
  match read_key w with
  | (Ok k, w') => no_kill k ∧ Forall (λ b, b ≠ 11) (inp w') ∧ (length (inp w') < length (inp w))%nat
  | (Err e, _) => e = waits
  | (Panic _, _) => False
  end.
Proof.
  destruct w as [i o]. intros Hi. unfold read_key, read_raw_byte. destruct i as [|c i]; [done|].
  apply Forall_cons in Hi as [Hc Hi]. erewrite bind_ok by reflexivity. cbv beta.
  assert (reads (λ b, b ≠ 11) no_kill
    (if c =? 27 then read_escape else if c =? 15 then mret CtrlO else if c =? 24 then mret CtrlX
     else if c =? 11 then mret CtrlK else if (c =? 127) || (c =? 8) then mret Backspace
     else if (c =? 13) || (c =? 10) then mret Enter else if 32 <=? c then mret (Char c) else mret Other)) as H.
  { destruct (c =? 27); [apply read_escape_reads|]. rewrite (proj2 (Z.eqb_neq c 11)) by done.
    repeat match goal with |- reads _ _ (if ?b then _ else _) => destruct b eqn:? end; apply key_reads_ret; try done.
    split; [done|]. intros ? [= <-] ->. discriminate. }
  specialize (H (mkIo i o) Hi). destruct (_ (mkIo i o)) as [[k|e|e] w']; [|done..].
  destruct H as (? & ? & ?). split_and!; [done..|]. cbn in *. lia.
Qed.

Lemma on_io_ok {A} (c : M io A) s w a w' : c w = (Ok a, w') → on_io c (s, w) = (Ok a, (s, w')).
Proof. intros H. unfold on_io. by rewrite H. Qed.

Lemma on_ed_ok {A} (c : M session A) s w a s' : c s = (Ok a, s') → on_ed c (s, w) = (Ok a, (s', w)).
Proof. intros H. unfold on_ed. by rewrite H. Qed.

Lemma col_text n : nano_ok n → (col n ≤ length (before n ++ after n))%nat.
Proof.
  intros H. destruct (nano_ok_at n H) as (pre & x & y & post & Hat & _).
  destruct (at_text _ _ _ _ _ Hat) as [-> _]. destruct Hat as (_ & _ & ->). rewrite !length_app. lia.
Qed.

(** The text and what may still be typed fit the screen's coordinates. *)
Definition fits (s : session) (w : io) : Prop :=
  Z.of_nat (length (before (ed s) ++ after (ed s)) + length (inp w)) + 1 < 10 ^ 10.

Lemma run_loop_safe create fuel : ∀ s w, nano_ok (ed s) → in_view (ed s) →
  Forall (λ b, b ≠ 11) (inp w) → fits s w →
  ∃ r sw, run_loop create fuel (s, w) = (r, sw) ∧ (r = Ok tt ∨ r = Err waits).
Proof.
  induction fuel as [|fuel IH]; intros s w Hok Hv Hw Hf; cbn [run_loop]; [eauto|].
  gets_step. pose proof (col_text _ Hok) as Hc. unfold fits in Hf.
  destruct (render_shows (ed s) Hv ltac:(lia) w) as ([] & w1 & E1 & H1).
  erewrite bind_ok by (by apply on_io_ok). pose proof (read_key_reads w1) as Hk. rewrite H1 in Hk. specialize (Hk Hw).
  destruct (read_key w1) as [[k|e|e] w2] eqn:E2; [|subst e; unfold mbind, M_bind, on_io; rewrite E2; eauto|done].
  erewrite bind_ok by (by apply on_io_ok). cbv beta. destruct Hk as ([Hk1 Hk2] & Hw2 & Hlt).
  destruct (handle_edits create k s Hok Hk2) as (s' & E3 & Hok' & He).
  erewrite bind_ok by (by apply on_ed_ok). cbv beta.
  destruct (IH s' w2 Hok') as (r & sw & E4 & Hr); [|done| |destruct k; eauto].
  - by eapply handle_keeps.
  - apply edits_length in He. unfold fits. lia.
Qed.

(** the editor does not panic as long as ^K is not typed: for any other input it ends
    or waits for more, if text and input together are shorter than ten digits. *)
Theorem nano_run_safe create s w :
  nano_ok (ed s) → in_view (ed s) → Forall (λ b, b ≠ 11) (inp w) → fits s w →
  ∃ r sw, run create (s, w) = (r, sw) ∧ (r = Ok tt ∨ r = Err waits).
Proof.
  intros Hok Hv Hw Hf. unfold run. gets_step.
  destruct (run_loop_safe create (S (length (inp w))) s w Hok Hv Hw Hf) as (r & [s' w'] & E & Hr).
  cbn [snd]. destruct Hr as [->| ->].
  - erewrite bind_ok by exact E. eexists _, _. split; [reflexivity|by left].
  - erewrite bind_err by exact E. eauto.
Qed.

Lemma split_lines_ok c : ∀ cur, one_line cur → Forall one_line (split_lines c cur).
Proof.
  induction c as [|b c IH]; intros cur Hc; cbn [split_lines].
  { case_bool_decide; [constructor|by apply Forall_singleton]. }
  destruct (Z.eqb_spec b 10).
  - constructor; [done|]. apply IH. intros H. by apply elem_of_nil in H.
  - apply IH. apply one_line_app. split; [done|]. intros H%list_elem_of_singleton. congruence.
Qed.

(** A file opened satisfies what the theorems ask for. *)
Lemma nano_new_ok name content : nano_ok (nano_new name content) ∧ in_view (nano_new name content).
Proof.
  split; [|unfold in_view, CONTENT_ROWS; cbn; lia].
  assert (Forall one_line (lines (nano_new name content)) ∧ lines (nano_new name content) ≠ []) as [Hf Hne].
  { unfold nano_new. cbn [lines]. case_bool_decide as H; [|split; [|done]].
    - split; [|done]. apply Forall_singleton. intros Hin. by apply elem_of_nil in Hin.
    - destruct content; [|done]. apply split_lines_ok. intros Hin. by apply elem_of_nil in Hin. }
  split; [|done]. change (row (nano_new name content)) with 0%nat. change (col (nano_new name content)) with 0%nat.
  destruct (lines (nano_new name content)) as [|l ls]; [done|]. exists l. split; [done|lia].
Qed.

(** ** Killing lines *)

(** A file of 42 empty lines, its end, and ^K typed 24 times. *)
Definition kill_input : list Z := [27; 91; 54; 126; 27; 91; 54; 126] ++ replicate 24 11.

(** ^K does not scroll, so that lines deleted at the end of a file of more than 21 lines
    leave the cursor above the rows shown; its row then wraps around to a number that
    does not fit the buffer of [move_cursor], and the shell panics. *)
Theorem nano_kill_line_panics :
  (run (λ _, 3) (mkSession (nano_new [47; 97] (Some (replicate 42 10))) [], mkIo kill_input [])).1 = Panic out_of_range.
Proof. vm_compute. reflexivity. Qed.

(** ** Witnesses *)

Definition demo_session : session := mkSession (nano_new [47; 97] (Some (bs "ab" ++ [10] ++ bs "cd"))) [].

Lemma nano_refines_witness :
  ∃ s', for_each [End; Delete; Char 120] (λ k, handle (λ _, 3) k ;; mret tt) demo_session = (Ok tt, s') ∧
    before (ed s') = bs "abx" ∧ after (ed s') = bs "cd".
Proof.
  destruct (nano_refines (λ _, 3) [End; Delete; Char 120] demo_session) as (s' & E & _ & _).
  - apply nano_new_ok.
  - intros c Hc. rewrite !elem_of_cons in Hc. intros ->. destruct Hc as [?|[?|[?|Hc]]]; try discriminate.
    by apply elem_of_nil in Hc.
  - exists s'. split; [exact E|]. vm_compute in E. injection E as <-. split; vm_compute; reflexivity.
Defined.

Lemma nano_save_load_witness :
  ∃ s' ws, handle (λ _, 3) CtrlO demo_session = (Ok true, s') ∧
    written s' = (3,.) <$> ws ∧ lines (nano_new [47; 97] (Some (concat ws))) = [bs "ab"; bs "cd"].
Proof. apply (nano_save_load (λ _, 3) demo_session); [apply nano_new_ok|vm_compute; discriminate]. Defined.

Lemma nano_run_safe_witness :
  ∃ r sw, run (λ _, 3) (demo_session, mkIo [97; 127; 27; 91; 66; 24] []) = (r, sw) ∧ (r = Ok tt ∨ r = Err waits).
Proof.
  apply (nano_run_safe (λ _, 3) demo_session (mkIo [97; 127; 27; 91; 66; 24] [])).
  - apply nano_new_ok.
  - apply nano_new_ok.
  - repeat (apply Forall_cons_2; [discriminate|]). apply Forall_nil_2.
  - vm_compute. reflexivity.
Defined.
