(* ===== verification/ShellLang.v ===== *)
(** * The shell's language (user/sh/src/main.rs)

    Environment variables, expansion, splitting a line into pipeline stages, and paths.
    These functions have no effects; [ShellRun] executes what they produce.

    The environment is a list of pairs; [env_refines] relates it to a finite map.
    [pipeline_roundtrip] says that a pipeline written with quoted words parses to itself,
    [expand_spec] what [$NAME] and [${NAME}] become, [resolve_canonical] that the paths
    the shell passes on are in the form the file-system server uses.  Two lines on which
    quoting does not do what it is for are [quotes_lost]. *)

From Stdlib Require Import ZArith Lia.
From stdpp Require Import prelude gmap strings.
From S2P Require Import Prelude Vfs.

Local Open Scope Z_scope.

(** ** Environment *)

Abbreviation env_t := (list (list Z * list Z)).

Record shell : Type := mkShell { cwd : list Z; history : list (list Z); env : env_t }.

Definition set_env (e : env_t) (sh : shell) : shell := mkShell (cwd sh) (history sh) e.

Definition shell_new : shell :=
  mkShell (str "/") []
    [(str "HOME", str "/"); (str "USER", str "guest"); (str "SHELL", str "/sh"); (str "PATH", str "/");
     (str "HOSTNAME", str "openv"); (str "PWD", str "/")].

Fixpoint env_get (e : env_t) (name : list Z) : option (list Z) :=
  match e with
  | [] => None
  | (k, v) :: e' => if bool_decide (k = name) then Some v else env_get e' name
  end.

Fixpoint env_set (name value : list Z) (e : env_t) : env_t :=
  match e with
  | [] => [(name, value)]
  | (k, v) :: e' => if bool_decide (k = name) then (k, value) :: e' else (k, v) :: env_set name value e'
  end.

Definition env_unset (name : list Z) (e : env_t) : env_t := filter (λ kv, kv.1 ≠ name) e.

(** ** Expansion *)

Definition alphabetic (b : Z) : bool := ((65 <=? b) && (b <=? 90)) || ((97 <=? b) && (b <=? 122)).
Definition alphanumeric (b : Z) : bool := alphabetic b || ((48 <=? b) && (b <=? 57)).
Definition name_start (b : Z) : bool := alphabetic b || (b =? 95).
Definition name_byte (b : Z) : bool := alphanumeric b || (b =? 95).

(** The bytes up to the first one that does not satisfy [p], and the rest. *)
Fixpoint span (p : Z → bool) (l : list Z) : list Z * list Z :=
  match l with
  | [] => ([], [])
  | b :: l' => if p b then (let '(x, y) := span p l' in (b :: x, y)) else ([], l)
  end.

Definition value_of (e : env_t) (name : list Z) : list Z := default [] (env_get e name).

(** Every turn consumes a byte, so the length of the line is enough fuel. *)
Fixpoint expand_from (fuel : nat) (e : env_t) (in_single : bool) (line : list Z) : list Z :=
  match fuel, line with
  | S f, b :: rest =>
      if in_single then
        if b =? 39 then expand_from f e false rest else b :: expand_from f e true rest
      else if b =? 39 then expand_from f e true rest
      else if (b =? 36) && negb (bool_decide (rest = [])) then
        match rest with
        | c :: rest' =>
            if c =? 123 then
              let '(name, r) := span (λ b, negb (b =? 125)) rest' in
              value_of e name ++ expand_from f e false (drop 1 r)
            else if name_start c then
              let '(name, r) := span name_byte rest in
              value_of e name ++ expand_from f e false r
            else 36 :: expand_from f e false rest
        | [] => []
        end
      else b :: expand_from f e false rest
  | _, _ => []
  end.

Definition expand_vars (e : env_t) (line : list Z) : list Z := expand_from (length line) e false line.

Definition parse_assignment (line : list Z) : option (list Z * list Z) :=
  eq ← position (λ b, b =? 61) line;
  let name := take eq line in
  match name with
  | [] => None
  | first :: _ =>
      if negb (alphabetic first) && negb (first =? 95) then None
      else if negb (forallb name_byte name) then None
      else Some (name, drop (S eq) line)
  end.

(** ** Pipelines *)

Record stage : Type := mkStage {
  args : list (list Z);
  stdin_file : option (list Z);
  stdout_file : option (list Z);
}.

Definition empty_stage : stage := mkStage [] None None.

(** A token begun is pushed if it is not empty. *)
Definition flush (cur : list Z) (ts : list (list Z)) : list (list Z) :=
  if bool_decide (cur = []) then ts else cur :: ts.

(** Phase 1: [q] is the quote the scanner is in. *)
Fixpoint tokenise (q : option Z) (cur line : list Z) : list (list Z) :=
  match line with
  | [] => flush cur []
  | b :: rest =>
      match q with
      | Some qch => if b =? qch then tokenise None cur rest else tokenise q (cur ++ [b]) rest
      | None =>
          if (b =? 34) || (b =? 39) then tokenise (Some b) cur rest
          else if (b =? 124) || (b =? 60) then flush cur ([b] :: tokenise None [] rest)
          else if b =? 62 then
            match rest with
            | c :: rest' => if c =? 62 then flush cur ([62; 62] :: tokenise None [] rest')
                            else flush cur ([62] :: tokenise None [] rest)
            | [] => flush cur ([62] :: tokenise None [] rest)
            end
          else if (b =? 32) || (b =? 9) then flush cur (tokenise None [] rest)
          else tokenise None (cur ++ [b]) rest
      end
  end.

(** The last stage is kept if it has a word. *)
Definition finish (cur : stage) : list stage := if bool_decide (args cur = []) then [] else [cur].

(** Phase 2. *)
Fixpoint build_stages (ts : list (list Z)) (cur : stage) : list stage :=
  match ts with
  | [] => finish cur
  | t :: ts' =>
      if bool_decide (t = [124]) then cur :: build_stages ts' empty_stage
      else if bool_decide (t = [60]) then
        match ts' with
        | f :: ts'' => build_stages ts'' (mkStage (args cur) (Some f) (stdout_file cur))
        | [] => finish cur
        end
      else if bool_decide (t = [62]) || bool_decide (t = [62; 62]) then
        match ts' with
        | f :: ts'' => build_stages ts'' (mkStage (args cur) (stdin_file cur) (Some f))
        | [] => finish cur
        end
      else build_stages ts' (mkStage (args cur ++ [t]) (stdin_file cur) (stdout_file cur))
  end.

Definition parse_pipeline (line : list Z) : list stage := build_stages (tokenise None [] line) empty_stage.

(** ** Paths *)

Fixpoint push_parts (cs : list (list Z)) (parts : list (list Z)) : list (list Z) :=
  match cs with
  | [] => parts
  | c :: cs' =>
      if bool_decide (c = []) || bool_decide (c = str ".") then push_parts cs' parts
      else if bool_decide (c = str "..") then push_parts cs' (removelast parts)
      else push_parts cs' (parts ++ [c])
  end.

Definition normalize_path (path : list Z) : list Z := 47 :: join [47] (push_parts (split_on 47 path) []).

Definition ends_with_slash (p : list Z) : bool := bool_decide (last p = Some 47).

Definition resolve (sh : shell) (p : list Z) : list Z :=
  normalize_path (if starts_with [47] p then p
                  else cwd sh ++ (if ends_with_slash (cwd sh) then [] else [47]) ++ p).

(** ** Commands *)

Definition BUILTINS : list (list Z) :=
  str <$> ["echo"; "ls"; "cat"; "pwd"; "cd"; "mkdir"; "rm"; "touch"; "help"; "?"; "clear"; "history";
           ".history"; "nano"; "whoami"; "hostname"; "uname"; "uname-a"; "export"; "unset"; "env";
           "printenv"; "exit"; "quit"]%string.

Definition is_builtin (cmd : list Z) : bool := bool_decide (cmd ∈ BUILTINS).

Definition build_path (cmd : list Z) : list Z := (if starts_with [47] cmd then [] else [47]) ++ cmd.

(** The arguments as the kernel takes them, each ended by a zero byte. *)
Definition pack_argv (args : list (list Z)) : list Z := concat ((λ a, a ++ [0]) <$> args).

(** What the main loop makes of a line that is not an assignment. *)
Definition parse_line (e : env_t) (line : list Z) : list stage := parse_pipeline (expand_vars e line).

(** ** The environment is a map *)

Definition env_map (e : env_t) : gmap (list Z) (list Z) := list_to_map e.

Lemma env_get_map e name : env_get e name = env_map e !! name.
Proof.
  unfold env_map. induction e as [|[k v] e IH]; cbn [env_get]; [done|].
  rewrite list_to_map_cons. case_bool_decide as H; [subst; by rewrite lookup_insert_eq|].
  by rewrite lookup_insert_ne.
Qed.

Lemma env_set_keys name value e k : k ∈ (env_set name value e).*1 ↔ k ∈ e.*1 ∨ k = name.
Proof.
  induction e as [|[k' v] e IH]; cbn [env_set].
  { cbn. rewrite list_elem_of_singleton, elem_of_nil. naive_solver. }
  case_bool_decide; cbn; rewrite !elem_of_cons; naive_solver.
Qed.

Lemma env_set_map name value e : env_map (env_set name value e) = <[name := value]> (env_map e).
Proof.
  unfold env_map. induction e as [|[k v] e IH]; cbn [env_set]; [done|]. case_bool_decide as H.
  - subst. by rewrite !list_to_map_cons, insert_insert_eq.
  - rewrite !list_to_map_cons, IH. by rewrite insert_insert_ne by congruence.
Qed.

Lemma env_set_nodup name value e : NoDup e.*1 → NoDup (env_set name value e).*1.
Proof.
  induction e as [|[k v] e IH]; cbn [env_set]; [intros _; apply NoDup_singleton|].
  cbn. rewrite NoDup_cons. intros [Hk He]. case_bool_decide; cbn; rewrite NoDup_cons; [done|].
  split; [|by apply IH]. rewrite env_set_keys. naive_solver.
Qed.

Lemma env_unset_map name e : env_map (env_unset name e) = delete name (env_map e).
Proof.
  unfold env_map, env_unset. induction e as [|[k v] e IH]; [symmetry; apply delete_empty|].
  rewrite filter_cons, list_to_map_cons. case_decide as H; cbn in H.
  - by rewrite list_to_map_cons, delete_insert_ne, IH.
  - assert (k = name) as -> by (by destruct (decide (k = name))). by rewrite delete_insert_eq.
Qed.

Lemma env_unset_nodup name e : NoDup e.*1 → NoDup (env_unset name e).*1.
Proof.
  induction e as [|[k v] e IH]; [done|]. rewrite fmap_cons, NoDup_cons. intros [Hk He].
  unfold env_unset. rewrite filter_cons. case_decide; [|by apply IH]. cbn. rewrite NoDup_cons.
  split; [|by apply IH]. intros Hin. apply Hk. apply list_elem_of_fmap in Hin as (x & -> & Hx).
  apply list_elem_of_filter in Hx as [_ Hx]. cbn [fst] in *. rewrite list_elem_of_fmap. by exists x.
Qed.

(** the list of environment variables implements a finite map: no name occurs twice, and
    [env_get], [env_set] and [env_unset] are lookup, insertion and deletion. *)
Theorem env_refines e name value :
  NoDup e.*1 →
  env_get e name = env_map e !! name ∧
  env_map (env_set name value e) = <[name := value]> (env_map e) ∧ NoDup (env_set name value e).*1 ∧
  env_map (env_unset name e) = delete name (env_map e) ∧ NoDup (env_unset name e).*1.
Proof.
  intros He. split_and!; [apply env_get_map|apply env_set_map|by apply env_set_nodup|
    apply env_unset_map|by apply env_unset_nodup].
Qed.

(** ** Expansion *)

Lemma span_app p a b : Forall (λ c, p c = true) a → (∀ c, head b = Some c → p c = false) → span p (a ++ b) = (a, b).
Proof.
  intros Ha Hb. induction Ha as [|c a Hc Ha IH]; cbn.
  - destruct b as [|c b]; [done|]. cbn. by rewrite (Hb c eq_refl).
  - by rewrite Hc, IH.
Qed.

Lemma length_span p l : (length (span p l).2 ≤ length l)%nat.
Proof. induction l as [|b l IH]; cbn; [lia|]. destruct (p b); [|cbn; lia]. destruct (span p l). cbn in *. lia. Qed.

(** A name begins with a byte that it consumes. *)
Lemma length_span_lt p b l : p b = true → (length (span p (b :: l)).2 ≤ length l)%nat.
Proof. intros H. cbn. rewrite H. pose proof (length_span p l). by destruct (span p l). Qed.

Lemma name_start_byte c : name_start c = true → name_byte c = true.
Proof. unfold name_start, name_byte, alphanumeric. destruct (alphabetic c); cbn; [done|]. intros ->. by rewrite orb_true_r. Qed.

Lemma expand_fuel e f1 : ∀ f2 q line, (length line ≤ f1)%nat → (length line ≤ f2)%nat →
  expand_from f1 e q line = expand_from f2 e q line.
Proof.
  induction f1 as [|f1 IH]; intros [|f2] q [|b rest] H1 H2; cbn [length] in *; try done; try lia.
  cbn [expand_from]. rewrite !(IH f2 _ rest) by lia. destruct q; [done|].
  destruct (b =? 39); [done|]. destruct ((b =? 36) && _); [|done]. destruct rest as [|c rest]; [done|].
  cbn [length] in *. destruct (c =? 123).
  - pose proof (length_span (λ b, negb (b =? 125)) rest) as Hs. destruct (span _ rest) as [n r]. cbn [snd] in Hs.
    f_equal. apply IH; rewrite length_drop; lia.
  - destruct (name_start c) eqn:Hc; [|done].
    pose proof (length_span_lt name_byte c rest (name_start_byte _ Hc)) as Hs. destruct (span _ (c :: rest)) as [n r].
    cbn [snd] in Hs. f_equal. apply IH; lia.
Qed.

Definition plain (c : Z) : Prop := c ≠ 36 ∧ c ≠ 39.

Lemma expand_plain_app e a b : Forall plain a → expand_vars e (a ++ b) = a ++ expand_vars e b.
Proof.
  unfold expand_vars. induction 1 as [|c a [H1 H2] Ha IH]; [done|]. cbn [app length expand_from].
  rewrite !(proj2 (Z.eqb_neq _ _)) by done. cbn [andb]. by rewrite IH.
Qed.

(** A reference in braces, and one that ends where no byte of a name follows. *)
Definition valid_name (n : list Z) : Prop :=
  (∃ c n', n = c :: n' ∧ name_start c = true) ∧ Forall (λ b, name_byte b = true) n.

Lemma expand_step_brace f e l :
  expand_from (S f) e false (36 :: 123 :: l) =
    let '(name, r) := span (λ b, negb (b =? 125)) l in value_of e name ++ expand_from f e false (drop 1 r).
Proof. done. Qed.

Lemma expand_step_name f e c l : name_start c = true →
  expand_from (S f) e false (36 :: c :: l) =
    let '(name, r) := span name_byte (c :: l) in value_of e name ++ expand_from f e false r.
Proof.
  intros Hc. assert ((c =? 123) = false) as H by (apply Z.eqb_neq; intros ->; discriminate Hc).
  cbn [expand_from]. by rewrite H, Hc.
Qed.

Lemma expand_braces e name b : 125 ∉ name →
  expand_vars e ([36; 123] ++ name ++ [125] ++ b) = value_of e name ++ expand_vars e b.
Proof.
  intros Hn. unfold expand_vars. cbn [app length]. rewrite expand_step_brace, span_app.
  - f_equal. change (drop 1 (125 :: b)) with b. apply expand_fuel; [|done]. rewrite length_app. cbn. lia.
  - apply Forall_forall. intros c Hc. apply negb_true_iff, Z.eqb_neq. congruence.
  - by intros c [= <-].
Qed.

Lemma expand_name e name b : valid_name name → (∀ c, head b = Some c → name_byte c = false) →
  expand_vars e ([36] ++ name ++ b) = value_of e name ++ expand_vars e b.
Proof.
  intros [(c & n & -> & Hc) Hn] Hb. unfold expand_vars. cbn [app length]. rewrite expand_step_name by done.
  change (c :: n ++ b) with ((c :: n) ++ b). rewrite span_app by done. f_equal.
  apply expand_fuel; [|done]. rewrite length_app. lia.
Qed.

(** after text without [$] and single quotes, [${NAME}] becomes the value of the variable,
    and so does [$NAME] when no further byte of a name follows; an unset variable becomes
    nothing, the text before is kept and the rest is expanded in turn. *)
Theorem expand_spec e a name b :
  Forall plain a →
  (125 ∉ name → expand_vars e (a ++ [36; 123] ++ name ++ [125] ++ b) = a ++ value_of e name ++ expand_vars e b) ∧
  (valid_name name → (∀ c, head b = Some c → name_byte c = false) →
     expand_vars e (a ++ [36] ++ name ++ b) = a ++ value_of e name ++ expand_vars e b).
Proof.
  intros Ha. split; intros; rewrite expand_plain_app by done; f_equal; [by apply expand_braces|by apply expand_name].
Qed.

(** ** Parsing *)

Definition quote (w : list Z) : list Z := 34 :: w ++ [34].

Definition print_redir (op : Z) (f : option (list Z)) : list Z :=
  match f with Some w => [op; 32] ++ quote w ++ [32] | None => [] end.

(** A stage with every word in double quotes, and a pipeline. *)
Definition print_stage (s : stage) : list Z :=
  concat ((λ w, quote w ++ [32]) <$> args s) ++ print_redir 60 (stdin_file s) ++ print_redir 62 (stdout_file s).

Definition print_pipeline (ss : list stage) : list Z := join [124] (print_stage <$> ss).

Definition operators : list (list Z) := [[124]; [60]; [62]; [62; 62]].

(** Words that survive quoting and expansion; file names may be operators. *)
Definition good_word (w : list Z) : Prop := w ≠ [] ∧ (34 ∉ w) ∧ Forall plain w.
Definition good_stage (s : stage) : Prop :=
  args s ≠ [] ∧ Forall (λ w, good_word w ∧ w ∉ operators) (args s) ∧
  (∀ f, stdin_file s = Some f → good_word f) ∧ (∀ f, stdout_file s = Some f → good_word f).

Lemma tokenise_quoted w : ∀ cur rest, 34 ∉ w → tokenise (Some 34) cur (w ++ 34 :: rest) = tokenise None (cur ++ w) rest.
Proof.
  induction w as [|b w IH]; intros cur rest Hw; cbn [app tokenise].
  { by rewrite Z.eqb_refl, app_nil_r. }
  rewrite not_elem_of_cons in Hw. destruct Hw as [Hb Hw]. rewrite (proj2 (Z.eqb_neq _ _)) by congruence.
  rewrite IH by done. by rewrite <-app_assoc.
Qed.

Lemma tokenise_word w rest : good_word w → tokenise None [] (quote w ++ 32 :: rest) = w :: tokenise None [] rest.
Proof.
  intros (Hne & Hq & _). unfold quote. rewrite <-app_comm_cons, <-app_assoc. cbn [app].
  change (tokenise None [] (34 :: w ++ 34 :: 32 :: rest)) with (tokenise (Some 34) [] (w ++ 34 :: 32 :: rest)).
  rewrite tokenise_quoted by done. cbn. unfold flush. by rewrite bool_decide_false.
Qed.

Lemma tokenise_words ws rest : Forall good_word ws →
  tokenise None [] (concat ((λ w, quote w ++ [32]) <$> ws) ++ rest) = ws ++ tokenise None [] rest.
Proof.
  induction 1 as [|w ws Hw Hws IH]; [done|]. cbn [fmap list_fmap concat]. rewrite <-!app_assoc. cbn [app].
  rewrite tokenise_word by done. exact (f_equal (cons w) IH).
Qed.

Lemma tokenise_redir op f rest : op = 60 ∨ op = 62 → (∀ w, f = Some w → good_word w) →
  tokenise None [] (print_redir op f ++ rest) =
    match f with Some w => [op] :: w :: tokenise None [] rest | None => tokenise None [] rest end.
Proof.
  intros Hop Hf. destruct f as [w|]; [|done]. unfold print_redir. rewrite <-!app_assoc.
  assert (∀ l, tokenise None [] (op :: 32 :: l) = [op] :: tokenise None [] l) as H by (by destruct Hop as [-> | ->]).
  cbn [app]. rewrite H. f_equal. rewrite <-tokenise_word by auto. done.
Qed.

(** The tokens of a stage. *)
Definition stage_tokens (s : stage) : list (list Z) :=
  args s ++ match stdin_file s with Some f => [[60]; f] | None => [] end
         ++ match stdout_file s with Some f => [[62]; f] | None => [] end.

Lemma tokenise_stage s rest : good_stage s →
  tokenise None [] (print_stage s ++ rest) = stage_tokens s ++ tokenise None [] rest.
Proof.
  intros (_ & Ha & Hi & Ho). unfold print_stage, stage_tokens. rewrite <-!app_assoc.
  rewrite tokenise_words by (eapply Forall_impl; [exact Ha|naive_solver]). f_equal.
  rewrite tokenise_redir by auto. destruct (stdin_file s); rewrite tokenise_redir by auto; by destruct (stdout_file s).
Qed.

Lemma build_words ws ts cur : Forall (λ w, w ∉ operators) ws →
  build_stages (ws ++ ts) cur = build_stages ts (mkStage (args cur ++ ws) (stdin_file cur) (stdout_file cur)).
Proof.
  intros Hws. revert cur. induction Hws as [|w ws Hw Hws IH]; intros cur; [by rewrite app_nil_r; destruct cur|].
  unfold operators in Hw. rewrite !not_elem_of_cons in Hw. destruct Hw as (H1 & H2 & H3 & H4 & _).
  cbn [app build_stages]. rewrite !bool_decide_false by done. cbn [orb]. rewrite IH. cbn. by rewrite <-app_assoc.
Qed.

Lemma build_stage s ts : good_stage s → build_stages (stage_tokens s ++ ts) empty_stage = build_stages ts s.
Proof.
  intros (_ & Ha & _ & _). unfold stage_tokens. rewrite <-!app_assoc.
  rewrite build_words by (eapply Forall_impl; [exact Ha|naive_solver]).
  destruct s as [a [i|] [o|]]; done.
Qed.

Lemma parse_stages ss : Forall good_stage ss → ss ≠ [] → parse_pipeline (print_pipeline ss) = ss.
Proof.
  unfold parse_pipeline, print_pipeline. induction 1 as [|s ss Hs Hss IH]; [done|]. intros _.
  assert (finish s = [s]) as Hf by (unfold finish; rewrite bool_decide_false; [done|apply Hs]).
  destruct ss as [|s' ss].
  - cbn [fmap list_fmap join]. rewrite <-(app_nil_r (print_stage s)), tokenise_stage, build_stage by done. exact Hf.
  - change (join [124] (print_stage <$> (s :: s' :: ss))) with (print_stage s ++ 124 :: join [124] (print_stage <$> (s' :: ss))).
    rewrite tokenise_stage, build_stage by done.
    change (build_stages (tokenise None [] (124 :: ?l)) s) with (s :: build_stages (tokenise None [] l) empty_stage).
    by rewrite IH.
Qed.

Lemma plain_app a b : Forall plain (a ++ b) ↔ Forall plain a ∧ Forall plain b.
Proof. apply Forall_app. Qed.

Lemma quote_plain w : Forall plain w → Forall plain (quote w ++ [32]).
Proof. intros Hw. unfold quote. rewrite Forall_app, Forall_cons, Forall_app, !Forall_singleton. by repeat split. Qed.

Lemma redir_plain op f : plain op → (∀ w, f = Some w → good_word w) → Forall plain (print_redir op f).
Proof.
  intros Hop Hf. destruct f as [w|]; [|constructor]. cbn [print_redir app]. apply Forall_cons. split; [done|].
  apply Forall_cons. split; [done|]. apply quote_plain. by apply (Hf w).
Qed.

Lemma stage_plain s : good_stage s → Forall plain (print_stage s).
Proof.
  intros (_ & Ha & Hi & Ho). unfold print_stage. rewrite !Forall_app. split_and!; [|by apply redir_plain..].
  induction Ha as [|w ws [Hw _] Hws IH]; [constructor|]. cbn [fmap list_fmap concat]. apply Forall_app.
  split; [apply quote_plain, Hw|exact IH].
Qed.

Lemma pipeline_plain ss : Forall good_stage ss → Forall plain (print_pipeline ss).
Proof.
  unfold print_pipeline. induction 1 as [|s ss Hs Hss IH]; [constructor|]. destruct ss as [|s' ss].
  - by apply stage_plain.
  - change (join [124] (print_stage <$> (s :: s' :: ss))) with
      (print_stage s ++ [124] ++ join [124] (print_stage <$> (s' :: ss))).
    rewrite !Forall_app. split_and!; [by apply stage_plain|by apply Forall_singleton|done].
Qed.

(** a pipeline printed with every word in double quotes parses to itself, under any
    environment: words may hold blanks and the bytes of operators.  (They may not hold a
    dollar sign or a quote, and an argument may not be an operator itself.) *)
Theorem pipeline_roundtrip e ss :
  Forall good_stage ss → ss ≠ [] → parse_line e (print_pipeline ss) = ss.
Proof.
  intros Hss Hne. unfold parse_line. rewrite <-(app_nil_r (print_pipeline ss)), expand_plain_app by (by apply pipeline_plain).
  rewrite app_nil_r. by apply parse_stages.
Qed.

(** quotes do not protect operators.  Single quotes are gone before the line is split, so
    that the line [echo 'a|b'] is a pipeline of two commands; a word of one operator is
    taken for the operator though it stands in double quotes. *)
Theorem quotes_lost e :
  parse_line e (str "echo 'a|b'") = [mkStage [str "echo"; str "a"] None None; mkStage [str "b"] None None] ∧
  parse_line e (str "echo " ++ quote [124] ++ str " x") = [mkStage [str "echo"] None None; mkStage [str "x"] None None].
Proof. split; vm_compute; reflexivity. Qed.

(** ** Paths *)

Lemma push_parts_foldl cs : ∀ parts, push_parts cs parts = foldl push_component parts cs.
Proof.
  induction cs as [|c cs IH]; intros parts; [done|]. cbn [push_parts foldl]. rewrite <-!IH.
  unfold push_component. destruct (bool_decide (c = []) || _); [done|]. by destruct (bool_decide (c = str "..")).
Qed.

Lemma normalize_abs_components p : normalize_path p = abs (components p).
Proof. unfold normalize_path. by rewrite push_parts_foldl. Qed.

Lemma resolve_normal sh p : Vfs.normalize_path (resolve sh p) = resolve sh p.
Proof. unfold resolve. rewrite normalize_abs_components. apply normalize_abs, components_valid. Qed.

(** the shell's normal form is the server's.  An absolute path is normalized alike by
    both, and what [resolve] gives is absolute and already in the server's normal form,
    with components that are not empty, [.] or [..]. *)
Theorem resolve_canonical sh p :
  (is_absolute p = true → normalize_path p = Vfs.normalize_path p) ∧
  is_absolute (resolve sh p) = true ∧ Vfs.normalize_path (resolve sh p) = resolve sh p ∧
  Forall valid (components (resolve sh p)).
Proof.
  split_and!.
  - intros Hp. rewrite normalize_abs_components. unfold Vfs.normalize_path. by rewrite Hp.
  - done.
  - apply resolve_normal.
  - apply components_valid.
Qed.

(** ** Witnesses *)

Lemma env_refines_witness :
  env_get (env shell_new) (str "USER") = Some (str "guest") ∧
  NoDup (env_set (str "X") (str "1") (env shell_new)).*1 ∧
  env_map (env_unset (str "X") (env shell_new)) !! str "X" = None.
Proof.
  assert (NoDup (env shell_new).*1) as Hn by (apply (bool_decide_unpack _); vm_compute; exact I).
  split_and!; [reflexivity| |].
  - apply (env_refines (env shell_new) (str "X") (str "1") Hn).
  - rewrite (proj1 (proj2 (proj2 (proj2 (env_refines (env shell_new) (str "X") (str "1") Hn))))).
    apply lookup_delete_eq.
Defined.

Lemma expand_spec_witness :
  expand_vars (env shell_new) (str "echo " ++ [36; 123] ++ str "USER" ++ [125] ++ str "x") = str "echo guestx".
Proof.
  rewrite (proj1 (expand_spec (env shell_new) (str "echo ") (str "USER") (str "x")
    ltac:(apply (bool_decide_unpack (Forall (λ c, c ≠ 36 ∧ c ≠ 39) (str "echo "))); vm_compute; exact I))
    ltac:(apply (bool_decide_unpack _); vm_compute; exact I)).
  vm_compute. reflexivity.
Defined.

Definition demo_pipeline : list stage :=
  [mkStage [str "cat"; str "a | b"] (Some (str "in")) None; mkStage [str "wc"] None (Some (str "out > 1"))].

Lemma pipeline_roundtrip_witness : parse_line [] (print_pipeline demo_pipeline) = demo_pipeline.
Proof.
  apply (pipeline_roundtrip [] demo_pipeline); [|done].
  assert (∀ w, bool_decide (w ≠ [] ∧ (34 ∉ w) ∧ Forall (λ c, c ≠ 36 ∧ c ≠ 39) w) = true → good_word w) as Hgood.
  { intros w H. by apply bool_decide_eq_true in H. }
  repeat apply Forall_cons_2; [..|apply Forall_nil_2]; split_and!; try done.
  - repeat apply Forall_cons_2; [..|apply Forall_nil_2];
      (split; [apply Hgood; vm_compute; reflexivity|apply (bool_decide_unpack _); vm_compute; exact I]).
  - intros f [= <-]. apply Hgood. vm_compute. reflexivity.
  - repeat apply Forall_cons_2; [..|apply Forall_nil_2];
      (split; [apply Hgood; vm_compute; reflexivity|apply (bool_decide_unpack _); vm_compute; exact I]).
  - intros f [= <-]. apply Hgood. vm_compute. reflexivity.
Defined.

Lemma resolve_canonical_witness :
  normalize_path (str "/a/./b/../c") = str "/a/c" ∧ Vfs.normalize_path (resolve shell_new (str "x/..")) = str "/".
Proof.
  split; [rewrite (proj1 (resolve_canonical shell_new (str "/a/./b/../c")) eq_refl); vm_compute; reflexivity|].
  rewrite (proj1 (proj2 (proj2 (resolve_canonical shell_new (str "x/.."))))). vm_compute. reflexivity.
Defined.
