(* ===== verification/LineEdit.v ===== *)
(** * The shell's line editor (user/sh/src/main.rs)

    Reading a command line in raw mode: editing keys, history, completion, and what is
    written to the terminal for each.  The directory listings completion asks for are an
    argument ([getdents]), the terminal is the one of [Term].

    [line_edit_screen] is a simulation between the editor and the terminal: after every
    key the terminal shows the prompt and the line, with its cursor where the editor's is.
    [line_edit_refines] says what each key does to the line. *)

From Stdlib Require Import ZArith Lia.
From stdpp Require Import prelude gmap strings.
From S2P Require Import Prelude Vfs Term ShellLang.

Local Open Scope Z_scope.

Definition prompt (sh : shell) : M io unit :=
  wrt GREEN ;;
  wrt (str "guest@openv") ;;
  wrt RESET ;;
  wrt (str ":") ;;
  wrt CYAN ;;
  wrt (if bool_decide (cwd sh = str "/") then str "~" else cwd sh) ;;
  wrt RESET ;;
  wrt (str "$ ").

(** The local variables of [read_line_raw]. *)
Record line : Type := mkLine { buf : list Z; cursor : nat; hist_idx : nat; saved : list Z }.

Definition set_buf (b : list Z) (c : nat) (l : line) : line := mkLine b c (hist_idx l) (saved l).

Definition blanks (n : nat) : M io unit := for_each (replicate n tt) (λ _, wrt [32]).

Definition replace_input (old_buf : list Z) (old_cursor : nat) (new_buf : list Z) : M io unit :=
  move_left old_cursor ;;
  wrt new_buf ;;
  if (length new_buf <? length old_buf)%nat then
    blanks (length old_buf - length new_buf) ;; move_left (length old_buf - length new_buf)
  else mret tt.

(** ** Completion *)

(** The names in a listing, each ended by a zero byte. *)
Fixpoint names_from (cur bytes : list Z) : list (list Z) :=
  match bytes with
  | [] => if bool_decide (cur = []) then [] else [cur]
  | b :: rest =>
      if b =? 0 then (if bool_decide (cur = []) then names_from [] rest else cur :: names_from [] rest)
      else names_from (cur ++ [b]) rest
  end.

Definition COMMANDS : list (list Z) :=
  str <$> ["echo"; "ls"; "cat"; "pwd"; "cd"; "mkdir"; "rm"; "touch"; "help"; "clear"; "history"; "nano";
           "whoami"; "hostname"; "uname"; "exit"]%string.

(** The last slash of a prefix splits it into directory and name. *)
Fixpoint rposition (p : Z → bool) (l : list Z) : option nat :=
  match l with
  | [] => None
  | b :: l' => match rposition p l' with
               | Some i => Some (S i)
               | None => if p b then Some 0%nat else None
               end
  end.

Section completion.
Context (getdents : list Z → option (list Z)).

Definition complete_path (sh : shell) (prefix : list Z) : list (list Z) :=
  let '(dir_path, name_prefix, path_prefix) :=
    match rposition (λ b, b =? 47) prefix with
    | Some pos => (resolve sh (take (S pos) prefix), drop (S pos) prefix, take (S pos) prefix)
    | None => (cwd sh, prefix, [])
    end in
  match getdents dir_path with
  | None => []
  | Some bytes =>
      (λ e, path_prefix ++ e) <$>
        filter (λ e, e ≠ str "." ∧ e ≠ str ".." ∧ starts_with name_prefix e = true) (names_from [] bytes)
  end.

(** Names that are not among the matches yet. *)
Fixpoint add_matches (prefix : list Z) (es matches : list (list Z)) : list (list Z) :=
  match es with
  | [] => matches
  | e :: es' => add_matches prefix es'
      (if starts_with prefix e && negb (bool_decide (e ∈ matches)) then matches ++ [e] else matches)
  end.

Definition complete_command (sh : shell) (prefix : list Z) : list (list Z) :=
  if starts_with [47] prefix then complete_path sh prefix
  else
    let matches := filter (λ b, starts_with prefix b = true) COMMANDS in
    match getdents (str "/") with
    | None => matches
    | Some bytes => add_matches prefix (names_from [] bytes) matches
    end.

Definition apply_completion (l : line) (word_start : nat) (completion : list Z) : M io line :=
  let old_word_len := (cursor l - word_start)%nat in
  let tail := drop (cursor l) (buf l) in
  (if (0 <? old_word_len)%nat then move_left old_word_len else mret tt) ;;
  wrt completion ;;
  (if bool_decide (tail = []) then mret tt else wrt tail ;; move_left (length tail)) ;;
  (if (length completion <? old_word_len)%nat then
     blanks (old_word_len - length completion) ;; move_left (old_word_len - length completion)
   else mret tt) ;;
  let head := take word_start (buf l) ++ completion in
  mret (set_buf (head ++ tail) (length head) l).

(** Start of the word that ends at the cursor: steps back over the bytes before it. *)
Fixpoint word_start_from (rev_before : list Z) : nat :=
  match rev_before with
  | [] => 0
  | b :: r => if (b =? 32) || (b =? 9) then length rev_before else word_start_from r
  end.
Definition word_start (l : line) : nat := word_start_from (rev (take (cursor l) (buf l))).

Definition redraw (sh : shell) (l : line) (matches : list (list Z)) : M io unit :=
  wrt [13; 10] ;;
  for_each matches (λ m, wrt m ;; wrt (str "  ")) ;;
  wrt [13; 10] ;;
  prompt sh ;;
  wrt (take (cursor l) (buf l)) ;;
  let tail := (length (buf l) - cursor l)%nat in
  if (0 <? tail)%nat then wrt (drop (cursor l) (buf l)) ;; move_left tail else mret tt.

Definition tab_complete (sh : shell) (l : line) : M io line :=
  let ws := word_start l in
  let prefix := slice (buf l) ws (cursor l - ws) in
  let is_cmd := forallb (λ b, (b =? 32) || (b =? 9)) (take ws (buf l)) in
  let matches := if is_cmd then complete_command sh prefix else complete_path sh prefix in
  match matches with
  | [] => wrt [7] ;; mret l
  | [m] => apply_completion l ws m
  | _ => redraw sh l matches ;; mret l
  end.

(** ** Keys *)

Inductive turn : Type := Done (b : list Z) | Go (l : line).

Definition key_up (sh : shell) (l : line) : M io turn :=
  if (0 <? hist_idx l)%nat then
    let sv := if (hist_idx l =? length (history sh))%nat then buf l else saved l in
    let i := (hist_idx l - 1)%nat in
    match history sh !! i with
    | None => panic out_of_range
    | Some entry =>
        replace_input (buf l) (cursor l) entry ;;
        mret (Go (mkLine entry (length entry) i sv))
    end
  else mret (Go l).

Definition key_down (sh : shell) (l : line) : M io turn :=
  if (hist_idx l <? length (history sh))%nat then
    let i := (hist_idx l + 1)%nat in
    match (if (i =? length (history sh))%nat then Some (saved l) else history sh !! i) with
    | None => panic out_of_range
    | Some entry =>
        replace_input (buf l) (cursor l) entry ;;
        mret (Go (mkLine entry (length entry) i (saved l)))
    end
  else mret (Go l).

Definition key_right (l : line) : M io turn :=
  if (cursor l <? length (buf l))%nat then
    wrt (slice (buf l) (cursor l) 1) ;; mret (Go (set_buf (buf l) (cursor l + 1) l))
  else mret (Go l).

Definition key_left (l : line) : M io turn :=
  if (0 <? cursor l)%nat then move_left 1 ;; mret (Go (set_buf (buf l) (cursor l - 1) l)) else mret (Go l).

Definition key_home (l : line) : M io turn :=
  if (0 <? cursor l)%nat then move_left (cursor l) ;; mret (Go (set_buf (buf l) 0 l)) else mret (Go l).

Definition key_end (l : line) : M io turn :=
  if (cursor l <? length (buf l))%nat then
    wrt (drop (cursor l) (buf l)) ;; mret (Go (set_buf (buf l) (length (buf l)) l))
  else mret (Go l).

(** Redrawing after the byte at [c] was removed. *)
Definition redraw_removed (b : list Z) (c : nat) (l : line) : M io turn :=
  wrt (drop c b) ;; wrt [32] ;; move_left (length b - c + 1) ;; mret (Go (set_buf b c l)).

Definition key_delete (l : line) : M io turn :=
  if (cursor l <? length (buf l))%nat then redraw_removed (delete (cursor l) (buf l)) (cursor l) l
  else mret (Go l).

Definition key_backspace (l : line) : M io turn :=
  if (0 <? cursor l)%nat then
    let b := delete (cursor l - 1)%nat (buf l) in
    move_left 1 ;; redraw_removed b (cursor l - 1) l
  else mret (Go l).

Definition key_kill (l : line) : M io turn :=
  move_left (cursor l) ;; blanks (length (buf l)) ;; move_left (length (buf l)) ;; mret (Go (set_buf [] 0 l)).

Definition key_insert (c : Z) (l : line) : M io turn :=
  let b := take (cursor l) (buf l) ++ c :: drop (cursor l) (buf l) in
  wrt (drop (cursor l) b) ;;
  let tail := (length b - (cursor l + 1))%nat in
  (if (0 <? tail)%nat then move_left tail else mret tt) ;;
  mret (Go (set_buf b (cursor l + 1) l)).

(** The keys that begin with an escape byte. *)
Definition escape_key (sh : shell) (l : line) : M io turn :=
  b1 ← read_raw_byte;
  if negb (b1 =? 91) then mret (Go l)
  else
    b2 ← read_raw_byte;
    if b2 =? 65 then key_up sh l
    else if b2 =? 66 then key_down sh l
    else if b2 =? 67 then key_right l
    else if b2 =? 68 then key_left l
    else if b2 =? 72 then key_home l
    else if b2 =? 70 then key_end l
    else if b2 =? 51 then read_raw_byte ;; key_delete l
    else mret (Go l).

Definition line_turn (sh : shell) (l : line) : M io turn :=
  c ← read_raw_byte;
  if (c =? 13) || (c =? 10) then wrt [13; 10] ;; mret (Done (buf l))
  else if c =? 27 then escape_key sh l
  else if (c =? 127) || (c =? 8) then key_backspace l
  else if c =? 3 then wrt (str "^C" ++ [13; 10]) ;; mret (Done [])
  else if c =? 1 then key_home l
  else if c =? 5 then key_end l
  else if c =? 21 then key_kill l
  else if c =? 9 then l' ← tab_complete sh l; mret (Go l')
  else if 32 <=? c then key_insert c l
  else mret (Go l).

(** Every turn reads a byte, so more turns than bytes end in waiting. *)
Fixpoint read_line_loop (fuel : nat) (sh : shell) (l : line) : M io (list Z) :=
  match fuel with
  | O => fail waits
  | S f =>
      t ← line_turn sh l;
      match t with Done b => mret b | Go l' => read_line_loop f sh l' end
  end.

Definition read_line_raw (sh : shell) : M io (list Z) :=
  n ← gets (λ w, length (inp w));
  read_line_loop (S n) sh (mkLine [] 0 (length (history sh)) []).
End completion.

(** ** What is written *)

(** A computation that only writes. *)
Definition emits (c : M io unit) (b : list Z) : Prop := ∀ w, c w = (Ok tt, mkIo (inp w) (out w ++ b)).

Lemma emits_wrt b : emits (wrt b) b.
Proof. done. Qed.

Lemma emits_ret : emits (mret tt) [].
Proof. intros []. unfold mret, M_ret. cbn. by rewrite app_nil_r. Qed.

Lemma emits_bind c1 c2 b1 b2 : emits c1 b1 → emits c2 b2 → emits (c1 ;; c2) (b1 ++ b2).
Proof. intros H1 H2 w. erewrite bind_ok by apply H1. rewrite H2. cbn. by rewrite <-app_assoc. Qed.

Lemma emits_left n : (n < MAX_MOVE)%nat → emits (move_left n) (left_seq n).
Proof. intros Hn w. by rewrite move_left_ok. Qed.

Lemma emits_blanks n : emits (blanks n) (replicate n 32).
Proof.
  unfold blanks. induction n as [|n IH]; [apply emits_ret|]. cbn [replicate for_each].
  apply (emits_bind (wrt [32]) _ [32] (replicate n 32)); [apply emits_wrt|exact IH].
Qed.

Lemma emits_if (b : bool) c1 c2 b1 b2 : emits c1 b1 → emits c2 b2 → emits (if b then c1 else c2) (if b then b1 else b2).
Proof. by destruct b. Qed.

Create HintDb emits.
#[export] Hint Resolve emits_wrt emits_ret emits_bind emits_left emits_blanks : emits.

(** Output followed by a result. *)
Lemma emits_then {A} c b (k : M io A) w : emits c b → (c ;; k) w = k (mkIo (inp w) (out w ++ b)).
Proof. intros H. by erewrite bind_ok by apply H. Qed.

(** ** The screen *)

Definition prompt_text (sh : shell) : list Z :=
  str "guest@openv" ++ str ":" ++ (if bool_decide (cwd sh = str "/") then str "~" else cwd sh) ++ str "$ ".

(** The prompt, the line and blanks, the terminal's cursor at the line's. *)
Definition screen (p : list Z) (l : line) (k : nat) : term :=
  mkTerm (p ++ buf l ++ replicate k 32) (length p + cursor l) Ground.

Definition shows (sh : shell) (l : line) (w : io) : Prop :=
  ∃ k, feed blank_term (out w) = screen (prompt_text sh) l k.

(** Well-formed lines, of printable bytes. *)
Record line_ok (sh : shell) (l : line) : Prop := {
  lo_cursor : (cursor l ≤ length (buf l))%nat;
  lo_buf : Forall printable (buf l);
  lo_hist : (hist_idx l ≤ length (history sh))%nat;
  lo_saved : Forall printable (saved l);
}.

(** A line of [x] and [y] with the cursor in between. *)
Definition split_at (l : line) (x y : list Z) : Prop := buf l = x ++ y ∧ cursor l = length x.

Lemma line_ok_split sh l : line_ok sh l → ∃ x y, split_at l x y ∧ Forall printable x ∧ Forall printable y.
Proof.
  intros [Hc Hb _ _]. exists (take (cursor l) (buf l)), (drop (cursor l) (buf l)). split_and!.
  - split; [by rewrite take_drop|]. rewrite length_take. lia.
  - by apply Forall_take.
  - by apply Forall_drop.
Qed.

Lemma screen_split p l x y k : split_at l x y →
  screen p l k = mkTerm ((p ++ x) ++ y ++ replicate k 32) (length (p ++ x)) Ground.
Proof. intros [Hb Hc]. unfold screen. by rewrite Hb, Hc, length_app, <-!app_assoc. Qed.

Lemma blanks_printable n : Forall printable (replicate n 32).
Proof. apply Forall_replicate. unfold printable. lia. Qed.

Lemma drop_blanks n k : drop n (replicate k (32 : Z)) = replicate (k - n) 32.
Proof. apply drop_replicate. Qed.

(** Moving back over [b]. *)
Lemma feed_back a b r : (length b < MAX_MOVE)%nat →
  feed (mkTerm (a ++ b ++ r) (length (a ++ b)) Ground) (left_seq (length b)) = mkTerm (a ++ b ++ r) (length a) Ground.
Proof. intros Hb. rewrite feed_left by done. f_equal. rewrite length_app. lia. Qed.

(** Text written over what was there, and the cursor moved back over it. *)
Lemma feed_over a s r : Forall printable s → (length s < MAX_MOVE)%nat →
  feed (mkTerm (a ++ r) (length a) Ground) (s ++ left_seq (length s)) =
    mkTerm (a ++ s ++ drop (length s) r) (length a) Ground.
Proof.
  intros Hs Hl. rewrite feed_app, feed_text by done. rewrite <-length_app. by apply feed_back.
Qed.

(** A key that leads to the line [l'] and keeps the screen in step. *)
Definition draws (sh : shell) (l : line) (c : M io turn) (l' : line) : Prop :=
  ∀ w, shows sh l w → ∃ w', c w = (Ok (Go l'), w') ∧ inp w' = inp w ∧ shows sh l' w'.

(** Output that ends in the next line. *)
Definition emits_go (c : M io turn) (b : list Z) (l' : line) : Prop :=
  ∀ w, c w = (Ok (Go l'), mkIo (inp w) (out w ++ b)).

Lemma emits_go_ret l' : emits_go (mret (Go l')) [] l'.
Proof. intros []. unfold mret, M_ret. cbn. by rewrite app_nil_r. Qed.

Lemma emits_go_bind c1 b1 c2 b2 l' : emits c1 b1 → emits_go c2 b2 l' → emits_go (c1 ;; c2) (b1 ++ b2) l'.
Proof. intros H1 H2 w. rewrite (emits_then _ _ _ _ H1), H2. cbn. by rewrite <-app_assoc. Qed.

Lemma draws_emits sh l (c : M io turn) b l' :
  emits_go c b l' → (∀ k, ∃ k', feed (screen (prompt_text sh) l k) b = screen (prompt_text sh) l' k') →
  draws sh l c l'.
Proof.
  intros Hc Hf w [k Hk]. eexists. rewrite Hc. split; [reflexivity|]. split; [done|].
  unfold shows. cbn [out]. rewrite feed_app, Hk. apply Hf.
Qed.

Lemma draws_stay sh l : draws sh l (mret (Go l)) l.
Proof. intros w H. by exists w. Qed.

Definition small (l : line) : Prop := (length (buf l) + 1 < MAX_MOVE)%nat.

Section keys.
Context (sh : shell) (l : line) (x y : list Z).
Hypothesis Hsp : split_at l x y.
Hypothesis Hx : Forall printable x.
Hypothesis Hy : Forall printable y.
Hypothesis Hsmall : small l.

Let p := prompt_text sh.

Lemma split_small : (length x + length y + 1 < MAX_MOVE)%nat.
Proof. unfold small in Hsmall. destruct Hsp as [Hb _]. rewrite Hb, length_app in Hsmall. lia. Qed.

Lemma key_right_draws :
  draws sh l (key_right l) (match y with [] => l | c :: y' => set_buf (x ++ y) (length x + 1) l end).
Proof.
  destruct Hsp as [Hb Hc]. unfold key_right. rewrite Hb, Hc, length_app. destruct y as [|c y'].
  - rewrite (proj2 (Nat.ltb_ge _ _)) by (cbn; lia). apply draws_stay.
  - rewrite (proj2 (Nat.ltb_lt _ _)) by (cbn; lia). eapply draws_emits; [eapply emits_go_bind; [apply emits_wrt|apply emits_go_ret]|]. intros k. exists k. rewrite app_nil_r.
    rewrite (screen_split _ _ _ _ _ Hsp). unfold slice. rewrite drop_app_length. cbn [take].
    rewrite take_0, feed_text by (by apply Forall_cons in Hy as [? _]; apply Forall_singleton).
    unfold screen. cbn. by rewrite length_app, <-!app_assoc, Nat.add_assoc.
Qed.

Lemma key_end_draws : draws sh l (key_end l) (set_buf (x ++ y) (length (x ++ y)) l).
Proof.
  destruct Hsp as [Hb Hc]. unfold key_end. rewrite Hb, Hc. destruct (Nat.ltb_spec (length x) (length (x ++ y))) as [H|H].
  - eapply draws_emits; [eapply emits_go_bind; [apply emits_wrt|apply emits_go_ret]|]. intros k. exists k. rewrite app_nil_r. rewrite (screen_split _ _ _ _ _ Hsp), drop_app_length.
    rewrite feed_text, drop_app_length by done. unfold screen. cbn. by rewrite !length_app, <-!app_assoc, Nat.add_assoc.
  - rewrite length_app in H. destruct y; [|cbn in H; lia]. rewrite app_nil_r in *. destruct l. cbn in *. subst. apply draws_stay.
Qed.

Lemma key_left_draws : draws sh l (key_left l) (set_buf (x ++ y) (length x - 1) l).
Proof.
  destruct Hsp as [Hb Hc]. unfold key_left. rewrite Hb, Hc. destruct (Nat.ltb_spec 0 (length x)) as [H|H].
  - eapply draws_emits; [eapply emits_go_bind; [apply emits_left; pose proof max_move_eq; lia|apply emits_go_ret]|]. intros k. exists k. rewrite app_nil_r.
    rewrite (screen_split _ _ _ _ _ Hsp), feed_left by (pose proof max_move_eq; lia).
    unfold screen. cbn. rewrite length_app, <-!app_assoc. f_equal. lia.
  - replace (length x - 1)%nat with (length x) by lia. destruct l. cbn in *. subst. apply draws_stay.
Qed.

Lemma key_home_draws : draws sh l (key_home l) (set_buf (x ++ y) 0 l).
Proof.
  pose proof split_small. destruct Hsp as [Hb Hc]. unfold key_home. rewrite Hb, Hc. destruct (Nat.ltb_spec 0 (length x)) as [H1|H1].
  - eapply draws_emits; [eapply emits_go_bind; [apply emits_left; lia|apply emits_go_ret]|]. intros k. exists k. rewrite app_nil_r.
    rewrite (screen_split _ _ _ _ _ Hsp), feed_left by lia.
    unfold screen. cbn. rewrite length_app, <-!app_assoc. f_equal. lia.
  - destruct x; [|cbn in H1; lia]. destruct l. cbn in *. subst. apply draws_stay.
Qed.

Lemma if_left n : (n < MAX_MOVE)%nat → emits (if (0 <? n)%nat then move_left n else mret tt) (left_seq n).
Proof. intros Hn. destruct n; [apply emits_ret|]. by apply (emits_left (S n)). Qed.

Lemma key_insert_draws c : printable c → draws sh l (key_insert c l) (set_buf (x ++ c :: y) (length x + 1) l).
Proof.
  intros Hpc. pose proof split_small. destruct Hsp as [Hb Hc]. unfold key_insert. rewrite Hb, Hc, take_app_length, !drop_app_length.
  replace (length (x ++ c :: y) - (length x + 1))%nat with (length y) by (rewrite length_app; cbn; lia).
  eapply draws_emits; [eapply emits_go_bind; [apply emits_wrt|eapply emits_go_bind; [apply if_left; lia|apply emits_go_ret]]|].
  intros k. exists (k - 1)%nat. rewrite app_nil_r, (screen_split _ _ _ _ _ Hsp), feed_app, feed_text by (by constructor).
  cbn [length]. rewrite <-Nat.add_1_r, <-drop_drop, drop_app_length, drop_blanks.
  unfold screen. cbn. rewrite feed_left, !length_app by lia. rewrite <-!app_assoc. f_equal. lia.
Qed.

(** [c] is the byte removed, between [a] and [y]. *)
Lemma redraw_removed_feeds a c q k : Forall printable q → (length q + 1 < MAX_MOVE)%nat →
  feed (mkTerm (a ++ c :: q ++ replicate k 32) (length a) Ground) (q ++ [32] ++ left_seq (length q + 1)) =
    mkTerm (a ++ q ++ replicate (S k) 32) (length a) Ground.
Proof.
  intros Hq Hl. replace (q ++ [32] ++ left_seq (length q + 1)) with ((q ++ [32]) ++ left_seq (length (q ++ [32])))
    by (rewrite length_app, <-app_assoc; done).
  change (a ++ c :: q ++ ?r) with (a ++ ((c :: q) ++ r)). rewrite feed_over.
  - rewrite length_app. cbn [length]. replace (length q + 1)%nat with (length (c :: q)) by (cbn; lia).
    rewrite drop_app_length, <-app_assoc. done.
  - apply Forall_app. split; [done|]. apply Forall_singleton. unfold printable. lia.
  - rewrite length_app. cbn. lia.
Qed.

Lemma removed_emits b c : (length b - c + 1 < MAX_MOVE)%nat →
  emits_go (redraw_removed b c l) (drop c b ++ [32] ++ left_seq (length b - c + 1)) (set_buf b c l).
Proof.
  intros Hl. unfold redraw_removed. rewrite <-(app_nil_r (left_seq _)).
  repeat (eapply emits_go_bind; [first [apply emits_wrt|by apply emits_left]|]). apply emits_go_ret.
Qed.
End keys.

Lemma delete_mid_list {A} (a b : list A) c : delete (length a) (a ++ c :: b) = a ++ b.
Proof. by apply delete_middle. Qed.

Lemma key_delete_draws sh l x y : split_at l x y → Forall printable y → small l →
  draws sh l (key_delete l) (match y with [] => l | _ :: y' => set_buf (x ++ y') (length x) l end).
Proof.
  intros Hsp Hy Hs. pose proof (split_small l x y Hsp Hs). pose proof Hsp as [Hb Hc].
  unfold key_delete. rewrite Hb, Hc, length_app. destruct y as [|c y'].
  { rewrite (proj2 (Nat.ltb_ge _ _)) by (cbn; lia). apply draws_stay. }
  apply Forall_cons in Hy as [_ Hy]. cbn [length] in *. rewrite (proj2 (Nat.ltb_lt _ _)) by lia.
  rewrite delete_mid_list. eapply draws_emits; [apply removed_emits; rewrite length_app; lia|].
  intros k. exists (S k). rewrite drop_app_length, length_app.
  replace (length x + length y' - length x + 1)%nat with (length y' + 1)%nat by lia.
  rewrite (screen_split _ _ _ _ _ Hsp), <-app_comm_cons, redraw_removed_feeds by (done || lia).
  unfold screen. cbn. by rewrite length_app, <-!app_assoc.
Qed.

Lemma key_backspace_draws sh l x y : split_at l x y → Forall printable y → small l →
  draws sh l (key_backspace l) (match x with [] => l | _ => set_buf (removelast x ++ y) (length x - 1) l end).
Proof.
  intros Hsp Hy Hs. pose proof (split_small l x y Hsp Hs). pose proof Hsp as [Hb Hc].
  unfold key_backspace. rewrite Hb, Hc. destruct x as [|c x' _] using rev_ind; [apply draws_stay|].
  rewrite length_app in *. cbn [length] in *. rewrite (proj2 (Nat.ltb_lt _ _)) by lia.
  rewrite removelast_last. replace (length x' + 1 - 1)%nat with (length x') by lia.
  rewrite <-app_assoc. cbn [app]. rewrite delete_mid_list.
  assert (draws sh l (move_left 1 ;; redraw_removed (x' ++ y) (length x') l) (set_buf (x' ++ y) (length x') l)) as Hd.
  { eapply draws_emits; [eapply emits_go_bind; [apply emits_left; lia|apply removed_emits; rewrite length_app; lia]|].
    intros k. exists (S k). rewrite (screen_split _ _ _ _ _ Hsp), feed_app, feed_left by lia.
    replace (length (prompt_text sh ++ x' ++ [c]) - 1)%nat with (length (prompt_text sh ++ x')) by (rewrite !length_app; cbn; lia).
    replace (length (x' ++ y) - length x' + 1)%nat with (length y + 1)%nat by (rewrite length_app; lia).
    rewrite drop_app_length.
    rewrite <-!app_assoc, (app_assoc (prompt_text sh) x'). cbn [app]. rewrite redraw_removed_feeds by (done || lia).
    unfold screen. cbn. by rewrite length_app, <-!app_assoc. }
  by destruct x'.
Qed.

Lemma key_kill_draws sh l x y : split_at l x y → small l → draws sh l (key_kill l) (set_buf [] 0 l).
Proof.
  intros Hsp Hs. pose proof (split_small l x y Hsp Hs). pose proof Hsp as [Hb Hc]. unfold key_kill.
  rewrite Hc. assert (length (buf l) = (length x + length y)%nat) as Hlen by (by rewrite Hb, length_app).
  eapply draws_emits.
  { eapply emits_go_bind; [apply emits_left; lia|]. eapply emits_go_bind; [apply emits_blanks|].
    eapply emits_go_bind; [apply emits_left; lia|apply emits_go_ret]. }
  intros k. exists (length (buf l) + k)%nat. rewrite app_nil_r, (screen_split _ _ _ _ _ Hsp), feed_app, feed_left by lia.
  rewrite <-!app_assoc, length_app, Nat.add_sub.
  pose proof (feed_over (prompt_text sh) (replicate (length (buf l)) 32) (x ++ y ++ replicate k 32)
    (blanks_printable _)) as Hf. rewrite !length_replicate in Hf. rewrite Hf by lia.
  rewrite (app_assoc x y), <-Hb, drop_app_length. unfold screen. cbn [buf cursor set_buf app].
  by rewrite replicate_add, Nat.add_0_r.
Qed.

(** [replace_input] shows the new line. *)
Lemma replace_emits l new : small l → (cursor l ≤ length (buf l))%nat →
  ∃ b, emits (replace_input (buf l) (cursor l) new) b ∧ ∀ p x y k, split_at l x y → Forall printable new →
    ∃ k', feed (screen p l k) b = mkTerm (p ++ new ++ replicate k' 32) (length (p ++ new)) Ground.
Proof.
  intros Hs Hcl. unfold small in Hs. unfold replace_input.
  destruct (Nat.ltb_spec (length new) (length (buf l))) as [Hlt|Hge].
  - eexists. split.
    { apply emits_bind; [apply emits_left; lia|]. apply emits_bind; [apply emits_wrt|].
      apply emits_bind; [apply emits_blanks|apply emits_left; lia]. }
    intros p x y k Hsp Hnew. pose proof Hsp as [Hb Hc]. exists (length (buf l) - length new + k)%nat.
    rewrite (screen_split _ _ _ _ _ Hsp), !feed_app, feed_left by lia.
    rewrite Hc, <-!app_assoc, length_app, Nat.add_sub, feed_text by done.
    set (d := (length (buf l) - length new)%nat).
    pose proof (feed_over (p ++ new) (replicate d 32) (drop (length new) (x ++ y ++ replicate k 32)) (blanks_printable _)) as Hf.
    rewrite length_replicate, feed_app, <-!app_assoc, length_app in Hf. rewrite length_app, Hf by lia. rewrite (app_assoc x y), <-Hb.
    rewrite drop_drop, drop_app_length' by lia. rewrite replicate_add. done.
  - eexists. split.
    { apply emits_bind; [apply emits_left; lia|]. apply emits_bind; [apply emits_wrt|apply emits_ret]. }
    intros p x y k Hsp Hnew. pose proof Hsp as [Hb Hc]. exists (k - (length new - length (buf l)))%nat.
    rewrite (screen_split _ _ _ _ _ Hsp), !feed_app, feed_left by lia.
    rewrite Hc, <-!app_assoc, length_app, Nat.add_sub, feed_text by done. cbn [feed foldl]. f_equal; [|by rewrite length_app].
    do 2 f_equal. rewrite (app_assoc x y), <-Hb.
    replace (length new) with (length (buf l) + (length new - length (buf l)))%nat at 1 by lia.
    by rewrite <-drop_drop, drop_app_length, drop_blanks.
Qed.

(** ** History *)

Definition history_ok (sh : shell) : Prop := Forall (Forall printable) (history sh).

Lemma replace_draws sh l entry i sv : line_ok sh l → small l → Forall printable entry →
  draws sh l (replace_input (buf l) (cursor l) entry ;; mret (Go (mkLine entry (length entry) i sv)))
    (mkLine entry (length entry) i sv).
Proof.
  intros Hok Hs He. destruct (replace_emits l entry Hs (lo_cursor _ _ Hok)) as (b & Hb & Hf).
  destruct (line_ok_split _ _ Hok) as (x & y & Hsp & _).
  eapply draws_emits; [eapply emits_go_bind; [exact Hb|apply emits_go_ret]|]. intros k. rewrite app_nil_r.
  destruct (Hf (prompt_text sh) x y k Hsp He) as [k' ->]. exists k'. unfold screen. cbn. by rewrite length_app.
Qed.

(** A turn that stays in step with the screen and with well-formed lines. *)
Definition turns (sh : shell) (l : line) (c : M io turn) : Prop := ∃ l', draws sh l c l' ∧ line_ok sh l'.

Lemma turns_stay sh l : line_ok sh l → turns sh l (mret (Go l)).
Proof. intros H. exists l. split; [apply draws_stay|done]. Qed.

Lemma key_up_turns sh l : line_ok sh l → small l → history_ok sh → turns sh l (key_up sh l).
Proof.
  intros Hok Hs Hh. unfold key_up. destruct (Nat.ltb_spec 0 (hist_idx l)) as [H0|]; [|by apply turns_stay].
  pose proof Hok as [_ Hb Hi Hsv]. destruct (history sh !! (hist_idx l - 1)%nat) as [e|] eqn:E.
  - pose proof (Forall_lookup_1 _ _ _ _ Hh E) as He. eexists. split; [by apply replace_draws|].
    split; cbn; [lia|done|lia|]. by destruct (_ =? _)%nat.
  - apply lookup_ge_None in E. lia.
Qed.

Lemma key_down_turns sh l : line_ok sh l → small l → history_ok sh → turns sh l (key_down sh l).
Proof.
  intros Hok Hs Hh. unfold key_down. destruct (Nat.ltb_spec (hist_idx l) (length (history sh))) as [H0|]; [|by apply turns_stay].
  pose proof Hok as [_ Hb Hi Hsv].
  destruct (if (hist_idx l + 1 =? length (history sh))%nat then Some (saved l) else history sh !! (hist_idx l + 1)%nat) as [e|] eqn:E.
  - assert (Forall printable e) as He.
    { destruct (_ =? _)%nat; [by injection E as <-|]. exact (Forall_lookup_1 _ _ _ _ Hh E). }
    eexists. split; [by apply replace_draws|]. split; cbn; (done || lia).
  - destruct (Nat.eqb_spec (hist_idx l + 1) (length (history sh))); [done|]. apply lookup_ge_None in E. lia.
Qed.

(** ** Completion *)

Lemma stripped_prefix pre : ∀ s t, strip_prefix pre s = Some t → s = pre ++ t.
Proof.
  induction pre as [|b pre IH]; intros s t H; [by injection H as <-|]. destruct s as [|c s]; [done|].
  cbn [strip_prefix] in H. destruct (Z.eqb_spec b c) as [->|]; [|done]. cbn. f_equal. by apply IH.
Qed.

Lemma starts_with_app pre s : starts_with pre s = true → ∃ t, s = pre ++ t.
Proof. unfold starts_with. intros H. apply bool_decide_eq_true in H as [t Ht]. exists t. by apply stripped_prefix. Qed.

Lemma names_printable bytes : ∀ cur, Forall printable cur → Forall (λ b, printable b ∨ b = 0) bytes →
  Forall (Forall printable) (names_from cur bytes).
Proof.
  induction bytes as [|b bytes IH]; intros cur Hc Hb; cbn [names_from].
  { case_bool_decide; [constructor|by apply Forall_singleton]. }
  apply Forall_cons in Hb as [Hb Hbs]. destruct (Z.eqb_spec b 0) as [->|Hne].
  - case_bool_decide; [by apply IH|]. constructor; [done|by apply IH].
  - apply IH; [|done]. apply Forall_app. split; [done|]. apply Forall_singleton. naive_solver.
Qed.

Section complete.
Context (getdents : list Z → option (list Z)).
Hypothesis listing_ok : ∀ p bytes, getdents p = Some bytes → Forall (λ b, printable b ∨ b = 0) bytes.

(** A completion extends the word it is for. *)
Definition extends (prefix m : list Z) : Prop := (∃ t, m = prefix ++ t) ∧ Forall printable m.

Lemma complete_path_extends sh prefix : Forall printable prefix →
  Forall (extends prefix) (complete_path getdents sh prefix).
Proof.
  intros Hp. unfold complete_path.
  set (split := match rposition _ prefix with Some _ => _ | None => _ end).
  assert (∃ d n q, split = (d, n, q) ∧ prefix = q ++ n) as (d & n & q & -> & Hq).
  { unfold split. destruct (rposition _ prefix) as [pos|]; [|by exists (cwd sh), prefix, []].
    eexists _, _, _. split; [reflexivity|]. by rewrite take_drop. }
  destruct (getdents d) as [bytes|] eqn:E; [|constructor].
  apply Forall_forall. intros m Hm. apply list_elem_of_fmap in Hm as (e & -> & He).
  apply list_elem_of_filter in He as [(_ & _ & Hs) He]. apply starts_with_app in Hs as [t ->].
  pose proof (names_printable bytes [] (Forall_nil_2 _) (listing_ok _ _ E)) as Hnames.
  rewrite Forall_forall in Hnames. specialize (Hnames _ He). split; [exists t; by rewrite Hq, <-app_assoc|].
  apply Forall_app. split; [|done]. rewrite Hq in Hp. by apply Forall_app in Hp as [? _].
Qed.

Lemma add_matches_extends prefix es : Forall (Forall printable) es → ∀ ms, Forall (extends prefix) ms →
  Forall (extends prefix) (add_matches prefix es ms).
Proof.
  induction 1 as [|e es He Hes IH]; intros ms Hms; [done|]. cbn [add_matches]. apply IH.
  destruct (starts_with prefix e) eqn:Hs; [|done]. destruct (negb _); [|done]. cbn [andb].
  apply Forall_app. split; [done|]. apply Forall_singleton. split; [by apply starts_with_app|done].
Qed.

Lemma complete_command_extends sh prefix : Forall printable prefix →
  Forall (extends prefix) (complete_command getdents sh prefix).
Proof.
  intros Hp. unfold complete_command. destruct (starts_with [47] prefix); [by apply complete_path_extends|].
  assert (Forall (extends prefix) (filter (λ b, starts_with prefix b = true) COMMANDS)) as Hc.
  { assert (Forall (Forall printable) COMMANDS) as Hall by (apply (bool_decide_unpack _); vm_compute; exact I).
    apply Forall_forall. intros m Hm. apply list_elem_of_filter in Hm as [Hs Hm].
    split; [by apply starts_with_app|]. rewrite Forall_forall in Hall. by apply Hall. }
  destruct (getdents (str "/")) as [bytes|] eqn:E; [|done]. apply add_matches_extends; [|done].
  apply names_printable; [constructor|by eapply listing_ok].
Qed.
End complete.

Lemma word_start_le rx : (word_start_from rx ≤ length rx)%nat.
Proof. induction rx as [|b rx IH]; cbn; [lia|]. destruct (_ || _); lia. Qed.

(** Completing the word [wd] before the cursor. *)
Lemma apply_completion_draws sh l h wd y m : split_at l (h ++ wd) y → Forall printable y → small l → extends wd m →
  draws sh l (l' ← apply_completion l (length h) m; mret (Go l')) (set_buf ((h ++ m) ++ y) (length (h ++ m)) l).
Proof.
  intros Hsp Hy Hs [[t Ht] Hm]. pose proof (split_small _ _ _ Hsp Hs) as Hsm. rewrite length_app in Hsm.
  pose proof Hsp as [Hb Hc]. unfold apply_completion. rewrite Hb, Hc, drop_app_length.
  replace (length (h ++ wd) - length h)%nat with (length wd) by (rewrite length_app; lia).
  rewrite (proj2 (Nat.ltb_ge (length m) (length wd))) by (rewrite Ht, length_app; lia).
  rewrite <-(app_assoc h wd), take_app_length.
  set (b1 := left_seq (length wd)). set (b2 := if bool_decide (y = []) then [] else y ++ left_seq (length y)).
  eapply (draws_emits _ _ _ (b1 ++ m ++ b2 ++ [])).
  { intros w. unfold b1, b2. erewrite bind_ok.
    2: { rewrite (emits_then _ _ _ _ (if_left (length wd) ltac:(lia))), (emits_then _ _ _ _ (emits_wrt m)).
         rewrite (emits_then _ (if bool_decide (y = []) then [] else y ++ left_seq (length y))).
         2: { case_bool_decide; [apply emits_ret|]. apply emits_bind; [apply emits_wrt|apply emits_left; lia]. }
         rewrite (emits_then _ _ _ _ emits_ret). reflexivity. }
    cbn [inp out]. unfold mret, M_ret. do 2 f_equal. by rewrite <-!app_assoc. }
  intros k. exists (k - length t)%nat. unfold b1, b2. rewrite app_nil_r, (screen_split _ _ _ _ _ Hsp), !feed_app, feed_left by lia.
  rewrite <-!app_assoc, (app_assoc (prompt_text sh) h (wd ++ y ++ replicate k 32)).
  replace (length (prompt_text sh ++ h ++ wd) - length wd)%nat with (length (prompt_text sh ++ h)) by (rewrite !length_app; lia).
  rewrite feed_text by done.
  assert (drop (length m) (wd ++ y ++ replicate k 32) = drop (length t) (y ++ replicate k 32)) as ->.
  { by rewrite Ht, length_app, <-drop_drop, drop_app_length. }
  rewrite (app_assoc (prompt_text sh ++ h) m), <-length_app. unfold screen. cbn [buf cursor set_buf].
  case_bool_decide as Hy0.
  - subst y. cbn [app feed foldl]. by rewrite drop_blanks, app_nil_r, !length_app, <-!app_assoc, Nat.add_assoc.
  - rewrite feed_over, drop_drop, Nat.add_comm, <-drop_drop, drop_app_length, drop_blanks by (done || lia).
    by rewrite !length_app, <-!app_assoc, Nat.add_assoc.
Qed.

(** ** Listing the candidates *)

Definition prompt_bytes (sh : shell) : list Z :=
  GREEN ++ str "guest@openv" ++ RESET ++ str ":" ++ CYAN ++
  (if bool_decide (cwd sh = str "/") then str "~" else cwd sh) ++ RESET ++ str "$ ".

Lemma prompt_emits sh : emits (prompt sh) (prompt_bytes sh).
Proof. unfold prompt, prompt_bytes. repeat (apply emits_bind; [apply emits_wrt|]). apply emits_wrt. Qed.

Lemma feed_colour a c s : s ∈ [RESET; BOLD; REV; GREEN; CYAN; YELLOW] → feed (mkTerm a c Ground) s = mkTerm a c Ground.
Proof. intros Hs. pose proof (feed_colours a c) as H. rewrite Forall_forall in H. by apply H. Qed.

Lemma feed_end a s : Forall printable s → feed (mkTerm a (length a) Ground) s = mkTerm (a ++ s) (length (a ++ s)) Ground.
Proof.
  intros Hs. pose proof (feed_text s a [] Hs) as H. rewrite app_nil_r in H. rewrite H, drop_nil, app_nil_r.
  by rewrite length_app.
Qed.

Lemma feed_prompt sh : Forall printable (cwd sh) →
  feed (mkTerm [] 0 Ground) (prompt_bytes sh) = mkTerm (prompt_text sh) (length (prompt_text sh)) Ground.
Proof.
  intros Hcwd. unfold prompt_bytes, prompt_text.
  set (d := if bool_decide (cwd sh = str "/") then str "~" else cwd sh).
  assert (Forall printable d) as Hd.
  { unfold d. case_bool_decide; [|done]. apply (bool_decide_unpack _). vm_compute. exact I. }
  assert (Forall (Forall printable) [str "guest@openv"; str ":"; str "$ "]) as Hl
    by (apply (bool_decide_unpack _); vm_compute; exact I).
  rewrite !Forall_cons in Hl. destruct Hl as (H1 & H2 & H3 & _).
  rewrite !feed_app, (feed_colour [] 0 GREEN) by (apply (bool_decide_unpack _); vm_compute; exact I).
  change (mkTerm [] 0 Ground) with (mkTerm [] (length (@nil Z)) Ground). rewrite feed_end by done.
  rewrite feed_colour by (apply (bool_decide_unpack _); vm_compute; exact I). rewrite feed_end by done.
  rewrite feed_colour by (apply (bool_decide_unpack _); vm_compute; exact I). rewrite feed_end by done.
  rewrite feed_colour by (apply (bool_decide_unpack _); vm_compute; exact I). rewrite feed_end by done.
  by rewrite <-!app_assoc.
Qed.

Lemma redraw_draws sh l matches x y : split_at l x y → Forall printable x → Forall printable y → small l →
  Forall printable (cwd sh) → Forall (Forall printable) matches →
  draws sh l (redraw sh l matches ;; mret (Go l)) l.
Proof.
  intros Hsp Hx Hy Hs Hcwd Hm. pose proof (split_small _ _ _ Hsp Hs). pose proof Hsp as [Hb Hc].
  set (cand := concat ((λ m, m ++ str "  ") <$> matches)).
  assert (Forall printable cand) as Hcand.
  { unfold cand. clear -Hm. induction Hm as [|m ms Hm _ IH]; [constructor|]. cbn [fmap list_fmap concat].
    rewrite !Forall_app. split_and!; [done| |done]. apply (bool_decide_unpack _). vm_compute. exact I. }
  assert (emits (for_each matches (λ m, wrt m ;; wrt (str "  "))) cand) as Hfor.
  { unfold cand. clear. induction matches as [|m ms IH]; [apply emits_ret|]. cbn [for_each fmap list_fmap concat].
    apply emits_bind; [|exact IH]. apply emits_bind; apply emits_wrt. }
  eapply (draws_emits _ _ _ ((([13; 10] ++ cand ++ [13; 10] ++ prompt_bytes sh ++ x ++
    (if (0 <? length y)%nat then y ++ left_seq (length y) else [])) ++ []))).
  { eapply emits_go_bind; [|apply emits_go_ret]. unfold redraw. rewrite Hb, Hc, take_app_length, drop_app_length.
    replace (length (x ++ y) - length x)%nat with (length y) by (rewrite length_app; lia).
    repeat (apply emits_bind; [first [apply emits_wrt|exact Hfor|apply prompt_emits]|]).
    apply emits_if; [|apply emits_ret]. apply emits_bind; [apply emits_wrt|apply emits_left; lia]. }
  intros k. exists 0%nat. rewrite app_nil_r, !feed_app.
  change (feed (screen (prompt_text sh) l k) [13; 10]) with (mkTerm [] (length (@nil Z)) Ground).
  rewrite feed_end by done. cbn [app].
  change (feed (mkTerm cand (length cand) Ground) [13; 10]) with (mkTerm [] 0 Ground).
  rewrite feed_prompt, feed_end by done. unfold screen. cbn [replicate]. rewrite Hb, Hc, app_nil_r.
  destruct (Nat.ltb_spec 0 (length y)) as [Hlt|Hge].
  - pose proof (feed_over (prompt_text sh ++ x) y [] Hy ltac:(lia)) as Hf. rewrite app_nil_r, drop_nil, app_nil_r in Hf.
    by rewrite Hf, length_app, <-app_assoc.
  - destruct y; [|cbn in Hge; lia]. cbn [feed foldl]. by rewrite app_nil_r, length_app.
Qed.

(** ** Tab *)

Lemma line_ok_set sh l b c : line_ok sh l → Forall printable b → (c ≤ length b)%nat → line_ok sh (set_buf b c l).
Proof. intros [H1 H2 H3 H4] Hb Hc. by split. Qed.

Lemma tab_turns getdents sh l :
  (∀ p bytes, getdents p = Some bytes → Forall (λ b, printable b ∨ b = 0) bytes) →
  line_ok sh l → small l → Forall printable (cwd sh) →
  turns sh l (l' ← tab_complete getdents sh l; mret (Go l')).
Proof.
  intros Hlist Hok Hs Hcwd. destruct (line_ok_split _ _ Hok) as (x & y & Hsp & Hx & Hy). pose proof Hsp as [Hb Hc].
  unfold tab_complete. assert (word_start l ≤ length x)%nat as Hws.
  { unfold word_start. rewrite Hb, Hc, take_app_length. rewrite <-(length_rev x). apply word_start_le. }
  set (h := take (word_start l) x). set (wd := drop (word_start l) x).
  assert (h ++ wd = x) as Hhw by apply take_drop.
  assert (length h = word_start l) as Hh by (unfold h; rewrite length_take; lia).
  assert (slice (buf l) (word_start l) (cursor l - word_start l) = wd) as ->.
  { unfold slice. rewrite Hb, Hc, <-Hhw, <-Hh, <-app_assoc, drop_app_length, length_app.
    replace (length h + length wd - length h)%nat with (length wd) by lia. by rewrite take_app_length. }
  set (ms := if forallb _ _ then _ else _).
  assert (Forall (extends wd) ms) as Hms.
  { assert (Forall printable wd) as Hwd by (by apply Forall_drop).
    unfold ms. destruct (forallb _ _); [by apply complete_command_extends|by apply complete_path_extends]. }
  clearbody ms. rewrite <-Hhw in Hsp, Hx. apply Forall_app in Hx as [Hxh Hxw]. destruct ms as [|m [|m2 ms]].
  - exists l. split; [|done]. intros w Hw. eexists. split; [reflexivity|]. split; [done|].
    destruct Hw as [k Hk]. exists k. cbn [out]. by rewrite feed_app, Hk.
  - rewrite Forall_singleton in Hms. rewrite <-Hh. eexists. split; [by eapply apply_completion_draws|].
    destruct Hms as [_ Hm]. apply line_ok_set; [done|rewrite !Forall_app; done|rewrite !length_app; lia].
  - exists l. split; [|done].
    assert (draws sh l (redraw sh l (m :: m2 :: ms) ;; mret (Go l)) l) as Hd.
    { eapply redraw_draws; [exact Hsp|by apply Forall_app|done..|]. eapply Forall_impl; [exact Hms|]. by intros ? [_ ?]. }
    intros w Hw. destruct (Hd w Hw) as (w' & E & Hw'). exists w'. split; [|done].
    apply bind_ok_inv in E as ([] & w1 & E1 & E2). injection E2 as <-. erewrite bind_ok; [reflexivity|].
    by erewrite bind_ok by exact E1.
Qed.

(** ** The simulation *)

Definition ascii (b : Z) : Prop := 0 ≤ b < 128.

(** What is claimed of a turn. *)
Definition turn_ok (sh : shell) (r : outcome turn * io) : Prop :=
  match r with
  | (Ok (Go l'), w') => line_ok sh l' ∧ shows sh l' w' ∧ Forall ascii (inp w')
  | (Ok (Done b), _) => Forall printable b
  | (Err e, _) => e = waits
  | (Panic _, _) => False
  end.

Lemma turns_ok sh l c w : turns sh l c → shows sh l w → Forall ascii (inp w) → turn_ok sh (c w).
Proof. intros (l' & Hd & Hl') Hw Hi. destruct (Hd w Hw) as (w' & -> & Hin & Hs). cbn. by rewrite Hin. Qed.

(** Reading a byte keeps the screen. *)
Lemma byte_ok sh l (k : Z → M io turn) w : shows sh l w → Forall ascii (inp w) →
  (∀ c w', ascii c → shows sh l w' → Forall ascii (inp w') → turn_ok sh (k c w')) → turn_ok sh ((read_raw_byte ≫= k) w).
Proof.
  intros Hs Hi Hk. destruct w as [[|c i] o]; [done|]. cbn [inp] in Hi. apply Forall_cons in Hi as [Hc Hi].
  erewrite bind_ok by reflexivity. apply Hk; [done|exact Hs|exact Hi].
Qed.

Section turn.
Context (getdents : list Z → option (list Z)) (sh : shell).
Hypothesis listing_ok : ∀ p bytes, getdents p = Some bytes → Forall (λ b, printable b ∨ b = 0) bytes.
Hypothesis hist_ok : history_ok sh.
Hypothesis cwd_ok : Forall printable (cwd sh).

Lemma edit_turns l x y : line_ok sh l → small l → split_at l x y → Forall printable x → Forall printable y →
  turns sh l (key_right l) ∧ turns sh l (key_left l) ∧ turns sh l (key_home l) ∧ turns sh l (key_end l) ∧
  turns sh l (key_delete l) ∧ turns sh l (key_backspace l) ∧ turns sh l (key_kill l).
Proof.
  intros Hok Hs Hsp Hx Hy. pose proof (proj2 (Forall_app printable x y) (conj Hx Hy)) as Hxy.
  split_and!; (eexists; split; [first [eapply key_right_draws|eapply key_left_draws|eapply key_home_draws|
    eapply key_end_draws|eapply key_delete_draws|eapply key_backspace_draws|eapply key_kill_draws]; done|]).
  - destruct y; [done|]. apply line_ok_set; [done..|]. rewrite length_app. cbn. lia.
  - apply line_ok_set; [done..|]. rewrite length_app. lia.
  - apply line_ok_set; [done..|]. lia.
  - apply line_ok_set; [done..|]. lia.
  - destruct y; [done|]. apply Forall_cons in Hy as [_ Hy]. apply line_ok_set; [done|by apply Forall_app|]. rewrite length_app. lia.
  - destruct x as [|c x _] using rev_ind; [done|]. apply Forall_app in Hx as [Hx _].
    assert (line_ok sh (set_buf (removelast (x ++ [c]) ++ y) (length (x ++ [c]) - 1) l)); [|by destruct x].
    rewrite removelast_last. apply line_ok_set; [done|by apply Forall_app|]. rewrite !length_app. cbn. lia.
  - apply line_ok_set; [done|constructor|]. cbn. lia.
Qed.

Lemma line_turn_ok l w : line_ok sh l → small l → shows sh l w → Forall ascii (inp w) →
  turn_ok sh (line_turn getdents sh l w).
Proof.
  intros Hok Hs Hw Hi. destruct (line_ok_split _ _ Hok) as (x & y & Hsp & Hx & Hy).
  destruct (edit_turns l x y Hok Hs Hsp Hx Hy) as (H1 & H2 & H3 & H4 & H5 & H6 & H7).
  assert (∀ c w', turns sh l c → shows sh l w' → Forall ascii (inp w') → turn_ok sh (c w')) as Hgo
    by (intros; by eapply turns_ok).
  unfold line_turn. apply (byte_ok sh l); [done..|]. intros c w1 Hc Hw1 Hi1.
  destruct ((c =? 13) || (c =? 10)); [apply (lo_buf _ _ Hok)|]. destruct (c =? 27).
  { apply (byte_ok sh l); [done..|]. intros b1 w2 _ Hw2 Hi2. destruct (negb _); [by apply Hgo; [apply turns_stay|..]|].
    apply (byte_ok sh l); [done..|]. intros b2 w3 _ Hw3 Hi3.
    destruct (b2 =? 65); [apply Hgo; [by apply key_up_turns|done..]|].
    destruct (b2 =? 66); [apply Hgo; [by apply key_down_turns|done..]|].
    destruct (b2 =? 67); [by apply Hgo|]. destruct (b2 =? 68); [by apply Hgo|]. destruct (b2 =? 72); [by apply Hgo|].
    destruct (b2 =? 70); [by apply Hgo|]. destruct (b2 =? 51); [|by apply Hgo; [apply turns_stay|..]].
    apply (byte_ok sh l); [done..|]. intros b3 w4 _ Hw4 Hi4. by apply Hgo. }
  destruct ((c =? 127) || (c =? 8)) eqn:E127; [by apply Hgo|].
  destruct (c =? 3); [constructor|]. destruct (c =? 1); [by apply Hgo|]. destruct (c =? 5); [by apply Hgo|].
  destruct (c =? 21); [by apply Hgo|]. destruct (c =? 9); [apply Hgo; [by apply tab_turns|done..]|].
  destruct (Z.leb_spec 32 c); [|by apply Hgo; [apply turns_stay|..]].
  assert (printable c) as Hp by (unfold printable, ascii in *; bool_to_prop; lia).
  apply Hgo; [|done..]. eexists. split; [by eapply key_insert_draws|].
  apply line_ok_set; [done|apply Forall_app; split; [done|by constructor]|]. rewrite length_app. cbn. lia.
Qed.

(** A turn that goes on, on a line short enough for the cursor movements. *)
Definition turn_step (lw lw' : line * io) : Prop :=
  small lw.1 ∧ line_turn getdents sh lw.1 lw.2 = (Ok (Go lw'.1), lw'.2).

End turn.

(** ** What the editing keys do *)

Inductive edit_key : Type :=
  | KChar (c : Z) | KBackspace | KDelete | KLeft | KRight | KHome | KEnd | KKill.

Definition key_bytes (k : edit_key) : list Z :=
  match k with
  | KChar c => [c]
  | KBackspace => [127]
  | KDelete => [27; 91; 51; 126]
  | KLeft => [27; 91; 68]
  | KRight => [27; 91; 67]
  | KHome => [1]
  | KEnd => [5]
  | KKill => [21]
  end.

(** The text before and after the cursor. *)
Definition edit_line (k : edit_key) (x y : list Z) : list Z * list Z :=
  match k with
  | KChar c => (x ++ [c], y)
  | KBackspace => (removelast x, y)
  | KDelete => (x, tail y)
  | KLeft => (removelast x, drop (length x - 1) x ++ y)
  | KRight => (x ++ take 1 y, tail y)
  | KHome => ([], x ++ y)
  | KEnd => (x ++ y, [])
  | KKill => ([], [])
  end.

Lemma removelast_take {A} (x : list A) : removelast x = take (length x - 1) x.
Proof.
  destruct x as [|c x _] using rev_ind; [done|]. rewrite removelast_last, length_app. cbn.
  by rewrite Nat.add_sub, take_app_length.
Qed.

(** Each key leads to the line it should. *)
Lemma edit_draws getdents sh l x y k : line_ok sh l → small l → split_at l x y → (∀ c, k = KChar c → printable c) →
  ∃ c l', (∀ w rest, inp w = key_bytes k ++ rest → line_turn getdents sh l w = c (mkIo rest (out w))) ∧
    draws sh l c l' ∧ split_at l' (edit_line k x y).1 (edit_line k x y).2.
Proof.
  intros Hok Hs Hsp Hk. pose proof (lo_buf _ _ Hok) as Hp. pose proof Hsp as [Hb Hc]. rewrite Hb in Hp.
  apply Forall_app in Hp as [Hx Hy].
  destruct k as [c| | | | | | |].
  - specialize (Hk c eq_refl). exists (key_insert c l). eexists. split_and!; [|by eapply key_insert_draws|].
    + intros [i o] rest Hi. cbn in Hi. subst i. unfold line_turn. erewrite bind_ok by reflexivity. cbv beta.
      unfold printable in Hk. rewrite !(proj2 (Z.eqb_neq _ _)) by lia. cbn [orb]. by rewrite (proj2 (Z.leb_le _ _)) by lia.
    + split; cbn; [by rewrite <-app_assoc|by rewrite length_app].
  - exists (key_backspace l). eexists. split_and!; [by intros [i o] rest Hi; cbn in Hi; subst i|by eapply key_backspace_draws|].
    destruct x as [|c x]; [done|]. split; [done|]. cbn [edit_line fst cursor set_buf]. rewrite removelast_take, length_take. lia.
  - exists (key_delete l). eexists. split_and!; [by intros [i o] rest Hi; cbn in Hi; subst i|by eapply key_delete_draws|].
    by destruct y.
  - exists (key_left l). eexists. split_and!; [by intros [i o] rest Hi; cbn in Hi; subst i|by eapply key_left_draws|].
    split; cbn [edit_line fst snd buf cursor set_buf]; rewrite removelast_take; [by rewrite app_assoc, take_drop|rewrite length_take; lia].
  - exists (key_right l). eexists. split_and!; [by intros [i o] rest Hi; cbn in Hi; subst i|by eapply key_right_draws|].
    destruct y as [|c y]; cbn; [by rewrite app_nil_r|]. split; cbn; [by rewrite take_0, <-app_assoc|by rewrite take_0, length_app].
  - exists (key_home l). eexists. split_and!; [by intros [i o] rest Hi; cbn in Hi; subst i|by eapply key_home_draws|done].
  - exists (key_end l). eexists. split_and!; [by intros [i o] rest Hi; cbn in Hi; subst i|by eapply key_end_draws|].
    split; cbn; [by rewrite app_nil_r|done].
  - exists (key_kill l). eexists. split_and!; [by intros [i o] rest Hi; cbn in Hi; subst i|by eapply key_kill_draws|done].
Qed.

(** the editing keys do to the line what they should: characters are inserted at the cursor,
    backspace and delete remove the byte before and after it, the cursor moves by one or
    to an end, ^U clears the line; at the ends they do nothing, and the screen follows. *)
Theorem line_edit_refines getdents sh l x y k w rest :
  line_ok sh l → small l → split_at l x y → (∀ c, k = KChar c → printable c) →
  shows sh l w → inp w = key_bytes k ++ rest →
  ∃ l' w', line_turn getdents sh l w = (Ok (Go l'), w') ∧ inp w' = rest ∧ shows sh l' w' ∧
    split_at l' (edit_line k x y).1 (edit_line k x y).2.
Proof.
  intros Hok Hs Hsp Hk Hw Hi. destruct (edit_draws getdents sh l x y k Hok Hs Hsp Hk) as (c & l' & Hc & Hd & Hl').
  rewrite (Hc w rest Hi). destruct (Hd (mkIo rest (out w)) Hw) as (w' & -> & Hin & Hsh). by exists l', w'.
Qed.

(** ** Witnesses *)

Definition demo_io : io := mkIo (str "abx" ++ [27; 91; 68; 127; 27; 91; 65]) (prompt_bytes shell_new).
Definition demo_line : line := mkLine [] 0 0 [].

Lemma demo_shows i : shows shell_new demo_line (mkIo i (prompt_bytes shell_new)).
Proof. exists 0%nat. vm_compute. reflexivity. Qed.

Lemma demo_line_ok : line_ok shell_new demo_line.
Proof. split; cbn; (lia || constructor). Qed.


Lemma line_edit_refines_witness :
  ∃ l' w', line_turn (λ _, None) shell_new demo_line (mkIo (str "a") (prompt_bytes shell_new)) = (Ok (Go l'), w') ∧
    inp w' = [] ∧ shows shell_new l' w' ∧ split_at l' (str "a") [].
Proof.
  apply (line_edit_refines (λ _, None) shell_new demo_line [] [] (KChar 97) (mkIo (str "a") (prompt_bytes shell_new)) []).
  - exact demo_line_ok.
  - unfold small. pose proof max_move_eq. cbn. lia.
  - split; reflexivity.
  - intros c [= <-]. unfold printable. lia.
  - apply demo_shows.
  - reflexivity.
Defined.
