(* ===== verification/ShellRun.v ===== *)
(** * The shell's commands (user/sh/src/main.rs)

    Built-in commands, redirections, pipelines and the main loop.  What the kernel and the
    servers answer is the argument [os]; the descriptors of the shell are a table from
    numbers to what they refer to, on which the system calls [dup], [dup2], [close] and
    [pipe] have their documented effect, new descriptors being chosen by [fresh].  Output
    is logged with the object descriptor 1 refers to when it is written.  A forked child is
    logged with the table it has when it starts its command.

    [pipeline_wiring]: which child of a pipeline holds which pipe ends, and that the shell
    keeps none; [redirect_restores]: a built-in command with redirections writes to the file
    and leaves the descriptors as they were; [shell_invariant]: working directory, history
    and environment stay well-formed whatever is typed. *)

From Stdlib Require Import ZArith Lia.
From stdpp Require Import prelude gmap strings.
From S2P Require Import Prelude Vfs Term Nano ShellLang LineEdit.

Local Open Scope Z_scope.

(** ** The world of the shell *)

(** What a descriptor refers to. *)
Inductive obj : Type := Tty | PipeR (id : nat) | PipeW (id : nat) | FileIn (path : list Z) | FileOut (path : list Z).

Abbreviation fdtable := (gmap Z obj).

Record child : Type := mkChild { c_args : list (list Z); c_builtin : bool; c_fds : fdtable }.

Record world : Type := mkWorld {
  sh : shell;
  input : list Z;
  log : list (option obj * list Z);
  fds : fdtable;
  pipes : nat;
  forks : nat;
  children : list child;
}.

Record os : Type := mkOs {
  getdents : list Z → option (list Z);
  chdir : list Z → bool;
  mkdir : list Z → bool;
  unlink : list Z → bool;
  create_ok : list Z → bool;
  contents : list Z → option (list Z);
  stdin_rest : list Z;
  fork_pid : nat → Z;
  pipe_ok : nat → bool;
  fresh : fdtable → Z;
}.

Definition set_sh (f : shell → shell) (w : world) : world :=
  mkWorld (f (sh w)) (input w) (log w) (fds w) (pipes w) (forks w) (children w).
Definition set_fds (f : fdtable → fdtable) (w : world) : world :=
  mkWorld (sh w) (input w) (log w) (f (fds w)) (pipes w) (forks w) (children w).

(** Output goes to what descriptor 1 refers to. *)
Definition wrt (b : list Z) : M world unit :=
  modify (λ w, mkWorld (sh w) (input w) (log w ++ [(fds w !! 1, b)]) (fds w) (pipes w) (forks w) (children w)).

(** A computation of the line editor or of the text editor. *)
Definition on_term {A} (c : M io A) : M world A := λ w,
  let '(r, v) := c (mkIo (input w) []) in
  (r, mkWorld (sh w) (inp v) (log w ++ [(fds w !! 1, out v)]) (fds w) (pipes w) (forks w) (children w)).

Section shell.
Context (o : os).

(** ** System calls on the table *)

Definition dup (fd : Z) : M world Z := λ w,
  match fds w !! fd with
  | Some x => let n := fresh o (fds w) in (Ok n, set_fds (<[n := x]>) w)
  | None => (Ok (-1), w)
  end.

Definition dup2 (a b : Z) : M world unit := modify (λ w,
  match fds w !! a with
  | Some x => set_fds (<[b := x]>) w
  | None => w
  end).

Definition close (fd : Z) : M world unit := modify (set_fds (delete fd)).

Definition open_as (ok : bool) (x : obj) : M world Z := λ w,
  if ok then (let n := fresh o (fds w) in (Ok n, set_fds (<[n := x]>) w)) else (Ok (-1), w).
Definition create (path : list Z) : M world Z := open_as (create_ok o path) (FileOut path).
Definition open (path : list Z) : M world Z := open_as (bool_decide (is_Some (contents o path))) (FileIn path).

(** The result is not checked: after a failure both descriptors are 0. *)
Definition pipe : M world (Z * Z) := λ w,
  let id := pipes w in
  if pipe_ok o id then
    let r := fresh o (fds w) in
    let t := <[r := PipeR id]> (fds w) in
    let e := fresh o t in
    (Ok (r, e), mkWorld (sh w) (input w) (log w) (<[e := PipeW id]> t) (S id) (forks w) (children w))
  else (Ok (0, 0), mkWorld (sh w) (input w) (log w) (fds w) (S id) (forks w) (children w)).

(** ** Redirection *)

(** The common part: [target] is redirected to what [op] opens; the result is a copy of the
    descriptor it was, to restore it by. *)
Definition redir_to (target : Z) (op : shell → M world Z) : M world Z :=
  saved ← dup target;
  s ← gets sh;
  fd ← op s;
  (if 0 <=? fd then dup2 fd target ;; close fd else mret tt) ;;
  mret saved.

Definition apply_out_redir (outfile : option (list Z)) : M world Z :=
  match outfile with
  | None => mret (-1)
  | Some f => redir_to 1 (λ s, create (resolve s f))
  end.

Definition apply_in_redir (infile : option (list Z)) : M world Z :=
  match infile with
  | None => mret (-1)
  | Some f => redir_to 0 (λ s, open (resolve s f))
  end.

Definition undo_redir (target saved : Z) : M world unit :=
  if 0 <=? saved then dup2 saved target ;; close saved else mret tt.

(** ** Built-in commands *)

Definition wrt_nl : M world unit := wrt [10].

Fixpoint echo_rest (args : list (list Z)) : M world unit :=
  match args with
  | [] => mret tt
  | a :: args' => wrt (str " ") ;; wrt a ;; echo_rest args'
  end.
Definition cmd_echo (args : list (list Z)) : M world unit :=
  match args with [] => mret tt | a :: args' => wrt a ;; echo_rest args' end ;; wrt_nl.

Definition cmd_ls (args : list (list Z)) : M world unit :=
  s ← gets sh;
  let path := match args with [] => cwd s | a :: _ => resolve s a end in
  match getdents o path with
  | None => wrt (str "ls: cannot access '") ;; wrt path ;; wrt (str "': No such file or directory" ++ [10])
  | Some bytes => for_each (names_from [] bytes) (λ e, wrt CYAN ;; wrt e ;; wrt RESET ;; wrt [10])
  end.

(** Chunks read from the file are written one by one; together they are its contents. *)
Definition cat_one (s : shell) (a : list Z) : M world unit :=
  let path := resolve s a in
  match contents o path with
  | None => wrt (str "cat: ") ;; wrt path ;; wrt (str ": No such file or directory" ++ [10])
  | Some c => wrt c
  end.
Definition cmd_cat (args : list (list Z)) : M world unit :=
  match args with
  | [] => wrt (stdin_rest o)
  | _ => s ← gets sh; for_each args (cat_one s)
  end.

Definition cmd_cd (args : list (list Z)) : M world unit :=
  s ← gets sh;
  let path := match args with [] => str "/" | a :: _ => resolve s a end in
  if chdir o path then
    modify (set_sh (λ s, mkShell path (history s) (env_set (str "PWD") path (env s))))
  else wrt (str "cd: ") ;; wrt path ;; wrt (str ": No such file or directory" ++ [10]).

Definition each_path (missing : string) (args : list (list Z)) (f : list Z → M world unit) : M world unit :=
  match args with
  | [] => wrt (str missing ++ [10])
  | _ => s ← gets sh; for_each args (λ a, f (resolve s a))
  end.

Definition cmd_mkdir (args : list (list Z)) : M world unit :=
  each_path "mkdir: missing operand" args (λ path,
    if mkdir o path then mret tt
    else wrt (str "mkdir: cannot create directory '") ;; wrt path ;; wrt (str "'" ++ [10])).

Definition cmd_rm (args : list (list Z)) : M world unit :=
  each_path "rm: missing operand" args (λ path,
    if unlink o path then mret tt
    else wrt (str "rm: cannot remove '") ;; wrt path ;; wrt (str "': No such file or directory" ++ [10])).

Definition touch_one (path : list Z) : M world unit :=
  fd ← create path;
  if fd <? 0 then wrt (str "touch: cannot create '") ;; wrt path ;; wrt (str "'" ++ [10])
  else close fd.
Definition cmd_touch (args : list (list Z)) : M world unit := each_path "touch: missing file operand" args touch_one.

Definition upd_env (f : env_t → env_t) : M world unit := modify (set_sh (λ s, set_env (f (env s)) s)).

Definition cmd_env : M world unit :=
  s ← gets sh;
  for_each (env s) (λ '(n, v), wrt n ;; wrt (str "=") ;; wrt v ;; wrt_nl).

Definition export_one (a : list Z) : M world unit :=
  match parse_assignment a with
  | Some (name, value) => upd_env (λ e, env_set name (expand_vars e value) e)
  | None => upd_env (λ e, match env_get e a with Some _ => e | None => env_set a [] e end)
  end.
Definition cmd_export (args : list (list Z)) : M world unit :=
  match args with [] => cmd_env | _ => for_each args export_one end.

Definition cmd_unset (args : list (list Z)) : M world unit := for_each args (λ a, upd_env (env_unset a)).

Definition history_pad (idx : nat) : M world unit :=
  if (idx <? 10)%nat then wrt (str "   ")
  else if (idx <? 100)%nat then wrt (str "  ")
  else if (idx <? 1000)%nat then wrt (str " ") else mret tt.

Fixpoint history_lines (i : nat) (h : list (list Z)) : M world unit :=
  match h with
  | [] => mret tt
  | e :: h' => history_pad i ;; wrt (dec_digits (Z.of_nat i)) ;; wrt (str "  ") ;; wrt e ;; wrt_nl ;; history_lines (S i) h'
  end.
Definition cmd_history : M world unit :=
  s ← gets sh;
  match history s with
  | [] => wrt (str "(no history)" ++ [10])
  | h => history_lines 1 h
  end.

(** The lines of help for a command. *)
Definition help_table : list (list string * list string) :=
  [(["echo"], ["Usage: echo [arg...]"; "  Print arguments to stdout separated by spaces."]);
   (["ls"], ["Usage: ls [path]"; "  List directory contents."; "  With no argument, lists the current directory."]);
   (["cat"], ["Usage: cat [file...]"; "  Concatenate files and print to stdout.";
              "  With no arguments, reads from stdin until EOF (Ctrl-D)."]);
   (["pwd"], ["Usage: pwd"; "  Print the current working directory."]);
   (["cd"], ["Usage: cd [path]"; "  Change the current directory."; "  With no argument, changes to /."]);
   (["mkdir"], ["Usage: mkdir <dir...>"; "  Create one or more directories."]);
   (["rm"], ["Usage: rm <file...>"; "  Remove one or more files."]);
   (["touch"], ["Usage: touch <file...>"; "  Create empty files (or update timestamps).";
                "  Useful for creating files on /mnt (persistent OFS)."]);
   (["nano"], ["Usage: nano <file>"; "  Open a file in the text editor."; "  ^O: save   ^X: exit   ^K: delete line"]);
   (["history"; ".history"], ["Usage: history"; "  Display the command history list."]);
   (["clear"], ["Usage: clear"; "  Clear the terminal screen."]);
   (["whoami"], ["Usage: whoami"; "  Print the current user name."]);
   (["hostname"], ["Usage: hostname"; "  Print the system hostname."]);
   (["uname"; "uname-a"], ["Usage: uname"; "  Print system information (OS, version, architecture)."]);
   (["exit"; "quit"], ["Usage: exit"; "  Exit the shell."]);
   (["help"; "?"], ["Usage: help"; "  Show a summary of all built-in commands."])]%string.

Definition show_cmd_help (cmd : list Z) : M world unit :=
  match list_find (λ e, cmd ∈ (str <$> e.1)) help_table with
  | Some (_, (_, ls)) => for_each ls (λ l, wrt (str l ++ [10]))
  | None => wrt (str "No help available for '") ;; wrt cmd ;; wrt (str "'." ++ [10])
  end.

Definition help_commands : list (string * string) :=
  [("echo [args]", "Print arguments to stdout"); ("ls [path]", "List directory contents");
   ("cat [file]", "Print file (or stdin) to stdout"); ("pwd", "Print working directory");
   ("cd [path]", "Change directory (default /)"); ("mkdir <dir>", "Create directory");
   ("rm <file>", "Remove file or directory"); ("touch <file>", "Create empty file");
   ("nano <file>", "Text editor (^O save, ^X exit)"); ("export [NAME=VAL]", "Set/show environment variables");
   ("unset <NAME>", "Remove an environment variable"); ("env", "List all environment variables");
   ("history", "Show command history"); ("clear", "Clear the screen"); ("whoami", "Print current user");
   ("hostname", "Print hostname"); ("uname", "Print system info"); ("exit", "Exit the shell")]%string.

Definition help_line (c : string * string) : M world unit :=
  wrt (str "  ") ;;
  wrt CYAN ;;
  wrt (str c.1) ;;
  wrt RESET ;;
  for_each (replicate (18 - length (str c.1)) tt) (λ _, wrt (str " ")) ;;
  wrt (str c.2) ;;
  wrt_nl.

Definition cmd_help : M world unit :=
  wrt BOLD ;;
  wrt (str "openv shell builtins:" ++ [10]) ;;
  wrt RESET ;;
  wrt (str "  Pipelines: cmd | cmd    Redirect: > file  < file" ++ [10]) ;;
  wrt (str "  Editing: Up/Down=history  Left/Right=move  Ctrl-A/E=start/end  Ctrl-U=kill" ++ [10; 10]) ;;
  for_each help_commands help_line.

(** The text editor: what it writes goes to the file. *)
Definition run_nano (path : list Z) : M world unit := λ w,
  let new_fd p := if create_ok o p then fresh o (fds w) else -1 in
  let '(r, (s, v)) := Nano.run new_fd (mkSession (nano_new path (contents o path)) [], mkIo (input w) []) in
  (r, mkWorld (sh w) (inp v) (log w ++ [(fds w !! 1, out v)] ++ ((λ b, (Some (FileOut path), b.2)) <$> written s))
        (fds w) (pipes w) (forks w) (children w)).

Definition cmd_nano (args : list (list Z)) : M world unit :=
  match args with
  | [] => wrt (str "nano: missing filename" ++ [10])
  | a :: _ => s ← gets sh; run_nano (resolve s a)
  end.

Definition exited : string := "exit".

Definition dispatch (args : list (list Z)) : M world unit :=
  match args with
  | [] => mret tt
  | cmd :: rest =>
      let cmd_is (n : string) := bool_decide (cmd = str n) in
      if bool_decide (str "--help" ∈ args) then show_cmd_help cmd
      else if cmd_is "echo" then cmd_echo rest
      else if cmd_is "ls" then cmd_ls rest
      else if cmd_is "cat" then cmd_cat rest
      else if cmd_is "pwd" then s ← gets sh; wrt (cwd s) ;; wrt_nl
      else if cmd_is "cd" then cmd_cd rest
      else if cmd_is "mkdir" then cmd_mkdir rest
      else if cmd_is "rm" then cmd_rm rest
      else if cmd_is "touch" then cmd_touch rest
      else if cmd_is "help" || cmd_is "?" then cmd_help
      else if cmd_is "clear" then wrt CLR
      else if cmd_is "history" || cmd_is ".history" then cmd_history
      else if cmd_is "nano" then cmd_nano rest
      else if cmd_is "whoami" then wrt (str "guest" ++ [10])
      else if cmd_is "hostname" then wrt (str "openv" ++ [10])
      else if cmd_is "uname" || cmd_is "uname-a" then wrt (str "openv 0.1.0 riscv64gc-unknown-none-elf" ++ [10])
      else if cmd_is "export" then cmd_export rest
      else if cmd_is "unset" then cmd_unset rest
      else if cmd_is "env" || cmd_is "printenv" then cmd_env
      else if cmd_is "exit" || cmd_is "quit" then fail exited
      else wrt (str "sh: ") ;; wrt cmd ;; wrt (str ": command not found" ++ [10])
  end%string.

(** ** Processes *)

(** What a child does between [fork] and its command, on its own copy of the table.  A
    stage without words makes the child panic, which the shell does not notice.  Process
    groups, terminal modes and waiting for the children change nothing here. *)
Definition in_child (c : M world unit) (args : list (list Z)) : M world Z := λ w,
  let pid := fork_pid o (forks w) in
  let w1 := mkWorld (sh w) (input w) (log w) (fds w) (pipes w) (S (forks w)) (children w) in
  if 0 <? pid then
    match c w1 with
    | (Ok _, wc) =>
        match args with
        | [] => (Ok pid, w1)
        | cmd :: _ =>
            (Ok pid, mkWorld (sh w) (input w) (log w) (fds w) (pipes w) (S (forks w))
                       (children w ++ [mkChild args (is_builtin cmd) (fds wc)]))
        end
    | (Err e, _) => (Ok pid, w1)
    | (Panic e, _) => (Ok pid, w1)
    end
  else (Ok pid, w1).

Definition redirect (st : stage) : M world unit :=
  apply_out_redir (stdout_file st) ;; apply_in_redir (stdin_file st) ;; mret tt.

Definition exec_single (st : stage) : M world unit :=
  match args st with
  | [] => mret tt
  | cmd :: _ =>
      if is_builtin cmd then
        saved_out ← apply_out_redir (stdout_file st);
        saved_in ← apply_in_redir (stdin_file st);
        dispatch (args st) ;;
        undo_redir 1 saved_out ;;
        undo_redir 0 saved_in
      else
        pid ← in_child (redirect st) (args st);
        if pid <? 0 then wrt (str "sh: fork failed" ++ [10]) else mret tt
  end.

Definition close_if (fd : Z) : M world unit := if 0 <=? fd then close fd else mret tt.
Definition move_fd (fd target : Z) : M world unit := if 0 <=? fd then dup2 fd target ;; close fd else mret tt.

(** Pipe ends of a child: the previous pipe becomes its input, the next its output. *)
Definition wire (prev_read cur_read cur_write : Z) : M world unit :=
  move_fd prev_read 0 ;; move_fd cur_write 1 ;; close_if cur_read.

Fixpoint exec_stages (stages : list stage) (prev_read : Z) (pids : list Z) : M world (list Z) :=
  match stages with
  | [] => mret pids
  | st :: rest =>
      '(cur_read, cur_write) ← (if bool_decide (rest = []) then mret (-1, -1) else pipe);
      pid ← in_child (wire prev_read cur_read cur_write ;; redirect st) (args st);
      close_if prev_read ;;
      close_if cur_write ;;
      exec_stages rest cur_read (if 0 <? pid then pids ++ [pid] else pids)
  end.

Definition exec_pipeline (stages : list stage) : M world unit := exec_stages stages (-1) [] ;; mret tt.

(** ** The main loop *)

Fixpoint trim_blanks (l : list Z) : list Z :=
  match l with
  | b :: l' => if (b =? 32) || (b =? 9) then trim_blanks l' else l
  | [] => []
  end.

Definition push_history (line : list Z) (s : shell) : shell :=
  if bool_decide (last (history s) = Some line) then s else mkShell (cwd s) (history s ++ [line]) (env s).

Definition run_line (line : list Z) : M world unit :=
  match line with
  | [] => mret tt
  | _ =>
      modify (set_sh (push_history line)) ;;
      match parse_assignment (trim_blanks line) with
      | Some (name, value) => upd_env (λ e, env_set name (expand_vars e value) e)
      | None =>
          s ← gets sh;
          match parse_line (env s) line with
          | [] => mret tt
          | [st] => exec_single st
          | sts => exec_pipeline sts
          end
      end
  end.

(** One turn of the loop for every line, until the input is used up. *)
Fixpoint run_loop (fuel : nat) : M world unit :=
  match fuel with
  | O => fail waits
  | S f =>
      s ← gets sh;
      on_term (prompt s) ;;
      line ← on_term (read_line_raw (getdents o) s);
      run_line line ;;
      run_loop f
  end.

Definition run : M world unit := n ← gets (λ w, length (input w)); run_loop (S n).

(** ** What commands preserve *)

(** The working directory is a normal path, no variable has two values, no empty line and no
    line twice in a row is in the history. *)
Record shell_ok (s : shell) : Prop := {
  cwd_normal : is_absolute (cwd s) = true ∧ Vfs.normalize_path (cwd s) = cwd s;
  env_distinct : NoDup (env s).*1;
  history_nonempty : Forall (λ l, l ≠ []) (history s);
  history_changes : ∀ i l, history s !! i = Some l → history s !! S i ≠ Some l;
}.

(** A relation between worlds that every output and every proper change of the shell's own
    state respects is respected by the built-in commands. *)
Section preserved.
Context (R : world → world → Prop) {HR : PreOrder R}.
Hypothesis R_io : ∀ w w', sh w' = sh w → fds w' = fds w → R w w'.
Hypothesis R_sh : ∀ w f, (∀ s, shell_ok s → shell_ok (f s)) → R w (set_sh f w).

Lemma preserves_wrt b : preserves R (wrt b).
Proof. intros w. by apply R_io. Qed.

Lemma preserves_env f : (∀ e, NoDup e.*1 → NoDup (f e).*1) → preserves R (upd_env f).
Proof. intros Hf w. apply R_sh. intros s []. split; try done. by apply Hf. Qed.

Ltac preserves :=
  repeat first
    [ preserves_step
    | match goal with |- preserves R (wrt _) => apply preserves_wrt | |- preserves R wrt_nl => apply preserves_wrt end ].

Lemma echo_preserves args : preserves R (cmd_echo args).
Proof.
  unfold cmd_echo. apply (preserves_bind R); [|intros ?; preserves]. destruct args as [|a args]; preserves.
  induction args; cbn [echo_rest]; preserves. done.
Qed.

Lemma history_preserves : preserves R cmd_history.
Proof.
  unfold cmd_history. apply (preserves_bind R); [by intros w|]. intros s. destruct (history s) as [|e h]; [preserves|].
  generalize 1%nat (e :: h). intros i l. revert i. induction l as [|x l IH]; intros i; cbn [history_lines]; [preserves|].
  unfold history_pad. preserves. apply IH.
Qed.

Lemma nano_preserves args : preserves R (cmd_nano args).
Proof.
  unfold cmd_nano. preserves. intros w. unfold run_nano. cbv zeta. destruct (Nano.run _ _) as [r [s v]]. by apply R_io.
Qed.

Lemma cd_preserves args : preserves R (cmd_cd args).
Proof.
  unfold cmd_cd. apply (preserves_bind R); [by intros w|]. intros s. cbv zeta. destruct (chdir o _); [|preserves].
  intros w. apply R_sh. intros s' []. split; try done; [|by apply env_set_nodup]. cbn.
  destruct args as [|a args]; [done|]. split; [done|apply resolve_normal].
Qed.

Lemma export_preserves args : preserves R (cmd_export args).
Proof.
  unfold cmd_export, cmd_env. destruct args; [preserves|]. apply (preserves_each R). intros x. unfold export_one.
  destruct (parse_assignment x) as [[name value]|]; apply preserves_env; intros e He; [by apply env_set_nodup|].
  destruct (env_get e x); [done|by apply env_set_nodup].
Qed.

Lemma unset_preserves args : preserves R (cmd_unset args).
Proof. apply (preserves_each R). intros x. apply preserves_env. intros e. apply env_unset_nodup. Qed.

Hypothesis R_touch : ∀ path, preserves R (touch_one path).

Lemma dispatch_preserves args : preserves R (dispatch args).
Proof.
  unfold dispatch. destruct args as [|cmd rest]; [by intros w|]. cbv zeta.
  repeat match goal with |- preserves R (if ?b then _ else _) => destruct b end;
    lazymatch goal with
    | |- preserves R (cmd_echo _) => apply echo_preserves
    | |- preserves R (cmd_touch _) => unfold cmd_touch, each_path; preserves; apply R_touch
    | |- preserves R cmd_history => apply history_preserves
    | |- preserves R (cmd_nano _) => apply nano_preserves
    | |- preserves R (cmd_cd _) => apply cd_preserves
    | |- preserves R (cmd_export _) => apply export_preserves
    | |- preserves R (cmd_unset _) => apply unset_preserves
    | |- preserves R (show_cmd_help _) => unfold show_cmd_help; preserves
    | |- preserves R (cmd_ls _) => unfold cmd_ls; preserves
    | |- preserves R (cmd_cat _) => unfold cmd_cat, cat_one; preserves
    | |- preserves R (cmd_mkdir _) => unfold cmd_mkdir, each_path; preserves
    | |- preserves R (cmd_rm _) => unfold cmd_rm, each_path; preserves
    | |- preserves R cmd_help => unfold cmd_help, help_line; preserves
    | |- preserves R cmd_env => unfold cmd_env; preserves
    | |- _ => preserves
    end.
Qed.
End preserved.

(** ** The state of the shell *)

Definition keeps (w w' : world) : Prop := shell_ok (sh w) → shell_ok (sh w').

#[local] Instance keeps_preorder : PreOrder keeps.
Proof. unfold keeps. split; [intros w H; exact H|]. intros w1 w2 w3 H1 H2 H. exact (H2 (H1 H)). Qed.

Lemma keeps_same {A} (c : M world A) : (∀ w, sh (c w).2 = sh w) → preserves keeps c.
Proof. intros H w. unfold keeps. by rewrite H. Qed.

Lemma open_as_keeps ok x : preserves keeps (open_as ok x).
Proof. apply keeps_same. intros w. unfold open_as. by destruct ok. Qed.

Lemma dup2_keeps a b : preserves keeps (dup2 a b).
Proof. apply keeps_same. intros w. cbn. by destruct (fds w !! a). Qed.

Lemma close_keeps fd : preserves keeps (close fd).
Proof. by apply keeps_same. Qed.

Lemma redir_to_keeps target op : (∀ s, preserves keeps (op s)) → preserves keeps (redir_to target op).
Proof.
  intros Hop. unfold redir_to. apply (preserves_bind keeps); [apply keeps_same; intros w; unfold dup; by destruct (_ !! _)|].
  intros a. apply (preserves_bind keeps); [by apply keeps_same|]. intros s. apply (preserves_bind keeps); [apply Hop|].
  intros fd. apply (preserves_bind keeps); [|by intros; apply keeps_same]. destruct (0 <=? fd); [|by apply keeps_same].
  apply (preserves_bind keeps); [apply dup2_keeps|by intros; apply close_keeps].
Qed.

Lemma redir_keeps f : preserves keeps (apply_out_redir f) ∧ preserves keeps (apply_in_redir f).
Proof.
  destruct f; [|by split; apply keeps_same]. split; apply redir_to_keeps; intros s; apply open_as_keeps.
Qed.

Lemma undo_keeps target saved : preserves keeps (undo_redir target saved).
Proof.
  unfold undo_redir. destruct (0 <=? saved); [|by apply keeps_same].
  apply (preserves_bind keeps); [apply dup2_keeps|by intros; apply close_keeps].
Qed.

Lemma in_child_keeps c args : preserves keeps (in_child c args).
Proof.
  apply keeps_same. intros w. unfold in_child. destruct (0 <? _); [|done]. destruct (c _) as [[]]; [|done..]. by destruct args.
Qed.

Lemma dispatch_keeps args : preserves keeps (dispatch args).
Proof.
  apply dispatch_preserves; [apply _| | |].
  - intros w w' E _. unfold keeps. by rewrite E.
  - intros w f Hf. exact (Hf (sh w)).
  - intros path. apply (preserves_bind keeps); [apply open_as_keeps|]. intros fd. destruct (fd <? 0); by apply keeps_same.
Qed.

Lemma exec_single_keeps st : preserves keeps (exec_single st).
Proof.
  unfold exec_single. destruct (args st) as [|cmd rest] eqn:E; [by apply keeps_same|]. rewrite <-E. destruct (is_builtin cmd).
  - apply (preserves_bind keeps); [apply redir_keeps|]. intros s1. apply (preserves_bind keeps); [apply redir_keeps|]. intros s2.
    apply (preserves_bind keeps); [apply dispatch_keeps|]. intros ?.
    apply (preserves_bind keeps); intros; apply undo_keeps.
  - apply (preserves_bind keeps); [apply in_child_keeps|]. intros pid. destruct (pid <? 0); by apply keeps_same.
Qed.

Lemma exec_stages_keeps stages : ∀ prev pids, preserves keeps (exec_stages stages prev pids).
Proof.
  induction stages as [|st rest IH]; intros prev pids; [by apply keeps_same|]. cbn [exec_stages].
  apply (preserves_bind keeps).
  { destruct (bool_decide _); [by apply keeps_same|]. apply keeps_same. intros w. unfold pipe. by destruct (pipe_ok o _). }
  intros [r e]. apply (preserves_bind keeps); [apply in_child_keeps|]. intros pid.
  apply (preserves_bind keeps); [unfold close_if; destruct (0 <=? prev); by apply keeps_same|]. intros ?.
  apply (preserves_bind keeps); [unfold close_if; destruct (0 <=? e); by apply keeps_same|]. intros ?. apply IH.
Qed.

Lemma push_history_ok l s : l ≠ [] → shell_ok s → shell_ok (push_history l s).
Proof.
  intros Hl [Hc He Hn Hh]. unfold push_history. case_bool_decide as Hlast; [by split|]. split; cbn; [done..| |].
  - apply Forall_app. by split; [|apply Forall_singleton].
  - intros i x Hi Hi'. apply lookup_app_Some in Hi' as [Hi'|[Hlen Hi']].
    + rewrite lookup_app_l in Hi by (apply lookup_lt_Some in Hi'; lia). exact (Hh i x Hi Hi').
    + apply list_lookup_singleton_Some in Hi' as [Hz <-]. apply lookup_app_Some in Hi as [Hi|[? _]]; [|lia].
      apply Hlast. rewrite last_lookup. by replace (Nat.pred (length (history s))) with i by lia.
Qed.

Lemma run_line_keeps line : preserves keeps (run_line line).
Proof.
  unfold run_line. destruct line as [|b line]; [by apply keeps_same|].
  apply (preserves_bind keeps); [intros w Hw; by apply push_history_ok|]. intros ?.
  destruct (parse_assignment _) as [[name value]|].
  - intros w [Hc He Hn Hh]. split; try done. by apply env_set_nodup.
  - apply (preserves_bind keeps); [by apply keeps_same|]. intros s.
    destruct (parse_line _ _) as [|st [|st2 sts]]; [by apply keeps_same|apply exec_single_keeps|].
    apply (preserves_bind keeps); [apply exec_stages_keeps|by intros; apply keeps_same].
Qed.

Lemma on_term_keeps {A} (c : M io A) : preserves keeps (on_term c).
Proof. apply keeps_same. intros w. unfold on_term. by destruct (c _). Qed.

Lemma run_loop_keeps fuel : preserves keeps (run_loop fuel).
Proof.
  induction fuel as [|f IH]; cbn [run_loop]; [by apply keeps_same|].
  apply (preserves_bind keeps); [by apply keeps_same|]. intros s. apply (preserves_bind keeps); [apply on_term_keeps|].
  intros ?. apply (preserves_bind keeps); [apply on_term_keeps|]. intros line.
  apply (preserves_bind keeps); [apply run_line_keeps|by intros].
Qed.

(** whatever is typed and whatever the system answers, the shell's working directory
    stays a normal absolute path, its environment has one value per variable, and its
    history no empty line and no line twice in a row. *)
Theorem shell_invariant w : shell_ok (sh w) → shell_ok (sh (run w).2).
Proof. apply (preserves_bind keeps); [by apply keeps_same|]. intros n. apply run_loop_keeps. Qed.

(** ** Redirection *)

Hypothesis fresh_nonneg : ∀ t, 0 ≤ fresh o t.
Hypothesis fresh_unused : ∀ t, t !! fresh o t = None.

Lemma set_fds_fds f w : fds (set_fds f w) = f (fds w).
Proof. done. Qed.

Lemma set_fds_id w : set_fds (λ _, fds w) w = w.
Proof. by destruct w. Qed.

(** Redirecting a descriptor: it refers to the file if that could be opened, and a copy of
    what it was is kept. *)
Lemma redir_to_ok target ok x old w (op : shell → M world Z) :
  (∀ w1, op (sh w) w1 = open_as ok x w1) → fds w !! target = Some old →
  let saved := fresh o (fds w) in
  redir_to target op w =
    (Ok saved, set_fds (λ t, <[saved := old]> (if ok then <[target := x]> t else t)) w).
Proof.
  intros Hop Hold saved. unfold redir_to. erewrite bind_ok by (unfold dup; rewrite Hold; reflexivity). cbv beta zeta.
  erewrite bind_ok by reflexivity. cbv beta. fold saved. set (w1 := set_fds (<[saved := old]>) w).
  assert (saved ≠ target) as Hne by (intros Heq; pose proof (fresh_unused (fds w)) as H; fold saved in H; rewrite Heq in H; congruence).
  change (sh w1) with (sh w). pose proof (Hop w1) as E. unfold open_as in E.
  destruct ok.
  - erewrite bind_ok by exact E. cbv beta. set (fd := fresh o (fds w1)). rewrite (proj2 (Z.leb_le _ _)) by apply fresh_nonneg.
    pose proof (fresh_unused (fds w1)) as Hfd. fold fd in Hfd.
    erewrite bind_ok by reflexivity. unfold mret, M_ret. f_equal. unfold set_fds, w1, set_fds in *. cbn in *.
    rewrite lookup_insert_eq. cbn. f_equal. apply map_eq. intros j.
    destruct (decide (j = fd)) as [->|]; [|destruct (decide (j = target)) as [->|]; [|destruct (decide (j = saved)) as [->|]]].
    + rewrite lookup_delete_eq. symmetry. rewrite lookup_insert_None in Hfd. destruct Hfd as [H1 H2].
      rewrite !lookup_insert_ne; congruence.
    + rewrite lookup_delete_ne, lookup_insert_eq, lookup_insert_ne, lookup_insert_eq by done. done.
    + rewrite lookup_delete_ne, lookup_insert_ne, lookup_insert_ne, !lookup_insert_eq by done. done.
    + rewrite lookup_delete_ne, !lookup_insert_ne by done. done.
  - erewrite bind_ok by exact E. reflexivity.
Qed.

(** No built-in command changes the descriptors of the shell. *)
Lemma touch_fds path : preserves (λ w w', fds w' = fds w) (touch_one path).
Proof.
  intros w. unfold touch_one, create, open_as, mbind, M_bind. destruct (create_ok o _); [|done]. cbv zeta iota.
  rewrite (proj2 (Z.ltb_ge _ _)) by apply fresh_nonneg. cbn. by apply delete_insert_id.
Qed.

Lemma dispatch_stable args w : fds (dispatch args w).2 = fds w.
Proof.
  refine (dispatch_preserves (λ w w', fds w' = fds w) (HR := _) _ _ _ args w); [|done..|apply touch_fds].
  split; [by intros ?|intros ??? -> ->; done].
Qed.

(** ** Redirected commands *)

Definition redirected (target : Z) (ok : bool) (x : obj) (t : fdtable) : fdtable :=
  <[fresh o t := default x (t !! target)]> (if ok then <[target := x]> t else t).

(** The table a command of a stage runs with. *)
Definition out_table (s : shell) (f : option (list Z)) (t : fdtable) : fdtable :=
  match f with
  | None => t
  | Some g => redirected 1 (create_ok o (resolve s g)) (FileOut (resolve s g)) t
  end.
Definition in_table (s : shell) (f : option (list Z)) (t : fdtable) : fdtable :=
  match f with
  | None => t
  | Some g => redirected 0 (bool_decide (is_Some (contents o (resolve s g)))) (FileIn (resolve s g)) t
  end.

Definition saved_fd (f : option (list Z)) (t : fdtable) : Z := match f with None => -1 | Some _ => fresh o t end.

Lemma out_redir_ok f w old : fds w !! 1 = Some old →
  apply_out_redir f w = (Ok (saved_fd f (fds w)), set_fds (out_table (sh w) f) w).
Proof.
  intros H1. destruct f as [g|]; [|by destruct w]. cbn [apply_out_redir].
  erewrite (redir_to_ok 1 (create_ok o (resolve (sh w) g)) (FileOut (resolve (sh w) g)) old w).
  - f_equal. unfold set_fds, out_table, redirected. by rewrite H1.
  - done.
  - done.
Qed.

Lemma in_redir_ok f w old : fds w !! 0 = Some old →
  apply_in_redir f w = (Ok (saved_fd f (fds w)), set_fds (in_table (sh w) f) w).
Proof.
  intros H1. destruct f as [g|]; [|by destruct w]. cbn [apply_in_redir].
  erewrite (redir_to_ok 0 (bool_decide (is_Some (contents o (resolve (sh w) g)))) (FileIn (resolve (sh w) g)) old w); [|done..].
  f_equal. unfold set_fds, in_table, redirected. by rewrite H1.
Qed.

Lemma out_table_0 s f t a : t !! 0 = Some a → out_table s f t !! 0 = Some a.
Proof.
  intros H. destruct f; [|done]. unfold out_table, redirected. rewrite lookup_insert_ne.
  - destruct (create_ok _ _); [by rewrite lookup_insert_ne|done].
  - intros E. pose proof (fresh_unused t). congruence.
Qed.

Lemma in_table_1 s f t a : t !! 1 = Some a → in_table s f t !! 1 = Some a.
Proof.
  intros H. destruct f; [|done]. unfold in_table, redirected. rewrite lookup_insert_ne.
  - destruct (bool_decide _); [by rewrite lookup_insert_ne|done].
  - intros E. pose proof (fresh_unused t). congruence.
Qed.

Lemma undo_fds target saved w x : 0 ≤ saved → fds w !! saved = Some x →
  undo_redir target saved w = (Ok tt, set_fds (λ t, delete saved (<[target := x]> t)) w).
Proof.
  intros Hs Hx. unfold undo_redir. rewrite (proj2 (Z.leb_le _ _)) by done. erewrite bind_ok by reflexivity.
  unfold close, modify. by rewrite Hx.
Qed.

Lemma saved_ne t target x : t !! target = Some x → fresh o t ≠ target.
Proof. intros H E. pose proof (fresh_unused t). congruence. Qed.

Lemma redirected_lookup target ok x t old j : t !! target = Some old →
  redirected target ok x t !! j =
    if decide (fresh o t = j) then Some old else if ok && bool_decide (target = j) then Some x else t !! j.
Proof.
  intros H. unfold redirected. rewrite H. cbn. rewrite lookup_insert. case_decide; [done|].
  destruct ok; cbn [andb]; [|done]. rewrite lookup_insert. by case_decide; case_bool_decide.
Qed.

Lemma undo_none target w : undo_redir target (-1) w = (Ok tt, w).
Proof. done. Qed.

(** Undoing the last redirection made. *)
Lemma undo_top target ok x t old w : t !! target = Some old → fds w = redirected target ok x t →
  ∃ w', undo_redir target (fresh o t) w = (Ok tt, w') ∧ fds w' = t ∧ log w' = log w ∧ sh w' = sh w.
Proof.
  intros Hold Hw. pose proof (saved_ne _ _ _ Hold) as Hne. pose proof (fresh_unused t) as Hfr. eexists. split.
  { apply (undo_fds target (fresh o t) w old); [apply fresh_nonneg|]. rewrite Hw, (redirected_lookup _ _ _ _ _ _ Hold).
    by rewrite decide_True. }
  split_and!; [|done..]. apply map_eq. intros j. cbn. rewrite lookup_delete, lookup_insert, Hw, (redirected_lookup _ _ _ _ _ _ Hold).
  repeat case_decide; subst; try done. destruct ok; cbn [andb]; [|done]. by rewrite bool_decide_false.
Qed.

(** Undoing the redirection of 1 made before one of 0. *)
Lemma undo_below ok x ok' x' t a b w : t !! 0 = Some a → t !! 1 = Some b →
  let t1 := redirected 1 ok x t in
  fds w = redirected 0 ok' x' t1 →
  ∃ w', undo_redir 1 (fresh o t) w = (Ok tt, w') ∧ log w' = log w ∧ sh w' = sh w ∧
    fds w' = <[fresh o t1 := a]> (if ok' then <[0 := x']> t else t).
Proof.
  intros Ha Hb t1 Hw. pose proof (saved_ne _ _ _ Ha) as N0. pose proof (saved_ne _ _ _ Hb) as N1.
  pose proof (fresh_unused t) as Hfr. pose proof (fresh_unused t1) as Hfr1.
  assert (∀ j, t1 !! j = if decide (fresh o t = j) then Some b else if ok && bool_decide (1 = j) then Some x else t !! j) as L1
    by (intros j; by apply redirected_lookup).
  assert (t1 !! 0 = Some a) as Ha1 by (rewrite L1, decide_False by done; by rewrite bool_decide_false, andb_false_r).
  assert (fresh o t1 ≠ fresh o t) as N2 by (intros E; rewrite E, L1, decide_True in Hfr1 by done; done).
  assert (fresh o t1 ≠ 1) as N3.
  { intros E. rewrite E, L1, decide_False in Hfr1 by done. destruct (ok && _); congruence. }
  assert (∀ j, fds w !! j = if decide (fresh o t1 = j) then Some a else if ok' && bool_decide (0 = j) then Some x' else t1 !! j) as L2
    by (intros j; rewrite Hw; by apply redirected_lookup).
  eexists. split.
  { apply (undo_fds 1 (fresh o t) w b); [apply fresh_nonneg|]. rewrite L2, decide_False by done.
    rewrite bool_decide_false, andb_false_r, L1 by done. by rewrite decide_True. }
  split_and!; [done..|]. apply map_eq. intros j. cbn. rewrite lookup_delete, !lookup_insert, L2.
  destruct (decide (fresh o t = j)) as [<-|]; [by destruct ok'; rewrite ?lookup_insert, !decide_False by done|].
  destruct (decide (1 = j)) as [<-|].
  { rewrite decide_False by done. destruct ok'; [rewrite lookup_insert_ne by done|]; done. }
  destruct (decide (fresh o t1 = j)) as [|]; [done|].
  rewrite L1, decide_False by done. rewrite (bool_decide_false (1 = j)), andb_false_r by done.
  destruct ok'; cbn [andb]; [|done]. rewrite lookup_insert. by case_bool_decide; case_decide.
Qed.

(** Undoing both redirections gives the table back. *)
Lemma undo_tables f g s t a b w : t !! 0 = Some a → t !! 1 = Some b → fds w = in_table s g (out_table s f t) →
  ∃ w', (undo_redir 1 (saved_fd f t) ;; undo_redir 0 (saved_fd g (out_table s f t))) w = (Ok tt, w') ∧
    fds w' = t ∧ log w' = log w ∧ sh w' = sh w.
Proof.
  intros Ha Hb Hw. destruct f as [f|], g as [g|]; cbn [saved_fd out_table in_table] in *.
  - destruct (undo_below _ _ _ _ t a b w Ha Hb Hw) as (w1 & E1 & Hl1 & Hs1 & Hf1). erewrite bind_ok by exact E1.
    set (t1 := redirected 1 _ _ t) in *. set (ok' := bool_decide _) in *. set (x' := FileIn _) in *.
    pose proof (out_table_0 s (Some f) t a Ha) as Ha1. change (t1 !! 0 = Some a) in Ha1.
    pose proof (saved_ne _ _ _ Ha1) as N. eexists. split.
    { apply (undo_fds 0 (fresh o t1) w1 a); [apply fresh_nonneg|]. rewrite Hf1. apply lookup_insert_eq. }
    split_and!; [|done..]. apply map_eq. intros j. cbn. rewrite Hf1, lookup_delete, !lookup_insert.
    repeat case_decide; subst; try done.
    + pose proof (redirected_lookup 1 (create_ok o (resolve s f)) (FileOut (resolve s f)) t b (fresh o t1) Hb) as L.
      fold t1 in L. rewrite fresh_unused in L. destruct (decide _); [done|]. by destruct (_ && _).
    + destruct ok'; [by rewrite lookup_insert_ne|done].
  - destruct (undo_top _ _ _ _ _ w Hb Hw) as (w' & E & H). erewrite bind_ok by exact E. exists w'. by split.
  - erewrite bind_ok by reflexivity. apply (undo_top _ _ _ _ _ w Ha Hw).
  - exists w. split_and!; done.
Qed.

Lemma out_table_1 s f t b : t !! 1 = Some b → create_ok o (resolve s f) = true →
  out_table s (Some f) t !! 1 = Some (FileOut (resolve s f)).
Proof.
  intros H Hc. cbn [out_table]. rewrite (redirected_lookup _ _ _ _ _ _ H).
  rewrite decide_False by (by eapply saved_ne). by rewrite Hc, bool_decide_true.
Qed.

Lemma in_table_0 s f t a : t !! 0 = Some a → is_Some (contents o (resolve s f)) →
  in_table s (Some f) t !! 0 = Some (FileIn (resolve s f)).
Proof.
  intros H Hc. cbn [in_table]. rewrite (redirected_lookup _ _ _ _ _ _ H).
  rewrite decide_False by (by eapply saved_ne). by rewrite !bool_decide_true.
Qed.

(** a built-in command with redirections runs with descriptor 1 on the file created and
    descriptor 0 on the file opened, where those succeed, and when it returns the shell's
    descriptors are what they were before. *)
Theorem redirect_restores st cmd rest a b w w1 :
  let t := in_table (sh w) (stdin_file st) (out_table (sh w) (stdout_file st) (fds w)) in
  args st = cmd :: rest → is_builtin cmd = true → fds w !! 0 = Some a → fds w !! 1 = Some b →
  dispatch (args st) (set_fds (λ _, t) w) = (Ok tt, w1) →
  (∀ f, stdout_file st = Some f → create_ok o (resolve (sh w) f) = true → t !! 1 = Some (FileOut (resolve (sh w) f))) ∧
  (∀ f, stdin_file st = Some f → is_Some (contents o (resolve (sh w) f)) → t !! 0 = Some (FileIn (resolve (sh w) f))) ∧
  ∃ w', exec_single st w = (Ok tt, w') ∧ fds w' = fds w ∧ log w' = log w1 ∧ sh w' = sh w1.
Proof.
  intros t Ha Hb H0 H1 Hd. pose proof (out_table_0 (sh w) (stdout_file st) _ _ H0) as H0'. split_and!.
  - intros f Hf Hc. unfold t. rewrite Hf. apply in_table_1. by eapply out_table_1.
  - intros f Hf Hc. unfold t. rewrite Hf. by eapply in_table_0.
  - unfold exec_single. rewrite Ha, Hb, <-Ha. erewrite bind_ok by (by eapply out_redir_ok). cbv beta.
    erewrite bind_ok by (eapply in_redir_ok; exact H0'). cbv beta.
    erewrite bind_ok; [|exact Hd].
    pose proof (dispatch_stable (args st) (set_fds (λ _, t) w)) as Hs. rewrite Hd in Hs. cbn in Hs.
    apply (undo_tables (stdout_file st) (stdin_file st) (sh w) (fds w) a b w1 H0 H1 Hs).
Qed.

(** ** Pipelines *)

Hypothesis forks_ok : ∀ n, 0 < fork_pid o n.
Hypothesis pipes_ok : ∀ n, pipe_ok o n = true.

(** The table of a child before its own redirections: [i] and [e] say whether it has a pipe
    for input and for output. *)
Definition wired (t : fdtable) (id : nat) (i e : bool) : fdtable :=
  (if e then <[1 := PipeW id]> else (λ t, t)) ((if i then <[0 := PipeR (id - 1)]> else (λ t, t)) t).

(** The shell's table between two stages: the pipe to be read next, if any. *)
Definition with_prev (prev : Z) (id : nat) (t t' : fdtable) : Prop :=
  (prev = -1 ∧ t' = t) ∨ (0 ≤ prev ∧ t !! prev = None ∧ t' = <[prev := PipeR (id - 1)]> t).

Lemma move_fd_ok fd target w x : 0 ≤ fd → fds w !! fd = Some x →
  move_fd fd target w = (Ok tt, set_fds (λ t, delete fd (<[target := x]> t)) w).
Proof.
  intros H Hx. unfold move_fd. rewrite (proj2 (Z.leb_le _ _)) by done. erewrite bind_ok by reflexivity.
  unfold close, modify. by rewrite Hx.
Qed.

Lemma move_prev prev id t w a : with_prev prev id t (fds w) → t !! 0 = Some a →
  move_fd prev 0 w = (Ok tt, set_fds (λ _, if decide (prev = -1) then t else <[0 := PipeR (id - 1)]> t) w).
Proof.
  intros [[-> Ht]|(Hp & Hn & Ht)] H0.
  - rewrite decide_True by done. rewrite <-Ht. by destruct w.
  - rewrite decide_False by lia. erewrite move_fd_ok by (done || (rewrite Ht; apply lookup_insert_eq)).
    f_equal. unfold set_fds. f_equal. rewrite Ht. assert (prev ≠ 0) by congruence.
    rewrite insert_insert_ne, delete_insert_id by (done || by rewrite lookup_insert_ne). done.
Qed.

(** The shell's table while a stage that is not the last is started. *)
Section pipe_tables.
Context (prev r e : Z) (id : nat) (t t' : fdtable) (a b : obj).
Hypothesis Hprev : with_prev prev id t t'.
Hypothesis H0 : t !! 0 = Some a.
Hypothesis H1 : t !! 1 = Some b.
Hypothesis Hr : t' !! r = None.
Hypothesis He : <[r := PipeR id]> t' !! e = None.
Hypothesis Hr0 : 0 ≤ r.
Hypothesis He0 : 0 ≤ e.

Let pt : fdtable := <[e := PipeW id]> (<[r := PipeR id]> t').

Lemma base_lookup j x : t !! j = Some x → t' !! j = Some x.
Proof. destruct Hprev as [[_ ->]|(_ & Hn & ->)]; [done|]. intros Hj. rewrite lookup_insert_ne; [done|congruence]. Qed.

Lemma base_none j : t' !! j = None → t !! j = None.
Proof. destruct Hprev as [[_ ->]|(_ & Hn & ->)]; [done|]. by intros [? _]%lookup_insert_None. Qed.

Lemma pipe_distinct : r ≠ 0 ∧ r ≠ 1 ∧ e ≠ 0 ∧ e ≠ 1 ∧ e ≠ r ∧ (0 ≤ prev → prev ≠ r ∧ prev ≠ e ∧ prev ≠ 0 ∧ prev ≠ 1).
Proof.
  pose proof (base_lookup _ _ H0) as B0. pose proof (base_lookup _ _ H1) as B1.
  apply lookup_insert_None in He as [He' Her]. split_and!; try congruence.
  intros Hp. destruct Hprev as [[-> _]|(_ & Hn & Ht)]; [lia|]. rewrite Ht in Hr, He'.
  apply lookup_insert_None in Hr as [_ Hpr]. apply lookup_insert_None in He' as [_ Hpe]. split_and!; congruence.
Qed.

Lemma prev_above : with_prev prev id (<[e := PipeW id]> (<[r := PipeR id]> t)) pt.
Proof.
  destruct pipe_distinct as (_ & _ & _ & _ & _ & Hp). unfold pt.
  destruct Hprev as [[-> ->]|(Hp0 & Hn & ->)]; [by left|right]. destruct (Hp Hp0) as (P1 & P2 & _).
  split_and!; [done|by rewrite !lookup_insert_ne|].
  rewrite (insert_insert_ne _ r prev), (insert_insert_ne _ e prev) by congruence. done.
Qed.

Lemma wire_table w : fds w = pt →
  ∃ w', wire prev r e w = (Ok tt, w') ∧ sh w' = sh w ∧ fds w' = wired t id (negb (bool_decide (prev = -1))) true.
Proof.
  intros Hw. destruct pipe_distinct as (R0 & R1 & E0 & E1 & ER & _). unfold wire.
  pose proof (base_none _ Hr) as Tr.
  assert (t !! e = None) as Te by (apply base_none; by apply lookup_insert_None in He as []).
  erewrite bind_ok. 2: { eapply move_prev; [rewrite Hw; exact prev_above|]. by rewrite !lookup_insert_ne. }
  set (t2 := if decide (prev = -1) then _ else _).
  assert (∀ j, t2 !! j = if decide (e = j) then Some (PipeW id) else if decide (r = j) then Some (PipeR id) else
    (if bool_decide (prev = -1) then t else <[0 := PipeR (id - 1)]> t) !! j) as L.
  { intros j. unfold t2. destruct (decide (prev = -1)); [rewrite bool_decide_true by done|rewrite bool_decide_false by done].
    - by rewrite !lookup_insert.
    - rewrite !lookup_insert. repeat case_decide; congruence. }
  erewrite bind_ok. 2: { apply (move_fd_ok e 1 _ (PipeW id)); [done|]. cbn. rewrite L. by rewrite decide_True. }
  eexists. split; [unfold close_if; rewrite (proj2 (Z.leb_le _ _)) by done; reflexivity|]. split; [done|].
  apply map_eq. intros j. cbn. rewrite !lookup_delete, lookup_insert, L. unfold wired.
  rewrite lookup_insert. destruct (bool_decide (prev = -1)); cbn [negb]; rewrite ?lookup_insert;
    repeat case_decide; subst; try done; congruence.
Qed.
(** The shell itself keeps the end to be read, and nothing else. *)
Lemma parent_table : delete e (if decide (prev = -1) then pt else delete prev pt) = <[r := PipeR id]> t.
Proof.
  destruct pipe_distinct as (_ & _ & _ & _ & ER & Hp). unfold pt.
  assert (t !! e = None) as Te by (apply base_none; by apply lookup_insert_None in He as []).
  apply map_eq. intros j. destruct Hprev as [[-> ->]|(Hp0 & Hn & Ht)].
  - rewrite decide_True by done. rewrite lookup_delete, !lookup_insert. repeat case_decide; congruence.
  - rewrite decide_False by lia. destruct (Hp Hp0) as (P1 & P2 & _).
    rewrite !lookup_delete, !lookup_insert, Ht, lookup_insert. repeat case_decide; congruence.
Qed.
End pipe_tables.

Lemma wire_last prev id t w a : with_prev prev id t (fds w) → t !! 0 = Some a →
  ∃ w', wire prev (-1) (-1) w = (Ok tt, w') ∧ sh w' = sh w ∧ fds w' = wired t id (negb (bool_decide (prev = -1))) false.
Proof.
  intros Hp H0. unfold wire. erewrite bind_ok by (by eapply move_prev). eexists. split; [reflexivity|]. split; [done|].
  cbn. case_bool_decide; [by rewrite decide_True|by rewrite decide_False].
Qed.

(** The child a stage is run by. *)
Definition stage_child (s : shell) (t : fdtable) (id : nat) (i e : bool) (st : stage) : child :=
  mkChild (args st) (is_builtin (hd [] (args st)))
    (in_table s (stdin_file st) (out_table s (stdout_file st) (wired t id i e))).

Fixpoint stage_children (s : shell) (t : fdtable) (id : nat) (i : bool) (stages : list stage) : list child :=
  match stages with
  | [] => []
  | st :: rest => stage_child s t id i (negb (bool_decide (rest = []))) st :: stage_children s t (S id) true rest
  end.

Lemma wired_0 t id i e a : t !! 0 = Some a → wired t id i e !! 0 = Some (if i then PipeR (id - 1) else a).
Proof. intros H. destruct i, e; unfold wired; rewrite ?lookup_insert; done. Qed.

Lemma wired_1 t id i e b : t !! 1 = Some b → wired t id i e !! 1 = Some (if e then PipeW id else b).
Proof. intros H. destruct i, e; unfold wired; rewrite ?lookup_insert; done. Qed.

Lemma child_ok pr c e st t id i el a b w : args st ≠ [] → t !! 0 = Some a → t !! 1 = Some b →
  (∀ w0, fds w0 = fds w → ∃ w', wire pr c e w0 = (Ok tt, w') ∧ sh w' = sh w0 ∧ fds w' = wired t id i el) →
  in_child (wire pr c e ;; redirect st) (args st) w =
    (Ok (fork_pid o (forks w)),
     mkWorld (sh w) (input w) (log w) (fds w) (pipes w) (S (forks w))
       (children w ++ [stage_child (sh w) t id i el st])).
Proof.
  intros Ha H0 H1 Hw. unfold in_child. rewrite (proj2 (Z.ltb_lt _ _)) by apply forks_ok.
  set (w1 := mkWorld _ _ _ (fds w) _ _ _). destruct (Hw w1 eq_refl) as (w2 & E & Hs & Hf).
  pose proof (wired_0 _ id i el _ H0) as W0. pose proof (wired_1 _ id i el _ H1) as W1. rewrite <-Hf in W0, W1.
  pose proof (out_table_0 (sh w2) (stdout_file st) _ _ W0) as W0'.
  erewrite bind_ok by exact E. unfold redirect. erewrite bind_ok by (by eapply out_redir_ok). cbv beta.
  erewrite bind_ok by (eapply in_redir_ok; exact W0'). cbn. unfold stage_child.
  destruct (args st); [done|]. by rewrite Hf, Hs.
Qed.

Lemma close_if_ok fd w : close_if fd w = (Ok tt, if decide (0 ≤ fd) then set_fds (delete fd) w else w).
Proof.
  unfold close_if. case_decide; [by rewrite (proj2 (Z.leb_le _ _)) by done|].
  by rewrite (proj2 (Z.leb_gt _ _)) by lia.
Qed.

Lemma with_prev_sign prev id t t' : with_prev prev id t t' → (prev = -1 ∧ ¬ 0 ≤ prev) ∨ (prev ≠ -1 ∧ 0 ≤ prev).
Proof. intros [[-> _]|(? & _)]; lia. Qed.

Lemma pipe_opened w : ∃ r e, pipe w = (Ok (r, e), mkWorld (sh w) (input w) (log w)
    (<[e := PipeW (pipes w)]> (<[r := PipeR (pipes w)]> (fds w))) (S (pipes w)) (forks w) (children w)) ∧
  fds w !! r = None ∧ <[r := PipeR (pipes w)]> (fds w) !! e = None ∧ 0 ≤ r ∧ 0 ≤ e.
Proof.
  eexists _, _. unfold pipe. rewrite pipes_ok. split; [reflexivity|]. split_and!; auto using fresh_unused, fresh_nonneg.
Qed.

Lemma stage_step st rest prev pids w t a b :
  with_prev prev (pipes w) t (fds w) → t !! 0 = Some a → t !! 1 = Some b → args st ≠ [] →
  ∃ cur w', exec_stages (st :: rest) prev pids w = exec_stages rest cur (pids ++ [fork_pid o (forks w)]) w' ∧
    with_prev cur (pipes w') t (fds w') ∧ (rest = [] → cur = -1) ∧ (rest ≠ [] → cur ≠ -1 ∧ pipes w' = S (pipes w)) ∧
    sh w' = sh w ∧ log w' = log w ∧
    children w' = children w ++
      [stage_child (sh w) t (pipes w) (negb (bool_decide (prev = -1))) (negb (bool_decide (rest = []))) st].
Proof.
  intros Hp H0 H1 Ha. pose proof (with_prev_sign _ _ _ _ Hp) as Hsign. cbn [exec_stages]. destruct (decide (rest = [])) as [->|Hr].
  - rewrite !(bool_decide_true ([] = [])) by done. erewrite bind_ok by reflexivity. cbv beta iota.
    erewrite bind_ok. 2: { eapply child_ok; [done..|]. intros w0 Hw0. eapply wire_last; [rewrite Hw0; exact Hp|done]. }
    erewrite bind_ok by apply close_if_ok. erewrite bind_ok by apply close_if_ok. cbv beta.
    rewrite (proj2 (Z.ltb_lt _ _)) by apply forks_ok.
    eexists _, _. split; [reflexivity|]. rewrite (decide_False (P := 0 ≤ -1)) by lia. cbn [negb].
    split_and!; try done; try (by case_decide). left. split; [done|].
    destruct Hp as [[-> E]|(P0 & Pn & E)]; [done|]. rewrite decide_True by done. cbn. by rewrite E, delete_insert_id.
  - rewrite !(bool_decide_false (rest = [])) by done. destruct (pipe_opened w) as (r & e & E & Fr & Fe & R0 & E0).
    erewrite bind_ok by exact E. cbv beta iota.
    erewrite bind_ok. 2: { eapply child_ok; [done..|]. intros w0 Hw0. eapply (wire_table prev r e (pipes w) t (fds w)); done. }
    erewrite bind_ok by apply close_if_ok. erewrite bind_ok by apply close_if_ok. cbv beta.
    rewrite (proj2 (Z.ltb_lt _ _)) by apply forks_ok. rewrite (decide_True (P := 0 ≤ e)) by done.
    eexists r, _. split; [reflexivity|]. cbn [negb]. split_and!; try done; try (by case_decide); [|intros _; split; [lia|by case_decide]].
    right. split; [done|]. split; [by eapply base_none|].
    pose proof (parent_table prev r e (pipes w) t (fds w) a b Hp H0 H1 Fr Fe) as T.
    destruct Hsign as [[? ?]|[? ?]]; [rewrite decide_True in T by done; rewrite decide_False by done|
      rewrite decide_False in T by done; rewrite decide_True by done]; cbn; rewrite T; do 2 f_equal; lia.
Qed.

Lemma exec_stages_ok stages : ∀ prev pids w t a b,
  with_prev prev (pipes w) t (fds w) → t !! 0 = Some a → t !! 1 = Some b →
  Forall (λ st, args st ≠ []) stages → (stages = [] → prev = -1) →
  ∃ pids' w', exec_stages stages prev pids w = (Ok pids', w') ∧ fds w' = t ∧ sh w' = sh w ∧ log w' = log w ∧
    children w' = children w ++ stage_children (sh w) t (pipes w) (negb (bool_decide (prev = -1))) stages.
Proof.
  induction stages as [|st rest IH]; intros prev pids w t a b Hp H0 H1 Ha Hl.
  - rewrite (Hl eq_refl) in Hp. eexists _, w. split; [reflexivity|]. rewrite app_nil_r.
    destruct Hp as [[_ ?]|(? & _)]; [done|lia].
  - apply Forall_cons in Ha as [Ha Hrest].
    destruct (stage_step st rest prev pids w t a b Hp H0 H1 Ha) as (cur & w1 & E & Hp1 & Hn & Hc & S1 & L1 & C1).
    destruct (IH cur (pids ++ [fork_pid o (forks w)]) w1 t a b Hp1 H0 H1 Hrest Hn) as (p' & w' & E' & F' & S' & L' & C').
    exists p', w'. rewrite E. split_and!; [done|done|congruence|congruence|]. rewrite C', C1, <-app_assoc, S1. f_equal.
    cbn [stage_children app]. f_equal. destruct (decide (rest = [])) as [->|Hr]; [done|].
    destruct (Hc Hr) as [Hcur ->]. by rewrite bool_decide_false.
Qed.

Lemma stage_children_lookup s t stages : ∀ id i k st, stages !! k = Some st →
  stage_children s t id i stages !! k =
    Some (stage_child s t (id + k) (i || negb (Nat.eqb k 0)) (negb (Nat.eqb (S k) (length stages))) st).
Proof.
  induction stages as [|st0 rest IH]; intros id i k st Hk; [done|]. destruct k as [|k]; cbn [stage_children].
  - injection Hk as ->. cbn. rewrite Nat.add_0_r, orb_false_r. by destruct rest.
  - etrans; [exact (IH (S id) true k st Hk)|]. cbn [orb negb Nat.eqb length]. rewrite orb_true_r.
    do 2 f_equal. lia.
Qed.

Lemma stage_children_length s t stages : ∀ id i, length (stage_children s t id i stages) = length stages.
Proof. induction stages as [|st rest IH]; intros id i; cbn; [done|]. by rewrite IH. Qed.

(** What a table refers to, by any descriptor. *)
Definition refers (P : obj → Prop) (t : fdtable) : Prop := ∀ j x, t !! j = Some x → P x.

Lemma refers_insert P t j x : P x → refers P t → refers P (<[j := x]> t).
Proof. intros Hx Ht k y. rewrite lookup_insert. case_decide; [congruence|apply Ht]. Qed.

Lemma refers_redirected P target ok x t : P x → refers P t → refers P (redirected target ok x t).
Proof.
  intros Hx Ht. apply refers_insert; [|destruct ok; [by apply refers_insert|done]].
  destruct (t !! target) as [y|] eqn:E; [by eapply Ht|done].
Qed.

Lemma stage_child_refers P s t id i e st : (∀ f, P (FileIn f)) → (∀ f, P (FileOut f)) → refers P t →
  (i = true → P (PipeR (id - 1))) → (e = true → P (PipeW id)) → refers P (c_fds (stage_child s t id i e st)).
Proof.
  intros Hi Ho Ht Pi Pe. cbn. assert (refers P (wired t id i e)) as Hw.
  { unfold wired. destruct i, e; auto using refers_insert. }
  assert (refers P (out_table s (stdout_file st) (wired t id i e))) as Hw2.
  { unfold out_table. destruct (stdout_file st); auto using refers_redirected. }
  unfold in_table. destruct (stdin_file st); auto using refers_redirected.
Qed.

(** The objects a child of the [k]-th stage may refer to. *)
Definition may_refer (id k n : nat) (x : obj) : Prop :=
  match x with
  | PipeR m => S m = (id + k)%nat ∧ k ≠ 0%nat
  | PipeW m => m = (id + k)%nat ∧ (S k < n)%nat
  | _ => True
  end.

(** Descriptors 0 and 1 of a child. *)
Lemma stage_child_std s t id i e st a b : t !! 0 = Some a → t !! 1 = Some b →
  let c := c_fds (stage_child s t id i e st) in
  match stdin_file st with
  | None => c !! 0 = Some (if i then PipeR (id - 1) else a)
  | Some f => is_Some (contents o (resolve s f)) → c !! 0 = Some (FileIn (resolve s f))
  end ∧
  match stdout_file st with
  | None => c !! 1 = Some (if e then PipeW id else b)
  | Some f => create_ok o (resolve s f) = true → c !! 1 = Some (FileOut (resolve s f))
  end.
Proof.
  intros H0 H1. pose proof (wired_0 _ id i e _ H0) as W0. pose proof (wired_1 _ id i e _ H1) as W1. cbn. split.
  - pose proof (out_table_0 s (stdout_file st) _ _ W0) as W0'.
    destruct (stdin_file st); [intros Hc; by eapply in_table_0|done].
  - destruct (stdout_file st); [intros Hc; apply in_table_1; by eapply out_table_1|by apply in_table_1].
Qed.

(** C32: a pipeline starts one child per stage, with the words of its stage.  Each child reads
    from the pipe its left neighbour writes to, the outermost ones from and to what the
    shell does, unless the stage redirects; no child keeps any other pipe end, and the shell
    keeps none, so that every pipe is at its end when its writer is gone. *)
Theorem pipeline_wiring stages w a b :
  fds w !! 0 = Some a → fds w !! 1 = Some b → refers (λ x, ∀ n, x ≠ PipeR n ∧ x ≠ PipeW n) (fds w) →
  Forall (λ st, args st ≠ []) stages →
  ∃ w' cs, exec_pipeline stages w = (Ok tt, w') ∧ fds w' = fds w ∧ children w' = children w ++ cs ∧
    length cs = length stages ∧
    ∀ k st c, stages !! k = Some st → cs !! k = Some c →
      c_args c = args st ∧ refers (may_refer (pipes w) k (length stages)) (c_fds c) ∧
      match stdin_file st with
      | None => c_fds c !! 0 = Some (if Nat.eqb k 0 then a else PipeR (pipes w + k - 1))
      | Some f => is_Some (contents o (resolve (sh w) f)) → c_fds c !! 0 = Some (FileIn (resolve (sh w) f))
      end ∧
      match stdout_file st with
      | None => c_fds c !! 1 = Some (if Nat.eqb (S k) (length stages) then b else PipeW (pipes w + k))
      | Some f => create_ok o (resolve (sh w) f) = true → c_fds c !! 1 = Some (FileOut (resolve (sh w) f))
      end.
Proof.
  intros H0 H1 Hn Ha. destruct (exec_stages_ok stages (-1) [] w (fds w) a b) as (p & w' & E & F & _ & _ & C); try done; [by left|].
  eexists w', _. split_and!; [|done|exact C|apply stage_children_length|].
  { unfold exec_pipeline. by erewrite bind_ok by exact E. }
  intros k st c Hk Hc. rewrite (stage_children_lookup _ _ _ _ _ _ _ Hk) in Hc. apply (inj Some) in Hc. subst c.
  pose proof (lookup_lt_Some _ _ _ Hk) as Hlt.
  pose proof (stage_child_std (sh w) (fds w) (pipes w + k) (negb (Nat.eqb k 0)) (negb (Nat.eqb (S k) (length stages))) st a b H0 H1) as Hstd.
  split; [done|]. split.
  - apply stage_child_refers; [done|done| | |].
    + intros j x Hj. destruct x as [|m|m| |]; try done; destruct (Hn j _ Hj m); congruence.
    + intros Hb. destruct k; [done|]. cbn. split; [lia|done].
    + intros Hb%negb_true_iff%Nat.eqb_neq. split; [done|lia].
  - destruct (Nat.eqb k 0), (Nat.eqb (S k) (length stages)); exact Hstd.
Qed.

End shell.

(** ** Instances *)

(** A kernel that answers every call, and gives the number after the largest in use. *)
Definition next_fd (t : fdtable) : Z := map_fold (λ k _ m, Z.max (k + 1) m) 0 t.

Lemma next_fd_above t : 0 ≤ next_fd t ∧ ∀ k x, t !! k = Some x → k < next_fd t.
Proof.
  unfold next_fd. apply (map_fold_weak_ind (λ r (m : fdtable), 0 ≤ r ∧ ∀ k x, m !! k = Some x → k < r)); [done|].
  intros i x m r Hi [H0 Hr]. split; [lia|]. intros k y. rewrite lookup_insert. case_decide; [lia|].
  intros Hk%Hr. lia.
Qed.

Lemma next_fd_nonneg t : 0 ≤ next_fd t.
Proof. apply next_fd_above. Qed.

Lemma next_fd_unused t : t !! next_fd t = None.
Proof. apply eq_None_not_Some. intros [x Hx%next_fd_above]. lia. Qed.

Definition demo_os : os :=
  mkOs (λ _, None) (λ _, true) (λ _, true) (λ _, true) (λ _, true) (λ _, Some (str "text")) []
    (λ n, Z.of_nat n + 2) (λ _, true) next_fd.

Lemma demo_forks n : 0 < fork_pid demo_os n.
Proof. cbn. lia. Qed.

Definition demo_world : world :=
  mkWorld shell_new [] [] (<[0 := Tty]> (<[1 := Tty]> (<[2 := Tty]> ∅))) 0 0 [].

Definition demo_stages : list stage := parse_pipeline (str "cat < in | grep x | sort > out").

Lemma shell_invariant_witness : shell_ok (sh (run demo_os (set_sh (λ s, s) demo_world)).2).
Proof.
  apply (shell_invariant demo_os). split; [done| |apply Forall_nil_2|done].
  apply (bool_decide_unpack _). vm_compute. exact I.
Defined.

Definition demo_echo : stage := mkStage [str "echo"; str "hi"] None (Some (str "f")).

Lemma redirect_restores_witness :
  ∃ w', exec_single demo_os demo_echo demo_world = (Ok tt, w') ∧ fds w' = fds demo_world ∧
    log w' = [(Some (FileOut (str "/f")), str "hi"); (Some (FileOut (str "/f")), [10])].
Proof.
  set (t := in_table demo_os shell_new None (out_table demo_os shell_new (Some (str "f")) (fds demo_world))).
  destruct (dispatch demo_os (args demo_echo) (set_fds (λ _, t) demo_world)) as [r w1] eqn:E.
  pose proof E as E'. vm_compute in E'. injection E' as <- Hw1.
  destruct (redirect_restores demo_os next_fd_nonneg next_fd_unused demo_echo (str "echo") [str "hi"] Tty Tty demo_world w1
    eq_refl eq_refl eq_refl eq_refl E) as (_ & _ & w' & H1 & H2 & H3 & _).
  exists w'. split; [exact H1|]. split; [exact H2|]. rewrite H3, <-Hw1. vm_compute. reflexivity.
Defined.

Lemma pipeline_wiring_witness :
  ∃ w' cs, exec_pipeline demo_os demo_stages demo_world = (Ok tt, w') ∧ fds w' = fds demo_world ∧
    length cs = 3%nat ∧ children w' = cs.
Proof.
  destruct (pipeline_wiring demo_os next_fd_nonneg next_fd_unused demo_forks (λ _, eq_refl) demo_stages demo_world Tty Tty)
    as (w' & cs & H1 & H2 & H3 & H4 & _).
  - reflexivity.
  - reflexivity.
  - unfold demo_world. cbn [fds]. repeat apply refers_insert; [by split..|]. intros j x Hj. by rewrite lookup_empty in Hj.
  - apply (bool_decide_unpack _). vm_compute. exact I.
  - exists w', cs. split; [exact H1|]. split; [exact H2|]. split; [exact H4|exact H3].
Defined.
